(* ===== verification/_CoqProject ===== *)
-Q . S2P
Prelude.v
Slices.v
Adler32.v
Crc32Tables.v
Crc32.v
Sha1.v
Inftrees.v
InftreesDecode.v
Rfc1951.v
Rfc1950.v
Inffixed.v
Symbols.v
InflateState.v
Inffast.v
Inflate.v
Runs.v
BitReader.v
Window.v
InflateCodes.v
FastCodes.v
Blocks.v
Dynamic.v
RawInflate.v
ZlibInflate.v
Sync.v
TreesTables.v
Trees.v
TreesInit.v
BitWriter.v
HuffCodes.v
HuffTree.v
BitLengths.v
BuildTree.v
SendTree.v
CompressBlock.v
BlockTrees.v
BlockHeader.v
BlockState.v
StoredBlock.v
FlushBlock.v
Compressor.v
CompressInflate.v
StdMap.v
BondProtocol.v
BondLaws.v
CsTypes.v
CsWriters.v
CsReaders.v
CsRoundtrip.v
CsTotal.v
MemoryStorage.v
MemoryReads.v
MemoryInvariant.v
MemoryRefinement.v
BondSplicer.v
Packager.v
Uploads.v
HttpHeaders.v
KillSwitch.v
OfflineStorage.v
ModelDisk.v
StorageHandler.v
StorageLaws.v
HttpDecoder.v
UploadCycle.v
TransmitProfiles.v
WorkerThread.v
Backoff.v
Tpm.v
TpmLaws.v
TpmProgress.v
UploadSources.v
