(* ===== verification/Prelude.v ===== *)
(** * Verification of the 1DS telemetry SDK

    The repository is the Microsoft 1DS client telemetry SDK (lib/, C++) with the
    C code it carries (zlib/, lib/tracing/api/sha1.c). An application logs events;
    the SDK decorates them, serializes them in the Bond compact binary protocol,
    queues them in memory and on disk, packages queued records into uploads, compresses
    and posts them, and deletes or releases the records by the answer of the
    collector. This library models parts of that path and of the C code under it as Rocq
    functions and proves what makes them correct.

    ** Conventions

    An unsigned integer of [w] bits is a [Z] with its wrap-around written out
    ([wrap], [swrap]); [unsigned long] is 32 bits, as on the Windows targets, and
    [size_t] is 64 bits. Buffers, arrays and strings are lists of [Z]. Loops that are not
    structural take fuel; the theorems show that the fuel given is enough or that
    some amount is. Locks are not modelled: every operation runs alone, which
    is what the locks give. What is read from clocks, random numbers and the network is an
    argument of the operation that reads it. Logging and assertions have no effect.

    ** The files

    Shared: Prelude (machine integers, bit operations, lists indexed by [Z], record
    update, loops); StdMap (the ordered maps of the standard library with
    strings as keys).

    The C code:
    - Adler32 (zlib/adler32.c): [adler32], [adler32_combine]; the deferred modulo and
      the division-free macros.
    - Crc32Tables, Crc32 (zlib/crc32.h, zlib/crc32.c): the tables and their generator, the
      byte and word loops, [crc32_combine].
    - Sha1 (lib/tracing/api/sha1.c): the transform, the streaming context, the digest.
    - Inftrees, InftreesDecode (zlib/inftrees.c): [inflate_table] and what its tables
      decode; Inffixed (zlib/inffixed.h): the fixed tables.
    - InflateState, Inflate (zlib/inflate.c), Inffast (zlib/inffast.c): the stream
      operations, the state machine of [inflate()] mode by mode, the fast loop. The state
      machine is a state monad over the registers of [inflate()]; a step is one round
      of its [for (;;)] loop.
    - Rfc1951, Rfc1950: reference decoders, bit by bit, of the two formats.
    - Symbols, Runs, BitReader, Window, InflateCodes, FastCodes, Blocks, Dynamic,
      RawInflate, ZlibInflate: the proof that [inflate()] implements the reference decoders,
      from a symbol to a whole stream. Sync: [inflateSync].
    - TreesTables, Trees (zlib/trees.c, trees.h, the types of deflate.h): the compressor's
      bit output, its three trees, tallying and blocks, on one state record; TreesInit:
      the generator of trees.h.
    - Slices, BitWriter, HuffCodes, HuffTree, BitLengths, BuildTree: sums and parts of
      arrays; the output as a string of bit fields; codes and how the decoder reads them;
      the heap and the forest of [build_tree]; the lengths of [gen_bitlen]; the code built.
    - SendTree, BlockTrees, BlockHeader: code lengths as runs, sent and read back.
      CompressBlock, BlockState, StoredBlock, FlushBlock: the literals and matches of a
      block, tallied and sent each way.
    - Compressor: [flush_pending] (zlib/deflate.c) and runs of all these operations as
      a step relation; CompressInflate: the output of a run through [inflate()].

    The SDK:
    - BondProtocol, BondLaws (lib/bond): the protocol writer and reader and their laws.
    - CsTypes, CsWriters, CsReaders (lib/include/public/CsProtocol_types.hpp,
      lib/bond/generated): the 27 structures of an event, their [Serialize] and
      [Deserialize], in every build of the schema. CsRoundtrip: they are inverse. CsTotal:
      the readers on any input.
    - MemoryStorage (lib/offline/MemoryStorage.cpp): the queue in memory. MemoryReads: the order
      of a retrieval. MemoryInvariant: sizes and counts. MemoryRefinement: the queue as two
      maps of available and leased records.
    - BondSplicer, Packager (lib/packager): the body of an upload and the context that
      goes with it. Uploads: what is in it.
    - HttpHeaders, KillSwitch (lib/include/public/IHttpClient.hpp, lib/offline/KillSwitchManager.hpp,
      ClockSkewManager.hpp): what the headers of an answer set.
    - OfflineStorage: the interface [IOfflineStorage] and the contract of a storage as classes, with
      the queue in memory as an instance; a persistent storage may drop records at its limit of
      retries. ModelDisk: the simplest database that keeps the contract, with such a limit or without.
    - StorageHandler (lib/offline/OfflineStorageHandler.cpp, StorageObserver.cpp): a queue
      over a database, any two that keep the contract. StorageLaws: shutdown and killed tenants.
    - HttpDecoder (lib/http/HttpResponseDecoder.cpp and its routes in
      lib/system/TelemetrySystem.cpp): what an answer does. UploadCycle: an upload from retrieval to answer.
    - TransmitProfiles (lib/tpm/TransmitProfiles.cpp): the profiles and the timers of the device.
    - WorkerThread (lib/pal/WorkerThread.cpp, TaskDispatcher.hpp): the queues of tasks and the thread, whose
      round is two steps between which other threads act.
    - Backoff (lib/backoff): the delays after failures, with the interface of a calculator, on real
      numbers with rounding.
    - Tpm (lib/tpm/TransmissionPolicyManager.cpp): the handlers over the worker and the profiles. TpmLaws: they as a
      system of steps with its invariant. TpmProgress: that uploads go on until nothing is left, for any
      source of records; UploadSources: storages that keep the contract are such sources.

    ** What the theorems show

    - Checksums and digests equal their mathematical definitions for any division of
      the input, tables equal what generates them, and combination is that of the
      concatenation.
    - [inflate_table] refuses exactly the invalid codes and otherwise builds tables that
      decode as the canonical code does; [ENOUGH] entries are enough for the calls of
      [inflate()].
    - [inflate()] returns, for enough fuel, what the reference decoder of RFC 1951 or
      RFC 1950 gives: the same output, verdict and unread input, with preset
      dictionaries too.
    - [build_tree] makes a complete code within its limit for any frequencies; the header
      of a block gives its lengths back; a block, stored or coded with either pair of
      trees, decodes to the bytes its literals and matches stand for; so does any run of
      the compressor with its output taken in pieces of any size, through the reference decoder
      and through [inflate()].
    - An event is read back as it was written; the readers stop on every input and make
      values of the C++ types.
    - The queue in memory refines two maps whatever calls are made on it, its sizes are
      exact, and retrievals take the highest latencies first.
    - A package holds the records leased for it, its body is their blobs by tenant and within the
      size allowed, and reads back as their events.
    - The records of an upload are deleted when it is accepted or rejected and available again
      otherwise, unless their retries are used up; shutdown keeps every record; a killed tenant has
      none and gets none.
    - Timers are those of the rule the device selects; tasks run when due and in order; the
      flag of the policy manager tells whether an upload is scheduled, of which there is one at
      most; nothing starts in a pause; accepted uploads empty the storage in a bounded
      number of rounds; delays follow the powers of the multiplier within their bounds.
    - Some theorems show what the code does against its intent: [inflateSync] misses a
      marker, a Retry-After alone blocks nothing, a record too large for an upload is sent again and
      again, a request for an earlier upload changes nothing, records marked DoNotStoreOnDisk are
      written to the database.

    ** Bounds and fuel

    [inflate()]'s theorems are of calls with room for one byte more than the
    output, whose input is given whole and whose flush is not Z_BLOCK or
    Z_TREES. The fuel of [inflate()] is the number of rounds of its loop; the theorems
    give a number from which on the result does not change. The fuel of a Bond
    reader is the length of its input, which it never outruns; that of a round of the
    worker is the number of its timed tasks and one more, which is enough.

    The theorems on runs of the compressor ask that a block fits in the pending
    buffer before its entries in [d_buf] are overwritten ([block_fits]); the code does
    not ensure it, which [fixed_block_overruns] shows. The loops of [build_tree] have the size
    of the heap as fuel, which their lemmas show to be enough.

    ** Not modelled

    - The rest of zlib's compressor (deflate.c, compress.c): the match search with its hash
      chains, the window, the states and headers of [deflate()]. The theorems take any
      literals and matches that do not reach before the data.
    - The gz* file layer, infback.c, the SIMD variants (crc_folding.c, fill_window_sse.c).
    - sqlite/, lib/include/mat/json.hpp, third_party/, googletest/: vendored code the SDK
      only calls.
    - The rest of the platform layer (lib/pal), HTTP clients, JNI, Objective-C, C# and WinRT
      bindings: calls into operating systems and runtimes.
    - The databases (OfflineStorage_SQLite.cpp, OfflineStorage_Room.cpp): SQL statements; the contract
      says what the handler relies on.
    - Locks and data races: a handler of the policy manager is one step. Races between a pause, which
      cancels without the mutex of the schedule, and a request in another thread are outside the model.
    - Doubles that are infinite or NaN in the backoff (an initial value of 0, powers out of range).
    - The front end (lib/api, lib/decorators, lib/stats, lib/filter): not yet. *)

From Stdlib Require Import ZArith Lia.
From stdpp Require Export base tactics list numbers list_numbers.

#[global] Open Scope Z_scope.

(** ** Notation of the C operators

    [≪] and [≫] are stdpp's [Z.shiftl] and [Z.shiftr]. *)

Declare Scope c_scope.
Delimit Scope c_scope with c.
Infix ".&" := Z.land (at level 51, left associativity) : c_scope.
Infix ".^" := Z.lxor (at level 52, left associativity) : c_scope.
Infix ".|" := Z.lor (at level 53, left associativity) : c_scope.
#[global] Open Scope c_scope.

(** ** Unsigned machine integers

    A [w]-bit unsigned integer is the [Z] it denotes; [wrap w] is the
    reduction C performs when a value is stored in a [w]-bit object. *)

Definition wrap (w x : Z) : Z := x mod 2 ^ w.
Abbreviation u8 := (wrap 8).
Abbreviation u16 := (wrap 16).
Abbreviation u32 := (wrap 32).
Abbreviation u64 := (wrap 64).

(** [x] is a value of a [w]-bit unsigned type. *)
Definition ubits (w x : Z) : Prop := 0 ≤ x < 2 ^ w.

(** [wrap] to a signed [w]-bit object (two's complement). *)
Definition swrap (w x : Z) : Z := (x + 2 ^ (w - 1)) mod 2 ^ w - 2 ^ (w - 1).
Abbreviation i32 := (swrap 32).
Abbreviation i64 := (swrap 64).

(** The truth value of an integer used as a condition. *)
Definition c_true (x : Z) : bool := negb (x =? 0).

Create HintDb cint.

(** Bitwise identities of [w]-bit values, bit by bit. *)
Ltac bits_tauto :=
  rewrite ?Z.lxor_spec, ?Z.lor_spec, ?Z.land_spec, ?Z.lxor_spec, ?Z.lor_spec,
    ?Z.land_spec, ?Z.bits_0 by lia;
  repeat match goal with
         | |- context [Z.testbit ?a ?i] => destruct (Z.testbit a i)
         end;
  reflexivity.

(** Equality of exclusive ors up to associativity, commutativity and
    cancellation. *)
Ltac lxor_ac :=
  apply Z.bits_inj'; intros ? ?; rewrite ?Z.lxor_spec, ?Z.bits_0;
  repeat match goal with
         | |- context [Z.testbit ?a ?i] => destruct (Z.testbit a i)
         end;
  reflexivity.

Section Wrap.
  Implicit Types w x y : Z.

Lemma wrap_ubits w x : 0 ≤ w → ubits w (wrap w x).
Proof. intros. apply Z.mod_pos_bound. lia. Qed.

Lemma wrap_small w x : ubits w x → wrap w x = x.
Proof. apply Z.mod_small. Qed.

Lemma wrap_idem w x : wrap w (wrap w x) = wrap w x.
Proof.
  unfold wrap. destruct (decide (0 ≤ w)).
  - apply Z.mod_mod. lia.
  - rewrite Z.pow_neg_r by lia. by rewrite !Z.mod_0_r.
Qed.

Lemma wrap_ones w x : 0 ≤ w → wrap w x = x .& Z.ones w.
Proof. intros. by rewrite Z.land_ones. Qed.

Lemma testbit_wrap w x i :
  0 ≤ w → 0 ≤ i → Z.testbit (wrap w x) i = (i <? w) && Z.testbit x i.
Proof.
  intros Hw Hi. unfold wrap. destruct (Z.ltb_spec i w).
  - rewrite Z.mod_pow2_bits_low by lia. done.
  - rewrite Z.mod_pow2_bits_high by lia. done.
Qed.

Lemma mod_mod_pow2 a b x : 0 ≤ a ≤ b → (x mod 2 ^ b) mod 2 ^ a = x mod 2 ^ a.
Proof.
  intros. apply Z.bits_inj'. intros i Hi. fold (wrap b x) (wrap a x) (wrap a (wrap b x)).
  rewrite !testbit_wrap by lia.
  destruct (Z.ltb_spec i a), (Z.ltb_spec i b); (reflexivity || (exfalso; lia)).
Qed.

Lemma mod_pow2_split r a x : 0 ≤ r → 0 ≤ a →
  x mod 2 ^ (r + a) = x mod 2 ^ r + 2 ^ r * ((x / 2 ^ r) mod 2 ^ a).
Proof. intros. rewrite Z.pow_add_r by lia. apply Z.rem_mul_r; lia. Qed.

Lemma wrap_add_idem_l w x y : wrap w (wrap w x + y) = wrap w (x + y).
Proof.
  unfold wrap. destruct (decide (0 ≤ w)).
  - by rewrite Zplus_mod_idemp_l.
  - rewrite Z.pow_neg_r by lia. by rewrite !Z.mod_0_r.
Qed.

Lemma wrap_add_idem_r w x y : wrap w (x + wrap w y) = wrap w (x + y).
Proof. by rewrite Z.add_comm, wrap_add_idem_l, Z.add_comm. Qed.

Lemma ubits_0 w : 0 ≤ w → ubits w 0.
Proof. unfold ubits. lia. Qed.

Lemma ubits_mono w w' x : w ≤ w' → ubits w x → ubits w' x.
Proof.
  intros Hw [??]. split; [lia|]. eapply Z.lt_le_trans; [done|].
  apply Z.pow_le_mono_r; lia.
Qed.

(** A non-negative number is below [2^w] when its bits from [w] on are 0. *)
Lemma ubits_testbit w x :
  0 ≤ w → 0 ≤ x → (∀ i, w ≤ i → Z.testbit x i = false) → ubits w x.
Proof.
  intros Hw Hx Hb. split; [done|].
  assert (x = wrap w x) as ->; [|apply Z.mod_pos_bound; lia].
  apply Z.bits_inj'. intros i Hi. rewrite testbit_wrap by lia.
  destruct (Z.ltb_spec i w); simpl; auto.
Qed.

Lemma testbit_ubits w x i : ubits w x → w ≤ i → Z.testbit x i = false.
Proof.
  intros Hx Hi. destruct (decide (0 ≤ w)) as [Hw|Hw].
  - rewrite <-(wrap_small w x) by done. rewrite testbit_wrap by lia.
    by destruct (Z.ltb_spec i w); [lia|].
  - destruct Hx as [? Hx]. rewrite Z.pow_neg_r in Hx by lia. lia.
Qed.

Lemma ubits_land_l w x y : 0 ≤ w → 0 ≤ y → ubits w x → ubits w (x .& y).
Proof.
  intros Hw Hy Hx. apply ubits_testbit; [done| |].
  - apply Z.land_nonneg. unfold ubits in Hx. lia.
  - intros i Hi. rewrite Z.land_spec, (testbit_ubits w x) by done. done.
Qed.

Lemma ubits_land_r w x y : 0 ≤ w → ubits w y → ubits w (x .& y).
Proof.
  intros Hw Hy. apply ubits_testbit; [done| |].
  - apply Z.land_nonneg. unfold ubits in Hy. lia.
  - intros i Hi. by rewrite Z.land_spec, (testbit_ubits w y), andb_false_r.
Qed.

Lemma ubits_lor w x y : 0 ≤ w → ubits w x → ubits w y → ubits w (x .| y).
Proof.
  intros Hw Hx Hy. apply ubits_testbit; [done| |].
  - apply Z.lor_nonneg. unfold ubits in *. lia.
  - intros i Hi. by rewrite Z.lor_spec, !(testbit_ubits w).
Qed.

Lemma ubits_lxor w x y : 0 ≤ w → ubits w x → ubits w y → ubits w (x .^ y).
Proof.
  intros Hw Hx Hy. apply ubits_testbit; [done| |].
  - apply Z.lxor_nonneg. unfold ubits in *. lia.
  - intros i Hi. by rewrite Z.lxor_spec, !(testbit_ubits w).
Qed.

Lemma ubits_shiftr w x n : 0 ≤ n → ubits w x → ubits w (x ≫ n).
Proof.
  intros Hn [Hx1 Hx2]. split; [by apply Z.shiftr_nonneg|].
  rewrite Z.shiftr_div_pow2 by done.
  assert (0 < 2 ^ n) by lia.
  eapply Z.le_lt_trans; [|done]. apply Z.div_le_upper_bound; nia.
Qed.

Lemma ubits_shiftr_sub w n x : 0 ≤ n ≤ w → ubits w x → ubits (w - n) (x ≫ n).
Proof.
  intros Hn [Hx1 Hx2]. split; [by apply Z.shiftr_nonneg|].
  rewrite Z.shiftr_div_pow2 by lia. apply Z.div_lt_upper_bound; [lia|].
  rewrite <-Z.pow_add_r by lia. by replace (n + (w - n)) with w by lia.
Qed.

(** Two disjoint bit fields: [|] is [+]. *)
Lemma lor_shiftl_add w x y : 0 ≤ w → ubits w x → x .| (y ≪ w) = x + y * 2 ^ w.
Proof.
  intros Hw Hx. rewrite <-Z.shiftl_mul_pow2 by done.
  assert (Z.land x (y ≪ w) = 0) as H0;
    [|by rewrite Z.add_nocarry_lxor, Z.lxor_lor].
  apply Z.bits_inj'. intros i Hi. rewrite Z.land_spec, Z.bits_0.
  destruct (decide (i < w)).
  - rewrite Z.shiftl_spec_low by lia. apply andb_false_r.
  - rewrite (testbit_ubits w x) by (done || lia). done.
Qed.

End Wrap.

Lemma c_true_land1 x : c_true (x .& 1) = Z.odd x.
Proof.
  unfold c_true. change 1 with (Z.ones 1). rewrite Z.land_ones by lia.
  change (2 ^ 1) with 2. rewrite Zmod_odd. by destruct (Z.odd x).
Qed.

(** A value cut at bit [n]. *)
Lemma split_lxor x n : 0 ≤ n → x = (x .& Z.ones n) .^ ((x ≫ n) ≪ n).
Proof.
  intros Hn. apply Z.bits_inj'. intros i Hi.
  rewrite Z.lxor_spec, Z.land_spec. destruct (decide (i < n)).
  - rewrite Z.shiftl_spec_low, Z.ones_spec_low by lia. by rewrite andb_true_r, xorb_false_r.
  - rewrite Z.shiftl_spec_high, Z.shiftr_spec, Z.ones_spec_high by lia.
    rewrite andb_false_r, xorb_false_l. f_equal. lia.
Qed.

Lemma lxor_shiftl_add w x y : 0 ≤ w → ubits w x → x .^ (y ≪ w) = x + y * 2 ^ w.
Proof.
  intros Hw Hx. rewrite <-lor_shiftl_add by done. apply Z.lxor_lor.
  apply Z.bits_inj'. intros i Hi. rewrite Z.land_spec, Z.bits_0.
  destruct (decide (i < w)).
  - rewrite Z.shiftl_spec_low by lia. apply andb_false_r.
  - rewrite (testbit_ubits w x) by (done || lia). done.
Qed.

#[export] Hint Resolve wrap_ubits ubits_0 ubits_lor ubits_lxor ubits_shiftr
  ubits_land_r : cint.
#[export] Hint Extern 1 (_ ≤ _) => lia : cint.
#[export] Hint Extern 1 (_ < _) => lia : cint.

(** ** Bit reversal

    The low [n] bits of [x], in the opposite order. *)

Fixpoint rev_bits (n : nat) (x : Z) : Z :=
  match n with
  | O => 0
  | S n => 2 ^ Z.of_nat n * (x mod 2) + rev_bits n (x / 2)
  end.

(** The same with an accumulator, for evaluation. *)
Fixpoint rev_acc (n : nat) (x acc : Z) : Z :=
  match n with
  | O => acc
  | S n => rev_acc n (Z.div2 x) (if Z.odd x then Z.succ_double acc else Z.double acc)
  end.

Lemma rev_acc_spec n x : rev_acc n x 0 = rev_bits n x.
Proof.
  assert (∀ acc, rev_acc n x acc = 2 ^ Z.of_nat n * acc + rev_bits n x) as H; [|by rewrite H; lia].
  revert x. induction n as [|n IH]; intros x acc; simpl rev_bits; simpl rev_acc.
  { change (2 ^ Z.of_nat 0) with 1. lia. }
  rewrite IH, Z.div2_div, Zmod_odd, Nat2Z.inj_succ, Z.pow_succ_r by lia.
  destruct (Z.odd x); rewrite ?Z.succ_double_spec, ?Z.double_spec; lia.
Qed.

Lemma rev_bits_ubits n x : ubits (Z.of_nat n) (rev_bits n x).
Proof.
  revert x. induction n as [|n IH]; intros x; simpl rev_bits; [unfold ubits; lia|].
  specialize (IH (x / 2)). pose proof (Z.mod_pos_bound x 2). unfold ubits in *.
  rewrite Nat2Z.inj_succ, Z.pow_succ_r by lia. nia.
Qed.

Lemma rev_bits_testbit n x i : 0 ≤ i →
  Z.testbit (rev_bits n x) i = (i <? Z.of_nat n) && Z.testbit x (Z.of_nat n - 1 - i).
Proof.
  revert x. induction n as [|n IH]; intros x Hi; simpl rev_bits.
  { rewrite Z.bits_0. by destruct (Z.ltb_spec i (Z.of_nat 0)); [lia|]. }
  rewrite Z.add_comm, Z.mul_comm.
  rewrite <-lor_shiftl_add, Z.lor_spec, IH by (lia || apply rev_bits_ubits).
  change 2 with (2 ^ 1). rewrite <-Z.shiftr_div_pow2, <-Z.land_ones by lia.
  destruct (Z.ltb_spec i (Z.of_nat n)), (Z.ltb_spec i (Z.of_nat (S n))); try lia; simpl.
  - rewrite Z.shiftr_spec, Z.shiftl_spec_low, orb_false_r by lia. f_equal. lia.
  - assert (i = Z.of_nat n) as -> by lia. rewrite Z.shiftl_spec_high, Z.land_spec by lia.
    rewrite Z.sub_diag, andb_true_r. f_equal. lia.
  - rewrite Z.shiftl_spec_high, Z.land_spec, Z.ones_spec_high by lia. apply andb_false_r.
Qed.

Lemma rev_bits_involutive n x : rev_bits n (rev_bits n x) = wrap (Z.of_nat n) x.
Proof.
  apply Z.bits_inj'. intros i Hi. rewrite rev_bits_testbit, testbit_wrap by lia.
  destruct (Z.ltb_spec i (Z.of_nat n)); [|done]. simpl. rewrite rev_bits_testbit by lia.
  destruct (Z.ltb_spec (Z.of_nat n - 1 - i) (Z.of_nat n)); [|lia]. simpl. f_equal. lia.
Qed.

(** Dropping the high bits rounds the reversal down. *)
Lemma rev_bits_wrap n l x : 0 ≤ l ≤ Z.of_nat n →
  let k := Z.of_nat n - l in
  rev_bits n (wrap l x) = rev_bits n x - rev_bits n x mod 2 ^ k.
Proof.
  intros Hl k. pose proof (Z.div_mod (rev_bits n x) (2 ^ k)).
  replace (rev_bits n x - rev_bits n x mod 2 ^ k) with ((rev_bits n x / 2 ^ k) * 2 ^ k) by lia.
  rewrite <-Z.shiftl_mul_pow2, <-Z.shiftr_div_pow2 by (unfold k; lia).
  apply Z.bits_inj'. intros i Hi. rewrite rev_bits_testbit by lia.
  destruct (Z.ltb_spec i (Z.of_nat n)); cbn [andb].
  - rewrite testbit_wrap by lia. destruct (decide (i < k)).
    + rewrite Z.shiftl_spec_low by lia. destruct (Z.ltb_spec (Z.of_nat n - 1 - i) l); [lia|done].
    + rewrite Z.shiftl_spec_high, Z.shiftr_spec, rev_bits_testbit by lia.
      destruct (Z.ltb_spec (Z.of_nat n - 1 - i) l), (Z.ltb_spec (i - k + k) (Z.of_nat n)); try lia.
      cbn [andb]. f_equal. lia.
  - rewrite Z.shiftl_spec_high, Z.shiftr_spec, rev_bits_testbit by (unfold k in *; lia).
    by destruct (Z.ltb_spec (i - k + k) (Z.of_nat n)); [lia|].
Qed.

(** ** Bytes, buffers and arrays

    A C buffer passed as a pointer and a length is the list of its bytes; an
    array is a list indexed by [Z]. C reads and writes out of range are
    undefined: [aget] gives the default there and [aset] changes nothing, and
    the components prove that their indices are in range. *)

Abbreviation byte := (ubits 8).
Abbreviation bytes := (Forall (ubits 8)).

Definition zlen {A} (l : list A) : Z := Z.of_nat (length l).

Definition aget {A} `{!Inhabited A} (l : list A) (i : Z) : A := l !!! Z.to_nat i.
Definition aset {A} (l : list A) (i : Z) (x : A) : list A := <[Z.to_nat i := x]> l.

Notation "a .[ i ]" := (aget a i) (at level 1, i at level 200, left associativity,
  format "a .[ i ]") : c_scope.
Notation "a .[ i <- x ]" := (aset a i x) (at level 1, i at level 200,
  left associativity, format "a .[ i  <-  x ]") : c_scope.

Section Arrays.
  Context {A : Type} `{!Inhabited A}.
  Implicit Types (l : list A) (i j : Z) (x : A).

Lemma zlen_nonneg l : 0 ≤ zlen l.
Proof. unfold zlen. lia. Qed.

Lemma zlen_aset l i x : zlen (aset l i x) = zlen l.
Proof. unfold zlen, aset. by rewrite length_insert. Qed.

Lemma aget_aset_eq l i x : 0 ≤ i < zlen l → (aset l i x).[i] = x.
Proof.
  unfold zlen, aget, aset. intros. apply list_lookup_total_insert_eq. lia.
Qed.

Lemma aget_aset_ne l i j x : 0 ≤ i → 0 ≤ j → i ≠ j → (aset l i x).[j] = l.[j].
Proof.
  unfold aget, aset. intros. apply list_lookup_total_insert_ne. lia.
Qed.

Lemma zlen_app l1 l2 : zlen (l1 ++ l2) = zlen l1 + zlen l2.
Proof. unfold zlen. rewrite length_app. lia. Qed.

Lemma zlen_cons x l : zlen (x :: l) = 1 + zlen l.
Proof. unfold zlen. simpl. lia. Qed.

Lemma aget_app_l l k i : 0 ≤ i < zlen l → (l ++ k).[i] = l.[i].
Proof. unfold aget, zlen. intros. apply lookup_total_app_l. lia. Qed.

Lemma aget_snoc l x : (l ++ [x]).[zlen l] = x.
Proof. unfold aget, zlen. rewrite Nat2Z.id, lookup_total_app_r, Nat.sub_diag; done. Qed.

Lemma aget_map_seqZ (f : Z → A) m n i : 0 ≤ i < n → (map f (seqZ m n)).[i] = f (m + i).
Proof.
  intros Hi. unfold aget. apply list_lookup_total_correct.
  change (map f (seqZ m n)) with (f <$> seqZ m n).
  rewrite list_lookup_fmap, lookup_seqZ_lt by lia. simpl. do 2 f_equal. lia.
Qed.

Lemma zlen_map_seqZ (f : Z → A) m n : 0 ≤ n → zlen (map f (seqZ m n)) = n.
Proof. intros. unfold zlen. rewrite length_map, length_seqZ. lia. Qed.

(** Lists of equal length that agree at every index are equal. *)
Lemma list_eq_aget l k :
  zlen l = zlen k → (∀ i, 0 ≤ i < zlen l → l.[i] = k.[i]) → l = k.
Proof.
  unfold zlen. intros Hlen Hi. apply list_eq_same_length with (length k); [done|lia|].
  intros i x y Hlt Hx Hy. specialize (Hi (Z.of_nat i)). unfold aget in Hi.
  rewrite Nat2Z.id, !list_lookup_total_alt, Hx, Hy in Hi. apply Hi. lia.
Qed.

Lemma Forall_aget (P : A → Prop) l i : Forall P l → 0 ≤ i < zlen l → P l.[i].
Proof.
  intros HP Hi. apply (Forall_lookup_total_1 P l); [done|].
  unfold zlen in Hi. lia.
Qed.

Lemma Forall_aset (P : A → Prop) l i x : Forall P l → P x → Forall P (aset l i x).
Proof. intros. by apply Forall_insert. Qed.

End Arrays.

Create Rewrite HintDb zlen.
#[export] Hint Rewrite @zlen_app @zlen_cons @zlen_aset : zlen.

(** [f] holds of [lo .. lo + n - 1]; evaluates fast. *)
Fixpoint forall_range (f : Z → bool) (lo : Z) (n : nat) : bool :=
  match n with
  | O => true
  | S n => f lo && forall_range f (lo + 1) n
  end.

Lemma forall_range_spec f lo n x :
  forall_range f lo n = true → lo ≤ x < lo + Z.of_nat n → f x = true.
Proof.
  revert lo. induction n as [|n IH]; intros lo H Hx; [lia|].
  simpl in H. apply andb_true_iff in H as [H1 H2].
  destruct (decide (x = lo)) as [->|]; [done|]. apply (IH (lo + 1)); [done|lia].
Qed.

(** ** The four bytes of a 32-bit word *)

Definition quad (b0 b1 b2 b3 : Z) : Z := b0 + 2 ^ 8 * b1 + 2 ^ 16 * b2 + 2 ^ 24 * b3.

Lemma quad_exists q : ubits 32 q →
  ∃ b0 b1 b2 b3, bytes [b0; b1; b2; b3] ∧ q = quad b0 b1 b2 b3.
Proof.
  intros Hq. exists (q mod 2 ^ 8), (q / 2 ^ 8 mod 2 ^ 8), (q / 2 ^ 16 mod 2 ^ 8), (q / 2 ^ 24).
  unfold ubits, quad in *. split.
  - repeat constructor; Z.div_mod_to_equations; lia.
  - Z.div_mod_to_equations. lia.
Qed.

Lemma quad_fields b0 b1 b2 b3 : bytes [b0; b1; b2; b3] →
  let q := quad b0 b1 b2 b3 in
  (q .& 0xff) = b0 ∧ ((q ≫ 8) .& 0xff) = b1 ∧ ((q ≫ 16) .& 0xff) = b2 ∧ (q ≫ 24) = b3.
Proof.
  rewrite !Forall_cons. intros (H0 & H1 & H2 & H3 & _) q. subst q.
  change 0xff with (Z.ones 8). rewrite !Z.land_ones, !Z.shiftr_div_pow2 by lia.
  unfold ubits, quad in *. split_and!; Z.div_mod_to_equations; lia.
Qed.

Lemma quad_ubits b0 b1 b2 b3 : bytes [b0; b1; b2; b3] → ubits 32 (quad b0 b1 b2 b3).
Proof. rewrite !Forall_cons. unfold ubits, quad. lia. Qed.

Lemma quad_testbit b0 b1 b2 b3 i : bytes [b0; b1; b2; b3] → 0 ≤ i →
  Z.testbit (quad b0 b1 b2 b3) i =
  if i <? 8 then Z.testbit b0 i else if i <? 16 then Z.testbit b1 (i - 8)
  else if i <? 24 then Z.testbit b2 (i - 16) else Z.testbit b3 (i - 24).
Proof.
  rewrite !Forall_cons. intros (H0 & H1 & H2 & H3 & _) Hi.
  assert (∀ x y j, ubits 8 x → 0 ≤ j → Z.testbit (x + 2 ^ 8 * y) j
    = if j <? 8 then Z.testbit x j else Z.testbit y (j - 8)) as Hsplit.
  { intros x y j Hx Hj. rewrite (Z.mul_comm (2 ^ 8)), <-lor_shiftl_add, Z.lor_spec by done.
    destruct (Z.ltb_spec j 8).
    - rewrite Z.shiftl_spec_low by lia. apply orb_false_r.
    - rewrite (testbit_ubits 8 x), Z.shiftl_spec by (done || lia). done. }
  replace (quad b0 b1 b2 b3) with (b0 + 2 ^ 8 * (b1 + 2 ^ 8 * (b2 + 2 ^ 8 * b3)))
    by (unfold quad; lia).
  rewrite Hsplit by done. destruct (Z.ltb_spec i 8); [done|].
  rewrite Hsplit by (done || lia). replace (i - 8 <? 8) with (i <? 16) by lia.
  destruct (Z.ltb_spec i 16); [done|].
  rewrite Hsplit by (done || lia). replace (i - 8 - 8 <? 8) with (i <? 24) by lia.
  destruct (Z.ltb_spec i 24); f_equal; lia.
Qed.

(** The bitwise operators work byte by byte. *)
Section QuadBitwise.
  Context (op : Z → Z → Z) (bop : bool → bool → bool).
  Hypothesis op_spec : ∀ x y i, Z.testbit (op x y) i = bop (Z.testbit x i) (Z.testbit y i).
  Hypothesis op_ubits : ∀ w x y, 0 ≤ w → ubits w x → ubits w y → ubits w (op x y).

Lemma quad_bitwise a0 a1 a2 a3 b0 b1 b2 b3 :
  bytes [a0; a1; a2; a3] → bytes [b0; b1; b2; b3] →
  op (quad a0 a1 a2 a3) (quad b0 b1 b2 b3)
  = quad (op a0 b0) (op a1 b1) (op a2 b2) (op a3 b3)
  ∧ bytes [op a0 b0; op a1 b1; op a2 b2; op a3 b3].
Proof.
  intros Ha Hb. assert (bytes [op a0 b0; op a1 b1; op a2 b2; op a3 b3]) as Hab.
  { rewrite !Forall_cons in *. destruct_and!. split_and!; try done; by apply op_ubits. }
  split; [|done]. apply Z.bits_inj'. intros i Hi. rewrite op_spec, !quad_testbit by done.
  rewrite !op_spec. destruct (i <? 8), (i <? 16), (i <? 24); done.
Qed.

End QuadBitwise.

Definition quad_lxor := quad_bitwise Z.lxor xorb Z.lxor_spec ubits_lxor.
Definition quad_lor := quad_bitwise Z.lor orb Z.lor_spec ubits_lor.

Lemma ubits_land w x y : 0 ≤ w → ubits w x → ubits w y → ubits w (x .& y).
Proof. intros. by apply ubits_land_r. Qed.

Definition quad_land := quad_bitwise Z.land andb Z.land_spec ubits_land.

(** [memcpy(dst + off, src, n)] where [src] lists the [n] bytes. *)
Definition memcpy {A} (dst : list A) (off : Z) (src : list A) : list A :=
  take (Z.to_nat off) dst ++ src ++ drop (Z.to_nat off + length src) dst.

Lemma length_memcpy {A} (dst : list A) off src :
  0 ≤ off → off + zlen src ≤ zlen dst → length (memcpy dst off src) = length dst.
Proof.
  unfold memcpy, zlen. intros. rewrite !length_app, length_take, length_drop. lia.
Qed.

Lemma take_memcpy {A} (dst : list A) off src :
  0 ≤ off ≤ zlen dst →
  take (Z.to_nat off + length src) (memcpy dst off src) = take (Z.to_nat off) dst ++ src.
Proof.
  unfold memcpy, zlen. intros. rewrite app_assoc. apply take_app_length'.
  rewrite length_app, length_take. lia.
Qed.

(** ** Updating a field of a record

    [r <| f := v |>] is [r] with its field [f] set to [v]; a record type
    declares the list of its fields with an [Eta] instance. *)

Class Eta (R : Type) := eta_expand : R → R.
Class Setter {R T : Type} (f : R → T) := set_field : T → R → R.
#[global] Arguments set_field {R T} f {_} v r /.

Ltac find_setter :=
  match goal with
  | |- @Setter ?R ?T ?f =>
      let e := constr:(_ : Eta R) in
      let body := eval hnf in e in
      match eval pattern f in body with
      | ?F _ => exact (λ (v : T) (r : R), F (λ _, v) r)
      end
  end.
#[global] Hint Extern 1 (Setter _) => find_setter : typeclass_instances.

Notation "r <| f := v |>" := (set_field f v r)
  (at level 1, left associativity, f at level 0, v at level 200,
   format "r <|  f  :=  v  |>").

(** ** Loops

    [while fuel c b s] runs [while (c(s)) s = b(s);] for at most [fuel]
    rounds; [for_ lo hi b s] is [for (i = lo; i < hi; i++) s = b(i, s);]. *)

Fixpoint while {S : Type} (fuel : nat) (c : S → bool) (b : S → S) (s : S) : S :=
  match fuel with
  | O => s
  | Datatypes.S fuel => if c s then while fuel c b (b s) else s
  end.

Definition for_ {S : Type} (lo hi : Z) (b : Z → S → S) (s : S) : S :=
  foldl (λ s i, b i s) s (seqZ lo (hi - lo)).

Section Loops.
  Context {S : Type}.

(** Total correctness of [while]: an invariant, and a measure the fuel covers. *)
Lemma while_rule (I : S → Prop) (m : S → nat) fuel c b s :
  (∀ s, I s → c s = true → I (b s) ∧ (m (b s) < m s)%nat) →
  I s → (m s ≤ fuel)%nat →
  I (while fuel c b s) ∧ c (while fuel c b s) = false.
Proof.
  intros Hstep. revert s. induction fuel as [|fuel IH]; intros s HI Hm; simpl.
  - split; [done|]. destruct (c s) eqn:E; [|done].
    destruct (Hstep s HI E). lia.
  - destruct (c s) eqn:E; [|done]. destruct (Hstep s HI E) as [HI' Hm'].
    apply IH; [done|lia].
Qed.

(** Enough fuel makes the result independent of the fuel. *)
Lemma while_fuel (I : S → Prop) (m : S → nat) f1 f2 c b s :
  (∀ s, I s → c s = true → I (b s) ∧ (m (b s) < m s)%nat) →
  I s → (m s ≤ f1)%nat → (m s ≤ f2)%nat →
  while f1 c b s = while f2 c b s.
Proof.
  intros Hstep. revert f2 s. induction f1 as [|f1 IH]; intros f2 s HI H1 H2; simpl.
  - destruct f2; simpl; [done|]. destruct (c s) eqn:E; [|done].
    destruct (Hstep s HI E). lia.
  - destruct f2 as [|f2]; simpl.
    + destruct (c s) eqn:E; [|done]. destruct (Hstep s HI E). lia.
    + destruct (c s) eqn:E; [|done]. destruct (Hstep s HI E). apply IH; [done|lia..].
Qed.

Lemma for_empty lo hi (b : Z → S → S) s : hi ≤ lo → for_ lo hi b s = s.
Proof. intros. unfold for_. by rewrite seqZ_nil by lia. Qed.

Lemma for_first lo hi (b : Z → S → S) s :
  lo < hi → for_ lo hi b s = for_ (Z.succ lo) hi b (b lo s).
Proof.
  intros. unfold for_. rewrite seqZ_cons by lia. simpl. do 2 f_equal. lia.
Qed.

Lemma for_last lo hi (b : Z → S → S) s :
  lo ≤ hi → for_ lo (hi + 1) b s = b hi (for_ lo hi b s).
Proof.
  intros. unfold for_. replace (hi + 1 - lo) with ((hi - lo) + 1) by lia.
  rewrite seqZ_app by lia. rewrite foldl_app. simpl.
  replace (lo + (hi - lo)) with hi by lia. done.
Qed.

(** An invariant indexed by the loop counter. *)
Lemma for_rule (I : Z → S → Prop) lo hi (b : Z → S → S) s :
  lo ≤ hi → I lo s →
  (∀ i s, lo ≤ i < hi → I i s → I (i + 1) (b i s)) →
  I hi (for_ lo hi b s).
Proof.
  intros Hlo H0 Hstep.
  assert (∀ n, 0 ≤ n → lo + n ≤ hi → I (lo + n) (for_ lo (lo + n) b s)) as H.
  { intros n Hn. pattern n. apply natlike_ind; [..|done].
    - intros _. rewrite for_empty by lia. by rewrite Z.add_0_r.
    - intros k Hk IH Hle. rewrite <-Z.add_1_r, Z.add_assoc, for_last by lia.
      apply Hstep; [lia|]. apply IH. lia. }
  specialize (H (hi - lo)). replace (lo + (hi - lo)) with hi in H by lia.
  apply H; lia.
Qed.

End Loops.

Lemma foldl_map {A B C} (f : A → C → A) (g : B → C) a l :
  foldl f a (map g l) = foldl (λ a b, f a (g b)) a l.
Proof. revert a. induction l as [|b l IH]; intros a; simpl; auto. Qed.

Lemma foldl_for {S} (f : S → Z → S) s n :
  foldl f s (seqZ 0 n) = for_ 0 n (λ i s, f s i) s.
Proof. unfold for_. by rewrite Z.sub_0_r. Qed.

(** A loop that takes [k] elements at a time from the front of a buffer, on a
    representation [g c] of the value [c] that [f] folds. *)
Lemma chunk_loop {A B C : Type} (P : B → Prop) (Q : A → Prop) (f : B → A → B) (g : B → C)
    (kz : Z) (k : nat) (step : C → list A → C) fuel c buf :
  kz = Z.of_nat k → (0 < k)%nat →
  (∀ c b, P c → Q b → P (f c b)) →
  (∀ c l, P c → Forall Q l → (k ≤ length l)%nat →
     step (g c) l = g (foldl f c (take k l))) →
  P c → Forall Q buf → (length buf ≤ fuel)%nat →
  ∃ pre rest,
    while fuel (λ st, kz <=? zlen st.2)
      (λ st, (step st.1 st.2, drop k st.2)) (g c, buf)
    = (g (foldl f c pre), rest) ∧ buf = pre ++ rest ∧ (length rest < k)%nat ∧
    P (foldl f c pre).
Proof.
  intros -> Hk HP Hstep. revert c buf. induction fuel as [|fuel IH]; intros c buf Hc Hb Hf; simpl.
  { exists [], buf. simpl. split_and!; [done..|lia|done]. }
  assert (∀ l c, P c → Forall Q l → P (foldl f c l)) as Hfold.
  { induction l as [|b l IHl]; intros c' Hc' Hl; simpl; [done|].
    inversion Hl; subst. eauto. }
  destruct (Z.leb_spec (Z.of_nat k) (zlen buf)) as [Hl|Hl]; unfold zlen in Hl.
  - rewrite Hstep by (done || lia).
    destruct (IH (foldl f c (take k buf)) (drop k buf)) as (pre & rest & E & Hd & Hr & Hp);
      [by apply Hfold; [|apply Forall_take]|by apply Forall_drop|rewrite length_drop; lia|].
    exists (take k buf ++ pre), rest. rewrite E, foldl_app, <-app_assoc, <-Hd, take_drop.
    done.
  - exists [], buf. simpl. split_and!; [done..|lia|done].
Qed.
