(* ===== verification/Slices.v ===== *)
(** * Ranges of an array, exchanges and sums

    The entries of an array from an index on, the permutations that exchanges
    of entries are, and sums over lists of integers. *)

From S2P Require Import Prelude.

(** ** Sums *)

Definition sumf {A} (f : A → Z) (l : list A) : Z := foldr (λ x a, f x + a) 0 l.

Section Sums.
  Context {A : Type}.
  Implicit Types (f g : A → Z) (l : list A).

Lemma sumf_app f l k : sumf f (l ++ k) = sumf f l + sumf f k.
Proof. induction l as [|x l IH]; simpl; [done|]. unfold sumf in *. lia. Qed.

Lemma sumf_cons f x l : sumf f (x :: l) = f x + sumf f l.
Proof. done. Qed.

Lemma sumf_perm f l k : l ≡ₚ k → sumf f l = sumf f k.
Proof. induction 1; simpl; unfold sumf in *; lia. Qed.

Lemma sumf_ext f g l : (∀ x, x ∈ l → f x = g x) → sumf f l = sumf g l.
Proof.
  induction l as [|x l IH]; intros H; [done|]. rewrite !sumf_cons, (H x) by (by left).
  rewrite IH; [done|]. intros y Hy. apply H. by right.
Qed.

Lemma sumf_add f g l : sumf (λ x, f x + g x) l = sumf f l + sumf g l.
Proof. induction l as [|x l IH]; simpl; unfold sumf in *; lia. Qed.

Lemma sumf_mul c f l : sumf (λ x, c * f x) l = c * sumf f l.
Proof. induction l as [|x l IH]; simpl; unfold sumf in *; lia. Qed.

Lemma sumf_map {B} (h : B → A) f (k : list B) : sumf f (map h k) = sumf (λ x, f (h x)) k.
Proof. induction k as [|x k IH]; simpl; unfold sumf in *; lia. Qed.

Lemma sumf_nonneg f l : (∀ x, x ∈ l → 0 ≤ f x) → 0 ≤ sumf f l.
Proof.
  induction l as [|x l IH]; intros H; [done|]. rewrite sumf_cons.
  pose proof (H x ltac:(by left)). assert (0 ≤ sumf f l) by (apply IH; intros y Hy; apply H; by right). lia.
Qed.

Lemma sumf_mono f g l : (∀ x, x ∈ l → f x ≤ g x) → sumf f l ≤ sumf g l.
Proof.
  induction l as [|x l IH]; intros H; [done|]. rewrite !sumf_cons. pose proof (H x ltac:(by left)).
  assert (sumf f l ≤ sumf g l) by (apply IH; intros y Hy; apply H; by right). lia.
Qed.

Lemma sumf_le f l x : (∀ x, x ∈ l → 0 ≤ f x) → x ∈ l → f x ≤ sumf f l.
Proof.
  intros H Hx. apply list_elem_of_split in Hx as (l1 & l2 & ->). rewrite sumf_app, sumf_cons.
  assert (0 ≤ sumf f l1) by (apply sumf_nonneg; intros y Hy; apply H, elem_of_app; by left).
  assert (0 ≤ sumf f l2) by (apply sumf_nonneg; intros y Hy; apply H, elem_of_app; by right; right). lia.
Qed.

Lemma sumf_const c l : sumf (λ _, c) l = c * zlen l.
Proof. induction l as [|x l IH]; [by rewrite Z.mul_0_r|]. rewrite sumf_cons, zlen_cons, IH. lia. Qed.

Lemma sumf_zero f l : (∀ x, x ∈ l → f x = 0) → sumf f l = 0.
Proof. intros H. rewrite (sumf_ext f (λ _, 0)) by done. rewrite sumf_const. lia. Qed.

End Sums.

(** The number of elements with a property. *)
Definition countb {A} (p : A → bool) (l : list A) : Z := sumf (λ x, Z.b2z (p x)) l.

Lemma countb_nonneg {A} (p : A → bool) l : 0 ≤ countb p l.
Proof. apply sumf_nonneg. intros x _. destruct (p x); simpl; lia. Qed.

Lemma countb_le {A} (p : A → bool) l : countb p l ≤ zlen l.
Proof.
  induction l as [|x l IH]; [done|]. unfold countb in *. rewrite sumf_cons, zlen_cons. destruct (p x); simpl; lia.
Qed.

(** Grouping a sum by a value in a range. *)
Lemma sumf_group {A} (k : A → Z) (g : Z → Z) lo n (l : list A) : 0 ≤ n →
  (∀ x, x ∈ l → lo ≤ k x < lo + n) →
  sumf (λ x, g (k x)) l = sumf (λ i, countb (λ x, k x =? i) l * g i) (seqZ lo n).
Proof.
  intros Hn. induction l as [|x l IH]; intros H.
  { symmetry. by apply sumf_zero. }
  rewrite sumf_cons, IH by (intros; apply H; by right).
  pose proof (H x ltac:(by left)) as Hx.
  rewrite (sumf_ext (λ i, countb _ (x :: l) * g i)
    (λ i, (if decide (i = k x) then g i else 0) + countb (λ x, k x =? i) l * g i)).
  2: { intros i _. unfold countb. rewrite sumf_cons. case_decide as E.
       - subst. rewrite Z.eqb_refl. simpl. lia.
       - destruct (Z.eqb_spec (k x) i); [lia|]. simpl. lia. }
  rewrite sumf_add. f_equal.
  replace n with ((k x - lo) + (1 + (lo + n - k x - 1))) by lia.
  rewrite seqZ_app, sumf_app, (seqZ_app _ 1), sumf_app by lia.
  replace (lo + (k x - lo)) with (k x) by lia. change (seqZ (k x) 1) with [k x].
  rewrite sumf_cons, decide_True by done. rewrite !sumf_zero; [lia|..];
    intros i Hi; (apply elem_of_nil in Hi || apply elem_of_seqZ in Hi); rewrite ?decide_False; (done || lia).
Qed.

Lemma map_const_replicate {A} (f : Z → A) x n lo : 0 ≤ n → (∀ i, lo ≤ i < lo + n → f i = x) →
  map f (seqZ lo n) = replicate (Z.to_nat n) x.
Proof.
  intros Hn. revert lo. pattern n. apply natlike_ind; [done| |done]. clear n Hn. intros n Hn IH lo H.
  rewrite seqZ_cons, Z2Nat.inj_succ by lia. simpl. rewrite H by lia. f_equal. rewrite Z.pred_succ.
  apply IH. intros i Hi. apply H. lia.
Qed.

(** ** Slices *)

Section Slices.
  Context {A : Type} `{!Inhabited A}.
  Implicit Types (l k : list A) (x y : A).

(** The entries [lo .. lo + n - 1]. *)
Definition slice (l : list A) (lo n : Z) : list A := map (λ i, l.[i]) (seqZ lo n).

Lemma zlen_slice l lo n : 0 ≤ n → zlen (slice l lo n) = n.
Proof. apply zlen_map_seqZ. Qed.

Lemma slice_nil l lo : slice l lo 0 = [].
Proof. done. Qed.

Lemma slice_app l lo n m : 0 ≤ n → 0 ≤ m → slice l lo (n + m) = slice l lo n ++ slice l (lo + n) m.
Proof. intros. unfold slice. by rewrite seqZ_app, map_app by lia. Qed.

Lemma slice_first l lo n : 0 < n → slice l lo n = l.[lo] :: slice l (lo + 1) (n - 1).
Proof. intros. replace n with (1 + (n - 1)) at 1 by lia. by rewrite slice_app by lia. Qed.

Lemma slice_last l lo n : 0 ≤ n → slice l lo (n + 1) = slice l lo n ++ [l.[lo + n]].
Proof. intros. by rewrite slice_app by lia. Qed.

Lemma slice_ext l k lo n : (∀ i, lo ≤ i < lo + n → l.[i] = k.[i]) → slice l lo n = slice k lo n.
Proof.
  intros H. apply map_ext_in. intros i Hi%list_elem_of_In%elem_of_seqZ. by apply H.
Qed.

Lemma slice_aset l lo n i x : 0 ≤ lo → 0 ≤ i → ¬ lo ≤ i < lo + n → slice (aset l i x) lo n = slice l lo n.
Proof. intros. apply slice_ext. intros j Hj. apply aget_aset_ne; lia. Qed.

Lemma elem_of_slice l lo n x : x ∈ slice l lo n ↔ ∃ i, lo ≤ i < lo + n ∧ x = l.[i].
Proof.
  unfold slice. rewrite list_elem_of_In, in_map_iff. split.
  - intros (i & <- & Hi%list_elem_of_In%elem_of_seqZ). exists i. done.
  - intros (i & Hi & ->). exists i. split; [done|]. by apply list_elem_of_In, elem_of_seqZ.
Qed.

Lemma slice_all l : slice l 0 (zlen l) = l.
Proof.
  apply list_eq. intros i. unfold slice. change (map ?f ?l) with (f <$> l). rewrite list_lookup_fmap.
  destruct (decide (i < length l)%nat) as [Hi|Hi].
  - rewrite lookup_seqZ_lt by (unfold zlen; lia). simpl. rewrite (list_lookup_lookup_total_lt l i) by done.
    unfold aget. do 2 f_equal. lia.
  - rewrite lookup_seqZ_ge by (unfold zlen; lia). symmetry. apply lookup_ge_None. lia.
Qed.

(** An exchange is a permutation. *)
Lemma insert_perm l i x y : l !! i = Some x → y :: l ≡ₚ x :: <[i := y]> l.
Proof.
  revert i. induction l as [|z l IH]; intros [|i] H; simpl in *; [done..| |].
  - injection H as ->. apply Permutation_swap.
  - rewrite Permutation_swap, (IH i) by done. apply Permutation_swap.
Qed.

Lemma exchange_perm l i j : 0 ≤ i < zlen l → 0 ≤ j < zlen l → i ≠ j →
  l.[i <- l.[j]].[j <- l.[i]] ≡ₚ l.
Proof.
  intros Hi Hj Hne. unfold aset, aget, zlen in *.
  pose proof (list_lookup_lookup_total_lt l (Z.to_nat i) ltac:(lia)) as Ei.
  pose proof (list_lookup_lookup_total_lt l (Z.to_nat j) ltac:(lia)) as Ej.
  pose proof (insert_perm l _ _ (l !!! Z.to_nat j) Ei) as P1.
  assert (<[Z.to_nat i := l !!! Z.to_nat j]> l !! Z.to_nat j = Some (l !!! Z.to_nat j)) as Ej'
    by (rewrite list_lookup_insert_ne by lia; done).
  pose proof (insert_perm _ _ _ (l !!! Z.to_nat i) Ej') as P2.
  apply (Permutation_cons_inv (a := l !!! Z.to_nat j)). symmetry. by rewrite P1, P2.
Qed.

(** Arrays that agree outside a range and are permutations agree in it up to order. *)
Lemma slice_perm l k lo n : 0 ≤ lo → 0 ≤ n → lo + n ≤ zlen l → zlen k = zlen l → l ≡ₚ k →
  (∀ i, 0 ≤ i → ¬ lo ≤ i < lo + n → l.[i] = k.[i]) → slice l lo n ≡ₚ slice k lo n.
Proof.
  intros Hlo Hn Hl Hk P H. rewrite <-(slice_all l), <-(slice_all k), Hk in P.
  replace (zlen l) with (lo + (n + (zlen l - lo - n))) in P by lia.
  rewrite !(slice_app _ 0 lo), !(slice_app _ _ n) in P by lia. rewrite Z.add_0_l in P.
  rewrite (slice_ext l k 0) in P by (intros; apply H; lia).
  rewrite (slice_ext l k (lo + n)) in P by (intros; apply H; lia).
  by apply Permutation_app_inv_l, Permutation_app_inv_r in P.
Qed.

End Slices.
