(* ===== verification/Adler32.v ===== *)
(** * zlib/adler32.c: the Adler-32 checksum

    [adler32_z] is the function of the source with its three paths (one byte,
    fewer than 16 bytes, blocks of [NMAX] bytes with deferred reductions) on
    32-bit [uLong]s; [adler_ref] is the definition of RFC 1950, which reduces
    both sums after every byte. The theorems show that the deferred reductions
    never overflow 32 bits and that the two agree, that the checksum of a
    stream does not depend on how it is cut into buffers, that
    [adler32_combine] glues checksums, and that the division-free macros of
    NO_DIVIDE compute the same residues. *)

From S2P Require Import Prelude.

Module Adler32.

Definition BASE : Z := 65521.
Definition NMAX : Z := 5552.
#[global] Arguments NMAX : simpl never.

(** ** The macros *)

(** The two running sums [adler] and [sum2] of [adler32_z]. *)
Record sums := Sums { s_adler : Z; s_sum2 : Z }.

(** [adler += b; sum2 += adler;] *)
Definition add_byte (b : Z) (s : sums) : sums :=
  let adler := u32 (s_adler s + b) in
  Sums adler (u32 (s_sum2 s + adler)).

Definition DO1 (buf : list Z) (i : Z) (s : sums) : sums := add_byte buf.[i] s.
Definition DO2 (buf : list Z) (i : Z) (s : sums) : sums := DO1 buf (i + 1) (DO1 buf i s).
Definition DO4 (buf : list Z) (i : Z) (s : sums) : sums := DO2 buf (i + 2) (DO2 buf i s).
Definition DO8 (buf : list Z) (i : Z) (s : sums) : sums := DO4 buf (i + 4) (DO4 buf i s).
Definition DO16 (buf : list Z) (s : sums) : sums := DO8 buf 8 (DO8 buf 0 s).

(** The macros of the NO_DIVIDE configuration. *)
Definition CHOP (a : Z) : Z :=
  let tmp := a ≫ 16 in
  u32 ((a .& 0xffff) + u32 (u32 (tmp ≪ 4) - tmp)).
Definition MOD28_nodivide (a : Z) : Z :=
  let a := CHOP a in if BASE <=? a then a - BASE else a.
Definition MOD_nodivide (a : Z) : Z := MOD28_nodivide (CHOP a).
Definition MOD63_nodivide (a : Z) : Z :=
  let tmp := a ≫ 32 in
  let a := (a .& 0xffffffff) + ((tmp ≪ 8) - (tmp ≪ 5) + tmp) in
  let tmp := a ≫ 16 in
  let a := (a .& 0xffff) + ((tmp ≪ 4) - tmp) in
  let tmp := a ≫ 16 in
  let a := (a .& 0xffff) + ((tmp ≪ 4) - tmp) in
  if BASE <=? a then a - BASE else a.

(** The macros of the default configuration. *)
Definition MOD (a : Z) : Z := a mod BASE.
Definition MOD28 (a : Z) : Z := a mod BASE.
Definition MOD63 (a : Z) : Z := a mod BASE.

(** ** adler32_z *)

(** [do { DO16(buf); buf += 16; } while (--n);] *)
Fixpoint do16_loop (n : nat) (buf : list Z) (s : sums) : list Z * sums :=
  match n with
  | O => (buf, s)
  | S n => do16_loop n (drop 16 buf) (DO16 buf s)
  end.

(** [while (len--) { adler += *buf++; sum2 += adler; }] *)
Definition byte_loop (buf : list Z) (s : sums) : sums :=
  foldl (λ s b, add_byte b s) s buf.

(** One round of the [while (len >= NMAX)] loop. *)
Definition nmax_block (st : list Z * sums) : list Z * sums :=
  let '(buf, s) := do16_loop (Z.to_nat (NMAX / 16)) st.1 st.2 in
  (buf, Sums (MOD (s_adler s)) (MOD (s_sum2 s))).

Definition nmax_loop (buf : list Z) (s : sums) : list Z * sums :=
  while (length buf) (λ st, NMAX <=? zlen st.1) nmax_block (buf, s).

(** The remaining bytes, fewer than [NMAX]. *)
Definition remaining (buf : list Z) (s : sums) : sums :=
  if zlen buf =? 0 then s
  else
    let '(buf, s) := do16_loop (Z.to_nat (zlen buf / 16)) buf s in
    let s := byte_loop buf s in
    Sums (MOD (s_adler s)) (MOD (s_sum2 s)).

(** [buf] is [None] for [Z_NULL]. *)
Definition adler32_z (adler : Z) (buf : option (list Z)) : Z :=
  let sum2 := (adler ≫ 16) .& 0xffff in
  let adler := adler .& 0xffff in
  match buf with
  | None => 1
  | Some buf =>
      if zlen buf =? 1 then
        let adler := u32 (adler + buf.[0]) in
        let adler := if BASE <=? adler then adler - BASE else adler in
        let sum2 := u32 (sum2 + adler) in
        let sum2 := if BASE <=? sum2 then sum2 - BASE else sum2 in
        adler .| u32 (sum2 ≪ 16)
      else if zlen buf <? 16 then
        let s := byte_loop buf (Sums adler sum2) in
        let adler := if BASE <=? s_adler s then s_adler s - BASE else s_adler s in
        adler .| u32 (MOD28 (s_sum2 s) ≪ 16)
      else
        let '(buf, s) := nmax_loop buf (Sums adler sum2) in
        let s := remaining buf s in
        s_adler s .| u32 (s_sum2 s ≪ 16)
  end.

Definition adler32 (adler : Z) (buf : option (list Z)) : Z := adler32_z adler buf.

(** ** adler32_combine *)

Definition adler32_combine_ (adler1 adler2 len2 : Z) : Z :=
  if len2 <? 0 then 0xffffffff
  else
    let rem := u32 (MOD63 len2) in
    let sum1 := adler1 .& 0xffff in
    let sum2 := MOD (u32 (rem * sum1)) in
    let sum1 := u32 (sum1 + u32 ((adler2 .& 0xffff) + BASE - 1)) in
    let sum2 := u32 (sum2 + u32 (((adler1 ≫ 16) .& 0xffff)
                                 + ((adler2 ≫ 16) .& 0xffff) + BASE - rem)) in
    let sum1 := if BASE <=? sum1 then sum1 - BASE else sum1 in
    let sum1 := if BASE <=? sum1 then sum1 - BASE else sum1 in
    let sum2 := if (BASE ≪ 1) <=? sum2 then sum2 - (BASE ≪ 1) else sum2 in
    let sum2 := if BASE <=? sum2 then sum2 - BASE else sum2 in
    sum1 .| u32 (sum2 ≪ 16).

(** [z_off_t] is [long] (32 bits), [z_off64_t] is 64 bits wide. *)
Definition adler32_combine (adler1 adler2 len2 : Z) : Z :=
  adler32_combine_ adler1 adler2 (i32 len2).
Definition adler32_combine64 (adler1 adler2 len2 : Z) : Z :=
  adler32_combine_ adler1 adler2 (i64 len2).

(** ** Reference: RFC 1950 *)

(** One byte: both sums reduced at once. *)
Definition adler_step (ab : Z * Z) (b : Z) : Z * Z :=
  let a := (ab.1 + b) mod BASE in (a, (ab.2 + a) mod BASE).

(** A checksum value is [b << 16 | a] with both sums below [BASE]. *)
Definition pack (ab : Z * Z) : Z := ab.1 + ab.2 * 2 ^ 16.
Definition unpack (adler : Z) : Z * Z := (adler mod 2 ^ 16, adler / 2 ^ 16).
Definition valid (adler : Z) : Prop :=
  0 ≤ adler ∧ adler mod 2 ^ 16 < BASE ∧ adler / 2 ^ 16 < BASE.

Definition adler_ref (adler : Z) (buf : list Z) : Z :=
  pack (foldl adler_step (unpack adler) buf).

(** ** The unrolled loops process one byte after the other *)

Lemma DO16_bytes buf s :
  (16 ≤ length buf)%nat → DO16 buf s = byte_loop (take 16 buf) s.
Proof.
  intros Hlen. do 16 (destruct buf as [|? buf]; [simpl in Hlen; lia|]).
  unfold DO16, DO8, DO4, DO2, DO1, byte_loop. by generalize add_byte.
Qed.

Lemma do16_loop_bytes n buf s :
  (16 * n ≤ length buf)%nat →
  do16_loop n buf s = (drop (16 * n) buf, byte_loop (take (16 * n) buf) s).
Proof.
  revert buf s. induction n as [|n IH]; intros buf s Hlen; simpl do16_loop.
  { by rewrite Nat.mul_0_r, drop_0, take_0. }
  rewrite IH by (rewrite length_drop; lia). rewrite DO16_bytes by lia.
  rewrite drop_drop. replace (16 + 16 * n)%nat with (16 * S n)%nat by lia.
  f_equal. unfold byte_loop. rewrite <-foldl_app.
  f_equal. rewrite <-(take_drop 16 (take (16 * S n) buf)).
  f_equal; [rewrite take_take; f_equal; lia|].
  rewrite skipn_firstn_comm. f_equal. lia.
Qed.

(** ** No overflow in a run of at most [NMAX] bytes *)

Definition residues (s : sums) : Z * Z := (s_adler s mod BASE, s_sum2 s mod BASE).

Lemma adler_step_mod a s b :
  adler_step (a mod BASE, s mod BASE) b
  = ((a + b) mod BASE, (s + (a + b)) mod BASE).
Proof.
  unfold adler_step. simpl. rewrite Zplus_mod_idemp_l. f_equal.
  by rewrite <-Zplus_mod.
Qed.

(** The sums stay below the bound the caller has room for, so that no addition
    wraps, and their residues follow the reference. *)
Lemma byte_loop_exact l a s :
  bytes l → 0 ≤ a → 0 ≤ s →
  2 * s + 2 * zlen l * a + 255 * zlen l * (zlen l + 1) < 2 ^ 33 →
  a ≤ s_adler (byte_loop l (Sums a s)) ≤ a + 255 * zlen l ∧
  0 ≤ s_sum2 (byte_loop l (Sums a s)) ∧
  residues (byte_loop l (Sums a s)) = foldl adler_step (residues (Sums a s)) l.
Proof.
  intros Hl. revert a s. induction Hl as [|b l [Hb1 Hb2] Hl IH]; intros a s Ha Hs Hroom.
  { change (zlen []) with 0. simpl. split_and!; [lia..|done]. }
  rewrite zlen_cons in *. pose proof (zlen_nonneg l).
  change (byte_loop (b :: l) (Sums a s))
    with (byte_loop l (Sums (u32 (a + b)) (u32 (s + u32 (a + b))))).
  set (n := zlen l) in *.
  assert (0 ≤ n * a) by (apply Z.mul_nonneg_nonneg; lia).
  assert (0 ≤ n * n) by (apply Z.mul_nonneg_nonneg; lia).
  assert (n * b ≤ n * 255) by (apply Z.mul_le_mono_nonneg_l; lia).
  assert (a + b < 2 ^ 32) by lia. assert (s + (a + b) < 2 ^ 32) by lia.
  rewrite !(wrap_small 32) by (unfold ubits; rewrite ?wrap_small; unfold ubits; lia).
  destruct (IH (a + b) (s + (a + b))) as (Hi1 & Hi2 & Hi3); [lia|lia|lia|].
  split_and!; [lia|lia|lia|]. rewrite Hi3. cbn [foldl].
  f_equal. symmetry. apply adler_step_mod.
Qed.

(** [NMAX] is small enough: starting from reduced sums, [NMAX] bytes fit. *)
Lemma nmax_room a s n :
  0 ≤ a < BASE → 0 ≤ s < BASE → 0 ≤ n ≤ NMAX →
  2 * s + 2 * n * a + 255 * n * (n + 1) < 2 ^ 33.
Proof.
  unfold BASE, NMAX. intros Ha Hs Hn.
  assert (n * a ≤ 5552 * 65520) by (apply Z.mul_le_mono_nonneg; lia).
  assert (n * (n + 1) ≤ 5552 * 5553) by (apply Z.mul_le_mono_nonneg; lia).
  lia.
Qed.

Lemma residues_reduced s :
  0 ≤ s_adler s < BASE → 0 ≤ s_sum2 s < BASE →
  residues s = (s_adler s, s_sum2 s).
Proof. intros. unfold residues. by rewrite !Z.mod_small by done. Qed.

(** What a run of at most [NMAX] bytes followed by [MOD] leaves. *)
Lemma byte_loop_mod l s :
  bytes l → zlen l ≤ NMAX → 0 ≤ s_adler s < BASE → 0 ≤ s_sum2 s < BASE →
  let r := byte_loop l s in
  (MOD (s_adler r), MOD (s_sum2 r)) = foldl adler_step (s_adler s, s_sum2 s) l ∧
  0 ≤ MOD (s_adler r) < BASE ∧ 0 ≤ MOD (s_sum2 r) < BASE.
Proof.
  intros Hl Hn Ha Hs. destruct s as [a s]; simpl in *.
  pose proof (zlen_nonneg l).
  destruct (byte_loop_exact l a s) as (_ & _ & H3); [done|lia|lia|by apply nmax_room|].
  split; [|unfold MOD; split; apply Z.mod_pos_bound; unfold BASE; lia].
  change (MOD (s_adler (byte_loop l (Sums a s))), MOD (s_sum2 (byte_loop l (Sums a s))))
    with (residues (byte_loop l (Sums a s))).
  by rewrite H3, residues_reduced.
Qed.

(** ** The three paths of [adler32_z] against the reference *)

Definition reduced (s : sums) : Prop := 0 ≤ s_adler s < BASE ∧ 0 ≤ s_sum2 s < BASE.

Lemma nmax_block_spec buf s :
  bytes buf → reduced s → NMAX ≤ zlen buf →
  nmax_block (buf, s)
  = (drop (Z.to_nat NMAX) buf,
     let ab := foldl adler_step (s_adler s, s_sum2 s) (take (Z.to_nat NMAX) buf) in
     Sums ab.1 ab.2) ∧
  reduced (nmax_block (buf, s)).2.
Proof.
  intros Hb [Ha Hs] Hn. unfold nmax_block. cbn [fst snd].
  assert (16 * Z.to_nat (NMAX / 16) = Z.to_nat NMAX)%nat as Hk by (by vm_compute).
  assert (0 ≤ NMAX) by done.
  unfold zlen in Hn. rewrite do16_loop_bytes, Hk by (rewrite Hk; lia).
  destruct (byte_loop_mod (take (Z.to_nat NMAX) buf) s) as [Hr Hred];
    [by apply Forall_take|unfold zlen; rewrite length_take; lia|done..|].
  split; [|exact Hred]. by rewrite <-Hr.
Qed.

Lemma nmax_loop_spec buf s :
  bytes buf → reduced s →
  ∃ pre rest s', nmax_loop buf s = (rest, s') ∧ buf = pre ++ rest ∧
    zlen rest < NMAX ∧ reduced s' ∧
    (s_adler s', s_sum2 s') = foldl adler_step (s_adler s, s_sum2 s) pre.
Proof.
  intros Hb Hs. unfold nmax_loop.
  edestruct (while_rule
    (λ st, ∃ pre, buf = pre ++ st.1 ∧ reduced st.2 ∧
       (s_adler st.2, s_sum2 st.2) = foldl adler_step (s_adler s, s_sum2 s) pre)
    (λ st, length st.1) (length buf) (λ st, NMAX <=? zlen st.1) nmax_block (buf, s))
    as [(pre & Hd & Hr & Heq) Hc]; [| |done|].
  - intros [r t] (pre & -> & Hr & Heq) Hc%Z.leb_le. cbn [fst snd s_adler s_sum2] in *.
    apply Forall_app in Hb as [_ Hb].
    destruct (nmax_block_spec r t) as [Hblk Hred]; [done..|].
    rewrite Hblk in Hred |- *. cbn [fst snd s_adler s_sum2] in *. split.
    + exists (pre ++ take (Z.to_nat NMAX) r). rewrite <-app_assoc, take_drop.
      split_and!; [done|done|].
      rewrite foldl_app, <-Heq. by rewrite <-surjective_pairing.
    + unfold zlen, NMAX in *. rewrite length_drop. lia.
  - exists []. done.
  - destruct (while _ _ _ _) as [r t]. cbn [fst snd s_adler s_sum2] in *.
    apply Z.leb_gt in Hc. eauto 10.
Qed.

Lemma remaining_spec buf s :
  bytes buf → reduced s → zlen buf < NMAX →
  reduced (remaining buf s) ∧
  (s_adler (remaining buf s), s_sum2 (remaining buf s))
  = foldl adler_step (s_adler s, s_sum2 s) buf.
Proof.
  intros Hb [Ha Hs] Hn. unfold remaining. destruct (Z.eqb_spec (zlen buf) 0) as [H0|_].
  { unfold zlen in H0. destruct buf; [|simpl in H0; lia]. by split. }
  set (k := Z.to_nat (zlen buf / 16)).
  assert (16 * k ≤ length buf)%nat as Hk.
  { subst k. unfold zlen. pose proof (Z.mul_div_le (Z.of_nat (length buf)) 16).
    pose proof (Z.div_pos (Z.of_nat (length buf)) 16). lia. }
  rewrite do16_loop_bytes by done.
  assert (byte_loop (drop (16 * k) buf) (byte_loop (take (16 * k) buf) s)
          = byte_loop buf s) as ->
    by (unfold byte_loop; rewrite <-foldl_app; by rewrite take_drop).
  destruct (byte_loop_mod buf s) as (Hr & ? & ?); [done|lia|done..|]. done.
Qed.

Lemma cond_sub_mod a : 0 ≤ a < 2 * BASE →
  (if BASE <=? a then a - BASE else a) = a mod BASE.
Proof.
  intros Ha. destruct (Z.leb_spec BASE a).
  - rewrite <-(Z.mod_small (a - BASE) BASE) by lia.
    replace (a - BASE) with (a + (-1) * BASE) by lia. apply Z_mod_plus_full.
  - symmetry. apply Z.mod_small. lia.
Qed.

Lemma pack_lor a b : 0 ≤ a < BASE → 0 ≤ b < BASE → a .| u32 (b ≪ 16) = pack (a, b).
Proof.
  unfold BASE. intros Ha Hb.
  rewrite wrap_small by (unfold ubits; rewrite Z.shiftl_mul_pow2; lia).
  apply lor_shiftl_add; unfold ubits; lia.
Qed.

Lemma split_adler adler : valid adler →
  ((adler ≫ 16) .& 0xffff) = adler / 2 ^ 16 ∧ (adler .& 0xffff) = adler mod 2 ^ 16 ∧
  0 ≤ adler / 2 ^ 16 < BASE ∧ 0 ≤ adler mod 2 ^ 16 < BASE.
Proof.
  intros (H0 & H1 & H2). change 0xffff with (Z.ones 16).
  rewrite !Z.land_ones, Z.shiftr_div_pow2 by lia.
  pose proof (Z.div_pos adler (2 ^ 16)). pose proof (Z.mod_pos_bound adler (2 ^ 16)).
  split_and!; [|lia..]. apply Z.mod_small. unfold BASE in *. lia.
Qed.

Lemma adler_step_range ab l :
  0 ≤ ab.1 < BASE → 0 ≤ ab.2 < BASE →
  0 ≤ (foldl adler_step ab l).1 < BASE ∧ 0 ≤ (foldl adler_step ab l).2 < BASE.
Proof.
  revert ab. induction l as [|b l IH]; intros ab H1 H2; [done|].
  simpl. apply IH; unfold adler_step; simpl; apply Z.mod_pos_bound; unfold BASE; lia.
Qed.

Lemma unpack_pack ab : 0 ≤ ab.1 < BASE → unpack (pack ab) = ab.
Proof.
  unfold unpack, pack, BASE. intros Ha. destruct ab as [a b]; simpl in *.
  rewrite Z_mod_plus_full, Z_div_plus_full, Z.mod_small, Z.div_small by lia. f_equal; lia.
Qed.

Lemma pack_valid ab : 0 ≤ ab.1 < BASE → 0 ≤ ab.2 < BASE → valid (pack ab).
Proof.
  intros Ha Hb. pose proof (unpack_pack ab Ha) as Hu. unfold unpack in Hu.
  assert (pack ab mod 2 ^ 16 = ab.1 ∧ pack ab / 2 ^ 16 = ab.2) as [E1 E2]
    by (split; [exact (f_equal fst Hu)|exact (f_equal snd Hu)]).
  unfold valid. rewrite E1, E2. split_and!; [unfold pack|..]; lia.
Qed.

Lemma adler32_z_path adler buf :
  valid adler → bytes buf → adler32_z adler (Some buf) = adler_ref adler buf.
Proof.
  intros Hv Hb. destruct (split_adler adler Hv) as (E2 & E1 & H2 & H1).
  unfold adler32_z, adler_ref, unpack. rewrite E1, E2.
  set (a := adler mod 2 ^ 16) in *. set (b := adler / 2 ^ 16) in *.
  destruct (Z.eqb_spec (zlen buf) 1) as [Hl|Hl].
  { destruct buf as [|x [|y buf]]; unfold zlen in Hl; simpl in Hl; [lia| |lia].
    apply Forall_inv in Hb as [Hx1 Hx2]. change [x].[0] with x.
    unfold BASE in H1, H2.
    rewrite (wrap_small 32 (a + x)) by (unfold ubits; lia).
    rewrite cond_sub_mod by (unfold BASE; lia).
    pose proof (Z.mod_pos_bound (a + x) BASE).
    rewrite (wrap_small 32 (b + _)) by (unfold ubits, BASE in *; lia).
    rewrite cond_sub_mod by (unfold BASE in *; lia).
    apply pack_lor; apply Z.mod_pos_bound; unfold BASE; lia. }
  destruct (Z.ltb_spec (zlen buf) 16) as [Hs|Hs].
  { pose proof (zlen_nonneg buf).
    destruct (byte_loop_exact buf a b) as (R1 & R2 & R3);
      [done|lia|lia|apply nmax_room; unfold NMAX; lia|].
    rewrite cond_sub_mod by (unfold BASE in *; lia).
    rewrite (residues_reduced (Sums a b)) in R3 by done. simpl in R3. rewrite <-R3.
    apply pack_lor; unfold MOD28; apply Z.mod_pos_bound; unfold BASE; lia. }
  destruct (nmax_loop_spec buf (Sums a b)) as (pre & rest & s' & -> & -> & Hr & Hs' & E);
    [done..|]. apply Forall_app in Hb as [_ Hb].
  destruct (remaining_spec rest s') as [Hred E']; [done..|].
  destruct Hred. rewrite pack_lor, E', E by done. by rewrite foldl_app.
Qed.

Lemma adler_ref_app adler x y :
  valid adler → adler_ref (adler_ref adler x) y = adler_ref adler (x ++ y).
Proof.
  intros Hv. destruct (split_adler adler Hv) as (_ & _ & H2 & H1).
  unfold adler_ref. rewrite unpack_pack by (by apply adler_step_range).
  by rewrite foldl_app.
Qed.

Lemma adler_ref_valid adler x : valid adler → valid (adler_ref adler x).
Proof.
  intros Hv. destruct (split_adler adler Hv) as (_ & _ & H2 & H1).
  by apply pack_valid; apply adler_step_range.
Qed.

(** The sums depend linearly on where they start. *)
Lemma adler_linear l a b c d :
  let r := foldl adler_step (a mod BASE, b mod BASE) l in
  let t := foldl adler_step (c mod BASE, d mod BASE) l in
  (BASE | r.1 - t.1 - (a - c)) ∧ (BASE | r.2 - t.2 - (b - d) - zlen l * (a - c)).
Proof.
  revert a b c d. induction l as [|x l IH]; intros a b c d r t.
  - subst r t. change (zlen []) with 0. cbn [foldl fst snd]. unfold BASE.
    split; [exists (c / 65521 - a / 65521)|exists (d / 65521 - b / 65521)];
      Z.div_mod_to_equations; lia.
  - subst r t. simpl. rewrite !adler_step_mod.
    destruct (IH (a + x) (b + (a + x)) (c + x) (d + (c + x))) as [[p Hp] [q Hq]].
    split; [exists p|exists q]; [lia|]. rewrite zlen_cons. lia.
Qed.

(** ** adler32_combine and the division-free macros *)

Lemma land_ffff a : 0 ≤ a → (a .& 0xffff) = a mod 2 ^ 16.
Proof. intros. change 0xffff with (Z.ones 16). by rewrite Z.land_ones. Qed.

Lemma mod_sub_mul a k : (a - k * BASE) mod BASE = a mod BASE.
Proof. replace (a - k * BASE) with (a + (- k) * BASE) by lia. apply Z_mod_plus_full. Qed.

Lemma cond_sub_twice t : 0 ≤ t < 3 * BASE →
  (let t := if BASE <=? t then t - BASE else t in
   if BASE <=? t then t - BASE else t) = t mod BASE.
Proof.
  intros Ht. cbv zeta. destruct (Z.leb_spec BASE t); rewrite cond_sub_mod by lia; try done.
  by rewrite <-(mod_sub_mul t 1).
Qed.

Lemma cond_sub_double t : 0 ≤ t < 4 * BASE →
  (let t := if (BASE ≪ 1) <=? t then t - (BASE ≪ 1) else t in
   if BASE <=? t then t - BASE else t) = t mod BASE.
Proof.
  intros Ht. change (BASE ≪ 1) with (2 * BASE). cbv zeta.
  destruct (Z.leb_spec (2 * BASE) t); rewrite cond_sub_mod by lia; try done.
  by rewrite mod_sub_mul.
Qed.

(** Both components of the combined checksum, reduced. *)
Lemma adler32_combine_sums a1 b1 a2 b2 len2 :
  0 ≤ a1 < BASE → 0 ≤ b1 < BASE → 0 ≤ a2 < BASE → 0 ≤ b2 < BASE → 0 ≤ len2 →
  adler32_combine_ (pack (a1, b1)) (pack (a2, b2)) len2
  = pack ((a1 + a2 - 1) mod BASE, (b1 + b2 + len2 * (a1 - 1)) mod BASE).
Proof.
  intros Ha1 Hb1 Ha2 Hb2 Hl.
  pose proof (pack_valid (a1, b1) Ha1 Hb1) as V1.
  pose proof (pack_valid (a2, b2) Ha2 Hb2) as V2.
  destruct (split_adler _ V1) as (E12 & E11 & _).
  destruct (split_adler _ V2) as (E22 & E21 & _).
  pose proof (unpack_pack (a1, b1) Ha1) as [= U11 U12].
  pose proof (unpack_pack (a2, b2) Ha2) as [= U21 U22].
  unfold adler32_combine_. destruct (Z.ltb_spec len2 0); [lia|].
  rewrite E12, E11, E22, E21, U11, U12, U21, U22.
  unfold MOD63, MOD. set (r := len2 mod BASE).
  assert (0 ≤ r < BASE) as Hr by (apply Z.mod_pos_bound; unfold BASE; lia).
  assert (r * a1 ≤ 65520 * 65520) by (apply Z.mul_le_mono_nonneg; unfold BASE in *; lia).
  assert (0 ≤ r * a1) by (apply Z.mul_nonneg_nonneg; lia).
  rewrite (wrap_small 32 r) by (unfold ubits, BASE in *; lia).
  rewrite (wrap_small 32 (r * a1)) by (unfold ubits; lia).
  set (p := (r * a1) mod BASE).
  assert (0 ≤ p < BASE) as Hp by (apply Z.mod_pos_bound; unfold BASE; lia).
  unfold BASE in Ha1, Hb1, Ha2, Hb2, Hr, Hp.
  rewrite (wrap_small 32 (a2 + _ - 1)), (wrap_small 32 (a1 + _)),
    (wrap_small 32 (b1 + b2 + _ - r)), (wrap_small 32 (p + _))
    by (unfold ubits, BASE; lia).
  set (t1 := a1 + (a2 + BASE - 1)). set (t2 := p + (b1 + b2 + BASE - r)).
  assert (∃ k, t1 = (a1 + a2 - 1) + k * BASE) as [k1 K1] by (exists 1; lia).
  assert (∃ k, t2 = (b1 + b2 + len2 * (a1 - 1)) + k * BASE) as [k2 K2].
  { exists (1 - len2 / BASE * (a1 - 1) - r * a1 / BASE). subst t2 p.
    pose proof (Z.div_mod (r * a1) BASE) as D1. pose proof (Z.div_mod len2 BASE) as D2.
    fold r in D2. unfold BASE in *. nia. }
  pose proof (cond_sub_twice t1) as C1. pose proof (cond_sub_double t2) as C2.
  cbv zeta in C1, C2. rewrite C1, C2 by (subst t1 t2; unfold BASE; lia).
  rewrite pack_lor by (apply Z.mod_pos_bound; unfold BASE; lia).
  by rewrite K1, K2, !Z_mod_plus_full.
Qed.

Lemma valid_1 : valid 1.
Proof. done. Qed.

(** The reference sums of a concatenation from the sums of its parts. *)
Lemma adler_ref_sums x y :
  let r := foldl adler_step (1, 0) x in
  let t := foldl adler_step (1, 0) y in
  foldl adler_step r y
  = ((r.1 + t.1 - 1) mod BASE, (r.2 + t.2 + zlen y * (r.1 - 1)) mod BASE).
Proof.
  intros r t. destruct (adler_step_range (1, 0) x) as [R1 R2]; [done..|].
  fold r in R1, R2. pose proof (adler_step_range r y R1 R2) as [Q1 Q2].
  pose proof (adler_linear y r.1 r.2 1 0) as H.
  rewrite (Z.mod_small r.1), (Z.mod_small r.2) in H by done.
  change (1 mod BASE, 0 mod BASE) with (1, 0) in H. fold t in H.
  rewrite <-surjective_pairing in H. destruct H as [[k Hk] [j Hj]].
  rewrite (surjective_pairing (foldl adler_step r y)).
  f_equal; rewrite <-(Z.mod_small _ BASE) at 1 by done.
  - replace (r.1 + t.1 - 1) with ((foldl adler_step r y).1 - k * BASE) by lia.
    by rewrite mod_sub_mul.
  - replace (r.2 + t.2 + zlen y * (r.1 - 1))
      with ((foldl adler_step r y).2 - j * BASE) by lia.
    by rewrite mod_sub_mul.
Qed.

Lemma CHOP_spec a : ubits 32 a →
  CHOP a = a mod 2 ^ 16 + 15 * (a / 2 ^ 16) ∧ CHOP a mod BASE = a mod BASE.
Proof.
  intros Ha. unfold CHOP, ubits in *.
  rewrite land_ffff, !Z.shiftr_div_pow2, Z.shiftl_mul_pow2 by lia.
  pose proof (Z.div_mod a (2 ^ 16)). pose proof (Z.mod_pos_bound a (2 ^ 16)).
  assert (0 ≤ a / 2 ^ 16 < 2 ^ 16)
    by (split; [apply Z.div_pos|apply Z.div_lt_upper_bound]; lia).
  set (h := a / 2 ^ 16) in *. set (l := a mod 2 ^ 16) in *.
  rewrite (wrap_small 32 (h * 2 ^ 4)) by (unfold ubits; lia).
  rewrite (wrap_small 32 (_ - h)) by (unfold ubits; lia).
  rewrite wrap_small by (unfold ubits; lia).
  split; [lia|]. replace (l + (h * 2 ^ 4 - h)) with (a - h * BASE) by (unfold BASE; lia).
  apply mod_sub_mul.
Qed.

(** Folding the bits from [n] on back in with a weight congruent to [2^n]. *)
Lemma fold_bits a n k :
  0 ≤ a → 0 ≤ n → 0 ≤ k → 2 ^ n mod BASE = k →
  (a mod 2 ^ n + k * (a / 2 ^ n)) mod BASE = a mod BASE ∧
  0 ≤ a mod 2 ^ n + k * (a / 2 ^ n) < 2 ^ n + k * (a / 2 ^ n).
Proof.
  intros Ha Hn Hk E. pose proof (Z.div_mod a (2 ^ n)).
  pose proof (Z.mod_pos_bound a (2 ^ n)). pose proof (Z.div_pos a (2 ^ n)).
  split; [|nia]. rewrite <-E, Zplus_mod, Zmult_mod_idemp_l, <-Zplus_mod. f_equal. lia.
Qed.

Lemma MOD28_nodivide_spec a : ubits 28 a → MOD28_nodivide a = MOD28 a.
Proof.
  intros Ha. unfold MOD28_nodivide, MOD28.
  destruct (CHOP_spec a) as [E1 E2]; [eapply ubits_mono; [|done]; lia|].
  cbv zeta. rewrite cond_sub_mod; [done|]. rewrite E1. unfold ubits, BASE in *.
  pose proof (Z.mod_pos_bound a (2 ^ 16)). pose proof (Z.div_pos a (2 ^ 16)).
  assert (a / 2 ^ 16 < 2 ^ 12) by (apply Z.div_lt_upper_bound; lia). lia.
Qed.

Lemma MOD_nodivide_spec a : ubits 32 a → MOD_nodivide a = MOD a.
Proof.
  intros Ha. destruct (CHOP_spec a Ha) as [E1 E2]. unfold MOD_nodivide, MOD.
  rewrite MOD28_nodivide_spec; [exact E2|]. rewrite E1. unfold ubits in *.
  pose proof (Z.mod_pos_bound a (2 ^ 16)). pose proof (Z.div_pos a (2 ^ 16)).
  assert (a / 2 ^ 16 < 2 ^ 16) by (apply Z.div_lt_upper_bound; lia). lia.
Qed.

Lemma MOD63_nodivide_spec a : ubits 63 a → MOD63_nodivide a = MOD63 a.
Proof.
  intros Ha. unfold MOD63_nodivide, MOD63, ubits in *. cbv zeta.
  change 0xffffffff with (Z.ones 32). change 0xffff with (Z.ones 16).
  rewrite !Z.land_ones, !Z.shiftr_div_pow2, !Z.shiftl_mul_pow2 by lia.
  set (x := a mod 2 ^ 32 + _). replace x with (a mod 2 ^ 32 + 225 * (a / 2 ^ 32)) by lia.
  destruct (fold_bits a 32 225) as [F1 G1]; [lia..|done|].
  assert (a / 2 ^ 32 < 2 ^ 31) by (apply Z.div_lt_upper_bound; lia).
  set (b := a mod 2 ^ 32 + 225 * (a / 2 ^ 32)) in *. clearbody b. clear x.
  set (x := b mod 2 ^ 16 + _). replace x with (b mod 2 ^ 16 + 15 * (b / 2 ^ 16)) by lia.
  destruct (fold_bits b 16 15) as [F2 G2]; [lia..|done|].
  assert (b / 2 ^ 16 < 2 ^ 24) by (apply Z.div_lt_upper_bound; lia).
  set (c := b mod 2 ^ 16 + 15 * (b / 2 ^ 16)) in *. clearbody c. clear x.
  set (x := c mod 2 ^ 16 + _). replace x with (c mod 2 ^ 16 + 15 * (c / 2 ^ 16)) by lia.
  destruct (fold_bits c 16 15) as [F3 G3]; [lia..|done|].
  assert (c / 2 ^ 16 < 2 ^ 12) by (apply Z.div_lt_upper_bound; lia).
  rewrite cond_sub_mod by (unfold BASE; lia). congruence.
Qed.

(** ** The properties *)

(** C9: [adler32] computes the RFC 1950 checksum: feeding a stream to it buffer
    by buffer, whatever the cuts and whichever of its three paths each buffer
    takes, gives the checksum of the whole stream, with no overflow of the
    32-bit sums between two reductions. *)
Theorem adler32_stream_correct adler chunks :
  valid adler → Forall bytes chunks →
  foldl (λ a c, adler32 a (Some c)) adler chunks = adler_ref adler (concat chunks).
Proof.
  intros Hv Hc. revert adler Hv. induction Hc as [|c cs Hc Hcs IH]; intros adler Hv;
    cbn [foldl concat].
  - unfold adler_ref, unpack, pack.
    cbn [foldl fst snd]. pose proof (Z.div_mod adler (2 ^ 16)). lia.
  - change (adler32 adler (Some c)) with (adler32_z adler (Some c)).
    rewrite adler32_z_path by done.
    rewrite IH by (by apply adler_ref_valid). by apply adler_ref_app.
Qed.

Lemma adler32_stream_witness :
  foldl (λ a c, adler32 a (Some c)) 1 [[87]; [105; 107; 105]; []; repeat 255 (Z.to_nat 6000)]
  = adler_ref 1 (concat [[87]; [105; 107; 105]; []; repeat 255 (Z.to_nat 6000)]).
Proof.
  apply (adler32_stream_correct 1 [[87]; [105; 107; 105]; []; repeat 255 (Z.to_nat 6000)]).
  - exact valid_1.
  - apply (bool_decide_unpack _). vm_compute. reflexivity.
Defined.

(** C10: [adler32_combine] of the checksums of two buffers and the length of the
    second is the checksum of their concatenation, for every length that fits
    the [z_off_t] argument. *)
Theorem adler32_combine_correct x y :
  bytes x → bytes y → zlen y < 2 ^ 31 →
  adler32_combine (adler32 1 (Some x)) (adler32 1 (Some y)) (zlen y)
  = adler32 1 (Some (x ++ y)).
Proof.
  intros Hx Hy Hl. pose proof (zlen_nonneg y).
  unfold adler32. rewrite !adler32_z_path by (done || by apply Forall_app).
  unfold adler32_combine. replace (i32 (zlen y)) with (zlen y)
    by (unfold swrap; rewrite Z.mod_small; lia).
  unfold adler_ref. change (unpack 1) with (1, 0).
  destruct (adler_step_range (1, 0) x) as [R1 R2]; [done..|].
  destruct (adler_step_range (1, 0) y) as [Q1 Q2]; [done..|].
  rewrite foldl_app, adler_ref_sums.
  rewrite (surjective_pairing (foldl adler_step (1, 0) x)) at 1.
  rewrite (surjective_pairing (foldl adler_step (1, 0) y)) at 1.
  by rewrite adler32_combine_sums.
Qed.

Lemma adler32_combine_witness :
  adler32_combine (adler32 1 (Some [1; 2; 3])) (adler32 1 (Some [4; 5])) (zlen [4; 5])
  = adler32 1 (Some ([1; 2; 3] ++ [4; 5])).
Proof.
  apply (adler32_combine_correct [1; 2; 3] [4; 5]);
    [apply (bool_decide_unpack _); vm_compute; reflexivity..|vm_compute; reflexivity].
Defined.

(** The division-free macros of NO_DIVIDE compute the residues the default
    macros compute: [MOD] on every 32-bit value, [MOD28] on every 28-bit value
    and [MOD63] on every non-negative 64-bit value. *)
Theorem nodivide_macros_correct a :
  (ubits 32 a → MOD_nodivide a = MOD a) ∧
  (ubits 28 a → MOD28_nodivide a = MOD28 a) ∧
  (ubits 63 a → MOD63_nodivide a = MOD63 a).
Proof.
  auto using MOD_nodivide_spec, MOD28_nodivide_spec, MOD63_nodivide_spec.
Qed.

Lemma nodivide_macros_witness :
  MOD_nodivide 4294967295 = MOD 4294967295 ∧
  MOD63_nodivide 9223372036854775807 = MOD63 9223372036854775807.
Proof.
  split; [apply (nodivide_macros_correct 4294967295)
         |apply (nodivide_macros_correct 9223372036854775807)]; vm_compute; split; congruence.
Defined.

End Adler32.
