(* ===== verification/Crc32.v ===== *)
(** * zlib/crc32.c: the CRC-32 checksum

    [make_crc_table] builds the eight lookup tables, [crc32_z] is the bytewise
    function, [crc32_little] and [crc32_big] the functions that take four
    bytes at a time on little- and big-endian machines, [crc32_combine_] the
    GF(2) matrix arithmetic. The reference [crc_ref] is the shift register of
    the comment above [make_crc_table], one bit at a time. *)

From S2P Require Import Prelude Crc32Tables.

Module Crc32.

Definition TBLS : nat := 8.

(** ** zutil.h: ZSWAP32 *)

Definition ZSWAP32 (q : Z) : Z :=
  u32 ((((q ≫ 24) .& 0xff) + ((q ≫ 8) .& 0xff00))
       + ((q .& 0xff00) ≪ 8) + ((q .& 0xff) ≪ 24)).

(** ** make_crc_table *)

Definition p_terms : list Z := [0; 1; 2; 4; 5; 7; 8; 10; 11; 12; 16; 22; 23; 26].

Definition make_poly : Z :=
  for_ 0 (zlen p_terms) (λ n poly, poly .| u32 (1 ≪ (31 - p_terms.[n]))) 0.

(** [c = c & 1 ? poly ^ (c >> 1) : c >> 1] *)
Definition crc_bit (poly c : Z) : Z :=
  if c_true (c .& 1) then poly .^ (c ≫ 1) else c ≫ 1.

(** The first table: a crc for every 8-bit value. *)
Definition make_table0 (poly : Z) (crc_table : list (list Z)) : list (list Z) :=
  for_ 0 256 (λ n tbl,
    let c := for_ 0 8 (λ _ c, crc_bit poly c) n in
    tbl.[0 <- tbl.[0].[n <- c]]) crc_table.

(** The crc of each value followed by one, two and three zeros, and the byte
    reversals. *)
Definition make_tables17 (crc_table : list (list Z)) : list (list Z) :=
  for_ 0 256 (λ n tbl,
    let c := tbl.[0].[n] in
    let tbl := tbl.[4 <- tbl.[4].[n <- ZSWAP32 c]] in
    (for_ 1 4 (λ k '(tbl, c),
      let c := tbl.[0].[c .& 0xff] .^ (c ≫ 8) in
      let tbl := tbl.[k <- tbl.[k].[n <- c]] in
      (tbl.[k + 4 <- tbl.[k + 4].[n <- ZSWAP32 c]], c)) (tbl, c)).1) crc_table.

Definition make_crc_table : list (list Z) :=
  make_tables17 (make_table0 make_poly (replicate TBLS (replicate 256 0))).

Definition get_crc_table : list (list Z) := Crc32Tables.crc_table.
Definition crc_table : list (list Z) := Crc32Tables.crc_table.

(** ** crc32_z *)

(** [DO1] on one byte. *)
Definition DO1 (crc b : Z) : Z := crc_table.[0].[(crc .^ b) .& 0xff] .^ (crc ≫ 8).

(** The path without BYFOUR: [DO8] is eight [DO1]s. *)
Definition DO8 (crc : Z) (buf : list Z) : Z :=
  for_ 0 8 (λ i crc, DO1 crc buf.[i]) crc.

Definition crc32_bytewise (crc : Z) (buf : list Z) : Z :=
  let crc := crc .^ 0xffffffff in
  let '(crc, buf) :=
    while (length buf) (λ st, 8 <=? zlen st.2)
      (λ st, (DO8 st.1 st.2, drop 8 st.2)) (crc, buf) in
  foldl DO1 crc buf .^ 0xffffffff.

(** ** BYFOUR: four bytes at a time *)

(** The 32-bit word the machine reads at [buf]. *)
Definition word_le (buf : list Z) : Z :=
  buf.[0] + 2 ^ 8 * buf.[1] + 2 ^ 16 * buf.[2] + 2 ^ 24 * buf.[3].
Definition word_be (buf : list Z) : Z :=
  buf.[3] + 2 ^ 8 * buf.[2] + 2 ^ 16 * buf.[1] + 2 ^ 24 * buf.[0].

Definition DOLIT4 (c w : Z) : Z :=
  let c := c .^ w in
  ((crc_table.[3].[c .& 0xff] .^ crc_table.[2].[(c ≫ 8) .& 0xff])
   .^ crc_table.[1].[(c ≫ 16) .& 0xff]) .^ crc_table.[0].[c ≫ 24].

Definition DOBIG4 (c w : Z) : Z :=
  let c := c .^ w in
  ((crc_table.[4].[c .& 0xff] .^ crc_table.[5].[(c ≫ 8) .& 0xff])
   .^ crc_table.[6].[(c ≫ 16) .& 0xff]) .^ crc_table.[7].[c ≫ 24].

(** The four loops of [crc32_little] and [crc32_big]: bytes up to a four-byte
    boundary ([addr] is the address of [buf]), 32 bytes, 4 bytes, bytes. *)
Section ByFour.
  Context (byte1 : Z → Z → Z) (word4 : Z → Z → Z) (word : list Z → Z).

Definition align_loop (c addr : Z) (buf : list Z) : Z * (Z * list Z) :=
  while (length buf)
    (λ st, negb (zlen st.2.2 =? 0) && negb (Z.land st.2.1 3 =? 0))
    (λ st, (byte1 st.1 st.2.2.[0], (st.2.1 + 1, drop 1 st.2.2)))
    (c, (addr, buf)).

Definition do32 (c : Z) (buf : list Z) : Z :=
  for_ 0 8 (λ i c, word4 c (word (drop (Z.to_nat (4 * i)) buf))) c.

Definition by_four (c addr : Z) (buf : list Z) : Z :=
  let '(c, (_, buf)) := align_loop c addr buf in
  let '(c, buf) := while (length buf) (λ st, 32 <=? zlen st.2)
    (λ st, (do32 st.1 st.2, drop 32 st.2)) (c, buf) in
  let '(c, buf) := while (length buf) (λ st, 4 <=? zlen st.2)
    (λ st, (word4 st.1 (word st.2), drop 4 st.2)) (c, buf) in
  foldl byte1 c buf.
End ByFour.

Definition lnot32 (c : Z) : Z := c .^ 0xffffffff.

Definition little1 (c b : Z) : Z := crc_table.[0].[(c .^ b) .& 0xff] .^ (c ≫ 8).
Definition big1 (c b : Z) : Z := crc_table.[4].[(c ≫ 24) .^ b] .^ u32 (c ≪ 8).

Definition crc32_little (crc addr : Z) (buf : list Z) : Z :=
  lnot32 (by_four little1 DOLIT4 word_le (lnot32 (u32 crc)) addr buf).
Definition crc32_big (crc addr : Z) (buf : list Z) : Z :=
  ZSWAP32 (lnot32 (by_four big1 DOBIG4 word_be (lnot32 (ZSWAP32 (u32 crc))) addr buf)).

(** [crc32_z] with BYFOUR picks the function by the machine's endianness. *)
Inductive endianness := LittleEndian | BigEndian.

Definition crc32_z (e : endianness) (addr crc : Z) (buf : option (list Z)) : Z :=
  match buf with
  | None => 0
  | Some buf =>
      match e with
      | LittleEndian => crc32_little crc addr buf
      | BigEndian => crc32_big crc addr buf
      end
  end.

Definition crc32 (e : endianness) (addr crc : Z) (buf : option (list Z)) : Z :=
  crc32_z e addr crc buf.

(** ** crc32_combine *)

Definition GF2_DIM : Z := 32.

(** [while (vec) { if (vec & 1) sum ^= *mat; vec >>= 1; mat++; }] *)
Fixpoint gf2_times_loop (mat : list Z) (vec sum : Z) : Z :=
  if vec =? 0 then sum
  else
    match mat with
    | [] => sum
    | m :: mat =>
        gf2_times_loop mat (vec ≫ 1) (if c_true (vec .& 1) then sum .^ m else sum)
    end.

Definition gf2_matrix_times (mat : list Z) (vec : Z) : Z := gf2_times_loop mat vec 0.

Definition gf2_matrix_square (square mat : list Z) : list Z :=
  for_ 0 GF2_DIM (λ n sq, sq.[n <- gf2_matrix_times mat mat.[n]]) square.

(** The operator for one zero bit. *)
Definition odd_init (odd : list Z) : list Z :=
  (for_ 1 GF2_DIM (λ n '(odd, row), (odd.[n <- row], u32 (row ≪ 1)))
    (odd.[0 <- 0xedb88320], 1)).1.

Record combine_state :=
  CombineState { c_even : list Z; c_odd : list Z; c_crc1 : Z; c_len2 : Z }.

(** One round of the do-while loop; the flag says whether it continues. *)
Definition combine_round (s : combine_state) : bool * combine_state :=
  let even := gf2_matrix_square (c_even s) (c_odd s) in
  let crc1 := if c_true (c_len2 s .& 1) then gf2_matrix_times even (c_crc1 s)
              else c_crc1 s in
  let len2 := c_len2 s ≫ 1 in
  if len2 =? 0 then (false, CombineState even (c_odd s) crc1 len2)
  else
    let odd := gf2_matrix_square (c_odd s) even in
    let crc1 := if c_true (len2 .& 1) then gf2_matrix_times odd crc1 else crc1 in
    let len2 := len2 ≫ 1 in
    (negb (len2 =? 0), CombineState even odd crc1 len2).

(** [do { ... } while (len2 != 0);] on a 63-bit length: at most 32 rounds. *)
Fixpoint combine_loop (fuel : nat) (s : combine_state) : combine_state :=
  match fuel with
  | O => s
  | S fuel =>
      let '(again, s) := combine_round s in
      if again then combine_loop fuel s else s
  end.

Definition crc32_combine_ (crc1 crc2 len2 : Z) : Z :=
  if len2 <=? 0 then crc1
  else
    let odd := odd_init (replicate 32 0) in
    let even := gf2_matrix_square (replicate 32 0) odd in
    let odd := gf2_matrix_square odd even in
    c_crc1 (combine_loop 32 (CombineState even odd crc1 len2)) .^ crc2.

Definition crc32_combine (crc1 crc2 len2 : Z) : Z := crc32_combine_ crc1 crc2 (i32 len2).
Definition crc32_combine64 (crc1 crc2 len2 : Z) : Z := crc32_combine_ crc1 crc2 (i64 len2).

(** ** Reference: the shift register, one bit at a time *)

Definition POLY : Z := 0xedb88320.
Definition crc_bits (n : nat) (c : Z) : Z := Nat.iter n (crc_bit POLY) c.
Definition crc_byte (c b : Z) : Z := crc_bits 8 (c .^ b).
Definition crc_raw (c : Z) (buf : list Z) : Z := foldl crc_byte c buf.
Definition crc_ref (crc : Z) (buf : list Z) : Z := lnot32 (crc_raw (lnot32 crc) buf).

(** ** The shift register is linear *)

Lemma crc_bit_alt c : crc_bit POLY c = (c ≫ 1) .^ (if Z.odd c then POLY else 0).
Proof.
  unfold crc_bit. rewrite c_true_land1. destruct (Z.odd c).
  - apply Z.lxor_comm.
  - by rewrite Z.lxor_0_r.
Qed.

Lemma crc_bit_lxor a b : crc_bit POLY (a .^ b) = crc_bit POLY a .^ crc_bit POLY b.
Proof.
  rewrite !crc_bit_alt, Z.shiftr_lxor.
  assert (Z.odd (a .^ b) = xorb (Z.odd a) (Z.odd b)) as ->
    by (rewrite <-!Z.bit0_odd; apply Z.lxor_spec).
  apply Z.bits_inj'. intros i Hi. rewrite !Z.lxor_spec.
  destruct (Z.odd a), (Z.odd b); simpl; rewrite ?Z.bits_0;
    repeat destruct (Z.testbit _ i); done.
Qed.

Lemma crc_bit_even x : crc_bit POLY (x ≪ 1) = x.
Proof.
  rewrite crc_bit_alt, Z.shiftr_shiftl_l by lia.
  rewrite <-Z.bit0_odd, Z.shiftl_spec_low by lia. by rewrite Z.lxor_0_r.
Qed.

Lemma crc_bits_add n m c : crc_bits (n + m) c = crc_bits n (crc_bits m c).
Proof. apply Nat.iter_add. Qed.

Lemma crc_bits_lxor n a b : crc_bits n (a .^ b) = crc_bits n a .^ crc_bits n b.
Proof.
  induction n as [|n IH]; [done|]. change (crc_bits (S n)) with (λ x, crc_bit POLY (crc_bits n x)).
  cbv beta. by rewrite IH, crc_bit_lxor.
Qed.

Lemma crc_bits_0 n : crc_bits n 0 = 0.
Proof.
  induction n as [|n IH]; [done|]. change (crc_bit POLY (crc_bits n 0) = 0). by rewrite IH.
Qed.

Lemma crc_bits_shiftl n x : crc_bits n (x ≪ Z.of_nat n) = x.
Proof.
  revert x. induction n as [|n IH]; intros x; [apply Z.shiftl_0_r|].
  change (crc_bit POLY (crc_bits n (x ≪ Z.of_nat (S n))) = x).
  rewrite Nat2Z.inj_succ, <-Z.add_1_l, <-Z.shiftl_shiftl by lia.
  by rewrite IH, crc_bit_even.
Qed.

Lemma crc_bit_ubits c : ubits 32 c → ubits 32 (crc_bit POLY c).
Proof.
  intros Hc. rewrite crc_bit_alt.
  apply ubits_lxor; [lia|by apply ubits_shiftr|by destruct (Z.odd c)].
Qed.

Lemma crc_bits_ubits n c : ubits 32 c → ubits 32 (crc_bits n c).
Proof. intros Hc. induction n as [|n IH]; [done|]. by apply crc_bit_ubits. Qed.

(** Taking the low byte out of the register. *)
Lemma crc_bits_split n c :
  crc_bits (8 + n) c = crc_bits (8 + n) (c .& 0xff) .^ crc_bits n (c ≫ 8).
Proof.
  rewrite (split_lxor c 8) at 1 by lia. rewrite crc_bits_lxor. f_equal.
  rewrite Nat.add_comm, crc_bits_add. change 8 with (Z.of_nat 8) at 2.
  by rewrite crc_bits_shiftl.
Qed.

Lemma crc_byte_ubits c b : ubits 32 c → ubits 8 b → ubits 32 (crc_byte c b).
Proof.
  intros Hc Hb. apply crc_bits_ubits, ubits_lxor; [lia|done|].
  by eapply ubits_mono; [|exact Hb].
Qed.

(** The bytes of a buffer as one integer, the first byte lowest. *)
Fixpoint le_value (buf : list Z) : Z :=
  match buf with [] => 0 | b :: buf => b .^ (le_value buf ≪ 8) end.

(** A whole buffer is one run of the register on the buffer's value. *)
Lemma crc_raw_bits c buf :
  crc_raw c buf = crc_bits (8 * length buf) (c .^ le_value buf).
Proof.
  revert c. induction buf as [|b buf IH]; intros c.
  { simpl. by rewrite Z.lxor_0_r. }
  change (crc_raw c (b :: buf)) with (crc_raw (crc_byte c b) buf). rewrite IH.
  replace (8 * length (b :: buf))%nat with (8 * length buf + 8)%nat by (simpl; lia).
  rewrite crc_bits_add. f_equal. unfold crc_byte. cbn [le_value].
  rewrite <-Z.lxor_assoc, (crc_bits_lxor 8 (c .^ b)). f_equal.
  symmetry. apply (crc_bits_shiftl 8).
Qed.

Lemma crc_raw_affine c buf :
  crc_raw c buf = crc_bits (8 * length buf) c .^ crc_raw 0 buf.
Proof. by rewrite !crc_raw_bits, Z.lxor_0_l, crc_bits_lxor. Qed.

Lemma crc_raw_ubits c buf : ubits 32 c → bytes buf → ubits 32 (crc_raw c buf).
Proof.
  intros Hc Hb. revert c Hc. induction Hb as [|b buf Hb Hbuf IH]; intros c Hc; [done|].
  by apply IH, crc_byte_ubits.
Qed.

(** ** The tables *)

(** The checked-in tables hold the runs of the register, by computation on all
    entries. *)
Definition tables_spec : bool :=
  forallb (λ k, forallb (λ n,
    (crc_table.[k].[n] =? crc_bits (8 * Z.to_nat (k + 1)) n) &&
    (crc_table.[k + 4].[n] =? ZSWAP32 (crc_bits (8 * Z.to_nat (k + 1)) n)))
    (seqZ 0 256)) (seqZ 0 4).

Lemma tables_hold : tables_spec = true.
Proof. vm_compute. reflexivity. Qed.

Lemma table_entry k n : 0 ≤ k < 4 → ubits 8 n →
  crc_table.[k].[n] = crc_bits (8 * Z.to_nat (k + 1)) n ∧
  crc_table.[k + 4].[n] = ZSWAP32 (crc_bits (8 * Z.to_nat (k + 1)) n).
Proof.
  intros Hk Hn. pose proof tables_hold as H. unfold tables_spec in H.
  rewrite forallb_forall in H. specialize (H k). rewrite forallb_forall in H.
  specialize (λ a, H a n). rewrite andb_true_iff, !Z.eqb_eq in H.
  unfold ubits in Hn. apply H; apply list_elem_of_In, elem_of_seqZ; lia.
Qed.

Lemma table_swapped k n : 4 ≤ k < 8 → ubits 8 n →
  crc_table.[k].[n] = ZSWAP32 crc_table.[k - 4].[n] ∧ ubits 32 crc_table.[k - 4].[n].
Proof.
  intros Hk Hn. destruct (table_entry (k - 4) n) as [E E4]; [lia|done|].
  replace (k - 4 + 4) with k in E4 by lia. rewrite E4, E. split; [done|].
  apply crc_bits_ubits. by eapply ubits_mono; [|exact Hn].
Qed.

Lemma land_ff_ubits c : ubits 8 (c .& 0xff).
Proof. change 0xff with (Z.ones 8). rewrite <-wrap_ones by lia. by apply wrap_ubits. Qed.

Lemma lxor_byte_shiftr c b n : ubits 8 b → 8 ≤ n → (c .^ b) ≫ n = c ≫ n.
Proof.
  intros Hb Hn. rewrite Z.shiftr_lxor. replace (b ≫ n) with 0; [apply Z.lxor_0_r|].
  rewrite Z.shiftr_div_pow2 by lia. symmetry. apply Z.div_small.
  apply (ubits_mono 8 n b) in Hb; unfold ubits in Hb; lia.
Qed.

Lemma little1_byte c b : ubits 8 b → little1 c b = crc_byte c b.
Proof.
  intros Hb. unfold little1, crc_byte.
  destruct (table_entry 0 ((c .^ b) .& 0xff)) as [-> _]; [lia|apply land_ff_ubits|].
  change (8 * Z.to_nat (0 + 1))%nat with (8 + 0)%nat.
  change (crc_bits 8 (c .^ b)) with (crc_bits (8 + 0) (c .^ b)).
  rewrite (crc_bits_split 0 (c .^ b)). by rewrite lxor_byte_shiftr.
Qed.

(** Four table lookups advance the register by four bytes. *)
Lemma four_lookups c : ubits 32 c →
  ((crc_table.[3].[c .& 0xff] .^ crc_table.[2].[(c ≫ 8) .& 0xff])
   .^ crc_table.[1].[(c ≫ 16) .& 0xff]) .^ crc_table.[0].[c ≫ 24] = crc_bits 32 c.
Proof.
  intros Hc.
  assert (ubits 8 (c ≫ 24)) as H24 by (by apply (ubits_shiftr_sub 32 24)).
  destruct (table_entry 3 (c .& 0xff)) as [-> _]; [lia|apply land_ff_ubits|].
  destruct (table_entry 2 ((c ≫ 8) .& 0xff)) as [-> _]; [lia|apply land_ff_ubits|].
  destruct (table_entry 1 ((c ≫ 16) .& 0xff)) as [-> _]; [lia|apply land_ff_ubits|].
  destruct (table_entry 0 (c ≫ 24)) as [-> _]; [lia|done|].
  change (crc_bits 32 c) with (crc_bits (8 + 24) c). rewrite crc_bits_split.
  change (crc_bits 24 (c ≫ 8)) with (crc_bits (8 + 16) (c ≫ 8)).
  rewrite (crc_bits_split 16 (c ≫ 8)), Z.shiftr_shiftr by lia.
  change (crc_bits 16 (c ≫ (8 + 8))) with (crc_bits (8 + 8) (c ≫ 16)).
  rewrite (crc_bits_split 8 (c ≫ 16)), Z.shiftr_shiftr by lia.
  by rewrite !Z.lxor_assoc.
Qed.

Lemma word_le_value b0 b1 b2 b3 l :
  bytes [b0; b1; b2; b3] →
  word_le (b0 :: b1 :: b2 :: b3 :: l) = le_value [b0; b1; b2; b3] ∧
  ubits 32 (word_le (b0 :: b1 :: b2 :: b3 :: l)).
Proof.
  rewrite !Forall_cons. intros (H0 & H1 & H2 & H3 & _).
  unfold word_le, aget. simpl. rewrite Z.shiftl_0_l, Z.lxor_0_r.
  rewrite (lxor_shiftl_add 8 b2) by (done || lia).
  rewrite (lxor_shiftl_add 8 b1) by (done || lia).
  rewrite (lxor_shiftl_add 8 b0) by (done || lia).
  unfold ubits in *. lia.
Qed.

Lemma take4 {A} (l : list A) : (4 ≤ length l)%nat →
  ∃ a b c d r, l = a :: b :: c :: d :: r.
Proof. intros. do 4 (destruct l as [|? l]; [simpl in *; lia|]). eauto 10. Qed.

Lemma DOLIT4_bytes c l : ubits 32 c → bytes l → (4 ≤ length l)%nat →
  DOLIT4 c (word_le l) = crc_raw c (take 4 l).
Proof.
  intros Hc Hl Hlen. destruct (take4 l Hlen) as (b0 & b1 & b2 & b3 & r & ->).
  assert (bytes [b0; b1; b2; b3]) as Hb
    by (apply (Forall_take _ 4) in Hl; exact Hl).
  destruct (word_le_value b0 b1 b2 b3 r Hb) as [E Hw].
  unfold DOLIT4. rewrite four_lookups by (by apply ubits_lxor).
  cbn [take]. by rewrite crc_raw_bits, E.
Qed.

(** ** Byte reversal *)

Lemma land_ff00 x : (x .& 0xff00) = ((x ≫ 8) .& 0xff) ≪ 8.
Proof.
  rewrite Z.shiftl_land. change (0xff ≪ 8) with 0xff00.
  apply Z.bits_inj'. intros i Hi. rewrite !Z.land_spec. destruct (decide (i < 8)).
  - rewrite Z.shiftl_spec_low by lia. simpl.
    replace (Z.testbit 0xff00 i) with false; [apply andb_false_r|].
    assert (i = 0 ∨ i = 1 ∨ i = 2 ∨ i = 3 ∨ i = 4 ∨ i = 5 ∨ i = 6 ∨ i = 7) as Hi8 by lia.
    by destruct_or! Hi8; subst i.
  - rewrite Z.shiftl_spec_high, Z.shiftr_spec by lia. f_equal. f_equal. lia.
Qed.

Lemma swap_quad b0 b1 b2 b3 : bytes [b0; b1; b2; b3] →
  ZSWAP32 (quad b0 b1 b2 b3) = quad b3 b2 b1 b0.
Proof.
  intros Hb. destruct (quad_fields _ _ _ _ Hb) as (E0 & E1 & E2 & E3).
  unfold ZSWAP32. rewrite !land_ff00, Z.shiftr_shiftr by lia.
  change (8 + 8) with 16. rewrite E0, E1, E2, E3.
  rewrite !Forall_cons in Hb. destruct Hb as (H0 & H1 & H2 & H3 & _).
  change 0xff with (Z.ones 8). rewrite <-wrap_ones, (wrap_small 8 b3) by (done || lia).
  rewrite !Z.shiftl_mul_pow2 by lia. unfold ubits, quad in *.
  rewrite wrap_small by (unfold ubits; lia). lia.
Qed.

Lemma swap_lxor a b : ubits 32 a → ubits 32 b →
  ZSWAP32 (a .^ b) = ZSWAP32 a .^ ZSWAP32 b.
Proof.
  intros Ha Hb. destruct (quad_exists a Ha) as (a0 & a1 & a2 & a3 & Fa & ->).
  destruct (quad_exists b Hb) as (b0 & b1 & b2 & b3 & Fb & ->).
  destruct (quad_lxor _ _ _ _ _ _ _ _ Fa Fb) as [-> Fab].
  rewrite !swap_quad by done.
  assert (∀ w x y z, bytes [w; x; y; z] → bytes [z; y; x; w]) as Hrev.
  { intros w x y z. rewrite !Forall_cons. tauto. }
  by destruct (quad_lxor _ _ _ _ _ _ _ _ (Hrev _ _ _ _ Fa) (Hrev _ _ _ _ Fb)) as [-> _].
Qed.

Lemma swap_involutive a : ubits 32 a → ZSWAP32 (ZSWAP32 a) = a.
Proof.
  intros Ha. destruct (quad_exists a Ha) as (a0 & a1 & a2 & a3 & Fa & ->).
  rewrite swap_quad by done. apply swap_quad. revert Fa. rewrite !Forall_cons. tauto.
Qed.

Lemma swap_ubits a : ubits 32 (ZSWAP32 a).
Proof. by apply wrap_ubits. Qed.

Lemma lnot32_ubits a : ubits 32 a → ubits 32 (lnot32 a).
Proof. intros. by apply ubits_lxor. Qed.

(** ** The big-endian loop bodies work on the reversed register *)

Lemma word_be_swap l : bytes l → (4 ≤ length l)%nat →
  word_be l = ZSWAP32 (word_le l).
Proof.
  intros Hl Hlen. destruct (take4 l Hlen) as (b0 & b1 & b2 & b3 & r & ->).
  apply (Forall_take _ 4) in Hl. symmetry. exact (swap_quad b0 b1 b2 b3 Hl).
Qed.

Lemma word_le_ubits l : bytes l → (4 ≤ length l)%nat → ubits 32 (word_le l).
Proof.
  intros Hl Hlen. destruct (take4 l Hlen) as (b0 & b1 & b2 & b3 & r & ->).
  apply (Forall_take _ 4) in Hl. by apply word_le_value.
Qed.

Lemma swap_bytes_lookup d : ubits 32 d →
  (ZSWAP32 d .& 0xff) = d ≫ 24 ∧ ((ZSWAP32 d ≫ 8) .& 0xff) = ((d ≫ 16) .& 0xff) ∧
  ((ZSWAP32 d ≫ 16) .& 0xff) = ((d ≫ 8) .& 0xff) ∧ (ZSWAP32 d ≫ 24) = (d .& 0xff).
Proof.
  intros Hd. destruct (quad_exists d Hd) as (d0 & d1 & d2 & d3 & Fd & ->).
  rewrite swap_quad by done. assert (bytes [d3; d2; d1; d0]) as Fr
    by (revert Fd; rewrite !Forall_cons; tauto).
  destruct (quad_fields _ _ _ _ Fd) as (-> & -> & -> & ->).
  by destruct (quad_fields _ _ _ _ Fr) as (-> & -> & -> & ->).
Qed.

Lemma DOBIG4_bytes c l : ubits 32 c → bytes l → (4 ≤ length l)%nat →
  DOBIG4 (ZSWAP32 c) (word_be l) = ZSWAP32 (crc_raw c (take 4 l)).
Proof.
  intros Hc Hl Hlen. pose proof (word_le_ubits l Hl Hlen) as Hw.
  rewrite word_be_swap, <-DOLIT4_bytes by done.
  unfold DOBIG4, DOLIT4. rewrite <-swap_lxor by done.
  assert (ubits 32 (c .^ word_le l)) as Hd by (by apply ubits_lxor).
  set (d := c .^ word_le l) in *. cbv zeta.
  destruct (swap_bytes_lookup d Hd) as (-> & -> & -> & ->).
  assert (ubits 8 (d ≫ 24)) as H24 by (by apply (ubits_shiftr_sub 32 24)).
  destruct (table_swapped 4 (d ≫ 24)) as [-> U0]; [lia|done|].
  destruct (table_swapped 5 ((d ≫ 16) .& 0xff)) as [-> U1]; [lia|apply land_ff_ubits|].
  destruct (table_swapped 6 ((d ≫ 8) .& 0xff)) as [-> U2]; [lia|apply land_ff_ubits|].
  destruct (table_swapped 7 (d .& 0xff)) as [-> U3]; [lia|apply land_ff_ubits|].
  change (4 - 4) with 0 in *. change (5 - 4) with 1 in *.
  change (6 - 4) with 2 in *. change (7 - 4) with 3 in *.
  rewrite !swap_lxor by eauto 10 using ubits_lxor with cint. lxor_ac.
Qed.

Lemma big1_byte c b : ubits 32 c → ubits 8 b →
  big1 (ZSWAP32 c) b = ZSWAP32 (crc_byte c b).
Proof.
  intros Hc Hb. rewrite <-little1_byte by done. unfold big1, little1.
  destruct (swap_bytes_lookup c Hc) as (_ & _ & _ & ->).
  assert (((c .^ b) .& 0xff) = (c .& 0xff) .^ b) as ->.
  { change 0xff with (Z.ones 8). rewrite <-!wrap_ones by lia.
    rewrite <-(wrap_small 8 b Hb) at 2. apply Z.bits_inj'. intros i Hi.
    rewrite !Z.lxor_spec, !testbit_wrap, Z.lxor_spec by lia. by destruct (i <? 8). }
  assert (ubits 8 ((c .& 0xff) .^ b)) as Hx by (apply ubits_lxor; [lia|apply land_ff_ubits|done]).
  destruct (table_swapped 4 ((c .& 0xff) .^ b)) as [-> Hu]; [lia|done|].
  change (4 - 4) with 0 in *. rewrite swap_lxor by (done || by apply ubits_shiftr). f_equal.
  destruct (quad_exists c Hc) as (c0 & c1 & c2 & c3 & Fc & ->).
  assert (quad c0 c1 c2 c3 ≫ 8 = quad c1 c2 c3 0) as ->.
  { rewrite !Forall_cons in Fc. unfold quad, ubits in *. rewrite Z.shiftr_div_pow2 by lia.
    Z.div_mod_to_equations. lia. }
  rewrite !swap_quad by (rewrite !Forall_cons in *; intuition (done || lia)).
  rewrite !Forall_cons in Fc. destruct Fc as (H0 & H1 & H2 & H3 & _).
  rewrite Z.shiftl_mul_pow2 by lia. unfold wrap, quad, ubits in *.
  Z.div_mod_to_equations. lia.
Qed.

(** ** Four bytes at a time is one byte at a time *)

Section ByFourSpec.
  Context (byte1 : Z → Z → Z) (word4 : Z → Z → Z) (word : list Z → Z) (g : Z → Z).
  Hypothesis byte1_g : ∀ c b, ubits 32 c → ubits 8 b → byte1 (g c) b = g (crc_byte c b).
  Hypothesis word4_g : ∀ c l, ubits 32 c → bytes l → (4 ≤ length l)%nat →
    word4 (g c) (word l) = g (crc_raw c (take 4 l)).

Lemma align_loop_spec c addr buf : ubits 32 c → bytes buf →
  ∃ pre rest addr', align_loop byte1 (g c) addr buf = (g (crc_raw c pre), (addr', rest)) ∧
    buf = pre ++ rest.
Proof.
  unfold align_loop. generalize (length buf) as fuel. intros fuel.
  revert c addr buf. induction fuel as [|fuel IH]; intros c addr buf Hc Hb; cbn [while].
  { by exists [], buf, addr. }
  destruct (_ && _) eqn:E; [|by exists [], buf, addr]. cbn [fst snd] in *.
  destruct buf as [|b buf]; [done|]. apply Forall_cons in Hb as [Hb Hbuf].
  change (b :: buf).[0] with b. rewrite byte1_g by done.
  change (drop 1 (b :: buf)) with buf.
  destruct (IH (crc_byte c b) (addr + 1) buf) as (pre & rest & a' & -> & ->);
    [by apply crc_byte_ubits|done|].
  by exists (b :: pre), rest, a'.
Qed.

Lemma do32_spec c buf : ubits 32 c → bytes buf → (32 ≤ length buf)%nat →
  do32 word4 word (g c) buf = g (crc_raw c (take 32 buf)).
Proof.
  intros Hc Hb Hlen. unfold do32. change 32%nat with (Z.to_nat (4 * 8)).
  apply (for_rule (λ i r, r = g (crc_raw c (take (Z.to_nat (4 * i)) buf)))); [lia|done|].
  intros i r Hi ->. rewrite word4_g;
    [|by apply crc_raw_ubits, Forall_take|by apply Forall_drop|rewrite length_drop; lia].
  f_equal. unfold crc_raw. rewrite <-foldl_app. f_equal.
  replace (Z.to_nat (4 * (i + 1))) with (Z.to_nat (4 * i) + 4)%nat by lia.
  by rewrite take_take_drop.
Qed.

Lemma by_four_spec c addr buf : ubits 32 c → bytes buf →
  by_four byte1 word4 word (g c) addr buf = g (crc_raw c buf).
Proof.
  intros Hc Hb. unfold by_four.
  destruct (align_loop_spec c addr buf Hc Hb) as (p1 & r1 & a1 & -> & ->).
  apply Forall_app in Hb as [Hp1 Hb]. pose proof (crc_raw_ubits c p1 Hc Hp1) as Hc1.
  destruct (chunk_loop (ubits 32) (ubits 8) crc_byte g 32 32 (do32 word4 word)
    (length r1) (crc_raw c p1) r1) as (p2 & r2 & -> & -> & _ & Hc2);
    [done|lia|by apply crc_byte_ubits|apply do32_spec|done|done|done|].
  apply Forall_app in Hb as [Hp2 Hb].
  destruct (chunk_loop (ubits 32) (ubits 8) crc_byte g 4 4 (λ c l, word4 c (word l))
    (length r2) (crc_raw (crc_raw c p1) p2) r2) as (p3 & r3 & E3 & -> & _ & Hc3);
    [done|lia|by apply crc_byte_ubits|apply word4_g|done|done|done|].
  change (foldl crc_byte (crc_raw c p1) p2) with (crc_raw (crc_raw c p1) p2).
  rewrite E3.
  apply Forall_app in Hb as [Hp3 Hb].
  assert (∀ l c, ubits 32 c → bytes l → foldl byte1 (g c) l = g (crc_raw c l)) as Hbytes.
  { intros l. induction l as [|b l IH]; intros c' Hc' Hl; [done|].
    apply Forall_cons in Hl as [Hb' Hl]. cbn [foldl]. rewrite byte1_g by done.
    rewrite IH by (done || by apply crc_byte_ubits). done. }
  rewrite Hbytes by done. f_equal. unfold crc_raw. by rewrite !foldl_app.
Qed.

End ByFourSpec.

Lemma crc32_little_ref crc addr buf : ubits 32 crc → bytes buf →
  crc32_little crc addr buf = crc_ref crc buf.
Proof.
  intros Hc Hb. unfold crc32_little, crc_ref. f_equal. rewrite wrap_small by done.
  apply (by_four_spec little1 DOLIT4 word_le id).
  - intros. by apply little1_byte.
  - apply DOLIT4_bytes.
  - by apply lnot32_ubits.
  - done.
Qed.

Lemma swap_lnot32 c : ubits 32 c → ZSWAP32 (lnot32 c) = lnot32 (ZSWAP32 c).
Proof. intros. unfold lnot32. by rewrite swap_lxor. Qed.

Lemma crc32_big_ref crc addr buf : ubits 32 crc → bytes buf →
  crc32_big crc addr buf = crc_ref crc buf.
Proof.
  intros Hc Hb. unfold crc32_big, crc_ref. rewrite wrap_small by done.
  pose proof (lnot32_ubits crc Hc) as Hn. rewrite <-swap_lnot32 by done.
  rewrite (by_four_spec big1 DOBIG4 word_be ZSWAP32 big1_byte DOBIG4_bytes) by done.
  pose proof (crc_raw_ubits _ buf Hn Hb).
  rewrite <-swap_lnot32 by done. apply swap_involutive. by apply lnot32_ubits.
Qed.

Lemma foldl_DO1 c l : bytes l → foldl DO1 c l = foldl crc_byte c l.
Proof.
  intros Hl. revert c. induction Hl as [|b l Hb Hl IH]; intros c; [done|]. cbn [foldl].
  change (DO1 c b) with (little1 c b). by rewrite little1_byte, IH.
Qed.

Lemma DO8_bytes crc buf : bytes buf → (8 ≤ length buf)%nat →
  DO8 crc buf = foldl crc_byte crc (take 8 buf).
Proof.
  intros Hb Hlen. rewrite <-foldl_DO1 by (by apply Forall_take).
  unfold DO8. change 8%nat with (Z.to_nat 8).
  apply (for_rule (λ i r, r = foldl DO1 crc (take (Z.to_nat i) buf))); [lia|done|].
  intros i r Hi ->. replace (Z.to_nat (i + 1)) with (S (Z.to_nat i)) by lia.
  rewrite (take_S_r _ _ buf.[i]) by (apply list_lookup_lookup_total_lt; lia).
  by rewrite foldl_app.
Qed.

Lemma crc32_bytewise_ref crc buf : ubits 32 crc → bytes buf →
  crc32_bytewise crc buf = crc_ref crc buf.
Proof.
  intros Hc Hb. unfold crc32_bytewise, crc_ref, lnot32.
  destruct (chunk_loop (ubits 32) (ubits 8) crc_byte id 8 8 DO8
    (length buf) (crc .^ 0xffffffff) buf) as (pre & rest & E & -> & _ & Hp);
    [done|lia|by apply crc_byte_ubits|by intros; apply DO8_bytes|by apply lnot32_ubits|done|done|].
  unfold id in E. rewrite E. f_equal.
  apply Forall_app in Hb as [_ Hb]. unfold crc_raw. rewrite foldl_app.
  by apply foldl_DO1.
Qed.

(** ** GF(2) matrices *)

(** [mat] is the matrix of [k] steps of the register: column [i] is the image
    of [2^i]. *)
Definition matrix_of (k : nat) (mat : list Z) : Prop :=
  length mat = 32%nat ∧ ∀ i, 0 ≤ i < GF2_DIM → mat.[i] = crc_bits k (2 ^ i).

Lemma split_odd v j : 0 ≤ j →
  v ≪ j = (if Z.odd v then 2 ^ j else 0) .^ ((v ≫ 1) ≪ (1 + j)).
Proof.
  intros Hj. rewrite (split_lxor v 1) at 1 by lia.
  rewrite Z.shiftl_lxor, Z.shiftl_shiftl by lia. f_equal.
  rewrite Z.land_ones by lia. change (2 ^ 1) with 2. rewrite Zmod_odd.
  destruct (Z.odd v); [by rewrite Z.shiftl_1_l|by rewrite Z.shiftl_0_l].
Qed.

Lemma gf2_times_loop_spec k m j v sum :
  0 ≤ j → ubits (zlen m) v → (∀ i, 0 ≤ i < zlen m → m.[i] = crc_bits k (2 ^ (j + i))) →
  gf2_times_loop m v sum = sum .^ crc_bits k (v ≪ j).
Proof.
  revert j v sum. induction m as [|x m IH]; intros j v sum Hj Hv Hm; cbn [gf2_times_loop].
  - assert (v = 0) as -> by (unfold ubits, zlen in Hv; simpl in Hv; lia).
    by rewrite Z.shiftl_0_l, crc_bits_0, Z.lxor_0_r.
  - destruct (Z.eqb_spec v 0) as [->|Hv0].
    { by rewrite Z.shiftl_0_l, crc_bits_0, Z.lxor_0_r. }
    rewrite zlen_cons in *. pose proof (zlen_nonneg m).
    rewrite (IH (1 + j)).
    + rewrite c_true_land1, (split_odd v j), crc_bits_lxor by done.
      specialize (Hm 0). rewrite Z.add_0_r in Hm. change (x :: m).[0] with x in Hm.
      destruct (Z.odd v).
      * rewrite Hm by lia. by rewrite Z.lxor_assoc.
      * by rewrite crc_bits_0, Z.lxor_0_l.
    + lia.
    + replace (zlen m) with (1 + zlen m - 1) by lia. apply ubits_shiftr_sub; [lia|done].
    + intros i Hi. specialize (Hm (1 + i)). rewrite Z.add_assoc in Hm.
      rewrite (Z.add_comm 1 j). rewrite <-Hm by lia. unfold aget.
      by replace (Z.to_nat (1 + i)) with (S (Z.to_nat i)) by lia.
Qed.

Lemma gf2_matrix_times_spec k mat v :
  matrix_of k mat → ubits 32 v → gf2_matrix_times mat v = crc_bits k v.
Proof.
  intros [Hl Hm] Hv. unfold gf2_matrix_times.
  rewrite (gf2_times_loop_spec k mat 0) by (unfold zlen; rewrite ?Hl; done).
  by rewrite Z.lxor_0_l, Z.shiftl_0_r.
Qed.

Lemma gf2_matrix_square_spec k square mat :
  matrix_of k mat → length square = 32%nat →
  matrix_of (k + k) (gf2_matrix_square square mat).
Proof.
  intros [Hl Hm] Hs. unfold gf2_matrix_square.
  destruct (for_rule (λ n sq, length sq = 32%nat ∧
      ∀ i, 0 ≤ i < n → sq.[i] = crc_bits (k + k) (2 ^ i)) 0 GF2_DIM
      (λ n sq, sq.[n <- gf2_matrix_times mat mat.[n]]) square) as [H1 H2];
    [done|split; [done|lia]| |done].
  intros n sq Hn [Hlen Hsq]. split; [unfold aset; by rewrite length_insert|].
  intros i Hi. destruct (decide (i = n)) as [->|Hne].
  - rewrite aget_aset_eq by (unfold zlen, GF2_DIM in *; lia).
    rewrite (gf2_matrix_times_spec k) by
      (done || (rewrite Hm by done; apply crc_bits_ubits; unfold ubits, GF2_DIM in *;
                split; [lia|apply Z.pow_lt_mono_r; lia])).
    rewrite Hm, crc_bits_add by done. done.
  - rewrite aget_aset_ne by lia. apply Hsq. lia.
Qed.

Lemma odd_init_spec : matrix_of 1 (odd_init (replicate 32 0)).
Proof.
  split; [done|]. intros i Hi.
  assert (forallb (λ i, (odd_init (replicate 32 0)).[i] =? crc_bits 1 (2 ^ i)) (seqZ 0 32)
          = true) as H by (by vm_compute).
  rewrite forallb_forall in H. apply Z.eqb_eq, H, list_elem_of_In, elem_of_seqZ.
  unfold GF2_DIM in Hi. lia.
Qed.

(** Each round applies the next two bits of [len2]; [k] is the number of zero
    bits of the operator in [odd]. *)
Lemma combine_loop_spec fuel k s :
  (0 < k)%nat → matrix_of k (c_odd s) → length (c_even s) = 32%nat → ubits 32 (c_crc1 s) →
  0 < c_len2 s < 4 ^ Z.of_nat fuel →
  c_crc1 (combine_loop fuel s) = crc_bits (2 * k * Z.to_nat (c_len2 s)) (c_crc1 s).
Proof.
  revert k s. induction fuel as [|fuel IH]; intros k [even odd crc1 len2] Hk Ho He Hc Hl;
    cbn [c_odd c_even c_crc1 c_len2] in *; [simpl in Hl; lia|].
  cbn [combine_loop]. unfold combine_round. cbn [c_odd c_even c_crc1 c_len2].
  rewrite !c_true_land1.
  pose proof (gf2_matrix_square_spec k even odd Ho He) as He2.
  set (even2 := gf2_matrix_square even odd) in *.
  pose proof (gf2_matrix_square_spec _ odd even2 He2 (proj1 Ho)) as Ho4.
  set (odd4 := gf2_matrix_square odd even2) in *.
  set (r1 := if Z.odd len2 then gf2_matrix_times even2 crc1 else crc1).
  assert (r1 = crc_bits (2 * k * Z.to_nat (len2 mod 2)) crc1) as Hr1.
  { subst r1. rewrite Zmod_odd. destruct (Z.odd len2).
    - rewrite (gf2_matrix_times_spec (k + k)) by done. f_equal. lia.
    - by rewrite Nat.mul_0_r. }
  assert (ubits 32 r1) as Hr1u by (rewrite Hr1; by apply crc_bits_ubits).
  assert (len2 ≫ 1 = len2 / 2) as E1 by (by rewrite Z.shiftr_div_pow2).
  rewrite E1. pose proof (Z.div_mod len2 2) as D1. pose proof (Z.mod_pos_bound len2 2) as M1.
  destruct (Z.eqb_spec (len2 / 2) 0) as [H0|H0].
  { cbn [c_crc1]. rewrite Hr1. do 2 f_equal. lia. }
  set (h := len2 / 2) in *. set (r2 := if Z.odd h then gf2_matrix_times odd4 r1 else r1).
  assert (r2 = crc_bits (4 * k * Z.to_nat (h mod 2)) r1) as Hr2.
  { subst r2. rewrite Zmod_odd. destruct (Z.odd h).
    - rewrite (gf2_matrix_times_spec (k + k + (k + k))) by done. f_equal. lia.
    - by rewrite Nat.mul_0_r. }
  assert (h ≫ 1 = h / 2) as E2 by (by rewrite Z.shiftr_div_pow2).
  rewrite E2. pose proof (Z.div_mod h 2) as D2. pose proof (Z.mod_pos_bound h 2) as M2.
  destruct (Z.eqb_spec (h / 2) 0) as [H1|H1]; cbn [negb].
  { cbn [c_crc1]. rewrite Hr2, Hr1, <-crc_bits_add. f_equal. nia. }
  rewrite (IH (k + k + (k + k))%nat); cbn [c_odd c_even c_crc1 c_len2].
  - rewrite Hr2, Hr1, <-!crc_bits_add. f_equal. nia.
  - lia.
  - done.
  - apply He2.
  - rewrite Hr2. by apply crc_bits_ubits.
  - rewrite Nat2Z.inj_succ, Z.pow_succ_r in Hl by lia. lia.
Qed.

(** ** The properties *)

Lemma lnot32_lnot32 c : lnot32 (lnot32 c) = c.
Proof. unfold lnot32. lxor_ac. Qed.

Lemma crc_ref_app crc x y : crc_ref (crc_ref crc x) y = crc_ref crc (x ++ y).
Proof. unfold crc_ref, crc_raw. by rewrite lnot32_lnot32, foldl_app. Qed.

Lemma crc_ref_ubits crc x : ubits 32 crc → bytes x → ubits 32 (crc_ref crc x).
Proof. intros. by apply lnot32_ubits, crc_raw_ubits; [apply lnot32_ubits|]. Qed.

Lemma crc32_ref e addr crc buf : ubits 32 crc → bytes buf →
  crc32 e addr crc (Some buf) = crc_ref crc buf.
Proof. destruct e; [apply crc32_little_ref|apply crc32_big_ref]. Qed.

(** C11: [crc32] computes the CRC of the shift register: feeding a stream to it
    buffer by buffer, each at any address, on a little- or a big-endian machine,
    gives the CRC of the whole stream, and so does the bytewise path. *)
Theorem crc32_stream_correct e crc (chunks : list (Z * list Z)) :
  ubits 32 crc → Forall (λ ch, bytes ch.2) chunks →
  foldl (λ c ch, crc32 e ch.1 c (Some ch.2)) crc chunks = crc_ref crc (concat chunks.*2) ∧
  crc32_bytewise crc (concat chunks.*2) = crc_ref crc (concat chunks.*2).
Proof.
  intros Hc Hch. split.
  - revert crc Hc. induction Hch as [|ch chs Hb Hbs IH]; intros crc Hc;
      cbn [foldl fmap list_fmap concat].
    + unfold crc_ref, crc_raw. simpl. by rewrite lnot32_lnot32.
    + rewrite crc32_ref by done. rewrite IH by (by apply crc_ref_ubits).
      apply crc_ref_app.
  - apply crc32_bytewise_ref; [done|].
    induction Hch as [|ch chs Hb Hbs IH]; simpl; [done|]. by apply Forall_app.
Qed.

Lemma crc32_stream_witness :
  let chunks := [(1, [49; 50; 51]); (0, [52; 53; 54; 55; 56; 57])] in
  foldl (λ c ch, crc32 BigEndian ch.1 c (Some ch.2)) 0 chunks = crc_ref 0 (concat chunks.*2) ∧
  crc32_bytewise 0 (concat chunks.*2) = crc_ref 0 (concat chunks.*2).
Proof.
  apply (crc32_stream_correct BigEndian 0 [(1, [49; 50; 51]); (0, [52; 53; 54; 55; 56; 57])]).
  - split; [lia|done].
  - apply (bool_decide_unpack _). vm_compute. reflexivity.
Defined.

(** The tables checked in as crc32.h are the tables [make_crc_table]
    generates. *)
Theorem checked_in_tables : make_crc_table = Crc32Tables.crc_table.
Proof. vm_compute. reflexivity. Qed.

(** The combination of two CRCs, for every length of a 64-bit offset. *)
Lemma combine_exact e a1 a2 a3 x y :
  bytes x → bytes y → zlen y < 2 ^ 63 →
  crc32_combine_ (crc32 e a1 0 (Some x)) (crc32 e a2 0 (Some y)) (zlen y)
  = crc32 e a3 0 (Some (x ++ y)).
Proof.
  intros Hx Hy Hl. rewrite !crc32_ref by (done || by apply Forall_app). pose proof (zlen_nonneg y).
  unfold crc32_combine_. destruct (Z.leb_spec (zlen y) 0) as [H0|H0].
  { destruct y as [|b y]; [by rewrite app_nil_r|].
    rewrite zlen_cons in *. pose proof (zlen_nonneg y). lia. }
  pose proof (gf2_matrix_square_spec 1 (replicate 32 0) _ odd_init_spec eq_refl) as He.
  pose proof (gf2_matrix_square_spec _ (odd_init (replicate 32 0)) _ He (proj1 odd_init_spec)) as Ho.
  rewrite (combine_loop_spec 32 4); cbn [c_odd c_even c_crc1 c_len2];
    [|lia|exact Ho|apply He|by apply crc_ref_ubits|change (4 ^ Z.of_nat 32) with (2 ^ 64); lia].
  replace (2 * 4 * Z.to_nat (zlen y))%nat with (8 * length y)%nat by (unfold zlen; lia).
  rewrite <-crc_ref_app. unfold crc_ref. rewrite lnot32_lnot32.
  rewrite (crc_raw_affine (crc_raw _ x) y), (crc_raw_affine (lnot32 0) y).
  unfold lnot32. rewrite crc_bits_lxor, Z.lxor_0_l. lxor_ac.
Qed.

(** C12: [crc32_combine] of the CRCs of two buffers and the length of the
    second is the CRC of their concatenation when the length fits [z_off_t], 32
    bits wide here, and [crc32_combine64] when it fits 64 bits. A length of 2 GB
    up to 4 GB is negative to [crc32_combine], which then ignores the second buffer. *)
Theorem crc32_combine_correct e a1 a2 a3 x y :
  bytes x → bytes y →
  let crc1 := crc32 e a1 0 (Some x) in
  let crc2 := crc32 e a2 0 (Some y) in
  (zlen y < 2 ^ 31 → crc32_combine crc1 crc2 (zlen y) = crc32 e a3 0 (Some (x ++ y))) ∧
  (zlen y < 2 ^ 63 → crc32_combine64 crc1 crc2 (zlen y) = crc32 e a3 0 (Some (x ++ y))) ∧
  (2 ^ 31 ≤ zlen y < 2 ^ 32 → crc32_combine crc1 crc2 (zlen y) = crc1).
Proof.
  intros Hx Hy crc1 crc2. pose proof (zlen_nonneg y). unfold crc32_combine, crc32_combine64. split_and!; intros Hl.
  - replace (i32 (zlen y)) with (zlen y) by (unfold swrap; rewrite Z.mod_small; lia). apply combine_exact; (done || lia).
  - replace (i64 (zlen y)) with (zlen y) by (unfold swrap; rewrite Z.mod_small; lia). by apply combine_exact.
  - assert (i32 (zlen y) < 0) as Hneg by (unfold swrap; Z.div_mod_to_equations; lia).
    unfold crc32_combine_. by destruct (Z.leb_spec (i32 (zlen y)) 0); [|lia].
Qed.

Lemma crc32_combine_witness :
  crc32_combine (crc32 LittleEndian 0 0 (Some [49; 50; 51; 52]))
    (crc32 LittleEndian 2 0 (Some [53; 54; 55; 56; 57])) (zlen [53; 54; 55; 56; 57])
  = crc32 LittleEndian 1 0 (Some ([49; 50; 51; 52] ++ [53; 54; 55; 56; 57])).
Proof.
  apply (crc32_combine_correct LittleEndian 0 2 1 [49; 50; 51; 52] [53; 54; 55; 56; 57]);
    [apply (bool_decide_unpack _); vm_compute; reflexivity..|vm_compute; reflexivity].
Defined.

End Crc32.
