(* ===== verification/Sha1.v ===== *)
(** * lib/tracing/api/sha1.c: SHA-1

    The transform with its in-place 16-word schedule and its 80 unrolled
    rounds on rotating registers, the streaming context and the padding, on
    32-bit words of a little-endian machine. The reference is FIPS 180-1:
    padding of the whole message, an 80-word schedule, one uniform round. *)

From S2P Require Import Prelude.

Module Sha1.

(** ** The macros *)

Definition rol (value bits : Z) : Z := u32 (value ≪ bits) .| (value ≫ (32 - bits)).

(** The words [block->l[0..15]]; each macro returns the value and the block. *)
Definition blk0 (l : list Z) (i : Z) : Z * list Z :=
  let w := (rol l.[i] 24 .& 0xFF00FF00) .| (rol l.[i] 8 .& 0x00FF00FF) in
  (w, l.[i <- w]).
Definition blk (l : list Z) (i : Z) : Z * list Z :=
  let w := rol (((l.[Z.land (i + 13) 15] .^ l.[Z.land (i + 8) 15])
                 .^ l.[Z.land (i + 2) 15]) .^ l.[Z.land i 15]) 1 in
  (w, l.[Z.land i 15 <- w]).

Inductive round_op := R0 | R1 | R2 | R3 | R4.

(** The term each macro adds to [z] before the schedule word, its constant and
    the schedule macro it uses. *)
Definition round_f (r : round_op) (w x y : Z) : Z :=
  match r with
  | R0 | R1 => (w .& (x .^ y)) .^ y
  | R2 | R4 => (w .^ x) .^ y
  | R3 => ((w .| x) .& y) .| (w .& x)
  end.
Definition round_k (r : round_op) : Z :=
  match r with
  | R0 | R1 => 0x5A827999
  | R2 => 0x6ED9EBA1
  | R3 => 0x8F1BBCDC
  | R4 => 0xCA62C1D6
  end.
Definition round_blk (r : round_op) : list Z → Z → Z * list Z :=
  match r with R0 => blk0 | _ => blk end.

(** The registers [a..e] as the indices 0..4 of a register file. *)
Record regs_block := RegsBlock { regs : list Z; block : list Z }.

(** [R(v,w,x,y,z,i)]: [z += f(w,x,y) + blk(i) + K + rol(v,5); w = rol(w,30);] *)
Definition do_round (r : round_op) (v w x y z i : Z) (s : regs_block) : regs_block :=
  let g := regs s in
  let '(wi, l) := round_blk r (block s) i in
  let z' := u32 (g.[z] + u32 (u32 (u32 (round_f r g.[w] g.[x] g.[y] + wi) + round_k r)
                              + rol g.[v] 5)) in
  let g := g.[z <- z'] in
  RegsBlock g.[w <- rol g.[w] 30] l.

Definition a : Z := 0.
Definition b : Z := 1.
Definition c : Z := 2.
Definition d : Z := 3.
Definition e : Z := 4.

(** The 80 calls of [SHA1Transform], in order. *)
Definition rounds : list (round_op * (Z * Z * Z * Z * Z) * Z) := [
  (R0, (a, b, c, d, e), 0); (R0, (e, a, b, c, d), 1);
  (R0, (d, e, a, b, c), 2); (R0, (c, d, e, a, b), 3);
  (R0, (b, c, d, e, a), 4); (R0, (a, b, c, d, e), 5);
  (R0, (e, a, b, c, d), 6); (R0, (d, e, a, b, c), 7);
  (R0, (c, d, e, a, b), 8); (R0, (b, c, d, e, a), 9);
  (R0, (a, b, c, d, e), 10); (R0, (e, a, b, c, d), 11);
  (R0, (d, e, a, b, c), 12); (R0, (c, d, e, a, b), 13);
  (R0, (b, c, d, e, a), 14); (R0, (a, b, c, d, e), 15);
  (R1, (e, a, b, c, d), 16); (R1, (d, e, a, b, c), 17);
  (R1, (c, d, e, a, b), 18); (R1, (b, c, d, e, a), 19);
  (R2, (a, b, c, d, e), 20); (R2, (e, a, b, c, d), 21);
  (R2, (d, e, a, b, c), 22); (R2, (c, d, e, a, b), 23);
  (R2, (b, c, d, e, a), 24); (R2, (a, b, c, d, e), 25);
  (R2, (e, a, b, c, d), 26); (R2, (d, e, a, b, c), 27);
  (R2, (c, d, e, a, b), 28); (R2, (b, c, d, e, a), 29);
  (R2, (a, b, c, d, e), 30); (R2, (e, a, b, c, d), 31);
  (R2, (d, e, a, b, c), 32); (R2, (c, d, e, a, b), 33);
  (R2, (b, c, d, e, a), 34); (R2, (a, b, c, d, e), 35);
  (R2, (e, a, b, c, d), 36); (R2, (d, e, a, b, c), 37);
  (R2, (c, d, e, a, b), 38); (R2, (b, c, d, e, a), 39);
  (R3, (a, b, c, d, e), 40); (R3, (e, a, b, c, d), 41);
  (R3, (d, e, a, b, c), 42); (R3, (c, d, e, a, b), 43);
  (R3, (b, c, d, e, a), 44); (R3, (a, b, c, d, e), 45);
  (R3, (e, a, b, c, d), 46); (R3, (d, e, a, b, c), 47);
  (R3, (c, d, e, a, b), 48); (R3, (b, c, d, e, a), 49);
  (R3, (a, b, c, d, e), 50); (R3, (e, a, b, c, d), 51);
  (R3, (d, e, a, b, c), 52); (R3, (c, d, e, a, b), 53);
  (R3, (b, c, d, e, a), 54); (R3, (a, b, c, d, e), 55);
  (R3, (e, a, b, c, d), 56); (R3, (d, e, a, b, c), 57);
  (R3, (c, d, e, a, b), 58); (R3, (b, c, d, e, a), 59);
  (R4, (a, b, c, d, e), 60); (R4, (e, a, b, c, d), 61);
  (R4, (d, e, a, b, c), 62); (R4, (c, d, e, a, b), 63);
  (R4, (b, c, d, e, a), 64); (R4, (a, b, c, d, e), 65);
  (R4, (e, a, b, c, d), 66); (R4, (d, e, a, b, c), 67);
  (R4, (c, d, e, a, b), 68); (R4, (b, c, d, e, a), 69);
  (R4, (a, b, c, d, e), 70); (R4, (e, a, b, c, d), 71);
  (R4, (d, e, a, b, c), 72); (R4, (c, d, e, a, b), 73);
  (R4, (b, c, d, e, a), 74); (R4, (a, b, c, d, e), 75);
  (R4, (e, a, b, c, d), 76); (R4, (d, e, a, b, c), 77);
  (R4, (c, d, e, a, b), 78); (R4, (b, c, d, e, a), 79)
].

Definition do_call (s : regs_block) (call : round_op * (Z * Z * Z * Z * Z) * Z) : regs_block :=
  let '(r, (v, w, x, y, z), i) := call in do_round r v w x y z i s.

(** ** SHA1Transform *)

(** The union [CHAR64LONG16] read as words on a little-endian machine. *)
Definition words_le (buffer : list Z) : list Z :=
  map (λ i, buffer.[4 * i] + 2 ^ 8 * buffer.[4 * i + 1]
            + 2 ^ 16 * buffer.[4 * i + 2] + 2 ^ 24 * buffer.[4 * i + 3]) (seqZ 0 16).

Definition SHA1Transform (state buffer : list Z) : list Z :=
  let g := regs (foldl do_call (RegsBlock state (words_le buffer)) rounds) in
  map (λ i, u32 (state.[i] + g.[i])) (seqZ 0 5).

(** ** The context *)

Record SHA1_CTX := CTX { state : list Z; count : list Z; buffer : list Z }.

(** [SHA1Init] leaves [buffer] as it was. *)
Definition SHA1Init (buf : list Z) : SHA1_CTX :=
  CTX [0x67452301; 0xEFCDAB89; 0x98BADCFE; 0x10325476; 0xC3D2E1F0] [0; 0] buf.

(** [for (; i + 63 < len; i += 64) SHA1Transform(state, &data[i]);] *)
Definition transform_loop (len : Z) (data : list Z) (i : Z) (st : list Z) : Z * list Z :=
  while (length data) (λ s, u32 (s.1 + 63) <? len)
    (λ s, (u32 (s.1 + 64),
           SHA1Transform s.2 (take 64 (drop (Z.to_nat s.1) data)))) (i, st).

Definition SHA1Update (context : SHA1_CTX) (data : list Z) : SHA1_CTX :=
  let len := zlen data in
  let j := (count context).[0] in
  let c0 := u32 (j + u32 (len ≪ 3)) in
  let c1 := if c0 <? j then u32 ((count context).[1] + 1) else (count context).[1] in
  let c1 := u32 (c1 + (len ≫ 29)) in
  let j := (j ≫ 3) .& 63 in
  let '(i, j, st, buf) :=
    if 63 <? u32 (j + len) then
      let i := 64 - j in
      let buf := memcpy (buffer context) j (take (Z.to_nat i) data) in
      let st := SHA1Transform (state context) buf in
      let '(i, st) := transform_loop len data i st in
      (i, 0, st, buf)
    else (0, j, state context, buffer context) in
  let buf := memcpy buf j (take (Z.to_nat (len - i)) (drop (Z.to_nat i) data)) in
  CTX st [c0; c1] buf.

(** ** SHA1Final and SHA1 *)

Definition finalcount_byte (count : list Z) (i : Z) : Z :=
  (count.[if 4 <=? i then 0 else 1] ≫ ((3 - Z.land i 3) * 8)) .& 255.

(** [while ((context->count[0] & 504) != 448) SHA1Update(context, "\0", 1);] *)
Definition pad_loop (context : SHA1_CTX) : SHA1_CTX :=
  while 64 (λ ctx, negb (Z.land (count ctx).[0] 504 =? 448))
    (λ ctx, SHA1Update ctx [0]) context.

Definition digest_byte (state : list Z) (i : Z) : Z :=
  (state.[i ≫ 2] ≫ ((3 - Z.land i 3) * 8)) .& 255.

(** The digest, and the context wiped at the end. *)
Definition SHA1Final (context : SHA1_CTX) : list Z * SHA1_CTX :=
  let finalcount := map (finalcount_byte (count context)) (seqZ 0 8) in
  let context := SHA1Update context [0x80] in
  let context := pad_loop context in
  let context := SHA1Update context finalcount in
  (map (digest_byte (state context)) (seqZ 0 20),
   CTX (replicate 5 0) (replicate 2 0) (replicate 64 0)).

(** [junk] is the initial content of the automatic [ctx.buffer]. *)
Definition SHA1 (junk : list Z) (str : list Z) : list Z :=
  let ctx := foldl (λ ctx ch, SHA1Update ctx [ch]) (SHA1Init junk) str in
  (SHA1Final ctx).1 ++ [0].

(** ** Reference: FIPS 180-1 *)

Module Fips.

Definition rotl (x n : Z) : Z := (x * 2 ^ n) mod 2 ^ 32 + x / 2 ^ (32 - n).

Definition f (t x y z : Z) : Z :=
  if t <? 20 then (x .& y) .| ((x .^ 0xffffffff) .& z)
  else if t <? 40 then (x .^ y) .^ z
  else if t <? 60 then ((x .& y) .| (x .& z)) .| (y .& z)
  else (x .^ y) .^ z.

Definition K (t : Z) : Z :=
  if t <? 20 then 0x5A827999 else if t <? 40 then 0x6ED9EBA1
  else if t <? 60 then 0x8F1BBCDC else 0xCA62C1D6.

(** The big-endian words of a block. *)
Definition word (blk : list Z) (i : Z) : Z :=
  quad blk.[4 * i + 3] blk.[4 * i + 2] blk.[4 * i + 1] blk.[4 * i].

(** The schedule [W_0 .. W_79]. *)
Definition extend (W : list Z) : list Z :=
  let t := zlen W in
  W ++ [rotl (((W.[t - 3] .^ W.[t - 8]) .^ W.[t - 14]) .^ W.[t - 16]) 1].
Definition schedule (blk : list Z) : list Z :=
  Nat.iter 64 extend (map (word blk) (seqZ 0 16)).

Record vars := Vars { A : Z; B : Z; C : Z; D : Z; E : Z }.

Definition step (W : list Z) (v : vars) (t : Z) : vars :=
  let temp := u32 (rotl (A v) 5 + f t (B v) (C v) (D v) + E v + W.[t] + K t) in
  Vars temp (A v) (rotl (B v) 30) (C v) (D v).

Definition compress (H blk : list Z) : list Z :=
  let v := foldl (step (schedule blk)) (Vars H.[0] H.[1] H.[2] H.[3] H.[4]) (seqZ 0 80) in
  [u32 (H.[0] + A v); u32 (H.[1] + B v); u32 (H.[2] + C v); u32 (H.[3] + D v);
   u32 (H.[4] + E v)].

(** The hash of the first [n] blocks of [l]. *)
Fixpoint blocks (n : nat) (H l : list Z) : list Z :=
  match n with
  | O => H
  | S n => blocks n (compress H (take 64 l)) (drop 64 l)
  end.

Definition H0 : list Z := [0x67452301; 0xEFCDAB89; 0x98BADCFE; 0x10325476; 0xC3D2E1F0].

(** The bytes of an [n]-byte big-endian number. *)
Definition be_bytes (n : Z) (x : Z) : list Z :=
  map (λ i, (x ≫ (8 * (n - 1 - i))) .& 255) (seqZ 0 n).

(** A one bit, zeros up to 8 bytes below a block boundary, the length in bits. *)
Definition pad (M : list Z) : list Z :=
  M ++ [0x80] ++ replicate (Z.to_nat ((55 - zlen M) mod 64)) 0 ++ be_bytes 8 (8 * zlen M).

Definition digest (M : list Z) : list Z :=
  concat (map (be_bytes 4) (blocks (length (pad M) / 64) H0 (pad M))).

End Fips.

Example sha1_abc : SHA1 (replicate 64 0) [97; 98; 99] = [
  0xA9; 0x99; 0x3E; 0x36; 0x47; 0x06; 0x81; 0x6A; 0xBA; 0x3E;
  0x25; 0x71; 0x78; 0x50; 0xC2; 0x6C; 0x9C; 0xD0; 0xD8; 0x9D; 0].
Proof. vm_compute. reflexivity. Qed.

Example fips_abc : Fips.digest [97; 98; 99] ++ [0] = SHA1 (replicate 64 0) [97; 98; 99].
Proof. vm_compute. reflexivity. Qed.

(** ** One round *)

Lemma rol_ubits x n : 0 ≤ n ≤ 32 → ubits 32 x → ubits 32 (rol x n).
Proof. intros. unfold rol. apply ubits_lor; [lia|by apply wrap_ubits|apply ubits_shiftr; [lia|done]]. Qed.

Lemma rol_rotl x n : 0 ≤ n ≤ 32 → ubits 32 x → rol x n = Fips.rotl x n.
Proof.
  intros Hn Hx. unfold rol, Fips.rotl.
  assert (u32 (x ≪ n) = (x mod 2 ^ (32 - n)) ≪ n) as E.
  { rewrite !Z.shiftl_mul_pow2 by lia. unfold wrap.
    replace 32 with ((32 - n) + n) at 1 by lia. rewrite Z.pow_add_r by lia.
    by rewrite Z.mul_mod_distr_r by lia. }
  rewrite E, Z.lor_comm, lor_shiftl_add.
  - rewrite Z.shiftr_div_pow2, <-Z.shiftl_mul_pow2, <-E by lia.
    unfold wrap. rewrite Z.shiftl_mul_pow2 by lia. lia.
  - lia.
  - replace n with (32 - (32 - n)) at 1 by lia. apply ubits_shiftr_sub; [lia|done].
Qed.

(** The source's round functions are the standard's. *)
Definition round_at (t : Z) : round_op :=
  if t <? 16 then R0 else if t <? 20 then R1 else if t <? 40 then R2
  else if t <? 60 then R3 else R4.

Lemma round_f_fips t x y z : 0 ≤ t → ubits 32 x → ubits 32 y → ubits 32 z →
  round_f (round_at t) x y z = Fips.f t x y z ∧ round_k (round_at t) = Fips.K t.
Proof.
  intros Ht Hx Hy Hz. unfold Fips.f, Fips.K, round_at.
  destruct (Z.ltb_spec t 16), (Z.ltb_spec t 20), (Z.ltb_spec t 40), (Z.ltb_spec t 60);
    try lia; cbn [round_f round_k]; split; try done.
  1-3: change 0xffffffff with (Z.ones 32).
  all: apply Z.bits_inj'; intros i Hi; destruct (decide (i < 32)) as [Hlt|Hge];
    [|assert (Z.testbit x i = false ∧ Z.testbit y i = false ∧ Z.testbit z i = false)
        as (Ex & Ey & Ez) by (split_and!; eapply testbit_ubits; done || lia)].
  all: repeat rewrite ?Z.lxor_spec, ?Z.lor_spec, ?Z.land_spec;
    try (rewrite Ex, Ey, Ez; by rewrite ?andb_false_r);
    try rewrite Z.ones_spec_low by lia;
    by destruct (Z.testbit x i), (Z.testbit y i), (Z.testbit z i).
Qed.

(** ** The schedule *)

Definition sched_ok (blk W : list Z) : Prop :=
  (∀ i, 0 ≤ i < 16 → W.[i] = Fips.word blk i) ∧
  (∀ t, 16 ≤ t < zlen W →
     W.[t] = Fips.rotl (((W.[t - 3] .^ W.[t - 8]) .^ W.[t - 14]) .^ W.[t - 16]) 1).

Lemma schedule_spec blk : zlen (Fips.schedule blk) = 80 ∧ sched_ok blk (Fips.schedule blk).
Proof.
  unfold Fips.schedule.
  assert (∀ n, zlen (Nat.iter n Fips.extend (map (Fips.word blk) (seqZ 0 16)))
    = 16 + Z.of_nat n ∧
    sched_ok blk (Nat.iter n Fips.extend (map (Fips.word blk) (seqZ 0 16)))) as H;
    [|exact (H 64%nat)].
  induction n as [|n [IHl [IH1 IH2]]].
  - split; [done|]. split.
    + intros i Hi. cbn [Nat.iter nat_rect]. by rewrite aget_map_seqZ by lia.
    + intros t Ht. unfold zlen in Ht. simpl in Ht. lia.
  - simpl. set (W := Nat.iter n _ _) in *. unfold Fips.extend.
    rewrite zlen_app. change (zlen [_]) with 1. split; [lia|]. split.
    + intros i Hi. rewrite aget_app_l by lia. by apply IH1.
    + intros t Ht. rewrite zlen_app in Ht. change (zlen [_]) with 1 in Ht.
      rewrite (aget_app_l W _ (t - 3)), (aget_app_l W _ (t - 8)),
        (aget_app_l W _ (t - 14)), (aget_app_l W _ (t - 16)) by lia.
      destruct (decide (t = zlen W)) as [->|Hne].
      * apply aget_snoc.
      * rewrite aget_app_l by lia. apply IH2. lia.
Qed.

Lemma word_ubits blk i : bytes blk → zlen blk = 64 → 0 ≤ i < 16 → ubits 32 (Fips.word blk i).
Proof.
  intros Hb Hl Hi. apply quad_ubits. rewrite !Forall_cons.
  split_and!; try done; apply Forall_aget; auto with lia.
Qed.

Lemma schedule_ubits blk : bytes blk → zlen blk = 64 →
  Forall (ubits 32) (Fips.schedule blk).
Proof.
  intros Hb Hl. unfold Fips.schedule. generalize 64%nat as n.
  assert (∀ n, 16 ≤ zlen (Nat.iter n Fips.extend (map (Fips.word blk) (seqZ 0 16))) ∧
    Forall (ubits 32) (Nat.iter n Fips.extend (map (Fips.word blk) (seqZ 0 16)))) as H;
    [|intros n; apply H].
  induction n as [|n [IHl IH]].
  - split; [done|]. apply Forall_forall. intros x (i & -> & Hi)%list_elem_of_fmap.
    apply elem_of_seqZ in Hi. by apply word_ubits.
  - simpl. set (W := Nat.iter n _ _) in *. unfold Fips.extend. rewrite zlen_app. change (zlen [_]) with 1. split; [lia|].
    apply Forall_app. split; [done|]. apply Forall_singleton.
    rewrite <-rol_rotl; [apply rol_ubits; [lia|]|lia|];
      repeat apply ubits_lxor; try lia; apply Forall_aget; auto with lia.
Qed.

(** The block at time [t]: a window of the schedule over words not yet read. *)
Definition window (raw W : list Z) (t : Z) (l : list Z) : Prop :=
  zlen l = 16 ∧
  (∀ s, 0 ≤ s < t → t - 16 ≤ s → l.[s mod 16] = W.[s]) ∧
  (∀ j, t ≤ j < 16 → l.[j] = raw.[j]).

Lemma window_set raw W t l : 0 ≤ t → window raw W t l →
  window raw W (t + 1) l.[t mod 16 <- W.[t]].
Proof.
  intros Ht (Hl & H1 & H2). pose proof (Z.mod_pos_bound t 16).
  split; [by rewrite zlen_aset|]. split.
  - intros s Hs Hs'. pose proof (Z.mod_pos_bound s 16).
    destruct (decide (s = t)) as [->|Hne]; [apply aget_aset_eq; lia|].
    assert (s mod 16 ≠ t mod 16) by (Z.div_mod_to_equations; lia).
    rewrite aget_aset_ne by lia. apply H1; lia.
  - intros j Hj. rewrite aget_aset_ne by (rewrite ?Z.mod_small; lia). apply H2. lia.
Qed.

Lemma land_15 x : Z.land x 15 = x mod 16.
Proof. change 15 with (Z.ones 4). by rewrite Z.land_ones. Qed.

Lemma blk_word raw W t l : 16 ≤ t < 80 → zlen W = 80 → window raw W t l →
  (∀ s, 16 ≤ s < zlen W →
     W.[s] = Fips.rotl (((W.[s - 3] .^ W.[s - 8]) .^ W.[s - 14]) .^ W.[s - 16]) 1) →
  Forall (ubits 32) W →
  blk l t = (W.[t], l.[t mod 16 <- W.[t]]).
Proof.
  intros Ht HW (Hl & H1 & H2) Hrec HU. unfold blk. rewrite !land_15.
  replace ((t + 13) mod 16) with ((t - 3) mod 16) by (Z.div_mod_to_equations; lia).
  replace ((t + 8) mod 16) with ((t - 8) mod 16) by (Z.div_mod_to_equations; lia).
  replace ((t + 2) mod 16) with ((t - 14) mod 16) by (Z.div_mod_to_equations; lia).
  replace (l.[t mod 16]) with W.[t - 16]
    by (rewrite <-H1 by lia; f_equal; Z.div_mod_to_equations; lia).
  rewrite !H1 by lia. rewrite rol_rotl; [by rewrite <-Hrec by lia|lia|].
  repeat apply ubits_lxor; try lia; apply Forall_aget; auto with lia.
Qed.

(** Two masked rotations reverse the bytes of a word. *)
Lemma blk0_swap b0 b1 b2 b3 : bytes [b0; b1; b2; b3] →
  let x := quad b0 b1 b2 b3 in
  ((rol x 24 .& 0xFF00FF00) .| (rol x 8 .& 0x00FF00FF)) = quad b3 b2 b1 b0.
Proof.
  intros Hb x. pose proof Hb as Hb'. rewrite !Forall_cons in Hb'.
  destruct Hb' as (H0 & H1 & H2 & H3 & _).
  assert (rol x 24 = quad b1 b2 b3 b0) as ->.
  { unfold rol. change (32 - 24) with 8.
    assert (u32 (x ≪ 24) = b0 ≪ 24) as ->.
    { rewrite !Z.shiftl_mul_pow2 by lia. unfold x, quad, wrap, ubits in *.
      Z.div_mod_to_equations. lia. }
    assert (x ≫ 8 = b1 + 2 ^ 8 * b2 + 2 ^ 16 * b3) as ->.
    { rewrite Z.shiftr_div_pow2 by lia. unfold x, quad, ubits in *.
      Z.div_mod_to_equations. lia. }
    rewrite Z.lor_comm, lor_shiftl_add by (unfold ubits in *; lia). unfold quad. lia. }
  assert (rol x 8 = quad b3 b0 b1 b2) as ->.
  { unfold rol. change (32 - 8) with 24.
    assert (u32 (x ≪ 8) = (b0 + 2 ^ 8 * b1 + 2 ^ 16 * b2) ≪ 8) as ->.
    { rewrite !Z.shiftl_mul_pow2 by lia. unfold x, quad, wrap, ubits in *.
      Z.div_mod_to_equations. lia. }
    assert (x ≫ 24 = b3) as ->.
    { rewrite Z.shiftr_div_pow2 by lia. unfold x, quad, ubits in *.
      Z.div_mod_to_equations. lia. }
    rewrite Z.lor_comm, lor_shiftl_add by (unfold ubits in *; lia). unfold quad. lia. }
  change 0xFF00FF00 with (quad 0 255 0 255). change 0x00FF00FF with (quad 255 0 255 0).
  assert (∀ x, ubits 8 x → (x .& 255) = x) as Hff.
  { intros y Hy. change 255 with (Z.ones 8). rewrite <-wrap_ones by lia. by apply wrap_small. }
  assert (ubits 8 0 ∧ ubits 8 255) as [U0 U1] by (by split).
  destruct (quad_land b1 b2 b3 b0 0 255 0 255) as [-> F1]; [rewrite !Forall_cons; auto..|].
  destruct (quad_land b3 b0 b1 b2 255 0 255 0) as [-> F2]; [rewrite !Forall_cons; auto..|].
  destruct (quad_lor _ _ _ _ _ _ _ _ F1 F2) as [-> _].
  by rewrite !Z.land_0_r, !Hff, !Z.lor_0_l, !Z.lor_0_r.
Qed.

(** ** The registers

    Register [k] of the standard at time [t] is index [(k - t) mod 5] of the
    register file: the calls rotate the roles instead of moving the values. *)

Definition ix (t k : Z) : Z := (k - t) mod 5.

Definition call_at (t : Z) : round_op * (Z * Z * Z * Z * Z) * Z :=
  (round_at t, (ix t 0, ix t 1, ix t 2, ix t 3, ix t 4), t).

Lemma rounds_at : rounds = map call_at (seqZ 0 80).
Proof. vm_compute. reflexivity. Qed.

Definition view (t : Z) (g : list Z) : Fips.vars :=
  Fips.Vars g.[ix t 0] g.[ix t 1] g.[ix t 2] g.[ix t 3] g.[ix t 4].

Definition reg_file (g : list Z) : Prop := zlen g = 5 ∧ Forall (ubits 32) g.

Lemma sum_u32 e f w k r :
  u32 (e + u32 (u32 (u32 (f + w) + k) + r)) = u32 (r + f + e + w + k).
Proof.
  rewrite (wrap_add_idem_l _ (f + w) k), (wrap_add_idem_l _ _ r), wrap_add_idem_r.
  f_equal. lia.
Qed.

Lemma do_round_view W t s l : 0 ≤ t → reg_file (regs s) →
  round_blk (round_at t) (block s) t = (W.[t], l) →
  let s' := do_call s (call_at t) in
  view (t + 1) (regs s') = Fips.step W (view t (regs s)) t ∧ reg_file (regs s') ∧
  block s' = l.
Proof.
  intros Ht [Hl HU] Hblk. unfold do_call, call_at, do_round. rewrite Hblk. simpl.
  assert (∀ k, 0 ≤ ix t k < 5) as Hix by (intros; apply Z.mod_pos_bound; lia).
  assert (∀ k, ubits 32 (regs s).[ix t k]) as HU' by (intros; apply Forall_aget; [done|rewrite Hl; apply Hix]).
  assert (∀ j k, 0 ≤ j < 5 → 0 ≤ k < 5 → j ≠ k → ix t j ≠ ix t k) as Hne.
  { intros j k ???. unfold ix. Z.div_mod_to_equations. lia. }
  assert (ix (t + 1) 0 = ix t 4 ∧ ix (t + 1) 1 = ix t 0 ∧ ix (t + 1) 2 = ix t 1 ∧
    ix (t + 1) 3 = ix t 2 ∧ ix (t + 1) 4 = ix t 3) as (E0 & E1 & E2 & E3 & E4).
  { unfold ix. split_and!; Z.div_mod_to_equations; lia. }
  destruct (round_f_fips t (regs s).[ix t 1] (regs s).[ix t 2] (regs s).[ix t 3])
    as [Ef Ek]; [done..|]. rewrite Ef, Ek.
  set (z' := u32 _).
  rewrite (aget_aset_ne _ (ix t 4) (ix t 1)) by (apply Hix || (apply Hne; lia)).
  split_and!; [|split|done].
  - unfold view, Fips.step. rewrite E0, E1, E2, E3, E4. simpl.
    rewrite (aget_aset_eq _ (ix t 1)) by (rewrite zlen_aset; rewrite Hl; apply Hix).
    rewrite !(aget_aset_ne _ (ix t 1)) by (apply Hix || (apply Hne; lia)).
    rewrite (aget_aset_eq _ (ix t 4)) by (rewrite Hl; apply Hix).
    rewrite !(aget_aset_ne _ (ix t 4)) by (apply Hix || (apply Hne; lia)).
    subst z'. rewrite !rol_rotl by (lia || apply HU').
    by rewrite sum_u32.
  - by rewrite !zlen_aset.
  - apply Forall_aset; [apply Forall_aset; [done|by apply wrap_ubits]|].
    by apply rol_ubits; [lia|].
Qed.

Lemma words_le_word blk i : bytes blk → zlen blk = 64 → 0 ≤ i < 16 →
  let x := (words_le blk).[i] in
  ((rol x 24 .& 0xFF00FF00) .| (rol x 8 .& 0x00FF00FF)) = Fips.word blk i.
Proof.
  intros Hb Hl Hi. unfold words_le. rewrite aget_map_seqZ by lia. apply blk0_swap.
  rewrite !Forall_cons. split_and!; try done; apply Forall_aget; auto with lia.
Qed.

(** The schedule word round [t] uses, and the window it leaves. *)
Lemma round_blk_word bl t l : bytes bl → zlen bl = 64 → 0 ≤ t < 80 →
  let W := Fips.schedule bl in window (words_le bl) W t l →
  round_blk (round_at t) l t = (W.[t], l.[t mod 16 <- W.[t]]).
Proof.
  intros Hb Hl Ht W HW. destruct (schedule_spec bl) as [HWl [HW1 HW2]]. fold W in HWl, HW1, HW2.
  unfold round_at. destruct (Z.ltb_spec t 16) as [H16|H16].
  - simpl. unfold blk0. destruct HW as (Hl' & _ & Hraw). rewrite Hraw by lia.
    rewrite words_le_word by (done || lia). by rewrite HW1, Z.mod_small by lia.
  - assert (round_blk (if t <? 20 then R1 else if t <? 40 then R2
      else if t <? 60 then R3 else R4) = blk) as -> by (repeat case_match; done).
    eapply blk_word; [lia|done|done|done|by apply schedule_ubits].
Qed.

Lemma rounds_view st bl n : 0 ≤ n ≤ 80 → reg_file st → bytes bl → zlen bl = 64 →
  let W := Fips.schedule bl in
  let s := for_ 0 n (λ t s, do_call s (call_at t)) (RegsBlock st (words_le bl)) in
  window (words_le bl) W n (block s) ∧ reg_file (regs s) ∧
  view n (regs s) = for_ 0 n (λ t v, Fips.step W v t) (view 0 st).
Proof.
  intros Hn Hst Hb Hl W s. subst s.
  apply (for_rule (λ t s, window (words_le bl) W t (block s) ∧ reg_file (regs s) ∧
    view t (regs s) = for_ 0 t (λ t v, Fips.step W v t) (view 0 st)) 0 n).
  - lia.
  - split_and!; [|done|by rewrite for_empty by lia]. split; [done|]. split; [lia|done].
  - intros t s Ht (Hw & Hg & Hv).
    destruct (do_round_view W t s ((block s).[t mod 16 <- W.[t]])) as (E & Hg' & ->);
      [lia|done|apply round_blk_word; [done..|lia|done]|].
    split_and!; [apply window_set; [lia|done]|done|].
    rewrite E, for_last by lia. by rewrite Hv.
Qed.

(** SHA1Transform is the compression function of the standard. *)
Lemma transform_compress st bl : reg_file st → bytes bl → zlen bl = 64 →
  SHA1Transform st bl = Fips.compress st bl.
Proof.
  intros Hst Hb Hl. destruct (rounds_view st bl 80) as (_ & _ & Hv); [lia|done..|].
  unfold SHA1Transform, Fips.compress. rewrite rounds_at, foldl_map, !foldl_for.
  change (Fips.Vars _ _ _ _ _) with (view 0 st). rewrite <-Hv.
  generalize (regs (for_ 0 80 (λ t s, do_call s (call_at t))
    (RegsBlock st (words_le bl)))). clear. intros g.
  assert (seqZ 0 5 = [0; 1; 2; 3; 4]) as -> by done. unfold view.
  assert (∀ k, 0 ≤ k < 5 → ix 80 k = k) as Hix.
  { intros k Hk. unfold ix. Z.div_mod_to_equations. lia. }
  by rewrite !Hix by lia.
Qed.

(** ** Streaming: the context after a message *)

Lemma compress_reg_file st bl : reg_file (Fips.compress st bl).
Proof. split; [done|]. unfold Fips.compress. repeat constructor; apply Z.mod_pos_bound; lia. Qed.

Lemma blocks_reg_file n st l : reg_file st → reg_file (Fips.blocks n st l).
Proof.
  revert st l. induction n as [|n IH]; intros st l Hst; simpl; [done|].
  apply IH, compress_reg_file.
Qed.

Lemma H0_reg_file : reg_file Fips.H0.
Proof. split; [done|]. by apply (bool_decide_unpack _). Qed.

Lemma blocks_add n m st l :
  Fips.blocks (n + m) st l = Fips.blocks m (Fips.blocks n st l) (drop (64 * n) l).
Proof.
  revert st l. induction n as [|n IH]; intros st l.
  - by rewrite Nat.mul_0_r.
  - cbn [Nat.add Fips.blocks]. rewrite IH, drop_drop. do 2 f_equal. lia.
Qed.

Lemma blocks_app n st l k : (64 * n ≤ length l)%nat →
  Fips.blocks n st (l ++ k) = Fips.blocks n st l.
Proof.
  revert st l. induction n as [|n IH]; intros st l Hl; cbn [Fips.blocks]; [done|].
  rewrite take_app_le, drop_app_le by lia. apply IH. rewrite length_drop. lia.
Qed.

(** The words of the bit count. *)
Definition count_of (n : nat) : list Z :=
  [(8 * Z.of_nat n) mod 2 ^ 32; ((8 * Z.of_nat n) / 2 ^ 32) mod 2 ^ 32].

Record ctx_ok (M : list Z) (ctx : SHA1_CTX) : Prop := {
  ok_bytes : bytes M;
  ok_state : state ctx = Fips.blocks (length M / 64) Fips.H0 M;
  ok_count : count ctx = count_of (length M);
  ok_length : length (buffer ctx) = 64%nat;
  ok_buffer : take (length M mod 64) (buffer ctx) = drop (64 * (length M / 64)) M
}.

Lemma init_ok junk : length junk = 64%nat → ctx_ok [] (SHA1Init junk).
Proof. intros. by split. Qed.

Lemma count_add a n : (n < 2 ^ 32)%Z → 0 ≤ a → 0 ≤ n →
  let j := (8 * a) mod 2 ^ 32 in let h := ((8 * a) / 2 ^ 32) mod 2 ^ 32 in
  let c0 := u32 (j + u32 (n ≪ 3)) in
  let c1 := if c0 <? j then u32 (h + 1) else h in
  [c0; u32 (c1 + (n ≫ 29))]
  = [(8 * (a + n)) mod 2 ^ 32; ((8 * (a + n)) / 2 ^ 32) mod 2 ^ 32].
Proof.
  intros Hn Ha Hn0 j h c0 c1.
  assert (c0 = (8 * (a + n)) mod 2 ^ 32) as E0.
  { unfold c0, j, wrap. rewrite Z.shiftl_mul_pow2, Zplus_mod_idemp_r, Zplus_mod_idemp_l by lia.
    f_equal. lia. }
  f_equal; [done|]. f_equal.
  assert ((8 * (a + n)) / 2 ^ 32 = (8 * a) / 2 ^ 32 + (if c0 <? j then 1 else 0) + (n ≫ 29)) as ->.
  { rewrite E0, Z.shiftr_div_pow2 by lia. unfold j. clear.
    destruct (Z.ltb_spec ((8 * (a + n)) mod 2 ^ 32) ((8 * a) mod 2 ^ 32));
      Z.div_mod_to_equations; lia. }
  unfold c1, h, wrap. destruct (c0 <? j).
  - rewrite Zplus_mod_idemp_l, <-(Zplus_mod_idemp_l ((8 * a) / 2 ^ 32 + 1)),
      <-(Zplus_mod_idemp_l ((8 * a) / 2 ^ 32)), !Zplus_mod_idemp_l. done.
  - by rewrite Zplus_mod_idemp_l, Z.add_0_r.
Qed.

Lemma count_index a : 0 ≤ a → (((8 * a) mod 2 ^ 32) ≫ 3) .& 63 = a mod 64.
Proof.
  intros. change 63 with (Z.ones 6). rewrite Z.land_ones, Z.shiftr_div_pow2 by lia.
  Z.div_mod_to_equations. lia.
Qed.

Lemma transform_loop_spec len data i st : len = zlen data → len < 2 ^ 32 - 64 →
  (i ≤ length data)%nat → reg_file st → bytes data →
  let q := ((length data - i) / 64)%nat in
  transform_loop len data (Z.of_nat i) st
  = (Z.of_nat (i + 64 * q), Fips.blocks q st (drop i data)).
Proof.
  intros -> Hlen Hi Hst Hb q. unfold transform_loop, q. clear q. unfold zlen in *.
  assert (length data - i ≤ length data)%nat as Hf by lia. revert Hf.
  generalize (length data) at 2 3 as fuel.
  intros fuel. revert i st Hi Hst.
  induction fuel as [|fuel IH]; intros i st Hi Hst Hf; cbn [while].
  { replace (length data - i)%nat with 0%nat by lia. rewrite Nat.div_small by lia. cbn [Fips.blocks]. f_equal. lia. }
  cbn [fst snd]. rewrite (wrap_small 32 (Z.of_nat i + 63)) by (unfold ubits; lia).
  destruct (Z.ltb_spec (Z.of_nat i + 63) (Z.of_nat (length data))).
  - rewrite (wrap_small 32 (Z.of_nat i + 64)) by (unfold ubits; lia).
    replace (Z.of_nat i + 64) with (Z.of_nat (i + 64)) by lia.
    rewrite Nat2Z.id, transform_compress; [|done|by apply Forall_take, Forall_drop|].
    2: { unfold zlen. rewrite length_take, length_drop. lia. }
    rewrite IH by (lia || apply compress_reg_file).
    replace ((length data - i) / 64)%nat with (S ((length data - (i + 64)) / 64))
      by (replace (length data - i)%nat with (1 * 64 + (length data - (i + 64)))%nat by lia;
          rewrite Nat.div_add_l by lia; lia).
    cbn [Fips.blocks]. rewrite drop_drop. f_equal. lia.
  - rewrite Nat.div_small by lia. cbn [Fips.blocks]. f_equal. lia.
Qed.

(** The data fits beside the bytes already buffered. *)
Lemma update_buffered M data buf : length buf = 64%nat →
  (length M mod 64 + length data < 64)%nat →
  take (length M mod 64) buf = drop (64 * (length M / 64)) M →
  let M' := M ++ data in
  Fips.blocks (length M' / 64) Fips.H0 M' = Fips.blocks (length M / 64) Fips.H0 M ∧
  take (length M' mod 64) (memcpy buf (Z.of_nat (length M mod 64)) data)
  = drop (64 * (length M' / 64)) M'.
Proof.
  intros Hb Hlt Htk. cbv zeta. rewrite length_app.
  pose proof (Nat.div_mod_eq (length M) 64) as Hdm.
  assert ((length M + length data) / 64 = length M / 64)%nat as Eq.
  { symmetry. apply (Nat.div_unique _ 64 _ (length M mod 64 + length data)); lia. }
  assert ((length M + length data) mod 64 = length M mod 64 + length data)%nat as Em.
  { symmetry. apply (Nat.mod_unique _ 64 (length M / 64)); lia. }
  rewrite Eq, Em, blocks_app, drop_app_le by lia. split; [done|].
  rewrite <-Htk. rewrite <-(Nat2Z.id (length M mod 64)) at 1. rewrite take_memcpy.
  - by rewrite Nat2Z.id.
  - unfold zlen. pose proof (Nat.mod_upper_bound (length M) 64). lia.
Qed.

(** The data completes the buffered block. *)
Lemma update_full M data i q : (i = 64 - length M mod 64)%nat → (i ≤ length data)%nat →
  q = ((length data - i) / 64)%nat →
  let rest := drop (64 * (length M / 64)) M in
  let M' := M ++ data in
  Fips.blocks (length M' / 64) Fips.H0 M'
  = Fips.blocks q (Fips.compress (Fips.blocks (length M / 64) Fips.H0 M)
                     (rest ++ take i data)) (drop i data) ∧
  drop (64 * (length M' / 64)) M' = drop (i + 64 * q) data ∧
  (length M' mod 64 = length data - (i + 64 * q))%nat.
Proof.
  intros -> Hi -> rest M'. set (j := (length M mod 64)%nat) in *.
  pose proof (Nat.div_mod_eq (length M) 64) as Hdm. fold j in Hdm.
  assert (j < 64)%nat by (apply Nat.mod_upper_bound; lia).
  set (q := ((length data - (64 - j)) / 64)%nat).
  pose proof (Nat.div_mod_eq (length data - (64 - j)) 64) as Hdq. fold q in Hdq.
  set (r := ((length data - (64 - j)) mod 64)%nat) in *.
  assert (r < 64)%nat by (apply Nat.mod_upper_bound; lia).
  assert (length rest = j) as Hrest by (unfold rest; rewrite length_drop; lia).
  assert (length M' / 64 = length M / 64 + (1 + q))%nat as Eq.
  { symmetry. apply (Nat.div_unique _ 64 _ r); unfold M'; rewrite ?length_app; lia. }
  assert (length M' mod 64 = r)%nat as Em.
  { symmetry. apply (Nat.mod_unique _ 64 (length M / 64 + (1 + q)));
      unfold M'; rewrite ?length_app; lia. }
  rewrite Eq, Em, blocks_add, blocks_add, drop_drop.
  assert (drop (64 * (length M / 64)) M' = rest ++ data) as Ed
    by (unfold M'; by rewrite drop_app_le by lia).
  split_and!; [|  |lia].
  - assert (Fips.blocks (length M / 64) Fips.H0 M' = Fips.blocks (length M / 64) Fips.H0 M)
      as -> by (apply blocks_app; lia).
    rewrite Ed. cbn [Fips.blocks].
    rewrite take_app_ge by lia. rewrite <-drop_drop, Ed, drop_app_ge by lia. rewrite Hrest. done.
  - replace (64 * (length M / 64 + (1 + q)))%nat
      with (64 * (length M / 64) + (64 + 64 * q))%nat by lia.
    rewrite <-drop_drop, Ed, drop_app_ge by lia. f_equal. lia.
Qed.

Lemma update_ok M data ctx : ctx_ok M ctx → bytes data → zlen data < 2 ^ 32 - 64 →
  ctx_ok (M ++ data) (SHA1Update ctx data).
Proof.
  intros [HM Hst Hcnt Hlen Hbuf] Hd Hz. unfold SHA1Update.
  set (j := (length M mod 64)%nat) in *.
  assert (j < 64)%nat as Hj by (apply Nat.mod_upper_bound; lia).
  assert ((((count ctx).[0] ≫ 3) .& 63) = Z.of_nat j) as ->.
  { rewrite Hcnt. unfold count_of. change ([?x; _].[0]) with x.
    rewrite count_index by lia. unfold j. by rewrite Nat2Z.inj_mod. }
  assert (∀ st buf, st = Fips.blocks (length (M ++ data) / 64) Fips.H0 (M ++ data) →
    length buf = 64%nat →
    take (length (M ++ data) mod 64) buf = drop (64 * (length (M ++ data) / 64)) (M ++ data) →
    ctx_ok (M ++ data) (CTX st (count_of (length (M ++ data))) buf)) as Hmk.
  { intros st buf -> ??. split; [by apply Forall_app|done..]. }
  assert ([u32 ((count ctx).[0] + u32 (zlen data ≪ 3));
    u32 ((if u32 ((count ctx).[0] + u32 (zlen data ≪ 3)) <? (count ctx).[0]
          then u32 ((count ctx).[1] + 1) else (count ctx).[1]) + (zlen data ≫ 29))]
    = count_of (length (M ++ data))) as ->.
  { rewrite Hcnt, length_app. unfold count_of, zlen. rewrite Nat2Z.inj_add.
    apply count_add; unfold zlen in *; lia. }
  rewrite (wrap_small 32) by (unfold ubits, zlen in *; lia).
  destruct (Z.ltb_spec 63 (Z.of_nat j + zlen data)) as [Hfull|Hfit]; unfold zlen in Hfull || unfold zlen in Hfit.
  - replace (64 - Z.of_nat j) with (Z.of_nat (64 - j)) by lia. rewrite Nat2Z.id.
    assert (length (take (64 - j) data) = 64 - j)%nat as Hti by (rewrite length_take; lia).
    assert (memcpy (buffer ctx) (Z.of_nat j) (take (64 - j) data)
      = drop (64 * (length M / 64)) M ++ take (64 - j) data) as Emc.
    { unfold memcpy. rewrite Nat2Z.id, Hti, (drop_ge (buffer ctx)), app_nil_r by lia.
      by rewrite Hbuf. }
    destruct (update_full M data (64 - j) ((length data - (64 - j)) / 64))
      as (E1 & E2 & E3); [done|lia|done|].
    assert (length (drop (64 * (length M / 64)) M) = j) as Hr
      by (rewrite <-Hbuf, length_take; lia).
    rewrite Emc, transform_compress; cycle 1.
    + rewrite Hst. apply blocks_reg_file, H0_reg_file.
    + apply Forall_app. split; [by apply Forall_drop|by apply Forall_take].
    + unfold zlen. rewrite length_app, Hr, Hti. lia.
    + rewrite transform_loop_spec by (done || lia || apply compress_reg_file).
      apply Hmk.
      * by rewrite Hst, E1.
      * rewrite (take_ge (drop _ _)) by (rewrite length_drop; unfold zlen; lia).
        rewrite length_memcpy.
        { rewrite length_app, Hr, Hti. lia. }
        { lia. }
        { unfold zlen. rewrite length_drop, length_app, Hr, Hti. 
          pose proof (Nat.mod_upper_bound (length (M ++ data)) 64). lia. }
      * rewrite E2, E3, (take_ge (drop _ _)) by (rewrite length_drop; unfold zlen; lia).
        rewrite Nat2Z.id. unfold memcpy. simpl. rewrite take_app_length' by (by rewrite length_drop).
        done.
  - rewrite drop_0, Z.sub_0_r. unfold zlen at 1. rewrite Nat2Z.id, firstn_all.
    destruct (update_buffered M data (buffer ctx)) as [E1 E2]; [done|fold j; lia|done|].
    apply Hmk; [by rewrite Hst, E1| |done].
    rewrite length_memcpy; [done|lia|unfold zlen; lia].
Qed.

(** ** Padding and the digest *)

Lemma updates_ok chunks M ctx : ctx_ok M ctx → bytes (concat chunks) →
  Forall (λ c, zlen c < 2 ^ 32 - 64) chunks →
  ctx_ok (M ++ concat chunks) (foldl SHA1Update ctx chunks).
Proof.
  revert M ctx. induction chunks as [|c chunks IH]; intros M ctx Hok Hb Hz; simpl.
  { by rewrite app_nil_r. }
  apply Forall_app in Hb as [Hb1 Hb2]. apply Forall_cons in Hz as [Hz1 Hz2].
  rewrite app_assoc. apply IH; [by apply update_ok|done..].
Qed.

Lemma pad_test n :
  negb (Z.land (count_of n).[0] 504 =? 448) = negb (n mod 64 =? 56)%nat.
Proof.
  f_equal. change ((count_of n).[0]) with ((8 * Z.of_nat n) mod 2 ^ 32).
  assert (Z.land ((8 * Z.of_nat n) mod 2 ^ 32) 504 = 8 * (Z.of_nat (n mod 64))) as ->.
  { change (2 ^ 32) with (8 * 2 ^ 29). rewrite Z.mul_mod_distr_l by lia.
    change 504 with (Z.ones 6 ≪ 3). rewrite (Z.mul_comm 8), <-(Z.shiftl_mul_pow2 _ 3) by lia.
    rewrite <-Z.shiftl_land, Z.land_ones, Z.shiftl_mul_pow2, Nat2Z.inj_mod by lia.
    change (Z.of_nat 64) with 64. Z.div_mod_to_equations. lia. }
  destruct (Nat.eqb_spec (n mod 64) 56); lia.
Qed.

(** The loop stops 8 bytes below a block boundary, within its 64 rounds. *)
Lemma pad_loop_ok fuel M ctx : ctx_ok M ctx →
  (Z.to_nat ((56 - zlen M) mod 64) ≤ fuel)%nat →
  ctx_ok (M ++ replicate (Z.to_nat ((56 - zlen M) mod 64)) 0)
    (while fuel (λ ctx, negb (Z.land (count ctx).[0] 504 =? 448))
       (λ ctx, SHA1Update ctx [0]) ctx).
Proof.
  revert M ctx. induction fuel as [|fuel IH]; intros M ctx Hok Hf; cbn [while].
  { replace (Z.to_nat ((56 - zlen M) mod 64)) with 0%nat by lia. simpl. by rewrite app_nil_r. }
  rewrite (ok_count _ _ Hok), pad_test. unfold zlen in *.
  assert (Z.of_nat (length M mod 64) = Z.of_nat (length M) mod 64) as Em
    by by rewrite Nat2Z.inj_mod.
  destruct (Nat.eqb_spec (length M mod 64) 56) as [E|E]; simpl.
  { replace ((56 - Z.of_nat (length M)) mod 64) with 0 by (Z.div_mod_to_equations; lia).
    simpl. by rewrite app_nil_r. }
  set (k := (56 - Z.of_nat (length M)) mod 64) in *.
  assert (0 < k ∧ (56 - Z.of_nat (length (M ++ [0]))) mod 64 = k - 1) as [Hk Ek].
  { unfold k. rewrite length_app. simpl. Z.div_mod_to_equations. lia. }
  assert (ctx_ok (M ++ [0]) (SHA1Update ctx [0])) as Hok'
    by (apply update_ok; [done|by apply (bool_decide_unpack _)|done]).
  specialize (IH _ _ Hok'). rewrite Ek in IH. rewrite <-app_assoc in IH.
  replace (Z.to_nat k) with (S (Z.to_nat (k - 1))) by lia. apply IH. lia.
Qed.

Lemma be_byte_low x k : 0 ≤ k ≤ 24 → ((x mod 2 ^ 32) ≫ k) .& 255 = (x ≫ k) .& 255.
Proof.
  intros Hk. apply Z.bits_inj'. intros i Hi. rewrite !Z.land_spec, !Z.shiftr_spec by lia.
  change 255 with (Z.ones 8). destruct (decide (i < 8)).
  - by rewrite Z.mod_pow2_bits_low by lia.
  - by rewrite Z.ones_spec_high, !andb_false_r by lia.
Qed.

Lemma finalcount_spec n :
  map (finalcount_byte (count_of n)) (seqZ 0 8) = Fips.be_bytes 8 (8 * Z.of_nat n).
Proof.
  apply map_ext_in. intros i Hi%list_elem_of_In%elem_of_seqZ. unfold finalcount_byte.
  change 3 with (Z.ones 2) at 2. rewrite Z.land_ones by lia.
  destruct (Z.leb_spec 4 i).
  - change ((count_of n).[0]) with ((8 * Z.of_nat n) mod 2 ^ 32).
    rewrite be_byte_low by (Z.div_mod_to_equations; lia).
    do 2 f_equal. Z.div_mod_to_equations. lia.
  - change ((count_of n).[1]) with ((8 * Z.of_nat n) / 2 ^ 32 mod 2 ^ 32).
    rewrite be_byte_low by (Z.div_mod_to_equations; lia).
    rewrite <-Z.shiftr_div_pow2, Z.shiftr_shiftr by (Z.div_mod_to_equations; lia).
    do 2 f_equal. Z.div_mod_to_equations. lia.
Qed.

Lemma digest_spec st : length st = 5%nat →
  map (digest_byte st) (seqZ 0 20) = concat (map (Fips.be_bytes 4) st).
Proof.
  intros. do 6 (destruct st as [|? st]; try done).
Qed.

(** SHA1Final on a context that holds the message [M]. *)
Lemma final_ok M ctx : ctx_ok M ctx → (SHA1Final ctx).1 = Fips.digest M.
Proof.
  intros Hok. unfold SHA1Final, pad_loop. cbn [fst].
  rewrite (ok_count _ _ Hok), finalcount_spec. change (Z.of_nat (length M)) with (zlen M).
  apply (update_ok _ [0x80]) in Hok; [|by apply (bool_decide_unpack _)|done].
  apply (pad_loop_ok 64) in Hok; [|Z.div_mod_to_equations; lia].
  set (ctx1 := while _ _ _ _) in *.
  apply (update_ok _ (Fips.be_bytes 8 (8 * zlen M))) in Hok; cycle 1.
  { apply Forall_map, Forall_true. intros i. change 255 with (Z.ones 8).
    rewrite Z.land_ones by lia. by apply wrap_ubits. }
  { done. }
  assert (((M ++ [0x80]) ++ replicate (Z.to_nat ((56 - zlen (M ++ [0x80])) mod 64)) 0)
    ++ Fips.be_bytes 8 (8 * zlen M) = Fips.pad M) as Ep.
  { unfold Fips.pad. rewrite <-!app_assoc, zlen_app. do 3 f_equal.
    change (zlen [0x80]) with 1. do 3 f_equal. lia. }
  rewrite Ep in Hok. rewrite digest_spec.
  - unfold Fips.digest. by rewrite (ok_state _ _ Hok).
  - rewrite (ok_state _ _ Hok). destruct (blocks_reg_file (length (Fips.pad M) / 64)
      Fips.H0 (Fips.pad M) H0_reg_file) as [Hl _]. unfold zlen in Hl. lia.
Qed.

(** C13. Feeding a message to the streaming API in chunks of any sizes, each of
    fewer than 2^32 - 64 bytes, and finishing gives the digest FIPS 180-1
    defines for the whole message (the length field counts bits modulo 2^64),
    whatever the context's buffer held before SHA1Init; SHA1Final leaves the
    context wiped. *)
Theorem sha1_stream_correct junk chunks :
  length junk = 64%nat → bytes (concat chunks) →
  Forall (λ c, zlen c < 2 ^ 32 - 64) chunks →
  SHA1Final (foldl SHA1Update (SHA1Init junk) chunks)
  = (Fips.digest (concat chunks), CTX (replicate 5 0) (replicate 2 0) (replicate 64 0)).
Proof.
  intros Hj Hb Hz. pose proof (updates_ok chunks [] _ (init_ok junk Hj) Hb Hz) as Hok.
  by rewrite <-(final_ok (concat chunks) _ Hok).
Qed.

Lemma sha1_stream_witness :
  SHA1Final (foldl SHA1Update (SHA1Init (replicate 64 7)) [replicate 70 1; [2; 3]; replicate 60 4])
  = (Fips.digest (concat [replicate 70 1; [2; 3]; replicate 60 4]),
     CTX (replicate 5 0) (replicate 2 0) (replicate 64 0)).
Proof.
  apply (sha1_stream_correct (replicate 64 7) [replicate 70 1; [2; 3]; replicate 60 4]);
    [reflexivity|apply (bool_decide_unpack _); vm_compute; reflexivity..].
Defined.

(** The one-call SHA1, which updates the context a byte at a time, writes
    the 20 bytes of the FIPS 180-1 digest of its input and a terminating zero,
    whatever its uninitialised context buffer holds. *)
Theorem sha1_oneshot_correct junk str :
  length junk = 64%nat → bytes str → SHA1 junk str = Fips.digest str ++ [0].
Proof.
  intros Hj Hb. unfold SHA1. rewrite <-(foldl_map SHA1Update (λ ch, [ch])). f_equal.
  assert (concat (map (λ ch, [ch]) str) = str) as E.
  { clear. induction str as [|x str IH]; simpl; [done|]. by rewrite IH. }
  rewrite <-E at 2. apply (final_ok ([] ++ _)), updates_ok; [by apply init_ok|by rewrite E|].
  apply Forall_map, Forall_true. done.
Qed.

Lemma sha1_oneshot_witness :
  SHA1 (replicate 64 255) [97; 98; 99] = Fips.digest [97; 98; 99] ++ [0].
Proof.
  apply (sha1_oneshot_correct (replicate 64 255) [97; 98; 99]);
    [reflexivity|apply (bool_decide_unpack _); vm_compute; reflexivity].
Defined.

End Sha1.
