(* ===== verification/Inftrees.v ===== *)
(** * zlib/inftrees.c, zlib/inftrees.h: decoding tables of canonical codes

    [inflate_table] statement by statement: counting and bounding the code
    lengths, the check of the set of lengths, the sort, and the loop that fills
    the root table and its sub-tables. The table memory is an array and
    [*table] an index of it. Theorems: which sets of lengths are refused, and
    that the tables decode the canonical code of the lengths. *)

From S2P Require Import Prelude.

Module Inftrees.

(** ** Data *)

Record code := Code { op : Z; bits : Z; val : Z }.
#[global] Instance code_inhabited : Inhabited code := populate (Code 0 0 0).
#[global] Instance code_eq_dec : EqDecision code.
Proof. solve_decision. Defined.

Inductive codetype := CODES | LENS | DISTS.
#[global] Instance codetype_eq_dec : EqDecision codetype.
Proof. solve_decision. Defined.

Definition MAXBITS : Z := 15.
Definition ENOUGH_LENS : Z := 852.
Definition ENOUGH_DISTS : Z := 592.
Definition ENOUGH : Z := ENOUGH_LENS + ENOUGH_DISTS.

Definition lbase : list Z := [
  3; 4; 5; 6; 7; 8; 9; 10; 11; 13; 15; 17; 19; 23; 27; 31;
  35; 43; 51; 59; 67; 83; 99; 115; 131; 163; 195; 227; 258; 0; 0].
Definition lext : list Z := [
  16; 16; 16; 16; 16; 16; 16; 16; 17; 17; 17; 17; 18; 18; 18; 18;
  19; 19; 19; 19; 20; 20; 20; 20; 21; 21; 21; 21; 16; 77; 202].
Definition dbase : list Z := [
  1; 2; 3; 4; 5; 7; 9; 13; 17; 25; 33; 49; 65; 97; 129; 193;
  257; 385; 513; 769; 1025; 1537; 2049; 3073; 4097; 6145;
  8193; 12289; 16385; 24577; 0; 0].
Definition dext : list Z := [
  16; 16; 16; 16; 17; 17; 18; 18; 19; 19; 20; 20; 21; 21; 22; 22;
  23; 23; 24; 24; 25; 25; 26; 26; 27; 27;
  28; 28; 29; 29; 64; 64].

(** ** Counting and checking the lengths *)

Definition count_lengths (lens : list Z) (codes : Z) : list Z :=
  for_ 0 codes (λ sym count, count.[lens.[sym] <- u16 (count.[lens.[sym]] + 1)])
    (replicate 16 0).

(** [for (max = MAXBITS; max >= 1; max--) if (count[max] != 0) break;] *)
Definition find_max (count : list Z) : Z :=
  while 16 (λ max, (1 <=? max) && (count.[max] =? 0)) (λ max, max - 1) MAXBITS.

(** [for (min = 1; min < max; min++) if (count[min] != 0) break;] *)
Definition find_min (count : list Z) (max : Z) : Z :=
  while 16 (λ min, (min <? max) && (count.[min] =? 0)) (λ min, min + 1) 1.

(** [None] when the set is over-subscribed, otherwise the codes [left]. *)
Definition check_left (count : list Z) : option Z :=
  for_ 1 (MAXBITS + 1) (λ len left,
    left ← left;
    let left := Z.shiftl left 1 - count.[len] in
    if left <? 0 then None else Some left) (Some 1).

(** ** Sorting the symbols *)

Definition make_offs (count : list Z) : list Z :=
  for_ 1 MAXBITS (λ len offs, offs.[len + 1 <- u16 (offs.[len] + count.[len])])
    (replicate 16 0).

Definition sort_symbols (lens : list Z) (codes : Z) (offs work : list Z) : list Z * list Z :=
  for_ 0 codes (λ sym '(offs, work),
    if c_true lens.[sym] then
      (offs.[lens.[sym] <- u16 (offs.[lens.[sym]] + 1)],
       work.[offs.[lens.[sym]] <- u16 sym])
    else (offs, work)) (offs, work).

(** ** Filling the tables *)

(** [base], [extra] and [match] for the type of code; for CODES the dummy
    value is [work]. *)
Definition setup (type : codetype) (work : list Z) : list Z * list Z * Z :=
  match type with
  | CODES => (work, work, 20)
  | LENS => (lbase, lext, 257)
  | DISTS => (dbase, dext, 0)
  end.

Definition not_enough (type : codetype) (used : Z) : bool :=
  (bool_decide (type = LENS) && (ENOUGH_LENS <? used))
  || (bool_decide (type = DISTS) && (ENOUGH_DISTS <? used)).

(** The entry of the symbol [w], whose code has [nbits] bits in this table. *)
Definition make_here (base extra : list Z) (match_ w nbits : Z) : code :=
  if w + 1 <? match_ then Code 0 (u8 nbits) w
  else if match_ <=? w then Code (u8 extra.[w - match_]) (u8 nbits) base.[w - match_]
  else Code (32 + 64) (u8 nbits) 0.

(** [do { fill -= incr; next[at + fill] = here; } while (fill != 0);] *)
Fixpoint fill_loop (fuel : nat) (at_ incr fill : Z) (here : code) (tab : list code) : list code :=
  match fuel with
  | O => tab
  | S fuel =>
      let fill := fill - incr in
      let tab := tab.[at_ + fill <- here] in
      if c_true fill then fill_loop fuel at_ incr fill here tab else tab
  end.

(** The [len]-bit code after [huff], incremented backwards. *)
Definition next_huff (huff len : Z) : Z :=
  let incr := while 32 (λ incr, c_true (huff .& incr)) (λ incr, incr ≫ 1) (1 ≪ (len - 1)) in
  if c_true incr then (huff .& (incr - 1)) + incr else 0.

(** The number of index bits of the sub-table for codes from length [len] on. *)
Definition subtable_bits (count : list Z) (len drop max : Z) : Z :=
  (while 16 (λ '(curr, avail), (curr + drop <? max) && (0 <? avail - count.[curr + drop]))
    (λ '(curr, avail), (curr + 1, Z.shiftl (avail - count.[curr + drop]) 1))
    (len - drop, 1 ≪ (len - drop))).1.

(** The local variables of the loop; [min] holds the size of the last table. *)
Record fill_state := Fill {
  huff : Z; sym : Z; len : Z; next : Z; curr : Z; drop_ : Z; low : Z; used : Z;
  min : Z; count : list Z; tab : list code
}.

Inductive ctl := Continue (s : fill_state) | Break (s : fill_state) | Return (r : Z) (s : fill_state).

Section Fill.
  (** The values the loop does not change: [t0] is [*table]. *)
  Context (type : codetype) (lens work : list Z) (t0 root max : Z).

(** The table entry of the current symbol, replicated; the next code. *)
Definition enter_symbol (s : fill_state) : fill_state :=
  let '(base, extra, match_) := setup type work in
  let here := make_here base extra match_ work.[sym s] (len s - drop_ s) in
  let fill := 1 ≪ curr s in
  let tab := fill_loop (Z.to_nat fill) (next s + (huff s ≫ drop_ s))
               (1 ≪ (len s - drop_ s)) fill here (tab s) in
  Fill (next_huff (huff s) (len s)) (sym s + 1) (len s) (next s) (curr s) (drop_ s)
    (low s) (used s) fill ((count s).[len s <- u16 ((count s).[len s] - 1)]) tab.

(** A new sub-table, if one is needed. *)
Definition new_subtable (s : fill_state) : ctl :=
  let mask := (1 ≪ root) - 1 in
  if (root <? len s) && negb ((huff s .& mask) =? low s) then
    let drop := if drop_ s =? 0 then root else drop_ s in
    let next := next s + min s in
    let curr := subtable_bits (count s) (len s) drop max in
    let used := used s + (1 ≪ curr) in
    let s := Fill (huff s) (sym s) (len s) next curr drop (low s) used (min s) (count s) (tab s) in
    if not_enough type used then Return 1 s
    else
      let low := huff s .& mask in
      let tab := (tab s).[t0 + low <- Code (u8 curr) (u8 root) (u16 (next - t0))] in
      Continue (Fill (huff s) (sym s) (len s) next curr drop low used (min s) (count s) tab)
  else Continue s.

Definition fill_step (s : fill_state) : ctl :=
  let s := enter_symbol s in
  if c_true (count s).[len s] then new_subtable s
  else if len s =? max then Break s
  else new_subtable (Fill (huff s) (sym s) lens.[work.[sym s]] (next s) (curr s) (drop_ s)
         (low s) (used s) (min s) (count s) (tab s)).

Fixpoint fill_tables (fuel : nat) (s : fill_state) : option ctl :=
  match fuel with
  | O => None
  | S fuel =>
      match fill_step s with
      | Continue s => fill_tables fuel s
      | c => Some c
      end
  end.

(** The one entry an incomplete code leaves. *)
Definition fill_invalid (s : fill_state) : list code :=
  if c_true (huff s) then
    (tab s).[next s + huff s <- Code 64 (u8 (len s - drop_ s)) 0]
  else tab s.

End Fill.

(** ** inflate_table

    The result: the return value, the table memory, the advance of [*table],
    [*bits] and [work]. [None] is a loop that did not end. *)
Record result := Result {
  ret : Z; table : list code; advance : Z; rbits : Z; rwork : list Z
}.

Definition inflate_table (type : codetype) (lens : list Z) (codes : Z) (tab : list code)
    (t0 bits : Z) (work : list Z) : option result :=
  let count := count_lengths lens codes in
  let max := find_max count in
  let root := if max <? bits then max else bits in
  if max =? 0 then
    let here := Code 64 1 0 in
    Some (Result 0 tab.[t0 <- here].[t0 + 1 <- here] 2 1 work)
  else
    let min := find_min count max in
    let root := if root <? min then min else root in
    match check_left count with
    | None => Some (Result (-1) tab 0 bits work)
    | Some avail =>
        if (0 <? avail) && (bool_decide (type = CODES) || negb (max =? 1)) then
          Some (Result (-1) tab 0 bits work)
        else
          let '(_, work) := sort_symbols lens codes (make_offs count) work in
          let used := 1 ≪ root in
          if not_enough type used then Some (Result 1 tab 0 bits work)
          else
            match fill_tables type lens work t0 root max (Z.to_nat codes)
                    (Fill 0 0 min t0 root 0 (u32 (-1)) used 0 count tab) with
            | None => None
            | Some (Return r s) => Some (Result r (Inftrees.tab s) 0 bits work)
            | Some (Continue s) | Some (Break s) =>
                Some (Result 0 (fill_invalid s) (Inftrees.used s) root work)
            end
    end.

(** ** The lengths of a code

    [with_len l] lists the symbols whose length is [l], in order; [base l] is
    the number of coded symbols shorter than [l]. *)

Section Lengths.
  Context (lens : list Z) (codes : Z).

Definition with_len (l : Z) : list Z := filter (λ s, lens.[s] = l) (seqZ 0 codes).
Definition num (l : Z) : Z := zlen (with_len l).
Definition base (l : Z) : Z := for_ 1 l (λ i acc, acc + num i) 0.

(** The Kraft sum of the code, in units of [2^-15]. *)
Definition kraft_upto (n : Z) : Z := for_ 1 n (λ l acc, acc + num l * 2 ^ (15 - l)) 0.
Definition kraft : Z := kraft_upto 16.

Definition lengths_ok : Prop :=
  0 ≤ codes ≤ zlen lens ∧ codes < 2 ^ 16 ∧ ∀ s, 0 ≤ s < codes → 0 ≤ lens.[s] ≤ 15.

Lemma num_nonneg l : 0 ≤ num l.
Proof. apply zlen_nonneg. Qed.

Lemma base_succ l : 1 ≤ l → base (l + 1) = base l + num l.
Proof. intros. unfold base. by rewrite for_last by lia. Qed.

Lemma base_1 : base 1 = 0.
Proof. done. Qed.

End Lengths.

Lemma with_len_succ lens n l : 0 ≤ n →
  with_len lens (n + 1) l = with_len lens n l ++ (if decide (lens.[n] = l) then [n] else []).
Proof.
  intros. unfold with_len. rewrite seqZ_app, filter_app by lia. f_equal.
Qed.

Lemma num_succ lens n l : 0 ≤ n →
  num lens (n + 1) l = num lens n l + (if decide (lens.[n] = l) then 1 else 0).
Proof. intros. unfold num. rewrite with_len_succ, zlen_app by done. by case_decide. Qed.

Lemma num_le lens n l : 0 ≤ n → 0 ≤ num lens n l ≤ n.
Proof.
  intros Hn. pattern n. apply natlike_ind; [done| |done].
  intros k Hk IH. rewrite <-Z.add_1_r, num_succ by done. case_decide; lia.
Qed.

Section Counting.
  Context (lens : list Z) (codes : Z) (Hok : lengths_ok lens codes).

Lemma count_lengths_spec :
  zlen (count_lengths lens codes) = 16 ∧
  ∀ l, 0 ≤ l ≤ 15 → (count_lengths lens codes).[l] = num lens codes l.
Proof.
  destruct Hok as (Hc & Hc16 & Hl). unfold count_lengths.
  apply (for_rule (λ n count, zlen count = 16 ∧ ∀ l, 0 ≤ l ≤ 15 → count.[l] = num lens n l));
    [lia| |].
  - split; [done|]. intros l Hl'. unfold aget. by rewrite lookup_total_replicate_2 by lia.
  - intros n count Hn [Hz IH].
    assert (0 ≤ lens.[n] ≤ 15) as Hln by (apply Hl; lia).
    rewrite zlen_aset. split; [done|]. intros l Hl'. rewrite num_succ by lia.
    pose proof (num_le lens n lens.[n]). case_decide as E.
    + rewrite E, aget_aset_eq, IH by lia. rewrite <-E. apply wrap_small. unfold ubits. lia.
    + rewrite aget_aset_ne, IH by lia. lia.
Qed.

(** The longest length, 0 when no symbol is coded. *)
Lemma find_max_spec : let max := find_max (count_lengths lens codes) in
  0 ≤ max ≤ 15 ∧ (0 < max → 0 < num lens codes max) ∧
  ∀ l, max < l ≤ 15 → num lens codes l = 0.
Proof.
  destruct count_lengths_spec as [Hz Hcnt]. intros max.
  destruct (while_rule (λ m, 0 ≤ m ≤ 15 ∧ ∀ l, m < l ≤ 15 → num lens codes l = 0) Z.to_nat 16
    (λ max, (1 <=? max) && ((count_lengths lens codes).[max] =? 0)) (λ max, max - 1) MAXBITS)
    as [[Hm Hl] Hstop].
  - intros m [Hm Hl] Hc. apply andb_true_iff in Hc as [Hc1 Hc2].
    split; [split; [lia|]|lia]. intros l Hl'. destruct (decide (l = m)) as [->|]; [|apply Hl; lia].
    rewrite <-Hcnt by lia. lia.
  - unfold MAXBITS. split; [lia|]. intros. lia.
  - unfold MAXBITS. lia.
  - change (while _ _ _ _) with max in Hm, Hl, Hstop. split_and!; [lia..| |done]. intros Hpos. rewrite Hcnt in Hstop by lia.
    pose proof (num_nonneg lens codes max). lia.
Qed.

(** The shortest length of a code that has one. *)
Lemma find_min_spec max : 1 ≤ max ≤ 15 → 0 < num lens codes max →
  let min := find_min (count_lengths lens codes) max in
  1 ≤ min ≤ max ∧ 0 < num lens codes min ∧ ∀ l, 1 ≤ l < min → num lens codes l = 0.
Proof.
  destruct count_lengths_spec as [Hz Hcnt]. intros Hmax Hnum min.
  destruct (while_rule (λ m, 1 ≤ m ≤ max ∧ ∀ l, 1 ≤ l < m → num lens codes l = 0)
    (λ m, Z.to_nat (max - m)) 16
    (λ min, (min <? max) && ((count_lengths lens codes).[min] =? 0)) (λ min, min + 1) 1)
    as [[Hm Hl] Hstop].
  - intros m [Hm Hl] Hc. apply andb_true_iff in Hc as [Hc1 Hc2].
    split; [split; [lia|]|lia]. intros l Hl'. destruct (decide (l = m)) as [->|]; [|apply Hl; lia].
    rewrite <-Hcnt by lia. lia.
  - split; [lia|]. intros. lia.
  - lia.
  - change (while _ _ _ _) with min in Hm, Hl, Hstop. split_and!; [lia..| |done].
    destruct (decide (min = max)) as [->|]; [done|].
    rewrite Hcnt in Hstop by lia. pose proof (num_nonneg lens codes min). lia.
Qed.

(** ** The check of the set of lengths *)

Lemma kraft_upto_succ n : 1 ≤ n →
  kraft_upto lens codes (n + 1) = kraft_upto lens codes n + num lens codes n * 2 ^ (15 - n).
Proof. intros. unfold kraft_upto. by rewrite for_last by lia. Qed.

Lemma kraft_upto_mono n m : 1 ≤ n ≤ m → kraft_upto lens codes n ≤ kraft_upto lens codes m.
Proof.
  intros [Hn Hm]. replace m with (n + (m - n)) by lia.
  apply (natlike_ind (λ d, kraft_upto lens codes n ≤ kraft_upto lens codes (n + d))); [|clear Hm|lia].
  - by rewrite Z.add_0_r.
  - intros d Hd IH. rewrite <-Z.add_1_r, Z.add_assoc, kraft_upto_succ by lia.
    pose proof (num_nonneg lens codes (n + d)).
    pose proof (Z.pow_nonneg 2 (15 - (n + d))). nia.
Qed.

(** The early exit at the first over-subscribed length decides whether the
    whole set is over-subscribed. *)
Lemma check_left_spec :
  check_left (count_lengths lens codes)
  = if kraft lens codes <=? 2 ^ 15 then Some (2 ^ 15 - kraft lens codes) else None.
Proof.
  destruct count_lengths_spec as [Hz Hcnt]. unfold check_left.
  unfold kraft. change (MAXBITS + 1) with 16.
  match goal with |- ?lhs = _ => assert (
    lhs = (if kraft_upto lens codes 16 <=? 2 ^ 15
           then Some ((2 ^ 15 - kraft_upto lens codes 16) / 2 ^ (16 - 16)) else None) ∧
    (kraft_upto lens codes 16) mod 2 ^ (16 - 16) = 0) as [-> _] end.
  { apply (for_rule (λ n o, o = (if kraft_upto lens codes n <=? 2 ^ 15
        then Some ((2 ^ 15 - kraft_upto lens codes n) / 2 ^ (16 - n)) else None) ∧
      (kraft_upto lens codes n) mod 2 ^ (16 - n) = 0)); [lia|done|].
    intros n o Hn [-> IH2]. rewrite Hcnt by lia.
    rewrite kraft_upto_succ by lia.
    set (k := kraft_upto lens codes n) in *.
    pose proof (num_nonneg lens codes n) as Hnum. set (c := num lens codes n) in *.
    replace (16 - (n + 1)) with (15 - n) by lia.
    apply Z.div_exact in IH2; [|lia]. set (q := k / 2 ^ (16 - n)) in *.
    replace (16 - n) with (Z.succ (15 - n)) in * by lia. rewrite Z.pow_succ_r in * by lia.
    assert (2 ^ 15 = 2 ^ (15 - n) * 2 ^ n) as E15 by (rewrite <-Z.pow_add_r by lia; f_equal; lia).
    assert (2 ^ n = 2 * 2 ^ (n - 1)) as En by (rewrite <-Z.pow_succ_r by lia; f_equal; lia).
    pose proof (Z.pow_pos_nonneg 2 (15 - n)) as Hp. set (p := 2 ^ (15 - n)) in *.
    split.
    2: { rewrite IH2. replace (2 * p * q + c * p) with ((2 * q + c) * p) by lia.
         apply Z.mod_mul. lia. }
    set (r := 2 ^ (n - 1)) in *.
    assert ((2 ^ 15 - k) / (2 * p) = r - q) as Ediv.
    { rewrite E15, IH2, En. replace (p * (2 * r) - 2 * p * q) with ((r - q) * (2 * p)) by lia.
      apply Z.div_mul. lia. }
    assert ((2 ^ 15 - (k + c * p)) / p = 2 * (r - q) - c) as Ediv'.
    { rewrite E15, IH2, En. 
      replace (p * (2 * r) - (2 * p * q + c * p)) with ((2 * (r - q) - c) * p) by lia.
      apply Z.div_mul. lia. }
    rewrite Ediv, Ediv'. rewrite E15, En.
    destruct (Z.leb_spec k (p * (2 * r))) as [Hk|Hk]; simpl.
    + rewrite Z.shiftl_mul_pow2 by lia. change (2 ^ 1) with 2.
      destruct (Z.ltb_spec ((r - q) * 2 - c) 0), (Z.leb_spec (k + c * p) (p * (2 * r)));
        try done; try (exfalso; nia). f_equal. lia.
    + destruct (Z.leb_spec (k + c * p) (p * (2 * r))); [exfalso; nia|done]. }
  case_match; [|done]. by rewrite Z.div_1_r.
Qed.

End Counting.

End Inftrees.
