(* ===== verification/InftreesDecode.v ===== *)
(** * The tables of inflate_table decode the canonical code

    The counting sort of the symbols, the canonical code the sorted lengths
    define, and the invariant of the loop that fills the root table and its
    sub-tables. *)

From S2P Require Import Prelude Inftrees.

Module InftreesDecode.
Import Inftrees.

(** ** The canonical code

    [sorted] lists the coded symbols by length and, within a length, in symbol
    order. The code of the [k]-th one, left-justified in 15 bits, starts at
    [start k], the sum of the sizes of the intervals before it. *)

Section Canonical.
  Context (lens : list Z) (codes : Z).

Definition sorted : list Z := concat (map (with_len lens codes) (seqZ 1 15)).
Definition start (k : Z) : Z := for_ 0 k (λ i acc, acc + 2 ^ (15 - lens.[sorted.[i]])) 0.

Definition prefix (m : Z) : list Z := concat (map (with_len lens codes) (seqZ 1 (m - 1))).

Lemma prefix_succ m : 1 ≤ m → prefix (m + 1) = prefix m ++ with_len lens codes m.
Proof.
  intros. unfold prefix. replace (m + 1 - 1) with ((m - 1) + 1) by lia.
  rewrite seqZ_app, map_app, concat_app by lia. f_equal.
  replace (1 + (m - 1)) with m by lia. change (seqZ m 1) with [m]. simpl. apply app_nil_r.
Qed.

Lemma zlen_prefix m : 1 ≤ m → zlen (prefix m) = base lens codes m.
Proof.
  intros. replace m with (1 + (m - 1)) by lia.
  apply (natlike_ind (λ d, zlen (prefix (1 + d)) = base lens codes (1 + d))); [done| |lia].
  intros d Hd IH. rewrite <-Z.add_1_r, Z.add_assoc, prefix_succ, zlen_app, base_succ by lia.
  by rewrite IH.
Qed.

Lemma zlen_sorted : zlen sorted = base lens codes 16.
Proof. change sorted with (prefix 16). by apply zlen_prefix. Qed.

Lemma base_mono l m : 1 ≤ l ≤ m → base lens codes l ≤ base lens codes m.
Proof.
  intros. replace m with (l + (m - l)) by lia.
  apply (natlike_ind (λ d, base lens codes l ≤ base lens codes (l + d))); [by rewrite Z.add_0_r| |lia].
  intros d Hd IH. rewrite <-Z.add_1_r, Z.add_assoc, base_succ by lia.
  pose proof (num_nonneg lens codes (l + d)). lia.
Qed.

Lemma sorted_at l r : 1 ≤ l ≤ 15 → 0 ≤ r < num lens codes l →
  sorted.[base lens codes l + r] = (with_len lens codes l).[r].
Proof.
  intros Hl Hr. change sorted with (prefix 16). replace 16 with (l + 1 + (15 - l)) by lia.
  assert (0 ≤ base lens codes l) by (rewrite <-zlen_prefix by lia; apply zlen_nonneg).
  apply (natlike_ind (λ d, (prefix (l + 1 + d)).[base lens codes l + r] = _)); [| |lia].
  - rewrite Z.add_0_r, prefix_succ by lia. unfold aget. rewrite lookup_total_app_r.
    + f_equal. pose proof (zlen_prefix l). unfold zlen in *. lia.
    + pose proof (zlen_prefix l). unfold zlen in *. lia.
  - intros d Hd IH. rewrite <-Z.add_1_r, Z.add_assoc, prefix_succ by lia.
    rewrite aget_app_l; [done|]. rewrite zlen_prefix by lia.
    pose proof (base_mono (l + 1) (l + 1 + d)) as Hmono.
    rewrite base_succ in Hmono by lia. lia.
Qed.

(** Every position belongs to one length. *)
Lemma position_length k : 0 ≤ k < base lens codes 16 →
  ∃ l, 1 ≤ l ≤ 15 ∧ base lens codes l ≤ k < base lens codes (l + 1).
Proof.
  intros Hk. assert (∀ d, 0 ≤ d → k < base lens codes (1 + d) →
    ∃ l, 1 ≤ l ≤ d ∧ base lens codes l ≤ k < base lens codes (l + 1)) as H.
  { apply (natlike_ind (λ d, k < base lens codes (1 + d) → _)).
    - rewrite Z.add_0_r, base_1. lia.
    - intros d Hd IH Hlt. destruct (decide (k < base lens codes (1 + d))) as [Hlt'|].
      + destruct (IH Hlt') as (l & ? & ?). exists l. lia.
      + exists (1 + d). split; [lia|]. split; [lia|]. by rewrite <-Z.add_1_r, Z.add_assoc in Hlt. }
  destruct (H 15) as (l & ? & ?); [lia|exact (proj2 Hk)|]. by exists l.
Qed.

Lemma sorted_len l k : 1 ≤ l ≤ 15 → base lens codes l ≤ k < base lens codes (l + 1) →
  lens.[sorted.[k]] = l ∧ 0 ≤ sorted.[k] < codes.
Proof.
  intros Hl Hk. rewrite base_succ in Hk by lia.
  replace k with (base lens codes l + (k - base lens codes l)) by lia.
  rewrite sorted_at by lia.
  assert ((with_len lens codes l).[k - base lens codes l] ∈ with_len lens codes l) as Hin.
  { apply list_elem_of_lookup. exists (Z.to_nat (k - base lens codes l)).
    apply list_lookup_lookup_total_lt. unfold num, zlen in *. lia. }
  apply list_elem_of_filter in Hin as [? Hin%elem_of_seqZ]. lia.
Qed.

Lemma start_succ k : 0 ≤ k → start (k + 1) = start k + 2 ^ (15 - lens.[sorted.[k]]).
Proof. intros. unfold start. by rewrite for_last. Qed.

Lemma start_in l r : 1 ≤ l ≤ 15 → 0 ≤ r ≤ num lens codes l →
  start (base lens codes l) = kraft_upto lens codes l →
  start (base lens codes l + r) = kraft_upto lens codes l + r * 2 ^ (15 - l).
Proof.
  intros Hl [Hr Hr'] E. revert Hr'.
  assert (0 ≤ base lens codes l) by (rewrite <-zlen_prefix by lia; apply zlen_nonneg).
  apply (natlike_ind (λ r, r ≤ num lens codes l →
    start (base lens codes l + r) = kraft_upto lens codes l + r * 2 ^ (15 - l))); [| |done].
  - intros _. rewrite Z.add_0_r, E. lia.
  - intros d Hd IH Hle. rewrite <-Z.add_1_r, Z.add_assoc, start_succ by lia.
    destruct (sorted_len l (base lens codes l + d)) as [-> _];
      [done|rewrite base_succ by lia; lia|]. rewrite IH by lia. lia.
Qed.

Lemma start_base l : 1 ≤ l ≤ 16 → start (base lens codes l) = kraft_upto lens codes l.
Proof.
  intros [Hl Hl']. replace l with (1 + (l - 1)) by lia.
  assert (∀ d, 0 ≤ d → d ≤ 15 → start (base lens codes (1 + d)) = kraft_upto lens codes (1 + d))
    as H; [|apply H; lia].
  apply (natlike_ind (λ d, d ≤ 15 → start (base lens codes (1 + d)) = kraft_upto lens codes (1 + d))); [done|].
  intros d Hd IH Hle. rewrite <-Z.add_1_r, Z.add_assoc, base_succ, kraft_upto_succ by lia.
  pose proof (num_nonneg lens codes (1 + d)). apply start_in; [lia..|apply IH; lia].
Qed.

(** Where the codes of one length lie. *)
Lemma start_pos l k : 1 ≤ l ≤ 15 → base lens codes l ≤ k ≤ base lens codes (l + 1) →
  start k = kraft_upto lens codes l + (k - base lens codes l) * 2 ^ (15 - l).
Proof.
  intros Hl Hk. rewrite base_succ in Hk by lia.
  rewrite <-start_in by (try apply start_base; lia). f_equal. lia.
Qed.

Lemma kraft_upto_divide l : 1 ≤ l ≤ 16 → (2 ^ (16 - l) | kraft_upto lens codes l).
Proof.
  intros [Hl Hl']. replace l with (1 + (l - 1)) by lia.
  assert (∀ d, 0 ≤ d → d ≤ 15 → (2 ^ (16 - (1 + d)) | kraft_upto lens codes (1 + d)))
    as H; [|apply H; lia].
  apply (natlike_ind (λ d, d ≤ 15 → (2 ^ (16 - (1 + d)) | kraft_upto lens codes (1 + d))));
    [intros _; by exists 0|].
  intros d Hd IH Hle. rewrite <-Z.add_1_r, Z.add_assoc, kraft_upto_succ by lia.
  replace (16 - (1 + d + 1)) with (15 - (1 + d)) by lia.
  apply Z.divide_add_r; [|apply Z.divide_factor_r].
  eapply Z.divide_trans; [|apply IH; lia].
  replace (16 - (1 + d)) with (15 - (1 + d) + 1) by lia.
  rewrite Z.pow_add_r by lia. apply Z.divide_factor_l.
Qed.

(** A code starts at a multiple of the size of its interval. *)
Lemma start_divide l k : 1 ≤ l ≤ 15 → base lens codes l ≤ k ≤ base lens codes (l + 1) →
  (2 ^ (15 - l) | start k).
Proof.
  intros Hl Hk. rewrite (start_pos l) by done. apply Z.divide_add_r; [|apply Z.divide_factor_r].
  eapply Z.divide_trans; [|apply kraft_upto_divide; lia].
  replace (16 - l) with (15 - l + 1) by lia. rewrite Z.pow_add_r by lia. apply Z.divide_factor_l.
Qed.

Lemma start_mono k k' : 0 ≤ k ≤ k' → start k ≤ start k'.
Proof.
  intros. replace k' with (k + (k' - k)) by lia.
  apply (natlike_ind (λ d, start k ≤ start (k + d))); [by rewrite Z.add_0_r| |lia].
  intros d Hd IH. rewrite <-Z.add_1_r, Z.add_assoc, start_succ by lia.
  pose proof (Z.pow_nonneg 2 (15 - lens.[sorted.[k + d]])). lia.
Qed.

Lemma start_kraft : start (base lens codes 16) = kraft lens codes.
Proof. by apply start_base. Qed.

End Canonical.

(** ** The counting sort *)

Lemma base_codes_succ lens n l : 0 ≤ n → 1 ≤ l →
  base lens (n + 1) l
  = base lens n l + (if decide (1 ≤ lens.[n] < l) then 1 else 0).
Proof.
  intros Hn Hl. replace l with (1 + (l - 1)) by lia.
  generalize (l - 1), (Zle_minus_le_0 _ _ Hl). clear l Hl. apply natlike_ind.
  - rewrite !Z.add_0_r, !base_1. case_decide; lia.
  - intros d Hd IH. rewrite <-Z.add_1_r, Z.add_assoc, !base_succ, IH, num_succ by lia.
    repeat case_decide; lia.
Qed.

Lemma base_le lens n l : 0 ≤ n → 1 ≤ l → 0 ≤ base lens n l ≤ n.
Proof.
  intros Hn Hl. pattern n. apply natlike_ind; [| |done].
  - rewrite <-zlen_prefix by lia. unfold prefix.
    assert (∀ m, map (with_len lens 0) m = map (λ _, []) m) as -> by done.
    induction (seqZ 1 (l - 1)); done.
  - intros k Hk IH. rewrite <-Z.add_1_r, base_codes_succ by done. case_decide; lia.
Qed.

Section Sort.
  Context (lens : list Z) (codes : Z) (Hok : lengths_ok lens codes).

Lemma make_offs_spec :
  let offs := make_offs (count_lengths lens codes) in
  zlen offs = 16 ∧ ∀ l, 1 ≤ l ≤ 15 → offs.[l] = base lens codes l.
Proof.
  destruct (count_lengths_spec lens codes Hok) as [_ Hcnt]. destruct Hok as (Hc & Hc16 & _).
  apply (for_rule (λ n offs, zlen offs = 16 ∧ ∀ l, 1 ≤ l ≤ n → offs.[l] = base lens codes l)).
  - done.
  - split; [done|]. intros l Hl. by assert (l = 1) as -> by lia.
  - unfold MAXBITS. intros n offs Hn [Hz IH]. rewrite zlen_aset. split; [done|]. intros l Hl.
    destruct (decide (l = n + 1)) as [->|Hne].
    + rewrite aget_aset_eq, IH, Hcnt, <-base_succ by lia. apply wrap_small.
      pose proof (base_le lens codes (n + 1)). unfold ubits. lia.
    + rewrite aget_aset_ne by lia. apply IH. lia.
Qed.

Lemma sort_symbols_spec work :
  codes ≤ zlen work →
  let work' := (sort_symbols lens codes (make_offs (count_lengths lens codes)) work).2 in
  zlen work' = zlen work ∧
  ∀ k, 0 ≤ k < base lens codes 16 → work'.[k] = (sorted lens codes).[k].
Proof.
  intros Hw. destruct make_offs_spec as [Ho1 Ho2]. destruct Hok as (Hc & Hc16 & Hl).
  assert (∀ l, 1 ≤ l ≤ 15 → base lens codes l + num lens codes l ≤ base lens codes 16 ≤ codes) as Hbn.
  { intros l ?. rewrite <-base_succ by lia. split; [apply base_mono; lia|apply base_le; lia]. }
  intros work'. unfold sort_symbols in work'.
  set (I := λ n (st : list Z * list Z), zlen st.1 = 16 ∧ zlen st.2 = zlen work ∧
    (∀ l, 1 ≤ l ≤ 15 → st.1.[l] = base lens codes l + num lens n l) ∧
    (∀ l r, 1 ≤ l ≤ 15 → 0 ≤ r < num lens n l →
       st.2.[base lens codes l + r] = (with_len lens n l).[r])).
  match goal with work' := (for_ 0 codes ?f ?st).2 |- _ =>
    destruct (for_rule I 0 codes f st) as (H1 & H2 & H3 & H4); [..|fold work' in H2, H4] end.
  - lia.
  - split_and!; [done..| |].
    + intros l Hl'. cbn [fst]. rewrite Ho2 by done. unfold num, with_len. simpl. unfold zlen. simpl. lia.
    + intros l r Hl' Hr. unfold num, with_len, zlen in Hr. simpl in Hr. lia.
  - intros n [offs wk] Hn (I1 & I2 & I3 & I4). cbn [fst snd] in *.
    assert (0 ≤ lens.[n] ≤ 15) as Hln by (apply Hl; lia).
    assert (∀ l, num lens n l ≤ num lens codes l) as Hmon.
    { intros l. replace codes with (n + (codes - n)) by lia.
      apply (natlike_ind (λ d, num lens n l ≤ num lens (n + d) l)); [by rewrite Z.add_0_r| |lia].
      intros d Hd IH. rewrite <-Z.add_1_r, Z.add_assoc, num_succ by lia. case_decide; lia. }
    unfold c_true. destruct (Z.eqb_spec lens.[n] 0) as [E0|E0]; cbn [negb].
    + split_and!; [done..| |]; cbn [fst snd].
      * intros l Hl'. rewrite num_succ, I3 by lia. case_decide; lia.
      * intros l r Hl' Hr. rewrite with_len_succ by lia. rewrite num_succ in Hr by lia.
        case_decide; [lia|]. rewrite app_nil_r. apply I4; lia.
    + set (l0 := lens.[n]) in *.
      assert (num lens n l0 + 1 ≤ num lens codes l0) as Hroom.
      { etransitivity; [|]. 2: { 
          instantiate (1 := num lens (n + 1) l0). replace codes with (n + 1 + (codes - (n + 1))) by lia.
          apply (natlike_ind (λ d, num lens (n + 1) l0 ≤ num lens (n + 1 + d) l0));
            [by rewrite Z.add_0_r| |lia].
          intros d Hd IH. rewrite <-Z.add_1_r, Z.add_assoc, (num_succ _ (n + 1 + d)) by lia.
          case_decide; lia. }
        rewrite num_succ by lia. case_decide; [lia|done]. }
      pose proof (Hbn l0) as Hb0. pose proof (num_le lens n l0) as Hn0.
      pose proof (base_le lens codes l0) as Hb1.
      split_and!; cbn [fst snd]; [by rewrite zlen_aset..| |].
      * intros l Hl'. rewrite num_succ by lia. fold l0. case_decide as E.
        { rewrite E, aget_aset_eq, I3 by lia. rewrite <-E. rewrite wrap_small; [lia|].
          unfold ubits. lia. }
        { rewrite aget_aset_ne, I3 by lia. lia. }
      * intros l r Hl' Hr. rewrite I3 by lia. rewrite num_succ in Hr by lia.
        rewrite with_len_succ by lia. fold l0 in Hr |- *. pose proof (base_le lens codes l).
        rewrite wrap_small by (unfold ubits; lia).
        case_decide as E.
        { subst l. destruct (decide (r = num lens n l0)) as [->|Hne].
          - rewrite aget_aset_eq by lia. symmetry. apply aget_snoc.
          - rewrite aget_aset_ne, aget_app_l, I4 by (unfold num in *; lia). done. }
        { rewrite app_nil_r, aget_aset_ne, I4 by first [done|lia|
            intros Heq; specialize (Hmon l); specialize (Hbn l);
            destruct (decide (l < l0)) as [Hlt|Hlt];
            [pose proof (base_mono lens codes (l + 1) l0) as Hbm
            |pose proof (base_mono lens codes (l0 + 1) l) as Hbm];
            rewrite base_succ in Hbm by lia; lia]. done. }
  - split; [done|]. intros k Hk.
    destruct (position_length lens codes k Hk) as (l & Hl' & Hkl).
    rewrite base_succ in Hkl by lia.
    replace k with (base lens codes l + (k - base lens codes l)) by lia.
    rewrite H4, sorted_at by lia. done.
Qed.

End Sort.

(** ** Codes as bit patterns

    The bits of a code arrive first bit first, so the window [w] of the next 15
    input bits, read as a number, is the reversal of the left-justified code. *)

Abbreviation rev := (rev_bits 15).

Lemma rev_range x : 0 ≤ rev x < 2 ^ 15.
Proof. apply (rev_bits_ubits 15). Qed.

Lemma rev_rev x : 0 ≤ x < 2 ^ 15 → rev (rev x) = x.
Proof. intros. rewrite rev_bits_involutive. by apply wrap_small. Qed.

Lemma rev_inj x y : 0 ≤ x < 2 ^ 15 → 0 ≤ y < 2 ^ 15 → rev x = rev y → x = y.
Proof. intros Hx Hy E. by rewrite <-(rev_rev x), <-(rev_rev y), E. Qed.

Lemma rev_low l w : 0 ≤ l ≤ 15 → 0 ≤ w < 2 ^ 15 →
  rev (w mod 2 ^ l) = rev w - rev w mod 2 ^ (15 - l).
Proof. intros. by apply (rev_bits_wrap 15 l w). Qed.

Lemma mod_range l w : 0 ≤ l ≤ 15 → 0 ≤ w < 2 ^ 15 → 0 ≤ w mod 2 ^ l < 2 ^ 15.
Proof.
  intros. pose proof (Z.mod_pos_bound w (2 ^ l)). pose proof (Z.pow_le_mono_r 2 l 15). lia.
Qed.

(** A window begins with the [l]-bit code at [C] when it lies in its interval. *)
Lemma window_iff l C w : 0 ≤ l ≤ 15 → 0 ≤ w < 2 ^ 15 → 0 ≤ C < 2 ^ 15 → (2 ^ (15 - l) | C) →
  w mod 2 ^ l = rev C ↔ C ≤ rev w < C + 2 ^ (15 - l).
Proof.
  intros Hl Hw HC [q HqC]. assert (0 < 2 ^ (15 - l)) as Hp by lia.
  assert (w mod 2 ^ l = rev C ↔ rev w - rev w mod 2 ^ (15 - l) = C) as ->.
  { rewrite <-rev_low by done. split; intros E.
    - by rewrite E, rev_rev.
    - apply rev_inj; [by apply mod_range|apply rev_range|]. by rewrite E, rev_rev. }
  set (p := 2 ^ (15 - l)) in *. pose proof (Z.div_mod (rev w) p). pose proof (Z.mod_pos_bound (rev w) p).
  split; [lia|]. intros Hin. assert (rev w / p = q) as Eq; [|nia].
  symmetry. apply (Z.div_unique _ p q (rev w - C)); lia.
Qed.

Lemma rev_code_small l C : 0 ≤ l ≤ 15 → 0 ≤ C < 2 ^ 15 → (2 ^ (15 - l) | C) →
  rev C mod 2 ^ l = rev C.
Proof.
  intros Hl HC HD. apply (window_iff l C (rev C)); [done|apply rev_range|done..|].
  rewrite rev_rev by done. lia.
Qed.

(** Incrementing backwards is incrementing the left-justified code. *)
Lemma next_huff_spec l C : 1 ≤ l ≤ 15 → 0 ≤ C < 2 ^ 15 → (2 ^ (15 - l) | C) →
  next_huff (rev C) l = rev (C + 2 ^ (15 - l)).
Proof.
  intros Hl HC [q ->].
  assert (forall_range (λ l, let p := 2 ^ (15 - l) in
      forall_range (λ q, next_huff (rev_acc 15 (q * p) 0) l =? rev_acc 15 (q * p + p) 0)
        0 (Z.to_nat (2 ^ l))) 1 15 = true) as H by (vm_compute; reflexivity).
  apply (forall_range_spec _ 1 15 l) in H; [|lia].
  apply (forall_range_spec _ 0 _ q) in H; [by apply Z.eqb_eq in H; rewrite !rev_acc_spec in H|].
  assert (2 ^ 15 = 2 ^ l * 2 ^ (15 - l)) as E by (rewrite <-Z.pow_add_r by lia; f_equal; lia).
  assert (0 < 2 ^ (15 - l)) by lia. nia.
Qed.

(** Replicating an entry. *)
Lemma fill_loop_spec fuel at_ a m here tab : 0 ≤ a → 0 < m → (Z.to_nat m ≤ fuel)%nat → 0 ≤ at_ →
  at_ + (m - 1) * 2 ^ a < zlen tab →
  let tab' := fill_loop fuel at_ (2 ^ a) (m * 2 ^ a) here tab in
  zlen tab' = zlen tab ∧
  (∀ i, 0 ≤ i < m → tab'.[at_ + i * 2 ^ a] = here) ∧
  (∀ j, 0 ≤ j → (∀ i, 0 ≤ i < m → j ≠ at_ + i * 2 ^ a) → tab'.[j] = tab.[j]).
Proof.
  intros Ha. revert m tab. induction fuel as [|fuel IH]; intros m tab Hm Hf Hat Hlt; [lia|].
  cbn [fill_loop]. assert (0 < 2 ^ a) as Hp by lia. set (p := 2 ^ a) in *.
  replace (m * p - p) with ((m - 1) * p) by lia.
  assert (0 ≤ (m - 1) * p) by nia.
  set (tab1 := tab.[at_ + (m - 1) * p <- here]).
  unfold c_true. destruct (Z.eqb_spec ((m - 1) * p) 0) as [E|E]; cbn [negb].
  - assert (m = 1) as -> by nia. split; [apply zlen_aset|]. split.
    + intros i Hi. assert (i = 0) as -> by lia. apply aget_aset_eq. lia.
    + intros j Hj Hne. apply aget_aset_ne; [lia|done|]. intros Heq. apply (Hne 0); lia.
  - destruct (IH (m - 1) tab1) as (I1 & I2 & I3); [nia|lia|done|unfold tab1; rewrite zlen_aset; nia|].
    cbv zeta. split; [by rewrite I1; apply zlen_aset|]. split.
    + intros i Hi. destruct (decide (i = m - 1)) as [->|Hne]; [|apply I2; lia].
      rewrite I3 by (nia || (intros i' Hi' Heq; nia)). apply aget_aset_eq. lia.
    + intros j Hj Hne. rewrite I3 by (done || (intros; apply Hne; lia)).
      apply aget_aset_ne; [lia|done|]. intros Heq. apply (Hne (m - 1)); lia.
Qed.

(** A table of [2^c] entries at [b], in which the entries whose index has [x]
    as its low [a] bits are overwritten. *)
Lemma fill_block a c b x here tab : 0 ≤ a ≤ c → 0 ≤ x < 2 ^ a → 0 ≤ b → b + 2 ^ c ≤ zlen tab →
  let tab' := fill_loop (Z.to_nat (1 ≪ c)) (b + x) (1 ≪ a) (1 ≪ c) here tab in
  zlen tab' = zlen tab ∧
  (∀ y, 0 ≤ y < 2 ^ c → tab'.[b + y] = if decide (y mod 2 ^ a = x) then here else tab.[b + y]) ∧
  (∀ j, 0 ≤ j → j < b ∨ b + 2 ^ c ≤ j → tab'.[j] = tab.[j]).
Proof.
  intros Ha Hx Hb Hz. rewrite !Z.shiftl_1_l.
  assert (2 ^ c = 2 ^ (c - a) * 2 ^ a) as Ec by (rewrite <-Z.pow_add_r by lia; f_equal; lia).
  assert (0 < 2 ^ (c - a)) as Hm by lia. assert (0 < 2 ^ a) as Hp by lia.
  destruct (fill_loop_spec (Z.to_nat (2 ^ c)) (b + x) a (2 ^ (c - a)) here tab)
    as (H1 & H2 & H3); [lia|done|nia|lia|nia|]. rewrite <-Ec in H1, H2, H3.
  set (m := 2 ^ (c - a)) in *. set (p := 2 ^ a) in *. cbv zeta. split; [done|]. split.
  - intros y Hy. case_decide as E.
    + pose proof (Z.div_mod y p). replace (b + y) with (b + x + y / p * p) by lia.
      apply H2. split; [apply Z.div_pos; lia|]. apply Z.div_lt_upper_bound; lia.
    + apply H3; [lia|]. intros i Hi Heq. apply E.
      replace y with (x + i * p) by lia. rewrite Z.mod_add, Z.mod_small by lia. done.
  - intros j Hj Hout. apply H3; [done|]. intros i Hi Heq. nia.
Qed.

(** ** Entries and lookup *)

(** What the entry of a symbol says, by the op values of inftrees.h. *)
Definition symbol_entry (type : codetype) (s nbits : Z) : code :=
  match type with
  | CODES => Code 0 nbits s
  | LENS =>
      if s <? 256 then Code 0 nbits s
      else if s =? 256 then Code 96 nbits 0
      else Code lext.[s - 257] nbits lbase.[s - 257]
  | DISTS => Code dext.[s] nbits dbase.[s]
  end.

(** The number of symbols each type of code may have. *)
Definition symbols (type : codetype) : Z :=
  match type with CODES => 19 | LENS => 288 | DISTS => 32 end.

Definition is_link (e : code) : bool := c_true (op e) && (Z.land (op e) 0xf0 =? 0).

(** The two-level lookup of inflate: the entry of the window [w], and the bits
    it uses. *)
Definition lookup (tab : list code) (t0 root w : Z) : code * Z :=
  let here := tab.[t0 + w mod 2 ^ root] in
  if is_link here then
    let here' := tab.[t0 + val here + ((w mod 2 ^ (bits here + op here)) ≫ bits here)] in
    (here', bits here + bits here')
  else (here, bits here).

Lemma make_here_spec type work s nbits : 0 ≤ s < symbols type → 0 ≤ nbits ≤ 15 →
  let '(base, extra, m) := setup type work in
  make_here base extra m s nbits = symbol_entry type s nbits.
Proof.
  intros Hs Hn. assert (u8 nbits = nbits) as En by (apply wrap_small; unfold ubits; lia).
  destruct type; simpl in *; unfold make_here; rewrite En.
  - by destruct (Z.ltb_spec (s + 1) 20); [|lia].
  - destruct (Z.ltb_spec (s + 1) 257), (Z.ltb_spec s 256); try lia; [done|].
    destruct (Z.leb_spec 257 s), (Z.eqb_spec s 256); try lia; [|done].
    assert (forall_range (λ i, u8 lext.[i] =? lext.[i]) 0 31 = true) as Hf by done.
    apply (forall_range_spec _ _ _ (s - 257)) in Hf; [|lia]. apply Z.eqb_eq in Hf. by rewrite Hf.
  - destruct (Z.ltb_spec (s + 1) 0), (Z.leb_spec 0 s); try lia. rewrite Z.sub_0_r.
    assert (forall_range (λ i, u8 dext.[i] =? dext.[i]) 0 32 = true) as Hf by done.
    apply (forall_range_spec _ _ _ s) in Hf; [|lia]. apply Z.eqb_eq in Hf. by rewrite Hf.
Qed.

Lemma symbol_not_link type s nbits : 0 ≤ s < symbols type →
  is_link (symbol_entry type s nbits) = false.
Proof.
  intros Hs. destruct type; simpl in *; [done| |].
  - destruct (s <? 256); [done|]. destruct (Z.eqb_spec s 256); [done|].
    destruct (decide (s < 257)).
    + unfold aget. replace (Z.to_nat (s - 257)) with 0%nat by lia. done.
    + assert (forall_range (λ i, negb (is_link (Code lext.[i] 0 0))) 0 31 = true) as H by done.
      apply (forall_range_spec _ _ _ (s - 257)) in H; [|lia]. by apply negb_true_iff in H.
  - assert (forall_range (λ i, negb (is_link (Code dext.[i] 0 0))) 0 32 = true) as H by done.
    apply (forall_range_spec _ _ _ s) in H; [|lia]. by apply negb_true_iff in H.
Qed.

Lemma link_is_link c root o : 1 ≤ c ≤ 15 → is_link (Code c root o) = true.
Proof.
  intros Hc. assert (forall_range (λ c, is_link (Code c 0 0)) 1 15 = true) as H by done.
  by apply (forall_range_spec _ _ _ c) in H; [|lia].
Qed.

(** A link, which a code-length code does not have, uses all the root bits and leads to an entry of the rest of the
    window; any other entry uses some of the root bits. *)
Definition two_level (type : codetype) (tab : list code) (t0 root w : Z) : Prop :=
  let here := tab.[t0 + w mod 2 ^ root] in
  if is_link here then
    type ≠ CODES ∧ bits here = root ∧ 1 ≤ op here ∧ root + op here ≤ 15 ∧
    1 ≤ bits (lookup tab t0 root w).1 ≤ op here
  else 1 ≤ bits here ≤ root.

(** The sub-table a window leads to lies in the first [adv] entries. *)
Definition within (tab : list code) (t0 root adv w : Z) : Prop :=
  let here := tab.[t0 + w mod 2 ^ root] in
  is_link here = true → 0 ≤ val here ∧ val here + 2 ^ op here ≤ adv.

(** The window [w] decodes as the canonical code says. *)
Definition decodes (type : codetype) (lens : list Z) (codes : Z) (tab : list code)
    (t0 root w : Z) : Prop :=
  two_level type tab t0 root w ∧
  ((∃ i nb, 0 ≤ i < zlen (sorted lens codes) ∧
     start lens codes i ≤ rev w < start lens codes (i + 1) ∧
     lookup tab t0 root w
     = (symbol_entry type (sorted lens codes).[i] nb, lens.[(sorted lens codes).[i]])) ∨
  (kraft lens codes ≤ rev w ∧ lookup tab t0 root w = (Code 64 1 0, 1))).

(** The room the sub-tables take beyond one entry per symbol: a sub-table of
    [2^c] entries holds at least [2^a + c - a] symbols when its shortest code has
    [a] bits there, so the excess of successive sub-tables telescopes. *)
Definition excess (c : Z) : Z := 2 ^ c - c.

Lemma excess_mono a b : 0 ≤ a ≤ b → excess a ≤ excess b.
Proof.
  intros [Ha Hb]. unfold excess. replace b with (a + (b - a)) by lia.
  apply (natlike_ind (λ d, 2 ^ a - a ≤ 2 ^ (a + d) - (a + d))); [| |lia].
  - by rewrite Z.add_0_r.
  - intros d Hd IH. rewrite <-Z.add_1_r, Z.add_assoc, (Z.pow_add_r 2 (a + d) 1) by lia.
    change (2 ^ 1) with 2. assert (0 < 2 ^ (a + d)) by lia. lia.
Qed.

(** ** The loop *)

Section Loop.
  Context (type : codetype) (lens : list Z) (codes : Z) (work : list Z).
  Context (t0 root max limit size : Z) (tab0 : list code).
  Context (Hok : lengths_ok lens codes) (Hcodes : codes ≤ symbols type).

Let N := base lens codes 16.
Let B := base lens codes.
Let ell k := lens.[(sorted lens codes).[k]].
Let st := start lens codes.

  Hypothesis work_sorted : ∀ k, 0 ≤ k < N → work.[k] = (sorted lens codes).[k].
  Hypothesis kraft_le : kraft lens codes ≤ 2 ^ 15.
  Hypothesis max_range : 1 ≤ max ≤ 15.
  Hypothesis max_pos : 0 < num lens codes max.
  Hypothesis max_top : ∀ l, max < l ≤ 15 → num lens codes l = 0.
  Hypothesis root_range : 1 ≤ root ≤ max.
  Hypothesis kraft_full : root < max → kraft lens codes = 2 ^ 15.
  Hypothesis limit_type : match type with
    | CODES => max ≤ root | LENS => limit = ENOUGH_LENS | DISTS => limit = ENOUGH_DISTS end.
  Hypothesis limit_size : 0 ≤ t0 ∧ t0 + limit ≤ size ∧ t0 + 2 ^ root ≤ size ∧ limit < 2 ^ 16.

Lemma ell_range k : 0 ≤ k < N →
  1 ≤ ell k ≤ max ∧ B (ell k) ≤ k < B (ell k + 1) ∧ 0 ≤ (sorted lens codes).[k] < symbols type.
Proof.
  intros Hk. destruct (position_length lens codes k Hk) as (l & Hl & Hkl).
  destruct (sorted_len lens codes l k) as [E Hs]; [done..|]. unfold ell. rewrite E.
  split_and!; try lia; try apply Hkl. destruct (decide (l ≤ max)); [lia|].
  rewrite base_succ, max_top in Hkl by lia. lia.
Qed.

Lemma ell_eq k l : 1 ≤ l ≤ 15 → B l ≤ k < B (l + 1) → ell k = l.
Proof. intros. by apply sorted_len. Qed.

Lemma N_max : N = B (max + 1).
Proof.
  unfold N, B. assert (∀ d, 0 ≤ d → max + 1 + d ≤ 16 → base lens codes (max + 1 + d) = base lens codes (max + 1)) as H.
  { apply (natlike_ind (λ d, max + 1 + d ≤ 16 →
      base lens codes (max + 1 + d) = base lens codes (max + 1))).
    - by rewrite Z.add_0_r.
    - intros d Hd IH Hle. rewrite <-Z.add_1_r, Z.add_assoc, base_succ, max_top by lia. rewrite IH; lia. }
  replace 16 with (max + 1 + (15 - max)) by lia. apply H; lia.
Qed.

Lemma ell_mono i k : 0 ≤ i ≤ k → k < N → ell i ≤ ell k.
Proof.
  intros Hik Hk. destruct (ell_range i) as (? & ? & _), (ell_range k) as (? & ? & _); [lia..|].
  destruct (decide (ell i ≤ ell k)) as [|Hn]; [done|].
  pose proof (base_mono lens codes (ell k + 1) (ell i)). unfold B in *. lia.
Qed.

Lemma st_succ k : 0 ≤ k → st (k + 1) = st k + 2 ^ (15 - ell k).
Proof. intros. by apply start_succ. Qed.

Lemma st_mono i k : 0 ≤ i ≤ k → st i ≤ st k.
Proof. apply start_mono. Qed.

Lemma st_le k : 0 ≤ k ≤ N → 0 ≤ st k ≤ 2 ^ 15.
Proof.
  intros. split; [apply (st_mono 0 k); lia|]. etransitivity; [|apply kraft_le].
  rewrite <-start_kraft. by apply start_mono.
Qed.

Lemma st_lt k : 0 ≤ k < N → 0 ≤ st k < 2 ^ 15.
Proof.
  intros. pose proof (st_le k). pose proof (st_le (k + 1)). rewrite st_succ in * by lia.
  assert (0 < 2 ^ (15 - ell k)); [|lia]. pose proof (ell_range k). lia.
Qed.

Lemma st_divide k : 0 ≤ k < N → (2 ^ (15 - ell k) | st k) ∧ (2 ^ (15 - ell k) | st (k + 1)).
Proof.
  intros Hk. destruct (ell_range k Hk) as (? & ? & _).
  split; apply start_divide; unfold B in *; lia.
Qed.

(** The codes not yet entered. *)
Definition rem (k l : Z) : Z := Z.max 0 (B (l + 1) - Z.max k (B l)).

(** Where a window whose code was entered leads. *)
Definition found (tab : list code) (low off used : Z) (i w : Z) : Prop :=
  let e := tab.[t0 + w mod 2 ^ root] in
  (ell i ≤ root ∧ e = symbol_entry type (sorted lens codes).[i] (ell i)) ∨
  (root < ell i ∧ ∃ c o, e = Code c root o ∧ 1 ≤ c ≤ 15 ∧ root + c ≤ 15 ∧ 2 ^ root ≤ o ∧ o + 2 ^ c ≤ used ∧
     ell i ≤ root + c ∧ (w mod 2 ^ root ≠ low → o + 2 ^ c ≤ off) ∧
     tab.[t0 + o + (w / 2 ^ root) mod 2 ^ c]
     = symbol_entry type (sorted lens codes).[i] (ell i - root)).

Definition covered (tab : list code) (low off used k : Z) : Prop :=
  ∀ i w, 0 ≤ i < k → 0 ≤ w < 2 ^ 15 → st i ≤ rev w < st (i + 1) → found tab low off used i w.

(** Only the room from [t0] on is written. *)
Definition frame (tab : list code) : Prop :=
  ∀ j, 0 ≤ j → j < t0 ∨ t0 + Z.max limit (2 ^ root) ≤ j → tab.[j] = tab0.[j].

(** The tables so far, up to the sub-table that ends before the symbol [e]. *)
Definition budget (used curr e : Z) : Prop :=
  used ≤ 2 ^ root + (e - B (root + 1)) + excess curr - 1 ∧ Z.Even used.

(** The root table is being filled, or a sub-table; [e] is the symbol after the
    last one that shares the current root bits. *)
Inductive phase (k : Z) (s : fill_state) : Prop :=
  | Root : drop_ s = 0 → next s = t0 → curr s = root → used s = 2 ^ root → low s = 2 ^ 32 - 1 →
      ell k ≤ root → phase k s
  | Sub : drop_ s = root → root < ell k → used s ≤ limit → 2 ^ root ≤ next s - t0 →
      next s - t0 + 2 ^ curr s = used s → low s = rev (st k) mod 2 ^ root →
      (tab s).[t0 + low s] = Code (curr s) root (next s - t0) →
      1 ≤ curr s → root + curr s ≤ max →
      (∀ i, k ≤ i < N → st i < (st k / 2 ^ (15 - root) + 1) * 2 ^ (15 - root) →
         ell i ≤ root + curr s) →
      (∃ e, k < e ≤ N ∧ st e = (st k / 2 ^ (15 - root) + 1) * 2 ^ (15 - root) ∧
         ell (e - 1) = root + curr s ∧ budget (used s) (curr s) e) → phase k s.

Record inv (k : Z) (s : fill_state) : Prop := Inv {
  inv_k : 0 ≤ k < N;
  inv_sym : sym s = k;
  inv_len : len s = ell k;
  inv_huff : huff s = rev (st k);
  inv_count : zlen (count s) = 16 ∧ ∀ l, 1 ≤ l ≤ 15 → (count s).[l] = rem k l;
  inv_tab : zlen (tab s) = size;
  inv_frame : frame (tab s);
  inv_phase : phase k s;
  inv_covered : covered (tab s) (low s) (next s - t0) (used s) k
}.

(** A window of an earlier code does not begin with the current one. *)
Lemma earlier_window k i w : 0 ≤ i < k → k < N → 0 ≤ w < 2 ^ 15 →
  st i ≤ rev w < st (i + 1) → w mod 2 ^ ell k ≠ rev (st k).
Proof.
  intros Hi Hk Hw Hrev E. destruct (ell_range k) as (Hl & _ & _); [lia|].
  apply (window_iff (ell k) (st k) w) in E; [|lia|done|apply st_lt; lia|apply st_divide; lia].
  pose proof (st_mono (i + 1) k). lia.
Qed.

Lemma current_window k w : 0 ≤ k < N → 0 ≤ w < 2 ^ 15 →
  st k ≤ rev w < st (k + 1) → w mod 2 ^ ell k = rev (st k).
Proof.
  intros Hk Hw Hrev. destruct (ell_range k) as (Hl & _ & _); [done|].
  rewrite st_succ in Hrev by lia.
  apply window_iff; [lia|done|by apply st_lt|by apply st_divide|done].
Qed.

Lemma huff_small k : 0 ≤ k < N → 0 ≤ rev (st k) < 2 ^ ell k.
Proof.
  intros Hk. destruct (ell_range k) as (Hl & _ & _); [done|].
  rewrite <-(rev_code_small (ell k)) by (lia || by apply st_lt || by apply st_divide).
  apply Z.mod_pos_bound. lia.
Qed.

(** Entering the symbol in the root table. *)
Lemma enter_root tab low off used k here : 0 ≤ k < N → ell k ≤ root → zlen tab = size →
  here = symbol_entry type (sorted lens codes).[k] (ell k) →
  covered tab low off used k →
  let tab' := fill_loop (Z.to_nat (1 ≪ root)) (t0 + rev (st k)) (1 ≪ ell k) (1 ≪ root) here tab in
  zlen tab' = size ∧ covered tab' low off used (k + 1) ∧ (frame tab → frame tab').
Proof.
  intros Hk Hle Hz -> Hcov. destruct (ell_range k) as (Hl & _ & _); [done|].
  destruct (fill_block (ell k) root t0 (rev (st k))
    (symbol_entry type (sorted lens codes).[k] (ell k)) tab) as (H1 & H2 & H3);
    [lia|by apply huff_small|lia|lia|].
  split; [by rewrite H1|]. split; [|intros Hfr j Hj Hout; rewrite H3 by lia; by apply Hfr].
  intros i w Hi Hw Hrev.
  assert (0 ≤ w mod 2 ^ root < 2 ^ root) as Hy by (apply Z.mod_pos_bound; lia).
  unfold found. rewrite H2, mod_mod_pow2 by lia. left.
  destruct (decide (i = k)) as [->|Hne].
  - rewrite decide_True by (by apply current_window). split; [lia|done].
  - rewrite decide_False by (apply (earlier_window k i); lia).
    pose proof (ell_mono i k). destruct (Hcov i w) as [?|[? _]]; [lia|done..|lia].
Qed.

(** Entering it in the current sub-table. *)
Lemma enter_sub tab low off used c k here : 0 ≤ k < N → root < ell k → zlen tab = size →
  here = symbol_entry type (sorted lens codes).[k] (ell k - root) →
  covered tab low off used k →
  low = rev (st k) mod 2 ^ root → tab.[t0 + low] = Code c root off → 2 ^ root ≤ off →
  off + 2 ^ c = used → used ≤ limit → ell k ≤ root + c → root + c ≤ 15 →
  let tab' := fill_loop (Z.to_nat (1 ≪ c)) (t0 + off + (rev (st k) ≫ root))
                (1 ≪ (ell k - root)) (1 ≪ c) here tab in
  zlen tab' = size ∧ covered tab' low off used (k + 1) ∧ tab'.[t0 + low] = Code c root off ∧
  (frame tab → frame tab').
Proof.
  intros Hk Hgt Hz -> Hcov Hlow Hlink Hoff Hused Hlim Hc Hc15.
  destruct (ell_range k) as (Hl & _ & _); [done|]. pose proof (huff_small k Hk) as Hh.
  assert (2 ^ ell k = 2 ^ root * 2 ^ (ell k - root)) as Epow
    by (rewrite <-Z.pow_add_r by lia; f_equal; lia).
  assert (0 < 2 ^ root) as Hp by lia.
  destruct (fill_block (ell k - root) c (t0 + off) (rev (st k) ≫ root)
    (symbol_entry type (sorted lens codes).[k] (ell k - root)) tab) as (H1 & H2 & H3).
  { lia. }
  { rewrite Z.shiftr_div_pow2 by lia. split; [apply Z.div_pos; lia|].
    apply Z.div_lt_upper_bound; lia. }
  { lia. }
  { lia. }
  set (tab' := fill_loop _ _ _ _ _ _) in *. rewrite Z.shiftr_div_pow2 in H2 by lia.
  assert (∀ y, 0 ≤ y < 2 ^ root → tab'.[t0 + y] = tab.[t0 + y]) as Hroot
    by (intros; apply H3; lia).
  assert (∀ w, w mod 2 ^ root = low → (w / 2 ^ root) mod 2 ^ (ell k - root) = rev (st k) / 2 ^ root →
    w mod 2 ^ ell k = rev (st k)) as Hjoin.
  { intros w E1 E2. replace (ell k) with (root + (ell k - root)) by lia.
    rewrite mod_pow2_split, E1, E2, Hlow by lia. symmetry. rewrite Z.add_comm. apply Z.div_mod. lia. }
  assert (0 ≤ low < 2 ^ root) as Hlow' by (rewrite Hlow; apply Z.mod_pos_bound; lia).
  split; [by rewrite H1|].
  split; [|split; [by rewrite Hroot|intros Hfr j Hj Hout; rewrite H3 by lia; by apply Hfr]].
  intros i w Hi Hw Hrev. unfold found.
  assert (0 ≤ w mod 2 ^ root < 2 ^ root) as Hy by (apply Z.mod_pos_bound; lia).
  rewrite Hroot by done. destruct (decide (i = k)) as [->|Hne].
  - right. split; [done|]. pose proof (current_window k w Hk Hw Hrev) as E.
    replace (ell k) with (root + (ell k - root)) in E by lia.
    assert (w mod 2 ^ root = low) as Ew.
    { rewrite Hlow, <-E, mod_mod_pow2 by lia. done. }
    exists c, off. rewrite Ew. split_and!; try done; try lia.
    rewrite H2 by (apply Z.mod_pos_bound; lia). rewrite mod_mod_pow2, decide_True; [done| |lia].
    rewrite mod_pow2_split in E by lia. rewrite Ew in E.
    apply (Z.div_unique _ _ _ low); lia.
  - destruct (Hcov i w) as [?|(Hi' & c' & o & He & Hc1 & Hc15' & Ho1 & Ho2 & Hcc & Hother & Hent)];
      [lia|done..|by left|]. right. split; [done|]. exists c', o. split_and!; try done; try lia.
    rewrite <-Hent. assert (0 ≤ (w / 2 ^ root) mod 2 ^ c' < 2 ^ c') as Hy' by (apply Z.mod_pos_bound; lia).
    destruct (decide (w mod 2 ^ root = low)) as [Ew|Ew]; [|specialize (Hother Ew); apply H3; lia].
    rewrite Ew, Hlink in He. injection He as -> ->. rewrite H2 by done.
    rewrite mod_mod_pow2, decide_False; [done| |lia].
    intros E. apply (earlier_window k i w); [lia|lia|done..|]. by apply Hjoin.
Qed.

(** The codes of length [l] that remain at [k] fill this much. *)
Lemma rem_start k l : 0 ≤ k < N → ell k ≤ l ≤ 15 →
  st (Z.max k (B (l + 1))) = st (Z.max k (B l)) + rem k l * 2 ^ (15 - l).
Proof.
  intros Hk Hl. destruct (ell_range k) as (He & Hb & _); [done|].
  pose proof (base_mono lens codes (ell k + 1) (l + 1)) as Hm.
  pose proof (num_nonneg lens codes l). pose proof (base_succ lens codes l) as Hs.
  unfold rem, B, st in *. rewrite !(start_pos lens codes l) by lia.
  assert (Z.max k (base lens codes (l + 1)) = base lens codes (l + 1)) as -> by lia.
  destruct (decide (l = ell k)) as [->|].
  - assert (Z.max k (base lens codes (ell k)) = k) as -> by lia. lia.
  - pose proof (base_mono lens codes (ell k + 1) l).
    assert (Z.max k (base lens codes l) = base lens codes l) as -> by lia. lia.
Qed.

Lemma rem_max k l : 0 ≤ k < N → ell k ≤ l ≤ 15 →
  Z.max k (B (l + 1)) = Z.max k (B l) + rem k l.
Proof.
  intros Hk Hl. destruct (ell_range k) as (He & Hb & _); [done|].
  pose proof (base_mono lens codes (ell k + 1) (l + 1)). pose proof (base_mono lens codes l (l + 1)).
  unfold rem, B in *. lia.
Qed.

(** The look-ahead loop: [av] codes of the length it stops at complete the
    sub-table, after all the shorter ones. *)
Lemma subtable_bits_spec k cnt : 0 ≤ k < N → root < ell k →
  (∀ l, 1 ≤ l ≤ 15 → cnt.[l] = rem k l) →
  let c := subtable_bits cnt (ell k) root max in
  1 ≤ c ∧ root + c ≤ max ∧
  ∃ av, 0 < av ∧ (root + c = max ∨ av ≤ rem k (root + c)) ∧
    ell k - root ≤ c ∧
    av * 2 ^ (15 - (root + c)) = 2 ^ (15 - root) - (st (Z.max k (B (root + c))) - st k) ∧
    2 ^ (ell k - root) + c - (ell k - root) ≤ Z.max k (B (root + c)) - k + av.
Proof.
  intros Hk Hgt Hcnt c. destruct (ell_range k) as (He & Hb & _); [done|].
  set (I := λ p : Z * Z, ell k - root ≤ p.1 ≤ max - root ∧ 0 < p.2 ∧
    p.2 * 2 ^ (15 - root - p.1) = 2 ^ (15 - root) - (st (Z.max k (B (p.1 + root))) - st k) ∧
    2 ^ (ell k - root) + p.1 - (ell k - root) ≤ Z.max k (B (p.1 + root)) - k + p.2).
  destruct (while_rule I (λ p, Z.to_nat (max - root - p.1)) 16
    (λ '(curr, avail), (curr + root <? max) && (0 <? avail - cnt.[curr + root]))
    (λ '(curr, avail), (curr + 1, Z.shiftl (avail - cnt.[curr + root]) 1))
    (ell k - root, 1 ≪ (ell k - root))) as [(Hc & Hpos & Ha & Hsz) Hstop].
  - intros [cu av] (H1 & Hp & H2 & H3) Hcond. cbn [fst snd] in *. apply andb_true_iff in Hcond as [Hc1 Hc2].
    split; [|lia]. unfold I. cbn [fst snd]. rewrite Z.shiftl_mul_pow2, Hcnt in * by lia.
    replace (cu + 1 + root) with (cu + root + 1) by lia. pose proof (rem_start k (cu + root)) as Hr.
    pose proof (rem_max k (cu + root) Hk ltac:(lia)) as Hrm.
    rewrite Hrm. rewrite Hrm in Hr. rewrite Hr by lia.
    replace (15 - root - cu) with (15 - root - (cu + 1) + 1) in H2 by lia.
    rewrite Z.pow_add_r in H2 by lia. change (2 ^ 1) with 2 in *.
    replace (15 - (cu + root)) with (15 - root - (cu + 1) + 1) by lia.
    rewrite Z.pow_add_r by lia. change (2 ^ 1) with 2. split_and!; lia.
  - unfold I. cbn [fst snd]. rewrite Z.shiftl_1_l. split_and!; [lia|lia|lia| |].
    + rewrite <-Z.pow_add_r by lia.
      replace (ell k - root + (15 - root - (ell k - root))) with (15 - root) by lia.
      replace (ell k - root + root) with (ell k) by lia.
      replace (Z.max k (B (ell k))) with k by (unfold B in *; lia). lia.
    + replace (ell k - root + root) with (ell k) by lia.
      replace (Z.max k (B (ell k))) with k by (unfold B in *; lia). lia.
  - cbn [fst]. lia.
  - assert (∃ av, while 16 (λ '(curr, avail), (curr + root <? max) && (0 <? avail - cnt.[curr + root]))
      (λ '(curr, avail), (curr + 1, Z.shiftl (avail - cnt.[curr + root]) 1))
      (ell k - root, 1 ≪ (ell k - root)) = (c, av)) as [av Eav]
      by (eexists; apply surjective_pairing).
    rewrite Eav in Hc, Hpos, Ha, Hsz, Hstop. cbn [fst snd] in *.
    replace (c + root) with (root + c) in * by lia.
    replace (15 - root - c) with (15 - (root + c)) in Ha by lia. split_and!; [lia..|].
    exists av. split_and!; try done; try lia. destruct (decide (root + c = max)); [by left|right].
    rewrite Hcnt in Hstop by lia. lia.
Qed.

(** The sub-table is deep enough for all the codes that share the root bits of
    the current one, which end at the symbol [e], and not deeper than needed. *)
Lemma subtable_extent k cnt : 0 ≤ k < N → root < ell k → (2 ^ (15 - root) | st k) →
  (∀ l, 1 ≤ l ≤ 15 → cnt.[l] = rem k l) →
  let c := subtable_bits cnt (ell k) root max in
  1 ≤ c ∧ root + c ≤ max ∧
  ∃ e, k < e ≤ N ∧ st e = st k + 2 ^ (15 - root) ∧ ell (e - 1) = root + c ∧
    2 ^ (ell k - root) + c - (ell k - root) ≤ e - k.
Proof.
  intros Hk Hgt Hdiv Hcnt c.
  destruct (subtable_bits_spec k cnt Hk Hgt Hcnt) as (Hc1 & Hc2 & av & Hpos & Hstop & Hac & Ha & Hsz).
  fold c in Hc1, Hc2, Hstop, Hac, Ha, Hsz. split_and!; [done..|].
  destruct (ell_range k) as (He & Hb & _); [done|].
  set (p := Z.max k (B (root + c))) in *.
  assert (p + rem k (root + c) = Z.max k (B (root + c + 1))) as Hp by (symmetry; apply rem_max; lia).
  pose proof (rem_start k (root + c) Hk ltac:(lia)) as Hr. fold p in Hr. rewrite <-Hp in Hr.
  pose proof (base_mono lens codes (ell k + 1) (root + c + 1)) as Hbm.
  pose proof (base_mono lens codes (root + c + 1) (max + 1)) as Hbn. pose proof N_max as HN.
  assert (0 < 2 ^ (15 - (root + c))) as Hw by lia.
  assert (av ≤ rem k (root + c)) as Hav.
  { destruct Hstop as [Emax|]; [|done]. unfold B, N in *.
    assert (Z.max k (base lens codes (root + c + 1)) = base lens codes 16) as EN by (rewrite HN, Emax in *; lia).
    rewrite Hp, EN in Hr. unfold st in Hr at 1. rewrite start_kraft, kraft_full in Hr by lia.
    destruct Hdiv as [q Hq]. pose proof (st_lt k Hk) as Hlt.
    assert (2 ^ 15 = 2 ^ root * 2 ^ (15 - root)) as E15 by (rewrite <-Z.pow_add_r by lia; f_equal; lia).
    assert (0 < 2 ^ (15 - root)) as HD by lia. rewrite E15 in Hlt, Hr.
    assert (st k + 2 ^ (15 - root) ≤ 2 ^ root * 2 ^ (15 - root)) as Hend.
    { rewrite Hq in Hlt |- *. assert (q + 1 ≤ 2 ^ root) by nia. nia. }
    clear Hq HN Hbm Hbn. unfold st in *. nia. }
  exists (p + av). unfold B, N in *.
  assert (p + av ≤ base lens codes (root + c + 1)) as Hle by lia.
  split_and!; [lia|lia| | |lia].
  - unfold st in *. rewrite (start_pos lens codes (root + c) (p + av)) by lia.
    rewrite (start_pos lens codes (root + c) p) in Ha by lia. lia.
  - apply ell_eq; unfold B; lia.
Qed.

(** A code that leaves the root prefix starts at the next one. *)
Lemma next_prefix k : 0 ≤ k → k + 1 < N → root < ell k →
  rev (st (k + 1)) mod 2 ^ root ≠ rev (st k) mod 2 ^ root →
  (2 ^ (15 - root) | st (k + 1)).
Proof.
  intros Hk Hk1 Hgt Hne. destruct (ell_range k) as (He & _ & _); [lia|].
  destruct (st_divide k) as [[q Hq] _]; [lia|]. pose proof (st_succ k Hk) as Hs.
  pose proof (st_lt k). pose proof (st_lt (k + 1)).
  assert (2 ^ (15 - root) = 2 ^ (ell k - root) * 2 ^ (15 - ell k)) as Ed
    by (rewrite <-Z.pow_add_r by lia; f_equal; lia).
  assert (0 < 2 ^ (15 - ell k)) as Hu by lia. assert (0 < 2 ^ (ell k - root)) as Hv by lia.
  set (D := 2 ^ (15 - root)) in *. set (u := 2 ^ (15 - ell k)) in *. set (v := 2 ^ (ell k - root)) in *.
  pose proof (Z.div_mod (st k) D) as Hdm. pose proof (Z.mod_pos_bound (st k) D) as Hr.
  set (r := st k mod D) in *. set (d := st k / D) in *.
  assert (r + u ≤ D) as Hle.
  { assert (r = (q - d * v) * u) as -> by nia. rewrite Ed. rewrite Ed in Hr.
    assert (q - d * v < v) by nia. nia. }
  destruct (decide (r + u = D)) as [E|E].
  { exists (d + 1). lia. }
  exfalso. apply Hne. apply rev_inj; [apply mod_range; [lia|apply rev_range]..|].
  rewrite !rev_low, !rev_rev by (lia || apply rev_range). fold D r.
  assert (st (k + 1) mod D = r + u) as ->; [|lia].
  symmetry. apply (Z.mod_unique _ _ d); lia.
Qed.

(** After the symbol [k] was entered. *)
Record post (k : Z) (s : fill_state) : Prop := Post {
  post_k : 0 ≤ k < N;
  post_sym : sym s = k + 1;
  post_huff : huff s = rev (st (k + 1));
  post_count : zlen (count s) = 16 ∧ ∀ l, 1 ≤ l ≤ 15 → (count s).[l] = rem (k + 1) l;
  post_tab : zlen (tab s) = size;
  post_frame : frame (tab s);
  post_phase : phase k s;
  post_min : min s = 2 ^ curr s;
  post_covered : covered (tab s) (low s) (next s - t0) (used s) (k + 1)
}.

Lemma count_dec k cnt : 0 ≤ k < N → zlen cnt = 16 → (∀ l, 1 ≤ l ≤ 15 → cnt.[l] = rem k l) →
  let cnt' := cnt.[ell k <- u16 (cnt.[ell k] - 1)] in
  zlen cnt' = 16 ∧ ∀ l, 1 ≤ l ≤ 15 → cnt'.[l] = rem (k + 1) l.
Proof.
  intros Hk Hz Hcnt cnt'. destruct (ell_range k) as (He & Hb & _); [done|]. unfold cnt'.
  rewrite zlen_aset. split; [done|]. intros l Hl. destruct (decide (l = ell k)) as [->|Hne].
  - rewrite aget_aset_eq, Hcnt by lia. destruct Hok as (? & ? & _).
    pose proof (base_le lens codes (ell k + 1)). unfold rem, B in *.
    rewrite wrap_small by (unfold ubits; lia). lia.
  - rewrite aget_aset_ne, Hcnt by lia. unfold rem, B in *. destruct (decide (l < ell k)).
    + pose proof (base_mono lens codes (l + 1) (ell k)). lia.
    + pose proof (base_mono lens codes (ell k + 1) l). lia.
Qed.

Lemma enter_post k s : inv k s →
  post k (enter_symbol type work s) ∧ len (enter_symbol type work s) = ell k.
Proof.
  intros [Hk Hsym Hlen Hhuff [Hcz Hcnt] Htab Hfr Hph Hcov].
  destruct (ell_range k) as (He & Hb & Hs); [done|].
  assert (next_huff (huff s) (len s) = rev (st (k + 1))) as Hnh.
  { rewrite Hhuff, Hlen, next_huff_spec, <-st_succ; [done|lia..|by apply st_lt|by apply st_divide]. }
  pose proof (count_dec k (count s) Hk Hcz Hcnt) as Hcd. rewrite <-Hlen in Hcd.
  pose proof (λ nb, make_here_spec type work work.[sym s] nb) as Hmh.
  rewrite Hsym, work_sorted in Hmh by done. unfold enter_symbol. rewrite Hsym, work_sorted by done.
  destruct (setup type work) as [[bs ex] m].
  split; [|done]. destruct Hph as [Hd Hn Hc Hu Hlo Hle|
      Hd Hgt Hu Hn Hnu Hlo Hlink Hc1 Hc2 Hdeep Hbud].
  - rewrite Hn, Z.sub_diag in Hcov.
    destruct (enter_root (tab s) (low s) 0 (used s) k (make_here bs ex m (sorted lens codes).[k] (ell k)))
      as (Hz' & Hcov' & Hfr'); [done..|apply Hmh; [done|lia]|done|]. specialize (Hfr' Hfr).
    rewrite Hlen, Hhuff, Hd, Hn, Hc, Z.sub_0_r, Z.shiftr_0_r.
    rewrite Hlen, Hhuff in Hnh. rewrite Hlen in Hcd.
    split; cbn [sym huff count tab low next used min curr]; try done.
    + apply Root; done.
    + apply Z.shiftl_1_l.
    + by rewrite Z.sub_diag.
  - assert (ell k ≤ root + curr s) as Hfit.
    { apply Hdeep; [lia|]. pose proof (Z.div_mod (st k) (2 ^ (15 - root))).
      pose proof (Z.mod_pos_bound (st k) (2 ^ (15 - root))). lia. }
    destruct (enter_sub (tab s) (low s) (next s - t0) (used s) (curr s) k
      (make_here bs ex m (sorted lens codes).[k] (ell k - root)))
      as (Hz' & Hcov' & Hlink' & Hfr');
      [done..|apply Hmh; [done|lia]|done|done|done|done|done|done|done|lia|]. specialize (Hfr' Hfr).
    replace (t0 + (next s - t0)) with (next s) in * by lia.
    rewrite Hlen, Hhuff, Hd. rewrite Hlen, Hhuff in Hnh. rewrite Hlen in Hcd.
    split; cbn [sym huff count tab low next used min curr]; try done.
    + by apply Sub.
    + apply Z.shiftl_1_l.
Qed.

Lemma huff_mask x : (x .& ((1 ≪ root) - 1)) = x mod 2 ^ root.
Proof. rewrite Z.shiftl_1_l, Z.sub_1_r, <-Z.ones_equiv. apply Z.land_ones. lia. Qed.

(** The link to a new sub-table is put in an entry no earlier window uses. *)
Lemma covered_link tab low off used c k : 0 ≤ k < N → (2 ^ (15 - root) | st k) → zlen tab = size →
  2 ^ root ≤ used → covered tab low off used k →
  covered tab.[t0 + rev (st k) mod 2 ^ root <- Code c root used]
    (rev (st k) mod 2 ^ root) used (used + 2 ^ c) k.
Proof.
  intros Hk Hdiv Hz Hu Hcov i w Hi Hw Hrev.
  assert (0 ≤ w mod 2 ^ root < 2 ^ root) as Hy by (apply Z.mod_pos_bound; lia).
  assert (0 ≤ rev (st k) mod 2 ^ root < 2 ^ root) as Hy' by (apply Z.mod_pos_bound; lia).
  assert (w mod 2 ^ root ≠ rev (st k) mod 2 ^ root) as Hne.
  { rewrite (rev_code_small root) by (lia || done || by apply st_lt). intros E.
    apply (window_iff root (st k) w) in E; [|lia|done|by apply st_lt|done].
    pose proof (st_mono (i + 1) k). lia. }
  unfold found. rewrite aget_aset_ne by lia.
  destruct (Hcov i w) as [?|(Hi' & c' & o & He & Hc1 & Hc15 & Ho1 & Ho2 & Hcc & Hother & Hent)];
    [done..|by left|]. right. split; [done|]. exists c', o. split_and!; try done; try lia.
  rewrite aget_aset_ne by (pose proof (Z.mod_pos_bound (w / 2 ^ root) (2 ^ c')); lia). done.
Qed.

Lemma st_strict i k : 0 ≤ i < k → k ≤ N → st i < st k.
Proof.
  intros Hi Hk. pose proof (st_mono (i + 1) k) as Hm. rewrite st_succ in Hm by lia.
  destruct (ell_range i) as (? & _ & _); [lia|]. assert (0 < 2 ^ (15 - ell i)) by lia. lia.
Qed.

(** The tables no longer fit the room of their type. *)
Definition outgrown : Prop :=
  type ≠ CODES ∧ root < max ∧
  ∃ u, not_enough type u = true ∧ budget u (max - root) N.

(** A new sub-table keeps the budget. *)
Lemma budget_next k s c e : post k s → k + 1 < N → root < ell (k + 1) →
  (2 ^ (15 - root) | st (k + 1)) → 1 ≤ c → k + 1 < e →
  2 ^ (ell (k + 1) - root) + c - (ell (k + 1) - root) ≤ e - (k + 1) →
  budget (used s + 2 ^ c) c e.
Proof.
  intros [Hk _ _ _ _ _ Hph _ _] Hk1 Hgt [q Hq] Hc Hlt Hsz.
  destruct (ell_range k) as (Hek & Hbk & _); [lia|].
  destruct (ell_range (k + 1)) as (Hek1 & Hbk1 & _); [lia|].
  pose proof (excess_mono 1 (ell (k + 1) - root)) as Hex1. change (excess 1) with 1 in Hex1.
  assert (∀ n, 1 ≤ n → Z.Even (2 ^ n)) as Heven.
  { intros n Hn. exists (2 ^ (n - 1)). rewrite <-Z.pow_succ_r by lia. f_equal. lia. }
  assert (∀ x y, Z.Even x → Z.Even y → Z.Even (x + y)) as Hadd.
  { intros x y [x' ->] [y' ->]. exists (x' + y'). lia. }
  destruct Hph as [Hd Hn Hcu Hu Hlo Hle|Hd Hgk Hu Hn Hnu Hlo Hlink Hc1 Hc2 Hdeep (e0 & He0 & Hse & Hell & Hb & Hev)].
  - assert (B (root + 1) = k + 1) as HB.
    { unfold B in *. pose proof (base_mono lens codes (ell k + 1) (root + 1)).
      pose proof (base_mono lens codes (root + 1) (ell (k + 1))). lia. }
    unfold budget. rewrite HB, Hu. unfold excess in *. split; [lia|].
    apply Hadd; apply Heven; lia.
  - assert (e0 = k + 1) as ->.
    { destruct (decide (e0 = k + 1)) as [|Hne]; [done|exfalso].
      pose proof (st_strict (k + 1) e0). pose proof (st_strict k (k + 1)).
      assert (0 < 2 ^ (15 - root)) as HD by lia.
      pose proof (Z.div_mod (st k) (2 ^ (15 - root))). pose proof (Z.mod_pos_bound (st k) (2 ^ (15 - root))).
      rewrite Hq in *. set (D := 2 ^ (15 - root)) in *. set (d := st k / D) in *.
      assert (q < d + 1) by nia. assert (d < q) by nia. lia. }
    replace (k + 1 - 1) with k in Hell by lia. pose proof (ell_mono k (k + 1)).
    pose proof (excess_mono (curr s) (ell (k + 1) - root)). unfold budget, excess in *.
    split; [lia|]. apply Hadd; [done|by apply Heven].
Qed.

Lemma new_subtable_spec k s : post k s → k + 1 < N → len s = ell (k + 1) →
  match new_subtable type t0 root max s with
  | Continue s' => inv (k + 1) s'
  | Break _ => False
  | Return r _ => r = 1 ∧ outgrown
  end.
Proof.
  intros Hpost Hk1 Hlen. pose proof Hpost as [Hk Hsym Hhuff Hcnt Htab Hfr Hph Hmin Hcov].
  destruct (ell_range (k + 1)) as (He & _ & _); [lia|]. pose proof (ell_mono k (k + 1)) as Hem.
  assert (1 ≤ 2 ^ root) by lia.
  assert (0 ≤ rev (st (k + 1)) mod 2 ^ root < 2 ^ root) as Hm by (apply Z.mod_pos_bound; lia).
  pose proof (Z.pow_le_mono_r 2 root 15) as Hp15.
  unfold new_subtable. rewrite huff_mask, Hlen, Hhuff.
  destruct (Z.ltb_spec root (ell (k + 1))) as [Hgt|Hle]; cbn [andb]; cycle 1.
  { split; try done; [lia|]. destruct Hph; [by apply Root|lia]. }
  destruct (Z.eqb_spec (rev (st (k + 1)) mod 2 ^ root) (low s)) as [El|El]; cbn [negb].
  { split; try done; [lia|]. destruct Hph as [?????|Hd Hgk Hu Hn Hnu Hlo Hlink Hc1 Hc2 Hdeep (e & He1 & He2 & He3 & He4)]; [lia|].
    assert (st (k + 1) - st (k + 1) mod 2 ^ (15 - root) = st k - st k mod 2 ^ (15 - root)) as E.
    { assert (∀ j, 0 ≤ j < N → st j - st j mod 2 ^ (15 - root) = rev (rev (st j) mod 2 ^ root)) as Hpre
        by (intros; rewrite rev_low, rev_rev by (lia || apply rev_range || by apply st_lt); done).
      rewrite !Hpre by lia. by rewrite El, Hlo. }
    pose proof (Z.div_mod (st k) (2 ^ (15 - root))). pose proof (Z.div_mod (st (k + 1)) (2 ^ (15 - root))).
    assert (st k / 2 ^ (15 - root) = st (k + 1) / 2 ^ (15 - root)) as Eq by nia.
    rewrite Eq in *. apply Sub; try done; [intros; apply Hdeep; [lia|done]|].
    exists e. split_and!; try done; try lia. destruct (decide (e = k + 1)) as [->|]; [|lia].
    pose proof (Z.mod_pos_bound (st (k + 1)) (2 ^ (15 - root))). lia. }
  assert ((2 ^ (15 - root) | st (k + 1)) ∧ next s + min s - t0 = used s ∧ 2 ^ root ≤ used s ∧
    (if drop_ s =? 0 then root else drop_ s) = root) as (Hdiv & Hnext & Hur & ->).
  { rewrite Hmin. destruct Hph as [Hd Hn Hc Hu Hlo Hle|Hd Hgk Hu Hn Hnu Hlo Hlink Hc1 Hc2 Hdeep _].
    - rewrite Hd, Hn, Hc, Hu. destruct (ell_range k) as (Hek & _ & _); [lia|]. split_and!; try done; try lia.
      + eapply Z.divide_trans; [|apply (st_divide k); lia].
        exists (2 ^ (root - ell k)). rewrite <-Z.pow_add_r by lia. f_equal. lia.
    - rewrite Hd. split_and!; try lia.
      + apply (next_prefix k); [lia..|by rewrite <-Hlo].
      + by destruct (Z.eqb_spec root 0). }
  destruct Hcnt as [Hcz Hcnt].
  destruct (subtable_extent (k + 1) (count s)) as (Hc1 & Hc2 & e & He1 & He2 & He3 & He4); [lia|done..|].
  set (c := subtable_bits _ _ _ _) in *. rewrite Z.shiftl_1_l.
  assert (0 < 2 ^ c) as Hcp by lia.
  pose proof (budget_next k s c e Hpost Hk1 Hgt Hdiv Hc1 ltac:(lia) He4) as Hbud.
  destruct (not_enough type (used s + 2 ^ c)) eqn:Hne.
  { split; [done|]. split; [by intros ->|]. split; [lia|]. exists (used s + 2 ^ c). split; [done|].
    pose proof (excess_mono c (max - root)). unfold budget in *. split; [lia|apply Hbud]. }
  assert (used s + 2 ^ c ≤ limit) as Hlim.
  { unfold not_enough in Hne. destruct type; [lia|..]; simpl in *; lia. }
  assert ((st (k + 1) / 2 ^ (15 - root) + 1) * 2 ^ (15 - root) = st (k + 1) + 2 ^ (15 - root)) as Hnst.
  { destruct Hdiv as [q Hq]. rewrite Hq, Z.div_mul by lia. lia. }
  cbn [huff tab sym len count min]. rewrite Hnext, huff_mask.
  rewrite (wrap_small 8 c), (wrap_small 8 root), (wrap_small 16 (used s)) by (unfold ubits; lia).
  split; cbn [sym len huff count tab low next used]; try done; try lia.
  - by rewrite zlen_aset.
  - intros j Hj Hout. rewrite aget_aset_ne by lia. by apply Hfr.
  - apply Sub; cbn [drop_ used next curr low tab]; try done; try lia.
    + rewrite aget_aset_eq by lia. by rewrite Hnext.
    + intros i Hi Hst. rewrite Hnst in Hst. rewrite <-He3. apply ell_mono; [|lia].
      destruct (decide (i < e)); [lia|]. pose proof (st_mono e i). lia.
    + exists e. rewrite Hnst. split_and!; try done; lia.
  - rewrite Hnext. apply (covered_link (tab s) (low s) (next s - t0)); [lia|done..].
Qed.

Lemma fill_step_spec k s : inv k s →
  match fill_step type lens work t0 root max s with
  | Continue s' => k + 1 < N ∧ inv (k + 1) s'
  | Break s' => k + 1 = N ∧ post k s' ∧ len s' = ell k
  | Return r _ => r = 1 ∧ outgrown
  end.
Proof.
  intros Hinv. destruct (enter_post k s Hinv) as [Hpost Hlen].
  unfold fill_step. set (s1 := enter_symbol type work s) in *.
  pose proof (post_k _ _ Hpost) as Hk. destruct (ell_range k) as (He & Hb & _); [done|].
  destruct (post_count _ _ Hpost) as [_ Hcnt]. rewrite Hlen, Hcnt by lia.
  assert (rem (k + 1) (ell k) = B (ell k + 1) - (k + 1)) as -> by (unfold rem; lia).
  pose proof N_max as HN. unfold c_true.
  destruct (Z.eqb_spec (B (ell k + 1) - (k + 1)) 0) as [E|E]; cbn [negb].
  - destruct (Z.eqb_spec (ell k) max) as [Em|Em]; [split; [rewrite HN, <-Em; lia|done]|].
    assert (k + 1 < N) as Hk1.
    { destruct (decide (k + 1 = N)) as [EN|]; [|lia]. exfalso.
      destruct (decide (num lens codes max = 0)) as [E0|E0].
      - pose proof max_pos. lia.
      - pose proof (num_nonneg lens codes max). pose proof (base_succ lens codes max).
        pose proof (base_mono lens codes (ell k + 1) max). unfold N, B in *. lia. }
    pose proof Hpost as Hpost'. pose proof (post_sym _ _ Hpost) as Hsym.
    match goal with |- context [new_subtable _ _ _ _ ?s2] =>
      pose proof (new_subtable_spec k s2) as Hnew end.
    rewrite Hsym, work_sorted in Hnew |- * by lia.
    destruct (new_subtable _ _ _ _ _); [split; [done|]|exfalso|]; apply Hnew; try done.
    all: destruct Hpost' as [???? ?? Hph]; split; try done; by destruct Hph; [apply Root|apply Sub].
  - assert (k + 1 < N) as Hk1.
    { rewrite HN. pose proof (base_mono lens codes (ell k + 1) (max + 1)). unfold B in *. lia. }
    assert (ell (k + 1) = ell k) as Eell by (apply ell_eq; lia).
    pose proof (new_subtable_spec k s1 Hpost Hk1) as Hnew. rewrite Eell in Hnew.
    specialize (Hnew Hlen). destruct (new_subtable _ _ _ _ _); tauto.
Qed.

(** The loop ends after the last symbol. *)
Lemma fill_tables_spec fuel k s : inv k s → (Z.to_nat (N - k) ≤ fuel)%nat →
  ∃ c, fill_tables type lens work t0 root max fuel s = Some c ∧
  match c with
  | Continue _ => False
  | Break s' => post (N - 1) s' ∧ len s' = ell (N - 1)
  | Return r _ => r = 1 ∧ outgrown
  end.
Proof.
  revert k s. induction fuel as [|fuel IH]; intros k s Hinv Hf;
    pose proof (inv_k _ _ Hinv) as Hk; [lia|].
  pose proof (fill_step_spec k s Hinv) as Hstep. cbn [fill_tables].
  destruct (fill_step _ _ _ _ _ _ s) as [s'|s'|r s'].
  - apply (IH (k + 1)); [apply Hstep|lia].
  - exists (Break s'). split; [done|]. replace (N - 1) with k by lia. apply Hstep.
  - exists (Return r s'). done.
Qed.

(** A covered window decodes to its symbol. *)
Lemma covered_lookup tab low off used k i w : covered tab low off used k →
  0 ≤ i < k → k ≤ N → 0 ≤ w < 2 ^ 15 → st i ≤ rev w < st (i + 1) →
  two_level type tab t0 root w ∧ within tab t0 root used w ∧
  ∃ nb, lookup tab t0 root w = (symbol_entry type (sorted lens codes).[i] nb, ell i).
Proof.
  intros Hcov Hi Hk Hw Hrev. destruct (ell_range i) as (He & _ & Hs); [lia|].
  assert (∀ nb, bits (symbol_entry type (sorted lens codes).[i] nb) = nb) as Hbits
    by (intros nb; destruct type; simpl; repeat case_match; done).
  unfold two_level, within, lookup.
  destruct (Hcov i w Hi Hw Hrev) as [[Hle ->]|(Hgt & c & o & -> & Hc & Hc15 & Ho1 & Ho2 & Hlc & _ & Hent)].
  - rewrite symbol_not_link, Hbits by done. split; [lia|]. split; [done|]. by exists (ell i).
  - rewrite link_is_link by done. cbn [op bits val].
    assert ((w mod 2 ^ (root + c)) ≫ root = (w / 2 ^ root) mod 2 ^ c) as ->.
    { rewrite mod_pow2_split, Z.shiftr_div_pow2 by lia. symmetry.
      apply (Z.div_unique _ _ _ (w mod 2 ^ root)); [|lia].
      left. apply Z.mod_pos_bound. lia. }
    rewrite Hent. cbn [fst]. rewrite Hbits. split; [split_and!; try lia|].
    { pose proof limit_type. by destruct type; [lia|..]. }
    split; [pose proof (Z.pow_pos_nonneg 2 root); lia|]. exists (ell i - root). f_equal. lia.
Qed.

(** Every value below the Kraft sum lies in the interval of one code. *)
Lemma interval_exists v k : 0 ≤ k ≤ N → 0 ≤ v < st k → ∃ i, 0 ≤ i < k ∧ st i ≤ v < st (i + 1).
Proof.
  intros [Hk Hkn] [Hv Hlt]. revert Hkn Hlt.
  apply (natlike_ind (λ k, k ≤ N → v < st k → ∃ i, 0 ≤ i < k ∧ st i ≤ v < st (i + 1))); [| |done].
  - intros _. unfold st, start. rewrite for_empty by lia. lia.
  - intros d Hd IH Hkn Hlt. destruct (decide (v < st d)) as [H|H].
    + destruct IH as (i & ? & ?); [lia|done|]. exists i. split; [lia|done].
    + exists d. rewrite Z.add_1_r. split; [lia|]. split; [lia|done].
Qed.

(** The one window an incomplete code leaves. *)
Lemma incomplete_shape : kraft lens codes < 2 ^ 15 → max = 1 →
  root = 1 ∧ N = 1 ∧ kraft lens codes = 2 ^ 14 ∧ ell 0 = 1.
Proof.
  intros Hkr Hmax. assert (N = num lens codes 1) as HN.
  { rewrite N_max, Hmax. unfold B. rewrite base_succ, base_1 by lia. lia. }
  assert (kraft lens codes = num lens codes 1 * 2 ^ 14) as Ek.
  { pose proof (num_nonneg lens codes 1). rewrite <-start_kraft. fold N. rewrite HN.
    rewrite (start_pos lens codes 1) by (rewrite ?base_succ, ?base_1 by lia; lia). rewrite base_1. change (kraft_upto lens codes 1) with 0. lia. }
  pose proof max_pos. rewrite Hmax in *. assert (num lens codes 1 = 1) as E1 by lia.
  rewrite E1 in *. split_and!; [lia..|]. apply ell_eq; [lia|]. unfold B.
  rewrite base_succ, base_1 by lia. lia.
Qed.

Lemma fill_invalid_spec s : post (N - 1) s → len s = ell (N - 1) →
  kraft lens codes = 2 ^ 15 ∨ (kraft lens codes < 2 ^ 15 ∧ max = 1) →
  covered (fill_invalid s) (low s) (next s - t0) (used s) N ∧ frame (fill_invalid s) ∧
  zlen (fill_invalid s) = size ∧ 2 ^ root ≤ used s ≤ Z.max limit (2 ^ root) ∧
  ∀ w, 0 ≤ w < 2 ^ 15 → kraft lens codes ≤ rev w →
    two_level type (fill_invalid s) t0 root w ∧ within (fill_invalid s) t0 root (used s) w ∧
    lookup (fill_invalid s) t0 root w = (Code 64 1 0, 1).
Proof.
  intros [Hk Hsym Hhuff _ Htab Hfr Hph _ Hcov] Hlen Hcase.
  replace (N - 1 + 1) with N in * by lia. unfold st in Hhuff. rewrite start_kraft in Hhuff.
  assert (2 ^ root ≤ used s ≤ Z.max limit (2 ^ root)) as Hused
    by (destruct Hph; pose proof (Z.pow_nonneg 2 (curr s)); lia).
  unfold fill_invalid. rewrite Hhuff. destruct Hcase as [Ek|[Hkr Hmax]].
  { rewrite Ek. change (c_true (rev (2 ^ 15))) with false. split_and!; try done; try lia.
    intros w Hw Hge. pose proof (rev_range w). lia. }
  destruct (incomplete_shape Hkr Hmax) as (Hr & HN & Ek & He0). rewrite HN in *.
  change (1 - 1) with 0 in *. rewrite Ek. change (c_true (rev (2 ^ 14))) with true. cbv iota.
  change (rev (2 ^ 14)) with 1.
  destruct Hph as [Hd Hn Hc Hu Hlo Hle|? Hgt]; [|lia]. rewrite Hd, Hn, Hlen, He0.
  change (u8 (1 - 0)) with 1.
  assert (∀ w, 0 ≤ w < 2 ^ 15 → rev w < 2 ^ 14 ↔ w mod 2 = 0) as Hiff.
  { intros w Hw. pose proof (rev_range w). pose proof (window_iff 1 0 w) as Hwi.
    change (rev 0) with 0 in Hwi. change (2 ^ 1) with 2 in Hwi. change (2 ^ (15 - 1)) with (2 ^ 14) in Hwi.
    rewrite Hwi by (lia || apply Z.divide_0_r). lia. }
  assert (2 ^ root = 2) as E2 by by rewrite Hr. rewrite E2 in *.
  split_and!; try done; try lia.
  - intros i w Hi Hw Hrev. destruct (Hcov i w) as [[? E]|[? _]]; [done..| |].
    + left. split; [done|]. rewrite E2 in *.
      assert (w mod 2 = 0) as E0.
      { apply Hiff; [done|]. replace i with 0 in Hrev by lia.
        rewrite st_succ, He0 in Hrev by lia. change (st 0) with 0 in Hrev. lia. }
      rewrite E0 in *. by rewrite aget_aset_ne by lia.
    + assert (i = 0) as -> by lia. lia.
  - intros j Hj Hout. rewrite aget_aset_ne by lia. by apply Hfr.
  - by rewrite zlen_aset.
  - intros w Hw Hge. unfold two_level, within, lookup. rewrite E2.
    assert (w mod 2 = 1) as ->.
    { pose proof (Z.mod_pos_bound w 2). destruct (decide (w mod 2 = 0)) as [E|]; [|lia].
      apply Hiff in E; [lia|done]. }
    rewrite aget_aset_eq by lia. change (is_link (Code 64 1 0)) with false. cbn [bits].
    split; [lia|]. split; [by intros E|done].
Qed.

(** The state the loop starts from. *)
Lemma init_inv min cnt : 0 < N → ell 0 = min → min ≤ root → zlen cnt = 16 →
  (∀ l, 0 ≤ l ≤ 15 → cnt.[l] = num lens codes l) → zlen tab0 = size →
  inv 0 (Fill 0 0 min t0 root 0 (u32 (-1)) (1 ≪ root) 0 cnt tab0).
Proof.
  intros HN Hmin Hr Hz Hcnt Hsz. split; cbn; try done; try lia.
  - split; [done|]. intros l Hl. rewrite Hcnt by lia. unfold rem, B. rewrite base_succ by lia.
    pose proof (num_nonneg lens codes l). pose proof (base_mono lens codes 1 l) as Hb.
    rewrite base_1 in Hb. lia.
  - apply Root; cbn; try done; [apply Z.shiftl_1_l|lia].
  - intros i w Hi. lia.
Qed.

(** The loop from its initial state, and the last entry. *)
Lemma loop_result min cnt : 0 < N → ell 0 = min → min ≤ root → zlen cnt = 16 →
  (∀ l, 0 ≤ l ≤ 15 → cnt.[l] = num lens codes l) → zlen tab0 = size → N ≤ codes →
  kraft lens codes = 2 ^ 15 ∨ (kraft lens codes < 2 ^ 15 ∧ max = 1) →
  ∃ c, fill_tables type lens work t0 root max (Z.to_nat codes)
         (Fill 0 0 min t0 root 0 (u32 (-1)) (1 ≪ root) 0 cnt tab0) = Some c ∧
  match c with
  | Continue _ => False
  | Return r _ => r = 1 ∧ outgrown
  | Break s =>
      zlen (fill_invalid s) = size ∧ frame (fill_invalid s) ∧
      2 ^ root ≤ used s ≤ Z.max limit (2 ^ root) ∧
      ∀ w, 0 ≤ w < 2 ^ 15 → decodes type lens codes (fill_invalid s) t0 root w ∧
        within (fill_invalid s) t0 root (used s) w
  end.
Proof.
  intros HN Hmin Hminroot Hcz Hcnt Hsz HNc Hcase.
  destruct (fill_tables_spec (Z.to_nat codes) 0 _ (init_inv min cnt HN Hmin Hminroot Hcz Hcnt Hsz))
    as (c & Hc & Hres); [lia|].
  exists c. split; [done|]. destruct c as [s|s|r s]; [done| |done].
  destruct Hres as [Hpost Hlen].
  destruct (fill_invalid_spec s Hpost Hlen Hcase) as (Hcov & Hfr & Hsz' & Hus & Hinv).
  split_and!; try done; try lia. intros w Hw.
  destruct (decide (kraft lens codes ≤ rev w)) as [Hge|Hlt].
  { destruct (Hinv w Hw Hge) as (? & ? & ?). split; [|done]. split; [done|]. by right. }
  pose proof (rev_range w).
  destruct (interval_exists (rev w) N) as (i & Hi & Hrev); [lia| |].
  { unfold st, N. rewrite start_kraft. lia. }
  destruct (covered_lookup _ _ _ _ N i w Hcov) as (Htl & Hwi & nb & Hnb); [lia|lia|done|done|].
  split; [|done]. split; [done|]. left. rewrite zlen_sorted. by exists i, nb.
Qed.

End Loop.

(** ** inflate_table *)

(** What the callers ensure: lengths in range, a symbol count the type allows,
    a work area, and room for the largest table. *)
Record table_args (type : codetype) (lens : list Z) (codes : Z) (tab : list code)
    (t0 bits : Z) (work : list Z) : Prop := {
  args_lens : lengths_ok lens codes;
  args_codes : codes ≤ symbols type;
  args_work : codes ≤ zlen work;
  args_bits : 1 ≤ bits ≤ 15;
  args_t0 : 0 ≤ t0;
  args_room : match type with
    | CODES => t0 + 2 ^ bits ≤ zlen tab ∧ ∀ s, 0 ≤ s < codes → lens.[s] ≤ bits
    | LENS => t0 + ENOUGH_LENS ≤ zlen tab
    | DISTS => t0 + ENOUGH_DISTS ≤ zlen tab
    end
}.

(** The set of lengths is refused: over-subscribed, or incomplete without being
    a single code of one bit. *)
Definition refused (type : codetype) (lens : list Z) (codes : Z) : Prop :=
  2 ^ 15 < kraft lens codes ∨
  (0 < kraft lens codes < 2 ^ 15 ∧
   (type = CODES ∨ ∃ s, 0 ≤ s < codes ∧ 1 < lens.[s])).

Definition room (type : codetype) (bits : Z) : Z :=
  match type with CODES => 2 ^ bits | LENS => ENOUGH_LENS | DISTS => ENOUGH_DISTS end.

Lemma num_pos_iff lens codes l : lengths_ok lens codes →
  0 < num lens codes l ↔ ∃ s, 0 ≤ s < codes ∧ lens.[s] = l.
Proof.
  intros (Hc & _). unfold num. split.
  - intros Hpos. destruct (with_len lens codes l) as [|x xs] eqn:E; [done|].
    assert (x ∈ with_len lens codes l) as Hx by (apply list_elem_of_In; rewrite E; by left).
    apply list_elem_of_filter in Hx as [? Hx%elem_of_seqZ]. exists x. split; [lia|done].
  - intros (x & Hx & Hl). assert (x ∈ with_len lens codes l) as Hin.
    { apply list_elem_of_filter. split; [done|]. apply elem_of_seqZ. lia. }
    unfold zlen. destruct (with_len lens codes l); [by apply not_elem_of_nil in Hin|]. simpl. lia.
Qed.

Lemma kraft_zero lens codes : (∀ l, 0 < l ≤ 15 → num lens codes l = 0) →
  kraft lens codes = 0 ∧ base lens codes 16 = 0.
Proof.
  intros Hn. split.
  - apply (for_rule (λ _ acc, acc = 0)); [lia|done|]. intros l acc Hl ->. rewrite Hn by lia. lia.
  - apply (for_rule (λ _ acc, acc = 0)); [lia|done|]. intros l acc Hl ->. rewrite Hn by lia. lia.
Qed.

Lemma kraft_pos lens codes l : 1 ≤ l ≤ 15 → 0 < num lens codes l → 0 < kraft lens codes.
Proof.
  intros Hl Hn. pose proof (kraft_upto_mono lens codes (l + 1) 16) as H1.
  pose proof (kraft_upto_mono lens codes 1 l) as H2. change (kraft_upto lens codes 1) with 0 in H2.
  rewrite kraft_upto_succ in H1 by lia. assert (0 < 2 ^ (15 - l)) by lia. unfold kraft. nia.
Qed.

Lemma shortest_first lens codes min : 1 ≤ min ≤ 15 → 0 < num lens codes min →
  (∀ l, 1 ≤ l < min → num lens codes l = 0) →
  0 < base lens codes 16 ∧ lens.[(sorted lens codes).[0]] = min.
Proof.
  intros Hm Hpos Hz. assert (base lens codes min = 0) as E.
  { apply (for_rule (λ _ acc, acc = 0)); [lia|done|]. intros l acc Hl ->. rewrite Hz by lia. lia. }
  pose proof (base_succ lens codes min). pose proof (base_mono lens codes (min + 1) 16).
  split; [lia|]. apply sorted_len; lia.
Qed.

(** The empty code: two invalid entries. *)
Lemma empty_decodes type lens codes tab t0 w : kraft lens codes = 0 → 0 ≤ t0 → t0 + 2 ≤ zlen tab →
  0 ≤ w < 2 ^ 15 →
  decodes type lens codes tab.[t0 <- Code 64 1 0].[t0 + 1 <- Code 64 1 0] t0 1 w ∧
  within tab.[t0 <- Code 64 1 0].[t0 + 1 <- Code 64 1 0] t0 1 2 w.
Proof.
  intros Hk Ht Hz Hw. pose proof (rev_range w). pose proof (Z.mod_pos_bound w 2).
  assert (tab.[t0 <- Code 64 1 0].[t0 + 1 <- Code 64 1 0].[t0 + w mod 2 ^ 1] = Code 64 1 0) as E.
  { change (2 ^ 1) with 2. destruct (decide (w mod 2 = 1)) as [->|].
    - by rewrite aget_aset_eq by (rewrite zlen_aset; lia).
    - assert (w mod 2 = 0) as -> by lia. rewrite aget_aset_ne, Z.add_0_r, aget_aset_eq by lia. done. }
  unfold decodes, two_level, within, lookup. rewrite E. split; [|done].
  split; [done|]. right. rewrite Hk. split; [lia|done].
Qed.

Lemma refused_iff type lens codes max : lengths_ok lens codes → 1 ≤ max ≤ 15 →
  0 < num lens codes max → (∀ l, max < l ≤ 15 → num lens codes l = 0) →
  kraft lens codes ≤ 2 ^ 15 →
  refused type lens codes ↔ kraft lens codes < 2 ^ 15 ∧ (type = CODES ∨ max ≠ 1).
Proof.
  intros Hok Hm Hm2 Hm3 Hkr. pose proof (kraft_pos lens codes max Hm Hm2).
  assert ((∃ s, 0 ≤ s < codes ∧ 1 < lens.[s]) ↔ max ≠ 1) as Hmax1.
  { split.
    - intros (x & Hx & Hl) E1.
      assert (0 < num lens codes lens.[x]) as Hp by (apply num_pos_iff; eauto).
      assert (0 ≤ lens.[x] ≤ 15) by
        (destruct Hok as (_ & _ & Hl15); by apply Hl15).
      rewrite Hm3 in Hp by lia. lia.
    - intros Hne. apply num_pos_iff in Hm2 as (x & Hx & Hl); [|done]. exists x. lia. }
  unfold refused. rewrite Hmax1. split; [intros [?|[??]]; [lia|split; [lia|done]]|].
  intros [? ?]. right. split; [lia|done].
Qed.

(** The number of root bits, forced to lie within the code lengths. *)
Definition root_bits (bits min max : Z) : Z :=
  let root := if max <? bits then max else bits in if root <? min then min else root.

Lemma root_bits_range bits min max : 1 ≤ bits → 1 ≤ min ≤ max →
  1 ≤ root_bits bits min max ≤ max ∧ min ≤ root_bits bits min max ∧
  (max ≤ bits → root_bits bits min max = max).
Proof.
  intros. unfold root_bits.
  destruct (Z.ltb_spec max bits), (Z.ltb_spec max min), (Z.ltb_spec bits min); lia.
Qed.

(** The room the tables get. *)
Definition limit (type : codetype) : Z :=
  match type with CODES => 0 | LENS => ENOUGH_LENS | DISTS => ENOUGH_DISTS end.

Lemma room_facts type lens codes tab t0 bits work root max :
  table_args type lens codes tab t0 bits work → 0 < num lens codes max →
  (max ≤ bits → root = max) → not_enough type (1 ≪ root) = false →
  Z.max (limit type) (2 ^ root) ≤ room type bits ∧ t0 + room type bits ≤ zlen tab ∧
  limit type < 2 ^ 16 ∧
  match type with CODES => max ≤ root | LENS => limit type = ENOUGH_LENS
  | DISTS => limit type = ENOUGH_DISTS end.
Proof.
  intros [Hok Hcodes Hwork Hbits Ht0 Hroom] Hm2 Hroot Hne.
  rewrite Z.shiftl_1_l in Hne. unfold not_enough, limit, room in *.
  destruct type; simpl in Hne; unfold ENOUGH_LENS, ENOUGH_DISTS in *; [|split_and!; lia..].
  destruct Hroom as [Hz Hle]. apply num_pos_iff in Hm2 as (x & Hx & Hl); [|done].
  specialize (Hle x Hx). pose proof (Z.pow_le_mono_r 2 root bits). split_and!; lia.
Qed.

(** ** The room is enough

    What inflate() passes: at most 286 length and 30 distance symbols, with 9
    and 6 root bits. *)
Definition inflate_call (type : codetype) (codes bits : Z) : Prop :=
  match type with
  | CODES => True
  | LENS => codes ≤ 286 ∧ bits = 9
  | DISTS => codes ≤ 30 ∧ bits = 6
  end.

Section Enough.
  Context (lens : list Z) (codes bits min max : Z).
  Hypothesis Hok : lengths_ok lens codes.
  Hypothesis max_range : 1 ≤ max ≤ 15.
  Hypothesis max_pos : 0 < num lens codes max.
  Hypothesis min_range : 1 ≤ min ≤ max.
  Hypothesis min_first : ∀ l, 1 ≤ l < min → num lens codes l = 0.
  Hypothesis kraft_full : kraft lens codes = 2 ^ 15.

(** Codes of at least [l] bits use at most [2^-l] each. *)
Lemma start_span k d l : 0 ≤ k → 0 ≤ d → 0 ≤ l →
  (∀ i, k ≤ i < k + d → l ≤ lens.[(sorted lens codes).[i]]) →
  start lens codes (k + d) - start lens codes k ≤ d * 2 ^ (15 - l).
Proof.
  intros Hk Hd Hl0. pattern d. apply natlike_ind; [| |done].
  - intros _. rewrite Z.add_0_r. lia.
  - intros j Hj IH Hl. rewrite <-Z.add_1_r, Z.add_assoc, start_succ by lia.
    specialize (IH ltac:(intros; apply Hl; lia)).
    pose proof (Z.pow_le_mono_r 2 (15 - lens.[(sorted lens codes).[k + j]]) (15 - l)).
    specialize (Hl (k + j)). lia.
Qed.

Lemma sorted_from l k : 1 ≤ l ≤ 16 → base lens codes l ≤ k < base lens codes 16 →
  l ≤ lens.[(sorted lens codes).[k]].
Proof.
  intros Hl Hk. pose proof (base_mono lens codes 1 l) as Hb. rewrite base_1 in Hb.
  destruct (position_length lens codes k) as (m & Hm & Hkm); [lia|].
  destruct (sorted_len lens codes m k) as [-> _]; [done..|].
  destruct (decide (l ≤ m)); [done|]. pose proof (base_mono lens codes (m + 1) l). lia.
Qed.

Lemma start_0 : start lens codes 0 = 0.
Proof. done. Qed.

(** The shortest codes fill the code space, so they are not too long. *)
Lemma min_small l : 1 ≤ l ≤ 15 → codes < 2 ^ l → min < l.
Proof.
  intros Hl Hc. destruct (decide (min < l)) as [|Hn]; [done|exfalso].
  assert (base lens codes min = 0) as E.
  { apply (for_rule (λ _ acc, acc = 0)); [lia|done|]. intros i acc Hi ->. rewrite min_first by lia. lia. }
  destruct Hok as (Hc0 & _). pose proof (base_le lens codes 16).
  pose proof (start_span 0 (base lens codes 16) l) as Hsp. rewrite Z.add_0_l, start_kraft, start_0 in Hsp.
  assert (2 ^ 15 = 2 ^ l * 2 ^ (15 - l)) as E15 by (rewrite <-Z.pow_add_r by lia; f_equal; lia).
  assert (0 < 2 ^ (15 - l)) by lia.
  assert (kraft lens codes - 0 ≤ base lens codes 16 * 2 ^ (15 - l)) as Hle.
  { apply Hsp; [lia..|]. intros i Hi. transitivity min; [lia|]. apply sorted_from; lia. }
  rewrite kraft_full, E15 in Hle. nia.
Qed.

(** The number of symbols of the root table, from the space they must fill. *)
Lemma root_symbols root : 1 ≤ root < max →
  let k0 := base lens codes (root + 1) in
  (codes * 2 ^ (14 - root) < 2 ^ 14 → 2 ≤ k0) ∧
  (codes * 2 ^ (14 - root) < 2 ^ 13 → 3 ≤ k0).
Proof.
  intros Hr k0. destruct Hok as (Hc0 & _). pose proof (base_le lens codes 16) as HN.
  set (N := base lens codes 16) in *.
  pose proof (base_mono lens codes (root + 1) max) as Hb1. pose proof (base_succ lens codes max) as Hb2.
  pose proof (base_mono lens codes (max + 1) 16) as Hb3. fold k0 in Hb1. fold N in Hb3.
  pose proof (base_mono lens codes 1 (root + 1)) as Hb0. rewrite base_1 in Hb0. fold k0 in Hb0.
  assert (k0 < N) as HkN by lia.
  assert (start lens codes N - start lens codes k0 ≤ (N - k0) * 2 ^ (14 - root)) as Hsp.
  { pose proof (start_span k0 (N - k0) (root + 1)) as Hsp.
    assert (k0 + (N - k0) = N) as EN by lia. rewrite EN in Hsp.
    replace (15 - (root + 1)) with (14 - root) in Hsp by lia.
    apply Hsp; [lia..|]. intros i Hi. apply sorted_from; [lia|done]. }
  assert (start lens codes N = 2 ^ 15) as HsN by (rewrite <-kraft_full; apply start_kraft).
  rewrite HsN in Hsp.
  assert (0 < 2 ^ (14 - root)) as Hw by lia.
  assert ((N - k0) * 2 ^ (14 - root) ≤ codes * 2 ^ (14 - root)) as Hs2 by nia.
  assert (∀ k, 0 ≤ k → k ≤ k0 → start lens codes k < 2 ^ 15) as Hlt.
  { intros k Hk Hk'. pose proof (start_mono lens codes k k0). pose proof (start_mono lens codes (k0 + 1) N) as Hm.
    rewrite start_succ, HsN in Hm by lia.
    destruct (position_length lens codes k0) as (m & Hm1 & Hm2); [fold N; lia|].
    destruct (sorted_len lens codes m k0) as [Em _]; [done..|]. rewrite Em in Hm. assert (0 < 2 ^ (15 - m)) by lia. lia. }
  assert (∀ k, 0 ≤ k < N → ∃ l, 1 ≤ l ∧ start lens codes (k + 1) = start lens codes k + 2 ^ (15 - l)) as Hone.
  { intros k Hk. destruct (position_length lens codes k) as (m & Hm1 & Hm2); [done|].
    destruct (sorted_len lens codes m k) as [Em _]; [done..|]. exists m. split; [lia|].
    by rewrite start_succ, Em by lia. }
  destruct (Hone 0) as (a & Ha & E1); [lia|]. rewrite start_0, Z.add_0_l in E1.
  pose proof (Z.pow_le_mono_r 2 (15 - a) 14) as Hpa.
  split; intros Hsmall.
  - destruct (decide (k0 = 0)) as [E|]; [rewrite E, start_0 in Hsp; lia|].
    destruct (decide (k0 = 1)) as [E|]; [rewrite E, E1 in Hsp; lia|lia].
  - destruct (decide (k0 = 0)) as [E|]; [rewrite E, start_0 in Hsp; lia|].
    destruct (decide (k0 = 1)) as [E|]; [rewrite E, E1 in Hsp; lia|].
    destruct (decide (k0 = 2)) as [E|]; [|lia]. exfalso.
    destruct (Hone 1) as (b & Hb & E2); [lia|]. change (1 + 1) with 2 in E2. rewrite E1 in E2.
    specialize (Hlt 2 ltac:(lia) ltac:(lia)). rewrite E, E2 in Hsp. rewrite E2 in Hlt.
    destruct (decide (a = 1)) as [->|]; [destruct (decide (b = 1)) as [->|]|].
    + lia.
    + pose proof (Z.pow_le_mono_r 2 (15 - b) 13). lia.
    + pose proof (Z.pow_le_mono_r 2 (15 - a) 13). pose proof (Z.pow_le_mono_r 2 (15 - b) 14). lia.
Qed.

(** The tables of inflate() never outgrow the room. *)
Lemma never_outgrown type : inflate_call type codes bits →
  let root := root_bits bits min max in
  outgrown type lens codes root max ∨ (type ≠ CODES ∧ not_enough type (1 ≪ root) = true) → False.
Proof.
  intros Hcall root Hout. destruct Hok as (Hc0 & _). pose proof (base_le lens codes 16) as HN.
  assert (type ≠ CODES → root ≤ bits) as Hrb.
  { intros Hty. unfold root, root_bits. pose proof (min_small (bits + 1)) as Hms.
    destruct type; [done|..]; destruct Hcall as [? ->]; specialize (Hms ltac:(lia) ltac:(lia));
      destruct (Z.ltb_spec max 9), (Z.ltb_spec max 6), (Z.ltb_spec max min);
      try (destruct (Z.ltb_spec 9 min)); try (destruct (Z.ltb_spec 6 min)); lia. }
  destruct Hout as [(Hty & Hr & u & Hne & Hb & [v Hv])|[Hty Hne]].
  - destruct (root_bits_range bits min max) as (Hr1 & _ & Hr3);
      [destruct type; [done|simpl in Hcall; lia..]|lia|]. fold root in Hr1, Hr3.
    specialize (Hrb Hty). assert (root = bits) as Er.
    { unfold root, root_bits in *. destruct (Z.ltb_spec max bits), (Z.ltb_spec max min), (Z.ltb_spec bits min); lia. }
    rewrite Er in *. destruct (root_symbols bits) as [H2 H3]; [lia|].
    pose proof (excess_mono (max - bits) (15 - bits)) as Hex. unfold excess in *.
    destruct type; [done|..]; destruct Hcall as [Hcodes ->]; unfold not_enough in Hne;
      simpl in Hne; unfold ENOUGH_LENS, ENOUGH_DISTS in Hne.
    + specialize (H2 ltac:(lia)). lia.
    + specialize (H3 ltac:(lia)). lia.
  - specialize (Hrb Hty). rewrite Z.shiftl_1_l in Hne. unfold not_enough in Hne.
    destruct type; [done|..]; destruct Hcall as [Hcodes ->]; simpl in Hne.
    + pose proof (Z.pow_le_mono_r 2 root 9). unfold ENOUGH_LENS in Hne. lia.
    + pose proof (Z.pow_le_mono_r 2 root 6). unfold ENOUGH_DISTS in Hne. lia.
Qed.

End Enough.

(** Everything inflate_table does, on every branch. *)
Lemma inflate_table_spec type lens codes tab t0 bits work :
  table_args type lens codes tab t0 bits work →
  ∃ r, inflate_table type lens codes tab t0 bits work = Some r ∧
  zlen (rwork r) = zlen work ∧
  ((ret r = -1 ∧ refused type lens codes ∧ table r = tab) ∨
   (ret r = 1 ∧ ¬ refused type lens codes ∧ type ≠ CODES ∧ ¬ inflate_call type codes bits) ∨
   (ret r = 0 ∧ ¬ refused type lens codes ∧ zlen (table r) = zlen tab ∧ 1 ≤ rbits r ≤ 15 ∧
    0 < advance r ≤ room type bits ∧
    (∀ j, 0 ≤ j → j < t0 ∨ t0 + room type bits ≤ j → (table r).[j] = tab.[j]) ∧
    2 ^ rbits r ≤ advance r ∧
    ∀ w, 0 ≤ w < 2 ^ 15 → decodes type lens codes (table r) t0 (rbits r) w ∧
      within (table r) t0 (rbits r) (advance r) w)).
Proof.
  intros Hargs. pose proof Hargs as [Hok Hcodes Hwork Hbits Ht0 Hroom]. unfold inflate_table.
  destruct (find_max_spec lens codes Hok) as (Hm1 & Hm2 & Hm3).
  destruct (count_lengths_spec lens codes Hok) as [Hcz Hcnt].
  set (cnt := count_lengths lens codes) in *. set (max := find_max cnt) in *.
  destruct (Z.eqb_spec max 0) as [E0|E0].
  { destruct (kraft_zero lens codes) as [Hk _]; [intros; apply Hm3; lia|].
    assert (2 ≤ room type bits ∧ t0 + room type bits ≤ zlen tab) as [Hr2 Hrz].
    { pose proof (Z.pow_le_mono_r 2 1 bits). unfold room. destruct type; split; try done; try lia; apply Hroom. }
    eexists. split; [done|]. split; [done|]. right. right. cbn. split_and!; try done; try lia.
    - unfold refused. lia.
    - by rewrite !zlen_aset.
    - intros j Hj Hout. by rewrite !aget_aset_ne by lia.
    - intros w Hw. apply empty_decodes; [done|done|lia|done]. }
  specialize (Hm2 ltac:(lia)).
  destruct (find_min_spec lens codes Hok max) as (Hn1 & Hn2 & Hn3); [lia|done|].
  fold cnt in Hn1, Hn2, Hn3. set (min := find_min cnt max) in *.
  fold (root_bits bits min max). destruct (root_bits_range bits min max) as (Hroot & Hminroot & Hrm); [lia..|].
  unfold cnt. rewrite check_left_spec by done. fold cnt. set (root := root_bits bits min max) in *.
  destruct (Z.leb_spec (kraft lens codes) (2 ^ 15)) as [Hkr|Hkr]; cycle 1.
  { eexists. split; [done|]. split; [done|]. left. cbn. split_and!; try done. by left. }
  pose proof (refused_iff type lens codes max Hok ltac:(lia) Hm2 Hm3 Hkr) as Href.
  destruct ((0 <? 2 ^ 15 - kraft lens codes) && (bool_decide (type = CODES) || negb (max =? 1))) eqn:Ec.
  { eexists. split; [done|]. split; [done|]. left. cbn. split_and!; try done. apply Href.
    apply andb_true_iff in Ec as [Ec1 Ec2]. split; [lia|].
    apply orb_true_iff in Ec2 as [Ec2|Ec2]; [left; by apply bool_decide_eq_true in Ec2|right; lia]. }
  assert (¬ refused type lens codes) as Hnref.
  { rewrite Href. intros [H1 H2]. apply andb_false_iff in Ec as [Ec|Ec]; [lia|].
    apply orb_false_iff in Ec as [Ec1 Ec2]. apply bool_decide_eq_false in Ec1. destruct H2; [done|lia]. }
  destruct (sort_symbols_spec lens codes Hok work Hwork) as [Hwz Hws]. fold cnt in Hwz, Hws.
  destruct (sort_symbols lens codes (make_offs cnt) work) as [offs work'] eqn:Es. cbn [snd] in *.
  assert (kraft lens codes = 2 ^ 15 ∨ (kraft lens codes < 2 ^ 15 ∧ max = 1)) as Hcase.
  { destruct (decide (kraft lens codes = 2 ^ 15)); [by left|right].
    destruct (decide (max = 1)); [split; lia|]. exfalso. apply Hnref, Href. split; [lia|by right]. }
  assert (∀ P, inflate_call type codes bits → outgrown type lens codes root max ∨
    (type ≠ CODES ∧ not_enough type (1 ≪ root) = true) → P) as Hnever.
  { intros P Hcall Hout. exfalso. destruct Hcase as [Hfull|[_ E1]].
    - eapply (never_outgrown lens codes bits min max); try done; lia.
    - assert (root = 1) as Er by lia. rewrite Er in Hout.
      destruct Hout as [(_ & ? & _)|[Hty Hne]]; [lia|]. by destruct type. }
  destruct (not_enough type (1 ≪ root)) eqn:Hne.
  { eexists. split; [done|]. split; [done|]. right. left. cbn.
    assert (type ≠ CODES) as Hty by (by intros ->). split_and!; try done.
    intros Hcall. eapply Hnever; [done|]. by right. }
  destruct (room_facts _ _ _ _ _ _ _ root max Hargs Hm2 Hrm Hne) as (Hrr & Hrz & Hl16 & Hlt).
  destruct (shortest_first lens codes min) as [HN Hell]; [lia|done|done|].
  destruct (loop_result type lens codes work' t0 root max (limit type) (zlen tab) tab Hok Hcodes Hws
    Hkr ltac:(lia) Hm2 Hm3 Hroot ltac:(lia) Hlt ltac:(lia) min cnt HN Hell Hminroot Hcz Hcnt eq_refl)
    as (c & -> & Hc).
  { apply base_le; [|lia]. destruct Hok. lia. }
  { done. }
  destruct c as [s|s|r s]; [done| |].
  - destruct Hc as (Hsz & Hfr & Hus & Hdec). eexists. split; [done|]. split; [done|]. right. right. cbn.
    split_and!; try done; try lia. intros j Hj Hout. apply Hfr; lia.
  - destruct Hc as [-> Hout]. eexists. split; [done|]. split; [done|]. right. left.
    split_and!; [done..|apply Hout|]. intros Hcall. apply Hnever; [done|by left].
Qed.

(** C14. inflate_table always returns, and it returns -1 exactly for the sets of
    lengths that are over-subscribed or incomplete (an incomplete set is
    accepted only as a single one-bit length or distance code; the empty set is
    accepted), leaving the table untouched. On the arguments inflate() passes (at
    most 286 length symbols with 9 root bits, at most 30 distance symbols with
    6) the only other result is 0: the constants ENOUGH_LENS and ENOUGH_DISTS are
    large enough, and +1 is never returned. *)
Theorem inflate_table_verdict type lens codes tab t0 bits work :
  table_args type lens codes tab t0 bits work →
  ∃ r, inflate_table type lens codes tab t0 bits work = Some r ∧
    (ret r = -1 ↔ refused type lens codes) ∧ (ret r = -1 → table r = tab) ∧
    (inflate_call type codes bits → ¬ refused type lens codes → ret r = 0).
Proof.
  intros Hargs. destruct (inflate_table_spec _ _ _ _ _ _ _ Hargs) as (r & Hr & _ & Hcase).
  exists r. split; [done|].
  destruct Hcase as [(-> & ? & ?)|[(-> & ? & ? & ?)|(-> & ? & _)]]; naive_solver.
Qed.

(** A complete code of three distances, used by the witnesses. *)
Lemma example_args : table_args DISTS [1; 2; 2] 3 (replicate 600 (Code 0 0 0)) 0 6 (replicate 32 0).
Proof.
  split; unfold lengths_ok; try done; try (vm_compute; intuition congruence).
  split; [split; done|]. split; [done|]. intros s Hs.
  assert (s = 0 ∨ s = 1 ∨ s = 2) as [->|[->| ->]] by lia; vm_compute; split; discriminate.
Qed.

Lemma inflate_table_verdict_witness :
  ∃ r, inflate_table DISTS [1; 2; 2] 3 (replicate 600 (Code 0 0 0)) 0 6 (replicate 32 0) = Some r ∧
    (ret r = -1 ↔ refused DISTS [1; 2; 2] 3) ∧
    (ret r = -1 → table r = replicate 600 (Code 0 0 0)) ∧
    (inflate_call DISTS 3 6 → ¬ refused DISTS [1; 2; 2] 3 → ret r = 0).
Proof. apply inflate_table_verdict, example_args. Defined.

(** C4. When inflate_table returns 0, its two-level tables decode the canonical
    Huffman code of the lengths: a window of the next 15 input bits that begins
    with the code of a symbol is looked up as that symbol's entry (literal,
    end of block, or base and extra bits) using the symbol's length in bits, and
    any other window as an invalid code. The tables lie in the room given from
    [t0] on, and no other table entry changes. *)
Theorem inflate_table_decodes type lens codes tab t0 bits work r :
  table_args type lens codes tab t0 bits work →
  inflate_table type lens codes tab t0 bits work = Some r → ret r = 0 →
  (∀ w, 0 ≤ w < 2 ^ 15 → decodes type lens codes (table r) t0 (rbits r) w) ∧
  0 < advance r ≤ room type bits ∧ zlen (table r) = zlen tab ∧
  (∀ j, 0 ≤ j → j < t0 ∨ t0 + room type bits ≤ j → (table r).[j] = tab.[j]).
Proof.
  intros Hargs Hr H0. destruct (inflate_table_spec _ _ _ _ _ _ _ Hargs) as (r' & Hr' & _ & Hcase).
  assert (r' = r) as -> by congruence.
  destruct Hcase as [(? & _)|[(? & _)|(_ & _ & ? & _ & ? & ? & _ & Hd)]]; [lia..|].
  split_and!; try done; try lia. intros w Hw. by apply Hd.
Qed.

Lemma inflate_table_decodes_witness : ∃ r,
  inflate_table DISTS [1; 2; 2] 3 (replicate 600 (Code 0 0 0)) 0 6 (replicate 32 0) = Some r ∧
  decodes DISTS [1; 2; 2] 3 (table r) 0 (rbits r) 1.
Proof.
  eexists. split; [vm_compute; reflexivity|].
  eapply (inflate_table_decodes DISTS [1; 2; 2] 3 (replicate 600 (Code 0 0 0)) 0 6 (replicate 32 0));
    [apply example_args|vm_compute; reflexivity|reflexivity|lia].
Defined.

End InftreesDecode.
