(* ===== verification/Rfc1951.v ===== *)
(** * RFC 1951: the reference decoder

    The compressed format as its specification describes it, one bit at a
    time and without tables or buffers: the abstract specification inflate() is
    proved against. The bits still to read are a number whose low bit comes
    first (RFC 1951, 3.1.1) and how many they are. *)

From S2P Require Import Prelude Inftrees.

Module Rfc1951.
Import Inftrees.

(** ** Reading bits *)

Record bitstream := Bits { value : Z; avail : Z }.

Definition le_value (l : list Z) : Z := foldr (λ b v, b + 2 ^ 8 * v) 0 l.
Definition of_bytes (l : list Z) : bitstream := Bits (le_value l) (8 * zlen l).

(** A step that succeeds, lacks input, or finds an invalid stream. *)
Inductive result (A : Type) := Ok (x : A) (s : bitstream) | Short | Bad.
Arguments Ok {A} x s.
Arguments Short {A}.
Arguments Bad {A}.

Definition P (A : Type) : Type := bitstream → result A.
#[global] Instance P_ret : MRet P := λ A x s, Ok x s.
#[global] Instance P_bind : MBind P := λ A B f p s,
  match p s with
  | Ok x s => f x s
  | Short => Short
  | Bad => Bad
  end.
Definition bad {A} : P A := λ _, Bad.

Definition dropped (n : Z) (s : bitstream) : bitstream := Bits (value s / 2 ^ n) (avail s - n).

(** An [n]-bit number, low bit first. *)
Definition get (n : Z) : P Z := λ s,
  if avail s <? n then Short else Ok (value s mod 2 ^ n) (dropped n s).

(** The bits up to the next byte boundary are skipped. *)
Definition align (s : bitstream) : bitstream := dropped (avail s mod 8) s.

(** ** Huffman codes (3.2.2)

    [lens] gives the code length of each of [n] symbols. Codes of a length are
    consecutive and begin where those of the shorter lengths end; a code comes
    high bit first. After [len] bits were read as [code], [first] is the first
    code of that length. *)

Definition longest (lens : list Z) (n : Z) : Z := foldr Z.max 0 (map (λ s, lens.[s]) (seqZ 0 n)).

Fixpoint symbol_from (fuel : nat) (lens : list Z) (n len code first : Z) : P Z :=
  match fuel with
  | O => bad
  | S fuel =>
      b ← get 1;
      let code := code + b in
      let count := num lens n len in
      if code - first <? count then mret (with_len lens n len).[code - first]
      else symbol_from fuel lens n (len + 1) (2 * code) (2 * (first + count))
  end.

Definition symbol (lens : list Z) (n : Z) : P Z :=
  symbol_from (Z.to_nat (Z.max 1 (longest lens n))) lens n 1 0 0.

(** The code is complete; or it has no code at all; or it is a length or
    distance code with a single code, of one bit (3.2.7). *)
Definition accept (type : codetype) (kraft longest : Z) : bool :=
  (kraft =? 2 ^ 15) || (kraft =? 0)
  || ((kraft <? 2 ^ 15) && negb (bool_decide (type = CODES)) && (longest =? 1)).
Definition acceptable (type : codetype) (lens : list Z) (n : Z) : bool :=
  accept type (kraft lens n) (longest lens n).

(** ** Lengths and distances (3.2.5) *)

Definition len_extra (s : Z) : Z := if (s <? 265) || (s =? 285) then 0 else (s - 261) / 4.
Definition len_base (s : Z) : Z :=
  if s <? 265 then s - 254 else if s =? 285 then 258
  else 2 ^ len_extra s * (4 + (s - 265) mod 4) + 3.
Definition dist_extra (d : Z) : Z := if d <? 4 then 0 else d / 2 - 1.
Definition dist_base (d : Z) : Z :=
  if d <? 4 then d + 1 else 2 ^ dist_extra d * (2 + d mod 2) + 1.

(** The bytes a match of length [n] and distance [dist] adds to the history
    [h], one at a time: a match may overlap itself. *)
Fixpoint lz_bytes (n : nat) (dist : Z) (h : list Z) : list Z :=
  match n with
  | O => []
  | S n => let b := h.[zlen h - dist] in b :: lz_bytes n dist (h ++ [b])
  end.

(** ** Compressed data

    The state of a decoder: the output so far, after the history [hist], and
    the rest of the input. *)

Inductive outcome :=
  | Done (out : list Z) (s : bitstream)
  | Starved (out : list Z)
  | Invalid (out : list Z).

(** One literal or match: the bytes it adds, or [None] at the end of the block. *)
Definition code_step (ll : list Z) (nl : Z) (ld : list Z) (nd : Z) (h : list Z) : P (option (list Z)) :=
  sym ← symbol ll nl;
  if sym <? 256 then mret (Some [sym])
  else if sym =? 256 then mret None
  else if 285 <? sym then bad
  else
    e ← get (len_extra sym);
    let len := len_base sym + e in
    d ← symbol ld nd;
    if 29 <? d then bad
    else
      e ← get (dist_extra d);
      let dist := dist_base d + e in
      if zlen h <? dist then bad else mret (Some (lz_bytes (Z.to_nat len) dist h)).

(** A block of literals and matches; every code takes a bit at least. *)
Fixpoint codes_fuel (fuel : nat) (ll : list Z) (nl : Z) (ld : list Z) (nd : Z) (hist out : list Z)
    (s : bitstream) : outcome :=
  match fuel with
  | O => Starved out
  | S fuel =>
      match code_step ll nl ld nd (hist ++ out) s with
      | Short => Starved out
      | Bad => Invalid out
      | Ok None s => Done out s
      | Ok (Some b) s => codes_fuel fuel ll nl ld nd hist (out ++ b) s
      end
  end.
Definition codes (ll : list Z) (nl : Z) (ld : list Z) (nd : Z) (hist out : list Z) (s : bitstream)
    : outcome :=
  codes_fuel (S (Z.to_nat (avail s))) ll nl ld nd hist out s.

(** Stored bytes (3.2.4). *)
Fixpoint stored_bytes (n : nat) (out : list Z) (s : bitstream) : outcome :=
  match n with
  | O => Done out s
  | S n =>
      match get 8 s with
      | Ok b s => stored_bytes n (out ++ [b]) s
      | Short => Starved out
      | Bad => Invalid out
      end
  end.
Definition stored (out : list Z) (s : bitstream) : outcome :=
  match (len ← get 16; nlen ← get 16; mret (len, nlen)) (align s) with
  | Ok (len, nlen) s =>
      if len =? (nlen .^ 0xffff) then stored_bytes (Z.to_nat len) out s else Invalid out
  | Short => Starved out
  | Bad => Invalid out
  end.

(** The fixed code (3.2.6). *)
Definition fixed_len (s : Z) : Z :=
  if s <? 144 then 8 else if s <? 256 then 9 else if s <? 280 then 7 else 8.
Definition fixed_ll : list Z := map fixed_len (seqZ 0 288).
Definition fixed_ld : list Z := replicate 32 5.

(** The code lengths of a dynamic block (3.2.7). *)
Definition order : list Z := [16; 17; 18; 0; 8; 7; 9; 6; 10; 5; 11; 4; 12; 3; 13; 2; 14; 1; 15].

Fixpoint read_cl (l : list Z) (cl : list Z) : P (list Z) :=
  match l with
  | [] => mret cl
  | i :: l => b ← get 3; read_cl l cl.[i <- b]
  end.

(** A code length. RFC 1951 does not say what a code length code without any
    code decodes; as in zlib, a bit is a length of zero then, and the block is
    refused for its missing end-of-block code once the lengths are read. *)
Definition length_symbol (cl : list Z) : P Z :=
  if longest cl 19 =? 0 then b ← get 1; mret 0 else symbol cl 19.

Fixpoint read_lengths (fuel : nat) (cl : list Z) (total : Z) (acc : list Z) : P (list Z) :=
  match fuel with
  | O => bad
  | S fuel =>
      if zlen acc <? total then
        sym ← length_symbol cl;
        if sym <? 16 then read_lengths fuel cl total (acc ++ [sym])
        else
          '(v, n) ← (if sym =? 16 then
                       r ← get 2;
                       if zlen acc =? 0 then bad else mret (acc.[zlen acc - 1], 3 + r)
                     else if sym =? 17 then r ← get 3; mret (0, 3 + r)
                     else r ← get 7; mret (0, 11 + r));
          if total <? zlen acc + n then bad
          else read_lengths fuel cl total (acc ++ replicate (Z.to_nat n) v)
      else mret acc
  end.

(** The lengths of the literal/length code and of the distance code. *)
Definition dynamic : P (list Z * list Z) :=
  hlit ← get 5; hdist ← get 5; hclen ← get 4;
  let nl := hlit + 257 in
  let nd := hdist + 1 in
  if (286 <? nl) || (30 <? nd) then bad
  else
    cl ← read_cl (take (Z.to_nat (hclen + 4)) order) (replicate 19 0);
    if negb (acceptable CODES cl 19) then bad
    else
      lens ← read_lengths (S (Z.to_nat (nl + nd))) cl (nl + nd) [];
      let ll := take (Z.to_nat nl) lens in
      let ld := drop (Z.to_nat nl) lens in
      if ll.[256] =? 0 then bad
      else if negb (acceptable LENS ll nl) || negb (acceptable DISTS ld nd) then bad
      else mret (ll, ld).

(** The data of a block of a type. *)
Definition block (type : Z) (hist out : list Z) (s : bitstream) : outcome :=
  if type =? 0 then stored out s
  else if type =? 1 then codes fixed_ll 288 fixed_ld 32 hist out s
  else if type =? 2 then
    match dynamic s with
    | Ok (ll, ld) s => codes ll (zlen ll) ld (zlen ld) hist out s
    | Short => Starved out
    | Bad => Invalid out
    end
  else Invalid out.

(** The blocks up to the last one (3.2.3), each with a header of three bits. *)
Fixpoint blocks_fuel (fuel : nat) (hist out : list Z) (s : bitstream) : outcome :=
  match fuel with
  | O => Starved out
  | S fuel =>
      match (last ← get 1; type ← get 2; mret (last, type)) s with
      | Short => Starved out
      | Bad => Invalid out
      | Ok (last, type) s =>
          match block type hist out s with
          | Done out s => if last =? 1 then Done out (align s) else blocks_fuel fuel hist out s
          | o => o
          end
      end
  end.
Definition blocks (hist : list Z) (s : bitstream) : outcome :=
  blocks_fuel (S (Z.to_nat (avail s))) hist [] s.

(** The output of a decoder, and the bytes it has not read at the end. *)
Definition output (o : outcome) : list Z :=
  match o with Done out _ | Starved out | Invalid out => out end.

(** ** How much a step reads *)

(** [s'] is what is left of [s] after [lo] bits at least were read. *)
Definition rest_of (lo : Z) (s s' : bitstream) : Prop := ∃ c, lo ≤ c ≤ avail s ∧ s' = dropped c s.

Lemma dropped_dropped a b s : 0 ≤ a → 0 ≤ b → dropped a (dropped b s) = dropped (b + a) s.
Proof.
  intros. unfold dropped. simpl. rewrite Z.div_div, <-Z.pow_add_r by lia. f_equal. lia.
Qed.

Lemma rest_refl s : 0 ≤ avail s → rest_of 0 s s.
Proof.
  intros. exists 0. split; [lia|]. unfold dropped. rewrite Z.div_1_r, Z.sub_0_r. by destruct s.
Qed.

Lemma rest_trans lo lo' s s1 s2 : 0 ≤ lo → 0 ≤ lo' → rest_of lo s s1 → rest_of lo' s1 s2 → rest_of (lo + lo') s s2.
Proof.
  intros Hl Hl' (c & Hc & ->) (c' & Hc' & ->). simpl in Hc'. exists (c + c'). split; [lia|].
  apply dropped_dropped; lia.
Qed.

Lemma rest_weaken lo lo' s s' : lo' ≤ lo → rest_of lo s s' → rest_of lo' s s'.
Proof. intros Hl (c & Hc & ->). exists c. split; [lia|done]. Qed.

Lemma rest_avail lo s s' : rest_of lo s s' → 0 ≤ avail s' ≤ avail s - lo.
Proof. intros (c & Hc & ->). simpl. lia. Qed.

Lemma bind_get {A} n (f : Z → P A) s :
  (get n ≫= f) s = if avail s <? n then Short else f (value s mod 2 ^ n) (dropped n s).
Proof. unfold mbind, P_bind, get. by destruct (avail s <? n). Qed.

Lemma get_rest n s x s' : 0 ≤ n → get n s = Ok x s' → rest_of n s s' ∧ 0 ≤ x < 2 ^ n.
Proof.
  intros Hn. unfold get. destruct (Z.ltb_spec (avail s) n); [done|]. intros [= <- <-].
  split; [exists n; split; [lia|done]|apply Z.mod_pos_bound; lia].
Qed.

Lemma get_not_bad n s : get n s ≠ Bad.
Proof. unfold get. by case_match. Qed.

Lemma with_len_nonneg lens n l i : 0 ≤ (with_len lens n l).[i].
Proof.
  unfold aget. rewrite list_lookup_total_alt.
  destruct (with_len lens n l !! Z.to_nat i) as [x|] eqn:E; [|done]. simpl.
  apply list_elem_of_lookup_2, list_elem_of_filter in E as [_ Hx%elem_of_seqZ]. lia.
Qed.

Lemma symbol_from_rest fuel lens n len code first s y s' :
  symbol_from fuel lens n len code first s = Ok y s' → rest_of 1 s s' ∧ 0 ≤ y.
Proof.
  revert len code first s. induction fuel as [|fuel IH]; intros len code first s; [done|].
  cbn [symbol_from]. unfold mbind, P_bind. destruct (get 1 s) as [b s1| |] eqn:Eg; [|done..].
  apply get_rest in Eg as [Hr _]; [|lia]. case_match.
  - intros [= <- <-]. split; [done|apply with_len_nonneg].
  - intros [Hr' ?]%IH. split; [|done]. eapply rest_weaken; [|by eapply rest_trans; [..|done|done]]; lia.
Qed.

Lemma symbol_rest lens n s y s' : symbol lens n s = Ok y s' → rest_of 1 s s' ∧ 0 ≤ y.
Proof. apply symbol_from_rest. Qed.

Lemma zlen_lz_bytes n dist h : zlen (lz_bytes n dist h) = Z.of_nat n.
Proof.
  revert h. induction n as [|n IH]; intros h; [done|]. cbn [lz_bytes]. rewrite zlen_cons, IH. lia.
Qed.

Lemma len_values y : 257 ≤ y ≤ 285 →
  0 ≤ len_extra y ≤ 5 ∧ 3 ≤ len_base y ∧
  len_base y + 2 ^ len_extra y - 1 ≤ 258.
Proof.
  intros Hy. assert (forall_range (λ y, (0 <=? len_extra y) && (len_extra y <=? 5)
    && (3 <=? len_base y)
    && (len_base y + 2 ^ len_extra y - 1 <=? 258)) 257 29 = true) as H
    by (vm_compute; reflexivity).
  apply (forall_range_spec _ _ _ y) in H; [|lia]. cbv beta in H. lia.
Qed.

Lemma dist_values d : 0 ≤ d ≤ 29 → 0 ≤ dist_extra d ≤ 13 ∧ 1 ≤ dist_base d.
Proof.
  intros Hd. assert (forall_range (λ d, (0 <=? dist_extra d) && (dist_extra d <=? 13)
    && (1 <=? dist_base d)) 0 30 = true) as H by (vm_compute; reflexivity).
  apply (forall_range_spec _ _ _ d) in H; [|lia]. cbv beta in H. lia.
Qed.


(** ** The bits a code takes and the bytes it gives *)

Lemma code_step_rest ll nl ld nd h s o s' : code_step ll nl ld nd h s = Ok o s' →
  rest_of 1 s s' ∧ zlen (default [] o) ≤ 258.
Proof.
  unfold code_step, mbind, P_bind, mret, P_ret, bad.
  destruct (symbol ll nl s) as [y s1| |] eqn:E1; [|done..]. apply symbol_rest in E1 as [Hr1 Hy].
  destruct (Z.ltb_spec y 256); [by intros [= <- <-]|].
  destruct (Z.eqb_spec y 256); [by intros [= <- <-]|]. destruct (Z.ltb_spec 285 y); [done|].
  destruct (len_values y ltac:(lia)) as (Hle & Hlb & Hlen).
  destruct (get (len_extra y) s1) as [e s2| |] eqn:E2; [|done..]. apply get_rest in E2 as [Hr2 He]; [|lia].
  destruct (symbol ld nd s2) as [d s3| |] eqn:E3; [|done..]. apply symbol_rest in E3 as [Hr3 Hd].
  destruct (Z.ltb_spec 29 d); [done|]. destruct (dist_values d ltac:(lia)) as [Hde Hdb].
  destruct (get (dist_extra d) s3) as [x s4| |] eqn:E4; [|done..]. apply get_rest in E4 as [Hr4 Hx]; [|lia].
  case_match; [done|]. intros [= <- <-]. split; [|simpl; rewrite zlen_lz_bytes; lia].
  eapply (rest_weaken (1 + len_extra y + 1 + dist_extra d)); [lia|].
  repeat (eapply rest_trans; [lia|lia| |done]). done.
Qed.

(** Any fuel above the number of bits gives the same outcome. *)
Lemma codes_fuel_irrel n m ll nl ld nd hist out s : 0 ≤ avail s → avail s < Z.of_nat n → avail s < Z.of_nat m →
  codes_fuel n ll nl ld nd hist out s = codes_fuel m ll nl ld nd hist out s.
Proof.
  revert m out s. induction n as [|n IH]; intros m out s Ha Hn Hm; [lia|].
  destruct m as [|m]; [lia|]. cbn [codes_fuel].
  destruct (code_step ll nl ld nd (hist ++ out) s) as [[b|] s'| |] eqn:E; [|done..].
  apply code_step_rest in E as [Hr%rest_avail _]. apply IH; lia.
Qed.

Lemma codes_eq ll nl ld nd hist out s : 0 ≤ avail s →
  codes ll nl ld nd hist out s =
  match code_step ll nl ld nd (hist ++ out) s with
  | Short => Starved out
  | Bad => Invalid out
  | Ok None s => Done out s
  | Ok (Some b) s => codes ll nl ld nd hist (out ++ b) s
  end.
Proof.
  intros Ha. unfold codes at 1. cbn [codes_fuel].
  destruct (code_step ll nl ld nd (hist ++ out) s) as [[b|] s'| |] eqn:E; [|done..].
  apply code_step_rest in E as [Hr%rest_avail _]. apply codes_fuel_irrel; lia.
Qed.

(** Codes that decode alike. *)
Lemma codes_ext ll nl ld nd ll' ld' hist out s :
  (∀ s, symbol ll nl s = symbol ll' nl s) → (∀ s, symbol ld nd s = symbol ld' nd s) →
  codes ll nl ld nd hist out s = codes ll' nl ld' nd hist out s.
Proof.
  intros Hl Hd. unfold codes. generalize (S (Z.to_nat (avail s))). intros n. revert out s.
  induction n as [|n IH]; intros out s; [done|]. cbn [codes_fuel].
  assert (code_step ll nl ld nd (hist ++ out) s = code_step ll' nl ld' nd (hist ++ out) s) as ->.
  { unfold code_step, mbind, P_bind. rewrite Hl. destruct (symbol ll' nl s) as [y s1| |]; [|done..].
    destruct (y <? 256), (y =? 256), (285 <? y); try done.
    destruct (get (len_extra y) s1) as [e s2| |]; [|done..]. by rewrite Hd. }
  destruct (code_step ll' nl ld' nd (hist ++ out) s) as [[b|] s'| |]; [apply IH|done..].
Qed.

Lemma codes_prefix ll nl ld nd hist out s : out `prefix_of` output (codes ll nl ld nd hist out s).
Proof.
  unfold codes. generalize (S (Z.to_nat (avail s))). intros n. revert out s.
  induction n as [|n IH]; intros out s; [done|]. cbn [codes_fuel].
  destruct (code_step ll nl ld nd (hist ++ out) s) as [[b|] s'| |]; try done.
  etransitivity; [|apply IH]. by exists b.
Qed.

(** ** Blocks *)

(** A reader that does not read more than there is, and not backwards. *)
Definition shrinks {A} (p : P A) : Prop := ∀ s x s', 0 ≤ avail s → p s = Ok x s' → rest_of 0 s s'.

Lemma shrinks_ret {A} (x : A) : shrinks (mret x).
Proof. intros s y s' Hs [= <- <-]. by apply rest_refl. Qed.

Lemma shrinks_bad {A} : shrinks (bad (A:=A)).
Proof. by intros s y s' Hs. Qed.

Lemma shrinks_bind {A B} (p : P A) (f : A → P B) : shrinks p → (∀ x, shrinks (f x)) → shrinks (p ≫= f).
Proof.
  intros Hp Hf s y s' Hs. unfold mbind, P_bind. destruct (p s) as [x s1| |] eqn:E; [|done..]. intros E2.
  pose proof (Hp _ _ _ Hs E) as H1. pose proof (rest_avail _ _ _ H1).
  apply (rest_trans 0 0 s s1 s'); [done..|]. eapply Hf; [|done]. lia.
Qed.

Lemma shrinks_get n : 0 ≤ n → shrinks (get n).
Proof. intros Hn s x s' Hs [Hr _]%get_rest; [|done]. by eapply rest_weaken; [|done]. Qed.

Lemma shrinks_symbol lens n : shrinks (symbol lens n).
Proof. intros s x s' Hs [Hr _]%symbol_rest. by eapply rest_weaken; [|done]. Qed.

Lemma shrinks_if {A} (b : bool) (p q : P A) : shrinks p → shrinks q → shrinks (if b then p else q).
Proof. by destruct b. Qed.

Create HintDb shrinks.
#[export] Hint Resolve shrinks_ret shrinks_bad shrinks_bind shrinks_get shrinks_symbol shrinks_if : shrinks.
#[export] Hint Extern 1 (0 ≤ _) => lia : shrinks.

Lemma shrinks_lengths fuel cl total acc : shrinks (read_lengths fuel cl total acc).
Proof.
  revert acc. induction fuel as [|fuel IH]; intros acc; cbn [read_lengths]; unfold length_symbol; [auto with shrinks|].
  apply shrinks_if; [|auto with shrinks]. apply shrinks_bind; [auto 6 with shrinks|]. intros y.
  apply shrinks_if; [done|]. apply shrinks_bind; [auto 8 with shrinks|]. intros [v n].
  apply shrinks_if; auto with shrinks.
Qed.

Lemma shrinks_cl l cl : shrinks (read_cl l cl).
Proof. revert cl. induction l as [|i l IH]; intros cl; cbn [read_cl]; auto with shrinks. Qed.

Lemma shrinks_dynamic : shrinks dynamic.
Proof.
  unfold dynamic. repeat (apply shrinks_bind; [auto with shrinks|]; intros ?). apply shrinks_if; [auto with shrinks|].
  apply shrinks_bind; [apply shrinks_cl|]. intros cl. apply shrinks_if; [auto with shrinks|].
  apply shrinks_bind; [apply shrinks_lengths|]. intros lens. auto with shrinks.
Qed.

Lemma codes_rest ll nl ld nd hist out s out' s' : 0 ≤ avail s →
  codes ll nl ld nd hist out s = Done out' s' → rest_of 0 s s'.
Proof.
  intros Hs. unfold codes. generalize (S (Z.to_nat (avail s))). intros n. revert out s Hs.
  induction n as [|n IH]; intros out s Hs; [done|]. cbn [codes_fuel].
  destruct (code_step ll nl ld nd (hist ++ out) s) as [[b|] s1| |] eqn:E; [|..|done|done];
    apply code_step_rest in E as [Hr _]; pose proof (rest_avail _ _ _ Hr).
  - intros H1%IH; [|lia]. eapply (rest_weaken (1 + 0)); [lia|]. by eapply rest_trans.
  - intros [= <- <-]. by eapply rest_weaken; [|done].
Qed.

Lemma stored_bytes_rest n out s out' s' : 0 ≤ avail s → stored_bytes n out s = Done out' s' → rest_of 0 s s'.
Proof.
  revert out s. induction n as [|n IH]; intros out s Hs; cbn [stored_bytes].
  - intros [= <- <-]. by apply rest_refl.
  - destruct (get 8 s) as [b s1| |] eqn:E; [|done..]. apply get_rest in E as [Hr _]; [|lia].
    pose proof (rest_avail _ _ _ Hr). intros H1%IH; [|lia].
    eapply (rest_weaken (8 + 0)); [lia|]. by eapply rest_trans.
Qed.

Lemma align_rest s : 0 ≤ avail s → rest_of 0 s (align s).
Proof.
  intros Hs. pose proof (Z.mod_pos_bound (avail s) 8 ltac:(lia)). pose proof (Z.mod_le (avail s) 8 Hs ltac:(lia)).
  exists (avail s mod 8). split; [lia|done].
Qed.

Lemma block_rest type hist out s out' s' : 0 ≤ avail s → block type hist out s = Done out' s' → rest_of 0 s s'.
Proof.
  intros Hs. unfold block. destruct (type =? 0).
  - pose proof (align_rest s Hs) as Ha. pose proof (rest_avail _ _ _ Ha). unfold stored.
    assert (shrinks (len ← get 16; nlen ← get 16; mret (len, nlen))) as Hp by auto 6 with shrinks.
    destruct ((len ← get 16; nlen ← get 16; mret (len, nlen)) (align s)) as [[x y] s1| |] eqn:E; [|done..].
    apply Hp in E; [|lia]. pose proof (rest_avail _ _ _ E). destruct (_ =? _); [|done]. intros H1%stored_bytes_rest; [|lia].
    apply (rest_trans 0 0 s (align s)); [done..|]. by apply (rest_trans 0 0 _ s1).
  - destruct (type =? 1); [by apply codes_rest|]. destruct (type =? 2); [|done].
    destruct (dynamic s) as [[ll ld] s1| |] eqn:E; [|done..]. apply shrinks_dynamic in E; [|done].
    pose proof (rest_avail _ _ _ E). intros H1%codes_rest; [|lia]. by apply (rest_trans 0 0 _ s1).
Qed.

(** *** The output only grows *)

Lemma stored_bytes_prefix n out s : out `prefix_of` output (stored_bytes n out s).
Proof.
  revert out s. induction n as [|n IH]; intros out s; cbn [stored_bytes]; [done|].
  destruct (get 8 s) as [b s1| |]; [|done..]. etransitivity; [|apply IH]. by exists [b].
Qed.

Lemma block_prefix type hist out s : out `prefix_of` output (block type hist out s).
Proof.
  unfold block, stored. destruct (type =? 0).
  - destruct ((len ← get 16; nlen ← get 16; mret (len, nlen)) (align s)) as [[x y] s1| |]; [|done..].
    destruct (_ =? _); [apply stored_bytes_prefix|done].
  - destruct (type =? 1); [apply codes_prefix|]. destruct (type =? 2); [|done].
    destruct (dynamic s) as [[ll ld] s1| |]; [apply codes_prefix|done..].
Qed.

Lemma blocks_prefix n hist out s : out `prefix_of` output (blocks_fuel n hist out s).
Proof.
  revert out s. induction n as [|n IH]; intros out s; cbn [blocks_fuel]; [done|].
  destruct ((last ← get 1; type ← get 2; mret (last, type)) s) as [[l t] s1| |]; [|done..].
  pose proof (block_prefix t hist out s1) as Hp. destruct (block t hist out s1) as [out1 s2| |]; [|done..].
  simpl in Hp. destruct (l =? 1); [done|]. by etransitivity; [|apply IH].
Qed.

Lemma blocks_rest n hist out s out' s' : 0 ≤ avail s → blocks_fuel n hist out s = Done out' s' → rest_of 0 s s'.
Proof.
  revert out s. induction n as [|n IH]; intros out s Hs; cbn [blocks_fuel]; [done|].
  assert (shrinks (last ← get 1; type ← get 2; mret (last, type))) as Hp by auto 6 with shrinks.
  destruct ((last ← get 1; type ← get 2; mret (last, type)) s) as [[l t] s1| |] eqn:E; [|done..].
  apply Hp in E; [|done]. pose proof (rest_avail _ _ _ E).
  destruct (block t hist out s1) as [out1 s2| |] eqn:Eb; [|done..]. apply block_rest in Eb; [|lia].
  pose proof (rest_avail _ _ _ Eb). assert (rest_of 0 s s2) as H2 by (by apply (rest_trans 0 0 _ s1)).
  destruct (l =? 1).
  - intros [= <- <-]. apply (rest_trans 0 0 _ s2); [done..|]. apply align_rest. lia.
  - intros H3%IH; [|lia]. by apply (rest_trans 0 0 _ s2).
Qed.

(** *** The output is bytes *)

Lemma lz_bytes_ok n dist h : 1 ≤ dist ≤ zlen h → bytes h → bytes (lz_bytes n dist h).
Proof.
  revert h. induction n as [|n IH]; intros h Hd Hh; cbn [lz_bytes]; [constructor|].
  assert (ubits 8 h.[zlen h - dist]) as Hb by (apply Forall_aget; [done|lia]).
  constructor; [done|]. apply IH; [rewrite zlen_app; pose proof (zlen_nonneg [h.[zlen h - dist]]); lia|].
  apply Forall_app. split; [done|by apply Forall_singleton].
Qed.

Lemma code_step_bytes ll nl ld nd h s b s' : bytes h → code_step ll nl ld nd h s = Ok (Some b) s' → bytes b.
Proof.
  intros Hh. unfold code_step, mbind, P_bind, mret, P_ret, bad.
  destruct (symbol ll nl s) as [y s1| |] eqn:E1; [|done..]. apply symbol_rest in E1 as [_ Hy].
  destruct (Z.ltb_spec y 256).
  { intros [= <- <-]. apply Forall_singleton. unfold ubits. lia. }
  destruct (y =? 256); [done|]. destruct (285 <? y); [done|].
  destruct (get (len_extra y) s1) as [e s2| |]; [|done..].
  destruct (symbol ld nd s2) as [d s3| |] eqn:E3; [|done..]. apply symbol_rest in E3 as [_ Hd].
  destruct (Z.ltb_spec 29 d); [done|]. destruct (dist_values d ltac:(lia)) as [Hde Hdb].
  destruct (get (dist_extra d) s3) as [x s4| |] eqn:E4; [|done..]. apply get_rest in E4 as [_ Hx]; [|lia].
  destruct (Z.ltb_spec (zlen h) (dist_base d + x)); [done|]. intros [= <- <-]. apply lz_bytes_ok; [lia|done].
Qed.

Lemma codes_bytes ll nl ld nd hist out s : bytes hist → bytes out → bytes (output (codes ll nl ld nd hist out s)).
Proof.
  intros Hh. unfold codes. generalize (S (Z.to_nat (avail s))). intros n. revert out s.
  induction n as [|n IH]; intros out s Ho; [done|]. cbn [codes_fuel].
  destruct (code_step ll nl ld nd (hist ++ out) s) as [[b|] s'| |] eqn:E; try done.
  apply code_step_bytes in E; [|by apply Forall_app]. apply IH. by apply Forall_app.
Qed.

Lemma block_bytes type hist out s : bytes hist → bytes out → bytes (output (block type hist out s)).
Proof.
  intros Hh Ho. unfold block, stored. destruct (type =? 0).
  - destruct ((len ← get 16; nlen ← get 16; mret (len, nlen)) (align s)) as [[x y] s1| |]; [|done..].
    destruct (_ =? _); [|done]. generalize (Z.to_nat x). intros n. revert out s1 Ho.
    induction n as [|n IH]; intros out s1 Ho; cbn [stored_bytes]; [done|].
    destruct (get 8 s1) as [b s2| |] eqn:E; [|done..]. apply get_rest in E as [_ Hb]; [|lia].
    apply IH. apply Forall_app. split; [done|by apply Forall_singleton].
  - destruct (type =? 1); [by apply codes_bytes|]. destruct (type =? 2); [|done].
    destruct (dynamic s) as [[ll ld] s1| |]; [by apply codes_bytes|done..].
Qed.

Lemma blocks_bytes n hist out s : bytes hist → bytes out → bytes (output (blocks_fuel n hist out s)).
Proof.
  intros Hh. revert out s. induction n as [|n IH]; intros out s Ho; cbn [blocks_fuel]; [done|].
  destruct ((last ← get 1; type ← get 2; mret (last, type)) s) as [[l t] s1| |]; [|done..].
  pose proof (block_bytes t hist out s1 Hh Ho) as Hp. destruct (block t hist out s1) as [out1 s2| |]; [|done..].
  simpl in Hp. destruct (l =? 1); [done|]. by apply IH.
Qed.

End Rfc1951.
