(* ===== verification/Rfc1950.v ===== *)
(** * RFC 1950: the zlib format

    The header, the compressed data and the checksum of a zlib stream, over the
    reference decoder of the compressed data. *)

From S2P Require Import Prelude Adler32 Crc32 Rfc1951.

Module Rfc1950.
Import Rfc1951.

(** A 32-bit number, most significant byte first (RFC 1950, 2.1). *)
Definition be32 : P Z :=
  a ← get 8; b ← get 8; c ← get 8; d ← get 8; mret (quad d c b a).

(** CMF and FLG (2.2): a check of 5 bits, the method "deflate", a window of at
    most [2^wbits] bytes; whether a dictionary is preset. *)
Definition header (wbits : Z) : P bool :=
  cmf ← get 8; flg ← get 8;
  if negb ((256 * cmf + flg) mod 31 =? 0) then bad
  else if negb (cmf mod 16 =? 8) then bad
  else if wbits <? cmf / 16 + 8 then bad
  else mret ((flg / 32) mod 2 =? 1).

(** The Adler-32 checksum of the output follows the compressed data. *)
Definition trailer (out : list Z) (s : bitstream) : outcome :=
  match be32 s with
  | Ok a s => if a =? Adler32.adler_ref 1 out then Done out s else Invalid out
  | Short => Starved out
  | Bad => Invalid out
  end.
Definition data (s : bitstream) : outcome :=
  match blocks [] s with
  | Done out s => trailer out s
  | o => o
  end.

(** A stream with a preset dictionary stops at the identifier of the dictionary. *)
Inductive zoutcome := Data (o : outcome) | NeedDict (id : Z).

Definition zlib (wbits : Z) (s : bitstream) : zoutcome :=
  match header wbits s with
  | Ok false s => Data (data s)
  | Ok true s => match be32 s with Ok id _ => NeedDict id | _ => Data (Starved []) end
  | Short => Data (Starved [])
  | Bad => Data (Invalid [])
  end.

(** ** Equations *)

Lemma be32_eq s : 0 ≤ avail s →
  be32 s = if avail s <? 32 then Short
    else Ok (Crc32.ZSWAP32 (value s mod 2 ^ 32)) (dropped 32 s).
Proof.
  intros Ha. unfold be32. repeat (rewrite bind_get; cbn [avail value dropped]).
  destruct (Z.ltb_spec (avail s) 32), (Z.ltb_spec (avail s) 8), (Z.ltb_spec (avail s - 8) 8),
    (Z.ltb_spec (avail s - 8 - 8) 8), (Z.ltb_spec (avail s - 8 - 8 - 8) 8); try done; try lia.
  rewrite !dropped_dropped by lia. unfold mret, P_ret. change (8 + 8 + 8 + 8) with 32. f_equal.
  set (V := value s). change (2 ^ 32) with (2 ^ (8 + (8 + (8 + 8)))).
  rewrite !mod_pow2_split, !Z.div_div by lia. change (2 ^ 8 * 2 ^ 8) with (2 ^ 16). change (2 ^ 16 * 2 ^ 8) with (2 ^ 24).
  change (2 ^ 8 * 2 ^ 16) with (2 ^ 24).
  symmetry. rewrite <-Crc32.swap_quad.
  - f_equal. unfold quad. lia.
  - rewrite !Forall_cons. split_and!; [apply Z.mod_pos_bound; lia..|done].
Qed.

Lemma header_eq wbits s : 0 ≤ avail s → let V := value s in
  let cmf := V mod 2 ^ 8 in let flg := (V / 2 ^ 8) mod 2 ^ 8 in
  header wbits s = if avail s <? 16 then Short
    else if negb ((256 * cmf + flg) mod 31 =? 0) || negb (cmf mod 16 =? 8) || (wbits <? cmf / 16 + 8) then Bad
    else Ok ((flg / 32) mod 2 =? 1) (dropped 16 s).
Proof.
  intros Ha. unfold header. rewrite bind_get.
  destruct (Z.ltb_spec (avail s) 16), (Z.ltb_spec (avail s) 8); try done; try lia; rewrite bind_get; cbn [avail dropped].
  - by destruct (Z.ltb_spec (avail s - 8) 8); [|lia].
  - destruct (Z.ltb_spec (avail s - 8) 8); [lia|]. rewrite dropped_dropped by lia. cbn [value dropped].
    destruct (negb _); [done|]. destruct (negb _); [done|]. by destruct (_ <? _).
Qed.

End Rfc1950.
