(* ===== verification/Inffixed.v ===== *)
(** * zlib/inffixed.h: the tables of the fixed code

    The checked-in tables, and that they are the ones [makefixed] writes: the
    tables inflate_table builds for the lengths of the fixed code, with the two
    length symbols that never occur marked invalid. *)

From S2P Require Import Prelude Inftrees.

Module Inffixed.
Import Inftrees.

Local Abbreviation C := Code.

Definition lenfix : list code := [
  C 96 7 0; C 0 8 80; C 0 8 16; C 20 8 115; C 18 7 31; C 0 8 112;
  C 0 8 48; C 0 9 192; C 16 7 10; C 0 8 96; C 0 8 32; C 0 9 160;
  C 0 8 0; C 0 8 128; C 0 8 64; C 0 9 224; C 16 7 6; C 0 8 88;
  C 0 8 24; C 0 9 144; C 19 7 59; C 0 8 120; C 0 8 56; C 0 9 208;
  C 17 7 17; C 0 8 104; C 0 8 40; C 0 9 176; C 0 8 8; C 0 8 136;
  C 0 8 72; C 0 9 240; C 16 7 4; C 0 8 84; C 0 8 20; C 21 8 227;
  C 19 7 43; C 0 8 116; C 0 8 52; C 0 9 200; C 17 7 13; C 0 8 100;
  C 0 8 36; C 0 9 168; C 0 8 4; C 0 8 132; C 0 8 68; C 0 9 232;
  C 16 7 8; C 0 8 92; C 0 8 28; C 0 9 152; C 20 7 83; C 0 8 124;
  C 0 8 60; C 0 9 216; C 18 7 23; C 0 8 108; C 0 8 44; C 0 9 184;
  C 0 8 12; C 0 8 140; C 0 8 76; C 0 9 248; C 16 7 3; C 0 8 82;
  C 0 8 18; C 21 8 163; C 19 7 35; C 0 8 114; C 0 8 50; C 0 9 196;
  C 17 7 11; C 0 8 98; C 0 8 34; C 0 9 164; C 0 8 2; C 0 8 130;
  C 0 8 66; C 0 9 228; C 16 7 7; C 0 8 90; C 0 8 26; C 0 9 148;
  C 20 7 67; C 0 8 122; C 0 8 58; C 0 9 212; C 18 7 19; C 0 8 106;
  C 0 8 42; C 0 9 180; C 0 8 10; C 0 8 138; C 0 8 74; C 0 9 244;
  C 16 7 5; C 0 8 86; C 0 8 22; C 64 8 0; C 19 7 51; C 0 8 118;
  C 0 8 54; C 0 9 204; C 17 7 15; C 0 8 102; C 0 8 38; C 0 9 172;
  C 0 8 6; C 0 8 134; C 0 8 70; C 0 9 236; C 16 7 9; C 0 8 94;
  C 0 8 30; C 0 9 156; C 20 7 99; C 0 8 126; C 0 8 62; C 0 9 220;
  C 18 7 27; C 0 8 110; C 0 8 46; C 0 9 188; C 0 8 14; C 0 8 142;
  C 0 8 78; C 0 9 252; C 96 7 0; C 0 8 81; C 0 8 17; C 21 8 131;
  C 18 7 31; C 0 8 113; C 0 8 49; C 0 9 194; C 16 7 10; C 0 8 97;
  C 0 8 33; C 0 9 162; C 0 8 1; C 0 8 129; C 0 8 65; C 0 9 226;
  C 16 7 6; C 0 8 89; C 0 8 25; C 0 9 146; C 19 7 59; C 0 8 121;
  C 0 8 57; C 0 9 210; C 17 7 17; C 0 8 105; C 0 8 41; C 0 9 178;
  C 0 8 9; C 0 8 137; C 0 8 73; C 0 9 242; C 16 7 4; C 0 8 85;
  C 0 8 21; C 16 8 258; C 19 7 43; C 0 8 117; C 0 8 53; C 0 9 202;
  C 17 7 13; C 0 8 101; C 0 8 37; C 0 9 170; C 0 8 5; C 0 8 133;
  C 0 8 69; C 0 9 234; C 16 7 8; C 0 8 93; C 0 8 29; C 0 9 154;
  C 20 7 83; C 0 8 125; C 0 8 61; C 0 9 218; C 18 7 23; C 0 8 109;
  C 0 8 45; C 0 9 186; C 0 8 13; C 0 8 141; C 0 8 77; C 0 9 250;
  C 16 7 3; C 0 8 83; C 0 8 19; C 21 8 195; C 19 7 35; C 0 8 115;
  C 0 8 51; C 0 9 198; C 17 7 11; C 0 8 99; C 0 8 35; C 0 9 166;
  C 0 8 3; C 0 8 131; C 0 8 67; C 0 9 230; C 16 7 7; C 0 8 91;
  C 0 8 27; C 0 9 150; C 20 7 67; C 0 8 123; C 0 8 59; C 0 9 214;
  C 18 7 19; C 0 8 107; C 0 8 43; C 0 9 182; C 0 8 11; C 0 8 139;
  C 0 8 75; C 0 9 246; C 16 7 5; C 0 8 87; C 0 8 23; C 64 8 0;
  C 19 7 51; C 0 8 119; C 0 8 55; C 0 9 206; C 17 7 15; C 0 8 103;
  C 0 8 39; C 0 9 174; C 0 8 7; C 0 8 135; C 0 8 71; C 0 9 238;
  C 16 7 9; C 0 8 95; C 0 8 31; C 0 9 158; C 20 7 99; C 0 8 127;
  C 0 8 63; C 0 9 222; C 18 7 27; C 0 8 111; C 0 8 47; C 0 9 190;
  C 0 8 15; C 0 8 143; C 0 8 79; C 0 9 254; C 96 7 0; C 0 8 80;
  C 0 8 16; C 20 8 115; C 18 7 31; C 0 8 112; C 0 8 48; C 0 9 193;
  C 16 7 10; C 0 8 96; C 0 8 32; C 0 9 161; C 0 8 0; C 0 8 128;
  C 0 8 64; C 0 9 225; C 16 7 6; C 0 8 88; C 0 8 24; C 0 9 145;
  C 19 7 59; C 0 8 120; C 0 8 56; C 0 9 209; C 17 7 17; C 0 8 104;
  C 0 8 40; C 0 9 177; C 0 8 8; C 0 8 136; C 0 8 72; C 0 9 241;
  C 16 7 4; C 0 8 84; C 0 8 20; C 21 8 227; C 19 7 43; C 0 8 116;
  C 0 8 52; C 0 9 201; C 17 7 13; C 0 8 100; C 0 8 36; C 0 9 169;
  C 0 8 4; C 0 8 132; C 0 8 68; C 0 9 233; C 16 7 8; C 0 8 92;
  C 0 8 28; C 0 9 153; C 20 7 83; C 0 8 124; C 0 8 60; C 0 9 217;
  C 18 7 23; C 0 8 108; C 0 8 44; C 0 9 185; C 0 8 12; C 0 8 140;
  C 0 8 76; C 0 9 249; C 16 7 3; C 0 8 82; C 0 8 18; C 21 8 163;
  C 19 7 35; C 0 8 114; C 0 8 50; C 0 9 197; C 17 7 11; C 0 8 98;
  C 0 8 34; C 0 9 165; C 0 8 2; C 0 8 130; C 0 8 66; C 0 9 229;
  C 16 7 7; C 0 8 90; C 0 8 26; C 0 9 149; C 20 7 67; C 0 8 122;
  C 0 8 58; C 0 9 213; C 18 7 19; C 0 8 106; C 0 8 42; C 0 9 181;
  C 0 8 10; C 0 8 138; C 0 8 74; C 0 9 245; C 16 7 5; C 0 8 86;
  C 0 8 22; C 64 8 0; C 19 7 51; C 0 8 118; C 0 8 54; C 0 9 205;
  C 17 7 15; C 0 8 102; C 0 8 38; C 0 9 173; C 0 8 6; C 0 8 134;
  C 0 8 70; C 0 9 237; C 16 7 9; C 0 8 94; C 0 8 30; C 0 9 157;
  C 20 7 99; C 0 8 126; C 0 8 62; C 0 9 221; C 18 7 27; C 0 8 110;
  C 0 8 46; C 0 9 189; C 0 8 14; C 0 8 142; C 0 8 78; C 0 9 253;
  C 96 7 0; C 0 8 81; C 0 8 17; C 21 8 131; C 18 7 31; C 0 8 113;
  C 0 8 49; C 0 9 195; C 16 7 10; C 0 8 97; C 0 8 33; C 0 9 163;
  C 0 8 1; C 0 8 129; C 0 8 65; C 0 9 227; C 16 7 6; C 0 8 89;
  C 0 8 25; C 0 9 147; C 19 7 59; C 0 8 121; C 0 8 57; C 0 9 211;
  C 17 7 17; C 0 8 105; C 0 8 41; C 0 9 179; C 0 8 9; C 0 8 137;
  C 0 8 73; C 0 9 243; C 16 7 4; C 0 8 85; C 0 8 21; C 16 8 258;
  C 19 7 43; C 0 8 117; C 0 8 53; C 0 9 203; C 17 7 13; C 0 8 101;
  C 0 8 37; C 0 9 171; C 0 8 5; C 0 8 133; C 0 8 69; C 0 9 235;
  C 16 7 8; C 0 8 93; C 0 8 29; C 0 9 155; C 20 7 83; C 0 8 125;
  C 0 8 61; C 0 9 219; C 18 7 23; C 0 8 109; C 0 8 45; C 0 9 187;
  C 0 8 13; C 0 8 141; C 0 8 77; C 0 9 251; C 16 7 3; C 0 8 83;
  C 0 8 19; C 21 8 195; C 19 7 35; C 0 8 115; C 0 8 51; C 0 9 199;
  C 17 7 11; C 0 8 99; C 0 8 35; C 0 9 167; C 0 8 3; C 0 8 131;
  C 0 8 67; C 0 9 231; C 16 7 7; C 0 8 91; C 0 8 27; C 0 9 151;
  C 20 7 67; C 0 8 123; C 0 8 59; C 0 9 215; C 18 7 19; C 0 8 107;
  C 0 8 43; C 0 9 183; C 0 8 11; C 0 8 139; C 0 8 75; C 0 9 247;
  C 16 7 5; C 0 8 87; C 0 8 23; C 64 8 0; C 19 7 51; C 0 8 119;
  C 0 8 55; C 0 9 207; C 17 7 15; C 0 8 103; C 0 8 39; C 0 9 175;
  C 0 8 7; C 0 8 135; C 0 8 71; C 0 9 239; C 16 7 9; C 0 8 95;
  C 0 8 31; C 0 9 159; C 20 7 99; C 0 8 127; C 0 8 63; C 0 9 223;
  C 18 7 27; C 0 8 111; C 0 8 47; C 0 9 191; C 0 8 15; C 0 8 143;
  C 0 8 79; C 0 9 255
].

Definition distfix : list code := [
  C 16 5 1; C 23 5 257; C 19 5 17; C 27 5 4097; C 17 5 5; C 25 5 1025;
  C 21 5 65; C 29 5 16385; C 16 5 3; C 24 5 513; C 20 5 33; C 28 5 8193;
  C 18 5 9; C 26 5 2049; C 22 5 129; C 64 5 0; C 16 5 2; C 23 5 385;
  C 19 5 25; C 27 5 6145; C 17 5 7; C 25 5 1537; C 21 5 97; C 29 5 24577;
  C 16 5 4; C 24 5 769; C 20 5 49; C 28 5 12289; C 18 5 13; C 26 5 3073;
  C 22 5 193; C 64 5 0
].

(** ** fixedtables with BUILDFIXED, and makefixed *)

(** The lengths [fixedtables] puts in [state->lens]: first those of the
    literal/length code, then those of the distance code over them. *)
Definition fixed_lens (lens : list Z) : list Z :=
  for_ 280 288 (λ sym lens, lens.[sym <- 8])
    (for_ 256 280 (λ sym lens, lens.[sym <- 7])
      (for_ 144 256 (λ sym lens, lens.[sym <- 9])
        (for_ 0 144 (λ sym lens, lens.[sym <- 8]) lens))).
Definition fixed_dists (lens : list Z) : list Z :=
  for_ 0 32 (λ sym lens, lens.[sym <- 5]) lens.

(** The 544 entries of [fixed]: [lenfix] is its start, [distfix] follows. *)
Definition build_fixed (lens work : list Z) : option (list code * Z) :=
  r1 ← inflate_table LENS (fixed_lens lens) 288 (replicate 544 (Code 0 0 0)) 0 9 work;
  r2 ← inflate_table DISTS (fixed_dists (fixed_lens lens)) 32 (table r1) (advance r1) 5 (rwork r1);
  Some (table r2, advance r1).

(** The entries [makefixed] prints. *)
Definition print_len (low : Z) (e : code) : code :=
  Code (if (low .& 127) =? 99 then 64 else op e) (bits e) (val e).
Definition makefixed (lens work : list Z) : option (list code * list code) :=
  '(fixed, distfix) ← build_fixed lens work;
  Some (map (λ low, print_len low fixed.[low]) (seqZ 0 512),
        map (λ low, fixed.[distfix + low]) (seqZ 0 32)).

(** Inffixed.h holds what makefixed generates. *)
Theorem inffixed_generated :
  makefixed (replicate 320 0) (replicate 288 0) = Some (lenfix, distfix).
Proof. vm_compute. reflexivity. Qed.

End Inffixed.
