(* ===== verification/Symbols.v ===== *)
(** * The decoding tables implement the reference Huffman decoder

    The bit-by-bit decoder of RFC 1951 finds the symbol whose interval of the
    code space holds the window of the next 15 bits; the tables inflate_table
    builds, and the fixed tables, find the same symbol in one or two lookups,
    also when fewer than 15 bits are at hand. *)

From S2P Require Import Prelude Inftrees InftreesDecode Inffixed Rfc1951.

Module Symbols.
Import Inftrees InftreesDecode.

(** Conversion compares the sums over a code before it evaluates them. *)
#[local] Strategy 100 [num kraft_upto kraft with_len base Rfc1951.longest inflate_table].

(** ** The longest code *)

Lemma foldr_max l x : x ∈ l → x ≤ foldr Z.max 0 l.
Proof.
  induction l as [|y l IH]; intros Hx; [by apply not_elem_of_nil in Hx|].
  apply elem_of_cons in Hx as [->|Hx]; simpl; [lia|]. specialize (IH Hx). lia.
Qed.

Lemma foldr_max_in l : 0 < foldr Z.max 0 l → foldr Z.max 0 l ∈ l.
Proof.
  induction l as [|y l IH]; simpl; [lia|]. intros H. destruct (decide (foldr Z.max 0 l ≤ y)).
  - rewrite Z.max_l by done. apply elem_of_cons. by left.
  - rewrite Z.max_r by lia. apply elem_of_cons. right. apply IH. lia.
Qed.

Lemma longest_spec lens n : lengths_ok lens n → let m := Rfc1951.longest lens n in
  0 ≤ m ≤ 15 ∧ (∀ s, 0 ≤ s < n → lens.[s] ≤ m) ∧ (0 < m → 0 < num lens n m) ∧
  ∀ l, m < l → num lens n l = 0.
Proof.
  intros Hok m. pose proof Hok as (Hn & _ & Hl). unfold m, Rfc1951.longest.
  set (L := map _ (seqZ 0 n)).
  assert (∀ x, x ∈ L ↔ ∃ s, 0 ≤ s < n ∧ x = lens.[s]) as HL.
  { intros x. unfold L. rewrite list_elem_of_fmap. setoid_rewrite elem_of_seqZ.
    split; intros (y & H1 & H2); exists y; (split; [done||lia|done||lia]). }
  assert (0 ≤ foldr Z.max 0 L) as H0 by (clear; induction L; simpl; lia).
  assert (∀ s, 0 ≤ s < n → lens.[s] ≤ foldr Z.max 0 L) as Hs by (intros; apply foldr_max, HL; eauto).
  split_and!; try done.
  - destruct (decide (0 < foldr Z.max 0 L)) as [Hp|]; [|lia].
    apply foldr_max_in, HL in Hp as (s & Hs' & ->). by apply Hl.
  - intros Hp. apply num_pos_iff; [done|]. apply foldr_max_in, HL in Hp as (x & ? & ?). by exists x.
  - intros l Hlt. pose proof (num_nonneg lens n l).
    destruct (decide (num lens n l = 0)); [done|].
    assert (0 < num lens n l) as (s & ? & ?)%num_pos_iff by lia; [|done]. specialize (Hs s). lia.
Qed.

(** Only the lengths of the symbols matter. *)
Section Ext.
  Context (a b : list Z) (n : Z).
  Hypothesis Hab : ∀ i, 0 ≤ i < n → a.[i] = b.[i].

Lemma with_len_ext l : with_len a n l = with_len b n l.
Proof.
  unfold with_len. assert (∀ i, i ∈ seqZ 0 n → a.[i] = b.[i]) as H.
  { intros i Hi%elem_of_seqZ. apply Hab. lia. }
  induction (seqZ 0 n) as [|i js IH]; [done|]. rewrite !filter_cons.
  rewrite (H i) by (by left). rewrite IH by (intros; apply H; by right). done.
Qed.

Lemma longest_ext : Rfc1951.longest a n = Rfc1951.longest b n.
Proof.
  unfold Rfc1951.longest. f_equal. apply map_ext_in. intros i Hi%list_elem_of_In%elem_of_seqZ. apply Hab. lia.
Qed.

Lemma symbol_ext s : Rfc1951.symbol a n s = Rfc1951.symbol b n s.
Proof.
  assert (∀ k l x y s, Rfc1951.symbol_from k a n l x y s = Rfc1951.symbol_from k b n l x y s) as H.
  { induction k as [|k IH]; intros l x y s'; [done|]. cbn [Rfc1951.symbol_from].
    unfold num. rewrite with_len_ext. unfold mbind, Rfc1951.P_bind. destruct (Rfc1951.get 1 s'); [|done..].
    case_match; [done|]. apply IH. }
  unfold Rfc1951.symbol. by rewrite longest_ext.
Qed.

Lemma acceptable_ext type : Rfc1951.acceptable type a n = Rfc1951.acceptable type b n.
Proof.
  assert (∀ m, 0 ≤ m → kraft_upto a n (1 + m) = kraft_upto b n (1 + m)) as H.
  { apply natlike_ind; [unfold kraft_upto; by rewrite !for_empty by lia|].
    intros m Hm IH. rewrite <-Z.add_1_r, Z.add_assoc, !kraft_upto_succ, IH by lia.
    unfold num. by rewrite with_len_ext. }
  unfold Rfc1951.acceptable, kraft. rewrite longest_ext. change 16 with (1 + 15). by rewrite H by lia.
Qed.

End Ext.

(** ** The reference decoder and the code space *)

Section Window.
  Context (lens : list Z) (n : Z) (Hok : lengths_ok lens n).

(** The window of the next 15 bits of a stream; missing bits are 0. *)
Definition window (s : Rfc1951.bitstream) : Z := Rfc1951.value s mod 2 ^ 15.

Lemma window_range s : 0 ≤ window s < 2 ^ 15.
Proof. apply Z.mod_pos_bound. lia. Qed.

(** The [l]-th bit of the stream is the next bit of the left-justified code. *)
Lemma next_bit s l : 1 ≤ l ≤ 15 →
  2 * (rev (window s) / 2 ^ (16 - l)) + (Rfc1951.value s / 2 ^ (l - 1)) mod 2
  = rev (window s) / 2 ^ (15 - l).
Proof.
  intros Hl. replace (16 - l) with (15 - l + 1) by lia.
  rewrite Z.pow_add_r, <-Z.div_div by lia. change (2 ^ 1) with 2.
  rewrite (Z.div_mod (rev (window s) / 2 ^ (15 - l)) 2) at 2 by lia. f_equal.
  rewrite <-!Z.testbit_spec' by lia. f_equal. rewrite rev_bits_testbit by lia.
  destruct (Z.ltb_spec (15 - l) (Z.of_nat 15)); [|lia]. cbn [andb].
  unfold window. rewrite Z.mod_pow2_bits_low by lia. f_equal. lia.
Qed.

(** The first code of length [l], as the reference decoder tracks it. *)
Definition first_code (l : Z) : Z := kraft_upto lens n l / 2 ^ (15 - l).

Lemma first_code_spec l : 1 ≤ l ≤ 15 → kraft_upto lens n l = first_code l * 2 ^ (15 - l).
Proof.
  intros Hl. unfold first_code. destruct (kraft_upto_divide lens n l) as [q Hq]; [lia|].
  rewrite Hq. replace (16 - l) with (1 + (15 - l)) by lia. rewrite Z.pow_add_r by lia.
  rewrite Z.mul_assoc, Z.div_mul by lia. done.
Qed.

Lemma first_code_succ l : 1 ≤ l ≤ 14 → first_code (l + 1) = 2 * (first_code l + num lens n l).
Proof.
  intros Hl. unfold first_code at 1. rewrite kraft_upto_succ, first_code_spec by lia.
  replace (15 - l) with (1 + (15 - (l + 1))) by lia. rewrite Z.pow_add_r by lia.
  change (2 ^ 1) with 2.
  replace (first_code l * (2 * 2 ^ (15 - (l + 1))) + num lens n l * (2 * 2 ^ (15 - (l + 1))))
    with (2 * (first_code l + num lens n l) * 2 ^ (15 - (l + 1))) by lia.
  rewrite Z.div_mul by lia. done.
Qed.

(** What the reference decoder finds for the stream [s]: the symbol of the
    length that covers its window, if it has that many bits. *)
Definition finds (s : Rfc1951.bitstream) (l : Z) (r : Rfc1951.result Z) : Prop :=
  let x := rev (window s) in
  kraft_upto lens n l ≤ x < kraft_upto lens n (l + 1) ∧
  r = if Rfc1951.avail s <? l then Rfc1951.Short
      else Rfc1951.Ok (with_len lens n l).[(x - kraft_upto lens n l) / 2 ^ (15 - l)] (Rfc1951.dropped l s).

(** Some length covers a value between two Kraft sums. *)
Lemma length_of_value x l top : 1 ≤ l → l ≤ top + 1 →
  kraft_upto lens n l ≤ x < kraft_upto lens n (top + 1) →
  ∃ l', l ≤ l' ≤ top ∧ kraft_upto lens n l' ≤ x < kraft_upto lens n (l' + 1).
Proof.
  intros Hl Ht. replace top with (l - 1 + (top + 1 - l)) by lia.
  apply (natlike_ind (λ d, kraft_upto lens n l ≤ x < kraft_upto lens n (l - 1 + d + 1) →
    ∃ l', l ≤ l' ≤ l - 1 + d ∧ kraft_upto lens n l' ≤ x < kraft_upto lens n (l' + 1))); [| |lia].
  - replace (l - 1 + 0 + 1) with l by lia. lia.
  - intros d Hd IH Hx. destruct (decide (x < kraft_upto lens n (l - 1 + d + 1))).
    + destruct IH as (l' & ? & ?); [lia|]. exists l'. lia.
    + exists (l + d). replace (l - 1 + d + 1) with (l + d) in * by lia.
      replace (l - 1 + Z.succ d + 1) with (l + d + 1) in Hx by lia. lia.
Qed.

Lemma symbol_from_spec fuel s l top : 1 ≤ l ≤ top + 1 → top ≤ 15 → Z.of_nat fuel = top + 1 - l →
  l - 1 ≤ Rfc1951.avail s → kraft_upto lens n l ≤ rev (window s) →
  let r := Rfc1951.symbol_from fuel lens n l (2 * (rev (window s) / 2 ^ (16 - l)))
             (first_code l) (Rfc1951.dropped (l - 1) s) in
  (∃ l', l ≤ l' ≤ top ∧ finds s l' r) ∨
  (kraft_upto lens n (top + 1) ≤ rev (window s) ∧
   r = if Rfc1951.avail s <? top then Rfc1951.Short else Rfc1951.Bad).
Proof.
  revert l. induction fuel as [|fuel IH]; intros l Hl Htop Hf Ha Hx r.
  { right. replace (top + 1) with l by lia. split; [done|].
    destruct (Z.ltb_spec (Rfc1951.avail s) top); [lia|done]. }
  unfold r. cbn [Rfc1951.symbol_from]. unfold mbind, Rfc1951.P_bind, Rfc1951.get.
  cbn [Rfc1951.avail Rfc1951.dropped Rfc1951.value].
  destruct (Z.ltb_spec (Rfc1951.avail s - (l - 1)) 1) as [Hs|Hs].
  { destruct (decide (kraft_upto lens n (top + 1) ≤ rev (window s))) as [|Hlt].
    - right. split; [done|]. by destruct (Z.ltb_spec (Rfc1951.avail s) top); [|lia].
    - left. destruct (length_of_value (rev (window s)) l top) as (l' & Hl' & Hin); [lia..|].
      exists l'. split; [lia|]. split; [done|]. by destruct (Z.ltb_spec (Rfc1951.avail s) l'); [|lia]. }
  change (2 ^ 1) with 2. rewrite next_bit by lia.
  rewrite (Rfc1951.dropped_dropped 1 (l - 1)) by lia.
  pose proof (first_code_spec l ltac:(lia)) as Hfc. pose proof (kraft_upto_succ lens n l ltac:(lia)) as Hks.
  assert (0 < 2 ^ (15 - l)) as Hp by lia. set (p := 2 ^ (15 - l)) in *.
  pose proof (Z.div_mod (rev (window s)) p ltac:(lia)) as Hdm.
  pose proof (Z.mod_pos_bound (rev (window s)) p ltac:(lia)) as Hmb.
  set (q := rev (window s) / p) in *.
  assert ((rev (window s) - kraft_upto lens n l) / p = q - first_code l) as Hq.
  { rewrite Hfc. symmetry. apply (Z.div_unique _ _ _ (rev (window s) mod p)); lia. }
  destruct (Z.ltb_spec (q - first_code l) (num lens n l)) as [Hin|Hout].
  - left. exists l. split; [lia|]. unfold finds. fold p. cbv zeta. split; [nia|].
    destruct (Z.ltb_spec (Rfc1951.avail s) l); [lia|]. rewrite Hq.
    unfold mret, Rfc1951.P_ret. f_equal. f_equal. lia.
  - destruct (decide (l = 15)) as [->|Hne].
    + destruct fuel; [|lia]. right. assert (top = 15) as -> by lia. split; [nia|].
      destruct (Z.ltb_spec (Rfc1951.avail s) 15); [lia|done].
    + rewrite <-first_code_succ by lia.
      destruct (IH (l + 1)) as [(l' & Hl' & Hf')|Hbad]; [lia|lia|lia|lia|nia| |].
      * left. exists l'. split; [lia|].
        replace (16 - (l + 1)) with (15 - l) in Hf' by lia. fold p q in Hf'.
        replace (l - 1 + 1) with (l + 1 - 1) by lia. done.
      * right. replace (16 - (l + 1)) with (15 - l) in Hbad by lia. fold p q in Hbad.
        replace (l - 1 + 1) with (l + 1 - 1) by lia. done.
Qed.

(** The symbol whose interval holds the window. *)
Lemma symbol_spec s : 0 ≤ Rfc1951.avail s → let x := rev (window s) in
  (∃ i, 0 ≤ i < base lens n 16 ∧ start lens n i ≤ x < start lens n (i + 1) ∧
     let y := (sorted lens n).[i] in
     Rfc1951.symbol lens n s
     = if Rfc1951.avail s <? lens.[y] then Rfc1951.Short else Rfc1951.Ok y (Rfc1951.dropped lens.[y] s)) ∨
  (kraft lens n ≤ x ∧
   Rfc1951.symbol lens n s
   = if Rfc1951.avail s <? Z.max 1 (Rfc1951.longest lens n) then Rfc1951.Short else Rfc1951.Bad).
Proof.
  intros Ha x. destruct (longest_spec lens n Hok) as (Hm & _ & _ & Hlong).
  set (m := Rfc1951.longest lens n) in *.
  assert (kraft_upto lens n (Z.max 1 m + 1) = kraft lens n) as Hk.
  { unfold kraft. replace 16 with (Z.max 1 m + 1 + (15 - Z.max 1 m)) by lia.
    apply (natlike_ind (λ d, kraft_upto lens n (Z.max 1 m + 1) = kraft_upto lens n (Z.max 1 m + 1 + d)));
      [by rewrite Z.add_0_r| |lia].
    intros d Hd IH. rewrite <-Z.add_1_r, Z.add_assoc,
      (kraft_upto_succ _ _ (Z.max 1 m + 1 + d)), Hlong by lia. lia. }
  destruct (symbol_from_spec (Z.to_nat (Z.max 1 m)) s 1 (Z.max 1 m)) as [(l & Hl & Hin & Hr)|[Hbad Hr]];
    [lia|lia|lia|lia|apply rev_range| |].
  all: change (16 - 1) with 15 in Hr; rewrite (Z.div_small (rev (window s)) (2 ^ 15)) in Hr by apply rev_range.
  all: change (2 * 0) with 0 in Hr; change (first_code 1) with 0 in Hr.
  all: assert (Rfc1951.dropped (1 - 1) s = s) as E0
    by (destruct s; unfold Rfc1951.dropped; simpl; rewrite Z.div_1_r, Z.sub_0_r; done); rewrite E0 in Hr.
  - left. fold x in Hin. rewrite kraft_upto_succ in Hin by lia.
    set (r := (x - kraft_upto lens n l) / 2 ^ (15 - l)).
    assert (0 < 2 ^ (15 - l)) as Hp by lia.
    pose proof (Z.div_mod (x - kraft_upto lens n l) (2 ^ (15 - l)) ltac:(lia)) as Hdm.
    pose proof (Z.mod_pos_bound (x - kraft_upto lens n l) (2 ^ (15 - l)) ltac:(lia)) as Hmb.
    fold r in Hdm. assert (0 ≤ r < num lens n l) as Hrr by nia.
    pose proof (base_mono lens n (l + 1) 16) as Hb. pose proof (base_mono lens n 1 l) as Hb1.
    rewrite base_1 in Hb1. rewrite base_succ in Hb by lia.
    pose proof (start_pos lens n l (base lens n l + r)) as Hs1.
    pose proof (start_pos lens n l (base lens n l + r + 1)) as Hs2.
    rewrite base_succ in Hs1, Hs2 by lia.
    exists (base lens n l + r). split; [lia|]. split; [rewrite Hs1, Hs2 by lia; nia|].
    destruct (sorted_len lens n l (base lens n l + r)) as [El _]; [lia|rewrite base_succ by lia; lia|].
    cbv zeta. rewrite El, sorted_at by lia. exact Hr.
  - right. rewrite Hk in Hbad. split; [done|exact Hr].
Qed.

End Window.

(** ** Acceptable codes *)

Lemma kraft_nonneg lens n : 0 ≤ kraft lens n.
Proof.
  unfold kraft. pose proof (kraft_upto_mono lens n 1 16 ltac:(lia)) as H.
  change (kraft_upto lens n 1) with 0 in H. exact H.
Qed.

Lemma accept_false type k m : 0 ≤ k → (m = 0 → k = 0) → (k = 0 → m = 0) → 0 ≤ m →
  Rfc1951.accept type k m = false ↔
  2 ^ 15 < k ∨ (0 < k < 2 ^ 15 ∧ (type = CODES ∨ 1 < m)).
Proof.
  intros Hk0 Hm0 Hk1 Hm. unfold Rfc1951.accept. change (2 ^ 15) with 32768.
  destruct (bool_decide_reflect (type = CODES)) as [Hty|Hty]; cbn [negb andb].
  all: rewrite ?andb_false_r, ?andb_true_r; cbn [andb].
  all: destruct (Z.eqb_spec k 32768), (Z.eqb_spec k 0); cbn [orb];
    try (destruct (Z.ltb_spec k 32768), (Z.eqb_spec m 1); cbn [orb andb]);
    (split; [intros G|intros [G|[G1 [G2|G2]]]]); try done; try lia;
    (left; lia) || (right; split; [lia|]; (by left) || (right; lia)) ||
    (destruct (decide (32768 < k)); [by left|right; split; [lia|by left]]).
Qed.

Lemma acceptable_spec type lens n : lengths_ok lens n →
  Rfc1951.acceptable type lens n = false ↔ refused type lens n.
Proof.
  intros Hok. destruct (longest_spec lens n Hok) as (Hm & Hle & Hpos & Hlong).
  unfold Rfc1951.acceptable, refused. rewrite accept_false.
  - assert ((∃ s, 0 ≤ s < n ∧ 1 < lens.[s]) ↔ 1 < Rfc1951.longest lens n) as ->; [|done].
    split; [intros (s & Hs & ?); specialize (Hle s Hs); lia|].
    intros H1. specialize (Hpos ltac:(lia)). apply num_pos_iff in Hpos as (s & ? & ?); [|done].
    exists s. lia.
  - apply kraft_nonneg.
  - intros E. destruct (kraft_zero lens n) as [Hk _]; [|exact Hk]. intros l Hl. apply Hlong. lia.
  - intros E. destruct (decide (Rfc1951.longest lens n = 0)); [done|].
    pose proof (kraft_pos lens n (Rfc1951.longest lens n)). lia.
  - lia.
Qed.

(** An acceptable code leaves a window without a code only when its codes have
    at most one bit. *)
Lemma kraft_short lens n : (∀ l, 1 < l → num lens n l = 0) → kraft lens n = num lens n 1 * 2 ^ 14.
Proof.
  intros Hlong. unfold kraft.
  assert (∀ d, 0 ≤ d → kraft_upto lens n (2 + d) = num lens n 1 * 2 ^ 14) as H.
  { apply (natlike_ind (λ d, kraft_upto lens n (2 + d) = num lens n 1 * 2 ^ 14)).
    - pose proof (kraft_upto_succ lens n 1 ltac:(lia)) as H1.
      change (kraft_upto lens n 1) with 0 in H1. rewrite Z.add_0_l in H1. exact H1.
    - intros d Hd IH. rewrite <-Z.add_1_r, Z.add_assoc, kraft_upto_succ, Hlong by lia. lia. }
  exact (H 14 ltac:(lia)).
Qed.

Lemma unused_longest type lens n : lengths_ok lens n → Rfc1951.acceptable type lens n = true →
  kraft lens n < 2 ^ 15 → Rfc1951.longest lens n ≤ 1.
Proof.
  intros Hok Hacc Hx. destruct (longest_spec lens n Hok) as (Hm & _ & Hpos & _).
  assert (0 < Rfc1951.longest lens n → 0 < kraft lens n) as Hk
    by (intros H; apply (kraft_pos lens n (Rfc1951.longest lens n)); [lia|exact (Hpos H)]).
  unfold Rfc1951.acceptable in Hacc. revert Hacc Hx Hk. clear.
  generalize (kraft lens n) (Rfc1951.longest lens n). intros k m Hacc Hx Hk.
  unfold Rfc1951.accept in Hacc.
  destruct (Z.eqb_spec k (2 ^ 15)); [lia|]. destruct (Z.eqb_spec k 0); [lia|].
  cbn [orb] in Hacc. rewrite !andb_true_iff in Hacc. destruct Hacc as [_ ?%Z.eqb_eq]. lia.
Qed.

(** ** Tables that serve a code *)

(** The entry of a symbol; the fixed table marks the two length symbols that do
    not occur as invalid. *)
Definition entry_for (type : codetype) (y nb : Z) (e : code) : Prop :=
  e = symbol_entry type y nb ∨ (type = LENS ∧ 286 ≤ y ∧ e = Code 64 nb 0).

Record serves (type : codetype) (lens : list Z) (n : Z) (tab : list code) (t0 root : Z) : Prop := {
  serves_lens : lengths_ok lens n;
  serves_symbols : n ≤ symbols type;
  serves_accept : Rfc1951.acceptable type lens n = true;
  serves_root : 1 ≤ root ≤ 15;
  serves_lookup : ∃ ent : Z → Z → code,
    (∀ y nb, 0 ≤ y < n → entry_for type y nb (ent y nb)) ∧
    ∀ w, 0 ≤ w < 2 ^ 15 → two_level type tab t0 root w ∧
      ((∃ i nb, 0 ≤ i < base lens n 16 ∧ start lens n i ≤ rev w < start lens n (i + 1) ∧
          lookup tab t0 root w = (ent (sorted lens n).[i] nb, lens.[(sorted lens n).[i]])) ∨
       (kraft lens n ≤ rev w ∧ lookup tab t0 root w = (Code 64 1 0, 1)))
}.

Lemma entry_bits type y nb e : entry_for type y nb e → bits e = nb.
Proof. intros [->|(_ & _ & ->)]; [|done]. destruct type; simpl; repeat case_match; done. Qed.

Lemma entry_not_link type y nb e : 0 ≤ y < symbols type → entry_for type y nb e → is_link e = false.
Proof. intros Hy [->|(_ & _ & ->)]; [by apply symbol_not_link|done]. Qed.

(** The root entry of the bits [x], and the entry a link leads to. *)
Definition root_entry (tab : list code) (t0 root x : Z) : code := tab.[t0 + x mod 2 ^ root].
Definition sub_entry (tab : list code) (t0 : Z) (l : code) (x : Z) : code :=
  tab.[t0 + val l + ((x mod 2 ^ (bits l + op l)) ≫ bits l)].

Section Serves.
  Context (type : codetype) (lens : list Z) (n : Z) (tab : list code) (t0 root : Z).
  Hypothesis Hs : serves type lens n tab t0 root.

Lemma sorted_range i : 0 ≤ i < base lens n 16 →
  0 ≤ (sorted lens n).[i] < n ∧ 1 ≤ lens.[(sorted lens n).[i]] ≤ 15 ∧
  (2 ^ (15 - lens.[(sorted lens n).[i]]) | start lens n i).
Proof.
  intros Hi. destruct (position_length lens n i Hi) as (l & Hl & Hil).
  destruct (sorted_len lens n l i Hl Hil) as [-> ?]. split_and!; try lia. apply start_divide; lia.
Qed.

Lemma kraft_le : kraft lens n ≤ 2 ^ 15.
Proof.
  destruct (decide (kraft lens n ≤ 2 ^ 15)) as [H|H]; [done|exfalso].
  assert (Rfc1951.acceptable type lens n = false) as E by (apply acceptable_spec; [apply Hs|left; lia]).
  rewrite (serves_accept _ _ _ _ _ _ Hs) in E. done.
Qed.

Lemma start_below i : 0 ≤ i < base lens n 16 → 0 ≤ start lens n i < 2 ^ 15.
Proof.
  intros Hi. pose proof kraft_le as Hk. rewrite <-start_kraft in Hk.
  pose proof (start_mono lens n (i + 1) (base lens n 16)) as H1. rewrite start_succ in H1 by lia.
  pose proof (start_mono lens n 0 i) as H0. change (start lens n 0) with 0 in H0.
  destruct (sorted_range i Hi) as (_ & ? & _). assert (0 < 2 ^ (15 - lens.[(sorted lens n).[i]])) by lia. lia.
Qed.

Lemma interval_unique i j x : 0 ≤ i < base lens n 16 → 0 ≤ j < base lens n 16 →
  start lens n i ≤ x < start lens n (i + 1) → start lens n j ≤ x < start lens n (j + 1) → i = j.
Proof.
  intros Hi Hj Hxi Hxj. destruct (decide (i < j)).
  - pose proof (start_mono lens n (i + 1) j). lia.
  - destruct (decide (j < i)); [|lia]. pose proof (start_mono lens n (j + 1) i). lia.
Qed.

(** Windows that agree on the bits of a code have the same code. *)
Lemma interval_prefix i w w' : 0 ≤ i < base lens n 16 → 0 ≤ w < 2 ^ 15 → 0 ≤ w' < 2 ^ 15 →
  let l := lens.[(sorted lens n).[i]] in w mod 2 ^ l = w' mod 2 ^ l →
  start lens n i ≤ rev w < start lens n (i + 1) → start lens n i ≤ rev w' < start lens n (i + 1).
Proof.
  intros Hi Hw Hw' l E. destruct (sorted_range i Hi) as (_ & Hl & Hd). pose proof (start_below i Hi).
  rewrite start_succ by lia. fold l in Hl, Hd |- *. rewrite <-!(window_iff l) by (done || lia). congruence.
Qed.

(** With fewer bits than a window the lookup is the same, if they suffice for
    the code it finds. *)
Lemma lookup_stable w w' b : 0 ≤ w < 2 ^ 15 → 0 ≤ w' < 2 ^ 15 → 0 ≤ b ≤ 15 →
  w mod 2 ^ b = w' mod 2 ^ b → (lookup tab t0 root w).2 ≤ b →
  lookup tab t0 root w' = lookup tab t0 root w.
Proof.
  intros Hw Hw' Hb E Hle. destruct Hs as [Hok Hn Hacc Hr (ent & Hent & Hlook)].
  destruct (Hlook w Hw) as [Htl [(i & nb & Hi & Hin & El)|[Hk El]]]; rewrite El in Hle |- *; cbn [snd] in Hle.
  - destruct (sorted_range i Hi) as (Hy & Hl & _). set (l := lens.[(sorted lens n).[i]]) in *.
    assert (w mod 2 ^ l = w' mod 2 ^ l) as E'.
    { rewrite <-(mod_mod_pow2 l b w), <-(mod_mod_pow2 l b w') by lia. by rewrite E. }
    pose proof (interval_prefix i w w' Hi Hw Hw' E' Hin) as Hin'.
    destruct (Hlook w' Hw') as [Htl' [(j & nb' & Hj & Hjn & El')|[Hk' _]]].
    + assert (j = i) as -> by (by eapply interval_unique). fold l in El'. rewrite El'.
      assert (∀ m, bits (ent (sorted lens n).[i] m) = m) as Hbits
        by (intros m; by eapply entry_bits, Hent).
      assert (∀ u m, two_level type tab t0 root u → lookup tab t0 root u = (ent (sorted lens n).[i] m, l) →
        m = if decide (l ≤ root) then l else l - root) as Hm.
      { intros u m Hu Hlu. pose proof (f_equal fst Hlu) as H1. pose proof (f_equal snd Hlu) as H2.
        unfold two_level in Hu. rewrite H1 in Hu. cbn [fst] in Hu.
        unfold lookup in H1, H2. rewrite Hbits in Hu.
        destruct (is_link _); cbn [fst snd] in H1, H2; rewrite H1, Hbits in H2;
          [|rewrite H1, Hbits in Hu]; case_decide; lia. }
      by rewrite (Hm w nb Htl El), (Hm w' nb' Htl' El').
    + pose proof (start_mono lens n (i + 1) (base lens n 16)) as Hm. rewrite start_kraft in Hm. lia.
  - pose proof (rev_range w). pose proof (rev_range w').
    assert (Rfc1951.longest lens n ≤ 1) as Hlong by (eapply unused_longest; [done..|lia]).
    destruct (longest_spec lens n Hok) as (_ & _ & _ & Hnum).
    assert (kraft lens n = num lens n 1 * 2 ^ 14) as Ek by (apply kraft_short; intros; apply Hnum; lia).
    pose proof (num_nonneg lens n 1).
    assert (kraft lens n ≤ rev w') as Hk'.
    { destruct (decide (kraft lens n = 0)) as [->|]; [lia|].
      assert (kraft lens n = 2 ^ 14) as Ek1 by lia. rewrite Ek1 in *.
      assert (∀ u, 0 ≤ u < 2 ^ 15 → u mod 2 ^ 1 = rev (2 ^ 14) ↔ 2 ^ 14 ≤ rev u < 2 ^ 14 + 2 ^ (15 - 1)) as Hwi
        by (intros u Hu; apply window_iff; [lia|done|lia|by exists 1]).
      change (2 ^ 14 + 2 ^ (15 - 1)) with (2 ^ 15) in Hwi.
      assert (2 ^ 14 ≤ rev w' < 2 ^ 15); [|lia]. apply Hwi; [done|].
      rewrite <-(mod_mod_pow2 1 b w'), <-E, (mod_mod_pow2 1 b w) by lia. apply Hwi; [done|lia]. }
    destruct (Hlook w' Hw') as [_ [(j & nb' & Hj & Hjn & _)|[_ ->]]]; [|done].
    pose proof (start_mono lens n (j + 1) (base lens n 16)) as Hm. rewrite start_kraft in Hm. lia.
Qed.

Lemma root_entry_window x : root_entry tab t0 root x = root_entry tab t0 root (x mod 2 ^ 15).
Proof. destruct Hs. unfold root_entry. by rewrite mod_mod_pow2 by lia. Qed.

Lemma lookup_window w : lookup tab t0 root w =
  let here := root_entry tab t0 root w in
  if is_link here then (sub_entry tab t0 here w, bits here + bits (sub_entry tab t0 here w))
  else (here, bits here).
Proof. done. Qed.

Lemma link_shape x : 0 ≤ x → let here := root_entry tab t0 root x in
  if is_link here then
    type ≠ CODES ∧ bits here = root ∧ 1 ≤ op here ∧ root + op here ≤ 15 ∧
    1 ≤ bits (sub_entry tab t0 here x) ≤ op here
  else 1 ≤ bits here ≤ root.
Proof.
  intros Hx here. pose proof (serves_root _ _ _ _ _ _ Hs). destruct (serves_lookup _ _ _ _ _ _ Hs) as (ent & _ & Hl).
  assert (0 ≤ x mod 2 ^ 15 < 2 ^ 15) as Hw by (apply Z.mod_pos_bound; lia).
  destruct (Hl _ Hw) as [Htl _]. unfold two_level in Htl. rewrite lookup_window in Htl.
  fold (root_entry tab t0 root (x mod 2 ^ 15)) in Htl. rewrite <-root_entry_window in Htl. fold here in Htl.
  cbv zeta in Htl. destruct (is_link here) eqn:E; [|done]. cbn [fst] in Htl.
  destruct Htl as (? & ? & ? & ? & Hb). split_and!; try done;
    unfold sub_entry in *; rewrite mod_mod_pow2 in Hb by lia; lia.
Qed.

Lemma window_mod b x : 0 ≤ x → 0 ≤ b → (x mod 2 ^ b) mod 2 ^ 15 mod 2 ^ Z.min b 15 = x mod 2 ^ 15 mod 2 ^ Z.min b 15.
Proof. intros. by rewrite !mod_mod_pow2 by lia. Qed.

(** The entry found from [b] bits is the one found from all of them, as soon as
    either says that [b] bits suffice. *)
Lemma root_stable x b : 0 ≤ x → 0 ≤ b →
  bits (root_entry tab t0 root (x mod 2 ^ b)) ≤ b ∨ bits (root_entry tab t0 root x) ≤ b →
  root_entry tab t0 root (x mod 2 ^ b) = root_entry tab t0 root x.
Proof.
  intros Hx Hb Hor. pose proof (serves_root _ _ _ _ _ _ Hs) as Hr.
  destruct (decide (root ≤ b)) as [Hrb|Hrb].
  { unfold root_entry. by rewrite mod_mod_pow2 by lia. }
  assert (∀ u v, 0 ≤ u → 0 ≤ v → u mod 2 ^ 15 mod 2 ^ b = v mod 2 ^ 15 mod 2 ^ b →
    bits (root_entry tab t0 root u) ≤ b → root_entry tab t0 root v = root_entry tab t0 root u) as Hone.
  { intros u v Hu Hv E Hle. pose proof (link_shape u Hu) as Hlu. pose proof (link_shape v Hv) as Hlv.
    cbv zeta in Hlu, Hlv. destruct (is_link (root_entry tab t0 root u)) eqn:Eu; [lia|].
    pose proof (lookup_stable (u mod 2 ^ 15) (v mod 2 ^ 15) b) as Hst.
    rewrite !lookup_window in Hst. cbv zeta in Hst. rewrite <-!root_entry_window, Eu in Hst. cbn [snd] in Hst.
    specialize (Hst ltac:(apply Z.mod_pos_bound; lia) ltac:(apply Z.mod_pos_bound; lia) ltac:(lia) E Hle).
    destruct (is_link (root_entry tab t0 root v)) eqn:Ev; [|congruence].
    assert (sub_entry tab t0 (root_entry tab t0 root v) (v mod 2 ^ 15)
      = sub_entry tab t0 (root_entry tab t0 root v) v) as Esub
      by (unfold sub_entry; rewrite mod_mod_pow2 by lia; done).
    rewrite Esub in Hst. injection Hst as _ ?. lia. }
  pose proof (window_mod b x Hx Hb) as Hwm. rewrite Z.min_l in Hwm by lia.
  pose proof (Z.mod_pos_bound x (2 ^ b)).
  destruct Hor as [H'|H']; [symmetry|]; apply Hone; (done || lia).
Qed.

Lemma sub_stable x b : 0 ≤ x → root ≤ b → let l := root_entry tab t0 root x in
  is_link l = true →
  root + bits (sub_entry tab t0 l (x mod 2 ^ b)) ≤ b ∨ root + bits (sub_entry tab t0 l x) ≤ b →
  sub_entry tab t0 l (x mod 2 ^ b) = sub_entry tab t0 l x.
Proof.
  intros Hx Hb l El Hor. pose proof (serves_root _ _ _ _ _ _ Hs) as Hr.
  pose proof (link_shape x Hx) as Hl. cbv zeta in Hl. fold l in Hl. rewrite El in Hl.
  destruct Hl as (_ & Hbl & Hop & Hop15 & Hbs).
  assert (∀ u, sub_entry tab t0 l u = sub_entry tab t0 l (u mod 2 ^ 15)) as Hsw
    by (intros; unfold sub_entry; by rewrite mod_mod_pow2 by lia).
  destruct (decide (15 ≤ b)) as [Hb15|Hb15].
  { unfold sub_entry. by rewrite mod_mod_pow2 by lia. }
  assert (root_entry tab t0 root (x mod 2 ^ b) = l) as El'
    by (unfold l, root_entry; by rewrite mod_mod_pow2 by lia).
  pose proof (window_mod b x Hx ltac:(lia)) as Hwm. rewrite Z.min_l in Hwm by lia.
  assert (∀ u, root_entry tab t0 root u = l → lookup tab t0 root (u mod 2 ^ 15)
    = (sub_entry tab t0 l u, root + bits (sub_entry tab t0 l u))) as Hlk.
  { intros u Eu. rewrite lookup_window, <-root_entry_window, Eu. cbv zeta. by rewrite El, Hbl, <-Hsw. }
  assert (∀ u, 0 ≤ u mod 2 ^ 15 < 2 ^ 15) as Hmb by (intros; apply Z.mod_pos_bound; lia).
  destruct Hor as [H'|H'].
  - pose proof (lookup_stable (x mod 2 ^ b mod 2 ^ 15) (x mod 2 ^ 15) b (Hmb _) (Hmb _) ltac:(lia) Hwm) as Hst.
    rewrite !Hlk in Hst by done. cbn [snd] in Hst. specialize (Hst H'). congruence.
  - pose proof (lookup_stable (x mod 2 ^ 15) (x mod 2 ^ b mod 2 ^ 15) b (Hmb _) (Hmb _) ltac:(lia) (eq_sym Hwm)) as Hst.
    rewrite !Hlk in Hst by done. cbn [snd] in Hst. specialize (Hst H'). congruence.
Qed.

(** The entry the tables give, and the bits it takes. *)
Definition found_entry (x : Z) : code * Z := lookup tab t0 root (x mod 2 ^ 15).

(** The reference decoder on the same bits. *)
Lemma found_symbol s : 0 ≤ Rfc1951.value s → 0 ≤ Rfc1951.avail s →
  let '(e, l) := found_entry (Rfc1951.value s) in
  1 ≤ l ≤ 15 ∧
  ((∃ y nb, 0 ≤ y < n ∧ entry_for type y nb e ∧
      Rfc1951.symbol lens n s
      = if Rfc1951.avail s <? l then Rfc1951.Short else Rfc1951.Ok y (Rfc1951.dropped l s)) ∨
   (e = Code 64 1 0 ∧
    Rfc1951.symbol lens n s = if Rfc1951.avail s <? l then Rfc1951.Short else Rfc1951.Bad)).
Proof.
  intros Hv Ha. destruct Hs as [Hok Hn Hacc Hr (ent & Hent & Hlook)].
  pose proof (window_range s) as Hw. unfold found_entry. fold (window s).
  pose proof (rev_range (window s)) as Hrev.
  assert (∀ i, 0 ≤ i < base lens n 16 → start lens n (i + 1) ≤ kraft lens n) as Hk.
  { intros i Hi. rewrite <-start_kraft. apply start_mono. lia. }
  destruct (Hlook _ Hw) as [_ [(i & nb & Hi & Hin & ->)|[Hbad ->]]].
  - destruct (sorted_range i Hi) as (Hy & Hl & _). split; [done|]. left.
    destruct (symbol_spec lens n Hok s Ha) as [(j & Hj & Hjn & Hsym)|[Hge _]];
      [|specialize (Hk i Hi); lia].
    assert (j = i) as -> by (by eapply interval_unique).
    exists (sorted lens n).[i], nb. split_and!; try done; try lia. by apply Hent.
  - split; [lia|]. right. split; [done|].
    destruct (symbol_spec lens n Hok s Ha) as [(j & Hj & Hjn & _)|[_ ->]]; [specialize (Hk j Hj); lia|].
    assert (Rfc1951.longest lens n ≤ 1) as Hlong by (eapply unused_longest; [done..|lia]).
    by rewrite Z.max_l by lia.
Qed.

End Serves.

(** ** The tables of a block *)

Lemma built_serves type lens codes tab t0 bits work r :
  table_args type lens codes tab t0 bits work →
  inflate_table type lens codes tab t0 bits work = Some r → ret r = 0 →
  serves type lens codes (table r) t0 (rbits r).
Proof.
  intros Hargs Hr H0. destruct (inflate_table_spec _ _ _ _ _ _ _ Hargs) as (r' & Hr' & _ & Hcase).
  assert (r' = r) as -> by congruence.
  destruct Hcase as [(? & _)|[(? & _)|(_ & Href & _ & Hrb & _ & _ & _ & Hdec)]]; [lia..|].
  destruct Hargs as [Hok Hcodes _ _ _ _]. split; try done.
  - destruct (Rfc1951.acceptable type lens codes) eqn:E; [done|].
    by apply acceptable_spec in E.
  - exists (symbol_entry type). split; [by left|]. intros w Hw. destruct (Hdec w Hw) as [[Htl Hd] _].
    split; [done|]. destruct Hd as [(i & nb & Hi & Hin & El)|Hbad]; [|by right].
    left. exists i, nb. by rewrite <-zlen_sorted.
Qed.

(** *** Code lengths *)

Lemma empty_symbol lens n s : lengths_ok lens n → Rfc1951.longest lens n = 0 →
  Rfc1951.symbol lens n s = if Rfc1951.avail s <? 1 then Rfc1951.Short else Rfc1951.Bad.
Proof.
  intros Hok E. destruct (longest_spec lens n Hok) as (_ & _ & _ & Hz). rewrite E in Hz.
  unfold Rfc1951.symbol. rewrite E. change (Z.to_nat (Z.max 1 0)) with 1%nat. cbn [Rfc1951.symbol_from].
  unfold mbind, Rfc1951.P_bind, Rfc1951.get. destruct (Rfc1951.avail s <? 1); [done|].
  rewrite Hz by lia. pose proof (Z.mod_pos_bound (Rfc1951.value s) (2 ^ 1)).
  by destruct (Z.ltb_spec (0 + Rfc1951.value s mod 2 ^ 1 - 0) 0); [lia|].
Qed.

Lemma accept_codes k m : 0 ≤ k < 2 ^ 15 → Rfc1951.accept CODES k m = true → k = 0.
Proof.
  unfold Rfc1951.accept. intros Hk Ha. destruct (Z.eqb_spec k (2 ^ 15)); [lia|].
  destruct (Z.eqb_spec k 0); [done|]. simpl in Ha. by rewrite andb_false_r in Ha.
Qed.

(** What CODELENS reads: the value of the entry, of an invalid one too. *)
Lemma found_length lens tab t0 root s : serves CODES lens 19 tab t0 root →
  0 ≤ Rfc1951.value s → 0 ≤ Rfc1951.avail s →
  let e := root_entry tab t0 root (Rfc1951.value s) in
  1 ≤ bits e ≤ 15 ∧ 0 ≤ val e < 19 ∧
  Rfc1951.length_symbol lens s
  = if Rfc1951.avail s <? bits e then Rfc1951.Short
    else Rfc1951.Ok (val e) (Rfc1951.dropped (bits e) s).
Proof.
  intros Hs HV HA e. pose proof (serves_lens _ _ _ _ _ _ Hs) as Hok.
  pose proof (link_shape _ _ _ _ _ _ Hs (Rfc1951.value s) HV) as Hsh. cbv zeta in Hsh. fold e in Hsh.
  destruct (is_link e) eqn:El; [by destruct Hsh as [? _]|].
  pose proof (root_entry_window _ _ _ _ _ _ Hs (Rfc1951.value s)) as Hwin. fold e in Hwin.
  assert (∀ a, let '(e', l) := found_entry tab t0 root (Rfc1951.value (Rfc1951.Bits (Rfc1951.value s) a)) in
    e' = e ∧ l = bits e) as Hfe.
  { intros a. unfold found_entry. rewrite lookup_window. cbn [Rfc1951.value]. rewrite <-Hwin, El. done. }
  assert (Rfc1951.longest lens 19 = 0 → e = Code 64 1 0) as Hempty.
  { intros E. pose proof (found_symbol _ _ _ _ _ _ Hs (Rfc1951.Bits (Rfc1951.value s) 15) HV ltac:(simpl; lia)) as Hf.
    specialize (Hfe 15). destruct (found_entry _ _ _ _) as [e' l]. destruct Hfe as [-> ->].
    destruct Hf as [Hl [(y & nb & Hy & He & Hsym)|[He _]]]; [|done].
    rewrite empty_symbol in Hsym by done. simpl in Hsym. by destruct (Z.ltb_spec 15 (bits e)); [lia|]. }
  pose proof (found_symbol _ _ _ _ _ _ Hs s HV HA) as Hf. specialize (Hfe (Rfc1951.avail s)).
  cbn [Rfc1951.value] in Hfe. destruct (found_entry _ _ _ _) as [e' l]. destruct Hfe as [-> ->].
  unfold Rfc1951.length_symbol. destruct Hf as [Hl [(y & nb & Hy & He & Hsym)|[He Hsym]]].
  - destruct He as [He|[? _]]; [|done]. simpl in He.
    destruct (Z.eqb_spec (Rfc1951.longest lens 19) 0) as [E|_].
    { specialize (Hempty E). congruence. }
    assert (val e = y) as -> by (by rewrite He). done.
  - destruct (Z.eqb_spec (Rfc1951.longest lens 19) 0) as [E|E].
    { rewrite He. cbn [bits val]. split; [lia|]. split; [lia|].
      unfold mbind, Rfc1951.P_bind, Rfc1951.get. by destruct (Rfc1951.avail s <? 1). }
    exfalso. destruct (serves_lookup _ _ _ _ _ _ Hs) as (ent & Hent & Hlook).
    destruct (Hlook (Rfc1951.value s mod 2 ^ 15)) as [_ Hc]; [apply Z.mod_pos_bound; lia|].
    rewrite lookup_window in Hc. cbv zeta in Hc. rewrite <-Hwin, El in Hc.
    destruct Hc as [(i & nb & Hi & _ & Hc)|[Hk _]].
    + injection Hc as Hc _. destruct (Hent (sorted lens 19).[i] nb) as [Hx|[? _]]; [|simpl in *; congruence|done].
      by apply sorted_range.
    + pose proof (rev_range (Rfc1951.value s mod 2 ^ 15)). 
      pose proof (kraft_nonneg lens 19). assert (0 ≤ kraft lens 19 < 2 ^ 15) as Hk15 by lia.
      pose proof (accept_codes _ _ Hk15 (serves_accept _ _ _ _ _ _ Hs)) as Ek.
      destruct (longest_spec lens 19 Hok) as (Hr & _ & Hp & _).
      pose proof (kraft_pos lens 19 (Rfc1951.longest lens 19)). lia.
Qed.

(** The tables serve on in a memory that keeps the entries they use. *)
Lemma built_serves_ext type lens codes tab t0 bits work r tab' :
  table_args type lens codes tab t0 bits work →
  inflate_table type lens codes tab t0 bits work = Some r → ret r = 0 →
  (∀ j, t0 ≤ j < t0 + advance r → tab'.[j] = (table r).[j]) →
  serves type lens codes tab' t0 (rbits r).
Proof.
  intros Hargs Hr H0 Hext. destruct (built_serves type lens codes tab t0 bits work r) as [? ? ? Hroot Hlook]; try done.
  destruct (inflate_table_spec _ _ _ _ _ _ _ Hargs) as (r' & Hr' & _ & Hcase).
  assert (r' = r) as -> by congruence.
  destruct Hcase as [(? & _)|[(? & _)|(_ & _ & _ & _ & _ & _ & Hadv & Hwi)]]; [lia..|].
  split; try done. destruct Hlook as (ent & Hent & Hlook). exists ent. split; [done|]. intros w Hw.
  destruct (Hlook w Hw) as [Htl Hl]. destruct (Hwi w Hw) as [_ Hin].
  assert (0 ≤ w mod 2 ^ rbits r < 2 ^ rbits r) as Hm by (apply Z.mod_pos_bound; lia).
  assert (lookup tab' t0 (rbits r) w = lookup (table r) t0 (rbits r) w) as El.
  { unfold lookup, within, two_level in *. rewrite Hext by lia. destruct (is_link _) eqn:Ek; [|done].
    destruct (Hin eq_refl) as [Hv1 Hv2]. destruct Htl as (_ & Hb & Hop & Hop15 & _).
    rewrite Hext; [done|]. set (e := (table r).[t0 + w mod 2 ^ rbits r]) in *. rewrite Hb.
    rewrite Z.shiftr_div_pow2, mod_pow2_split by lia.
    assert (0 ≤ (w / 2 ^ rbits r) mod 2 ^ op e < 2 ^ op e) as Hq by (apply Z.mod_pos_bound; lia).
    rewrite (Z.mul_comm (2 ^ rbits r)), Z.div_add, (Z.div_small (w mod _)) by lia. lia. }
  rewrite El. split; [|done]. unfold two_level in *. by rewrite El, Hext by lia.
Qed.

(** Only the entries of the root table matter when none is a link. *)
Lemma lookup_root tab t0 root w : is_link tab.[t0 + w mod 2 ^ root] = false →
  lookup tab t0 root w = (tab.[t0 + w mod 2 ^ root], bits tab.[t0 + w mod 2 ^ root]).
Proof. intros E. unfold lookup. by rewrite E. Qed.

(** Rewriting the entries of a table without links, where it keeps what they
    mean. *)
Lemma patched_serves type lens n tab tab' root (patch : code → code) :
  serves type lens n tab 0 root →
  (∀ i, 0 ≤ i < 2 ^ root → is_link tab.[i] = false ∧ tab'.[i] = patch tab.[i]) →
  (∀ e, bits (patch e) = bits e) → (∀ e, is_link e = false → is_link (patch e) = false) →
  patch (Code 64 1 0) = Code 64 1 0 →
  (∀ y nb e, 0 ≤ y < n → entry_for type y nb e → entry_for type y nb (patch e)) →
  serves type lens n tab' 0 root.
Proof.
  intros [Hok Hn Hacc Hr (ent & Hent & Hlook)] Htab Hb Hlink Hbad Hfor. split; try done.
  exists (λ y nb, patch (ent y nb)). split; [auto|]. intros w Hw.
  destruct (Htab (w mod 2 ^ root)) as [Hnl Hp]; [apply Z.mod_pos_bound; lia|].
  assert (is_link tab'.[w mod 2 ^ root] = false) as Hnl' by (rewrite Hp; auto).
  destruct (Hlook w Hw) as [Htl Hd]. unfold two_level in *.
  rewrite lookup_root in Hd by (by rewrite Z.add_0_l). rewrite lookup_root by (by rewrite Z.add_0_l).
  rewrite Z.add_0_l in *. rewrite Hnl in Htl. rewrite Hnl', Hp, Hb. split; [done|].
  destruct Hd as [(i & nb & Hi & Hin & Hd)|[Hk Hd]]; injection Hd as He Hbe; rewrite He in *.
  - left. exists i, nb. by rewrite Hbe.
  - right. by rewrite Hbad.
Qed.

(** The tables inflate_table builds for the fixed code. *)
Definition built_len : option result :=
  inflate_table LENS Rfc1951.fixed_ll 288 (replicate 852 (Code 0 0 0)) 0 9 (replicate 288 0).
Definition built_dist : option result :=
  inflate_table DISTS Rfc1951.fixed_ld 32 (replicate 592 (Code 0 0 0)) 0 5 (replicate 288 0).

Lemma fixed_len_args :
  table_args LENS Rfc1951.fixed_ll 288 (replicate 852 (Code 0 0 0)) 0 9 (replicate 288 0).
Proof.
  split; [|vm_compute; intuition congruence..].
  split; [vm_compute; split; discriminate|]. split; [done|]. intros s Hs.
  assert (forall_range (λ s, (0 <=? Rfc1951.fixed_ll.[s]) && (Rfc1951.fixed_ll.[s] <=? 15)) 0 288 = true) as H
    by (vm_compute; reflexivity).
  apply (forall_range_spec _ _ _ s) in H; [|lia]. cbv beta in H. lia.
Qed.

Lemma fixed_dist_args :
  table_args DISTS Rfc1951.fixed_ld 32 (replicate 592 (Code 0 0 0)) 0 5 (replicate 288 0).
Proof.
  split; [|vm_compute; intuition congruence..].
  split; [vm_compute; split; discriminate|]. split; [done|]. intros s Hs.
  assert (forall_range (λ s, (0 <=? Rfc1951.fixed_ld.[s]) && (Rfc1951.fixed_ld.[s] <=? 15)) 0 32 = true) as H
    by (vm_compute; reflexivity).
  apply (forall_range_spec _ _ _ s) in H; [|lia]. cbv beta in H. lia.
Qed.

(** A table that is built, with a property of its entries. *)
Lemma built_entries type lens codes tab bits work root (f : result → Z → bool) m :
  table_args type lens codes tab 0 bits work →
  match inflate_table type lens codes tab 0 bits work with
  | Some r => (ret r =? 0) && (rbits r =? root) && forall_range (f r) 0 m
  | None => false
  end = true →
  ∃ r, serves type lens codes (table r) 0 root ∧ ∀ i, 0 ≤ i < Z.of_nat m → f r i = true.
Proof.
  intros Hargs. destruct (inflate_table type lens codes tab 0 bits work) as [r|] eqn:E; [|done].
  intros [[H0%Z.eqb_eq <-%Z.eqb_eq]%andb_true_iff Hf]%andb_true_iff. exists r.
  split; [by eapply built_serves|]. intros i Hi. by apply (forall_range_spec _ _ _ i Hf).
Qed.

(** What makefixed prints for the symbols that do not occur. *)
Definition print_entry (e : code) : code :=
  if (op e =? 77) || (op e =? 202) then Code 64 (bits e) 0 else e.

Lemma len_invalid y nb : 0 ≤ y < 286 → print_entry (symbol_entry LENS y nb) = symbol_entry LENS y nb.
Proof.
  intros Hy. assert (forall_range (λ y,
    negb ((op (symbol_entry LENS y 0) =? 77) || (op (symbol_entry LENS y 0) =? 202))) 0 286 = true) as H
    by (vm_compute; reflexivity).
  apply (forall_range_spec _ _ _ y), negb_true_iff in H; [|lia]. unfold print_entry.
  assert (op (symbol_entry LENS y nb) = op (symbol_entry LENS y 0)) as -> by (simpl; repeat case_match; done).
  by rewrite H.
Qed.

Lemma len_fixed_serves : serves LENS Rfc1951.fixed_ll 288 Inffixed.lenfix 0 9.
Proof.
  destruct (built_entries LENS Rfc1951.fixed_ll 288 (replicate 852 (Code 0 0 0)) 9 (replicate 288 0) 9
    (λ r i, negb (is_link (table r).[i]) && bool_decide (Inffixed.lenfix.[i] = print_entry (table r).[i])) 512
    fixed_len_args) as (r & Hs & Hf); [vm_compute; reflexivity|].
  eapply (patched_serves _ _ _ _ _ _ print_entry Hs); unfold print_entry.
  - intros i Hi. specialize (Hf i Hi).
    apply andb_true_iff in Hf as [?%negb_true_iff ?%bool_decide_eq_true]. done.
  - intros e. by case_match.
  - intros e. by case_match.
  - reflexivity.
  - intros y nb e Hy He. destruct (decide (y < 286)).
    + destruct He as [->|(_ & ? & _)]; [|lia]. left. apply len_invalid. lia.
    + rewrite <-(entry_bits _ _ _ _ He). fold (print_entry e). unfold print_entry.
      destruct ((op e =? 77) || (op e =? 202)); [right|by rewrite (entry_bits _ _ _ _ He)].
      split; [reflexivity|]. split; [lia|reflexivity].
Qed.

Lemma dist_fixed_serves : serves DISTS Rfc1951.fixed_ld 32 Inffixed.distfix 0 5.
Proof.
  destruct (built_entries DISTS Rfc1951.fixed_ld 32 (replicate 592 (Code 0 0 0)) 5 (replicate 288 0) 5
    (λ r i, negb (is_link (table r).[i]) && bool_decide (Inffixed.distfix.[i] = (table r).[i])) 32
    fixed_dist_args) as (r & Hs & Hf); [vm_compute; reflexivity|].
  eapply (patched_serves _ _ _ _ _ _ id Hs); auto.
  intros i Hi. specialize (Hf i Hi).
  apply andb_true_iff in Hf as [?%negb_true_iff ?%bool_decide_eq_true]. done.
Qed.

End Symbols.
