(* ===== verification/InflateState.v ===== *)
(** * zlib/inflate.h and the stream operations of zlib/inflate.c

    The stream and inflate state records, the operations that create, reset,
    query and release a stream, and the sliding window. A [z_streamp] argument
    is an [option z_stream] ([None] for Z_NULL); allocation is a function from a
    size to fresh memory or failure. *)

From Stdlib Require Import String.
From S2P Require Import Prelude Adler32 Crc32 Inftrees.

Module InflateState.

(** ** zlib.h *)

Definition Z_NO_FLUSH : Z := 0.
Definition Z_FINISH : Z := 4.
Definition Z_BLOCK : Z := 5.
Definition Z_TREES : Z := 6.
Definition Z_OK : Z := 0.
Definition Z_STREAM_END : Z := 1.
Definition Z_NEED_DICT : Z := 2.
Definition Z_STREAM_ERROR : Z := -2.
Definition Z_DATA_ERROR : Z := -3.
Definition Z_MEM_ERROR : Z := -4.
Definition Z_BUF_ERROR : Z := -5.
Definition Z_VERSION_ERROR : Z := -6.
Definition Z_DEFLATED : Z := 8.
Definition DEF_WBITS : Z := 15.

(** A buffer pointer of the header is its memory, [None] for Z_NULL. *)
Record gz_header := Header {
  text : Z; time : Z; xflags : Z; os : Z; h_extra : option (list Z); extra_len : Z;
  extra_max : Z; name : option (list Z); name_max : Z; comment : option (list Z);
  comm_max : Z; hcrc : Z; done_ : Z
}.
#[global] Instance gz_header_eta : Eta gz_header := λ h,
  Header (text h) (time h) (xflags h) (os h) (h_extra h) (extra_len h) (extra_max h)
    (name h) (name_max h) (comment h) (comm_max h) (hcrc h) (done_ h).

(** ** inflate.h *)

Inductive inflate_mode :=
  | HEAD | FLAGS | TIME | OS | EXLEN | EXTRA | NAME | COMMENT | HCRC | DICTID | DICT
  | TYPE | TYPEDO | STORED | COPY_ | COPY | TABLE | LENLENS | CODELENS
  | LEN_ | LEN | LENEXT | DIST | DISTEXT | MATCH | LIT
  | CHECK | LENGTH | DONE | BAD | MEM | SYNC.
#[global] Instance inflate_mode_eq_dec : EqDecision inflate_mode.
Proof. solve_decision. Defined.

(** The value of the enumerator. *)
Definition mode_val (m : inflate_mode) : Z :=
  match m with
  | HEAD => 16180 | FLAGS => 16181 | TIME => 16182 | OS => 16183 | EXLEN => 16184
  | EXTRA => 16185 | NAME => 16186 | COMMENT => 16187 | HCRC => 16188 | DICTID => 16189
  | DICT => 16190 | TYPE => 16191 | TYPEDO => 16192 | STORED => 16193 | COPY_ => 16194
  | COPY => 16195 | TABLE => 16196 | LENLENS => 16197 | CODELENS => 16198 | LEN_ => 16199
  | LEN => 16200 | LENEXT => 16201 | DIST => 16202 | DISTEXT => 16203 | MATCH => 16204
  | LIT => 16205 | CHECK => 16206 | LENGTH => 16207 | DONE => 16208 | BAD => 16209
  | MEM => 16210 | SYNC => 16211
  end.

(** Where [lencode] and [distcode] point: into [codes], or at a fixed table. *)
Inductive code_ptr := InCodes (off : Z) | LenFix | DistFix.

(** [strm] is the identity of the stream the state belongs to; [next] is an
    index of [codes]. *)
Record inflate_state := State {
  strm : Z; mode : inflate_mode; last : Z; wrap_ : Z; havedict : Z; flags : Z; dmax : Z;
  check : Z; total : Z; head : option gz_header;
  wbits : Z; wsize : Z; whave : Z; wnext : Z; window : option (list Z);
  hold : Z; bits : Z; length_ : Z; offset : Z; extra : Z;
  lencode : code_ptr; distcode : code_ptr; lenbits : Z; distbits : Z;
  ncode : Z; nlen : Z; ndist : Z; have : Z; next : Z;
  lens : list Z; work : list Z; codes : list Inftrees.code;
  sane : Z; back : Z; was : Z
}.
#[global] Instance inflate_state_eta : Eta inflate_state := λ s,
  State (strm s) (mode s) (last s) (wrap_ s) (havedict s) (flags s) (dmax s)
    (check s) (total s) (head s) (wbits s) (wsize s) (whave s) (wnext s) (window s)
    (hold s) (bits s) (length_ s) (offset s) (extra s)
    (lencode s) (distcode s) (lenbits s) (distbits s)
    (ncode s) (nlen s) (ndist s) (have s) (next s)
    (lens s) (work s) (codes s) (sane s) (back s) (was s).

(** The stream. [next_in] lists the bytes available; [written] lists the bytes
    written at [next_out] so far, of which the room left is [avail_out];
    [self] is the stream's identity, [zalloc] and [zfree] say whether the
    functions are set. *)
Inductive in_ptr := InNull (avail : Z) | InBuf (l : list Z).

Record z_stream := Stream {
  self : Z; next_in : in_ptr; total_in : Z; out_null : bool; written : list Z; avail_out : Z;
  total_out : Z; msg : option string; state : option inflate_state; zalloc : bool;
  zfree : bool; data_type : Z; adler : Z
}.
#[global] Instance z_stream_eta : Eta z_stream := λ s,
  Stream (self s) (next_in s) (total_in s) (out_null s) (written s) (avail_out s)
    (total_out s) (msg s) (state s) (zalloc s) (zfree s) (data_type s) (adler s).

Definition in_bytes (p : in_ptr) : list Z := match p with InNull _ => [] | InBuf l => l end.
Definition avail_in (s : z_stream) : Z :=
  match next_in s with InNull n => n | InBuf l => zlen l end.

(** [strm->state = st] where the state is already present. *)
Definition with_state (st : inflate_state) (s : z_stream) : z_stream := s <| state := Some st |>.

(** ** Checking a stream

    [inflateStateCheck] returns [None] for its error return 1. *)
Definition inflateStateCheck (strm : option z_stream) : option (z_stream * inflate_state) :=
  match strm with
  | None => None
  | Some s =>
      if negb (zalloc s) || negb (zfree s) then None
      else
        match state s with
        | None => None
        | Some st =>
            if negb (InflateState.strm st =? self s) || (mode_val (mode st) <? mode_val HEAD)
               || (mode_val SYNC <? mode_val (mode st)) then None
            else Some (s, st)
        end
  end.

(** ** Reset and initialisation *)

Definition reset_keep (s : z_stream) (st : inflate_state) : z_stream :=
  let s := s <| total_in := 0 |> <| total_out := 0 |> <| msg := None |> in
  let s := if c_true (wrap_ st) then s <| adler := wrap_ st .& 1 |> else s in
  with_state (st <| total := 0 |> <| mode := HEAD |> <| last := 0 |> <| havedict := 0 |>
    <| dmax := 32768 |> <| head := None |> <| hold := 0 |> <| bits := 0 |>
    <| lencode := InCodes 0 |> <| distcode := InCodes 0 |> <| next := 0 |>
    <| sane := 1 |> <| back := -1 |>) s.

Definition inflateResetKeep (strm : option z_stream) : Z * option z_stream :=
  match inflateStateCheck strm with
  | None => (Z_STREAM_ERROR, strm)
  | Some (s, st) => (Z_OK, Some (reset_keep s st))
  end.

Definition inflateReset (strm : option z_stream) : Z * option z_stream :=
  match inflateStateCheck strm with
  | None => (Z_STREAM_ERROR, strm)
  | Some (s, st) =>
      inflateResetKeep (Some (with_state (st <| wsize := 0 |> <| whave := 0 |> <| wnext := 0 |>) s))
  end.

(** The wrap request and window bits in a [windowBits] argument. *)
Definition wrap_request (windowBits : Z) : Z * Z :=
  if windowBits <? 0 then (0, - windowBits)
  else ((windowBits ≫ 4) + 5, if windowBits <? 48 then windowBits .& 15 else windowBits).

Definition inflateReset2 (strm : option z_stream) (windowBits : Z) : Z * option z_stream :=
  match inflateStateCheck strm with
  | None => (Z_STREAM_ERROR, strm)
  | Some (s, st) =>
      let '(wrap, windowBits) := wrap_request windowBits in
      if c_true windowBits && ((windowBits <? 8) || (15 <? windowBits)) then
        (Z_STREAM_ERROR, strm)
      else
        let st :=
          match window st with
          | Some _ => if negb (wbits st =? windowBits) then st <| window := None |> else st
          | None => st
          end in
        inflateReset (Some (with_state (st <| wrap_ := wrap |> <| wbits := windowBits |>) s))
  end.

Definition ZLIB_VERSION : list Z := [49; 46; 50; 46; 49; 49].
Definition sizeof_z_stream : Z := 88.

(** [fresh] is the memory ZALLOC returns for the state, uninitialised. *)
Definition inflateInit2_ (fresh : option inflate_state) (strm : option z_stream) (windowBits : Z)
    (version : option (list Z)) (stream_size : Z) : Z * option z_stream :=
  match version with
  | None => (Z_VERSION_ERROR, strm)
  | Some v =>
      if negb (v.[0] =? ZLIB_VERSION.[0]) || negb (stream_size =? sizeof_z_stream) then
        (Z_VERSION_ERROR, strm)
      else
        match strm with
        | None => (Z_STREAM_ERROR, strm)
        | Some s =>
            let s := s <| msg := None |> <| zalloc := true |> <| zfree := true |> in
            match fresh with
            | None => (Z_MEM_ERROR, Some s)
            | Some st =>
                let st := st <| InflateState.strm := self s |> <| window := None |> <| mode := HEAD |> in
                let '(ret, strm) := inflateReset2 (Some (with_state st s)) windowBits in
                if negb (ret =? Z_OK) then
                  (ret, option_map (λ s, s <| state := None |>) strm)
                else (ret, strm)
            end
        end
  end.

Definition inflateInit_ (fresh : option inflate_state) (strm : option z_stream)
    (version : option (list Z)) (stream_size : Z) : Z * option z_stream :=
  inflateInit2_ fresh strm DEF_WBITS version stream_size.

Definition inflatePrime (strm : option z_stream) (nbits value : Z) : Z * option z_stream :=
  match inflateStateCheck strm with
  | None => (Z_STREAM_ERROR, strm)
  | Some (s, st) =>
      if nbits <? 0 then (Z_OK, Some (with_state (st <| hold := 0 |> <| bits := 0 |>) s))
      else if (16 <? nbits) || (32 <? u32 (bits st + nbits)) then (Z_STREAM_ERROR, strm)
      else
        let value := value .& ((1 ≪ nbits) - 1) in
        (Z_OK, Some (with_state (st <| hold := u32 (hold st + u32 (u32 value ≪ bits st)) |>
                                    <| bits := bits st + nbits |>) s))
  end.

(** ** The sliding window

    [updatewindow] copies the last [copy] bytes of [data], those before [end],
    into the circular window; [None] is its error return. *)
Section UpdateWindow.
  (** ZALLOC: the memory it returns for a size, or failure. *)
  Context (ZALLOC : Z → option (list Z)).

(** Allocate and initialise the window when needed. *)
Definition init_window (st : inflate_state) : option inflate_state :=
  st ← match window st with
       | Some _ => Some st
       | None => w ← ZALLOC (1 ≪ wbits st); Some (st <| window := Some w |>)
       end;
  Some (if wsize st =? 0
        then st <| wsize := 1 ≪ wbits st |> <| wnext := 0 |> <| whave := 0 |> else st).

(** The last [n] bytes of [data]. *)
Definition last_bytes (n : Z) (data : list Z) : list Z := drop (length data - Z.to_nat n) data.

Definition copy_window (st : inflate_state) (data : list Z) (copy : Z) : inflate_state :=
  let w := default [] (window st) in
  if wsize st <=? copy then
    st <| window := Some (memcpy w 0 (last_bytes (wsize st) data)) |>
       <| wnext := 0 |> <| whave := wsize st |>
  else
    let dist := if copy <? wsize st - wnext st then copy else wsize st - wnext st in
    let w := memcpy w (wnext st) (take (Z.to_nat dist) (last_bytes copy data)) in
    let copy := copy - dist in
    if c_true copy then
      st <| window := Some (memcpy w 0 (last_bytes copy data)) |>
         <| wnext := copy |> <| whave := wsize st |>
    else
      let wnext' := wnext st + dist in
      st <| window := Some w |>
         <| wnext := if wnext' =? wsize st then 0 else wnext' |>
         <| whave := if whave st <? wsize st then whave st + dist else whave st |>.

Definition updatewindow (st : inflate_state) (data : list Z) (copy : Z) : option inflate_state :=
  st ← init_window st; Some (copy_window st data copy).

(** ** Dictionaries *)

(** The dictionary copied out, when the caller asks for it, and its length. *)
Definition inflateGetDictionary (strm : option z_stream) : Z * option (list Z * Z) :=
  match inflateStateCheck strm with
  | None => (Z_STREAM_ERROR, None)
  | Some (_, st) =>
      let w := default [] (window st) in
      let dict :=
        if c_true (whave st) then
          take (Z.to_nat (whave st - wnext st)) (drop (Z.to_nat (wnext st)) w)
          ++ take (Z.to_nat (wnext st)) w
        else [] in
      (Z_OK, Some (dict, whave st))
  end.

Definition inflateSetDictionary (strm : option z_stream) (dictionary : list Z) : Z * option z_stream :=
  match inflateStateCheck strm with
  | None => (Z_STREAM_ERROR, strm)
  | Some (s, st) =>
      if c_true (wrap_ st) && negb (bool_decide (mode st = DICT)) then (Z_STREAM_ERROR, strm)
      else if bool_decide (mode st = DICT) &&
              negb (Adler32.adler32 (Adler32.adler32 0 None) (Some dictionary) =? check st) then
        (Z_DATA_ERROR, strm)
      else
        match updatewindow st dictionary (zlen dictionary) with
        | None => (Z_MEM_ERROR, Some (with_state (st <| mode := MEM |>) s))
        | Some st => (Z_OK, Some (with_state (st <| havedict := 1 |>) s))
        end
  end.

End UpdateWindow.

Definition inflateGetHeader (strm : option z_stream) (h : gz_header) : Z * option z_stream :=
  match inflateStateCheck strm with
  | None => (Z_STREAM_ERROR, strm)
  | Some (s, st) =>
      if (wrap_ st .& 2) =? 0 then (Z_STREAM_ERROR, strm)
      else (Z_OK, Some (with_state (st <| head := Some (h <| done_ := 0 |>) |>) s))
  end.

(** ** Synchronisation *)

(** One byte of [syncsearch]: the number of pattern bytes matched so far. *)
Definition sync_byte (got b : Z) : Z :=
  if b =? (if got <? 2 then 0 else 0xff) then got + 1
  else if c_true b then 0 else 4 - got.

(** The new [*have] and the number of bytes read. *)
Fixpoint syncsearch (got : Z) (buf : list Z) : Z * Z :=
  match buf with
  | [] => (got, 0)
  | b :: buf' =>
      if got <? 4 then
        let '(got, n) := syncsearch (sync_byte got b) buf' in (got, n + 1)
      else (got, 0)
  end.

(** The whole bytes of the bit buffer, as [inflateSync] unloads them. *)
Fixpoint unload_bytes (fuel : nat) (hold bits : Z) (buf : list Z) : Z * Z * list Z :=
  match fuel with
  | O => (hold, bits, buf)
  | S fuel =>
      if 8 <=? bits then unload_bytes fuel (hold ≫ 8) (bits - 8) (buf ++ [u8 hold])
      else (hold, bits, buf)
  end.

Definition sync_start (st : inflate_state) : inflate_state :=
  if bool_decide (mode st = SYNC) then st
  else
    let hold := u32 (hold st ≪ (bits st .& 7)) in
    let bits := bits st - (bits st .& 7) in
    let '(hold, bits, buf) := unload_bytes 4 hold bits [] in
    let '(got, _) := syncsearch 0 buf in
    st <| mode := SYNC |> <| InflateState.hold := hold |> <| InflateState.bits := bits |>
       <| have := got |>.

Definition inflateSync (strm : option z_stream) : Z * option z_stream :=
  match inflateStateCheck strm with
  | None => (Z_STREAM_ERROR, strm)
  | Some (s, st) =>
      if (avail_in s =? 0) && (bits st <? 8) then (Z_BUF_ERROR, strm)
      else
        let st := sync_start st in
        let '(got, len) := syncsearch (have st) (in_bytes (next_in s)) in
        let s := s <| next_in := InBuf (drop (Z.to_nat len) (in_bytes (next_in s))) |>
                   <| total_in := u32 (total_in s + len) |> in
        let st := st <| have := got |> in
        if negb (got =? 4) then (Z_DATA_ERROR, Some (with_state st s))
        else
          let '(ti, to) := (total_in s, total_out s) in
          let '(_, strm) := inflateReset (Some (with_state st s)) in
          (Z_OK, option_map (λ s, s <| total_in := ti |> <| total_out := to |>
                                     <| state := option_map (λ st, st <| mode := TYPE |>) (state s) |>)
                   strm)
  end.

Definition inflateSyncPoint (strm : option z_stream) : Z :=
  match inflateStateCheck strm with
  | None => Z_STREAM_ERROR
  | Some (_, st) => if bool_decide (mode st = STORED) && (bits st =? 0) then 1 else 0
  end.

(** ** Copy, end and queries *)

(** [dest] is the identity of the destination, [None] for Z_NULL; [fresh]
    tells whether the state could be allocated. The table pointers are indices,
    so they carry over. *)
Definition inflateCopy (ZALLOC : Z → option (list Z)) (fresh : bool) (dest : option Z)
    (source : option z_stream) : Z * option z_stream :=
  match inflateStateCheck source, dest with
  | Some (s, st), Some d =>
      if negb fresh then (Z_MEM_ERROR, None)
      else
        match window st with
        | None => (Z_OK, Some (s <| self := d |> <| state := Some (st <| strm := d |>) |>))
        | Some w =>
            match ZALLOC (1 ≪ wbits st) with
            | None => (Z_MEM_ERROR, None)
            | Some w' =>
                let w' := memcpy w' 0 (take (Z.to_nat (1 ≪ wbits st)) w) in
                (Z_OK, Some (s <| self := d |>
                               <| state := Some (st <| strm := d |> <| window := Some w' |>) |>))
            end
        end
  | _, _ => (Z_STREAM_ERROR, None)
  end.

Definition inflateEnd (strm : option z_stream) : Z * option z_stream :=
  match inflateStateCheck strm with
  | None => (Z_STREAM_ERROR, strm)
  | Some (s, _) => (Z_OK, Some (s <| state := None |>))
  end.

(** Without INFLATE_ALLOW_INVALID_DISTANCE_TOOFAR_ARRR. *)
Definition inflateUndermine (strm : option z_stream) (subvert : Z) : Z * option z_stream :=
  match inflateStateCheck strm with
  | None => (Z_STREAM_ERROR, strm)
  | Some (s, st) => (Z_DATA_ERROR, Some (with_state (st <| sane := 1 |>) s))
  end.

Definition inflateValidate (strm : option z_stream) (chk : Z) : Z * option z_stream :=
  match inflateStateCheck strm with
  | None => (Z_STREAM_ERROR, strm)
  | Some (s, st) =>
      (Z_OK, Some (with_state (if c_true chk then st <| wrap_ := wrap_ st .| 4 |>
                               else st <| wrap_ := Z.ldiff (wrap_ st) 4 |>) s))
  end.

Definition inflateMark (strm : option z_stream) : Z :=
  match inflateStateCheck strm with
  | None => - (1 ≪ 16)
  | Some (_, st) =>
      i32 (i32 (u32 (back st) ≪ 16)
           + (if bool_decide (mode st = COPY) then length_ st
              else if bool_decide (mode st = MATCH) then u32 (was st - length_ st) else 0))
  end.

Definition inflateCodesUsed (strm : option z_stream) : Z :=
  match inflateStateCheck strm with
  | None => u32 (-1)
  | Some (_, st) => next st
  end.

End InflateState.
