(* ===== verification/Inffast.v ===== *)
(** * zlib/inffast.c: the fast decoding loop

    [inflate_fast] on the local variables it copies from the stream: the input
    is a buffer and the position [in], the output the list of the bytes written
    so far, a pointer [from] an index of the window or of the output. *)

From Stdlib Require Import String.
From S2P Require Import Prelude Inftrees Inffixed InflateState.

Module Inffast.
Import InflateState.

(** ** Reading a table through a pointer *)

Definition code_at (st : inflate_state) (p : code_ptr) (i : Z) : Inftrees.code :=
  match p with
  | InCodes off => (codes st).[off + i]
  | LenFix => Inffixed.lenfix.[i]
  | DistFix => Inffixed.distfix.[i]
  end.

(** ** Copying *)

(** Where [from] points. *)
Inductive src := Win (i : Z) | Out (i : Z).

Definition src_byte (window out : list Z) (from : src) : Z :=
  match from with Win i => window.[i] | Out i => out.[i] end.
Definition src_next (from : src) : src :=
  match from with Win i => Win (i + 1) | Out i => Out (i + 1) end.

(** [*out++ = *from++], [n] times. *)
Fixpoint copy_bytes (window : list Z) (n : nat) (from : src) (out : list Z) : src * list Z :=
  match n with
  | O => (from, out)
  | S n => copy_bytes window n (src_next from) (out ++ [src_byte window out from])
  end.

(** [while (len > 2) { three bytes; len -= 3; } if (len) ...] *)
Fixpoint copy_by3 (window : list Z) (fuel : nat) (len : Z) (from : src) (out : list Z) : list Z :=
  match fuel with
  | O => out
  | S fuel =>
      if 2 <? len then
        let '(from, out) := copy_bytes window 3 from out in
        copy_by3 window fuel (len - 3) from out
      else if c_true len then
        let '(from, out) := copy_bytes window 1 from out in
        if 1 <? len then (copy_bytes window 1 from out).2 else out
      else out
  end.

(** [do { three bytes; len -= 3; } while (len > 2); if (len) ...] *)
Definition copy_direct (window : list Z) (len : Z) (from : src) (out : list Z) : list Z :=
  let '(from, out) := copy_bytes window 3 from out in
  copy_by3 window (Z.to_nat len) (len - 3) from out.

(** A match that begins [op] bytes back in the window: the parts taken from the
    window, and the rest. *)
Definition copy_window_match (st : inflate_state) (op len dist : Z) (out : list Z) : list Z :=
  let w := default [] (window st) in
  let '(from, len, out) :=
    if wnext st =? 0 then
      let from := Win (wsize st - op) in
      if op <? len then
        let '(_, out) := copy_bytes w (Z.to_nat op) from out in
        (Out (zlen out - dist), len - op, out)
      else (from, len, out)
    else if wnext st <? op then
      let from := Win (wsize st + wnext st - op) in
      let op := op - wnext st in
      if op <? len then
        let len := len - op in
        let '(_, out) := copy_bytes w (Z.to_nat op) from out in
        let from := Win 0 in
        if wnext st <? len then
          let '(_, out) := copy_bytes w (Z.to_nat (wnext st)) from out in
          (Out (zlen out - dist), len - wnext st, out)
        else (from, len, out)
      else (from, len, out)
    else
      let from := Win (wnext st - op) in
      if op <? len then
        let '(_, out) := copy_bytes w (Z.to_nat op) from out in
        (Out (zlen out - dist), len - op, out)
      else (from, len, out) in
  copy_by3 w (Z.to_nat len) len from out.

(** ** The loop *)

Record fast := Fast { in_ : Z; out : list Z; hold : Z; bits : Z }.
#[global] Instance fast_eta : Eta fast := λ f, Fast (in_ f) (out f) (hold f) (bits f).

(** How one round of the loop ends. *)
Inductive round := Cont (f : fast) | EndBlock (f : fast) | Error (m : string) (f : fast) | Stuck.

Section Fast.
  (** The input buffer, the state on entry, and [beg] as an index of [out]. *)
  Context (inb : list Z) (st : inflate_state) (beg : Z).

Definition pull (f : fast) : fast :=
  f <| hold := u32 (hold f + u32 (inb.[in_ f] ≪ bits f)) |> <| in_ := in_ f + 1 |>
    <| bits := bits f + 8 |>.

Definition dropbits (n : Z) (f : fast) : fast :=
  f <| hold := hold f ≫ n |> <| bits := u32 (bits f - n) |>.

Definition refill15 (f : fast) : fast := if bits f <? 15 then pull (pull f) else f.

(** A match of length [len] and distance [dist]. *)
Definition do_match (len dist : Z) (f : fast) : round :=
  let op := zlen (out f) - beg in
  if op <? dist then
    let op := dist - op in
    if (whave st <? op) && c_true (sane st) then
      Error "invalid distance too far back"%string f
    else Cont (f <| out := copy_window_match st op len dist (out f) |>)
  else
    Cont (f <| out := copy_direct (default [] (window st)) len (Out (zlen (out f) - dist)) (out f) |>).

(** From the label [dodist], with the length of the match decoded. *)
Fixpoint dodist (fuel : nat) (len : Z) (here : Inftrees.code) (f : fast) : round :=
  match fuel with
  | O => Stuck
  | S fuel =>
      let f := dropbits (Inftrees.bits here) f in
      let op := Inftrees.op here in
      if c_true (op .& 16) then
        let op := op .& 15 in
        let f := if bits f <? op then
                   let f := pull f in if bits f <? op then pull f else f
                 else f in
        let dist := Inftrees.val here + (hold f .& ((1 ≪ op) - 1)) in
        do_match len dist (dropbits op f)
      else if (op .& 64) =? 0 then
        dodist fuel len (code_at st (distcode st)
          (Inftrees.val here + (hold f .& ((1 ≪ op) - 1)))) f
      else Error "invalid distance code"%string f
  end.

(** From the label [dolen]. *)
Fixpoint dolen (fuel : nat) (here : Inftrees.code) (f : fast) : round :=
  match fuel with
  | O => Stuck
  | S fuel =>
      let f := dropbits (Inftrees.bits here) f in
      let op := Inftrees.op here in
      if op =? 0 then Cont (f <| out := out f ++ [u8 (Inftrees.val here)] |>)
      else if c_true (op .& 16) then
        let op := op .& 15 in
        let '(len, f) :=
          if c_true op then
            let f := if bits f <? op then pull f else f in
            (Inftrees.val here + (hold f .& ((1 ≪ op) - 1)), dropbits op f)
          else (Inftrees.val here, f) in
        let f := refill15 f in
        dodist 16 len (code_at st (distcode st) (hold f .& ((1 ≪ distbits st) - 1))) f
      else if (op .& 64) =? 0 then
        dolen fuel (code_at st (lencode st) (Inftrees.val here + (hold f .& ((1 ≪ op) - 1)))) f
      else if c_true (op .& 32) then EndBlock f
      else Error "invalid literal/length code"%string f
  end.

Definition fast_round (f : fast) : round :=
  let f := refill15 f in
  dolen 16 (code_at st (lencode st) (hold f .& ((1 ≪ lenbits st) - 1))) f.

(** [do ... while (in < last && out < end)]: six input bytes and 258 bytes of
    room are left; [room] is the length of [out] at the end of the buffer. *)
Fixpoint fast_loop (fuel : nat) (room : Z) (f : fast) : round :=
  match fuel with
  | O => Stuck
  | S fuel =>
      match fast_round f with
      | Cont f =>
          if (in_ f <? zlen inb - 5) && (zlen (out f) <? room - 257) then fast_loop fuel room f
          else Cont f
      | r => r
      end
  end.

(** Return the unused bytes. *)
Definition return_bytes (f : fast) : fast :=
  let len := bits f ≫ 3 in
  let bits := bits f - (len ≪ 3) in
  f <| in_ := in_ f - len |> <| Inffast.bits := bits |>
    <| hold := hold f .& ((1 ≪ bits) - 1) |>.

End Fast.

(** What [inflate_fast] leaves in the stream and state. *)
Record fast_result := FastResult {
  f_next : list Z; f_written : list Z; f_left : Z; f_hold : Z; f_bits : Z;
  f_mode : inflate_mode; f_msg : option string
}.

(** [inflate_fast(strm, start)] on the input [inb], the bytes [written] so far
    and [left] bytes of room; [None] is a loop that did not end. *)
Definition inflate_fast (st : inflate_state) (inb written : list Z) (left start : Z)
    : option fast_result :=
  let beg := zlen written - (start - left) in
  let room := zlen written + left in
  let finish f mode msg :=
    let f := return_bytes f in
    Some (FastResult (drop (Z.to_nat (in_ f)) inb) (out f) (room - zlen (out f))
            (hold f) (bits f) mode msg) in
  match fast_loop inb st beg (Z.to_nat (8 * zlen inb + left) + 2) room
          (Fast 0 written (InflateState.hold st) (InflateState.bits st)) with
  | Cont f => finish f LEN None
  | EndBlock f => finish f TYPE None
  | Error m f => finish f BAD (Some m)
  | Stuck => None
  end.

End Inffast.
