(* ===== verification/Inflate.v ===== *)
(** * zlib/inflate.c: the state machine of inflate()

    Each [case] of the switch is a computation in a small state monad with the
    exits of the C code: [goto inf_leave], [return], and [Fault] for a memory
    access out of bounds. A case that falls through to the next one sets the
    mode first and lets the loop dispatch again; TYPE, which does not, calls
    TYPEDO. *)

From Stdlib Require Import String.
From S2P Require Import Prelude Adler32 Crc32 Inftrees Inffixed InflateState Inffast.

Module Inflate.
Import InflateState.

(** ** The local variables of inflate() *)

Record run := Run {
  st : inflate_state; sm : z_stream; nxt : list Z; put : list Z; left_ : Z;
  hold : Z; bits : Z; in_ : Z; out : Z; ret : Z
}.
#[global] Instance run_eta : Eta run := λ r,
  Run (st r) (sm r) (nxt r) (put r) (left_ r) (hold r) (bits r) (in_ r) (out r) (ret r).

Inductive exit := Leave | Return (r : Z) | Fault.

Definition M (A : Type) : Type := run → run * (A + exit).
#[global] Instance M_ret : MRet M := λ A x r, (r, inl x).
#[global] Instance M_bind : MBind M := λ A B f m r,
  match m r with
  | (r, inl x) => f x r
  | (r, inr e) => (r, inr e)
  end.

Definition gets {A} (f : run → A) : M A := λ r, (r, inl (f r)).
Definition modify (f : run → run) : M unit := λ r, (f r, inl ()).
Definition throw {A} (e : exit) : M A := λ r, (r, inr e).
Definition upd (f : inflate_state → inflate_state) : M unit := modify (λ r, r <| st := f (st r) |>).
Definition when (b : bool) (m : M unit) : M unit := if b then m else mret ().

Definition set_mode (m : inflate_mode) : M unit := upd (λ s, s <| mode := m |>).
Definition bad (m : string) : M unit :=
  modify (λ r, r <| sm := (sm r) <| msg := Some m |> |>);; set_mode BAD.
(** [strm->adler = state->check = c] *)
Definition set_check (c : Z) : M unit :=
  upd (λ s, s <| check := c |>);; modify (λ r, r <| sm := (sm r) <| adler := c |> |>).
(** The gzip header, where the caller asked for it. *)
Definition upd_head (f : gz_header → gz_header) : M unit :=
  upd (λ s, s <| head := option_map f (head s) |>).

(** ** The macros *)

Definition crc (check : Z) (buf : list Z) : Z := Crc32.crc32 Crc32.LittleEndian 0 check (Some buf).
Definition UPDATE (s : inflate_state) (check : Z) (buf : list Z) : Z :=
  if c_true (flags s) then crc check buf else Adler32.adler32 check (Some buf).

Definition CRC2 (word : Z) : M unit :=
  upd (λ s, s <| check := crc (check s) [u8 word; u8 (word ≫ 8)] |>).
Definition CRC4 (word : Z) : M unit :=
  upd (λ s, s <| check := crc (check s)
                   [u8 word; u8 (word ≫ 8); u8 (word ≫ 16); u8 (word ≫ 24)] |>).

Definition LOAD (s : z_stream) (st : inflate_state) : run :=
  Run st s (in_bytes (next_in s)) (written s) (avail_out s)
    (InflateState.hold st) (InflateState.bits st)
    (zlen (in_bytes (next_in s))) (avail_out s) Z_OK.

Definition RESTORE : M unit := modify (λ r,
  r <| sm := (sm r) <| written := put r |> <| avail_out := left_ r |>
             <| next_in := match next_in (sm r) with InNull n => InNull n | InBuf _ => InBuf (nxt r) end |> |>
    <| st := (st r) <| InflateState.hold := hold r |> <| InflateState.bits := bits r |> |>).

Definition INITBITS : M unit := modify (λ r, r <| hold := 0 |> <| bits := 0 |>).

Definition PULLBYTE : M unit := λ r,
  match nxt r with
  | [] => (r, inr Leave)
  | b :: nxt' =>
      (r <| nxt := nxt' |> <| hold := u32 (hold r + u32 (b ≪ bits r)) |> <| bits := bits r + 8 |>,
       inl ())
  end.

(** [while (bits < n) PULLBYTE();] *)
Fixpoint needbits (fuel : nat) (n : Z) : M unit :=
  match fuel with
  | O => mret ()
  | S fuel => b ← gets bits; if b <? n then PULLBYTE;; needbits fuel n else mret ()
  end.
Definition NEEDBITS (n : Z) : M unit := needbits (Z.to_nat n) n.

Definition BITS (n : Z) : M Z := gets (λ r, hold r .& ((1 ≪ n) - 1)).
Definition DROPBITS (n : Z) : M unit :=
  modify (λ r, r <| hold := hold r ≫ n |> <| bits := u32 (bits r - n) |>).
Definition BYTEBITS : M unit :=
  modify (λ r, r <| hold := hold r ≫ (bits r .& 7) |> <| bits := bits r - (bits r .& 7) |>).

(** [for (;;) { here = ...; if (base + here.bits <= bits) break; PULLBYTE(); }] *)
Fixpoint get_code (fuel : nat) (base : Z) (here : run → Inftrees.code) : M Inftrees.code :=
  match fuel with
  | O => throw Fault
  | S fuel =>
      e ← gets here; b ← gets bits;
      if base + Inftrees.bits e <=? b then mret e else PULLBYTE;; get_code fuel base here
  end.

(** The entry at the low [lenbits] or [distbits] of the bit buffer, and the
    second-level entry of a link. *)
Definition len_code (r : run) : Inftrees.code :=
  Inffast.code_at (st r) (lencode (st r)) (hold r .& ((1 ≪ lenbits (st r)) - 1)).
Definition dist_code (r : run) : Inftrees.code :=
  Inffast.code_at (st r) (distcode (st r)) (hold r .& ((1 ≪ distbits (st r)) - 1)).
Definition sub_code (p : inflate_state → code_ptr) (l : Inftrees.code) (r : run) : Inftrees.code :=
  Inffast.code_at (st r) (p (st r))
    (Inftrees.val l + ((hold r .& ((1 ≪ (Inftrees.bits l + Inftrees.op l)) - 1)) ≫ Inftrees.bits l)).

(** ** The header *)

Definition fixedtables : M unit :=
  upd (λ s, s <| lencode := LenFix |> <| lenbits := 9 |> <| distcode := DistFix |> <| distbits := 5 |>).

(** The rest of HEAD when the stream has a zlib header. *)
Definition head_zlib : M unit :=
  w ← gets (λ r, wrap_ (st r)); h ← gets hold; b8 ← BITS 8; b4 ← BITS 4;
  if ((w .& 1) =? 0) || c_true (u32 (u32 (b8 ≪ 8) + (h ≫ 8)) mod 31) then
    bad "incorrect header check"
  else if negb (b4 =? Z_DEFLATED) then bad "unknown compression method"
  else
    DROPBITS 4;;
    b ← BITS 4; let len := b + 8 in
    upd (λ s, if wbits s =? 0 then s <| wbits := len |> else s);;
    wb ← gets (λ r, wbits (st r));
    if (15 <? len) || (wb <? len) then bad "invalid window size"
    else
      upd (λ s, s <| dmax := 1 ≪ len |>);;
      set_check (Adler32.adler32 0 None);;
      h ← gets hold;
      set_mode (if c_true (h .& 0x200) then DICTID else TYPE);;
      INITBITS.

Definition do_HEAD : M unit :=
  w ← gets (λ r, wrap_ (st r));
  if w =? 0 then set_mode TYPEDO
  else
    NEEDBITS 16;;
    h ← gets hold;
    if c_true (w .& 2) && (h =? 0x8b1f) then
      upd (λ s, if wbits s =? 0 then s <| wbits := 15 |> else s);;
      upd (λ s, s <| check := Crc32.crc32 Crc32.LittleEndian 0 0 None |>);;
      CRC2 h;; INITBITS;; set_mode FLAGS
    else
      upd (λ s, s <| flags := 0 |>);; upd_head (λ h, h <| done_ := -1 |>);; head_zlib.

(** [if ((state->flags & 0x0200) && (state->wrap & 4)) m] *)
Definition when_hcrc (m : M unit) : M unit :=
  s ← gets st; when (c_true (flags s .& 0x0200) && c_true (wrap_ s .& 4)) m.

Definition do_FLAGS : M unit :=
  NEEDBITS 16;;
  h ← gets hold; upd (λ s, s <| flags := h |>);;
  if negb ((h .& 0xff) =? Z_DEFLATED) then bad "unknown compression method"
  else if c_true (h .& 0xe000) then bad "unknown header flags set"
  else
    upd_head (λ g, g <| text := (h ≫ 8) .& 1 |>);;
    when_hcrc (CRC2 h);; INITBITS;; set_mode TIME.

Definition do_TIME : M unit :=
  NEEDBITS 32;;
  h ← gets hold; upd_head (λ g, g <| time := h |>);;
  when_hcrc (CRC4 h);; INITBITS;; set_mode OS.

Definition do_OS : M unit :=
  NEEDBITS 16;;
  h ← gets hold; upd_head (λ g, g <| xflags := h .& 0xff |> <| os := h ≫ 8 |>);;
  when_hcrc (CRC2 h);; INITBITS;; set_mode EXLEN.

Definition do_EXLEN : M unit :=
  f ← gets (λ r, flags (st r));
  (if c_true (f .& 0x0400) then
     NEEDBITS 16;;
     h ← gets hold; upd (λ s, s <| length_ := h |>);; upd_head (λ g, g <| extra_len := h |>);;
     when_hcrc (CRC2 h);; INITBITS
   else upd_head (λ g, g <| h_extra := None |>));;
  set_mode EXTRA.

(** [zmemcpy(head->extra + len, next, n)]: a fault when it writes past the
    [extra_max] bytes of the buffer or reads past the input. *)
Definition copy_extra (src : list Z) (copy : Z) : M unit :=
  s ← gets st;
  match head s with
  | Some g =>
      match h_extra g with
      | Some buf =>
          let len := u32 (extra_len g - length_ s) in
          let n := if extra_max g <? u32 (len + copy) then u32 (extra_max g - len) else copy in
          if (zlen buf <? len + n) || (zlen src <? n) then throw Fault
          else upd_head (λ g, g <| h_extra := Some (memcpy buf len (take (Z.to_nat n) src)) |>)
      | None => mret ()
      end
  | None => mret ()
  end.

Definition do_EXTRA : M unit :=
  f ← gets (λ r, flags (st r));
  (if c_true (f .& 0x0400) then
     src ← gets nxt; length ← gets (λ r, length_ (st r));
     let copy := if zlen src <? length then zlen src else length in
     when (c_true copy)
       (copy_extra src copy;;
        when_hcrc (upd (λ s, s <| check := crc (check s) (take (Z.to_nat copy) src) |>));;
        modify (λ r, r <| nxt := drop (Z.to_nat copy) src |>);;
        upd (λ s, s <| length_ := length_ s - copy |>));;
     length ← gets (λ r, length_ (st r));
     if c_true length then throw Leave else mret ()
   else mret ());;
  upd (λ s, s <| length_ := 0 |>);; set_mode NAME.

(** The zero-terminated string at [next]: how many bytes were read, the last
    one, and the copy in [buf], of which [length] bytes are filled. *)
Fixpoint read_string (src : list Z) (buf : option (list Z)) (max length : Z) (copy : Z)
    : Z * Z * option (list Z) * Z :=
  match src with
  | [] => (copy, 0, buf, length)
  | len :: src' =>
      let '(buf, length) :=
        match buf with
        | Some b => if length <? max then (Some b.[length <- len], length + 1) else (Some b, length)
        | None => (None, length)
        end in
      match src' with
      | [] => (copy + 1, len, buf, length)
      | _ => if c_true len then read_string src' buf max length (copy + 1)
             else (copy + 1, len, buf, length)
      end
  end.

(** The body NAME and COMMENT share: read, account, and leave if the string has
    not ended. *)
Definition header_string (buf : gz_header → option (list Z)) (max : gz_header → Z)
    (store : option (list Z) → gz_header → gz_header) : M unit :=
  src ← gets nxt;
  if zlen src =? 0 then throw Leave
  else
    s ← gets st;
    let '(copy, len, b, length) :=
      match head s with
      | Some g => read_string src (buf g) (max g) (length_ s) 0
      | None => read_string src None 0 (length_ s) 0
      end in
    upd_head (store b);; upd (λ s, s <| length_ := length |>);;
    when_hcrc (upd (λ s, s <| check := crc (check s) (take (Z.to_nat copy) src) |>));;
    modify (λ r, r <| nxt := drop (Z.to_nat copy) src |>);;
    if c_true len then throw Leave else mret ().

Definition do_NAME : M unit :=
  f ← gets (λ r, flags (st r));
  (if c_true (f .& 0x0800)
   then header_string name name_max (λ b g, g <| name := b |>)
   else upd_head (λ g, g <| name := None |>));;
  upd (λ s, s <| length_ := 0 |>);; set_mode COMMENT.

Definition do_COMMENT : M unit :=
  f ← gets (λ r, flags (st r));
  (if c_true (f .& 0x1000)
   then header_string comment comm_max (λ b g, g <| comment := b |>)
   else upd_head (λ g, g <| comment := None |>));;
  set_mode HCRC.

(** The rest of HCRC once the header checksum was read or is absent. *)
Definition finish_header : M unit :=
  f ← gets (λ r, flags (st r));
  upd_head (λ g, g <| hcrc := (f ≫ 9) .& 1 |> <| done_ := 1 |>);;
  set_check (Crc32.crc32 Crc32.LittleEndian 0 0 None);; set_mode TYPE.

Definition do_HCRC : M unit :=
  f ← gets (λ r, flags (st r));
  if c_true (f .& 0x0200) then
    NEEDBITS 16;;
    h ← gets hold; s ← gets st;
    if c_true (wrap_ s .& 4) && negb (h =? (check s .& 0xffff)) then bad "header crc mismatch"
    else INITBITS;; finish_header
  else finish_header.

Definition do_DICTID : M unit :=
  NEEDBITS 32;;
  h ← gets hold; set_check (Crc32.ZSWAP32 h);; INITBITS;; set_mode DICT.

Definition do_DICT : M unit :=
  hd ← gets (λ r, havedict (st r));
  if hd =? 0 then RESTORE;; throw (Return Z_NEED_DICT)
  else set_check (Adler32.adler32 0 None);; set_mode TYPE.

(** ** Blocks *)

Definition do_TYPEDO (flush : Z) : M unit :=
  l ← gets (λ r, last (st r));
  if c_true l then BYTEBITS;; set_mode CHECK
  else
    NEEDBITS 3;;
    b ← BITS 1; upd (λ s, s <| last := b |>);; DROPBITS 1;;
    t ← BITS 2;
    (if t =? 0 then set_mode STORED
     else if t =? 1 then
       fixedtables;; set_mode LEN_;;
       when (flush =? Z_TREES) (DROPBITS 2;; throw Leave)
     else if t =? 2 then set_mode TABLE
     else bad "invalid block type");;
    DROPBITS 2.

Definition do_TYPE (flush : Z) : M unit :=
  if (flush =? Z_BLOCK) || (flush =? Z_TREES) then throw Leave else do_TYPEDO flush.

Definition do_STORED (flush : Z) : M unit :=
  BYTEBITS;; NEEDBITS 32;;
  h ← gets hold;
  if negb ((h .& 0xffff) =? ((h ≫ 16) .^ 0xffff)) then bad "invalid stored block lengths"
  else
    upd (λ s, s <| length_ := h .& 0xffff |>);; INITBITS;; set_mode COPY_;;
    when (flush =? Z_TREES) (throw Leave).

Definition do_COPY : M unit :=
  copy ← gets (λ r, length_ (st r));
  if c_true copy then
    src ← gets nxt; left ← gets left_;
    let copy := if zlen src <? copy then zlen src else copy in
    let copy := if left <? copy then left else copy in
    if copy =? 0 then throw Leave
    else
      modify (λ r, r <| put := put r ++ take (Z.to_nat copy) src |>
                     <| nxt := drop (Z.to_nat copy) src |> <| left_ := left_ r - copy |>);;
      upd (λ s, s <| length_ := length_ s - copy |>)
  else set_mode TYPE.

Definition order : list Z := [16; 17; 18; 0; 8; 7; 9; 6; 10; 5; 11; 4; 12; 3; 13; 2; 14; 1; 15].

Definition do_TABLE : M unit :=
  NEEDBITS 14;;
  b ← BITS 5; upd (λ s, s <| nlen := b + 257 |>);; DROPBITS 5;;
  b ← BITS 5; upd (λ s, s <| ndist := b + 1 |>);; DROPBITS 5;;
  b ← BITS 4; upd (λ s, s <| ncode := b + 4 |>);; DROPBITS 4;;
  s ← gets st;
  if (286 <? nlen s) || (30 <? ndist s) then bad "too many length or distance symbols"
  else upd (λ s, s <| have := 0 |>);; set_mode LENLENS.

(** [state->lens[state->have++] = v] and the same through [order]. *)
Definition put_len (v : Z) : M unit :=
  upd (λ s, s <| lens := (lens s).[have s <- v] |> <| have := have s + 1 |>).
Definition put_order (v : Z) : M unit :=
  upd (λ s, s <| lens := (lens s).[order.[have s] <- v] |> <| have := have s + 1 |>).

Fixpoint read_lenlens (fuel : nat) : M unit :=
  match fuel with
  | O => mret ()
  | S fuel =>
      s ← gets st;
      if have s <? ncode s then
        NEEDBITS 3;; b ← BITS 3; put_order b;; DROPBITS 3;; read_lenlens fuel
      else mret ()
  end.

(** [inflate_table] on [state->codes] at [state->next]: its return value. *)
Definition build_table (type : Inftrees.codetype) (ls : list Z) (n bits : Z)
    (set_bits : Z → inflate_state → inflate_state) : M Z :=
  s ← gets st;
  match Inftrees.inflate_table type ls n (codes s) (next s) bits (work s) with
  | None => throw Fault
  | Some r =>
      upd (λ s, set_bits (Inftrees.rbits r)
                  (s <| codes := Inftrees.table r |> <| next := next s + Inftrees.advance r |>
                     <| work := Inftrees.rwork r |>));;
      modify (λ x, x <| ret := Inftrees.ret r |>);;
      mret (Inftrees.ret r)
  end.
Definition set_lenbits (b : Z) (s : inflate_state) : inflate_state := s <| lenbits := b |>.
Definition set_distbits (b : Z) (s : inflate_state) : inflate_state := s <| distbits := b |>.

Definition do_LENLENS : M unit :=
  read_lenlens 20;;
  upd (λ s, while 20 (λ s, have s <? 19)
              (λ s, s <| lens := (lens s).[order.[have s] <- 0] |> <| have := have s + 1 |>) s);;
  upd (λ s, s <| next := 0 |> <| lencode := InCodes 0 |>);;
  s ← gets st;
  e ← build_table Inftrees.CODES (lens s) 19 7 set_lenbits;
  if c_true e then bad "invalid code lengths set"
  else upd (λ s, s <| have := 0 |>);; set_mode CODELENS.

(** A repeat code: the length repeated, and how many times. [None] after the
    error of a repeat with nothing before it. *)
Definition read_repeat (here : Inftrees.code) : M (option (Z * Z)) :=
  if Inftrees.val here =? 16 then
    NEEDBITS (Inftrees.bits here + 2);; DROPBITS (Inftrees.bits here);;
    s ← gets st;
    if have s =? 0 then bad "invalid bit length repeat";; mret None
    else b ← BITS 2; DROPBITS 2;; mret (Some ((lens s).[have s - 1], 3 + b))
  else if Inftrees.val here =? 17 then
    NEEDBITS (Inftrees.bits here + 3);; DROPBITS (Inftrees.bits here);;
    b ← BITS 3; DROPBITS 3;; mret (Some (0, 3 + b))
  else
    NEEDBITS (Inftrees.bits here + 7);; DROPBITS (Inftrees.bits here);;
    b ← BITS 7; DROPBITS 7;; mret (Some (0, 11 + b)).

Fixpoint put_lens (n : nat) (v : Z) : M unit :=
  match n with O => mret () | S n => put_len v;; put_lens n v end.

(** The loop of CODELENS; an error leaves the mode BAD. *)
Fixpoint read_codelens (fuel : nat) : M unit :=
  match fuel with
  | O => mret ()
  | S fuel =>
      s ← gets st;
      if have s <? nlen s + ndist s then
        here ← get_code 70 0 len_code;
        if Inftrees.val here <? 16 then
          DROPBITS (Inftrees.bits here);; put_len (Inftrees.val here);; read_codelens fuel
        else
          rep ← read_repeat here;
          match rep with
          | None => mret ()
          | Some (len, copy) =>
              s ← gets st;
              if nlen s + ndist s <? have s + copy then bad "invalid bit length repeat"
              else put_lens (Z.to_nat copy) (u16 len);; read_codelens fuel
          end
      else mret ()
  end.

Definition build_codes (flush : Z) : M unit :=
  upd (λ s, s <| next := 0 |> <| lencode := InCodes 0 |>);;
  s ← gets st;
  e ← build_table Inftrees.LENS (lens s) (nlen s) 9 set_lenbits;
  if c_true e then bad "invalid literal/lengths set"
  else
    upd (λ s, s <| distcode := InCodes (next s) |>);;
    e ← build_table Inftrees.DISTS (drop (Z.to_nat (nlen s)) (lens s)) (ndist s) 6 set_distbits;
    if c_true e then bad "invalid distances set"
    else set_mode LEN_;; when (flush =? Z_TREES) (throw Leave).

Definition do_CODELENS (flush : Z) : M unit :=
  read_codelens 321;;
  s ← gets st;
  if bool_decide (mode s = BAD) then mret ()
  else if (lens s).[256] =? 0 then bad "invalid code -- missing end-of-block"
  else build_codes flush.

(** ** Codes *)

Definition fast_path : M unit :=
  RESTORE;;
  r ← gets id;
  match Inffast.inflate_fast (st r) (nxt r) (put r) (left_ r) (out r) with
  | None => throw Fault
  | Some f =>
      modify (λ r, r <| nxt := Inffast.f_next f |> <| put := Inffast.f_written f |>
        <| left_ := Inffast.f_left f |> <| hold := Inffast.f_hold f |> <| bits := Inffast.f_bits f |>
        <| sm := match Inffast.f_msg f with
                 | Some m => (sm r) <| msg := Some m |> | None => sm r end |>
        <| st := (st r) <| mode := Inffast.f_mode f |> |>);;
      when (bool_decide (Inffast.f_mode f = TYPE)) (upd (λ s, s <| back := -1 |>))
  end.

Definition add_back (n : Z) : M unit := upd (λ s, s <| back := back s + n |>).

(** The entry of the next code, after its bits were dropped; [link] tells
    whether an entry is a pointer to a sub-table. *)
Definition decode (link : Inftrees.code → bool) (root : run → Inftrees.code)
    (p : inflate_state → code_ptr) : M Inftrees.code :=
  here ← get_code 70 0 root;
  here ← (if link here then
            let l := here in
            here ← get_code 70 (Inftrees.bits l) (sub_code p l);
            DROPBITS (Inftrees.bits l);; add_back (Inftrees.bits l);; mret here
          else mret here);
  DROPBITS (Inftrees.bits here);; add_back (Inftrees.bits here);; mret here.

Definition len_link (e : Inftrees.code) : bool :=
  c_true (Inftrees.op e) && ((Inftrees.op e .& 0xf0) =? 0).
Definition dist_link (e : Inftrees.code) : bool := (Inftrees.op e .& 0xf0) =? 0.

Definition do_LEN : M unit :=
  src ← gets nxt; left ← gets left_;
  if (6 <=? zlen src) && (258 <=? left) then fast_path
  else
    upd (λ s, s <| back := 0 |>);;
    here ← decode len_link len_code lencode;
    upd (λ s, s <| length_ := Inftrees.val here |>);;
    let op := Inftrees.op here in
    if op =? 0 then set_mode LIT
    else if c_true (op .& 32) then upd (λ s, s <| back := -1 |>);; set_mode TYPE
    else if c_true (op .& 64) then bad "invalid literal/length code"
    else upd (λ s, s <| extra := op .& 15 |>);; set_mode LENEXT.

(** [if (state->extra) { NEEDBITS; x += BITS; DROPBITS; back += extra; }] *)
Definition read_extra (add : Z → inflate_state → inflate_state) : M unit :=
  e ← gets (λ r, extra (st r));
  when (c_true e) (NEEDBITS e;; b ← BITS e; upd (add b);; DROPBITS e;; add_back e).

Definition do_LENEXT : M unit :=
  read_extra (λ b s, s <| length_ := length_ s + b |>);;
  upd (λ s, s <| was := length_ s |>);; set_mode DIST.

Definition do_DIST : M unit :=
  here ← decode dist_link dist_code distcode;
  if c_true (Inftrees.op here .& 64) then bad "invalid distance code"
  else
    upd (λ s, s <| offset := Inftrees.val here |> <| extra := Inftrees.op here .& 15 |>);;
    set_mode DISTEXT.

Definition do_DISTEXT : M unit :=
  read_extra (λ b s, s <| offset := offset s + b |>);; set_mode MATCH.

(** Where the match comes from and how many bytes can be copied from there;
    [None] when the distance is too far back. *)
Definition match_source (s : inflate_state) (written : Z) (put : list Z) : option (Inffast.src * Z) :=
  if written <? offset s then
    let copy := offset s - written in
    if (whave s <? copy) && c_true (sane s) then None
    else
      let '(from, copy) :=
        if wnext s <? copy then
          let copy := copy - wnext s in (Inffast.Win (wsize s - copy), copy)
        else (Inffast.Win (wnext s - copy), copy) in
      Some (from, if length_ s <? copy then length_ s else copy)
  else Some (Inffast.Out (zlen put - offset s), length_ s).

Definition do_MATCH : M unit :=
  r ← gets id;
  if left_ r =? 0 then throw Leave
  else
    match match_source (st r) (out r - left_ r) (put r) with
    | None => bad "invalid distance too far back"
    | Some (from, copy) =>
        let copy := if left_ r <? copy then left_ r else copy in
        if copy =? 0 then throw Fault
        else
          modify (λ r, r <| left_ := left_ r - copy |>
            <| put := (Inffast.copy_bytes (default [] (window (st r))) (Z.to_nat copy) from (put r)).2 |>);;
          upd (λ s, s <| length_ := length_ s - copy |>);;
          s ← gets st; when (length_ s =? 0) (set_mode LEN)
    end.

Definition do_LIT : M unit :=
  left ← gets left_;
  if left =? 0 then throw Leave
  else
    modify (λ r, r <| put := put r ++ [u8 (length_ (st r))] |> <| left_ := left_ r - 1 |>);;
    set_mode LEN.

(** ** The trailer *)

Definition do_CHECK : M unit :=
  w ← gets (λ r, wrap_ (st r));
  if c_true w then
    NEEDBITS 32;;
    r ← gets id;
    let n := out r - left_ r in
    modify (λ r, r <| sm := (sm r) <| total_out := u32 (total_out (sm r) + n) |> |>);;
    upd (λ s, s <| total := u32 (total s + n) |>);;
    when (c_true (w .& 4) && c_true n)
      (set_check (UPDATE (st r) (check (st r)) (last_bytes n (put r))));;
    modify (λ r, r <| out := left_ r |>);;
    s ← gets st; h ← gets hold;
    if c_true (w .& 4) && negb ((if c_true (flags s) then h else Crc32.ZSWAP32 h) =? check s)
    then bad "incorrect data check"
    else INITBITS;; set_mode LENGTH
  else set_mode LENGTH.

Definition do_LENGTH : M unit :=
  s ← gets st;
  if c_true (wrap_ s) && c_true (flags s) then
    NEEDBITS 32;;
    h ← gets hold;
    if negb (h =? (total s .& 0xffffffff)) then bad "incorrect length check"
    else INITBITS;; set_mode DONE
  else set_mode DONE.

(** ** inflate() *)

Definition set_ret (v : Z) : M unit := modify (λ r, r <| ret := v |>).

Definition step (flush : Z) : M unit :=
  m ← gets (λ r, mode (st r));
  match m with
  | HEAD => do_HEAD | FLAGS => do_FLAGS | TIME => do_TIME | OS => do_OS
  | EXLEN => do_EXLEN | EXTRA => do_EXTRA | NAME => do_NAME | COMMENT => do_COMMENT
  | HCRC => do_HCRC | DICTID => do_DICTID | DICT => do_DICT
  | TYPE => do_TYPE flush | TYPEDO => do_TYPEDO flush
  | STORED => do_STORED flush | COPY_ => set_mode COPY | COPY => do_COPY
  | TABLE => do_TABLE | LENLENS => do_LENLENS | CODELENS => do_CODELENS flush
  | LEN_ => set_mode LEN | LEN => do_LEN | LENEXT => do_LENEXT
  | DIST => do_DIST | DISTEXT => do_DISTEXT | MATCH => do_MATCH | LIT => do_LIT
  | CHECK => do_CHECK | LENGTH => do_LENGTH
  | DONE => set_ret Z_STREAM_END;; throw Leave
  | BAD => set_ret Z_DATA_ERROR;; throw Leave
  | MEM => throw (Return Z_MEM_ERROR)
  | SYNC => throw (Return Z_STREAM_ERROR)
  end.

Fixpoint loop (fuel : nat) (flush : Z) (r : run) : option (run * exit) :=
  match fuel with
  | O => None
  | S fuel =>
      match step flush r with
      | (r, inl _) => loop fuel flush r
      | (r, inr e) => Some (r, e)
      end
  end.

(** The label [inf_leave]: the stream and the return value. *)
Definition inf_leave (ZALLOC : Z → option (list Z)) (flush : Z) (r : run) : Z * z_stream :=
  let '(r, _) := RESTORE r in
  let update := c_true (wsize (st r)) ||
    (negb (out r =? left_ r) && (mode_val (mode (st r)) <? mode_val BAD) &&
     ((mode_val (mode (st r)) <? mode_val CHECK) || negb (flush =? Z_FINISH))) in
  match (if update then updatewindow ZALLOC (st r) (put r) (out r - left_ r) else Some (st r)) with
  | None => (Z_MEM_ERROR, with_state ((st r) <| mode := MEM |>) (sm r))
  | Some s =>
      let in_ := in_ r - zlen (nxt r) in
      let out := out r - left_ r in
      let sm := (sm r) <| total_in := u32 (total_in (sm r) + in_) |>
                       <| total_out := u32 (total_out (sm r) + out) |> in
      let s := s <| total := u32 (total s + out) |> in
      let '(sm, s) :=
        if c_true (wrap_ s .& 4) && c_true out then
          let c := UPDATE s (check s) (last_bytes out (put r)) in
          (sm <| adler := c |>, s <| check := c |>)
        else (sm, s) in
      let sm := sm <| data_type := InflateState.bits s + (if c_true (last s) then 64 else 0)
        + (if bool_decide (mode s = TYPE) then 128 else 0)
        + (if bool_decide (mode s = LEN_) || bool_decide (mode s = COPY_) then 256 else 0) |> in
      let ret := if (((in_ =? 0) && (out =? 0)) || (flush =? Z_FINISH)) && (ret r =? Z_OK)
                 then Z_BUF_ERROR else ret r in
      (ret, with_state s sm)
  end.

(** One call of inflate(): its return value and the stream after it, an access
    out of bounds, or a state machine that did not stop within [fuel] rounds. *)
Inductive outcome := Returned (ret : Z) (strm : option z_stream) | OutOfBounds | OutOfFuel.

Definition inflate (ZALLOC : Z → option (list Z)) (fuel : nat) (strm : option z_stream) (flush : Z)
    : outcome :=
  match inflateStateCheck strm with
  | None => Returned Z_STREAM_ERROR strm
  | Some (s, st) =>
      if out_null s || (match next_in s with InNull n => c_true n | InBuf _ => false end) then
        Returned Z_STREAM_ERROR strm
      else
        let st := if bool_decide (mode st = TYPE) then st <| mode := TYPEDO |> else st in
        match loop fuel flush (LOAD s st) with
        | None => OutOfFuel
        | Some (r, Leave) => let '(ret, s) := inf_leave ZALLOC flush r in Returned ret (Some s)
        | Some (r, Return v) => Returned v (Some (with_state (Inflate.st r) (sm r)))
        | Some (_, Fault) => OutOfBounds
        end
  end.

End Inflate.
