(* ===== verification/Runs.v ===== *)
(** * Runs of the state machine of inflate()

    Sequences of rounds, the equations of the monad, and what a round keeps. *)

From S2P Require Import Prelude Inftrees InflateState Inflate.

Module Runs.
Import InflateState Inflate.

(** ** Equations of the monad *)

Lemma bind_inl {A B} (f : A → M B) (m : M A) r r' x :
  m r = (r', inl x) → (m ≫= f) r = f x r'.
Proof. intros E. unfold mbind, M_bind. by rewrite E. Qed.

Lemma bind_inr {A B} (f : A → M B) (m : M A) r r' e :
  m r = (r', inr e) → (m ≫= f) r = (r', inr e).
Proof. intros E. unfold mbind, M_bind. by rewrite E. Qed.

Lemma bind_gets {A B} (g : run → A) (f : A → M B) r : (gets g ≫= f) r = f (g r) r.
Proof. done. Qed.

Lemma bind_upd {B} (g : inflate_state → inflate_state) (f : () → M B) r :
  (upd g ≫= f) r = f () (r <| st := g (st r) |>).
Proof. done. Qed.

(** ** Sequences of rounds *)

(** [k] rounds of the state machine that do not leave it. *)
Fixpoint steps (k : nat) (flush : Z) (r : run) : option run :=
  match k with
  | O => Some r
  | S k => match step flush r with
           | (r, inl _) => steps k flush r
           | (_, inr _) => None
           end
  end.

Definition reaches (flush : Z) (r r' : run) : Prop := ∃ k, steps k flush r = Some r'.
Definition leaves (flush : Z) (r r' : run) (e : exit) : Prop :=
  ∃ r1, reaches flush r r1 ∧ step flush r1 = (r', inr e).

Lemma reaches_refl flush r : reaches flush r r.
Proof. by exists 0%nat. Qed.

Lemma reaches_step flush r r1 r2 : step flush r = (r1, inl ()) → reaches flush r1 r2 → reaches flush r r2.
Proof. intros E [k Hk]. exists (S k). simpl. by rewrite E. Qed.

Lemma steps_add k j flush r r1 : steps k flush r = Some r1 → steps (k + j) flush r = steps j flush r1.
Proof.
  revert r. induction k as [|k IH]; intros r; simpl; [by intros [= ->]|].
  destruct (step flush r) as [r' [x|e]]; [apply IH|done].
Qed.

Lemma reaches_trans flush r r1 r2 : reaches flush r r1 → reaches flush r1 r2 → reaches flush r r2.
Proof. intros [k Hk] [j Hj]. exists (k + j)%nat. by rewrite (steps_add k j _ _ r1). Qed.

Lemma reaches_one flush r r1 : step flush r = (r1, inl ()) → reaches flush r r1.
Proof. intros E. eapply reaches_step; [done|apply reaches_refl]. Qed.

Lemma leaves_trans flush r r1 r2 e : reaches flush r r1 → leaves flush r1 r2 e → leaves flush r r2 e.
Proof. intros H (r3 & H3 & E). exists r3. split; [by eapply reaches_trans|done]. Qed.

Lemma leaves_now flush r r' e : step flush r = (r', inr e) → leaves flush r r' e.
Proof. intros E. exists r. split; [apply reaches_refl|done]. Qed.

(** A run that leaves is what the loop computes, with any fuel that covers it. *)
Lemma leaves_loop flush r r' e : leaves flush r r' e →
  ∃ n, ∀ fuel, (n ≤ fuel)%nat → loop fuel flush r = Some (r', e).
Proof.
  intros (r1 & [k Hk] & E). exists (S k). revert r Hk. induction k as [|k IH]; intros r Hk fuel Hf.
  - injection Hk as ->. destruct fuel as [|fuel]; [lia|]. simpl. by rewrite E.
  - destruct fuel as [|fuel]; [lia|]. simpl in Hk |- *.
    destruct (step flush r) as [r2 [x|e2]]; [|done]. apply IH; [done|lia].
Qed.

(** ** What a round keeps *)

(** The state but for the fields that decoding literals and matches changes. *)
Definition core (s : inflate_state) : inflate_state :=
  s <| mode := HEAD |> <| length_ := 0 |> <| offset := 0 |> <| extra := 0 |> <| back := 0 |>
    <| was := 0 |> <| InflateState.hold := 0 |> <| InflateState.bits := 0 |>.

(** The stream but for its message and the pointers RESTORE writes back. *)
Definition core_stream (s : z_stream) : z_stream :=
  s <| msg := None |> <| written := [] |> <| avail_out := 0 |>
    <| next_in := match next_in s with InNull n => InNull n | InBuf _ => InBuf [] end |>.

Record kept (r r' : run) : Prop := {
  kept_state : core (st r') = core (st r);
  kept_stream : core_stream (sm r') = core_stream (sm r);
  kept_in : in_ r' = in_ r;
  kept_out : out r' = out r;
  kept_ret : ret r' = ret r
}.

#[global] Instance kept_preorder : PreOrder kept.
Proof.
  split; [done|]. intros r1 r2 r3 [] []. split; congruence.
Qed.

End Runs.
