(* ===== verification/BitReader.v ===== *)
(** * The bit buffer of inflate()

    The bits still to read are those of the bit buffer and those of the input
    that follows: the macros of inflate.c read them as the reference decoder
    does, and leave exactly when the input runs out. *)

From S2P Require Import Prelude Inftrees InftreesDecode Rfc1951 Symbols InflateState Inflate.

Module BitReader.
Import InflateState Inflate.

(** ** The stream a run still has to read *)

Definition view (r : run) : Rfc1951.bitstream :=
  Rfc1951.Bits (hold r + 2 ^ bits r * Rfc1951.le_value (nxt r)) (bits r + 8 * zlen (nxt r)).

Record good (r : run) : Prop := {
  good_bits : 0 ≤ bits r ≤ 32;
  good_hold : 0 ≤ hold r < 2 ^ bits r;
  good_bytes : bytes (nxt r)
}.

(** The run with another bit buffer and input. *)
Definition fed (r : run) (nx : list Z) (h b : Z) : run :=
  r <| nxt := nx |> <| hold := h |> <| bits := b |>.

Lemma fed_fed r nx h b nx' h' b' : fed (fed r nx h b) nx' h' b' = fed r nx' h' b'.
Proof. done. Qed.

Lemma fed_same r : fed r (nxt r) (hold r) (bits r) = r.
Proof. by destruct r. Qed.

Lemma le_value_range l : bytes l → 0 ≤ Rfc1951.le_value l < 2 ^ (8 * zlen l).
Proof.
  induction 1 as [|b l Hb _ IH]; [done|]. rewrite zlen_cons. cbn [Rfc1951.le_value foldr].
  fold (Rfc1951.le_value l). replace (8 * (1 + zlen l)) with (8 + 8 * zlen l) by lia.
  pose proof (zlen_nonneg l). rewrite Z.pow_add_r by lia. unfold ubits in Hb. nia.
Qed.

Lemma le_value_drop l k : bytes l → Rfc1951.le_value l / 2 ^ (8 * Z.of_nat k) = Rfc1951.le_value (drop k l).
Proof.
  intros Hl. revert k. induction Hl as [|b l Hb Hl IH]; intros k.
  { rewrite drop_nil. apply Z.div_0_l. lia. }
  destruct k as [|k]; [by rewrite Z.div_1_r|]. cbn [drop]. rewrite <-IH.
  replace (8 * Z.of_nat (S k)) with (8 + 8 * Z.of_nat k) by lia.
  rewrite Z.pow_add_r, <-Z.div_div by lia. f_equal. cbn [Rfc1951.le_value foldr].
  fold (Rfc1951.le_value l). rewrite (Z.mul_comm (2 ^ 8)), Z.div_add by lia.
  rewrite Z.div_small by done. done.
Qed.

Lemma le_value_inj l k : bytes l → bytes k → zlen l = zlen k → Rfc1951.le_value l = Rfc1951.le_value k → l = k.
Proof.
  intros Hl. revert k. induction Hl as [|b l Hb Hl IH]; intros k Hk Hz E.
  { destruct k; [done|]. rewrite zlen_cons in Hz. pose proof (zlen_nonneg k). change (zlen (@nil Z)) with 0 in Hz. lia. }
  destruct k as [|b' k]; [rewrite zlen_cons in Hz; pose proof (zlen_nonneg l); change (zlen (@nil Z)) with 0 in Hz; lia|].
  inversion Hk as [|? ? Hb' Hk']; subst. rewrite !zlen_cons in Hz. cbn [Rfc1951.le_value foldr] in E.
  fold (Rfc1951.le_value l) (Rfc1951.le_value k) in E. unfold ubits in Hb, Hb'.
  assert (Rfc1951.le_value l = Rfc1951.le_value k) as E' by lia. f_equal; [lia|]. apply IH; [done|lia|done].
Qed.

(** The bytes of the input that are left when a whole number of bits was read. *)
Lemma of_bytes_rest input l c : bytes input → bytes l → 0 ≤ c ≤ 8 * zlen input →
  Rfc1951.of_bytes l = Rfc1951.dropped c (Rfc1951.of_bytes input) →
  l = drop (Z.to_nat (zlen input - zlen l)) input.
Proof.
  intros Hi Hl Hc E. injection E as Ev Ea. pose proof (zlen_nonneg l).
  assert (c = 8 * Z.of_nat (Z.to_nat (zlen input - zlen l))) as Ec by lia.
  rewrite Ec, le_value_drop in Ev by done.
  apply le_value_inj; [done|by apply Forall_drop| |done]. unfold zlen in *. rewrite length_drop. lia.
Qed.

Section View.
  Context (r : run) (Hg : good r).

Lemma view_range : 0 ≤ Rfc1951.value (view r) < 2 ^ Rfc1951.avail (view r).
Proof.
  destruct Hg as [Hb Hh Hn]. pose proof (le_value_range _ Hn). pose proof (zlen_nonneg (nxt r)).
  cbn. rewrite Z.pow_add_r by lia. nia.
Qed.

Lemma view_avail : bits r ≤ Rfc1951.avail (view r).
Proof. cbn. pose proof (zlen_nonneg (nxt r)). lia. Qed.

(** The buffer holds the low bits of the stream. *)
Lemma view_hold : hold r = Rfc1951.value (view r) mod 2 ^ bits r.
Proof. destruct Hg as [Hb Hh _]. cbn. symmetry. rewrite Z.mul_comm, Z.mod_add by lia. by apply Z.mod_small. Qed.

Lemma view_low n : 0 ≤ n ≤ bits r → hold r mod 2 ^ n = Rfc1951.value (view r) mod 2 ^ n.
Proof. intros. rewrite view_hold. apply mod_mod_pow2. lia. Qed.

Lemma BITS_view n : 0 ≤ n ≤ bits r → BITS n r = (r, inl (Rfc1951.value (view r) mod 2 ^ n)).
Proof.
  intros Hn. unfold BITS, gets. rewrite Z.shiftl_1_l, Z.sub_1_r, <-Z.ones_equiv, Z.land_ones by lia.
  by rewrite view_low.
Qed.

Lemma DROPBITS_view n : 0 ≤ n ≤ bits r → let r' := fed r (nxt r) (hold r ≫ n) (bits r - n) in
  DROPBITS n r = (r', inl ()) ∧ good r' ∧ view r' = Rfc1951.dropped n (view r).
Proof.
  intros Hn r'. destruct Hg as [Hb Hh Hx]. unfold DROPBITS, modify.
  assert (2 ^ bits r = 2 ^ (bits r - n) * 2 ^ n) as E by (rewrite <-Z.pow_add_r by lia; f_equal; lia).
  rewrite wrap_small by (unfold ubits; lia). split; [done|].
  assert (0 < 2 ^ n) by lia. split.
  - split; [cbn; lia| |done]. cbn. rewrite Z.shiftr_div_pow2 by lia.
    split; [apply Z.div_pos; lia|]. apply Z.div_lt_upper_bound; nia.
  - unfold view, Rfc1951.dropped. cbn. f_equal; [|lia].
    rewrite Z.shiftr_div_pow2, E by lia. symmetry.
    replace (hold r + 2 ^ (bits r - n) * 2 ^ n * Rfc1951.le_value (nxt r))
      with (hold r + 2 ^ (bits r - n) * Rfc1951.le_value (nxt r) * 2 ^ n) by lia.
    rewrite Z.div_add by lia. done.
Qed.

(** One more byte. *)
Lemma PULLBYTE_view : bits r ≤ 24 →
  match nxt r with
  | [] => PULLBYTE r = (r, inr Leave)
  | _ :: _ => ∃ nx h, let r' := fed r nx h (bits r + 8) in
      PULLBYTE r = (r', inl ()) ∧ good r' ∧ view r' = view r
  end.
Proof.
  intros H24. destruct Hg as [Hb Hh Hx]. unfold PULLBYTE. destruct (nxt r) as [|x nx] eqn:En; [done|].
  inversion Hx as [|? ? Hxb Hxs]; subst. unfold ubits in Hxb.
  assert (2 ^ (bits r + 8) = 2 ^ 8 * 2 ^ bits r) as E8 by (rewrite <-Z.pow_add_r by lia; f_equal; lia).
  pose proof (Z.pow_le_mono_r 2 (bits r + 8) 32 ltac:(lia) ltac:(lia)) as H32.
  assert (u32 (hold r + u32 (x ≪ bits r)) = hold r + x * 2 ^ bits r) as ->.
  { rewrite Z.shiftl_mul_pow2 by lia. rewrite wrap_add_idem_r. apply wrap_small. unfold ubits. nia. }
  exists nx, (hold r + x * 2 ^ bits r). split; [done|]. split.
  - split; [cbn; lia|cbn; nia|done].
  - unfold view. cbn. rewrite En. f_equal; [|rewrite zlen_cons; lia].
    cbn [Rfc1951.le_value foldr]. fold (Rfc1951.le_value nx). rewrite E8. lia.
Qed.

End View.

(** ** Reading on *)

(** What a read of [need] bits leads to: enough bits in the buffer, with not a
    byte more than needed, or the exit when the input is used up. *)
Definition reads {A} (m : run * (A + exit)) (r : run) (need : Z) (x : A) : Prop :=
  ∃ nx h b, let r' := fed r nx h b in
    m = (r', if Rfc1951.avail (view r) <? need then inr Leave else inl x) ∧
    good r' ∧ view r' = view r ∧ b mod 8 = bits r mod 8 ∧ bits r ≤ b ∧
    (need ≤ Rfc1951.avail (view r) → need ≤ b ≤ Z.max (bits r) (need + 7)).

Lemma reads_now {A} r need (x : A) : good r → need ≤ bits r → reads (r, inl x) r need x.
Proof.
  intros Hg Hn. exists (nxt r), (hold r), (bits r). cbv zeta. rewrite fed_same.
  pose proof (view_avail r). split_and!; try done; try lia.
  by destruct (Z.ltb_spec (Rfc1951.avail (view r)) need); [lia|].
Qed.

Lemma reads_end {A} r need (x : A) : good r → nxt r = [] → bits r < need →
  reads (r, inr Leave) r need x.
Proof.
  intros Hg Hn Hb. exists (nxt r), (hold r), (bits r). cbv zeta. rewrite fed_same.
  assert (Rfc1951.avail (view r) = bits r) as E by (unfold view; rewrite Hn; change (zlen (@nil Z)) with 0; cbn [Rfc1951.avail]; lia).
  rewrite E. split_and!; try done; try lia. by destruct (Z.ltb_spec (bits r) need); [|lia].
Qed.

(** After a byte was pulled because it was needed. *)
Lemma reads_pull {A} m r need (x : A) nx h : bits r < need →
  view (fed r nx h (bits r + 8)) = view r →
  reads m (fed r nx h (bits r + 8)) need x → reads m r need x.
Proof.
  intros Hb Hv (nx' & h' & b' & Hm & Hg & Hv' & Hmod & Hle & Hbnd). rewrite fed_fed in *.
  exists nx', h', b'. cbv zeta. rewrite Hv in *. cbn in Hmod, Hle, Hbnd. split_and!; try done; try lia.
  - rewrite Hmod. replace (bits r + 8) with (bits r + 1 * 8) by lia. by apply Z.mod_add.
  - intros H. specialize (Hbnd H). lia.
Qed.

Lemma needbits_reads fuel n r : good r → 0 ≤ n → n - bits r ≤ Z.of_nat fuel →
  n ≤ 25 ∨ (n ≤ 32 ∧ n mod 8 = bits r mod 8) → reads (needbits fuel n r) r n ().
Proof.
  revert r. induction fuel as [|fuel IH]; intros r Hg Hn Hf Hfit.
  { apply reads_now; [done|lia]. }
  cbn [needbits]. unfold mbind, M_bind, gets.
  destruct (Z.ltb_spec (bits r) n) as [Hb|Hb]; [|by apply reads_now].
  assert (bits r ≤ 24) as H24.
  { destruct Hfit as [?|[? E]]; [lia|]. destruct Hg. 
    pose proof (Z.div_mod n 8). pose proof (Z.div_mod (bits r) 8). lia. }
  pose proof (PULLBYTE_view r Hg H24) as Hp. destruct (nxt r) eqn:En.
  - rewrite Hp. by apply reads_end.
  - destruct Hp as (nx & h & -> & Hg' & Hv'). apply (reads_pull _ _ _ _ nx h Hb Hv').
    apply IH; [done|done|cbn; lia|]. destruct Hfit as [?|[? E]]; [by left|right]. split; [done|].
    cbn. rewrite E. replace (bits r + 8) with (bits r + 1 * 8) by lia. by rewrite Z.mod_add.
Qed.

Lemma NEEDBITS_reads n r : good r → 0 ≤ n → n ≤ 25 ∨ (n ≤ 32 ∧ n mod 8 = bits r mod 8) →
  reads (NEEDBITS n r) r n ().
Proof. intros Hg Hn Hfit. apply needbits_reads; [done..| |done]. destruct Hg. lia. Qed.

(** Looking a code up with the bits at hand until they suffice. *)
Lemma get_code_reads fuel base here r (f : Z → Inftrees.code) :
  (∀ nx h b, here (fed r nx h b) = f h) → good r →
  let need := base + Inftrees.bits (f (Rfc1951.value (view r))) in
  0 ≤ need ≤ 15 → 23 - bits r ≤ 8 * Z.of_nat fuel → (0 < fuel)%nat →
  (∀ b, bits r ≤ b → let x := Rfc1951.value (view r) in
     base + Inftrees.bits (f (x mod 2 ^ b)) ≤ b ∨ base + Inftrees.bits (f x) ≤ b →
     f (x mod 2 ^ b) = f x) →
  reads (get_code fuel base here r) r need (f (Rfc1951.value (view r))).
Proof.
  revert r. induction fuel as [|fuel IH]; intros r Hhere Hg need Hneed Hf Hf0 Hst; [lia|].
  pose proof (Hhere (nxt r) (hold r) (bits r)) as Hh. rewrite fed_same in Hh.
  cbn [get_code]. unfold mbind, M_bind, gets. rewrite Hh.
  rewrite (view_hold r Hg). specialize (Hst (bits r)) as Hst0. cbv zeta in Hst0.
  destruct (Z.leb_spec (base + Inftrees.bits (f (Rfc1951.value (view r) mod 2 ^ bits r))) (bits r)) as [Hle|Hgt].
  { rewrite Hst0 in Hle |- * by (lia || by left). by apply reads_now. }
  assert (bits r < need) as Hb.
  { destruct (decide (bits r < need)) as [|Hn]; [done|]. rewrite Hst0 in Hgt by (lia || right; unfold need in *; lia).
    unfold need in *. lia. }
  pose proof (PULLBYTE_view r Hg ltac:(lia)) as Hp. destruct (nxt r) eqn:En.
  - rewrite Hp. by apply reads_end.
  - destruct Hp as (nx & h & -> & Hg' & Hv'). apply (reads_pull _ _ _ _ nx h Hb Hv').
    unfold need. rewrite <-Hv'. destruct fuel as [|fuel]; [lia|].
    apply IH; [intros; rewrite fed_fed; apply Hhere|done| |cbn; lia|lia|].
    + rewrite Hv'. done.
    + rewrite Hv'. intros b Hbb. apply Hst. cbn in Hbb. lia.
Qed.

End BitReader.
