(* ===== verification/Window.v ===== *)
(** * The sliding window of inflate

    The circular window holds the last bytes of the history written to it, so
    that a dictionary reads back and matches copy what the format says, through
    [updatewindow], [inflateGetDictionary], the MATCH state and the copy code of
    inffast.c. *)

From Stdlib Require Import String.
From S2P Require Import Prelude Inftrees Rfc1951 InflateState Inffast Inflate Runs.

Module Window.
Import InflateState Runs.

Abbreviation lz_bytes := Rfc1951.lz_bytes.

(** ** Lists *)

Lemma aget_memcpy {A} `{!Inhabited A} (w src : list A) off i :
  0 ≤ off → off + zlen src ≤ zlen w → 0 ≤ i →
  (memcpy w off src).[i] = if decide (off ≤ i < off + zlen src) then src.[i - off] else w.[i].
Proof.
  unfold memcpy, aget, zlen. intros Hoff Hlen Hi.
  rewrite !list_lookup_total_alt. case_decide; f_equal.
  - rewrite lookup_app_r by (rewrite length_take; lia).
    rewrite lookup_app_l by (rewrite length_take; lia). f_equal. rewrite length_take. lia.
  - destruct (decide (i < off)).
    + rewrite lookup_app_l by (rewrite length_take; lia). apply lookup_take_lt. lia.
    + rewrite lookup_app_r by (rewrite length_take; lia).
      rewrite lookup_app_r by (rewrite length_take; lia). rewrite lookup_drop, length_take.
      f_equal. lia.
Qed.

Lemma zlen_memcpy {A} (w src : list A) off :
  0 ≤ off → off + zlen src ≤ zlen w → zlen (memcpy w off src) = zlen w.
Proof. intros. unfold zlen at 1. by rewrite length_memcpy. Qed.

Lemma zlen_last_bytes n data : 0 ≤ n ≤ zlen data → zlen (last_bytes n data) = n.
Proof. unfold zlen, last_bytes. intros. rewrite length_drop. lia. Qed.

Lemma aget_last_bytes n data i : 0 ≤ n ≤ zlen data → 0 ≤ i → i < n →
  (last_bytes n data).[i] = data.[zlen data - n + i].
Proof.
  unfold last_bytes, aget, zlen. intros. rewrite !list_lookup_total_alt, lookup_drop.
  do 2 f_equal. lia.
Qed.

Lemma aget_take (l : list Z) n i : 0 ≤ i → (Z.to_nat i < n)%nat → (take n l).[i] = l.[i].
Proof. unfold aget. intros. rewrite !list_lookup_total_alt, lookup_take_lt by lia. done. Qed.

Lemma aget_app_r (l k : list Z) i : zlen l ≤ i → (l ++ k).[i] = k.[i - zlen l].
Proof.
  unfold aget, zlen. intros. rewrite lookup_total_app_r by lia. f_equal. lia.
Qed.

(** ** What the window holds *)

(** The byte [d] back from the write index. *)
Definition ring (w : list Z) (wsize wnext d : Z) : Z := w.[(wnext - d) mod wsize].

(** The window is in use and holds the end of the history [H]. *)
Record in_use (st : inflate_state) (H : list Z) : Prop := {
  use_wbits : 0 ≤ wbits st;
  use_size : wsize st = 2 ^ wbits st;
  use_window : zlen (default [] (window st)) = wsize st;
  use_some : window st ≠ None;
  use_next : 0 ≤ wnext st < wsize st;
  use_have : whave st = Z.min (zlen H) (wsize st);
  use_fill : whave st < wsize st → wnext st = whave st;
  use_ring : ∀ d, 1 ≤ d ≤ whave st →
    ring (default [] (window st)) (wsize st) (wnext st) d = H.[zlen H - d]
}.

(** Not yet in use: nothing was written. *)
Definition holds (st : inflate_state) (H : list Z) : Prop :=
  in_use st H ∨
  (wsize st = 0 ∧ whave st = 0 ∧ H = [] ∧ 0 ≤ wbits st ∧
   match window st with Some w => zlen w = 2 ^ wbits st | None => True end).

Lemma mod_distinct a b n : 0 < b - a < n → a mod n ≠ b mod n.
Proof.
  intros Hab E. pose proof (Z.div_mod a n). pose proof (Z.div_mod b n).
  assert (b - a = n * (b / n - a / n)) as Hk by lia.
  destruct (decide (1 ≤ b / n - a / n)); nia.
Qed.

(** Writing [D] at the write index advances the ring. *)
Lemma ring_write w w' wsize wnext wnext' H D :
  0 < wsize → 0 ≤ wnext < wsize → zlen D < wsize →
  wnext' mod wsize = (wnext + zlen D) mod wsize →
  (∀ t, 0 ≤ t < zlen D → w'.[(wnext + t) mod wsize] = D.[t]) →
  (∀ i, 0 ≤ i < wsize → (∀ t, 0 ≤ t < zlen D → i ≠ (wnext + t) mod wsize) → w'.[i] = w.[i]) →
  ∀ whave d, whave ≤ wsize →
  (∀ d, 1 ≤ d ≤ whave → ring w wsize wnext d = H.[zlen H - d]) →
  1 ≤ d ≤ Z.min (whave + zlen D) wsize → whave ≤ zlen H →
  ring w' wsize wnext' d = (H ++ D).[zlen (H ++ D) - d].
Proof.
  intros Hw Hn HD Hn' Hnew Hold whave d Hwh Hring Hd HH. pose proof (zlen_nonneg D).
  assert (ring w' wsize wnext' d = w'.[(wnext + (zlen D - d)) mod wsize]) as ->.
  { unfold ring. f_equal. rewrite <-Zminus_mod_idemp_l, Hn', Zminus_mod_idemp_l. f_equal. lia. }
  rewrite zlen_app. destruct (decide (d ≤ zlen D)).
  - rewrite Hnew by lia. rewrite aget_app_r by lia. f_equal. lia.
  - rewrite aget_app_l by lia. rewrite Hold; cycle 1.
    { apply Z.mod_pos_bound. lia. }
    { intros t Ht. apply mod_distinct. lia. }
    replace (zlen H + zlen D - d) with (zlen H - (d - zlen D)) by lia.
    rewrite <-Hring by lia. unfold ring. do 2 f_equal. lia.
Qed.

(** Writing the last [copy] bytes of [data] to the window. *)
Lemma copy_window_ok st H data copy : in_use st H → 0 ≤ copy ≤ zlen data →
  in_use (copy_window st data copy) (H ++ last_bytes copy data).
Proof.
  intros [Hb Hsz Hlen Hsome Hnx Hhv Hfill Hring] Hcopy.
  set (w := default [] (window st)) in *. set (D := last_bytes copy data).
  assert (zlen D = copy) as HD by (by apply zlen_last_bytes).
  assert (0 < wsize st) as Hpos by lia. unfold copy_window. fold w.
  destruct (Z.leb_spec (wsize st) copy) as [Hbig|Hsmall].
  { assert (zlen (last_bytes (wsize st) data) = wsize st) as Hl by (apply zlen_last_bytes; lia).
    split; cbn; try done; try lia.
    - rewrite zlen_memcpy; lia.
    - rewrite zlen_app. pose proof (zlen_nonneg H). lia.
    - intros d Hd. unfold ring. rewrite aget_memcpy by (try apply Z.mod_pos_bound; lia).
      replace ((0 - d) mod wsize st) with (wsize st - d)
        by (apply (Z.mod_unique _ _ (-1)); lia).
      rewrite decide_True by lia. rewrite aget_last_bytes by lia.
      rewrite zlen_app, HD, aget_app_r by lia. unfold D. rewrite aget_last_bytes by lia. f_equal. lia. }
  set (dist := if copy <? wsize st - wnext st then copy else wsize st - wnext st).
  assert (dist = Z.min copy (wsize st - wnext st)) as Hdist
    by (unfold dist; destruct (Z.ltb_spec copy (wsize st - wnext st)); lia).
  clearbody dist. fold D.
  assert (zlen (take (Z.to_nat dist) D) = dist) as Ht by (unfold zlen in *; rewrite length_take; lia).
  set (w1 := memcpy w (wnext st) (take (Z.to_nat dist) D)).
  assert (∀ i, 0 ≤ i → w1.[i] = if decide (wnext st ≤ i < wnext st + dist)
    then D.[i - wnext st] else w.[i]) as Hw1.
  { intros i Hi. unfold w1. rewrite aget_memcpy by lia. rewrite Ht. case_decide; [|done].
    apply aget_take; lia. }
  assert (zlen w1 = wsize st) as Hw1l by (unfold w1; rewrite zlen_memcpy; lia).
  unfold c_true. destruct (Z.eqb_spec (copy - dist) 0) as [E0|E0]; cbn [negb].
  - split; cbn; try done.
    + destruct (Z.eqb_spec (wnext st + dist) (wsize st)); lia.
    + rewrite zlen_app, HD. destruct (Z.ltb_spec (whave st) (wsize st)); lia.
    + destruct (Z.ltb_spec (whave st) (wsize st)), (Z.eqb_spec (wnext st + dist) (wsize st)); lia.
    + intros d Hd. apply (ring_write w w1 (wsize st) (wnext st)) with (whave := whave st); try lia.
      * rewrite HD. destruct (Z.eqb_spec (wnext st + dist) (wsize st)) as [E|E].
        { replace (wnext st + copy) with (wsize st) by lia. by rewrite Z.mod_0_l, Z.mod_same by lia. }
        { f_equal. lia. }
      * intros t Htt. rewrite Z.mod_small by lia. rewrite Hw1, decide_True by lia. f_equal. lia.
      * intros i Hi Hne. rewrite Hw1 by lia. rewrite decide_False; [done|]. intros Hin.
        apply (Hne (i - wnext st)); [lia|]. rewrite Z.mod_small; lia.
      * done.
      * destruct (Z.ltb_spec (whave st) (wsize st)); lia.
  - set (rest := last_bytes (copy - dist) data).
    assert (zlen rest = copy - dist) as Hrl by (apply zlen_last_bytes; lia).
    assert (∀ i, 0 ≤ i < copy - dist → rest.[i] = D.[dist + i]) as Hrest.
    { intros i Hi. unfold rest, D. rewrite !aget_last_bytes by lia. f_equal. lia. }
    split; cbn; try done; try lia.
    + rewrite zlen_memcpy; lia.
    + rewrite zlen_app, HD. lia.
    + intros d Hd. apply (ring_write w (memcpy w1 0 rest) (wsize st) (wnext st)) with (whave := whave st);
        try lia.
      * rewrite HD. replace (wnext st + copy) with (copy - dist + 1 * wsize st) by lia.
        by rewrite Z.mod_add by lia.
      * intros t Htt. rewrite aget_memcpy by (try apply Z.mod_pos_bound; lia).
        destruct (decide (t < dist)).
        { rewrite Z.mod_small by lia. rewrite decide_False, Hw1, decide_True by lia. f_equal. lia. }
        { replace ((wnext st + t) mod wsize st) with (t - dist) by (apply (Z.mod_unique _ _ 1); lia).
          rewrite decide_True by lia. rewrite Z.sub_0_r, Hrest by lia. f_equal. lia. }
      * intros i Hi Hne. rewrite aget_memcpy by lia. rewrite decide_False; cycle 1.
        { intros Hin. apply (Hne (i + dist)); [lia|]. apply (Z.mod_unique _ _ 1); lia. }
        rewrite Hw1 by lia. rewrite decide_False; [done|]. intros Hin.
        apply (Hne (i - wnext st)); [lia|]. rewrite Z.mod_small; lia.
      * done.
Qed.

(** ** updatewindow *)

Section Update.
  Context (ZALLOC : Z → option (list Z)).
  (** Allocated memory has the size asked for. *)
  Hypothesis zalloc_size : ∀ n w, 0 ≤ n → ZALLOC n = Some w → zlen w = n.

Lemma updatewindow_ok st H data copy st' : holds st H → 0 ≤ copy ≤ zlen data →
  updatewindow ZALLOC st data copy = Some st' →
  in_use st' (H ++ last_bytes copy data) ∧ wbits st' = wbits st.
Proof.
  intros Hh Hc Hu. unfold updatewindow, init_window in Hu.
  assert (∃ st1, in_use st1 H ∧ wbits st1 = wbits st ∧ st' = copy_window st1 data copy)
    as (st1 & Hst1 & Hwb & ->).
  { destruct Hh as [Huse|(Hw0 & _ & -> & Hwb & Hwin)].
    - pose proof Huse as [_ Hsz _ Hsome Hn _ _ _]. destruct (window st) as [w|] eqn:Ew; [|done].
      cbn in Hu. destruct (Z.eqb_spec (wsize st) 0); [lia|]. cbn in Hu.
      injection Hu as <-. by exists st.
    - assert (∀ w s, zlen w = 2 ^ wbits st → window s = Some w → wbits s = wbits st →
        wsize s = 1 ≪ wbits st → wnext s = 0 → whave s = 0 → in_use s []) as Hmk.
      { intros w s Hz H1 H2 H3 H4 H5. rewrite Z.shiftl_1_l in H3.
        split; rewrite ?H1, ?H2, ?H3, ?H4, ?H5; cbn; try done; try lia.
        change (zlen []) with 0. lia. }
      destruct (window st) as [w|] eqn:Ew; cbn in Hu.
      + rewrite Hw0 in Hu. cbn in Hu. injection Hu as <-. eexists. split; [|split; [|done]]; [|done].
        by eapply (Hmk w).
      + destruct (ZALLOC (1 ≪ wbits st)) as [w|] eqn:Ea; [|done]. cbn in Hu.
        rewrite Hw0 in Hu. cbn in Hu. injection Hu as <-. rewrite Z.shiftl_1_l in Ea.
        apply zalloc_size in Ea; [|lia]. eexists. split; [|split; [|done]]; [|done]. by eapply (Hmk w). }
  split.
  - by apply copy_window_ok.
  - rewrite <-Hwb. unfold copy_window. by repeat case_match.
Qed.

End Update.

(** ** Dictionaries *)

Lemma get_dictionary s st H : inflateStateCheck (Some s) = Some (s, st) → in_use st H →
  let n := Z.min (zlen H) (wsize st) in
  inflateGetDictionary (Some s) = (Z_OK, Some (last_bytes n H, n)).
Proof.
  intros Hck [Hb Hsz Hlen Hsome Hnx Hhv Hfill Hring] n. unfold inflateGetDictionary. rewrite Hck.
  set (w := default [] (window st)) in *. fold n in Hhv. rewrite Hhv in *. pose proof (zlen_nonneg H).
  do 3 f_equal. unfold c_true.
  assert (zlen (last_bytes n H) = n) as Hl by (apply zlen_last_bytes; lia).
  destruct (Z.eqb_spec n 0) as [E0|E0]; cbn [negb].
  { rewrite E0 in *. by destruct (last_bytes 0 H); [|unfold zlen in Hl; simpl in Hl; lia]. }
  set (m := Z.to_nat (n - wnext st)). set (d := drop (Z.to_nat (wnext st)) w).
  assert (zlen (take m d) = n - wnext st) as Hl1.
  { unfold zlen, m, d in *. rewrite length_take, length_drop. lia. }
  assert (zlen (take (Z.to_nat (wnext st)) w) = wnext st) as Hl2.
  { unfold zlen in *. rewrite length_take. lia. }
  apply list_eq_aget; [rewrite zlen_app; lia|]. intros i Hi. rewrite zlen_app in Hi.
  rewrite aget_last_bytes by lia. replace (zlen H - n + i) with (zlen H - (n - i)) by lia.
  rewrite <-Hring by lia. unfold ring. destruct (decide (i < n - wnext st)).
  - rewrite aget_app_l by lia. rewrite aget_take by (unfold m; lia). unfold d, aget at 1.
    rewrite lookup_total_drop. unfold aget. f_equal.
    replace ((wnext st - (n - i)) mod wsize st) with (wnext st + i); [lia|].
    apply (Z.mod_unique _ _ (-1)); lia.
  - rewrite aget_app_r by lia. rewrite Hl1, aget_take by lia. f_equal.
    symmetry. rewrite Z.mod_small; lia.
Qed.

(** A raw stream that was just reset, used for statements and witnesses. *)
Definition fresh_raw (wb : Z) : inflate_state :=
  State 0 HEAD 0 0 0 0 32768 0 0 None wb 0 0 0 None 0 0 0 0 0 (InCodes 0) (InCodes 0) 0 0
    0 0 0 0 0 (replicate 320 0) (replicate 288 0) (replicate 1444 (Inftrees.Code 0 0 0)) 1 (-1) 0.

(** C15. The sliding window is the end of what was written to it: after any
    sequence of window updates with the output of successive calls, the window
    is consistent with the concatenation of the outputs, and
    inflateGetDictionary returns exactly its last 2^wbits bytes (or all of it),
    whatever the sizes of the updates and wherever they wrap around. *)
Theorem window_is_history ZALLOC s st0 st outs :
  (∀ n w, 0 ≤ n → ZALLOC n = Some w → zlen w = n) →
  0 ≤ wbits st0 → wsize st0 = 0 → whave st0 = 0 → window st0 = None → outs ≠ [] →
  foldl (λ o data, st ← o; updatewindow ZALLOC st data (zlen data)) (Some st0) outs = Some st →
  inflateStateCheck (Some s) = Some (s, st) →
  let H := concat outs in let n := Z.min (zlen H) (2 ^ wbits st0) in
  inflateGetDictionary (Some s) = (Z_OK, Some (last_bytes n H, n)).
Proof.
  intros Hza Hwb Hws Hwh Hwin Hne Hfold Hck H n.
  assert (∀ outs st1 H1, holds st1 H1 → foldl (λ o data, st ← o; updatewindow ZALLOC st data (zlen data))
    (Some st1) outs = Some st → outs ≠ [] →
    in_use st (H1 ++ concat outs) ∧ wbits st = wbits st1) as Hgen.
  { clear -Hza. induction outs as [|o outs IH]; intros st1 H1 Hh Hf Hne; [done|]. simpl in Hf.
    destruct (updatewindow ZALLOC st1 o (zlen o)) as [st2|] eqn:Eu.
    - pose proof (zlen_nonneg o).
      destruct (updatewindow_ok ZALLOC Hza st1 H1 o (zlen o) st2) as [Hu Hb]; [done|lia|done|].
      assert (last_bytes (zlen o) o = o) as El.
      { unfold last_bytes, zlen. by rewrite Nat2Z.id, Nat.sub_diag. }
      rewrite El in Hu. destruct outs as [|o2 outs].
      + injection Hf as <-. simpl. by rewrite app_nil_r.
      + destruct (IH st2 (H1 ++ o)) as [Hu' Hb']; [by left|done|done|].
        cbn [concat]. rewrite app_assoc. split; [done|congruence].
    - exfalso. clear -Hf. induction outs; simpl in *; [done|auto]. }
  destruct (Hgen outs st0 []) as [Huse Hb]; [|done|done|].
  { right. rewrite Hwin. done. }
  simpl in Huse. fold H in Huse. pose proof Huse as [_ Hsz _ _ Hn _ _ _].
  rewrite (get_dictionary s st H Hck Huse). unfold n. by rewrite <-Hb, <-Hsz.
Qed.

Lemma window_is_history_witness : ∃ st,
  foldl (λ o data, st ← o; updatewindow (λ n, Some (replicate (Z.to_nat n) 0)) st data (zlen data))
    (Some (fresh_raw 8)) [replicate 200 1; replicate 100 2; [3; 4]] = Some st ∧
  inflateGetDictionary (Some (Stream 0 (InBuf []) 0 false [] 0 0 None (Some st) true true 0 0))
  = (Z_OK, Some (replicate 154 1 ++ replicate 100 2 ++ [3; 4], 256)).
Proof.
  eexists. split; [vm_compute; reflexivity|].
  etransitivity; [eapply (window_is_history (λ n, Some (replicate (Z.to_nat n) 0)) _ (fresh_raw 8) _
    [replicate 200 1; replicate 100 2; [3; 4]])|vm_compute; reflexivity].
  - intros n w Hn [= <-]. unfold zlen. rewrite length_replicate. lia.
  - done.
  - reflexivity.
  - reflexivity.
  - reflexivity.
  - done.
  - vm_compute. reflexivity.
  - vm_compute. reflexivity.
Defined.

(** ** Matches *)

Lemma lz_add n m dist h :
  lz_bytes (n + m) dist h = lz_bytes n dist h ++ lz_bytes m dist (h ++ lz_bytes n dist h).
Proof.
  revert h. induction n as [|n IH]; intros h; cbn [lz_bytes Nat.add]; [by rewrite app_nil_r|].
  rewrite IH. simpl. by rewrite <-app_assoc.
Qed.

(** Only the last [dist] bytes of the history matter. *)
Lemma lz_suffix n dist h h' : 1 ≤ dist → dist ≤ zlen h → dist ≤ zlen h' →
  (∀ d, 1 ≤ d ≤ dist → h.[zlen h - d] = h'.[zlen h' - d]) →
  lz_bytes n dist h = lz_bytes n dist h'.
Proof.
  intros Hd. revert h h'. induction n as [|n IH]; intros h h' H1 H2 Heq; cbn [lz_bytes]; [done|].
  assert (h.[zlen h - dist] = h'.[zlen h' - dist]) as E by (apply Heq; lia). rewrite E. f_equal.
  apply IH; [rewrite zlen_app; change (zlen [_]) with 1; lia..|]. intros d Hdd.
  rewrite !zlen_app. change (zlen [_]) with 1. destruct (decide (d = 1)) as [->|].
  - rewrite !aget_app_r by lia. f_equal. lia.
  - rewrite !aget_app_l by lia.
    replace (zlen h + 1 - d) with (zlen h - (d - 1)) by lia.
    replace (zlen h' + 1 - d) with (zlen h' - (d - 1)) by lia. apply Heq. lia.
Qed.

(** The first bytes of a match, while they do not overlap it. *)
Lemma lz_direct n dist h : Z.of_nat n ≤ dist ≤ zlen h →
  lz_bytes n dist h = take n (drop (Z.to_nat (zlen h - dist)) h).
Proof.
  intros Hn. apply list_eq_aget.
  - rewrite Rfc1951.zlen_lz_bytes. unfold zlen in *. rewrite length_take, length_drop. lia.
  - rewrite Rfc1951.zlen_lz_bytes. intros i Hi. rewrite aget_take by lia.
    unfold aget at 2. rewrite lookup_total_drop. fold (aget h (zlen h - dist + i)).
    replace (h !!! (Z.to_nat (zlen h - dist) + Z.to_nat i)%nat) with (h.[zlen h - dist + i])
      by (unfold aget; f_equal; lia).
    revert h i Hn Hi. induction n as [|n IH]; intros h i Hn Hi; [lia|]. cbn [lz_bytes].
    destruct (decide (i = 0)) as [->|].
    + unfold aget at 1. simpl. f_equal. lia.
    + set (b := h.[zlen h - dist]). replace i with (1 + (i - 1)) at 1 by lia.
      change (b :: lz_bytes n dist (h ++ [b])) with ([b] ++ lz_bytes n dist (h ++ [b])).
      rewrite aget_app_r by (change (zlen [b]) with 1; lia). change (zlen [b]) with 1.
      replace (1 + (i - 1) - 1) with (i - 1) by lia.
      destruct (decide (Z.of_nat n ≤ dist)); [|lia].
      rewrite IH; [|rewrite zlen_app; change (zlen [b]) with 1; lia|lia].
      rewrite zlen_app. change (zlen [b]) with 1. rewrite aget_app_l by lia. f_equal. lia.
Qed.

(** ** The copy loops *)

Lemma copy_bytes_add w n m from out :
  Inffast.copy_bytes w (n + m) from out
  = let '(from, out) := Inffast.copy_bytes w n from out in Inffast.copy_bytes w m from out.
Proof. revert from out. induction n as [|n IH]; intros; cbn [Nat.add Inffast.copy_bytes]; auto. Qed.

(** The loop unrolled by three copies [len] bytes. *)
Lemma copy_by3_spec w fuel len from out : 0 ≤ len → (Z.to_nat len < 3 * fuel)%nat →
  Inffast.copy_by3 w fuel len from out = (Inffast.copy_bytes w (Z.to_nat len) from out).2.
Proof.
  revert len from out. induction fuel as [|fuel IH]; intros len from out Hl Hf; [lia|].
  cbn [Inffast.copy_by3]. destruct (Z.ltb_spec 2 len).
  - replace (Z.to_nat len) with (3 + Z.to_nat (len - 3))%nat by lia.
    rewrite copy_bytes_add. destruct (Inffast.copy_bytes w 3 from out) as [from' out'].
    apply IH; lia.
  - unfold c_true. destruct (Z.eqb_spec len 0) as [->|]; [done|]. cbn [negb].
    destruct (Z.ltb_spec 1 len).
    + assert (len = 2) as -> by lia. done.
    + assert (len = 1) as -> by lia. done.
Qed.

Lemma copy_out w n dist out : 1 ≤ dist ≤ zlen out →
  (Inffast.copy_bytes w n (Inffast.Out (zlen out - dist)) out).2 = out ++ lz_bytes n dist out.
Proof.
  revert out. induction n as [|n IH]; intros out Hd; cbn [Inffast.copy_bytes lz_bytes];
    [by rewrite app_nil_r|].
  cbn [Inffast.src_byte Inffast.src_next]. set (b := out.[zlen out - dist]).
  replace (zlen out - dist + 1) with (zlen (out ++ [b]) - dist)
    by (rewrite zlen_app; change (zlen [b]) with 1; lia).
  rewrite IH by (rewrite zlen_app; change (zlen [b]) with 1; lia). by rewrite <-app_assoc.
Qed.

Lemma copy_win w n i out : 0 ≤ i → i + Z.of_nat n ≤ zlen w →
  Inffast.copy_bytes w n (Inffast.Win i) out
  = (Inffast.Win (i + Z.of_nat n), out ++ take n (drop (Z.to_nat i) w)).
Proof.
  revert i out. induction n as [|n IH]; intros i out Hi Hn; cbn [Inffast.copy_bytes].
  { simpl. rewrite app_nil_r. do 2 f_equal. lia. }
  cbn [Inffast.src_byte Inffast.src_next]. rewrite IH by lia. f_equal; [f_equal; lia|].
  rewrite <-app_assoc. f_equal. replace (Z.to_nat (i + 1)) with (S (Z.to_nat i)) by lia.
  unfold aget. rewrite (drop_S w (w !!! Z.to_nat i) (Z.to_nat i)); [done|].
  apply list_lookup_lookup_total_lt. unfold zlen in Hn. lia.
Qed.

(** The bytes [op] back in the window, [n] of them, are history. *)
Lemma window_segment st H a n op : in_use st H → 0 ≤ a → 1 ≤ op ≤ whave st → Z.of_nat n ≤ op →
  (∀ j, 0 ≤ j < Z.of_nat n → a + j = (wnext st - (op - j)) mod wsize st) →
  a + Z.of_nat n ≤ wsize st →
  take n (drop (Z.to_nat a) (default [] (window st))) = take n (drop (Z.to_nat (zlen H - op)) H).
Proof.
  intros [Hb Hsz Hlen Hsome Hnx Hhv Hfill Hring] Ha Hop Hn Hidx Hend.
  set (w := default [] (window st)) in *. apply list_eq_aget.
  - unfold zlen in *. rewrite !length_take, !length_drop. lia.
  - intros i Hi. assert (i < Z.of_nat n) as Hin by (unfold zlen in Hi; rewrite length_take in Hi; lia).
    rewrite !aget_take by lia. unfold aget. rewrite !lookup_total_drop.
    specialize (Hring (op - i)). unfold ring in Hring. rewrite <-Hidx in Hring by lia.
    unfold aget in Hring. replace (Z.to_nat a + Z.to_nat i)%nat with (Z.to_nat (a + i)) by lia.
    rewrite Hring by lia. f_equal. lia.
Qed.

Section MatchCopy.
  Context (st : inflate_state) (H pre cur : list Z) (op len dist : Z).
  Hypothesis window_ok : in_use st H.
  Hypothesis op_ok : 1 ≤ op ≤ whave st.
  Hypothesis dist_ok : dist = op + zlen cur.

Let w := default [] (window st).
Let out := pre ++ cur.
Let h := H ++ cur.

(** The part of the match that lies in the window. *)
Lemma lz_first m : Z.of_nat m ≤ op → lz_bytes m dist h = take m (drop (Z.to_nat (zlen H - op)) H).
Proof.
  intros Hm. destruct window_ok as [_ _ _ _ _ Hhv _ _]. pose proof (zlen_nonneg cur).
  unfold h. rewrite lz_direct by (rewrite zlen_app; lia).
  replace (zlen (H ++ cur) - dist) with (zlen H - op) by (rewrite zlen_app; lia).
  assert (Z.to_nat (zlen H - op) + m ≤ length H)%nat as Hlen by (unfold zlen in *; lia).
  rewrite drop_app_le by lia. rewrite take_app_le; [done|]. rewrite length_drop. lia.
Qed.

(** The rest of it is copied from the output. *)
Lemma rest_from_output fuel : op < len → (Z.to_nat (len - op) < 3 * fuel)%nat →
  let out1 := out ++ lz_bytes (Z.to_nat op) dist h in
  Inffast.copy_by3 w fuel (len - op) (Inffast.Out (zlen out1 - dist)) out1
  = out ++ lz_bytes (Z.to_nat len) dist h.
Proof.
  intros Hlt Hf out1. pose proof (zlen_nonneg cur). pose proof (zlen_nonneg pre).
  set (L := lz_bytes (Z.to_nat op) dist h) in *.
  assert (zlen L = op) as HL by (unfold L; rewrite Rfc1951.zlen_lz_bytes; lia).
  assert (zlen out1 = zlen pre + dist ∧ zlen (h ++ L) = zlen H + dist) as [Ho Hh]
    by (unfold out1, out, h; rewrite !zlen_app; lia).
  pose proof (zlen_nonneg H).
  rewrite copy_by3_spec, copy_out by lia.
  replace (Z.to_nat len) with (Z.to_nat op + Z.to_nat (len - op))%nat by lia.
  rewrite lz_add. fold L. rewrite app_assoc. fold out1. f_equal.
  apply lz_suffix; [lia..|]. intros d Hd. rewrite Ho, Hh. unfold out1, out, h.
  rewrite <-!app_assoc, (aget_app_r pre), (aget_app_r H) by lia. f_equal. lia.
Qed.

Lemma copy_in_window fuel a m : 0 ≤ a → 1 ≤ m ≤ op → (Z.to_nat m < 3 * fuel)%nat →
  take (Z.to_nat m) (drop (Z.to_nat a) w) = take (Z.to_nat m) (drop (Z.to_nat (zlen H - op)) H) →
  a + m ≤ zlen w →
  Inffast.copy_by3 w fuel m (Inffast.Win a) out = out ++ lz_bytes (Z.to_nat m) dist h.
Proof.
  intros Ha Hm Hf Hseg Hend. rewrite copy_by3_spec, copy_win by lia. cbn [snd].
  by rewrite Hseg, lz_first by lia.
Qed.

Lemma copy_window_match_spec : 1 ≤ len →
  Inffast.copy_window_match st op len dist out = out ++ lz_bytes (Z.to_nat len) dist h.
Proof.
  intros Hlen. pose proof window_ok as [Hb Hsz Hwl Hsome Hnx Hhv Hfill Hring]. fold w in Hwl.
  unfold Inffast.copy_window_match. fold w.
  assert (op ≤ wsize st) as Hopw by lia.
  assert (∀ a m, 0 ≤ a → 0 ≤ m ≤ op → a + m ≤ wsize st →
    (∀ j, 0 ≤ j < m → a + j = (wnext st - (op - j)) mod wsize st) →
    take (Z.to_nat m) (drop (Z.to_nat a) w) = take (Z.to_nat m) (drop (Z.to_nat (zlen H - op)) H)) as Hseg.
  { intros a m Ha Hm Ham Hj. apply (window_segment st H a (Z.to_nat m) op); try done; try lia.
    intros j Hjj. apply Hj. lia. }
  (* a contiguous piece at [a]: wholly in it, or the rest from the output *)
  assert (∀ a, 0 ≤ a → a + op ≤ wsize st →
    (∀ j, 0 ≤ j < op → a + j = (wnext st - (op - j)) mod wsize st) →
    (let '(from, len, out) :=
       if op <? len then
         let '(_, out) := Inffast.copy_bytes w (Z.to_nat op) (Inffast.Win a) out in
         (Inffast.Out (zlen out - dist), len - op, out)
       else (Inffast.Win a, len, out) in
     Inffast.copy_by3 w (Z.to_nat len) len from out) = out ++ lz_bytes (Z.to_nat len) dist h) as Hone.
  { intros a Ha Haop Hj. destruct (Z.ltb_spec op len).
    - rewrite copy_win by lia. rewrite Hseg, <-lz_first by (done || lia).
      apply rest_from_output; lia.
    - apply copy_in_window; try lia. apply Hseg; try lia. intros j Hjj. apply Hj. lia. }
  destruct (Z.eqb_spec (wnext st) 0) as [E0|E0].
  { apply Hone; [lia..|]. intros j Hj. rewrite E0. apply (Z.mod_unique _ _ (-1)); lia. }
  destruct (Z.ltb_spec (wnext st) op) as [Hw|Hw]; cycle 1.
  { apply Hone; [lia..|]. intros j Hj. rewrite Z.mod_small; lia. }
  set (op1 := op - wnext st). assert (1 ≤ op1 ≤ op) by (unfold op1; lia).
  assert (∀ m, 0 ≤ m ≤ op1 →
    take (Z.to_nat m) (drop (Z.to_nat (wsize st + wnext st - op)) w)
    = take (Z.to_nat m) (drop (Z.to_nat (zlen H - op)) H)) as Hseg1.
  { intros m Hm. apply Hseg; [unfold op1 in *; lia..|].
    intros j Hj. apply (Z.mod_unique _ _ (-1)); unfold op1 in *; lia. }
  assert (∀ m, 0 ≤ m ≤ wnext st →
    take (Z.to_nat op1) (drop (Z.to_nat (zlen H - op)) H) ++ take (Z.to_nat m) w
    = lz_bytes (Z.to_nat (op1 + m)) dist h) as Hseg2.
  { intros m Hm. rewrite lz_first by (unfold op1; lia).
    replace (Z.to_nat (op1 + m)) with (Z.to_nat op1 + Z.to_nat m)%nat by lia.
    rewrite <-take_take_drop, drop_drop. f_equal.
    pose proof (window_segment st H 0 (Z.to_nat m) (wnext st) window_ok) as Hws. fold w in Hws.
    replace (Z.to_nat (zlen H - op) + Z.to_nat op1)%nat with (Z.to_nat (zlen H - wnext st))
      by (unfold op1; lia).
    rewrite <-Hws; [done|lia|lia|lia| |lia]. intros j Hj. rewrite Z.mod_small; lia. }
  destruct (Z.ltb_spec op1 len) as [Hl1|Hl1]; cycle 1.
  { apply copy_in_window; try (unfold op1 in *; lia). apply Hseg1. lia. }
  rewrite copy_win by (unfold op1 in *; lia). rewrite Hseg1 by lia.
  set (S1 := take (Z.to_nat op1) (drop (Z.to_nat (zlen H - op)) H)) in *.
  destruct (Z.ltb_spec (wnext st) (len - op1)) as [Hl2|Hl2].
  - rewrite copy_win by lia. change (drop (Z.to_nat 0) w) with w.
    rewrite <-app_assoc, Hseg2 by lia. replace (op1 + wnext st) with op by (unfold op1; lia).
    replace (len - op1 - wnext st) with (len - op) by (unfold op1; lia).
    apply rest_from_output; unfold op1 in *; lia.
  - rewrite copy_by3_spec, copy_win by lia. cbn [snd]. change (drop (Z.to_nat 0) w) with w.
    rewrite <-app_assoc, Hseg2 by lia. do 3 f_equal. lia.
Qed.

End MatchCopy.

(** [holds] depends on the window fields only. *)
Lemma holds_ext s s' H : wbits s' = wbits s → wsize s' = wsize s → whave s' = whave s →
  wnext s' = wnext s → window s' = window s → holds s H → holds s' H.
Proof.
  unfold holds. intros E0 E1 E2 E3 E4 [[? ? ? ? ? ? ? ?]|Hu]; [left|right; by rewrite E0, E1, E2, E4].
  split; rewrite ?E0, ?E1, ?E2, ?E3, ?E4; done.
Qed.

Lemma holds_have st H : holds st H → 0 ≤ whave st ≤ zlen H ∧ (1 ≤ whave st → in_use st H).
Proof.
  pose proof (zlen_nonneg H). intros [Hu|(? & ? & -> & _)].
  - split; [|done]. destruct Hu as [_ _ _ _ Hnx Hhv _ _]. lia.
  - change (zlen []) with 0. lia.
Qed.

(** The match copy of inflate_fast. *)
Lemma fast_match st H pre cur len dist f :
  holds st H → c_true (sane st) = true → Inffast.out f = pre ++ cur → 3 ≤ len → 1 ≤ dist →
  Inffast.do_match st (zlen pre) len dist f =
  if zlen cur + whave st <? dist
  then Inffast.Error "invalid distance too far back" f
  else Inffast.Cont (f <| Inffast.out := (pre ++ cur) ++ lz_bytes (Z.to_nat len) dist (H ++ cur) |>).
Proof.
  intros Hh Hsane Hout Hlen Hdist. unfold Inffast.do_match. rewrite Hout, Hsane, zlen_app, andb_true_r.
  replace (zlen pre + zlen cur - zlen pre) with (zlen cur) by lia.
  destruct (holds_have st H Hh) as [HwH Huse]. pose proof (zlen_nonneg cur).
  destruct (Z.ltb_spec (zlen cur) dist) as [Hwin|Hdir].
  - destruct (Z.ltb_spec (whave st) (dist - zlen cur)), (Z.ltb_spec (zlen cur + whave st) dist);
      try lia; [done|].
    rewrite (copy_window_match_spec st H pre cur); [done|apply Huse; lia|lia..].
  - destruct (Z.ltb_spec (zlen cur + whave st) dist) as [Hbad|_].
    { lia. }
    do 2 f_equal. unfold Inffast.copy_direct.
    pose proof (copy_bytes_add (default [] (window st)) 3 (Z.to_nat (len - 3))
      (Inffast.Out (zlen pre + zlen cur - dist)) (pre ++ cur)) as Hadd.
    destruct (Inffast.copy_bytes _ 3 _ _) as [from' out'].
    rewrite copy_by3_spec by lia. rewrite <-Hadd.
    replace (3 + Z.to_nat (len - 3))%nat with (Z.to_nat len) by lia.
    pose proof (zlen_nonneg pre). rewrite <-zlen_app, copy_out by (rewrite zlen_app; lia).
    f_equal. pose proof (zlen_nonneg H).
    apply lz_suffix; rewrite ?zlen_app; try lia. intros d Hd.
    rewrite (aget_app_r pre), (aget_app_r H) by lia. f_equal. lia.
Qed.

(** C16. The match copy of inflate_fast, with its cases for a match that lies in
    the output, in the window, across the wrap of the circular window, or across
    the window and the output, and its loops unrolled by three, produces exactly
    the LZ77 copy of the history: each byte is the one [dist] back. A distance
    beyond the history is reported as an error and nothing is written. *)
Theorem fast_match_correct st H pre cur len dist f :
  holds st H → c_true (sane st) = true → Inffast.out f = pre ++ cur → 3 ≤ len → 1 ≤ dist →
  Inffast.do_match st (zlen pre) len dist f =
  if zlen cur + whave st <? dist
  then Inffast.Error "invalid distance too far back" f
  else Inffast.Cont (f <| Inffast.out := (pre ++ cur) ++ lz_bytes (Z.to_nat len) dist (H ++ cur) |>).
Proof. apply fast_match. Qed.

(** A raw stream whose 256-byte window holds 256 numbered bytes, starting in
    the middle of the ring. *)
Definition example_state : inflate_state :=
  (fresh_raw 8) <| wsize := 256 |> <| whave := 256 |> <| wnext := 100 |> <| mode := MATCH |>
    <| window := Some (map (λ i, (i + 156) mod 256) (seqZ 0 256)) |>
    <| offset := 150 |> <| length_ := 120 |>.

Lemma example_holds : holds example_state (seqZ 0 256).
Proof.
  left. split; try done; try (vm_compute; intuition congruence).
  intros d Hd. cbn in Hd. unfold ring. cbn.
  assert (forall_range (λ d, ((map (λ i, (i + 156) mod 256) (seqZ 0 256)).[(100 - d) mod 256]
    =? (seqZ 0 256).[zlen (seqZ 0 256) - d])) 1 256 = true) as Hf by (vm_compute; reflexivity).
  apply (forall_range_spec _ _ _ d) in Hf; [|lia]. by apply Z.eqb_eq in Hf.
Qed.

Lemma fast_match_witness :
  Inffast.do_match example_state 2 120 150 (Inffast.Fast 0 [9; 9; 8; 7] 0 0)
  = Inffast.Cont (Inffast.Fast 0 ([9; 9; 8; 7] ++
      lz_bytes 120 150 (seqZ 0 256 ++ [8; 7])) 0 0).
Proof.
  apply (fast_match_correct example_state (seqZ 0 256) [9; 9] [8; 7] 120 150
    (Inffast.Fast 0 [9; 9; 8; 7] 0 0)); [apply example_holds|reflexivity|reflexivity|lia|lia].
Defined.

(** ** The MATCH state *)

(** One source of a match: the bytes copied from it are the match's. *)
Lemma match_source_spec s H pre cur : holds s H → c_true (sane s) = true →
  1 ≤ offset s → 1 ≤ length_ s → offset s ≤ zlen cur + whave s →
  ∃ from n, Inflate.match_source s (zlen cur) (pre ++ cur) = Some (from, n) ∧ 1 ≤ n ≤ length_ s ∧
    ∀ m, 1 ≤ m ≤ n →
      (Inffast.copy_bytes (default [] (window s)) (Z.to_nat m) from (pre ++ cur)).2
      = (pre ++ cur) ++ lz_bytes (Z.to_nat m) (offset s) (H ++ cur).
Proof.
  intros Hh Hsane Ho Hl Hfar. unfold Inflate.match_source. rewrite Hsane, andb_true_r.
  destruct (holds_have s H Hh) as [HwH Huse]. pose proof (zlen_nonneg cur).
  destruct (Z.ltb_spec (zlen cur) (offset s)) as [Hwin|Hdir].
  - destruct (Z.ltb_spec (whave s) (offset s - zlen cur)); [lia|].
    specialize (Huse ltac:(lia)). pose proof Huse as [Hb Hsz Hwl Hsome Hnx Hhv Hfill Hring].
    set (op := offset s - zlen cur) in *.
    assert (∀ a m, 0 ≤ a → 1 ≤ m ≤ op → a + m ≤ wsize s →
      (∀ j, 0 ≤ j < m → a + j = (wnext s - (op - j)) mod wsize s) →
      (Inffast.copy_bytes (default [] (window s)) (Z.to_nat m) (Inffast.Win a) (pre ++ cur)).2
      = (pre ++ cur) ++ lz_bytes (Z.to_nat m) (offset s) (H ++ cur)) as Hseg.
    { intros a m Ha Hm Ham Hj. rewrite copy_win by lia. cbn [snd].
      rewrite (window_segment s H a (Z.to_nat m) op) by (try done; try lia; intros; apply Hj; lia).
      rewrite (lz_first s H cur op (offset s)); [done|done|lia|unfold op; lia|lia]. }
    destruct (Z.ltb_spec (wnext s) op) as [Hw|Hw].
    + eexists _, _. split; [done|]. destruct (Z.ltb_spec (length_ s) (op - wnext s));
        (split; [lia|]); intros m Hm; apply Hseg; try lia;
        intros j Hj; apply (Z.mod_unique _ _ (-1)); lia.
    + eexists _, _. split; [done|]. destruct (Z.ltb_spec (length_ s) op);
        (split; [lia|]); intros m Hm; apply Hseg; try lia;
        intros j Hj; rewrite Z.mod_small; lia.
  - eexists _, _. split; [done|]. split; [lia|]. intros m Hm. pose proof (zlen_nonneg pre).
    rewrite copy_out by (rewrite zlen_app; lia). f_equal. pose proof (zlen_nonneg H).
    apply lz_suffix; rewrite ?zlen_app; try lia. intros d Hd.
    rewrite (aget_app_r pre), (aget_app_r H) by lia. f_equal. lia.
Qed.

Lemma match_step flush r H pre cur : mode (Inflate.st r) = MATCH → holds (Inflate.st r) H →
  c_true (sane (Inflate.st r)) = true → Inflate.put r = pre ++ cur →
  Inflate.out r - Inflate.left_ r = zlen cur →
  1 ≤ offset (Inflate.st r) ≤ zlen cur + whave (Inflate.st r) → 1 ≤ length_ (Inflate.st r) →
  1 ≤ Inflate.left_ r →
  ∃ r' m, Inflate.step flush r = (r', inl ()) ∧
    1 ≤ m ≤ Z.min (length_ (Inflate.st r)) (Inflate.left_ r) ∧
    Inflate.put r' = Inflate.put r ++ lz_bytes (Z.to_nat m) (offset (Inflate.st r)) (H ++ cur) ∧
    Inflate.left_ r' = Inflate.left_ r - m ∧ Inflate.out r' = Inflate.out r ∧
    length_ (Inflate.st r') = length_ (Inflate.st r) - m ∧
    offset (Inflate.st r') = offset (Inflate.st r) ∧ sane (Inflate.st r') = sane (Inflate.st r) ∧
    (∀ H, holds (Inflate.st r) H → holds (Inflate.st r') H) ∧
    whave (Inflate.st r') = whave (Inflate.st r) ∧
    mode (Inflate.st r') = (if length_ (Inflate.st r) =? m then LEN else MATCH) ∧
    kept r r' ∧ Inflate.nxt r' = Inflate.nxt r ∧ Inflate.hold r' = Inflate.hold r ∧
    Inflate.bits r' = Inflate.bits r.
Proof.
  intros Hmode Hh Hsane Hput Hcur Ho Hl Hleft.
  destruct (match_source_spec (Inflate.st r) H pre cur) as (from & n & Hsrc & Hn & Hcopy);
    [done..|lia|lia|lia|].
  unfold Inflate.step, mbind, Inflate.M_bind, Inflate.gets. rewrite Hmode. cbn -[Z.ltb Z.eqb].
  unfold Inflate.do_MATCH, mbind, Inflate.M_bind, Inflate.gets. cbn -[Z.ltb Z.eqb]. unfold id.
  destruct (Z.eqb_spec (Inflate.left_ r) 0); [lia|]. rewrite Hcur, Hput, Hsrc.
  set (m := if Inflate.left_ r <? n then Inflate.left_ r else n).
  assert (1 ≤ m ≤ n ∧ m ≤ Inflate.left_ r) as [Hm1 Hm2]
    by (unfold m; destruct (Z.ltb_spec (Inflate.left_ r) n); lia).
  destruct (Z.eqb_spec m 0); [lia|]. cbn -[Z.eqb lz_bytes Inffast.copy_bytes].
  unfold Inflate.when.
  destruct (Z.eqb_spec (length_ (Inflate.st r) - m) 0);
    eexists _, m; (split; [done|]); cbn -[lz_bytes Inffast.copy_bytes]; rewrite Hput;
    (split_and!; [lia|lia|by apply Hcopy|done|done|done|done|done|
       intros ?; by apply holds_ext|done|
       destruct (Z.eqb_spec (length_ (Inflate.st r)) m); done || lia|done|done|done|done]).
Qed.

(** The rounds of one match. *)
Lemma match_rounds flush r H pre cur :
  mode (Inflate.st r) = MATCH → holds (Inflate.st r) H →
  c_true (sane (Inflate.st r)) = true → Inflate.put r = pre ++ cur →
  Inflate.out r - Inflate.left_ r = zlen cur →
  1 ≤ offset (Inflate.st r) ≤ zlen cur + whave (Inflate.st r) →
  1 ≤ length_ (Inflate.st r) ≤ Inflate.left_ r →
  ∃ r', reaches flush r r' ∧ mode (Inflate.st r') = LEN ∧
    Inflate.put r' = Inflate.put r ++ lz_bytes (Z.to_nat (length_ (Inflate.st r)))
                       (offset (Inflate.st r)) (H ++ cur) ∧
    Inflate.left_ r' = Inflate.left_ r - length_ (Inflate.st r) ∧
    kept r r' ∧ Inflate.nxt r' = Inflate.nxt r ∧ Inflate.hold r' = Inflate.hold r ∧
    Inflate.bits r' = Inflate.bits r.
Proof.
  remember (Z.to_nat (length_ (Inflate.st r))) as n eqn:En. revert r cur En.
  induction (lt_wf n) as [n _ IH]. intros r cur En Hmode Hh Hsane Hput Hcur Ho Hl.
  destruct (match_step flush r H pre cur) as
    (r1 & m & Hstep & Hm & Hp1 & Hl1 & Ho1 & Hn1 & Hof1 & Hs1 & Hh1 & Hw1 & Hmd & Hk1 & Hnx & Hhd & Hbt);
    [done..|lia|lia|].
  destruct (Z.eqb_spec (length_ (Inflate.st r)) m) as [Em|Em].
  { exists r1. split; [by apply reaches_one|]. split_and!; try done; [|lia].
    rewrite Hp1, <-Em, En. done. }
  set (L := lz_bytes (Z.to_nat m) (offset (Inflate.st r)) (H ++ cur)) in *.
  assert (zlen L = m) as HL by (unfold L; rewrite Rfc1951.zlen_lz_bytes; lia).
  destruct (IH (Z.to_nat (length_ (Inflate.st r1)))) with (r := r1) (cur := cur ++ L)
    as (r' & Hk & Hmd' & Hp' & Hl' & Hkept & Hnx' & Hhd' & Hbt');
    rewrite ?zlen_app, ?Hof1, ?Hw1, ?Hs1; try done; try lia.
  { by apply Hh1. }
  { by rewrite Hp1, Hput, app_assoc. }
  exists r'. split; [by eapply reaches_step|]. split_and!; try congruence; [|lia|by transitivity r1].
  rewrite Hp', Hp1, Hof1, app_assoc, <-app_assoc. f_equal.
  replace n with (Z.to_nat m + Z.to_nat (length_ (Inflate.st r1)))%nat by lia.
  by rewrite lz_add.
Qed.

(** The MATCH state, run until it returns to LEN, writes exactly the LZ77
    copy of the history, in as many rounds as the pieces of the circular window
    require: the slow path and inflate_fast copy the same bytes. *)
Theorem match_rounds_correct flush r H pre cur :
  mode (Inflate.st r) = MATCH → holds (Inflate.st r) H →
  c_true (sane (Inflate.st r)) = true → Inflate.put r = pre ++ cur →
  Inflate.out r - Inflate.left_ r = zlen cur →
  1 ≤ offset (Inflate.st r) ≤ zlen cur + whave (Inflate.st r) →
  1 ≤ length_ (Inflate.st r) ≤ Inflate.left_ r →
  ∃ k r', steps k flush r = Some r' ∧ mode (Inflate.st r') = LEN ∧
    Inflate.put r' = Inflate.put r ++ lz_bytes (Z.to_nat (length_ (Inflate.st r)))
                       (offset (Inflate.st r)) (H ++ cur) ∧
    Inflate.left_ r' = Inflate.left_ r - length_ (Inflate.st r).
Proof.
  intros Hmode Hh Hsane Hput Hcur Ho Hl.
  destruct (match_rounds flush r H pre cur) as (r' & [k Hk] & ? & ? & ? & _); [done..|].
  by exists k, r'.
Qed.

Lemma match_rounds_witness : ∃ k r',
  steps k 0 (Inflate.Run example_state (Stream 0 (InBuf []) 0 false [] 200 0 None None true true 0 0)
    [] [8; 7] 198 0 0 0 200 0) = Some r' ∧ mode (Inflate.st r') = LEN ∧
  Inflate.put r' = [8; 7] ++ lz_bytes 120 150 (seqZ 0 256 ++ [8; 7]) ∧ Inflate.left_ r' = 78.
Proof.
  apply (match_rounds_correct 0 (Inflate.Run example_state
    (Stream 0 (InBuf []) 0 false [] 200 0 None None true true 0 0)
    [] [8; 7] 198 0 0 0 200 0) (seqZ 0 256) [] [8; 7]);
    [reflexivity|apply example_holds|reflexivity|reflexivity|reflexivity|vm_compute; split; discriminate..].
Defined.

End Window.
