(* ===== verification/InflateCodes.v ===== *)
(** * Literals and matches in inflate()

    The states LEN, LENEXT, DIST, DISTEXT, MATCH and LIT, run from LEN to LEN,
    do one step of the reference decoder. *)

From Stdlib Require Import String.
From S2P Require Import Prelude Inftrees InftreesDecode Inffixed Rfc1951 Symbols InflateState Inffast.
From S2P Require Import Inflate Runs BitReader Window.

Module InflateCodes.
Import InflateState Inflate Runs BitReader Window.

(** ** Looking codes up *)

(** The table a code pointer leads to. *)
Definition tab_of (s : inflate_state) (p : code_ptr) : list Inftrees.code * Z :=
  match p with
  | InCodes off => (codes s, off)
  | LenFix => (Inffixed.lenfix, 0)
  | DistFix => (Inffixed.distfix, 0)
  end.

Lemma code_at_tab s p i : Inffast.code_at s p i = (tab_of s p).1.[(tab_of s p).2 + i].
Proof. by destruct p. Qed.

(** The tables in use decode the codes [ll] and [ld]. *)
Definition len_serves (s : inflate_state) (ll : list Z) (nl : Z) : Prop :=
  Symbols.serves Inftrees.LENS ll nl (tab_of s (lencode s)).1 (tab_of s (lencode s)).2 (lenbits s).
Definition dist_serves (s : inflate_state) (ld : list Z) (nd : Z) : Prop :=
  Symbols.serves Inftrees.DISTS ld nd (tab_of s (distcode s)).1 (tab_of s (distcode s)).2 (distbits s).

Lemma mask_mod x n : 0 ≤ n → (x .& ((1 ≪ n) - 1)) = x mod 2 ^ n.
Proof. intros. rewrite Z.shiftl_1_l, Z.sub_1_r, <-Z.ones_equiv. by apply Z.land_ones. Qed.

(** The run with [back] advanced. *)
Definition backed (r : run) (k : Z) : run := r <| st := (st r) <| back := k |> |>.

Section Decode.
  Context (type : Inftrees.codetype) (lens : list Z) (n : Z) (tab : list Inftrees.code) (t0 root : Z).
  Context (Hs : Symbols.serves type lens n tab t0 root).
  Context (link : Inftrees.code → bool) (here : run → Inftrees.code) (p : inflate_state → code_ptr) (r : run).
  Hypothesis here_root : ∀ nx h b, here (fed r nx h b) = Symbols.root_entry tab t0 root h.
  Hypothesis sub_root : ∀ l nx h b, 0 ≤ Inftrees.bits l + Inftrees.op l →
    sub_code p l (fed r nx h b) = Symbols.sub_entry tab t0 l h.
  Hypothesis link_root : ∀ x, 0 ≤ x →
    link (Symbols.root_entry tab t0 root x) = InftreesDecode.is_link (Symbols.root_entry tab t0 root x).
  Hypothesis Hg : good r.

(** The whole code is read, dropped and its entry returned, or the input ends. *)
Lemma decode_view :
  let '(e, l) := Symbols.found_entry tab t0 root (Rfc1951.value (view r)) in
  if Rfc1951.avail (view r) <? l then ∃ nx h b, decode link here p r = (fed r nx h b, inr Leave) ∧ good (fed r nx h b)
  else ∃ k nx h b, let r' := fed (backed r k) nx h b in
    decode link here p r = (r', inl e) ∧ good r' ∧
    view r' = Rfc1951.dropped l (view r) ∧ (bits r ≤ 7 → b ≤ 7).
Proof.
  set (V := Rfc1951.value (view r)). pose proof (view_range r Hg) as HV. fold V in HV.
  pose proof (Symbols.serves_root _ _ _ _ _ _ Hs) as Hr.
  pose proof (Symbols.link_shape _ _ _ _ _ _ Hs V ltac:(lia)) as Hshape. cbv zeta in Hshape.
  unfold Symbols.found_entry. rewrite (Symbols.lookup_window tab t0 root). cbv zeta.
  rewrite <-(Symbols.root_entry_window _ _ _ _ _ _ Hs).
  set (e0 := Symbols.root_entry tab t0 root V) in *.
  assert (link e0 = InftreesDecode.is_link e0) as Elink by (apply link_root; lia).
  pose proof (good_bits r Hg) as Hb.
  destruct (get_code_reads 70 0 here r (Symbols.root_entry tab t0 root)) as
    (nx & h & b & E & Hg1 & Hv1 & Hmod & Hle & Hneed); try done.
  { fold V e0. destruct (InftreesDecode.is_link e0); lia. }
  { lia. }
  { lia. }
  { intros b Hbb. cbv zeta. rewrite !Z.add_0_l. apply (Symbols.root_stable _ _ _ _ _ _ Hs); lia. }
  fold V e0 in E, Hneed. rewrite Z.add_0_l in E, Hneed. unfold decode.
  destruct (InftreesDecode.is_link e0) eqn:El.
  - destruct Hshape as (_ & Hb0 & Hop & Hop15 & Hsb).
    assert (Symbols.sub_entry tab t0 e0 (V mod 2 ^ 15) = Symbols.sub_entry tab t0 e0 V) as ->.
    { unfold Symbols.sub_entry. by rewrite mod_mod_pow2 by lia. }
    set (e1 := Symbols.sub_entry tab t0 e0 V) in *. rewrite Hb0 in E, Hneed |- *.
    destruct (Z.ltb_spec (Rfc1951.avail (view r)) root) as [Hsh|Hok].
    { destruct (Z.ltb_spec (Rfc1951.avail (view r)) (root + Inftrees.bits e1)); [|lia].
      rewrite (bind_inr _ _ _ _ _ E). by exists nx, h, b. }
    specialize (Hneed Hok). rewrite (bind_inl _ _ _ _ _ E). cbv beta. rewrite Elink.
    destruct (get_code_reads 70 root (sub_code p e0) (fed r nx h b) (Symbols.sub_entry tab t0 e0)) as
      (nx2 & h2 & b2 & E2 & Hg2 & Hv2 & Hmod2 & Hle2 & Hneed2); try done.
    { intros. rewrite fed_fed. apply sub_root. lia. }
    { rewrite Hv1. fold V e1. lia. }
    { cbn. lia. }
    { lia. }
    { rewrite Hv1. intros b' Hbb. cbv zeta. apply (Symbols.sub_stable _ _ _ _ _ _ Hs); try done; [lia|cbn in Hbb; lia]. }
    rewrite fed_fed in *. rewrite Hv1 in E2, Hv2, Hneed2. fold V e1 in E2, Hneed2. cbn in Hneed2.
    destruct (Z.ltb_spec (Rfc1951.avail (view r)) (root + Inftrees.bits e1)) as [Hsh|Hok2].
    { exists nx2, h2, b2. split; [|done]. unfold mbind, M_bind. rewrite Hb0, E2. done. }
    specialize (Hneed2 Hok2).
    destruct (DROPBITS_view _ Hg2 root) as (D1 & Hg3 & Hv3); [cbn; lia|]. cbn in D1.
    set (r3 := fed r nx2 (h2 ≫ root) (b2 - root)) in *.
    set (k3 := back (st r) + root).
    set (r3' := backed r3 k3).
    assert (good r3') as Hg3' by (destruct Hg3; by split).
    destruct (DROPBITS_view r3' Hg3' (Inftrees.bits e1)) as (D2 & Hg4 & Hv4); [cbn; lia|].
    exists (k3 + Inftrees.bits e1), nx2, ((h2 ≫ root) ≫ Inftrees.bits e1), (b2 - root - Inftrees.bits e1).
    cbv zeta. split; [|split; [|split]].
    + assert ((h ← get_code 70 (Inftrees.bits e0) (sub_code p e0); DROPBITS (Inftrees.bits e0);;
        add_back (Inftrees.bits e0);; mret h) (fed r nx h b) = (r3', inl e1)) as Ein.
      { rewrite Hb0, (bind_inl _ _ _ _ _ E2). cbv beta. rewrite (bind_inl _ _ _ _ _ D1). done. }
      rewrite (bind_inl _ _ _ _ _ Ein). cbv beta. rewrite (bind_inl _ _ _ _ _ D2). done.
    + destruct Hg4. by split.
    + change (view (fed (backed r (k3 + Inftrees.bits e1)) nx2 ((h2 ≫ root) ≫ Inftrees.bits e1) (b2 - root - Inftrees.bits e1)))
        with (view (fed r3' (nxt r3') (hold r3' ≫ Inftrees.bits e1) (bits r3' - Inftrees.bits e1))).
      assert (view r3' = Rfc1951.dropped root (view r)) as Hv3' by (rewrite <-Hv2; exact Hv3).
      rewrite Hv4, Hv3'. apply Rfc1951.dropped_dropped; lia.
    + lia.
  - destruct (Z.ltb_spec (Rfc1951.avail (view r)) (Inftrees.bits e0)) as [Hsh|Hok].
    { rewrite (bind_inr _ _ _ _ _ E). by exists nx, h, b. }
    specialize (Hneed Hok). rewrite (bind_inl _ _ _ _ _ E). cbv beta. rewrite Elink.
    destruct (DROPBITS_view _ Hg1 (Inftrees.bits e0)) as (D1 & Hg3 & Hv3); [cbn; lia|]. cbn in D1.
    exists (back (st r) + Inftrees.bits e0), nx, (h ≫ Inftrees.bits e0), (b - Inftrees.bits e0).
    cbv zeta. split; [|split; [|split]].
    + unfold mbind, M_bind, mret, M_ret. rewrite D1. done.
    + destruct Hg3. by split.
    + rewrite <-Hv1. exact Hv3.
    + lia.
Qed.

End Decode.

(** ** What the entries say *)

Lemma extra_op k : 0 ≤ k ≤ 15 →
  ((16 + k) .& 15) = k ∧ c_true ((16 + k) .& 16) = true ∧ c_true ((16 + k) .& 32) = false ∧
  c_true ((16 + k) .& 64) = false ∧ ((16 + k) =? 0) = false.
Proof.
  intros Hk. assert (forall_range (λ k, (((16 + k) .& 15) =? k) && c_true ((16 + k) .& 16)
    && negb (c_true ((16 + k) .& 32)) && negb (c_true ((16 + k) .& 64)) && negb ((16 + k) =? 0)) 0 16 = true) as H
    by (vm_compute; reflexivity).
  apply (forall_range_spec _ _ _ k) in H; [|lia]. cbv beta in H.
  rewrite !andb_true_iff, !negb_true_iff, Z.eqb_eq in H. tauto.
Qed.

(** An entry both decoding loops report as invalid. *)
Definition invalid (e : Inftrees.code) : Prop :=
  let op := Inftrees.op e in
  (op =? 0) = false ∧ c_true (op .& 16) = false ∧ c_true (op .& 32) = false ∧ c_true (op .& 64) = true.

Lemma len_entry y nb e : 0 ≤ y < 288 → Symbols.entry_for Inftrees.LENS y nb e →
  (y < 256 ∧ e = Inftrees.Code 0 nb y) ∨ (y = 256 ∧ e = Inftrees.Code 96 nb 0) ∨
  (257 ≤ y ≤ 285 ∧ e = Inftrees.Code (16 + Rfc1951.len_extra y) nb (Rfc1951.len_base y)) ∨
  (286 ≤ y ∧ invalid e).
Proof.
  intros Hy [->|(_ & Hge & ->)]; [|by right; right; right]. simpl.
  destruct (Z.ltb_spec y 256); [by left|]. destruct (Z.eqb_spec y 256); [by right; left|].
  right. right. destruct (decide (y ≤ 285)); [left|right; split; [lia|]].
  - assert (forall_range (λ y, (Inftrees.lext.[y - 257] =? 16 + Rfc1951.len_extra y)
      && (Inftrees.lbase.[y - 257] =? Rfc1951.len_base y)) 257 29 = true) as Hc by (vm_compute; reflexivity).
    apply (forall_range_spec _ _ _ y) in Hc; [|lia]. cbv beta in Hc.
    rewrite andb_true_iff, !Z.eqb_eq in Hc. destruct Hc as [-> ->]. split; [lia|done].
  - assert (y = 286 ∨ y = 287) as [->| ->] by lia; done.
Qed.

Lemma dist_entry d nb e : 0 ≤ d < 32 → Symbols.entry_for Inftrees.DISTS d nb e →
  (d ≤ 29 ∧ e = Inftrees.Code (16 + Rfc1951.dist_extra d) nb (Rfc1951.dist_base d)) ∨
  (30 ≤ d ∧ invalid e).
Proof.
  intros Hd [->|(? & _)]; [|done]. simpl. destruct (decide (d ≤ 29)); [left|right; split; [lia|]].
  - assert (forall_range (λ d, (Inftrees.dext.[d] =? 16 + Rfc1951.dist_extra d)
      && (Inftrees.dbase.[d] =? Rfc1951.dist_base d)) 0 30 = true) as Hc by (vm_compute; reflexivity).
    apply (forall_range_spec _ _ _ d) in Hc; [|lia]. cbv beta in Hc.
    rewrite andb_true_iff, !Z.eqb_eq in Hc. destruct Hc as [-> ->]. split; [lia|done].
  - assert (d = 30 ∨ d = 31) as [->| ->] by lia; done.
Qed.

(** ** The tables of a state *)

Section Tables.
  Context (s : inflate_state) (lens : list Z) (n : Z).

Lemma len_code_root r nx h b : st r = s → len_serves s lens n →
  len_code (fed r nx h b)
  = Symbols.root_entry (tab_of s (lencode s)).1 (tab_of s (lencode s)).2 (lenbits s) h.
Proof.
  intros <- Hs. destruct (Symbols.serves_root _ _ _ _ _ _ Hs). unfold len_code.
  rewrite code_at_tab. cbn. by rewrite mask_mod by lia.
Qed.

Lemma dist_code_root r nx h b : st r = s → dist_serves s lens n →
  dist_code (fed r nx h b)
  = Symbols.root_entry (tab_of s (distcode s)).1 (tab_of s (distcode s)).2 (distbits s) h.
Proof.
  intros <- Hs. destruct (Symbols.serves_root _ _ _ _ _ _ Hs). unfold dist_code.
  rewrite code_at_tab. cbn. by rewrite mask_mod by lia.
Qed.

Lemma sub_code_entry p r l nx h b : st r = s → 0 ≤ Inftrees.bits l + Inftrees.op l →
  sub_code p l (fed r nx h b) = Symbols.sub_entry (tab_of s (p s)).1 (tab_of s (p s)).2 l h.
Proof.
  intros <- Hl. unfold sub_code. rewrite code_at_tab. cbn. rewrite mask_mod by lia.
  unfold Symbols.sub_entry. f_equal. lia.
Qed.

(** In a distance table a zero high nibble tells a link. *)
Lemma dist_link_root x : 0 ≤ x → dist_serves s lens n →
  let e := Symbols.root_entry (tab_of s (distcode s)).1 (tab_of s (distcode s)).2 (distbits s) x in
  dist_link e = InftreesDecode.is_link e.
Proof.
  intros Hx Hs e. destruct (InftreesDecode.is_link e) eqn:El.
  { unfold InftreesDecode.is_link in El. apply andb_true_iff in El as [_ El]. done. }
  pose proof (Symbols.found_symbol _ _ _ _ _ _ Hs (Rfc1951.Bits x 15) Hx ltac:(simpl; lia)) as Hf.
  unfold Symbols.found_entry in Hf. rewrite Symbols.lookup_window in Hf. cbv zeta in Hf.
  rewrite <-(Symbols.root_entry_window _ _ _ _ _ _ Hs) in Hf. cbn [Rfc1951.value] in Hf. fold e in Hf.
  rewrite El in Hf. destruct Hf as [_ [(y & nb & Hy & He & _)|[He _]]].
  - pose proof (Symbols.serves_symbols _ _ _ _ _ _ Hs) as Hn. simpl in Hn.
    assert (∀ k, 0 ≤ k ≤ 15 → (((16 + k) .& 0xf0) =? 0) = false) as Hk.
    { intros k Hk. assert (forall_range (λ k, negb (((16 + k) .& 0xf0) =? 0)) 0 16 = true) as H by done.
      apply (forall_range_spec _ _ _ k) in H; [|lia]. by apply negb_true_iff in H. }
    destruct (dist_entry y nb e ltac:(lia) He) as [[? ->]|[? _]].
    + unfold dist_link. cbn [Inftrees.op]. apply Hk. pose proof (Rfc1951.dist_values y). lia.
    + destruct He as [->|[? _]]; [|done]. assert (y = 30 ∨ y = 31) as [->| ->] by lia; done.
  - rewrite He. done.
Qed.

End Tables.

(** ** One state at a time *)

(** The window and the tables a block is decoded with: the window holds the
    history [H], the tables the codes [ll] and [ld]. *)
Record tables (s : inflate_state) (H ll : list Z) (nl : Z) (ld : list Z) (nd : Z) : Prop := {
  tab_holds : holds s H;
  tab_have : whave s = zlen H;
  tab_sane : c_true (sane s) = true;
  tab_len : len_serves s ll nl;
  tab_dist : dist_serves s ld nd
}.

Lemma tables_core s s' H ll nl ld nd : core s' = core s → tables s H ll nl ld nd → tables s' H ll nl ld nd.
Proof.
  intros E [Hh Hw Hs Hl Hd]. destruct s, s'. injection E. intros. subst. split; [|done..].
  by eapply holds_ext; [..|exact Hh].
Qed.

(** A round that writes nothing. *)
Record quiet (r r' : run) : Prop := {
  quiet_kept : kept r r';
  quiet_put : put r' = put r;
  quiet_left : left_ r' = left_ r
}.
#[global] Instance quiet_preorder : PreOrder quiet.
Proof. split; [done|]. intros r1 r2 r3 [] []. split; [by etransitivity|congruence..]. Qed.

(** The run moved to a state of the decoder: its input and buffer. *)
Record moved (r r' : run) (s : Rfc1951.bitstream) : Prop := {
  moved_quiet : quiet r r';
  moved_good : good r';
  moved_view : view r' = s;
  moved_bits : bits r ≤ 7 → bits r' ≤ 7
}.

Ltac at_mode Hm := unfold step; rewrite bind_gets; cbv beta; rewrite Hm.

Definition slow (r : run) : bool := negb ((6 <=? zlen (nxt r)) && (258 <=? left_ r)).

Section States.
  Context (flush : Z) (r : run).
  Hypothesis Hg : good r.

Lemma len_state ll nl : mode (st r) = LEN → slow r = true → len_serves (st r) ll nl →
  match Rfc1951.symbol ll nl (view r) with
  | Rfc1951.Short => ∃ r', step flush r = (r', inr Leave) ∧ quiet r r' ∧ mode (st r') = LEN
  | Rfc1951.Bad => ∃ r', step flush r = (r', inl ()) ∧ quiet r r' ∧ mode (st r') = BAD
  | Rfc1951.Ok y s => 0 ≤ y < 288 ∧ ∃ r', step flush r = (r', inl ()) ∧ moved r r' s ∧
      if y <? 256 then mode (st r') = LIT ∧ length_ (st r') = y
      else if y =? 256 then mode (st r') = TYPE
      else if 285 <? y then mode (st r') = BAD
      else mode (st r') = LENEXT ∧ length_ (st r') = Rfc1951.len_base y ∧ extra (st r') = Rfc1951.len_extra y
  end.
Proof.
  intros Hm Hslow Hs. at_mode Hm. unfold do_LEN. rewrite !bind_gets. unfold slow in Hslow.
  apply negb_true_iff in Hslow. rewrite Hslow. cbv iota. rewrite bind_upd.
  set (r0 := r <| st := (st r) <| back := 0 |> |>).
  assert (good r0) as Hg0 by (destruct Hg; by split).
  pose proof (decode_view _ _ _ _ _ _ Hs len_link len_code lencode r0
    (λ nx h b, len_code_root (st r0) ll nl r0 nx h b eq_refl Hs)
    (λ l nx h b, sub_code_entry (st r0) lencode r0 l nx h b eq_refl) (λ _ _, eq_refl) Hg0) as Hd.
  pose proof (view_range r Hg) as HV. pose proof (Z.pow_pos_nonneg 2 (Rfc1951.avail (view r))).
  pose proof (Symbols.found_symbol _ _ _ _ _ _ Hs (view r) ltac:(lia)
    ltac:(pose proof (view_avail r); destruct Hg; lia)) as Hf.
  change (view r0) with (view r) in Hd.
  destruct (Symbols.found_entry _ _ _ (Rfc1951.value (view r))) as [e l].
  pose proof (Symbols.serves_symbols _ _ _ _ _ _ Hs) as Hn. simpl in Hn.
  destruct Hf as (Hl & [(y & nb & Hy & He & ->)|[He ->]]);
    destruct (Z.ltb_spec (Rfc1951.avail (view r)) l) as [Hsh|Hok]; cbv iota in Hd |- *.
  - destruct Hd as (nx & h & b & E & _). rewrite (bind_inr _ _ _ _ _ E).
    eexists. split; [done|]. split; [split; [split|..]; done|done].
  - destruct Hd as (k & nx & h & b & E & Hg' & Hv' & Hb'). rewrite (bind_inl _ _ _ _ _ E). cbv beta.
    rewrite bind_upd. split; [lia|].
    destruct (len_entry y nb e ltac:(lia) He) as [[Hy1 ->]|[[-> ->]|[[Hy1 ->]|[Hy1 (I0 & I16 & I32 & I64)]]]].
    + destruct (Z.ltb_spec y 256); [|lia]. eexists. split; [done|]. split; [|done].
      split; [split; [split|..]; done|by destruct Hg'; split|done|done].
    + eexists. split; [done|]. split; [|done].
      split; [split; [split|..]; done|by destruct Hg'; split|done|done].
    + destruct (Z.ltb_spec y 256), (Z.eqb_spec y 256), (Z.ltb_spec 285 y); try lia.
      destruct (Rfc1951.len_values y Hy1) as (Hex & _ & _).
      destruct (extra_op (Rfc1951.len_extra y) ltac:(lia)) as (E15 & E16 & E32 & E64 & E0).
      cbn [Inftrees.op]. rewrite E0, E32, E64, E15. eexists. split; [done|]. split; [|done].
      split; [split; [split|..]; done|by destruct Hg'; split|done|done].
    + destruct (Z.ltb_spec y 256), (Z.eqb_spec y 256), (Z.ltb_spec 285 y); try lia.
      cbv zeta. rewrite I0, I32, I64. eexists. split; [done|]. split; [|done].
      split; [split; [split|..]; done|by destruct Hg'; split|done|done].
  - destruct Hd as (nx & h & b & E & _). rewrite (bind_inr _ _ _ _ _ E).
    eexists. split; [done|]. split; [split; [split|..]; done|done].
  - destruct Hd as (k & nx & h & b & E & Hg' & Hv' & Hb'). rewrite (bind_inl _ _ _ _ _ E). cbv beta.
    rewrite bind_upd, He. eexists. split; [done|]. split; [split; [split|..]; done|done].
Qed.

Lemma lit_state : mode (st r) = LIT → 1 ≤ left_ r → 0 ≤ length_ (st r) < 256 →
  ∃ r', step flush r = (r', inl ()) ∧ kept r r' ∧ put r' = put r ++ [length_ (st r)] ∧
    left_ r' = left_ r - 1 ∧ mode (st r') = LEN ∧ good r' ∧ view r' = view r ∧ bits r' = bits r.
Proof.
  intros Hm Hl Hy. at_mode Hm. unfold do_LIT. rewrite bind_gets.
  destruct (Z.eqb_spec (left_ r) 0); [lia|]. eexists. split; [done|]. cbn.
  rewrite wrap_small by (unfold ubits; lia).
  split_and!; try done. by destruct Hg; split.
Qed.

(** The extra bits of a length or distance. *)
Lemma extra_state (add : Z → inflate_state → inflate_state) : 0 ≤ extra (st r) ≤ 15 →
  (∀ b s, extra (add b s) = extra s) → (∀ b s, core (add b s) = core s) →
  match Rfc1951.get (extra (st r)) (view r) with
  | Rfc1951.Short => ∃ nx h b, read_extra add r = (fed r nx h b, inr Leave)
  | Rfc1951.Bad => False
  | Rfc1951.Ok x s => ∃ r', read_extra add r = (r', inl ()) ∧ moved r r' s ∧
      ∃ k, st r' = (if decide (extra (st r) = 0) then st r else (add x (st r)) <| back := k |>) ∧
        (extra (st r) = 0 → x = 0)
  end.
Proof.
  intros He Hadd Hcore. unfold Rfc1951.get, read_extra. rewrite bind_gets. unfold when, c_true.
  pose proof (view_avail r). destruct (good_bits r Hg).
  destruct (Z.eqb_spec (extra (st r)) 0) as [E0|E0]; cbn [negb].
  { rewrite E0. destruct (Z.ltb_spec (Rfc1951.avail (view r)) 0); [lia|].
    exists r. split; [done|]. split; [split; [done|done| |done]|exists 0; split; [done|]].
    - unfold Rfc1951.dropped. rewrite Z.div_1_r, Z.sub_0_r. by destruct (view r).
    - intros _. apply Z.mod_1_r. }
  destruct (NEEDBITS_reads (extra (st r)) r Hg) as (nx & h & b & E & Hg' & Hv' & _ & _ & Hb'); [lia|lia|].
  destruct (Z.ltb_spec (Rfc1951.avail (view r)) (extra (st r))).
  { exists nx, h, b. by rewrite (bind_inr _ _ _ _ _ E). }
  rewrite (bind_inl _ _ _ _ _ E). cbv beta.
  rewrite (bind_inl _ _ _ _ _ (BITS_view _ Hg' (extra (st r)) ltac:(cbn; lia))). cbv beta.
  rewrite bind_upd, Hv'. set (x := Rfc1951.value (view r) mod 2 ^ extra (st r)).
  set (r1 := (fed r nx h b) <| st := add x (st (fed r nx h b)) |>).
  assert (good r1) as Hg1 by (destruct Hg'; by split).
  destruct (DROPBITS_view r1 Hg1 (extra (st r))) as (D & Hg2 & Hv2); [cbn; lia|].
  rewrite (bind_inl _ _ _ _ _ D). eexists. split; [done|]. split.
  - split.
    + split; [split; try done|done..]. cbn. pose proof (Hcore x (st r)) as Hc. exact Hc.
    + destruct Hg2. by split.
    + rewrite <-Hv'. exact Hv2.
    + cbn. lia.
  - eexists. rewrite decide_False by done. split; [done|]. done.
Qed.

Lemma lenext_state : mode (st r) = LENEXT → 0 ≤ extra (st r) ≤ 15 →
  match Rfc1951.get (extra (st r)) (view r) with
  | Rfc1951.Short => ∃ r', step flush r = (r', inr Leave) ∧ quiet r r' ∧ mode (st r') = LENEXT
  | Rfc1951.Bad => False
  | Rfc1951.Ok x s => ∃ r', step flush r = (r', inl ()) ∧ moved r r' s ∧
      mode (st r') = DIST ∧ length_ (st r') = length_ (st r) + x
  end.
Proof.
  intros Hm He. at_mode Hm. unfold do_LENEXT.
  match goal with |- context [read_extra ?a] =>
    pose proof (extra_state a He (λ _ _, eq_refl) (λ _ _, eq_refl)) as Hx end.
  destruct (Rfc1951.get (extra (st r)) (view r)) as [x s| |]; [|..|done].
  - destruct Hx as (r' & E & [[[] ] Hg' Hv' Hb'] & k & Hst & H0). rewrite (bind_inl _ _ _ _ _ E), bind_upd.
    eexists. split; [done|]. cbn. rewrite Hst. case_decide as E0.
    + rewrite (H0 E0). split; [|split; [done|lia]].
      split; [split; [split|..]; try done; cbn; by rewrite Hst|by destruct Hg'; split|done|done].
    + split; [|done].
      split; [split; [split|..]; try done; cbn; by rewrite Hst|by destruct Hg'; split|done|done].
  - destruct Hx as (nx & h & b & E). rewrite (bind_inr _ _ _ _ _ E).
    eexists. split; [done|]. split; [|done]. split; [split|..]; done.
Qed.

Lemma distext_state : mode (st r) = DISTEXT → 0 ≤ extra (st r) ≤ 15 →
  match Rfc1951.get (extra (st r)) (view r) with
  | Rfc1951.Short => ∃ r', step flush r = (r', inr Leave) ∧ quiet r r' ∧ mode (st r') = DISTEXT
  | Rfc1951.Bad => False
  | Rfc1951.Ok x s => ∃ r', step flush r = (r', inl ()) ∧ moved r r' s ∧
      mode (st r') = MATCH ∧ length_ (st r') = length_ (st r) ∧ offset (st r') = offset (st r) + x
  end.
Proof.
  intros Hm He. at_mode Hm. unfold do_DISTEXT.
  match goal with |- context [read_extra ?a] =>
    pose proof (extra_state a He (λ _ _, eq_refl) (λ _ _, eq_refl)) as Hx end.
  destruct (Rfc1951.get (extra (st r)) (view r)) as [x s| |]; [|..|done].
  - destruct Hx as (r' & E & [[[] ] Hg' Hv' Hb'] & k & Hst & H0). rewrite (bind_inl _ _ _ _ _ E).
    eexists. split; [done|]. cbn. rewrite Hst. case_decide as E0.
    + rewrite (H0 E0). split; [|split_and!; [done|done|lia]].
      split; [split; [split|..]; try done; cbn; by rewrite Hst|by destruct Hg'; split|done|done].
    + split; [|done].
      split; [split; [split|..]; try done; cbn; by rewrite Hst|by destruct Hg'; split|done|done].
  - destruct Hx as (nx & h & b & E). rewrite (bind_inr _ _ _ _ _ E).
    eexists. split; [done|]. split; [|done]. split; [split|..]; done.
Qed.

Lemma dist_state ld nd : mode (st r) = DIST → dist_serves (st r) ld nd →
  match Rfc1951.symbol ld nd (view r) with
  | Rfc1951.Short => ∃ r', step flush r = (r', inr Leave) ∧ quiet r r' ∧ mode (st r') = DIST
  | Rfc1951.Bad => ∃ r', step flush r = (r', inl ()) ∧ quiet r r' ∧ mode (st r') = BAD
  | Rfc1951.Ok d s => 0 ≤ d < 32 ∧ ∃ r', step flush r = (r', inl ()) ∧ moved r r' s ∧
      length_ (st r') = length_ (st r) ∧
      if 29 <? d then mode (st r') = BAD
      else mode (st r') = DISTEXT ∧ offset (st r') = Rfc1951.dist_base d ∧ extra (st r') = Rfc1951.dist_extra d
  end.
Proof.
  intros Hm Hs. at_mode Hm. unfold do_DIST.
  pose proof (view_range r Hg) as HV.
  pose proof (decode_view _ _ _ _ _ _ Hs dist_link dist_code distcode r
    (λ nx h b, dist_code_root (st r) ld nd r nx h b eq_refl Hs)
    (λ l nx h b, sub_code_entry (st r) distcode r l nx h b eq_refl)
    (λ x Hx, dist_link_root (st r) ld nd x Hx Hs) Hg) as Hd.
  pose proof (Symbols.found_symbol _ _ _ _ _ _ Hs (view r) ltac:(lia)
    ltac:(pose proof (view_avail r); destruct Hg; lia)) as Hf.
  destruct (Symbols.found_entry _ _ _ (Rfc1951.value (view r))) as [e l].
  pose proof (Symbols.serves_symbols _ _ _ _ _ _ Hs) as Hn. simpl in Hn.
  destruct Hf as (Hl & [(y & nb & Hy & He & ->)|[He ->]]);
    destruct (Z.ltb_spec (Rfc1951.avail (view r)) l) as [Hsh|Hok]; cbv iota in Hd |- *.
  - destruct Hd as (nx & h & b & E & _). rewrite (bind_inr _ _ _ _ _ E).
    eexists. split; [done|]. split; [split; [split|..]; done|done].
  - destruct Hd as (k & nx & h & b & E & Hg' & Hv' & Hb'). rewrite (bind_inl _ _ _ _ _ E). cbv beta.
    split; [lia|].
    destruct (dist_entry y nb e ltac:(lia) He) as [[Hy1 ->]|[Hy1 (I0 & I16 & I32 & I64)]].
    + destruct (Z.ltb_spec 29 y); [lia|]. destruct (Rfc1951.dist_values y) as (Hex & _); [lia|].
      destruct (extra_op (Rfc1951.dist_extra y) ltac:(lia)) as (E15 & E16 & E32 & E64 & E0).
      cbn [Inftrees.op]. rewrite E64, E15. eexists. split; [done|]. split; [|done].
      split; [split; [split|..]; done|by destruct Hg'; split|done|done].
    + destruct (Z.ltb_spec 29 y); [|lia]. rewrite I64. eexists. split; [done|]. split; [|done].
      split; [split; [split|..]; done|by destruct Hg'; split|done|done].
  - destruct Hd as (nx & h & b & E & _). rewrite (bind_inr _ _ _ _ _ E).
    eexists. split; [done|]. split; [split; [split|..]; done|done].
  - destruct Hd as (k & nx & h & b & E & Hg' & Hv' & Hb'). rewrite (bind_inl _ _ _ _ _ E). cbv beta.
    rewrite He. eexists. split; [done|]. split; [split; [split|..]; done|done].
Qed.

Lemma match_far H (cur : list Z) : mode (st r) = MATCH → holds (st r) H → c_true (sane (st r)) = true →
  out r - left_ r = zlen cur → zlen cur + whave (st r) < offset (st r) → 1 ≤ left_ r →
  ∃ r', step flush r = (r', inl ()) ∧ quiet r r' ∧ mode (st r') = BAD.
Proof.
  intros Hm Hh Hsane Hcur Hfar Hl. at_mode Hm. unfold do_MATCH. rewrite bind_gets. cbn [id].
  destruct (Z.eqb_spec (left_ r) 0); [lia|]. destruct (holds_have _ _ Hh) as [Hw _].
  unfold match_source. rewrite Hcur, Hsane, andb_true_r.
  destruct (Z.ltb_spec (zlen cur) (offset (st r))); [|lia].
  destruct (Z.ltb_spec (whave (st r)) (offset (st r) - zlen cur)); [|lia].
  eexists. split; [done|]. split; [split; [split|..]; done|done].
Qed.

End States.

(** ** One code *)

(** The run is at a code: [cur] was written since the call began, after the
    output [pre] of earlier calls. *)
Record coding (r : run) (H pre cur ll : list Z) (nl : Z) (ld : list Z) (nd : Z) : Prop := {
  cod_mode : mode (st r) = LEN;
  cod_good : good r;
  cod_bits : bits r ≤ 7;
  cod_tables : tables (st r) H ll nl ld nd;
  cod_put : put r = pre ++ cur;
  cod_out : out r - left_ r = zlen cur;
  cod_left : 0 ≤ left_ r
}.

(** What one code leads to, by what the reference decoder does. *)
Definition does_code (flush : Z) (r : run) (x : Rfc1951.result (option (list Z))) : Prop :=
  match x with
  | Rfc1951.Short => ∃ r', leaves flush r r' Leave ∧ quiet r r' ∧ mode_val (mode (st r')) < mode_val CHECK
  | Rfc1951.Bad => 1 ≤ left_ r → ∃ r', reaches flush r r' ∧ quiet r r' ∧ mode (st r') = BAD
  | Rfc1951.Ok None s => ∃ r', reaches flush r r' ∧ moved r r' s ∧ mode (st r') = TYPE
  | Rfc1951.Ok (Some b) s => zlen b ≤ left_ r → ∃ r', reaches flush r r' ∧ kept r r' ∧
      put r' = put r ++ b ∧ left_ r' = left_ r - zlen b ∧ good r' ∧ view r' = s ∧ bits r' ≤ 7 ∧
      mode (st r') = LEN
  end.

Lemma does_code_reaches flush r r' x : reaches flush r r' → quiet r r' → (bits r ≤ 7 → bits r' ≤ 7) →
  does_code flush r' x → does_code flush r x.
Proof.
  intros Hr Hq Hb. destruct x as [[b|] s| |]; simpl.
  - destruct Hq as [Hk Hp Hl]. rewrite Hl, Hp. intros H Hroom.
    destruct (H Hroom) as (r2 & ? & ? & ? & ? & ? & ? & ? & ?).
    exists r2. split_and!; try done; [by eapply reaches_trans|by etransitivity].
  - intros (r2 & ? & [] & ?). exists r2. split; [by eapply reaches_trans|]. split; [|done].
    split; [by etransitivity|done|done|auto].
  - intros (r2 & ? & ? & ?). exists r2. split_and!; [by eapply leaves_trans|by etransitivity|done].
  - rewrite (quiet_left _ _ Hq). intros H Hroom. destruct (H Hroom) as (r2 & ? & ? & ?).
    exists r2. split_and!; [by eapply reaches_trans|by etransitivity|done].
Qed.

(** A whole match, from the state DIST on. *)
Lemma match_code flush r H pre cur ll nl ld nd : mode (st r) = DIST → good r → bits r ≤ 7 →
  tables (st r) H ll nl ld nd → put r = pre ++ cur → out r - left_ r = zlen cur →
  1 ≤ length_ (st r) →
  does_code flush r ((d ← Rfc1951.symbol ld nd;
    if 29 <? d then Rfc1951.bad
    else
      e ← Rfc1951.get (Rfc1951.dist_extra d);
      let dist := Rfc1951.dist_base d + e in
      if zlen (H ++ cur) <? dist then Rfc1951.bad
      else mret (Some (lz_bytes (Z.to_nat (length_ (st r))) dist (H ++ cur)))) (view r)).
Proof.
  intros Hm Hg Hb Ht Hput Hout Hlen. destruct Ht as [Hh Hw Hsane Hl Hd]. pose proof Hd as Hd0.
  pose proof (dist_state flush r Hg ld nd Hm Hd) as Hs. unfold mbind, Rfc1951.P_bind.
  destruct (Rfc1951.symbol ld nd (view r)) as [d s| |].
  - destruct Hs as (Hdr & r1 & E1 & [Hq1 Hg1 Hv1 Hb1] & Hlen1 & Hcase).
    destruct (Z.ltb_spec 29 d) as [Hbad|Hok].
    { intros _. exists r1. split_and!; [by apply reaches_one|done..]. }
    destruct Hcase as (Hm1 & Ho1 & He1). destruct (Rfc1951.dist_values d ltac:(lia)) as [Hex Hbase].
    apply (does_code_reaches flush r r1); [by apply reaches_one|done|done|].
    pose proof (distext_state flush r1 Hg1 Hm1 ltac:(lia)) as Hs2. rewrite He1, Hv1 in Hs2.
    unfold mbind, Rfc1951.P_bind.
    destruct (Rfc1951.get (Rfc1951.dist_extra d) s) as [x s2| |] eqn:Eget; [| |done].
    + destruct Hs2 as (r2 & E2 & [Hq2 Hg2 Hv2 Hb2] & Hm2 & Hlen2 & Ho2).
      assert (0 ≤ x) as Hx.
      { unfold Rfc1951.get in Eget. case_match; [done|]. injection Eget as <- _.
        apply Z.mod_pos_bound. lia. }
      apply (does_code_reaches flush r1 r2); [by apply reaches_one|done|done|].
      assert (quiet r r2) as [Hk12 Hp12 Hl12] by (by etransitivity).
      assert (holds (st r2) H ∧ whave (st r2) = zlen H ∧ c_true (sane (st r2)) = true) as (Hh2 & Hw2 & Hsane2).
      { destruct (tables_core (st r) (st r2) H ll nl ld nd) as [? ? ? _ _]; [apply Hk12|by split|done]. }
      assert (out r2 - left_ r2 = zlen cur) as Hout2 by (rewrite (kept_out _ _ Hk12); lia).
      rewrite Hlen1 in Hlen2. rewrite Ho1 in Ho2. rewrite zlen_app.
      destruct (Z.ltb_spec (zlen H + zlen cur) (Rfc1951.dist_base d + x)) as [Hfar|Hnear]; simpl.
      * intros Hroom. destruct (match_far flush r2 H cur) as (r3 & E3 & ? & ?); [done..|lia|done|].
        exists r3. split_and!; [by apply reaches_one|done|done].
      * intros Hroom. rewrite Rfc1951.zlen_lz_bytes in *.
        destruct (match_rounds flush r2 H pre cur) as (r3 & Hr3 & Hm3 & Hp3 & Hl3 & Hk3 & Hn3 & Hh3 & Hb3);
          [done..|congruence|done|lia|lia|].
        exists r3. split_and!; try done.
        -- by rewrite Hp3, Ho2, Hlen2.
        -- lia.
        -- destruct Hg2. split; congruence.
        -- rewrite <-Hv2. unfold view. by rewrite Hn3, Hh3, Hb3.
        -- rewrite Hb3. auto.
    + destruct Hs2 as (r2 & E2 & Hq2 & Hm2). exists r2. rewrite Hm2.
      split_and!; [by apply leaves_now|done|done].
  - destruct Hs as (r1 & E1 & Hq1 & Hm1). exists r1. rewrite Hm1. split_and!; [by apply leaves_now|done|done].
  - destruct Hs as (r1 & E1 & Hq1 & Hm1). intros _. exists r1. split_and!; [by apply reaches_one|done|done].
Qed.

Lemma slow_code flush r H pre cur ll nl ld nd : coding r H pre cur ll nl ld nd → slow r = true →
  does_code flush r (Rfc1951.code_step ll nl ld nd (H ++ cur) (view r)).
Proof.
  intros [Hm Hg Hb Ht Hput Hout Hleft] Hslow. pose proof (tab_len _ _ _ _ _ _ Ht) as Hl.
  pose proof (len_state flush r Hg ll nl Hm Hslow Hl) as Hs.
  unfold Rfc1951.code_step. unfold mbind at 1, Rfc1951.P_bind at 1.
  destruct (Rfc1951.symbol ll nl (view r)) as [y s| |].
  - destruct Hs as (Hy & r1 & E1 & Hmv & Hcase). pose proof Hmv as [Hq1 Hg1 Hv1 Hb1].
    destruct (Z.ltb_spec y 256).
    { destruct Hcase as [Hm1 Hl1]. change (zlen [y]) with 1. intros Hroom.
      destruct (lit_state flush r1 Hg1 Hm1) as (r2 & E2 & Hk2 & Hp2 & Hl2 & Hm2 & Hg2 & Hv2 & Hb2);
        [rewrite (quiet_left _ _ Hq1); done|lia|].
      exists r2. split_and!; try done.
      - eapply reaches_step; [done|by apply reaches_one].
      - etransitivity; [apply Hq1|done].
      - by rewrite Hp2, Hl1, (quiet_put _ _ Hq1).
      - by rewrite Hl2, (quiet_left _ _ Hq1).
      - by rewrite Hv2.
      - rewrite Hb2. auto. }
    destruct (Z.eqb_spec y 256); [exists r1; split_and!; [by apply reaches_one|done..]|].
    destruct (Z.ltb_spec 285 y).
    { intros _. exists r1. split_and!; [by apply reaches_one|done..]. }
    destruct Hcase as (Hm1 & Hlen1 & He1). destruct (Rfc1951.len_values y ltac:(lia)) as (Hex & Hbase & _).
    apply (does_code_reaches flush r r1); [by apply reaches_one|done|done|].
    pose proof (lenext_state flush r1 Hg1 Hm1 ltac:(lia)) as Hs2. rewrite He1, Hv1 in Hs2.
    unfold mbind at 1, Rfc1951.P_bind at 1.
    destruct (Rfc1951.get (Rfc1951.len_extra y) s) as [x s2| |] eqn:Eget; [| |done].
    + destruct Hs2 as (r2 & E2 & [Hq2 Hg2 Hv2 Hb2] & Hm2 & Hlen2).
      assert (0 ≤ x) as Hx.
      { unfold Rfc1951.get in Eget. case_match; [done|]. injection Eget as <- _.
        apply Z.mod_pos_bound. lia. }
      apply (does_code_reaches flush r1 r2); [by apply reaches_one|done|done|].
      assert (quiet r r2) as [Hk12 Hp12 Hl12] by (by etransitivity).
      rewrite Hlen1 in Hlen2. rewrite <-Hlen2, <-Hv2.
      eapply (match_code flush r2 H pre cur ll nl ld nd); try done; [auto|..].
      * eapply tables_core; [apply Hk12|done].
      * congruence.
      * rewrite (kept_out _ _ Hk12). lia.
      * lia.
    + destruct Hs2 as (r2 & E2 & Hq2 & Hm2). exists r2. rewrite Hm2. split_and!; [by apply leaves_now|done|done].
  - destruct Hs as (r1 & E1 & Hq1 & Hm1). exists r1. rewrite Hm1. split_and!; [by apply leaves_now|done|done].
  - destruct Hs as (r1 & E1 & Hq1 & Hm1). intros _. exists r1. split_and!; [by apply reaches_one|done|done].
Qed.

End InflateCodes.
