(* ===== verification/FastCodes.v ===== *)
(** * inflate_fast decodes what the reference decoder does

    One round of the fast loop is one step of the reference decoder, as long as
    six bytes of input and 258 bytes of room are left, which the loop checks;
    the unused bytes it gives back were read by it. *)

From Stdlib Require Import String.
From S2P Require Import Prelude Inftrees InftreesDecode Rfc1951 Symbols InflateState Inffast.
From S2P Require Import Inflate Runs BitReader Window InflateCodes.

Module FastCodes.
Import InflateState Inffast Window InflateCodes.

Section Fast.
  Context (inb : list Z) (s : inflate_state).
  Hypothesis Hinb : bytes inb.

Lemma avail_dropped n x : Rfc1951.avail (Rfc1951.dropped n x) = Rfc1951.avail x - n.
Proof. done. Qed.

(** ** The bits still to read *)

Definition fview (f : fast) : Rfc1951.bitstream :=
  Rfc1951.Bits (hold f + 2 ^ bits f * Rfc1951.le_value (drop (Z.to_nat (in_ f)) inb))
    (bits f + 8 * (zlen inb - in_ f)).

Record fgood (f : fast) : Prop := {
  fg_in : 0 ≤ in_ f ≤ zlen inb;
  fg_bits : 0 ≤ bits f ≤ 32;
  fg_hold : 0 ≤ hold f < 2 ^ bits f
}.

Lemma fview_range f : fgood f → 0 ≤ Rfc1951.value (fview f) ∧ 0 ≤ Rfc1951.avail (fview f).
Proof.
  intros [Hi Hb Hh]. pose proof (BitReader.le_value_range (drop (Z.to_nat (in_ f)) inb)) as Hl.
  specialize (Hl ltac:(by apply Forall_drop)). cbn. split; [|lia]. nia.
Qed.

Lemma fview_hold f n : fgood f → 0 ≤ n ≤ bits f → hold f mod 2 ^ n = Rfc1951.value (fview f) mod 2 ^ n.
Proof.
  intros [_ Hb Hh] Hn. rewrite <-(mod_mod_pow2 n (bits f) (Rfc1951.value (fview f))) by lia.
  f_equal. cbn. rewrite Z.mul_comm, Z.mod_add by lia. symmetry. by apply Z.mod_small.
Qed.

(** The input lasts while the buffer does not hold all of it. *)
Lemma pull_view f : fgood f → bits f ≤ 24 → bits f < Rfc1951.avail (fview f) →
  let f' := pull inb f in
  fgood f' ∧ fview f' = fview f ∧ out f' = out f ∧ bits f' = bits f + 8.
Proof.
  intros [Hi Hb Hh] H24 Ha f'. cbn in Ha. assert (in_ f < zlen inb) as Hlt by lia.
  assert (drop (Z.to_nat (in_ f)) inb = inb.[in_ f] :: drop (Z.to_nat (in_ f + 1)) inb) as Ed.
  { unfold zlen in *. rewrite Z2Nat.inj_add by lia. rewrite Nat.add_comm. simpl.
    apply drop_S. unfold aget. apply list_lookup_lookup_total_lt. lia. }
  assert (0 ≤ inb.[in_ f] < 2 ^ 8) as Hx by (apply (Forall_aget (ubits 8)); [done|lia]).
  assert (2 ^ (bits f + 8) = 2 ^ 8 * 2 ^ bits f) as E8 by (rewrite <-Z.pow_add_r by lia; f_equal; lia).
  pose proof (Z.pow_le_mono_r 2 (bits f + 8) 32 ltac:(lia) ltac:(lia)) as H32.
  assert (hold f' = hold f + inb.[in_ f] * 2 ^ bits f) as Eh.
  { cbn. rewrite Z.shiftl_mul_pow2 by lia. rewrite wrap_add_idem_r. apply wrap_small. unfold ubits. nia. }
  split; [|split_and!; [|done..]].
  - split; [cbn; lia|cbn; lia|]. rewrite Eh. cbn. nia.
  - unfold fview. rewrite Eh. change (bits f') with (bits f + 8). change (in_ f') with (in_ f + 1). f_equal; [|lia].
    rewrite Ed. cbn [Rfc1951.le_value foldr]. fold (Rfc1951.le_value (drop (Z.to_nat (in_ f + 1)) inb)).
    rewrite E8. lia.
Qed.

Lemma dropbits_view f n : fgood f → 0 ≤ n ≤ bits f → let f' := dropbits n f in
  fgood f' ∧ fview f' = Rfc1951.dropped n (fview f) ∧ out f' = out f ∧ bits f' = bits f - n.
Proof.
  intros [Hi Hb Hh] Hn f'.
  assert (2 ^ bits f = 2 ^ (bits f - n) * 2 ^ n) as E by (rewrite <-Z.pow_add_r by lia; f_equal; lia).
  assert (bits f' = bits f - n) as Eb by (apply wrap_small; unfold ubits; lia).
  assert (0 < 2 ^ n) by lia. split; [|split_and!; [|done|done]].
  - split; [done|lia|]. rewrite Eb. cbn. rewrite Z.shiftr_div_pow2 by lia.
    split; [apply Z.div_pos; lia|]. apply Z.div_lt_upper_bound; nia.
  - unfold fview, Rfc1951.dropped. rewrite Eb. cbn. f_equal; [|lia].
    rewrite Z.shiftr_div_pow2, E by lia. symmetry.
    match goal with |- (?a + ?b * ?c * ?d) / _ = _ => replace (a + b * c * d) with (a + b * d * c) by lia end.
    rewrite Z.div_add by lia. done.
Qed.

(** Room for a code of 15 bits. *)
Lemma refill_view f : fgood f → 28 ≤ Rfc1951.avail (fview f) →
  let f' := refill15 inb f in
  fgood f' ∧ fview f' = fview f ∧ out f' = out f ∧ 15 ≤ bits f'.
Proof.
  intros Hg Ha f'. unfold f', refill15. destruct (Z.ltb_spec (bits f) 15) as [Hb|Hb]; [|done].
  destruct (pull_view f Hg) as (Hg1 & Hv1 & Ho1 & Hb1); [lia|lia|].
  destruct (pull_view (pull inb f) Hg1) as (Hg2 & Hv2 & Ho2 & Hb2); [lia|rewrite Hv1; lia|].
  destruct (fg_bits _ Hg). split_and!; try done; try lia; congruence.
Qed.

(** ** Codes *)

(** Both levels of a lookup, with 15 bits in the buffer. *)
Section Lookup.
  Context (type : Inftrees.codetype) (lens : list Z) (n : Z) (p : code_ptr) (root : Z).
  Hypothesis Hs : Symbols.serves type lens n (tab_of s p).1 (tab_of s p).2 root.

Lemma fast_root f : fgood f → 15 ≤ bits f →
  code_at s p (hold f .& ((1 ≪ root) - 1))
  = Symbols.root_entry (tab_of s p).1 (tab_of s p).2 root (Rfc1951.value (fview f)).
Proof.
  intros Hg Hb. destruct (Symbols.serves_root _ _ _ _ _ _ Hs).
  rewrite code_at_tab, mask_mod by lia. unfold Symbols.root_entry. by rewrite fview_hold by (done || lia).
Qed.

Lemma fast_sub f l : fgood f → 15 ≤ bits f → Inftrees.bits l = root → 0 ≤ Inftrees.op l →
  root + Inftrees.op l ≤ 15 →
  code_at s p (Inftrees.val l + (hold (dropbits root f) .& ((1 ≪ Inftrees.op l) - 1)))
  = Symbols.sub_entry (tab_of s p).1 (tab_of s p).2 l (Rfc1951.value (fview f)).
Proof.
  intros Hg Hb Hl Hop H15. destruct (Symbols.serves_root _ _ _ _ _ _ Hs).
  destruct (dropbits_view f root Hg ltac:(lia)) as (Hg1 & Hv1 & _ & Hb1).
  rewrite code_at_tab, mask_mod by lia. unfold Symbols.sub_entry.
  rewrite fview_hold, Hv1 by (done || lia). cbn [Rfc1951.value Rfc1951.dropped]. rewrite Hl.
  rewrite Z.add_assoc. do 2 f_equal.
  rewrite Z.shiftr_div_pow2, mod_pow2_split by lia.
  rewrite (Z.mul_comm (2 ^ root)), Z.div_add by lia.
  rewrite (Z.div_small (_ mod 2 ^ root) (2 ^ root)) by (apply Z.mod_pos_bound; lia). done.
Qed.

End Lookup.

Lemma link_op o : 1 ≤ o ≤ 15 →
  (o =? 0) = false ∧ c_true (o .& 16) = false ∧ ((o .& 64) =? 0) = true.
Proof.
  intros Ho. assert (forall_range (λ o, negb (o =? 0) && negb (c_true (o .& 16)) && ((o .& 64) =? 0)) 1 15 = true)
    as Hc by (vm_compute; reflexivity).
  apply (forall_range_spec _ _ _ o) in Hc; [|lia]. cbv beta in Hc.
  rewrite !andb_true_iff, !negb_true_iff in Hc. tauto.
Qed.

(** After the bits of the found entry were dropped. *)
Definition after_code (f f2 : fast) (e : Inftrees.code) (l : Z) : Prop :=
  let f3 := dropbits (Inftrees.bits e) f2 in
  fgood f3 ∧ fview f3 = Rfc1951.dropped l (fview f) ∧ out f3 = out f ∧ bits f3 = bits f - l.

Section Found.
  Context (type : Inftrees.codetype) (lens : list Z) (n : Z) (p : code_ptr) (root : Z).
  Hypothesis Hs : Symbols.serves type lens n (tab_of s p).1 (tab_of s p).2 root.
  Context (f : fast) (Hg : fgood f) (Hb : 15 ≤ bits f).

(** A lookup in one go or through a link, for the two loops. *)
Lemma found_cases : let e0 := code_at s p (hold f .& ((1 ≪ root) - 1)) in
  let '(e, l) := Symbols.found_entry (tab_of s p).1 (tab_of s p).2 root (Rfc1951.value (fview f)) in
  (e = e0 ∧ after_code f f e l) ∨
  (1 ≤ Inftrees.op e0 ≤ 15 ∧
   e = code_at s p (Inftrees.val e0 + (hold (dropbits (Inftrees.bits e0) f) .& ((1 ≪ Inftrees.op e0) - 1))) ∧
   after_code f (dropbits (Inftrees.bits e0) f) e l).
Proof.
  intros e0. unfold e0. rewrite (fast_root _ _ _ _ _ Hs) by done. clear e0.
  pose proof (fview_range f Hg) as [HV HA]. set (V := Rfc1951.value (fview f)) in *.
  pose proof (Symbols.serves_root _ _ _ _ _ _ Hs) as Hr.
  pose proof (Symbols.link_shape _ _ _ _ _ _ Hs V HV) as Hshape. cbv zeta in Hshape.
  unfold Symbols.found_entry. rewrite (Symbols.lookup_window (tab_of s p).1). cbv zeta.
  rewrite <-(Symbols.root_entry_window _ _ _ _ _ _ Hs).
  set (e0 := Symbols.root_entry _ _ root V) in *.
  destruct (InftreesDecode.is_link e0) eqn:El.
  - destruct Hshape as (_ & Hb0 & Hop & Hop15 & Hsb). right.
    assert (Symbols.sub_entry (tab_of s p).1 (tab_of s p).2 e0 (V mod 2 ^ 15)
      = Symbols.sub_entry (tab_of s p).1 (tab_of s p).2 e0 V) as -> by
      (unfold Symbols.sub_entry; by rewrite mod_mod_pow2 by lia).
    rewrite Hb0, (fast_sub _ _ _ _ _ Hs) by (done || lia). fold V.
    split; [lia|]. split; [done|].
    destruct (dropbits_view f root Hg ltac:(lia)) as (Hg1 & Hv1 & Ho1 & Hb1).
    set (e1 := Symbols.sub_entry _ _ e0 V) in *.
    destruct (dropbits_view _ (Inftrees.bits e1) Hg1 ltac:(lia)) as (Hg2 & Hv2 & Ho2 & Hb2).
    split_and!; [done| |congruence|lia].
    rewrite Hv2, Hv1. apply Rfc1951.dropped_dropped; lia.
  - left. split; [done|].
    destruct (dropbits_view f (Inftrees.bits e0) Hg ltac:(lia)) as (Hg1 & Hv1 & Ho1 & Hb1).
    split_and!; done.
Qed.

End Found.

Lemma dolen_found beg n ll nl f : len_serves s ll nl → fgood f → 15 ≤ bits f →
  let '(e, l) := Symbols.found_entry (tab_of s (lencode s)).1 (tab_of s (lencode s)).2 (lenbits s)
                   (Rfc1951.value (fview f)) in
  ∃ fuel f2, dolen inb s beg (S (S n)) (code_at s (lencode s) (hold f .& ((1 ≪ lenbits s) - 1))) f
             = dolen inb s beg (S fuel) e f2 ∧ after_code f f2 e l.
Proof.
  intros Hs Hg Hb. pose proof (found_cases _ _ _ _ _ Hs f Hg Hb) as Hc. cbv zeta in Hc.
  destruct (Symbols.found_entry _ _ _ _) as [e l].
  destruct Hc as [[-> Hc]|(Hop & -> & Hc)]; [by exists (S n), f|].
  destruct (link_op _ Hop) as (E0 & E16 & E64). eexists n, _. split; [|exact Hc].
  cbn [dolen]. by rewrite E0, E16, E64.
Qed.

Lemma dodist_found beg n len ld nd f : dist_serves s ld nd → fgood f → 15 ≤ bits f →
  let '(e, l) := Symbols.found_entry (tab_of s (distcode s)).1 (tab_of s (distcode s)).2 (distbits s)
                   (Rfc1951.value (fview f)) in
  ∃ fuel f2, dodist inb s beg (S (S n)) len (code_at s (distcode s) (hold f .& ((1 ≪ distbits s) - 1))) f
             = dodist inb s beg (S fuel) len e f2 ∧ after_code f f2 e l.
Proof.
  intros Hs Hg Hb. pose proof (found_cases _ _ _ _ _ Hs f Hg Hb) as Hc. cbv zeta in Hc.
  destruct (Symbols.found_entry _ _ _ _) as [e l].
  destruct Hc as [[-> Hc]|(Hop & -> & Hc)]; [by exists (S n), f|].
  destruct (link_op _ Hop) as (E0 & E16 & E64). eexists n, _. split; [|exact Hc].
  cbn [dodist]. by rewrite E16, E64.
Qed.

(** The extra bits of a length or distance. *)
Lemma extra_view f k : fgood f → 0 ≤ k ≤ bits f → 
  (hold f .& ((1 ≪ k) - 1)) = Rfc1951.value (fview f) mod 2 ^ k.
Proof. intros Hg Hk. rewrite mask_mod by lia. by apply fview_hold. Qed.

(** What one round of the fast loop leads to. *)
Definition does_round (f : fast) (x : Rfc1951.result (option (list Z))) (y : round) : Prop :=
  match x with
  | Rfc1951.Short => False
  | Rfc1951.Bad => ∃ m f', y = Error m f' ∧ out f' = out f
  | Rfc1951.Ok None s' => ∃ f', y = EndBlock f' ∧ out f' = out f ∧ fgood f' ∧ fview f' = s'
  | Rfc1951.Ok (Some b) s' => ∃ f', y = Cont f' ∧ out f' = out f ++ b ∧ fgood f' ∧ fview f' = s'
  end.

Lemma does_round_out f f' x y : out f' = out f → does_round f' x y → does_round f x y.
Proof. intros E. unfold does_round. by rewrite E. Qed.

(** The extra bits of a distance need two bytes at most. *)
Lemma refill_extra f k : fgood f → 0 ≤ k ≤ 13 → 13 ≤ Rfc1951.avail (fview f) →
  let f' := if bits f <? k then
              let f := pull inb f in if bits f <? k then pull inb f else f
            else f in
  fgood f' ∧ fview f' = fview f ∧ out f' = out f ∧ k ≤ bits f'.
Proof.
  intros Hg Hk Ha f'. unfold f'. clear f'. destruct (Z.ltb_spec (bits f) k) as [Hb|Hb]; [|done].
  destruct (pull_view f Hg) as (Hg1 & Hv1 & Ho1 & Hb1); [lia|lia|]. cbv zeta.
  destruct (fg_bits _ Hg). destruct (Z.ltb_spec (bits (pull inb f)) k); [|done].
  destruct (pull_view (pull inb f) Hg1) as (Hg2 & Hv2 & Ho2 & Hb2); [lia|rewrite Hv1; lia|].
  split_and!; try done; try lia; congruence.
Qed.

Section Round.
  Context (H pre cur ll : list Z) (nl : Z) (ld : list Z) (nd : Z).
  Hypothesis Ht : tables s H ll nl ld nd.

Lemma fast_dist f len : fgood f → 28 ≤ Rfc1951.avail (fview f) → out f = pre ++ cur → 3 ≤ len →
  does_round f ((d ← Rfc1951.symbol ld nd;
    if 29 <? d then Rfc1951.bad
    else
      e ← Rfc1951.get (Rfc1951.dist_extra d);
      let dist := Rfc1951.dist_base d + e in
      if zlen (H ++ cur) <? dist then Rfc1951.bad
      else mret (Some (lz_bytes (Z.to_nat len) dist (H ++ cur)))) (fview f))
    (let f := refill15 inb f in
     dodist inb s (zlen pre) 16 len (code_at s (distcode s) (hold f .& ((1 ≪ distbits s) - 1))) f).
Proof.
  intros Hg Ha Hout Hlen. destruct Ht as [Hh Hw Hsane _ Hd].
  destruct (refill_view f Hg Ha) as (Hg1 & Hv1 & Ho1 & Hb1). cbv zeta. set (f1 := refill15 inb f) in *.
  pose proof (dodist_found (zlen pre) 14 len ld nd f1 Hd Hg1 Hb1) as Hf.
  pose proof (fview_range f1 Hg1) as [HV HA].
  pose proof (Symbols.found_symbol _ _ _ _ _ _ Hd (fview f1) HV HA) as Hsym.
  destruct (Symbols.found_entry _ _ _ _) as [e l]. destruct Hf as (fuel & f2 & -> & Hg3 & Hv3 & Ho3 & Hb3).
  pose proof (Symbols.serves_symbols _ _ _ _ _ _ Hd) as Hn. simpl in Hn.
  cbn [dodist]. set (f3 := dropbits (Inftrees.bits e) f2) in *. rewrite Hv1 in *.
  destruct Hsym as (Hl & Hsym). unfold mbind at 1, Rfc1951.P_bind at 1.
  destruct (Z.ltb_spec (Rfc1951.avail (fview f)) l); [lia|].
  assert (∀ m, invalid e → ∃ m' f', (if c_true (Inftrees.op e .& 16) then m
    else if (Inftrees.op e .& 64) =? 0 then m else Error "invalid distance code" f3)
    = Error m' f' ∧ out f' = out f) as Hbad.
  { intros m (_ & I16 & _ & I64). rewrite I16. unfold c_true in I64. apply negb_true_iff in I64. rewrite I64.
    exists "invalid distance code"%string, f3. split; [done|congruence]. }
  destruct Hsym as [(y & nb & Hy & He & ->)|[He ->]].
  - destruct (dist_entry y nb e ltac:(lia) He) as [[Hy1 Ee]|[Hy1 Hinv]]; cycle 1.
    { destruct (Z.ltb_spec 29 y); [|lia]. destruct Hinv as (I0 & I16 & I32 & I64). rewrite I16.
      unfold c_true in I64. apply negb_true_iff in I64. rewrite I64.
      eexists _, f3. split; [done|congruence]. }
    destruct (Z.ltb_spec 29 y); [lia|]. destruct (Rfc1951.dist_values y) as (Hex & Hbase); [lia|].
    destruct (extra_op (Rfc1951.dist_extra y) ltac:(lia)) as (E15 & E16 & _). rewrite Ee. cbn [Inftrees.op Inftrees.val].
    rewrite E16, E15. destruct (refill_extra f3 (Rfc1951.dist_extra y) Hg3 Hex) as (Hg4 & Hv4 & Ho4 & Hb4).
    { rewrite Hv3, avail_dropped. lia. }
    cbv zeta in Hg4, Hv4, Ho4, Hb4.
    set (f4 := if bits f3 <? Rfc1951.dist_extra y then _ else f3) in *.
    rewrite extra_view by (done || lia). rewrite Hv4, Hv3.
    unfold mbind, Rfc1951.P_bind, Rfc1951.get.
    destruct (Z.ltb_spec (Rfc1951.avail (Rfc1951.dropped l (fview f))) (Rfc1951.dist_extra y)) as [Hsh|_].
    { rewrite avail_dropped in Hsh. lia. }
    set (x := Rfc1951.value (Rfc1951.dropped l (fview f)) mod 2 ^ Rfc1951.dist_extra y).
    assert (0 ≤ x) by (apply Z.mod_pos_bound; lia).
    destruct (dropbits_view f4 (Rfc1951.dist_extra y) Hg4 ltac:(lia)) as (Hg5 & Hv5 & Ho5 & Hb5).
    set (f5 := dropbits (Rfc1951.dist_extra y) f4) in *.
    rewrite (fast_match s H pre cur len (Rfc1951.dist_base y + x) f5);
      [|done|done|congruence|done|lia].
    rewrite Hw, zlen_app, (Z.add_comm (zlen cur)).
    destruct (Z.ltb_spec (zlen H + zlen cur) (Rfc1951.dist_base y + x)).
    + eexists _, f5. split; [done|congruence].
    + eexists. split; [done|]. split; [|split; [by destruct Hg5|]].
      { match goal with |- _ = _ ++ ?b => change ((pre ++ cur) ++ b = out f ++ b) end. congruence. }
      rewrite <-Hv3, <-Hv4, <-Hv5. done.
  - rewrite He. eexists _, f3. split; [done|congruence].
Qed.

Lemma fast_round_spec f : fgood f → 48 ≤ Rfc1951.avail (fview f) → out f = pre ++ cur →
  does_round f (Rfc1951.code_step ll nl ld nd (H ++ cur) (fview f)) (fast_round inb s (zlen pre) f).
Proof.
  intros Hg Ha Hout. pose proof (tab_len _ _ _ _ _ _ Ht) as Hl0. unfold fast_round.
  destruct (refill_view f Hg ltac:(lia)) as (Hg1 & Hv1 & Ho1 & Hb1). set (f1 := refill15 inb f) in *.
  pose proof (dolen_found (zlen pre) 14 ll nl f1 Hl0 Hg1 Hb1) as Hf.
  pose proof (fview_range f1 Hg1) as [HV HA].
  pose proof (Symbols.found_symbol _ _ _ _ _ _ Hl0 (fview f1) HV HA) as Hsym.
  destruct (Symbols.found_entry _ _ _ _) as [e l]. destruct Hf as (fuel & f2 & -> & Hg3 & Hv3 & Ho3 & Hb3).
  pose proof (Symbols.serves_symbols _ _ _ _ _ _ Hl0) as Hn. simpl in Hn.
  cbn [dolen]. set (f3 := dropbits (Inftrees.bits e) f2) in *. rewrite Hv1 in *.
  destruct Hsym as (Hl & Hsym). unfold Rfc1951.code_step. unfold mbind at 1, Rfc1951.P_bind at 1.
  destruct (Z.ltb_spec (Rfc1951.avail (fview f)) l); [lia|].
  destruct Hsym as [(y & nb & Hy & He & ->)|[He ->]]; cycle 1.
  { rewrite He. eexists _, f3. split; [done|congruence]. }
  destruct (len_entry y nb e ltac:(lia) He) as [[Hy1 Ee]|[[-> Ee]|[[Hy1 Ee]|[Hy1 Hinv]]]].
  - destruct (Z.ltb_spec y 256); [|lia]. rewrite Ee. eexists. split; [done|].
    split; [|split; [by destruct Hg3|done]].
    change (out f3 ++ [u8 y] = out f ++ [y]). rewrite wrap_small by (unfold ubits; lia). congruence.
  - rewrite Ee. eexists f3. split; [done|]. split; [congruence|done].
  - destruct (Z.ltb_spec y 256), (Z.eqb_spec y 256), (Z.ltb_spec 285 y); try lia.
    destruct (Rfc1951.len_values y Hy1) as (Hex & Hbase & _).
    destruct (extra_op (Rfc1951.len_extra y) ltac:(lia)) as (E15 & E16 & _ & _ & E0).
    rewrite Ee. cbn [Inftrees.op Inftrees.val]. rewrite E0, E16, E15.
    unfold mbind at 1, Rfc1951.P_bind at 1, Rfc1951.get at 1.
    destruct (Z.ltb_spec (Rfc1951.avail (Rfc1951.dropped l (fview f))) (Rfc1951.len_extra y)) as [Hsh|_].
    { rewrite avail_dropped in Hsh. lia. }
    set (x := Rfc1951.value (Rfc1951.dropped l (fview f)) mod 2 ^ Rfc1951.len_extra y).
    assert (0 ≤ x) as Hx by (apply Z.mod_pos_bound; lia).
    assert (∃ f5, (if c_true (Rfc1951.len_extra y) then
        (Rfc1951.len_base y + (hold (if bits f3 <? Rfc1951.len_extra y then pull inb f3 else f3)
                                 .& ((1 ≪ Rfc1951.len_extra y) - 1)),
         dropbits (Rfc1951.len_extra y) (if bits f3 <? Rfc1951.len_extra y then pull inb f3 else f3))
      else (Rfc1951.len_base y, f3)) = (Rfc1951.len_base y + x, f5) ∧ fgood f5 ∧
      fview f5 = Rfc1951.dropped (Rfc1951.len_extra y) (Rfc1951.dropped l (fview f)) ∧ out f5 = out f)
      as (f5 & -> & Hg5 & Hv5 & Ho5).
    { unfold c_true. destruct (Z.eqb_spec (Rfc1951.len_extra y) 0) as [Ex|Ex]; cbn [negb].
      - exists f3. unfold x. rewrite Ex, Z.mod_1_r, Z.add_0_r. split_and!; try done; [|congruence].
        rewrite Hv3. unfold Rfc1951.dropped at 2. rewrite Z.div_1_r, Z.sub_0_r. by destruct (Rfc1951.dropped l (fview f)).
      - assert (fgood (if bits f3 <? Rfc1951.len_extra y then pull inb f3 else f3) ∧
          fview (if bits f3 <? Rfc1951.len_extra y then pull inb f3 else f3) = fview f3 ∧
          out (if bits f3 <? Rfc1951.len_extra y then pull inb f3 else f3) = out f3 ∧
          Rfc1951.len_extra y ≤ bits (if bits f3 <? Rfc1951.len_extra y then pull inb f3 else f3)) as (Hg4 & Hv4 & Ho4 & Hb4).
        { destruct (Z.ltb_spec (bits f3) (Rfc1951.len_extra y)); [|done].
          destruct (fg_bits _ Hg3). destruct (pull_view f3 Hg3) as (? & ? & ? & ?); [lia|rewrite Hv3, avail_dropped; lia|].
          split_and!; try done; lia. }
        cbv zeta. set (f4 := if bits f3 <? Rfc1951.len_extra y then pull inb f3 else f3) in *.
        destruct (dropbits_view f4 (Rfc1951.len_extra y) Hg4 ltac:(lia)) as (Hg5 & Hv5 & Ho5 & Hb5).
        eexists. rewrite extra_view by (done || lia). rewrite Hv4, Hv3. by split_and!; try done; congruence. }
    apply (does_round_out f f5); [done|]. rewrite <-Hv5.
    apply fast_dist; [done| |congruence|lia]. rewrite Hv5, !avail_dropped. lia.
  - destruct (Z.ltb_spec y 256), (Z.eqb_spec y 256), (Z.ltb_spec 285 y); try lia.
    destruct Hinv as (I0 & I16 & I32 & I64). rewrite I0, I16, I32. unfold c_true in I64.
    apply negb_true_iff in I64. rewrite I64. eexists _, f3. split; [done|congruence].
Qed.

(** *** The loop *)

(** What the loop leads to: [cur'] is what the call has written by then, and
    no more than the room. *)
Definition does_loop (room : Z) (f : fast) (y : round) : Prop :=
  let o := Rfc1951.codes ll nl ld nd H cur (fview f) in
  match y with
  | Stuck => False
  | Error m f' => ∃ cur', out f' = pre ++ cur' ∧ zlen (out f') ≤ room ∧ o = Rfc1951.Invalid cur'
  | EndBlock f' => ∃ cur', out f' = pre ++ cur' ∧ zlen (out f') ≤ room ∧
      o = Rfc1951.Done cur' (fview f') ∧ fgood f' ∧ Rfc1951.rest_of 1 (fview f) (fview f')
  | Cont f' => ∃ cur', out f' = pre ++ cur' ∧ zlen (out f') ≤ room ∧
      o = Rfc1951.codes ll nl ld nd H cur' (fview f') ∧ fgood f' ∧ Rfc1951.rest_of 1 (fview f) (fview f')
  end.

End Round.

Lemma fast_loop_spec H pre cur ll nl ld nd fuel room f : tables s H ll nl ld nd →
  fgood f → 48 ≤ Rfc1951.avail (fview f) → out f = pre ++ cur → zlen (out f) + 258 ≤ room →
  Rfc1951.avail (fview f) < Z.of_nat fuel →
  does_loop H pre cur ll nl ld nd room f (fast_loop inb s (zlen pre) fuel room f).
Proof.
  intros Ht. revert cur f. induction fuel as [|fuel IH]; intros cur f Hg Ha Hout Hroom Hf; [lia|].
  cbn [fast_loop]. pose proof (fast_round_spec H pre cur ll nl ld nd Ht f Hg Ha Hout) as Hr.
  unfold does_loop. rewrite Rfc1951.codes_eq by lia.
  destruct (Rfc1951.code_step ll nl ld nd (H ++ cur) (fview f)) as [[b|] s'| |] eqn:Es; simpl in Hr; [..|done|].
  - destruct Hr as (f' & -> & Ho & Hg' & <-). apply Rfc1951.code_step_rest in Es as [Hrest Hb]. simpl in Hb.
    assert (out f' = pre ++ (cur ++ b)) as Hout' by (rewrite Ho, Hout; by rewrite app_assoc).
    assert (zlen (out f') ≤ room) as Hz by (rewrite Ho, zlen_app; lia).
    destruct (Z.ltb_spec (in_ f') (zlen inb - 5)) as [H5|], (Z.ltb_spec (zlen (out f')) (room - 257));
      cbn [andb]; [|by exists (cur ++ b)..].
    pose proof (Rfc1951.rest_avail _ _ _ Hrest).
    specialize (IH (cur ++ b) f' Hg'). unfold does_loop in IH.
    assert (48 ≤ Rfc1951.avail (fview f')) as H48 by (destruct Hg'; cbn; lia).
    specialize (IH H48 Hout' ltac:(lia) ltac:(lia)).
    assert (∀ f2, Rfc1951.rest_of 1 (fview f') (fview f2) → Rfc1951.rest_of 1 (fview f) (fview f2)) as Htr.
    { intros f2 H2. eapply (Rfc1951.rest_weaken (1 + 1)); [lia|]. by eapply Rfc1951.rest_trans. }
    destruct (fast_loop inb s (zlen pre) fuel room f') as [f2|f2|m f2|]; [..|done].
    + destruct IH as (c & ? & ? & ? & ? & ?). exists c. split_and!; auto.
    + destruct IH as (c & ? & ? & ? & ? & ?). exists c. split_and!; auto.
    + destruct IH as (c & ? & ? & ?). by exists c.
  - destruct Hr as (f' & -> & Ho & Hg' & <-). apply Rfc1951.code_step_rest in Es as [Hrest _].
    exists cur. rewrite Ho. split_and!; try done. lia.
  - destruct Hr as (m & f' & -> & Ho). exists cur. rewrite Ho. split_and!; try done. lia.
Qed.

(** ** Giving bytes back *)

(** The bytes whose bits are all unread go back, if no more than a part of a
    byte was in the buffer at the start. *)
Lemma return_view f0 f : fgood f0 → in_ f0 = 0 → bits f0 ≤ 7 → fgood f →
  Rfc1951.rest_of 0 (fview f0) (fview f) → let f' := return_bytes f in
  fgood f' ∧ fview f' = fview f ∧ bits f' ≤ 7 ∧ out f' = out f.
Proof.
  intros Hg0 Hi0 Hb0 Hg (c & Hc & Ev) f'. pose proof Hg as [Hi Hb Hh]. destruct Hg0 as [_ Hb0' Hh0].
  assert (Rfc1951.avail (fview f) = Rfc1951.avail (Rfc1951.dropped c (fview f0))) as Ea by (by rewrite Ev).
  cbn in Ea. rewrite Hi0 in Ea. unfold f', return_bytes. cbv zeta.
  rewrite Z.shiftr_div_pow2 by lia. rewrite !(Z.shiftl_mul_pow2 _ 3) by lia.
  pose proof (Z.div_mod (bits f) 8 ltac:(lia)) as Hdm. pose proof (Z.mod_pos_bound (bits f) 8 ltac:(lia)).
  change (2 ^ 3) with 8. set (k := bits f / 8) in *.
  assert (bits f - k * 8 = bits f mod 8) as -> by lia. set (b := bits f mod 8) in *.
  rewrite mask_mod by lia. assert (0 ≤ k) by (apply Z.div_pos; lia).
  rewrite fview_hold by (done || lia).
  split; [|split; [|split; [cbn; lia|done]]].
  { split; [cbn; lia|cbn; lia|]. cbn. apply Z.mod_pos_bound, Z.pow_pos_nonneg; lia. }
  transitivity (Rfc1951.Bits (Rfc1951.value (fview f)) (Rfc1951.avail (fview f))); [|done].
  unfold fview at 1. apply (f_equal2 Rfc1951.Bits); [|cbn; lia]. cbn -[Rfc1951.value Z.pow Z.mul Z.add].
  assert (Rfc1951.value (fview f) / 2 ^ b = Rfc1951.le_value (drop (Z.to_nat (in_ f - k)) inb)) as E.
  { rewrite Ev. cbn. rewrite Hi0. change (drop (Z.to_nat 0) inb) with inb.
    rewrite Z.div_div, <-Z.pow_add_r by lia.
    replace (c + b) with (bits f0 + 8 * Z.of_nat (Z.to_nat (in_ f - k))) by lia.
    rewrite Z.pow_add_r, <-Z.div_div, (Z.mul_comm (2 ^ bits f0)), Z.div_add by lia.
    rewrite (Z.div_small (hold f0)) by lia. by apply BitReader.le_value_drop. }
  rewrite <-E. change (hold f + 2 ^ bits f * Rfc1951.le_value (drop (Z.to_nat (in_ f)) inb))
    with (Rfc1951.value (fview f)).
  pose proof (Z.div_mod (Rfc1951.value (fview f)) (2 ^ b) ltac:(lia)). lia.
Qed.

End Fast.

(** ** inflate_fast and the fast path of LEN *)

(** The bits after the buffer [h] of [b] bits and the bytes [l]. *)
Definition stream (h b : Z) (l : list Z) : Rfc1951.bitstream :=
  Rfc1951.Bits (h + 2 ^ b * Rfc1951.le_value l) (b + 8 * zlen l).
Definition buffered (h b : Z) (l : list Z) : Prop := 0 ≤ b ≤ 7 ∧ 0 ≤ h < 2 ^ b ∧ bytes l.

Lemma fview_stream inb f : fgood inb f →
  fview inb f = stream (hold f) (bits f) (drop (Z.to_nat (in_ f)) inb).
Proof. intros [Hi _ _]. unfold fview, stream. f_equal. unfold zlen in *. rewrite length_drop. lia. Qed.

Lemma inflate_fast_spec s inb pre cur left start H ll nl ld nd : tables s H ll nl ld nd →
  buffered (InflateState.hold s) (InflateState.bits s) inb →
  6 ≤ zlen inb → 258 ≤ left → start - left = zlen cur →
  let v := stream (InflateState.hold s) (InflateState.bits s) inb in
  let o := Rfc1951.codes ll nl ld nd H cur v in
  ∃ g cur', inflate_fast s inb (pre ++ cur) left start = Some g ∧
    f_written g = pre ++ cur' ∧ f_left g = start - zlen cur' ∧ 0 ≤ f_left g ∧
    let v' := stream (f_hold g) (f_bits g) (f_next g) in
    ((f_mode g = BAD ∧ o = Rfc1951.Invalid cur') ∨
     (f_mode g = TYPE ∧ f_msg g = None ∧ buffered (f_hold g) (f_bits g) (f_next g) ∧
      o = Rfc1951.Done cur' v') ∨
     (f_mode g = LEN ∧ f_msg g = None ∧ buffered (f_hold g) (f_bits g) (f_next g) ∧
      o = Rfc1951.codes ll nl ld nd H cur' v' ∧ Rfc1951.rest_of 1 v v')).
Proof.
  intros Ht (Hb & Hh & Hin) H6 Hleft Hstart v o. unfold inflate_fast.
  replace (zlen (pre ++ cur) - (start - left)) with (zlen pre) by (rewrite zlen_app; lia).
  set (room := zlen (pre ++ cur) + left).
  assert (Hroom : ∀ c, room - zlen (pre ++ c) = start - zlen c) by (intros; unfold room; rewrite !zlen_app; lia).
  set (f0 := Fast 0 (pre ++ cur) (InflateState.hold s) (InflateState.bits s)).
  assert (fgood inb f0) as Hg0 by (split; cbn; lia).
  assert (fview inb f0 = v) as Hv0 by (rewrite fview_stream by done; done).
  assert (Rfc1951.avail v = InflateState.bits s + 8 * zlen inb) as Hav by done.
  pose proof (fast_loop_spec inb s Hin H pre cur ll nl ld nd (Z.to_nat (8 * zlen inb + left) + 2) room f0 Ht Hg0) as Hl.
  rewrite Hv0 in Hl. specialize (Hl ltac:(lia) eq_refl ltac:(unfold room; cbn; lia) ltac:(lia)).
  unfold does_loop in Hl. rewrite Hv0 in Hl. fold o in Hl.
  destruct (fast_loop inb s (zlen pre) _ room f0) as [f|f|m f|]; [..|done].
  - destruct Hl as (c & Ho & Hz & Hc & Hg & Hrest).
    destruct (return_view inb Hin f0 f) as (Hg' & Hv' & Hb' & Ho'); [done|done|cbn; lia|done|..].
    { rewrite Hv0. eapply Rfc1951.rest_weaken; [|done]. lia. }
    set (f' := return_bytes f) in *. rewrite Ho in Ho'.
    eexists _, c. split; [done|]. cbn [f_written f_left f_mode f_msg f_hold f_bits f_next]. rewrite Ho', Hroom.
    split_and!; [done..| |].
    { rewrite Ho in Hz. specialize (Hroom c). lia. }
    right. right. rewrite <-fview_stream, Hv' by done.
    split_and!; try done. destruct Hg'. split_and!; try lia; try done. by apply Forall_drop.
  - destruct Hl as (c & Ho & Hz & Hc & Hg & Hrest).
    destruct (return_view inb Hin f0 f) as (Hg' & Hv' & Hb' & Ho'); [done|done|cbn; lia|done|..].
    { rewrite Hv0. eapply Rfc1951.rest_weaken; [|done]. lia. }
    set (f' := return_bytes f) in *. rewrite Ho in Ho'.
    eexists _, c. split; [done|]. cbn [f_written f_left f_mode f_msg f_hold f_bits f_next]. rewrite Ho', Hroom.
    split_and!; [done..| |].
    { rewrite Ho in Hz. specialize (Hroom c). lia. }
    right. left. rewrite <-fview_stream, Hv' by done.
    split_and!; try done. destruct Hg'. split_and!; try lia; try done. by apply Forall_drop.
  - destruct Hl as (c & Ho & Hz & Hc). eexists _, c. split; [done|]. cbn [f_written f_left f_mode f_msg f_hold f_bits f_next]. change (out (return_bytes f)) with (out f). rewrite Ho, Hroom.
    split_and!; [done..| |by left]. rewrite Ho in Hz. specialize (Hroom c). lia.
Qed.

Import Inflate Runs BitReader.

(** Where a run of the decoder is after some codes of a block. *)
Definition coded (r r' : run) (pre cur' : list Z) : Prop :=
  kept r r' ∧ put r' = pre ++ cur' ∧ left_ r' = Inflate.out r - zlen cur' ∧ 0 ≤ left_ r'.
Definition ready (r' : run) : Prop := good r' ∧ Inflate.bits r' ≤ 7.

Lemma fast_path_run r g :
  inflate_fast ((st r) <| InflateState.hold := Inflate.hold r |> <| InflateState.bits := Inflate.bits r |>)
    (nxt r) (put r) (left_ r) (Inflate.out r) = Some g →
  ∃ r', fast_path r = (r', inl ()) ∧ kept r r' ∧ put r' = f_written g ∧ left_ r' = f_left g ∧
    nxt r' = f_next g ∧ Inflate.hold r' = f_hold g ∧ Inflate.bits r' = f_bits g ∧ mode (st r') = f_mode g.
Proof.
  intros Eg. unfold fast_path, RESTORE. unfold mbind, M_bind, modify, gets, id, when.
  match goal with |- ∃ _, match ?x with Some _ => _ | None => _ end _ = _ ∧ _ =>
    let E := fresh in assert (x = Some g) as E by exact Eg; rewrite E end.
  assert (∀ s : z_stream, ∀ m : option String.string, ∀ nx w,
    core_stream (s <| written := w |> <| avail_out := left_ r |>
      <| next_in := match next_in s with InNull n => InNull n | InBuf _ => InBuf nx end |> <| msg := m |>)
    = core_stream s) as Hcs by (by intros [? [] ? ? ? ? ? ? ? ? ? ? ?]).
  assert (∀ s : z_stream, ∀ nx w,
    core_stream (s <| written := w |> <| avail_out := left_ r |>
      <| next_in := match next_in s with InNull n => InNull n | InBuf _ => InBuf nx end |>)
    = core_stream s) as Hcs' by (by intros [? [] ? ? ? ? ? ? ? ? ? ? ?]).
  case_bool_decide; eexists; (split; [done|]); (split; [split; try done; cbn; destruct (f_msg g); [apply Hcs|apply Hcs']|done]).
Qed.

Lemma fast_codes flush r H pre cur ll nl ld nd : coding r H pre cur ll nl ld nd → slow r = false →
  let o := Rfc1951.codes ll nl ld nd H cur (view r) in
  ∃ r' cur', step flush r = (r', inl ()) ∧ coded r r' pre cur' ∧
    ((mode (st r') = BAD ∧ o = Rfc1951.Invalid cur') ∨
     (mode (st r') = TYPE ∧ ready r' ∧ o = Rfc1951.Done cur' (view r')) ∨
     (mode (st r') = LEN ∧ ready r' ∧ o = Rfc1951.codes ll nl ld nd H cur' (view r') ∧
      Rfc1951.rest_of 1 (view r) (view r'))).
Proof.
  intros [Hm Hg Hb Ht Hput Hout Hleft] Hslow o.
  apply negb_false_iff in Hslow as Hs. at_mode Hm. unfold do_LEN. rewrite !bind_gets, Hs. cbv iota.
  rewrite andb_true_iff, !Z.leb_le in Hs. destruct Hs as [H6 H258].
  set (s0 := (st r) <| InflateState.hold := Inflate.hold r |> <| InflateState.bits := Inflate.bits r |>).
  destruct (inflate_fast_spec s0 (nxt r) pre cur (left_ r) (Inflate.out r) H ll nl ld nd)
    as (g & cur' & Eg & Hw & Hl & Hl0 & Hcase); try done.
  { by eapply tables_core; [|done]. }
  { destruct Hg as [[] ? ?]. done. }
  rewrite <-Hput in Eg. destruct (fast_path_run r g Eg) as (r' & E & Hk & Hp & Hleft' & Hn & Hh & Hbits & Hmode).
  exists r', cur'. split; [done|]. split; [split_and!; congruence|].
  assert (stream (f_hold g) (f_bits g) (f_next g) = view r') as Hv by (unfold stream, view; congruence).
  assert (buffered (f_hold g) (f_bits g) (f_next g) → ready r') as Hr.
  { rewrite <-Hh, <-Hbits, <-Hn. intros (? & ? & ?). split; [split; [lia|done..]|lia]. }
  rewrite Hmode. rewrite Hv in Hcase. change (stream (InflateState.hold s0) (InflateState.bits s0) (nxt r)) with (view r) in Hcase.
  destruct Hcase as [?|[(? & _ & ? & ?)|(? & _ & ? & ? & ?)]]; [by left|right; left|right; right]; auto.
Qed.

(** ** A block of codes *)

(** From LEN on, the decoder does what the reference decoder does, as long as
    the output has room; an error needs room for one byte more, because a
    distance is checked after the room. *)
Definition does_codes (flush : Z) (r : run) (pre : list Z) (o : Rfc1951.outcome) : Prop :=
  match o with
  | Rfc1951.Done cur' s => zlen cur' ≤ Inflate.out r → ∃ r', reaches flush r r' ∧ coded r r' pre cur' ∧
      mode (st r') = TYPE ∧ ready r' ∧ view r' = s
  | Rfc1951.Starved cur' => zlen cur' ≤ Inflate.out r → ∃ r', leaves flush r r' Leave ∧
      coded r r' pre cur' ∧ mode_val (mode (st r')) < mode_val CHECK
  | Rfc1951.Invalid cur' => zlen cur' < Inflate.out r → ∃ r', reaches flush r r' ∧
      coded r r' pre cur' ∧ mode (st r') = BAD
  end.

Lemma coded_trans r r1 r2 pre c1 c2 : coded r r1 pre c1 → coded r1 r2 pre c2 → coded r r2 pre c2.
Proof.
  intros (Hk & _) (Hk2 & ? & ? & ?). rewrite (kept_out _ _ Hk) in *. split_and!; try done. by etransitivity.
Qed.

Lemma does_codes_reaches flush r r1 pre c1 o : reaches flush r r1 → coded r r1 pre c1 →
  does_codes flush r1 pre o → does_codes flush r pre o.
Proof.
  intros Hr Hc. pose proof (kept_out _ _ (proj1 Hc)) as Eo. unfold does_codes. rewrite Eo. destruct o.
  - intros H Hroom. destruct (H Hroom) as (r2 & ? & ? & ?). exists r2.
    split; [by eapply reaches_trans|]. split; [by eapply coded_trans|done].
  - intros H Hroom. destruct (H Hroom) as (r2 & ? & ? & ?). exists r2.
    split; [by eapply leaves_trans|]. split; [by eapply coded_trans|done].
  - intros H Hroom. destruct (H Hroom) as (r2 & ? & ? & ?). exists r2.
    split; [by eapply reaches_trans|]. split; [by eapply coded_trans|done].
Qed.

Lemma does_codes_room flush r pre o :
  (zlen (Rfc1951.output o) ≤ Inflate.out r → does_codes flush r pre o) → does_codes flush r pre o.
Proof. intros H. destruct o; simpl in *; intros Hroom; apply H; lia. Qed.

Lemma coding_quiet r r' H pre cur ll nl ld nd : coding r H pre cur ll nl ld nd → quiet r r' → coded r r' pre cur.
Proof. intros [] [Hk Hp Hl]. split_and!; [done|congruence|lia|lia]. Qed.

Lemma coding_step r r' H pre cur cur' ll nl ld nd : coding r H pre cur ll nl ld nd →
  coded r r' pre cur' → mode (st r') = LEN → ready r' → coding r' H pre cur' ll nl ld nd.
Proof.
  intros [] (Hk & ? & ? & ?) ? []. split; try done.
  - by eapply tables_core; [apply Hk|].
  - rewrite (kept_out _ _ Hk). lia.
Qed.

Lemma codes_run flush r H pre cur ll nl ld nd : coding r H pre cur ll nl ld nd →
  does_codes flush r pre (Rfc1951.codes ll nl ld nd H cur (view r)).
Proof.
  remember (Z.to_nat (Rfc1951.avail (view r))) as n eqn:En. revert r cur En.
  induction n as [n IH] using lt_wf_ind; intros r cur En Hc.
  pose proof (view_range r (cod_good _ _ _ _ _ _ _ _ Hc)) as Hv.
  assert (0 ≤ Rfc1951.avail (view r)) as Ha.
  { pose proof (view_avail r). destruct (cod_good _ _ _ _ _ _ _ _ Hc). lia. }
  destruct (slow r) eqn:Hslow; cycle 1.
  - destruct (fast_codes flush r H pre cur ll nl ld nd Hc Hslow) as (r' & cur' & E & Hcd & Hcase).
    destruct Hcase as [(Hm & ->)|[(Hm & Hr & ->)|(Hm & Hr & -> & Hrest)]].
    + intros _. exists r'. split_and!; [by apply reaches_one|done..].
    + intros _. exists r'. split_and!; [by apply reaches_one|done..].
    + apply (does_codes_reaches flush r r' pre cur'); [by apply reaches_one|done|].
      pose proof (Rfc1951.rest_avail _ _ _ Hrest). eapply IH; [|done|by eapply coding_step]. lia.
  - pose proof (slow_code flush r H pre cur ll nl ld nd Hc Hslow) as Hs. rewrite Rfc1951.codes_eq by done.
    destruct (Rfc1951.code_step ll nl ld nd (H ++ cur) (view r)) as [[b|] s'| |] eqn:Es; simpl in Hs.
    + apply does_codes_room. intros Hroom.
      pose proof (prefix_length _ _ (Rfc1951.codes_prefix ll nl ld nd H (cur ++ b) s')) as Hp.
      assert (zlen (cur ++ b) ≤ Inflate.out r) as Hcb by (unfold zlen in *; lia).
      pose proof Hc as [_ _ _ _ Hput Hout Hleft]. rewrite zlen_app in Hcb.
      destruct Hs as (r' & Hr & Hk & Hp' & Hl' & Hg' & <- & Hb' & Hm'); [lia|].
      assert (coded r r' pre (cur ++ b)) as Hcd.
      { split_and!; [done|by rewrite Hp', Hput, app_assoc|rewrite zlen_app; lia|lia]. }
      apply (does_codes_reaches flush r r' pre (cur ++ b)); [done..|].
      apply Rfc1951.code_step_rest in Es as [Hrest%Rfc1951.rest_avail _].
      eapply IH; [|done|by eapply coding_step]. lia.
    + intros _. destruct Hs as (r' & ? & [Hq ? ? Hb] & ?). exists r'. split_and!; try done.
      * by eapply coding_quiet.
      * split; [done|]. apply Hb. apply Hc.
    + intros _. destruct Hs as (r' & ? & Hq & ?). exists r'. split_and!; try done. by eapply coding_quiet.
    + simpl. intros Hroom. destruct Hc as [? ? ? ? ? Hout ?]. destruct Hs as (r' & ? & Hq & ?); [lia|].
      exists r'. split_and!; try done. by eapply coding_quiet.
Qed.

End FastCodes.
