(* ===== verification/Blocks.v ===== *)
(** * Blocks in inflate()

    The states TYPE and TYPEDO, STORED, COPY_ and COPY, and TABLE, LENLENS and
    CODELENS do what the reference decoder does with the header of a block, its
    stored bytes and its code lengths; with the states of the codes they decode
    the blocks up to the last one. *)

From Stdlib Require Import String.
From S2P Require Import Prelude Inftrees InftreesDecode Inffixed Rfc1951 Symbols InflateState Inffast.
From S2P Require Import Inflate Runs BitReader Window InflateCodes FastCodes.

Module Blocks.
Import InflateState Inflate Runs BitReader Window InflateCodes FastCodes.

(** ** What a block keeps *)

(** The state but for the fields decoding a block changes. *)
Definition frame (s : inflate_state) : inflate_state :=
  State (strm s) HEAD (last s) (wrap_ s) (havedict s) (flags s) (dmax s) (check s) (total s) (head s)
    (wbits s) (wsize s) (whave s) (wnext s) (window s) 0 0 0 0 0 (InCodes 0) (InCodes 0) 0 0
    0 0 0 0 0 [] [] [] (sane s) 0 0.

Record framed (r r' : run) : Prop := {
  framed_state : frame (st r') = frame (st r);
  framed_stream : core_stream (sm r') = core_stream (sm r);
  framed_in : in_ r' = in_ r;
  framed_out : out r' = out r
}.
#[global] Instance framed_preorder : PreOrder framed.
Proof. split; [done|]. intros r1 r2 r3 [] []. split; congruence. Qed.

Lemma kept_framed r r' : kept r r' → framed r r'.
Proof.
  intros [Hs]. split; [|done..]. destruct (st r), (st r'). injection Hs. intros. by subst.
Qed.

(** The sizes of the arrays of the state. *)
Definition arrays (s : inflate_state) : Prop :=
  zlen (lens s) = 320 ∧ zlen (work s) = 288 ∧ zlen (codes s) = 1444.

(** The run is between two parts of a block: the window holds [H], the call has
    written [cur] after [pre]. *)
Record ctx (r : run) (H pre cur : list Z) : Prop := {
  ctx_ready : ready r;
  ctx_holds : holds (st r) H;
  ctx_have : whave (st r) = zlen H;
  ctx_sane : c_true (sane (st r)) = true;
  ctx_arrays : arrays (st r);
  ctx_put : put r = pre ++ cur;
  ctx_out : out r - left_ r = zlen cur;
  ctx_left : 0 ≤ left_ r;
  ctx_ret : ret r = Z_OK
}.

Lemma frame_window s s' H : frame s' = frame s →
  (holds s H → holds s' H) ∧ whave s' = whave s ∧ sane s' = sane s ∧ last s' = last s.
Proof.
  intros E. destruct s, s'. injection E. intros. subst. split_and!; [|done..].
  intros Hh. by eapply holds_ext; [..|exact Hh].
Qed.

(** ** Parts that write nothing *)

Record still (r r' : run) : Prop := {
  still_framed : framed r r';
  still_put : put r' = put r;
  still_left : left_ r' = left_ r
}.
#[global] Instance still_preorder : PreOrder still.
Proof. split; [done|]. intros r1 r2 r3 [] []. split; [by etransitivity|congruence..]. Qed.

(** The reader is at [s] now. *)
Record parsed (r r' : run) (s : Rfc1951.bitstream) : Prop := {
  parsed_still : still r r';
  parsed_ret : ret r' = ret r;
  parsed_ready : ready r';
  parsed_view : view r' = s
}.

Lemma parsed_trans r r1 r2 s1 s2 : parsed r r1 s1 → parsed r1 r2 s2 → parsed r r2 s2.
Proof. intros [] []. split; [by etransitivity|congruence|done..]. Qed.

Lemma ctx_parsed r r' s H pre cur : ctx r H pre cur → parsed r r' s → arrays (st r') → ctx r' H pre cur.
Proof.
  intros [] [[[Hf _ _ ?] ? ?] ? ? ?] ?. destruct (frame_window _ _ H Hf) as (Hh & ? & ? & _).
  split; [done|by apply Hh|congruence|congruence|done|congruence|lia|lia|congruence].
Qed.

(** Where a run that wrote [cur'] ends up. *)
Definition ends (r r' : run) (pre cur' : list Z) : Prop :=
  framed r r' ∧ put r' = pre ++ cur' ∧ left_ r' = out r - zlen cur' ∧ 0 ≤ left_ r'.

Lemma coded_ends r r' pre cur' : coded r r' pre cur' → ends r r' pre cur'.
Proof. intros (? & ? & ? & ?). split; [by apply kept_framed|done]. Qed.

Lemma ends_trans r r1 r2 pre c2 : framed r r1 → ends r1 r2 pre c2 → ends r r2 pre c2.
Proof. intros Hf (Hf2 & ? & ? & ?). rewrite (framed_out _ _ Hf) in *. split_and!; try done. by etransitivity. Qed.

Lemma still_ends r r' H pre cur : ctx r H pre cur → still r r' → ends r r' pre cur.
Proof. intros [] [Hf ? ?]. split_and!; [done|congruence|lia|lia]. Qed.

(** What the rest of a block leads to, by what the reference decoder does. *)
Definition does (flush : Z) (r : run) (H pre : list Z) (o : Rfc1951.outcome) : Prop :=
  match o with
  | Rfc1951.Done cur' s => zlen cur' ≤ out r → ∃ r', reaches flush r r' ∧ framed r r' ∧
      ctx r' H pre cur' ∧ mode (st r') = TYPE ∧ view r' = s
  | Rfc1951.Starved cur' => zlen cur' ≤ out r → ∃ r', leaves flush r r' Leave ∧
      ends r r' pre cur' ∧ ret r' = Z_OK ∧ mode_val (mode (st r')) < mode_val CHECK
  | Rfc1951.Invalid cur' => zlen cur' < out r → ∃ r', reaches flush r r' ∧
      ends r r' pre cur' ∧ mode (st r') = BAD
  end.

Lemma does_reaches flush r r1 H pre o : reaches flush r r1 → framed r r1 → does flush r1 H pre o → does flush r H pre o.
Proof.
  intros Hr Hf. unfold does. rewrite (framed_out _ _ Hf). destruct o; intros HH Hroom.
  - destruct (HH Hroom) as (r2 & ? & ? & ?). exists r2.
    split; [by eapply reaches_trans|]. split; [by etransitivity|done].
  - destruct (HH Hroom) as (r2 & ? & ? & ?). exists r2.
    split; [by eapply leaves_trans|]. split; [by eapply ends_trans|done].
  - destruct (HH Hroom) as (r2 & ? & ? & ?). exists r2.
    split; [by eapply reaches_trans|]. split; [by eapply ends_trans|done].
Qed.

Lemma does_starved flush r r' H pre cur : ctx r H pre cur → step flush r = (r', inr Leave) → still r r' →
  ret r' = ret r → mode (st r') = mode (st r) → mode_val (mode (st r)) < mode_val CHECK →
  does flush r H pre (Rfc1951.Starved cur).
Proof.
  intros Hc E Hs Hr Hm Hv _. exists r'. rewrite Hm, Hr. split_and!; [by apply leaves_now|by eapply still_ends|apply Hc|done].
Qed.

Lemma does_invalid flush r r' H pre cur : ctx r H pre cur → step flush r = (r', inl ()) → still r r' →
  mode (st r') = BAD → does flush r H pre (Rfc1951.Invalid cur).
Proof.
  intros Hc E Hs Hm _. exists r'. split_and!; [by apply reaches_one|by eapply still_ends|done].
Qed.

(** ** Codes *)

Lemma codes_does flush r H pre cur ll nl ld nd : ctx r H pre cur → mode (st r) = LEN →
  len_serves (st r) ll nl → dist_serves (st r) ld nd →
  does flush r H pre (Rfc1951.codes ll nl ld nd H cur (view r)).
Proof.
  intros Hc Hm Hl Hd. pose proof Hc as [[Hg Hb] Hh Hw Hs Ha Hp Ho Hle Hret].
  assert (coding r H pre cur ll nl ld nd) as Hcod by (by split).
  pose proof (codes_run flush r H pre cur ll nl ld nd Hcod) as Hcr.
  destruct (Rfc1951.codes ll nl ld nd H cur (view r)); simpl in *; intros Hroom.
  - destruct (Hcr Hroom) as (r' & ? & (Hk & ? & ? & ?) & ? & ? & ?). exists r'.
    pose proof (kept_framed _ _ Hk) as Hf. destruct (frame_window _ _ H (framed_state _ _ Hf)) as (? & ? & ? & _).
    split_and!; try done. destruct Hk as [Hks ? ? Hko ?]. split; try done; try congruence; [auto| |lia].
    destruct (st r), (st r'). injection Hks. intros. subst. done.
  - destruct (Hcr Hroom) as (r' & ? & Hk & ?). exists r'. split_and!; try done; [by apply coded_ends|].
    destruct Hk as [[? ? ? ? ?] _]. congruence.
  - destruct (Hcr Hroom) as (r' & ? & Hk & ?). exists r'. split_and!; try done. by apply coded_ends.
Qed.

(** ** Stored blocks *)

Lemma get_byte b l : bytes (b :: l) →
  Rfc1951.get 8 (Rfc1951.of_bytes (b :: l)) = Rfc1951.Ok b (Rfc1951.of_bytes l).
Proof.
  intros Hb. inversion Hb as [|? ? Hb8 Hl]; subst. unfold ubits in Hb8. pose proof (zlen_nonneg l).
  unfold Rfc1951.get, Rfc1951.of_bytes, Rfc1951.dropped. cbn [Rfc1951.value Rfc1951.avail].
  rewrite zlen_cons. destruct (Z.ltb_spec (8 * (1 + zlen l)) 8); [lia|].
  cbn [Rfc1951.le_value foldr]. fold (Rfc1951.le_value l).
  rewrite (Z.mul_comm (2 ^ 8)), Z.mod_add, Z.div_add, Z.mod_small, Z.div_small by lia.
  do 2 f_equal. lia.
Qed.

Lemma stored_bytes_eq n out l : bytes l →
  Rfc1951.stored_bytes n out (Rfc1951.of_bytes l)
  = if decide (n ≤ length l)%nat then Rfc1951.Done (out ++ take n l) (Rfc1951.of_bytes (drop n l))
    else Rfc1951.Starved (out ++ l).
Proof.
  intros Hl. revert n out. induction Hl as [|b l Hb Hl IH]; intros n out.
  - destruct n as [|n]; simpl; [by rewrite app_nil_r|by rewrite app_nil_r].
  - destruct n as [|n]; cbn [Rfc1951.stored_bytes].
    { rewrite decide_True by lia. by rewrite take_0, app_nil_r. }
    rewrite get_byte by (by constructor). rewrite IH. simpl.
    destruct (decide (n ≤ length l)%nat).
    + rewrite decide_True by lia. by rewrite <-app_assoc.
    + rewrite decide_False by lia. by rewrite <-app_assoc.
Qed.

(** An empty bit buffer: the input begins at a byte. *)
Lemma view_bytes r : hold r = 0 → bits r = 0 → view r = Rfc1951.of_bytes (nxt r).
Proof. intros Hh Hb. unfold view, Rfc1951.of_bytes. rewrite Hh, Hb. f_equal; lia. Qed.

(** The run with more written and less to read. *)
Definition copied (r : run) (n : Z) : run :=
  r <| put := put r ++ take (Z.to_nat n) (nxt r) |> <| nxt := drop (Z.to_nat n) (nxt r) |>
    <| left_ := left_ r - n |> <| st := (st r) <| length_ := length_ (st r) - n |> |>.

Lemma copy_step flush r : mode (st r) = COPY → length_ (st r) ≠ 0 →
  let copy := Z.min (Z.min (length_ (st r)) (zlen (nxt r))) (left_ r) in
  step flush r = if copy =? 0 then (r, inr Leave) else (copied r copy, inl ()).
Proof.
  intros Hm Hl copy. at_mode Hm. unfold do_COPY. rewrite !bind_gets. unfold c_true.
  destruct (Z.eqb_spec (length_ (st r)) 0); [done|]. cbn [negb]. rewrite !bind_gets.
  assert ((if left_ r <? (if zlen (nxt r) <? length_ (st r) then zlen (nxt r) else length_ (st r))
    then left_ r else if zlen (nxt r) <? length_ (st r) then zlen (nxt r) else length_ (st r)) = copy) as E.
  { unfold copy. destruct (Z.ltb_spec (zlen (nxt r)) (length_ (st r)));
      destruct (Z.ltb_spec (left_ r) (zlen (nxt r))), (Z.ltb_spec (left_ r) (length_ (st r))); lia. }
  cbv zeta. rewrite E. by destruct (copy =? 0).
Qed.

Lemma copied_facts r n H pre cur : ctx r H pre cur → 0 ≤ n ≤ zlen (nxt r) → n ≤ left_ r →
  hold r = 0 → bits r = 0 → framed r (copied r n) ∧
  ctx (copied r n) H pre (cur ++ take (Z.to_nat n) (nxt r)) ∧ hold (copied r n) = 0 ∧ bits (copied r n) = 0.
Proof.
  intros Hc Hn Hl Hh Hb. split; [by split|]. split; [|done].
  destruct Hc as [[[] ] ? ? ? ? ? ? ? ?]. split; try done; cbn.
  - split; [split|]; cbn; [lia|done|by apply Forall_drop|lia].
  - by eapply holds_ext; [..|done].
  - rewrite app_assoc. by f_equal.
  - rewrite zlen_app. unfold zlen in *. rewrite length_take. lia.
  - lia.
Qed.

(** Copying, from an empty bit buffer. *)
Lemma copy_does flush r H pre cur : ctx r H pre cur → mode (st r) = COPY → hold r = 0 → bits r = 0 →
  0 ≤ length_ (st r) →
  does flush r H pre (Rfc1951.stored_bytes (Z.to_nat (length_ (st r))) cur (view r)).
Proof.
  intros Hc Hm Hh Hb Hl. pose proof (ctx_ready _ _ _ _ Hc) as [Hg _]. pose proof (good_bytes _ Hg) as Hby.
  rewrite view_bytes, stored_bytes_eq by done. pose proof (ctx_out _ _ _ _ Hc) as Hout.
  pose proof (zlen_nonneg (nxt r)) as Hz. pose proof (ctx_left _ _ _ _ Hc) as Hleft.
  assert (∀ r', mode (st r') = COPY → length_ (st r') = 0 →
    step flush r' = (r' <| st := (st r') <| mode := TYPE |> |>, inl ())) as Hend.
  { intros r' Hm' Hl'. at_mode Hm'. unfold do_COPY. rewrite !bind_gets, Hl'. done. }
  destruct (decide (Z.to_nat (length_ (st r)) ≤ length (nxt r))%nat) as [Hle|Hgt]; intros Hroom.
  - rewrite zlen_app in Hroom. unfold zlen in Hroom at 2. rewrite length_take in Hroom.
    assert (∃ r', reaches flush r r' ∧ mode (st r') = COPY ∧ length_ (st r') = 0 ∧ framed r r' ∧
      ctx r' H pre (cur ++ take (Z.to_nat (length_ (st r))) (nxt r)) ∧
      view r' = Rfc1951.of_bytes (drop (Z.to_nat (length_ (st r))) (nxt r))) as (r1 & Hr1 & Hm1 & Hl1 & Hf1 & Hc1 & Hv1).
    { destruct (decide (length_ (st r) = 0)) as [E|E].
      { exists r. rewrite E. rewrite take_0, app_nil_r. split_and!; try done; [apply reaches_refl|by apply view_bytes]. }
      pose proof (copy_step flush r Hm E) as Es. cbv zeta in Es.
      replace (Z.min (Z.min (length_ (st r)) (zlen (nxt r))) (left_ r)) with (length_ (st r)) in Es
        by (unfold zlen in *; lia).
      destruct (Z.eqb_spec (length_ (st r)) 0); [done|].
      destruct (copied_facts r (length_ (st r)) H pre cur) as (? & ? & ? & ?); try done; [unfold zlen in *; lia..|].
      exists (copied r (length_ (st r))). split_and!; try done; [by apply reaches_one|cbn; lia|].
      rewrite view_bytes; done. }
    eexists. split; [eapply reaches_trans; [exact Hr1|apply reaches_one, Hend; done]|].
    split; [etransitivity; [exact Hf1|by split]|]. split; [|done].
    destruct Hc1 as [[[]] ? ? ? ? ? ? ? ?]. split; try done. by eapply holds_ext; [..|done].
  - assert (zlen (nxt r) < length_ (st r)) as Hlt by (unfold zlen; lia). rewrite zlen_app in Hroom.
    assert (∃ r', reaches flush r r' ∧ mode (st r') = COPY ∧ length_ (st r') ≠ 0 ∧ framed r r' ∧
      ctx r' H pre (cur ++ nxt r) ∧ nxt r' = [] ∧ 0 ≤ length_ (st r')) as (r1 & Hr1 & Hm1 & Hl1 & Hf1 & Hc1 & Hn1 & Hp1).
    { destruct (decide (zlen (nxt r) = 0)) as [E|E].
      { exists r. assert (nxt r = []) as -> by (destruct (nxt r); [done|rewrite zlen_cons in E; pose proof (zlen_nonneg l); lia]).
        rewrite app_nil_r. split_and!; try done; [apply reaches_refl|lia]. }
      pose proof (copy_step flush r Hm ltac:(lia)) as Es. cbv zeta in Es.
      replace (Z.min (Z.min (length_ (st r)) (zlen (nxt r))) (left_ r)) with (zlen (nxt r)) in Es by lia.
      destruct (Z.eqb_spec (zlen (nxt r)) 0); [done|].
      destruct (copied_facts r (zlen (nxt r)) H pre cur) as (? & Hcc & ? & ?); try done; [lia..|].
      exists (copied r (zlen (nxt r))). unfold zlen in Hcc at 2. rewrite Nat2Z.id, take_ge in Hcc by lia.
      split_and!; try done; [by apply reaches_one|cbn; lia| |cbn; lia].
      cbn. unfold zlen. rewrite Nat2Z.id. by apply drop_ge. }
    exists r1. split; [|split; [|split; [apply Hc1|by rewrite Hm1]]].
    + eapply leaves_trans; [exact Hr1|]. apply leaves_now. rewrite copy_step by done. rewrite Hn1.
      change (zlen (@nil Z)) with 0. pose proof (ctx_left _ _ _ _ Hc1).
      by replace (Z.min (Z.min (length_ (st r1)) 0) (left_ r1)) with 0 by lia.
    + eapply ends_trans; [exact Hf1|]. by eapply still_ends.
Qed.

Lemma BYTEBITS_view r : good r → let b := bits r mod 8 in
  let r' := fed r (nxt r) (hold r ≫ b) (bits r - b) in
  BYTEBITS r = (r', inl ()) ∧ good r' ∧ view r' = Rfc1951.align (view r).
Proof.
  intros Hg b r'. destruct (good_bits _ Hg) as [Hb0 Hb1].
  assert ((bits r .& 7) = b) as E by (unfold b; change 8 with (2 ^ 3); by rewrite <-Z.land_ones by lia).
  pose proof (Z.mod_pos_bound (bits r) 8 ltac:(lia)) as Hm. pose proof (Z.div_mod (bits r) 8 ltac:(lia)) as Hdm.
  pose proof (Z.div_pos (bits r) 8 ltac:(lia) ltac:(lia)).
  destruct (DROPBITS_view r Hg b) as (_ & Hg' & Hv'); [unfold b; lia|].
  split; [|split; [done|]].
  - unfold BYTEBITS, modify. rewrite E. done.
  - unfold r'. rewrite Hv'. unfold Rfc1951.align. f_equal. cbn [Rfc1951.avail view].
    rewrite (Z.mul_comm 8), Z.mod_add by lia. done.
Qed.

(** A failure report. *)
Lemma bad_run m r : ∃ r', bad m r = (r', inl ()) ∧ still r r' ∧ mode (st r') = BAD ∧ ret r' = ret r.
Proof. eexists. split; [done|]. split; [by split|done]. Qed.

Lemma ready_same r r' : nxt r' = nxt r → hold r' = hold r → bits r' = bits r → ready r → ready r'.
Proof. intros En Eh Eb [[] ]. split; [split; congruence|congruence]. Qed.

Lemma ctx_mode r m H pre cur : ctx r H pre cur → ctx (r <| st := (st r) <| mode := m |> |>) H pre cur.
Proof.
  intros [? ? ? ? ? ? ? ? ?]. split; try done; [by apply (ready_same r)|]. by eapply holds_ext; [..|done].
Qed.

Lemma low16 h : (h .& 0xffff) = h mod 2 ^ 16.
Proof. by rewrite <-Z.land_ones by lia. Qed.

Section Stored.
  Context (flush : Z) (no_trees : (flush =? Z_TREES) = false).

Lemma stored_header s : 0 ≤ Rfc1951.avail s →
  (len ← Rfc1951.get 16; nlen ← Rfc1951.get 16; mret (len, nlen)) s
  = if Rfc1951.avail s <? 32 then Rfc1951.Short
    else Rfc1951.Ok (Rfc1951.value s mod 2 ^ 16, (Rfc1951.value s / 2 ^ 16) mod 2 ^ 16) (Rfc1951.dropped 32 s).
Proof.
  intros Ha. unfold mbind, Rfc1951.P_bind, Rfc1951.get, mret, Rfc1951.P_ret.
  destruct (Z.ltb_spec (Rfc1951.avail s) 32), (Z.ltb_spec (Rfc1951.avail s) 16); try done; try lia;
    rewrite avail_dropped.
  - by destruct (Z.ltb_spec (Rfc1951.avail s - 16) 16); [|lia].
  - destruct (Z.ltb_spec (Rfc1951.avail s - 16) 16); [lia|]. by rewrite Rfc1951.dropped_dropped by lia.
Qed.

Lemma stored_does r H pre cur : ctx r H pre cur → mode (st r) = STORED →
  does flush r H pre (Rfc1951.stored cur (view r)).
Proof.
  intros Hc Hm. pose proof (ctx_ready _ _ _ _ Hc) as [Hg Hb].
  destruct (BYTEBITS_view r Hg) as (E1 & Hg1 & Hv1). set (r1 := fed _ _ _ _) in *.
  destruct (NEEDBITS_reads 32 r1 Hg1) as (nx & h & b & E2 & Hg2 & Hv2 & Hmod & Hle & Hneed); [lia| |].
  { right. split; [lia|]. cbn. rewrite Zminus_mod_idemp_r, Z.sub_diag. done. }
  pose proof (view_avail r1) as Hav. destruct (good_bits _ Hg1).
  unfold Rfc1951.stored. rewrite <-Hv1, stored_header by lia.
  set (r2 := fed r1 nx h b) in *. assert (still r r2) as Hst by (by split).
  assert (∀ k : M unit, (BYTEBITS;; NEEDBITS 32;; k) r
    = if Rfc1951.avail (view r1) <? 32 then (r2, inr Leave) else k r2) as Eb.
  { intros k. rewrite (bind_inl _ _ _ _ _ E1). unfold mbind, M_bind. rewrite E2. by case_match. }
  assert (step flush r = do_STORED flush r) as Estep by (by at_mode Hm).
  unfold do_STORED in Estep. rewrite Eb in Estep.
  destruct (Z.ltb_spec (Rfc1951.avail (view r1)) 32) as [Hshort|Hok].
  { intros _. exists r2. split_and!; [by apply leaves_now|by eapply still_ends|apply Hc|by change (mode (st r2)) with (mode (st r)); rewrite Hm]. }
  specialize (Hneed Hok). rewrite bind_gets in Estep. cbv beta in Estep.
  assert (b = 32) as ->.
  { destruct (good_bits _ Hg2) as [_ Hb2]. cbn in Hb2. lia. }
  pose proof (view_hold r2 Hg2) as Hh. change (bits r2) with 32 in Hh. rewrite Hv2 in Hh.
  set (V := Rfc1951.value (view r1)) in *.
  assert ((hold r2 .& 0xffff) = V mod 2 ^ 16) as El by (rewrite low16, Hh; apply mod_mod_pow2; lia).
  assert ((hold r2 ≫ 16) = (V / 2 ^ 16) mod 2 ^ 16) as En.
  { rewrite Hh, Z.shiftr_div_pow2 by lia. change (2 ^ 32) with (2 ^ (16 + 16)).
    rewrite mod_pow2_split, (Z.mul_comm (2 ^ 16)), Z.div_add, Z.div_small by (lia || apply Z.mod_pos_bound; lia). lia. }
  rewrite El, En in Estep.
  destruct (V mod 2 ^ 16 =? ((V / 2 ^ 16) mod 2 ^ 16 .^ 0xffff)) eqn:Ec; cbn [negb] in Estep; cycle 1.
  { intros _. destruct (bad_run "invalid stored block lengths" r2) as (r3 & E3 & Hs3 & Hm3 & _).
    exists r3. split; [apply reaches_one; by rewrite Estep|]. split; [|done].
    eapply still_ends; [done|by etransitivity]. }
  set (r3 := r2 <| st := (st r2) <| length_ := V mod 2 ^ 16 |> <| mode := COPY_ |> |> <| hold := 0 |> <| bits := 0 |>).
  assert (step flush r = (r3, inl ())) as Es3.
  { rewrite Estep, bind_upd. unfold INITBITS, modify. rewrite no_trees. done. }
  set (r4 := r3 <| st := (st r3) <| mode := COPY |> |>).
  assert (step flush r3 = (r4, inl ())) as Es4 by done.
  assert (view r4 = Rfc1951.dropped 32 (view r1)) as Hv4.
  { rewrite view_bytes by done. change (nxt r4) with (nxt r2). rewrite <-Hv2. unfold Rfc1951.dropped, Rfc1951.of_bytes, view.
    change (bits r2) with 32. cbn [Rfc1951.value Rfc1951.avail]. f_equal; [|lia].
    rewrite (Z.mul_comm (2 ^ 32)), Z.div_add by lia. destruct Hg2 as [_ Hh2 _]. change (bits r2) with 32 in Hh2.
    rewrite Z.div_small by done. done. }
  assert (framed r r4) as Hf4 by (by split).
  apply (does_reaches flush r r4); [|done|].
  { eapply reaches_step; [exact Es3|]. by apply reaches_one. }
  rewrite <-Hv4. replace (V mod 2 ^ 16) with (length_ (st r4)) by done.
  apply copy_does; try done; [|apply Z.mod_pos_bound; lia].
  destruct Hc. destruct (frame_window _ _ H (framed_state _ _ Hf4)) as (Hh4 & ? & ? & _).
  split; try done; [|by apply Hh4]. split; [split; [cbn; lia|cbn; lia|apply Hg2]|cbn; lia].
Qed.

End Stored.

(** ** The header of a block *)

Lemma NEEDBITS_cases n r (k : M unit) : ready r → 0 ≤ n ≤ 25 →
  ∃ nx h b, let r' := fed r nx h b in
    (NEEDBITS n;; k) r = (if Rfc1951.avail (view r) <? n then (r', inr Leave) else k r') ∧
    good r' ∧ view r' = view r ∧ (n ≤ Rfc1951.avail (view r) → n ≤ b ≤ n + 7).
Proof.
  intros [Hg Hb] Hn. destruct (NEEDBITS_reads n r Hg) as (nx & h & b & E & Hg' & Hv' & _ & _ & Hneed); [lia|lia|].
  exists nx, h, b. split; [|split_and!; try done; intros; specialize (Hneed ltac:(done)); lia].
  unfold mbind, M_bind. rewrite E. by case_match.
Qed.

(** The state once the header of a block of type [t] was read. *)
Definition typed (l t : Z) (s : inflate_state) : inflate_state :=
  let s := s <| last := l |> in
  if t =? 0 then s <| mode := STORED |>
  else if t =? 1 then s <| lencode := LenFix |> <| lenbits := 9 |> <| distcode := DistFix |>
                        <| distbits := 5 |> <| mode := LEN_ |>
  else s <| mode := if t =? 2 then TABLE else BAD |>.

Definition header : Rfc1951.P (Z * Z) := last ← Rfc1951.get 1; type ← Rfc1951.get 2; mret (last, type).

Lemma block_header_eq s : 0 ≤ Rfc1951.avail s →
  header s = if Rfc1951.avail s <? 3 then Rfc1951.Short
    else Rfc1951.Ok (Rfc1951.value s mod 2 ^ 1, (Rfc1951.value s / 2 ^ 1) mod 2 ^ 2) (Rfc1951.dropped 3 s).
Proof.
  intros Ha. unfold header, mbind, Rfc1951.P_bind, Rfc1951.get, mret, Rfc1951.P_ret.
  destruct (Z.ltb_spec (Rfc1951.avail s) 3), (Z.ltb_spec (Rfc1951.avail s) 1); try done; try lia;
    rewrite avail_dropped.
  - by destruct (Z.ltb_spec (Rfc1951.avail s - 1) 2); [|lia].
  - destruct (Z.ltb_spec (Rfc1951.avail s - 1) 2); [lia|]. by rewrite Rfc1951.dropped_dropped by lia.
Qed.

Definition no_stop (flush : Z) : Prop := flush ≠ Z_BLOCK ∧ flush ≠ Z_TREES.

Lemma type_step flush r : no_stop flush → mode (st r) = TYPE ∨ mode (st r) = TYPEDO →
  step flush r = do_TYPEDO flush r.
Proof.
  intros [Hb Ht] [Hm|Hm]; at_mode Hm; [|done]. unfold do_TYPE.
  by destruct (Z.eqb_spec flush Z_BLOCK), (Z.eqb_spec flush Z_TREES).
Qed.

Lemma header_step flush r : no_stop flush → mode (st r) = TYPE ∨ mode (st r) = TYPEDO →
  ready r → last (st r) = 0 →
  match header (view r) with
  | Rfc1951.Short => ∃ nx h b, step flush r = (fed r nx h b, inr Leave)
  | Rfc1951.Bad => False
  | Rfc1951.Ok (l, t) s => ∃ nx h b m, let r' := fed (r <| st := typed l t (st r) |> <| sm := m |>) nx h b in
      step flush r = (r', inl ()) ∧ core_stream m = core_stream (sm r) ∧ ready r' ∧ view r' = s ∧
      0 ≤ t < 4 ∧ 0 ≤ l < 2
  end.
Proof.
  intros Hfl Hm Hrdy Hlast. rewrite (type_step flush r Hfl Hm). unfold do_TYPEDO. rewrite bind_gets, Hlast.
  change (c_true 0) with false. cbv iota. pose proof Hrdy as [Hg Hb]. pose proof (view_avail r). destruct (good_bits _ Hg).
  rewrite block_header_eq by lia.
  match goal with |- context [(NEEDBITS 3;; ?k) r] =>
    destruct (NEEDBITS_cases 3 r k Hrdy) as (nx & h & b & E & Hg1 & Hv1 & Hneed); [lia|]; rewrite E end.
  destruct (Z.ltb_spec (Rfc1951.avail (view r)) 3) as [|Hok]; [by exists nx, h, b|]. specialize (Hneed Hok).
  set (r1 := fed r nx h b) in *.
  rewrite (bind_inl _ _ _ _ _ (BITS_view r1 Hg1 1 ltac:(cbn; lia))). cbv beta. rewrite bind_upd, Hv1.
  set (V := Rfc1951.value (view r)). set (r2 := r1 <| st := _ |>).
  assert (good r2) as Hg2 by (destruct Hg1; by split).
  destruct (DROPBITS_view r2 Hg2 1) as (E3 & Hg3 & Hv3); [cbn; lia|].
  rewrite (bind_inl _ _ _ _ _ E3). cbv beta. set (r3 := fed r2 _ _ _) in *.
  assert (view r3 = Rfc1951.dropped 1 (view r)) as Hv3' by (rewrite <-Hv1; exact Hv3).
  rewrite (bind_inl _ _ _ _ _ (BITS_view r3 Hg3 2 ltac:(cbn; lia))). cbv beta. rewrite Hv3'.
  cbn [Rfc1951.value Rfc1951.dropped]. fold V. set (t := (V / 2 ^ 1) mod 2 ^ 2).
  assert (0 ≤ t < 4) as Ht by (apply (Z.mod_pos_bound _ 4); lia).
  assert (0 ≤ V mod 2 ^ 1 < 2) as Hl by (apply (Z.mod_pos_bound _ 2); lia).
  match goal with |- context [(?k;; DROPBITS 2) r3] =>
    assert (∃ m, k r3 = (r3 <| st := typed (V mod 2 ^ 1) t (st r) |> <| sm := m |>, inl ()) ∧
      core_stream m = core_stream (sm r)) as (m & Ek & Em) end.
  { unfold typed. destruct Hfl as [_ Hft]. destruct (Z.eqb_spec flush Z_TREES); [done|].
    destruct (Z.eqb_spec t 0); [by eexists|]. destruct (Z.eqb_spec t 1); [by eexists|].
    destruct (Z.eqb_spec t 2); by eexists. }
  rewrite (bind_inl _ _ _ _ _ Ek). set (r4 := r3 <| st := _ |> <| sm := m |>).
  assert (good r4) as Hg4 by (destruct Hg3; by split).
  destruct (DROPBITS_view r4 Hg4 2) as (E5 & Hg5 & Hv5); [cbn; lia|].
  eexists _, _, _, m. split; [exact E5|]. split; [done|]. split; [split; [exact Hg5|cbn; lia]|].
  split; [|done]. change (view r4) with (view r3) in Hv5. rewrite Hv3', Rfc1951.dropped_dropped in Hv5 by lia. exact Hv5.
Qed.

End Blocks.
