(* ===== verification/Dynamic.v ===== *)
(** * The codes of a dynamic block in inflate()

    The states TABLE, LENLENS and CODELENS read the code lengths the reference
    decoder reads, refuse what it refuses, and build tables that serve the two
    codes of the block. *)

From Stdlib Require Import String.
From S2P Require Import Prelude Inftrees InftreesDecode Rfc1951 Symbols InflateState Inffast.
From S2P Require Import Inflate Runs BitReader Window InflateCodes FastCodes Blocks.

Module Dynamic.
Import InflateState Inflate Runs BitReader Window InflateCodes FastCodes Blocks.

(** ** TABLE *)

Definition sizes : Rfc1951.P (Z * Z * Z) :=
  hlit ← Rfc1951.get 5; hdist ← Rfc1951.get 5; hclen ← Rfc1951.get 4; mret (hlit + 257, hdist + 1, hclen + 4).

Lemma sizes_eq s : 0 ≤ Rfc1951.avail s → let V := Rfc1951.value s in
  sizes s = if Rfc1951.avail s <? 14 then Rfc1951.Short
    else Rfc1951.Ok (V mod 2 ^ 5 + 257, (V / 2 ^ 5) mod 2 ^ 5 + 1, (V / 2 ^ 10) mod 2 ^ 4 + 4)
           (Rfc1951.dropped 14 s).
Proof.
  intros Ha. unfold sizes, mbind, Rfc1951.P_bind, Rfc1951.get, mret, Rfc1951.P_ret.
  destruct (Z.ltb_spec (Rfc1951.avail s) 5), (Z.ltb_spec (Rfc1951.avail s) 14); try done; try lia;
    rewrite avail_dropped.
  - destruct (Z.ltb_spec (Rfc1951.avail s - 5) 5); [done|]. rewrite !avail_dropped.
    by destruct (Z.ltb_spec (Rfc1951.avail s - 5 - 5) 4); [|lia].
  - destruct (Z.ltb_spec (Rfc1951.avail s - 5) 5); [lia|]. rewrite !avail_dropped.
    destruct (Z.ltb_spec (Rfc1951.avail s - 5 - 5) 4); [lia|].
    rewrite !Rfc1951.dropped_dropped by lia.
    done.
Qed.

Definition sized (nl nd nc : Z) (s : inflate_state) : inflate_state :=
  s <| nlen := nl |> <| ndist := nd |> <| ncode := nc |> <| have := 0 |> <| mode := LENLENS |>.

Lemma table_step flush r : mode (st r) = TABLE → ready r →
  match sizes (view r) with
  | Rfc1951.Short => ∃ nx h b, step flush r = (fed r nx h b, inr Leave)
  | Rfc1951.Bad => False
  | Rfc1951.Ok (nl, nd, nc) s => 257 ≤ nl ∧ 1 ≤ nd ∧ 4 ≤ nc ≤ 19 ∧
      if (286 <? nl) || (30 <? nd) then ∃ r', step flush r = (r', inl ()) ∧ still r r' ∧ mode (st r') = BAD
      else ∃ nx h b, let r' := fed (r <| st := sized nl nd nc (st r) |>) nx h b in
        step flush r = (r', inl ()) ∧ ready r' ∧ view r' = s
  end.
Proof.
  intros Hm Hrdy. at_mode Hm. unfold do_TABLE. pose proof Hrdy as [Hg Hb].
  pose proof (view_avail r). destruct (good_bits _ Hg). rewrite sizes_eq by lia.
  match goal with |- context [(NEEDBITS 14;; ?k) r] =>
    destruct (NEEDBITS_cases 14 r k Hrdy) as (nx & h & b & E & Hg1 & Hv1 & Hneed); [lia|]; rewrite E end.
  destruct (Z.ltb_spec (Rfc1951.avail (view r)) 14) as [|Hok]; [by exists nx, h, b|]. specialize (Hneed Hok).
  set (r1 := fed r nx h b) in *. set (V := Rfc1951.value (view r)).
  pose proof (Z.mod_pos_bound V (2 ^ 5) ltac:(lia)). pose proof (Z.mod_pos_bound (V / 2 ^ 5) (2 ^ 5) ltac:(lia)).
  pose proof (Z.mod_pos_bound (V / 2 ^ 10) (2 ^ 4) ltac:(lia)). split; [lia|]. split; [lia|]. split; [lia|].
  rewrite (bind_inl _ _ _ _ _ (BITS_view r1 Hg1 5 ltac:(cbn; lia))). cbv beta. rewrite bind_upd, Hv1. fold V.
  match goal with |- context [(DROPBITS 5;; _) ?x] => set (r2 := x) end.
  assert (good r2) as Hg2 by (destruct Hg1; by split).
  destruct (DROPBITS_view r2 Hg2 5) as (E3 & Hg3 & Hv3); [cbn; lia|].
  rewrite (bind_inl _ _ _ _ _ E3). cbv beta. set (r3 := fed r2 _ _ _) in *.
  assert (view r3 = Rfc1951.dropped 5 (view r)) as Hv3' by (rewrite <-Hv1; exact Hv3).
  rewrite (bind_inl _ _ _ _ _ (BITS_view r3 Hg3 5 ltac:(cbn; lia))). cbv beta. rewrite bind_upd, Hv3'.
  cbn [Rfc1951.value Rfc1951.dropped]. fold V.
  match goal with |- context [(DROPBITS 5;; _) ?x] => set (r4 := x) end.
  assert (good r4) as Hg4 by (destruct Hg3; by split).
  destruct (DROPBITS_view r4 Hg4 5) as (E5 & Hg5 & Hv5); [cbn; lia|].
  rewrite (bind_inl _ _ _ _ _ E5). cbv beta. set (r5 := fed r4 _ _ _) in *.
  assert (view r5 = Rfc1951.dropped 10 (view r)) as Hv5'.
  { rewrite Hv5. change (view r4) with (view r3). rewrite Hv3'. by rewrite Rfc1951.dropped_dropped by lia. }
  rewrite (bind_inl _ _ _ _ _ (BITS_view r5 Hg5 4 ltac:(cbn; lia))). cbv beta. rewrite bind_upd, Hv5'.
  cbn [Rfc1951.value Rfc1951.dropped]. fold V.
  match goal with |- context [(DROPBITS 4;; _) ?x] => set (r6 := x) end.
  assert (good r6) as Hg6 by (destruct Hg5; by split).
  destruct (DROPBITS_view r6 Hg6 4) as (E7 & Hg7 & Hv7); [cbn; lia|].
  rewrite (bind_inl _ _ _ _ _ E7). cbv beta. set (r7 := fed r6 _ _ _) in *. rewrite bind_gets. cbv beta.
  assert (view r7 = Rfc1951.dropped 14 (view r)) as Hv7'.
  { rewrite Hv7. change (view r6) with (view r5). rewrite Hv5'. by rewrite Rfc1951.dropped_dropped by lia. }
  change (nlen (st r7)) with (V mod 2 ^ 5 + 257). change (ndist (st r7)) with ((V / 2 ^ 5) mod 2 ^ 5 + 1).
  destruct ((286 <? V mod 2 ^ 5 + 257) || (30 <? (V / 2 ^ 5) mod 2 ^ 5 + 1)).
  - destruct (bad_run "too many length or distance symbols" r7) as (r8 & E8 & Hs8 & Hm8 & _).
    exists r8. split; [exact E8|]. split; [|done]. etransitivity; [|exact Hs8]. by split.
  - eexists nx, _, _. split; [done|]. split; [split|].
    + destruct Hg7. by split.
    + cbn. lia.
    + exact Hv7'.
Qed.

(** ** LENLENS *)

(** The state with other code lengths, [k] of them read. *)
Definition with_lens (s : inflate_state) (ls : list Z) (k : Z) : inflate_state :=
  s <| lens := ls |> <| have := k |>.
Definition lensed (r : run) (ls : list Z) (k : Z) : run := r <| st := with_lens (st r) ls k |>.

Lemma lensed_same r : lensed r (lens (st r)) (have (st r)) = r.
Proof. by destruct r as [[] ]. Qed.

(** [ls] has the lengths of the first [k] symbols in the order of the format. *)
Record agree (k : Z) (ls cl : list Z) : Prop := {
  agree_size : zlen ls = 320;
  agree_cl : zlen cl = 19;
  agree_read : ∀ i, 0 ≤ i < k → ls.[order.[i]] = cl.[order.[i]];
  agree_rest : ∀ i, k ≤ i < 19 → cl.[order.[i]] = 0;
  agree_range : ∀ j, 0 ≤ j < 19 → 0 ≤ cl.[j] ≤ 7
}.

Lemma order_range i : 0 ≤ i < 19 → 0 ≤ order.[i] < 19.
Proof.
  intros Hi. assert (forall_range (λ i, (0 <=? order.[i]) && (order.[i] <? 19)) 0 19 = true) as Hc by done.
  apply (forall_range_spec _ _ _ i) in Hc; [|lia]. cbv beta in Hc. lia.
Qed.

Lemma order_inj i j : 0 ≤ i < 19 → 0 ≤ j < 19 → order.[i] = order.[j] → i = j.
Proof.
  intros Hi Hj. assert (forall_range (λ i, forall_range (λ j, (i =? j) || negb (order.[i] =? order.[j])) 0 19) 0 19 = true)
    as Hc by (vm_compute; reflexivity).
  apply (forall_range_spec _ _ _ i) in Hc; [|lia]. apply (forall_range_spec _ _ _ j) in Hc; [|lia].
  cbv beta in Hc. lia.
Qed.

Lemma order_onto j : 0 ≤ j < 19 → ∃ i, 0 ≤ i < 19 ∧ order.[i] = j.
Proof.
  intros Hj. assert (forall_range (λ j, existsb (λ i, order.[i] =? j) (seqZ 0 19)) 0 19 = true) as Hc by done.
  apply (forall_range_spec _ _ _ j) in Hc; [|lia]. apply existsb_exists in Hc as (i & Hi%list_elem_of_In%elem_of_seqZ & E).
  exists i. lia.
Qed.

Lemma agree_put k ls cl b : agree k ls cl → 0 ≤ k < 19 → 0 ≤ b < 2 ^ 3 →
  agree (k + 1) ls.[order.[k] <- b] cl.[order.[k] <- b].
Proof.
  intros [Hs Hc Hr Hz Hb] Hk Hb3. pose proof (order_range k Hk). split; try (by rewrite zlen_aset).
  - intros i Hi. destruct (decide (i = k)) as [->|Hne].
    + by rewrite !aget_aset_eq by lia.
    + assert (order.[k] ≠ order.[i]) by (intros E%order_inj; lia). pose proof (order_range i).
      rewrite !aget_aset_ne by lia. apply Hr. lia.
  - intros i Hi. assert (order.[k] ≠ order.[i]) by (intros E%order_inj; lia). pose proof (order_range i).
    rewrite aget_aset_ne by lia. apply Hz. lia.
  - intros j Hj. destruct (decide (order.[k] = j)) as [<-|Hne].
    + rewrite aget_aset_eq by lia. lia.
    + rewrite aget_aset_ne by lia. by apply Hb.
Qed.

(** Three bits are read for each symbol. *)
Lemma read_lenlens_run fuel r cl : ready r → let k := have (st r) in let nc := ncode (st r) in
  0 ≤ k → nc ≤ 19 → k ≤ nc → nc - k < Z.of_nat fuel → agree k (lens (st r)) cl →
  match Rfc1951.read_cl (take (Z.to_nat (nc - k)) (drop (Z.to_nat k) order)) cl (view r) with
  | Rfc1951.Short => ∃ ls k nx h b, read_lenlens fuel r = (fed (lensed r ls k) nx h b, inr Leave)
  | Rfc1951.Bad => False
  | Rfc1951.Ok cl' s => ∃ ls nx h b, let r' := fed (lensed r ls nc) nx h b in
      read_lenlens fuel r = (r', inl ()) ∧ ready r' ∧ view r' = s ∧ agree nc ls cl'
  end.
Proof.
  revert r cl. induction fuel as [|fuel IH]; intros r cl Hrdy k nc Hk Hnc Hkn Hf Ha; [lia|].
  cbn [read_lenlens]. rewrite bind_gets. cbv beta. fold k nc.
  destruct (Z.ltb_spec k nc) as [Hlt|Hge]; cycle 1.
  { replace (nc - k) with 0 by lia. rewrite take_0. cbn [Rfc1951.read_cl].
    exists (lens (st r)), (nxt r), (hold r), (bits r). assert (k = nc) as E by lia.
    assert (fed (lensed r (lens (st r)) nc) (nxt r) (hold r) (bits r) = r) as Er.
    { rewrite <-E. unfold k. by rewrite lensed_same, fed_same. }
    rewrite Er. split_and!; try done. by rewrite <-E. }
  assert (take (Z.to_nat (nc - k)) (drop (Z.to_nat k) order)
    = order.[k] :: take (Z.to_nat (nc - (k + 1))) (drop (Z.to_nat (k + 1)) order)) as ->.
  { replace (Z.to_nat (nc - k)) with (S (Z.to_nat (nc - (k + 1)))) by lia.
    replace (Z.to_nat (k + 1)) with (S (Z.to_nat k)) by lia.
    destruct (lookup_lt_is_Some_2 order (Z.to_nat k)) as [x Hx]; [simpl; lia|].
    rewrite (drop_S _ x) by done. simpl. f_equal. unfold aget. by rewrite (list_lookup_total_correct _ _ x). }
  cbn [Rfc1951.read_cl]. unfold mbind at 1, Rfc1951.P_bind at 1, Rfc1951.get at 1. pose proof Hrdy as [Hg Hb].
  match goal with |- context [(NEEDBITS 3;; ?k) r] =>
    destruct (NEEDBITS_cases 3 r k Hrdy) as (nx & h & b & E & Hg1 & Hv1 & Hneed); [lia|]; rewrite E end.
  destruct (Z.ltb_spec (Rfc1951.avail (view r)) 3) as [|Hok].
  { exists (lens (st r)), k, nx, h, b. unfold k. by rewrite lensed_same. }
  specialize (Hneed Hok). set (r1 := fed r nx h b) in *.
  rewrite (bind_inl _ _ _ _ _ (BITS_view r1 Hg1 3 ltac:(cbn; lia))). cbv beta. rewrite Hv1.
  set (x := Rfc1951.value (view r) mod 2 ^ 3). assert (0 ≤ x < 2 ^ 3) as Hx by (apply Z.mod_pos_bound; lia).
  unfold put_order. rewrite bind_upd.
  change (lens (st r1)) with (lens (st r)). change (have (st r1)) with k.
  set (r2 := r1 <| st := _ |>). assert (good r2) as Hg2 by (destruct Hg1; by split).
  destruct (DROPBITS_view r2 Hg2 3) as (E3 & Hg3 & Hv3); [cbn; lia|].
  rewrite (bind_inl _ _ _ _ _ E3). cbv beta. set (r3 := fed r2 _ _ _) in *.
  assert (view r3 = Rfc1951.dropped 3 (view r)) as Hv3' by (rewrite <-Hv1; exact Hv3).
  specialize (IH r3 cl.[order.[k] <- x]). cbv zeta in IH.
  change (have (st r3)) with (k + 1) in IH. change (ncode (st r3)) with nc in IH. rewrite Hv3' in IH.
  assert (ready r3) as Hrdy3 by (split; [done|cbn; lia]).
  specialize (IH Hrdy3 ltac:(lia) Hnc ltac:(lia) ltac:(lia) (agree_put _ _ _ _ Ha ltac:(lia) Hx)).
  destruct (Rfc1951.read_cl _ _ _) as [cl' s| |]; [..|done].
  - destruct IH as (ls & nx' & h' & b' & E' & ? & ? & ?). exists ls, nx', h', b'. done.
  - destruct IH as (ls & k' & nx' & h' & b' & E'). exists ls, k', nx', h', b'. done.
Qed.

(** The symbols that were not sent have length zero. *)
Lemma zero_fill s ls cl k : 0 ≤ k ≤ 19 → agree k ls cl →
  ∃ ls', while 20 (λ s, have s <? 19)
      (λ s, s <| lens := (lens s).[order.[have s] <- 0] |> <| have := have s + 1 |>) (with_lens s ls k)
    = with_lens s ls' 19 ∧ zlen ls' = 320 ∧ ∀ j, 0 ≤ j < 19 → ls'.[j] = cl.[j].
Proof.
  intros Hk Ha.
  destruct (while_rule (λ s', ∃ ls k, s' = with_lens s ls k ∧ 0 ≤ k ≤ 19 ∧ agree k ls cl)
    (λ s', Z.to_nat (19 - have s')) 20 (λ s, have s <? 19)
    (λ s, s <| lens := (lens s).[order.[have s] <- 0] |> <| have := have s + 1 |>) (with_lens s ls k))
    as [(ls' & k' & E & Hk' & Ha') Hstop].
  - intros s' (l & i & -> & Hi & Hag) Hc. change (have (with_lens s l i)) with i in *. split; [|cbn; lia].
    exists l.[order.[i] <- 0], (i + 1). split; [done|]. split; [lia|].
    pose proof (agree_put i l cl 0 Hag ltac:(lia) ltac:(lia)) as Hp.
    assert (cl.[order.[i] <- 0] = cl) as E0.
    { pose proof (order_range i ltac:(lia)). apply list_eq_aget; [by rewrite zlen_aset|].
      intros j Hj. rewrite zlen_aset in Hj. destruct (decide (order.[i] = j)) as [<-|].
      - rewrite aget_aset_eq by lia. symmetry. apply (agree_rest _ _ _ Hag). lia.
      - by rewrite aget_aset_ne by lia. }
    by rewrite E0 in Hp.
  - by exists ls, k.
  - cbn. lia.
  - rewrite E in Hstop |- *. change (have (with_lens s ls' k')) with k' in Hstop.
    assert (k' = 19) as -> by lia. exists ls'. destruct Ha' as [Hz _ Hr _ _]. split_and!; try done.
    intros j Hj. destruct (order_onto j Hj) as (i & Hi & <-). by apply Hr.
Qed.

(** ** Building a table *)

Lemma build_table_run type ls n b set_b r :
  InftreesDecode.table_args type ls n (codes (st r)) (next (st r)) b (work (st r)) →
  InftreesDecode.inflate_call type n b →
  ∃ t, Inftrees.inflate_table type ls n (codes (st r)) (next (st r)) b (work (st r)) = Some t ∧
    build_table type ls n b set_b r
    = (r <| st := set_b (Inftrees.rbits t) ((st r) <| codes := Inftrees.table t |>
             <| next := next (st r) + Inftrees.advance t |> <| work := Inftrees.rwork t |>) |>
         <| ret := Inftrees.ret t |>, inl (Inftrees.ret t)) ∧
    zlen (Inftrees.rwork t) = zlen (work (st r)) ∧
    (if Rfc1951.acceptable type ls n then
       Inftrees.ret t = 0 ∧ zlen (Inftrees.table t) = zlen (codes (st r)) ∧
       0 < Inftrees.advance t ≤ InftreesDecode.room type b ∧
       (∀ j, 0 ≤ j → j < next (st r) ∨ next (st r) + InftreesDecode.room type b ≤ j →
          (Inftrees.table t).[j] = (codes (st r)).[j])
     else c_true (Inftrees.ret t) = true).
Proof.
  intros Hargs Hcall. destruct (InftreesDecode.inflate_table_spec _ _ _ _ _ _ _ Hargs) as (t & Et & Hw & Hcase).
  exists t. split; [done|]. split; [|split; [done|]].
  { unfold build_table. rewrite bind_gets, Et. done. }
  pose proof (InftreesDecode.args_lens _ _ _ _ _ _ _ Hargs) as Hok.
  destruct Hcase as [(Hret & Href & _)|[(_ & _ & _ & Hnc)|(Hret & Href & Hz & _ & Hadv & Hfr & _)]]; [|destruct (Hnc Hcall)|].
  - rewrite (proj2 (Symbols.acceptable_spec type ls n Hok)) by done. by rewrite Hret.
  - destruct (Rfc1951.acceptable type ls n) eqn:E; [done|]. by apply Symbols.acceptable_spec in E.
Qed.

(** ** The whole of LENLENS *)

Lemma lenlens_step flush r : mode (st r) = LENLENS → ready r → arrays (st r) → have (st r) = 0 →
  4 ≤ ncode (st r) ≤ 19 → ret r = Z_OK →
  match Rfc1951.read_cl (take (Z.to_nat (ncode (st r))) Rfc1951.order) (replicate 19 0) (view r) with
  | Rfc1951.Short => ∃ r', step flush r = (r', inr Leave) ∧ still r r' ∧ ret r' = ret r ∧ mode (st r') = LENLENS
  | Rfc1951.Bad => False
  | Rfc1951.Ok cl s =>
      if Rfc1951.acceptable Inftrees.CODES cl 19 then ∃ r' ls, step flush r = (r', inl ()) ∧ parsed r r' s ∧
        arrays (st r') ∧ mode (st r') = CODELENS ∧ have (st r') = 0 ∧ nlen (st r') = nlen (st r) ∧
        ndist (st r') = ndist (st r) ∧ lencode (st r') = InCodes 0 ∧
        Symbols.serves Inftrees.CODES ls 19 (codes (st r')) 0 (lenbits (st r')) ∧
        ∀ j, 0 ≤ j < 19 → ls.[j] = cl.[j]
      else ∃ r', step flush r = (r', inl ()) ∧ still r r' ∧ mode (st r') = BAD
  end.
Proof.
  intros Hm Hrdy (Hlz & Hwz & Hcz) Hh Hnc Hret. at_mode Hm. unfold do_LENLENS.
  assert (agree (have (st r)) (lens (st r)) (replicate 19 0)) as Ha.
  { rewrite Hh. split; [done|done|lia|intros i Hi|intros i Hi].
    - pose proof (order_range i Hi). unfold aget at 1. by rewrite lookup_total_replicate_2 by lia.
    - unfold aget. rewrite lookup_total_replicate_2 by lia. lia. }
  pose proof (read_lenlens_run 20 r (replicate 19 0) Hrdy) as Hr. cbv zeta in Hr. rewrite Hh in Hr.
  specialize (Hr ltac:(lia) ltac:(lia) ltac:(lia) ltac:(lia)). rewrite <-Hh in Hr at 1. specialize (Hr Ha).
  rewrite Z.sub_0_r in Hr. change (drop (Z.to_nat 0) order) with Rfc1951.order in Hr.
  destruct (Rfc1951.read_cl _ _ _) as [cl s| |]; [..|done]; cycle 1.
  { destruct Hr as (ls & k & nx & h & b & E). rewrite (bind_inr _ _ _ _ _ E).
    eexists. split; [done|]. by split_and!. }
  destruct Hr as (ls & nx & h & b & E & Hrdy1 & Hv1 & Hag). rewrite (bind_inl _ _ _ _ _ E). cbv beta.
  rewrite bind_upd. change (st (fed (lensed r ls (ncode (st r))) nx h b)) with (with_lens (st r) ls (ncode (st r))).
  destruct (zero_fill (st r) ls cl (ncode (st r)) ltac:(lia) Hag) as (ls' & -> & Hz' & Heq).
  rewrite bind_upd, bind_gets. cbv beta. set (r1 := fed _ _ _ _) in *.
  match goal with |- context [build_table Inftrees.CODES (lens (st ?x))] => set (r2 := x) end.
  change (lens (st r2)) with ls'.
  assert (∀ j, 0 ≤ j < 19 → 0 ≤ ls'.[j] ≤ 7) as Hrange by (intros; rewrite Heq by done; by apply (agree_range _ _ _ Hag)).
  assert (InftreesDecode.table_args Inftrees.CODES ls' 19 (codes (st r2)) (next (st r2)) 7 (work (st r2))) as Hargs.
  { change (codes (st r2)) with (codes (st r)). change (work (st r2)) with (work (st r)). change (next (st r2)) with 0.
    split; [split; [lia|split; [lia|intros j Hj; specialize (Hrange j Hj); lia]]|done|lia|lia|lia|].
    split; [lia|]. intros j Hj. by apply Hrange. }
  destruct (build_table_run Inftrees.CODES ls' 19 7 set_lenbits r2 Hargs I) as (t & Et & Eb & Hwt & Hacc).
  rewrite (bind_inl _ _ _ _ _ Eb). cbv beta. rewrite (Symbols.acceptable_ext ls' cl 19 Heq) in Hacc.
  destruct (Rfc1951.acceptable Inftrees.CODES cl 19).
  - destruct Hacc as (Hr0 & Hzt & _ & _). rewrite Hr0. change (c_true 0) with false. cbv iota.
    eexists _, ls'. split; [done|]. split_and!; try done.
    + split; [by split|done|by apply (ready_same r1)|done].
    + split_and!; [done|by rewrite <-Hwz|by rewrite <-Hcz].
    + change (codes (st _)) with (Inftrees.table t). change (lenbits (st _)) with (Inftrees.rbits t).
      by eapply Symbols.built_serves.
  - rewrite Hacc. match goal with |- context [bad ?m ?x] => destruct (bad_run m x) as (r8 & E8 & Hs8 & Hm8 & _) end.
    exists r8. split; [exact E8|]. split; [|done]. etransitivity; [|exact Hs8]. by split.
Qed.

(** ** CODELENS *)

(** The lengths read so far are at the front of the array. *)
Lemma prefix_put (acc ls : list Z) v : acc `prefix_of` ls → zlen acc < zlen ls →
  acc ++ [v] `prefix_of` ls.[zlen acc <- v].
Proof.
  intros [k ->] Hlt. destruct k as [|x k]; [rewrite app_nil_r in Hlt; lia|].
  unfold aset, zlen. rewrite Nat2Z.id, insert_app_r_alt, Nat.sub_diag by lia.
  exists k. by rewrite <-app_assoc.
Qed.

Lemma put_lens_run n v r acc : acc `prefix_of` lens (st r) → have (st r) = zlen acc →
  zlen acc + Z.of_nat n ≤ zlen (lens (st r)) →
  ∃ ls, put_lens n v r = (lensed r ls (zlen acc + Z.of_nat n), inl ()) ∧
    acc ++ replicate n v `prefix_of` ls ∧ zlen ls = zlen (lens (st r)).
Proof.
  revert r acc. induction n as [|n IH]; intros r acc Hp Hh Hn.
  - exists (lens (st r)). rewrite Z.add_0_r, <-Hh, lensed_same, app_nil_r. done.
  - cbn [put_lens]. unfold put_len at 1. rewrite bind_upd.
    set (r1 := r <| st := _ |>).
    destruct (IH r1 (acc ++ [v])) as (ls & E & Hp' & Hz').
    + cbn. rewrite Hh. apply prefix_put; [done|lia].
    + cbn. rewrite Hh, zlen_app. done.
    + rewrite zlen_app. change (zlen [v]) with 1. cbn. rewrite zlen_aset. lia.
    + exists ls. rewrite <-app_assoc in Hp'. split; [|split; [done|rewrite Hz'; cbn; by rewrite zlen_aset]].
      rewrite E. rewrite zlen_app. change (zlen [v]) with 1.
      replace (zlen acc + 1 + Z.of_nat n) with (zlen acc + Z.of_nat (S n)) by lia. done.
Qed.

(** A repeat code of the reference decoder. *)
Definition repeat_code (sym prev : Z) (first : bool) : Rfc1951.P (Z * Z) :=
  if sym =? 16 then r ← Rfc1951.get 2; if first then Rfc1951.bad else mret (prev, 3 + r)
  else if sym =? 17 then r ← Rfc1951.get 3; mret (0, 3 + r)
  else r ← Rfc1951.get 7; mret (0, 11 + r).

Section Repeat.
  Context (r : run) (e : Inftrees.code).
  Hypothesis Hg : good r.
  Hypothesis He : 1 ≤ Inftrees.bits e ≤ 15.
  Hypothesis Hb : Inftrees.bits e ≤ bits r ≤ Inftrees.bits e + 7.

(** The bits of the code are dropped when [m] more are there. *)
Lemma drop_code m {A} (k : M A) : 0 ≤ m ≤ 7 →
  let s := Rfc1951.dropped (Inftrees.bits e) (view r) in
  ∃ nx h b, let r' := fed r nx h b in
    (NEEDBITS (Inftrees.bits e + m);; (DROPBITS (Inftrees.bits e);; k)) r
    = (if Rfc1951.avail s <? m then (r', inr Leave) else k r') ∧
    (m ≤ Rfc1951.avail s → good r' ∧ view r' = s ∧ m ≤ bits r' ≤ m + 7).
Proof.
  intros Hm s. destruct (NEEDBITS_reads (Inftrees.bits e + m) r Hg) as (nx & h & b & E & Hg1 & Hv1 & _ & _ & Hneed); [lia|lia|].
  unfold s. rewrite avail_dropped. unfold mbind, M_bind. rewrite E.
  destruct (Z.ltb_spec (Rfc1951.avail (view r)) (Inftrees.bits e + m)),
    (Z.ltb_spec (Rfc1951.avail (view r) - Inftrees.bits e) m); try lia.
  - exists nx, h, b. split; [done|]. lia.
  - specialize (Hneed ltac:(lia)).
    destruct (DROPBITS_view _ Hg1 (Inftrees.bits e)) as (E2 & Hg2 & Hv2); [cbn; lia|]. rewrite E2.
    eexists nx, _, _. split; [done|]. intros _. split; [done|]. rewrite fed_fed in Hv2. rewrite <-Hv1. split; [exact Hv2|]. cbn. lia.
Qed.

(** Then the extra bits. *)
Lemma take_extra m (f : Z → option (Z * Z)) r1 : good r1 → 0 ≤ m ≤ bits r1 → bits r1 ≤ m + 7 →
  ∃ nx h b, let r' := fed r1 nx h b in
    (b ← BITS m; DROPBITS m;; mret (f b)) r1 = (r', inl (f (Rfc1951.value (view r1) mod 2 ^ m))) ∧
    ready r' ∧ view r' = Rfc1951.dropped m (view r1).
Proof.
  intros Hg1 Hm Hm7. rewrite (bind_inl _ _ _ _ _ (BITS_view r1 Hg1 m ltac:(lia))). cbv beta.
  destruct (DROPBITS_view r1 Hg1 m ltac:(lia)) as (E2 & Hg2 & Hv2). rewrite (bind_inl _ _ _ _ _ E2).
  eexists _, _, _. split; [done|]. split; [split; [done|cbn; lia]|done].
Qed.

Lemma read_repeat_run : 16 ≤ Inftrees.val e →
  let s := Rfc1951.dropped (Inftrees.bits e) (view r) in
  let hv := have (st r) in
  match repeat_code (Inftrees.val e) (lens (st r)).[hv - 1] (hv =? 0) s with
  | Rfc1951.Short => ∃ nx h b, read_repeat e r = (fed r nx h b, inr Leave)
  | Rfc1951.Bad => ∃ r', read_repeat e r = (r', inl None) ∧ still r r' ∧ mode (st r') = BAD
  | Rfc1951.Ok (v, n) s' => ∃ nx h b, let r' := fed r nx h b in
      read_repeat e r = (r', inl (Some (v, n))) ∧ ready r' ∧ view r' = s' ∧ 3 ≤ n ∧
      (v = (lens (st r)).[hv - 1] ∧ hv ≠ 0 ∨ v = 0)
  end.
Proof.
  intros Hv s hv. unfold read_repeat, repeat_code.
  destruct (Z.eqb_spec (Inftrees.val e) 16) as [E16|E16]; [|destruct (Z.eqb_spec (Inftrees.val e) 17) as [E17|E17]].
  - match goal with |- context [(NEEDBITS _;; (DROPBITS _;; ?k)) r] =>
      destruct (drop_code 2 k ltac:(lia)) as (nx & h & b & E & Hk); rewrite E end. fold s in E, Hk |- *. rewrite Rfc1951.bind_get.
    destruct (Z.ltb_spec (Rfc1951.avail s) 2); [by exists nx, h, b|]. destruct (Hk ltac:(lia)) as (Hg1 & Hv1 & Hb1).
    set (r1 := fed r nx h b) in *. rewrite bind_gets. cbv beta. change (have (st r1)) with hv.
    destruct (Z.eqb_spec hv 0) as [E0|E0].
    { destruct (bad_run "invalid bit length repeat" r1) as (r8 & E8 & Hs8 & Hm8 & _).
      exists r8. rewrite (bind_inl _ _ _ _ _ E8). split; [done|]. split; [|done]. etransitivity; [|exact Hs8]. by split. }
    destruct (take_extra 2 (λ b, Some ((lens (st r1)).[hv - 1], 3 + b)) r1) as (nx2 & h2 & b2 & E2 & ? & Hv2); [done|lia|lia|].
    rewrite Hv1 in E2, Hv2. pose proof (Z.mod_pos_bound (Rfc1951.value s) (2 ^ 2) ltac:(lia)).
    exists nx2, h2, b2. split; [exact E2|]. split_and!; try done; [lia|by left].
  - match goal with |- context [(NEEDBITS _;; (DROPBITS _;; ?k)) r] =>
      destruct (drop_code 3 k ltac:(lia)) as (nx & h & b & E & Hk); rewrite E end. fold s in E, Hk |- *. rewrite Rfc1951.bind_get.
    destruct (Z.ltb_spec (Rfc1951.avail s) 3); [by exists nx, h, b|]. destruct (Hk ltac:(lia)) as (Hg1 & Hv1 & Hb1).
    set (r1 := fed r nx h b) in *.
    destruct (take_extra 3 (λ b, Some (0, 3 + b)) r1) as (nx2 & h2 & b2 & E2 & ? & Hv2); [done|lia|lia|].
    rewrite Hv1 in E2, Hv2. pose proof (Z.mod_pos_bound (Rfc1951.value s) (2 ^ 3) ltac:(lia)).
    exists nx2, h2, b2. split; [exact E2|]. split_and!; try done; [lia|by right].
  - match goal with |- context [(NEEDBITS _;; (DROPBITS _;; ?k)) r] =>
      destruct (drop_code 7 k ltac:(lia)) as (nx & h & b & E & Hk); rewrite E end. fold s in E, Hk |- *. rewrite Rfc1951.bind_get.
    destruct (Z.ltb_spec (Rfc1951.avail s) 7); [by exists nx, h, b|]. destruct (Hk ltac:(lia)) as (Hg1 & Hv1 & Hb1).
    set (r1 := fed r nx h b) in *.
    destruct (take_extra 7 (λ b, Some (0, 11 + b)) r1) as (nx2 & h2 & b2 & E2 & ? & Hv2); [done|lia|lia|].
    rewrite Hv1 in E2, Hv2. pose proof (Z.mod_pos_bound (Rfc1951.value s) (2 ^ 7) ltac:(lia)).
    exists nx2, h2, b2. split; [exact E2|]. split_and!; try done; [lia|by right].
Qed.

End Repeat.

Definition length_ok (v : Z) : Prop := 0 ≤ v ≤ 15.

(** The length symbol is looked up in the table built by LENLENS. *)
Lemma length_code ls cl r : ready r → lencode (st r) = InCodes 0 →
  Symbols.serves Inftrees.CODES ls 19 (codes (st r)) 0 (lenbits (st r)) →
  (∀ j, 0 ≤ j < 19 → ls.[j] = cl.[j]) →
  match Rfc1951.length_symbol cl (view r) with
  | Rfc1951.Short => ∃ nx h b, get_code 70 0 len_code r = (fed r nx h b, inr Leave)
  | Rfc1951.Bad => False
  | Rfc1951.Ok y s => ∃ e nx h b, let r' := fed r nx h b in
      get_code 70 0 len_code r = (r', inl e) ∧ good r' ∧ view r' = view r ∧
      1 ≤ Inftrees.bits e ≤ 15 ∧ Inftrees.bits e ≤ b ≤ Inftrees.bits e + 7 ∧
      Inftrees.val e = y ∧ 0 ≤ y < 19 ∧ s = Rfc1951.dropped (Inftrees.bits e) (view r)
  end.
Proof.
  intros [Hg Hb] Hlc Hs Heq. pose proof (view_range r Hg) as HV. pose proof (view_avail r) as HA.
  pose proof (good_bits _ Hg) as Hbb.
  assert (Rfc1951.length_symbol cl (view r) = Rfc1951.length_symbol ls (view r)) as ->.
  { unfold Rfc1951.length_symbol. rewrite (Symbols.longest_ext ls cl 19 Heq).
    destruct (_ =? 0); [done|]. symmetry. apply (Symbols.symbol_ext ls cl 19 Heq). }
  destruct (Symbols.found_length ls _ _ _ (view r) Hs ltac:(lia) ltac:(lia)) as (Hbe & Hve & ->).
  set (e := Symbols.root_entry _ _ _ _) in *.
  pose proof (Symbols.serves_root _ _ _ _ _ _ Hs) as Hroot.
  destruct (get_code_reads 70 0 len_code r (Symbols.root_entry (codes (st r)) 0 (lenbits (st r)))) as
    (nx & h & b & E & Hg1 & Hv1 & _ & _ & Hneed).
  { intros. unfold len_code. rewrite code_at_tab. cbn. rewrite Hlc. cbn. by rewrite mask_mod by lia. }
  { done. }
  { fold e. lia. }
  { lia. }
  { lia. }
  { intros b Hb'. cbv zeta. rewrite !Z.add_0_l. apply (Symbols.root_stable _ _ _ _ _ _ Hs); lia. }
  fold e in E, Hneed. rewrite Z.add_0_l in E, Hneed.
  destruct (Z.ltb_spec (Rfc1951.avail (view r)) (Inftrees.bits e)); [by exists nx, h, b|].
  exists e, nx, h, b. specialize (Hneed ltac:(lia)). split_and!; try done; lia.
Qed.

Lemma lensed_lensed r ls k ls' k' : lensed (lensed r ls k) ls' k' = lensed r ls' k'.
Proof. done. Qed.

Lemma read_lengths_eq fuel cl total acc s :
  Rfc1951.read_lengths (S fuel) cl total acc s =
  if zlen acc <? total then
    match Rfc1951.length_symbol cl s with
    | Rfc1951.Ok y s =>
        if y <? 16 then Rfc1951.read_lengths fuel cl total (acc ++ [y]) s
        else match repeat_code y acc.[zlen acc - 1] (zlen acc =? 0) s with
             | Rfc1951.Ok (v, n) s =>
                 if total <? zlen acc + n then Rfc1951.Bad
                 else Rfc1951.read_lengths fuel cl total (acc ++ replicate (Z.to_nat n) v) s
             | Rfc1951.Short => Rfc1951.Short
             | Rfc1951.Bad => Rfc1951.Bad
             end
    | Rfc1951.Short => Rfc1951.Short
    | Rfc1951.Bad => Rfc1951.Bad
    end
  else Rfc1951.Ok acc s.
Proof.
  cbn [Rfc1951.read_lengths]. destruct (zlen acc <? total); [|done].
  unfold mbind at 1, Rfc1951.P_bind at 1. destruct (Rfc1951.length_symbol cl s) as [y s1| |]; [|done..].
  destruct (y <? 16); [done|]. unfold mbind at 1, Rfc1951.P_bind at 1. fold (repeat_code y acc.[zlen acc - 1] (zlen acc =? 0)).
  destruct (repeat_code y acc.[zlen acc - 1] (zlen acc =? 0) s1) as [[v n] s2| |]; [|done..].
  by destruct (total <? zlen acc + n).
Qed.

(** The loop of CODELENS. *)
Lemma read_codelens_run fuel fuel' ls0 cl total acc r : ready r → lencode (st r) = InCodes 0 →
  Symbols.serves Inftrees.CODES ls0 19 (codes (st r)) 0 (lenbits (st r)) →
  (∀ j, 0 ≤ j < 19 → ls0.[j] = cl.[j]) →
  nlen (st r) + ndist (st r) = total → total ≤ 320 → zlen (lens (st r)) = 320 →
  acc `prefix_of` lens (st r) → have (st r) = zlen acc → zlen acc ≤ total → Forall length_ok acc →
  total - zlen acc < Z.of_nat fuel → total - zlen acc < Z.of_nat fuel' →
  match Rfc1951.read_lengths fuel' cl total acc (view r) with
  | Rfc1951.Short => ∃ ls k nx h b, read_codelens fuel r = (fed (lensed r ls k) nx h b, inr Leave)
  | Rfc1951.Bad => ∃ r', read_codelens fuel r = (r', inl ()) ∧ still r r' ∧ mode (st r') = BAD
  | Rfc1951.Ok acc' s => ∃ ls nx h b, let r' := fed (lensed r ls total) nx h b in
      read_codelens fuel r = (r', inl ()) ∧ ready r' ∧ view r' = s ∧
      acc' `prefix_of` ls ∧ zlen ls = 320 ∧ zlen acc' = total ∧ Forall length_ok acc'
  end.
Proof.
  revert fuel' acc r.
  induction fuel as [|fuel IH]; intros fuel' acc r Hrdy Hlc Hs Heq Htot H320 Hlz Hpre Hhave Hle Hok Hf Hf'; [lia|].
  destruct fuel' as [|fuel']; [lia|]. rewrite read_lengths_eq. cbn [read_codelens]. rewrite bind_gets. cbv beta.
  rewrite Htot, Hhave. destruct (Z.ltb_spec (zlen acc) total) as [Hlt|Hge]; cycle 1.
  { exists (lens (st r)), (nxt r), (hold r), (bits r). assert (zlen acc = total) as E by lia.
    rewrite <-E, <-Hhave, lensed_same, fed_same. split_and!; done. }
  pose proof (length_code ls0 cl r Hrdy Hlc Hs Heq) as Hcode.
  destruct (Rfc1951.length_symbol cl (view r)) as [y s| |]; [| |done]; cycle 1.
  { destruct Hcode as (nx & h & b & E). exists (lens (st r)), (have (st r)), nx, h, b.
    rewrite lensed_same. by rewrite (bind_inr _ _ _ _ _ E). }
  destruct Hcode as (e & nx & h & b & E & Hg1 & Hv1 & Hbe & Hb & Hval & Hy & ->).
  rewrite (bind_inl _ _ _ _ _ E). cbv beta. rewrite Hval. set (r1 := fed r nx h b) in *.
  (* the rest of the loop, from a run with more lengths *)
  assert (∀ acc2 ls2 r2, ready r2 → (∃ nx h b, r2 = fed (lensed r ls2 (zlen acc2)) nx h b) →
    acc2 `prefix_of` ls2 → zlen ls2 = 320 → zlen acc < zlen acc2 → zlen acc2 ≤ total → Forall length_ok acc2 →
    match Rfc1951.read_lengths fuel' cl total acc2 (view r2) with
    | Rfc1951.Short => ∃ ls k nx h b, read_codelens fuel r2 = (fed (lensed r ls k) nx h b, inr Leave)
    | Rfc1951.Bad => ∃ r', read_codelens fuel r2 = (r', inl ()) ∧ still r r' ∧ mode (st r') = BAD
    | Rfc1951.Ok acc' s => ∃ ls nx h b, let r' := fed (lensed r ls total) nx h b in
        read_codelens fuel r2 = (r', inl ()) ∧ ready r' ∧ view r' = s ∧
        acc' `prefix_of` ls ∧ zlen ls = 320 ∧ zlen acc' = total ∧ Forall length_ok acc'
    end) as Hrest.
  { intros acc2 ls2 r2 Hrdy2 (nx2 & h2 & b2 & ->) Hp2 Hz2 Hlt2 Hle2 Hok2.
    pose proof (IH fuel' acc2 _ Hrdy2 Hlc Hs Heq Htot H320 Hz2 Hp2 eq_refl Hle2 Hok2 ltac:(lia) ltac:(lia)) as Hr.
    destruct (Rfc1951.read_lengths fuel' cl total acc2 _) as [acc' s'| |].
    - destruct Hr as (ls & nx' & h' & b' & ? & ? & ? & ?). by exists ls, nx', h', b'.
    - destruct Hr as (ls & k & nx' & h' & b' & ?). by exists ls, k, nx', h', b'.
    - destruct Hr as (r' & ? & Hst & ?). exists r'. split; [done|]. split; [|done]. etransitivity; [|exact Hst]. by split. }
  destruct (Z.ltb_spec y 16) as [Hy16|Hy16].
  - destruct (DROPBITS_view r1 Hg1 (Inftrees.bits e)) as (E2 & Hg2 & Hv2); [cbn; lia|].
    rewrite (bind_inl _ _ _ _ _ E2). cbv beta. rewrite Hv1 in Hv2. set (r2 := fed r1 _ _ _) in *.
    unfold put_len at 1 2 3. rewrite bind_upd. set (r3 := r2 <| st := _ |>). rewrite <-Hv2.
    change (view r2) with (view r3).
    assert (r3 = fed (lensed r (lens (st r)).[zlen acc <- y] (zlen acc + 1)) (nxt r2) (hold r2) (bits r2)) as E3.
    { unfold r3. change (have (st r2)) with (have (st r)). rewrite Hhave. done. }
    apply (Hrest (acc ++ [y]) (lens (st r)).[zlen acc <- y] r3).
    + apply (ready_same r2); try done. split; [done|cbn; lia].
    + rewrite zlen_app. change (zlen [y]) with 1. by eexists _, _, _.
    + apply prefix_put; [done|lia].
    + by rewrite zlen_aset.
    + rewrite zlen_app. change (zlen [y]) with 1. lia.
    + rewrite zlen_app. change (zlen [y]) with 1. lia.
    + apply Forall_app. split; [done|]. constructor; [unfold length_ok; lia|done].
  - pose proof (read_repeat_run r1 e Hg1 Hbe Hb ltac:(lia)) as Hrep. cbv zeta in Hrep.
    rewrite Hval, Hv1 in Hrep. change (have (st r1)) with (have (st r)) in Hrep.
    change (lens (st r1)) with (lens (st r)) in Hrep. rewrite Hhave in Hrep.
    assert (zlen acc ≠ 0 → (lens (st r)).[zlen acc - 1] = acc.[zlen acc - 1]) as Hprev.
    { intros. destruct Hpre as [k ->]. apply aget_app_l. pose proof (zlen_nonneg acc). lia. }
    assert (repeat_code y (lens (st r)).[zlen acc - 1] (zlen acc =? 0) (Rfc1951.dropped (Inftrees.bits e) (view r))
      = repeat_code y acc.[zlen acc - 1] (zlen acc =? 0) (Rfc1951.dropped (Inftrees.bits e) (view r))) as Erep.
    { unfold repeat_code. destruct (Z.eqb_spec (zlen acc) 0); [done|]. by rewrite Hprev. }
    rewrite Erep in Hrep.
    destruct (repeat_code y acc.[zlen acc - 1] (zlen acc =? 0) _) as [[v n] s2| |].
    + destruct Hrep as (nx2 & h2 & b2 & E2 & Hrdy2 & Hv2 & Hn & Hv). rewrite (bind_inl _ _ _ _ _ E2).
      cbv beta iota. change (fed r1 nx2 h2 b2) with (fed r nx2 h2 b2) in *. set (r2 := fed r nx2 h2 b2) in *.
      rewrite bind_gets. cbv beta. change (nlen (st r2) + ndist (st r2)) with (nlen (st r) + ndist (st r)).
      change (have (st r2)) with (have (st r)). rewrite Htot, Hhave.
      destruct (Z.ltb_spec total (zlen acc + n)) as [Hov|Hfit].
      { destruct (bad_run "invalid bit length repeat" r2) as (r8 & E8 & Hs8 & Hm8 & _).
        exists r8. split; [exact E8|]. split; [|done]. etransitivity; [|exact Hs8]. by split. }
      assert (length_ok v) as Hvok.
      { destruct Hv as [[-> Hne]| ->]; [|unfold length_ok; lia]. rewrite Hprev by done.
        apply Forall_aget; [done|]. pose proof (zlen_nonneg acc). lia. }
      rewrite (wrap_small 16 v) by (unfold ubits, length_ok in *; lia).
      destruct (put_lens_run (Z.to_nat n) v r2 acc) as (ls3 & E3 & Hp3 & Hz3); [done..|cbn; lia|].
      assert (zlen (acc ++ replicate (Z.to_nat n) v) = zlen acc + n) as Hzr.
      { rewrite zlen_app. f_equal. unfold zlen. rewrite length_replicate. lia. }
      rewrite Z2Nat.id in E3 by lia. rewrite (bind_inl _ _ _ _ _ E3). cbv beta. set (r3 := lensed r2 _ _) in *. rewrite <-Hv2.
      change (view r2) with (view r3).
      apply (Hrest (acc ++ replicate (Z.to_nat n) v) ls3 r3).
      * by apply (ready_same r2).
      * rewrite Hzr. by eexists _, _, _.
      * done.
      * by rewrite Hz3.
      * rewrite Hzr. lia.
      * by rewrite Hzr.
      * apply Forall_app. split; [done|]. by apply Forall_replicate.
    + destruct Hrep as (nx2 & h2 & b2 & E2). rewrite (bind_inr _ _ _ _ _ E2).
      exists (lens (st r)), (have (st r)), nx2, h2, b2. by rewrite lensed_same.
    + destruct Hrep as (r2 & E2 & Hs2 & Hm2). rewrite (bind_inl _ _ _ _ _ E2). exists r2.
      split; [done|]. split; [|done]. etransitivity; [|exact Hs2]. by split.
Qed.

(** ** The tables of the block *)

(** The codes of the lengths in the array, [nl] and [nd] of them, as the tables
    of the state decode them. *)
Lemma build_codes_run flush r acc nl nd : flush ≠ Z_TREES → arrays (st r) → ret r = Z_OK →
  nlen (st r) = nl → ndist (st r) = nd → 257 ≤ nl ≤ 286 → 1 ≤ nd ≤ 30 →
  acc `prefix_of` lens (st r) → zlen acc = nl + nd → Forall length_ok acc →
  let ll := take (Z.to_nat nl) acc in let ld := drop (Z.to_nat nl) acc in
  if Rfc1951.acceptable Inftrees.LENS ll nl && Rfc1951.acceptable Inftrees.DISTS ld nd then
    ∃ r' L D, build_codes flush r = (r', inl ()) ∧ still r r' ∧ ret r' = Z_OK ∧
      nxt r' = nxt r ∧ hold r' = hold r ∧ bits r' = bits r ∧ mode (st r') = LEN_ ∧
      arrays (st r') ∧ len_serves (st r') L nl ∧ dist_serves (st r') D nd ∧
      (∀ i, 0 ≤ i < nl → L.[i] = ll.[i]) ∧ (∀ i, 0 ≤ i < nd → D.[i] = ld.[i])
  else ∃ r', build_codes flush r = (r', inl ()) ∧ still r r' ∧ mode (st r') = BAD.
Proof.
  intros Hfl (Hlz & Hwz & Hcz) Hret Hnl Hnd Hl Hd Hpre Hacc Hok ll ld.
  set (L := lens (st r)) in *. set (D := drop (Z.to_nat nl) L).
  assert (∀ i, 0 ≤ i < nl + nd → L.[i] = acc.[i]) as HL.
  { intros i Hi. destruct Hpre as [k Hk]. rewrite Hk. apply aget_app_l. lia. }
  assert (∀ i, 0 ≤ i < nl → L.[i] = ll.[i]) as HLl.
  { intros i Hi. rewrite HL by lia. unfold ll. by rewrite aget_take by lia. }
  assert (∀ (l : list Z) i, 0 ≤ i → (drop (Z.to_nat nl) l).[i] = l.[nl + i]) as Hdrop.
  { intros l i Hi. unfold aget. rewrite lookup_total_drop. f_equal. lia. }
  assert (∀ i, 0 ≤ i < nd → D.[i] = ld.[i]) as HDd.
  { intros i Hi. unfold D, ld. rewrite !Hdrop by lia. apply HL. lia. }
  assert (∀ i, 0 ≤ i < nl + nd → 0 ≤ L.[i] ≤ 15) as Hrange.
  { intros i Hi. rewrite HL by lia. apply (Forall_aget _ acc i) in Hok; [done|lia]. }
  rewrite <-(Symbols.acceptable_ext L ll nl HLl), <-(Symbols.acceptable_ext D ld nd HDd).
  unfold build_codes. rewrite bind_upd, bind_gets. cbv beta.
  set (r1 := r <| st := (st r) <| next := 0 |> <| lencode := InCodes 0 |> |>).
  change (lens (st r1)) with L. change (nlen (st r1)) with (nlen (st r)). change (ndist (st r1)) with (ndist (st r)).
  rewrite Hnl, Hnd.
  assert (InftreesDecode.table_args Inftrees.LENS L nl (codes (st r1)) (next (st r1)) 9 (work (st r1))) as Hargs.
  { change (codes (st r1)) with (codes (st r)). change (work (st r1)) with (work (st r)). change (next (st r1)) with 0.
    split; [split; [lia|split; [lia|intros; apply Hrange; lia]]|simpl; lia|lia|lia|lia|].
    unfold Inftrees.ENOUGH_LENS. lia. }
  destruct (build_table_run Inftrees.LENS L nl 9 set_lenbits r1 Hargs) as (t & Et & Eb & Hwt & Hacct); [split; lia|].
  rewrite (bind_inl _ _ _ _ _ Eb). cbv beta.
  destruct (Rfc1951.acceptable Inftrees.LENS L nl) eqn:Ea; cycle 1.
  { rewrite Hacct. cbn [andb]. match goal with |- context [bad ?m ?x] => destruct (bad_run m x) as (r8 & E8 & Hs8 & Hm8 & _) end.
    exists r8. split; [exact E8|]. split; [|done]. etransitivity; [|exact Hs8]. by split. }
  destruct Hacct as (Hr0 & Hzt & Hadv & _). rewrite Hr0. change (c_true 0) with false. cbv iota. rewrite bind_upd.
  match goal with |- context [(build_table Inftrees.DISTS _ _ _ _ ≫= _) ?x] => set (r2 := x) end. fold D.
  change (InftreesDecode.room Inftrees.LENS 9) with Inftrees.ENOUGH_LENS in Hadv.
  assert (InftreesDecode.table_args Inftrees.DISTS D nd (codes (st r2)) (next (st r2)) 6 (work (st r2))) as Hargs2.
  { change (codes (st r2)) with (Inftrees.table t). change (work (st r2)) with (Inftrees.rwork t).
    change (next (st r2)) with (0 + Inftrees.advance t). change (codes (st r1)) with (codes (st r)) in Hzt.
    change (work (st r1)) with (work (st r)) in Hwt. unfold Inftrees.ENOUGH_LENS, Inftrees.ENOUGH_DISTS in *.
    assert (zlen D = 320 - nl) as HDz by (unfold D, zlen in *; rewrite length_drop; lia).
    split; [split; [lia|split; [lia|intros i Hi; unfold D; rewrite Hdrop by lia; apply Hrange; lia]]|simpl; lia|lia|lia|lia|].
    unfold Inftrees.ENOUGH_DISTS. lia. }
  destruct (build_table_run Inftrees.DISTS D nd 6 set_distbits r2 Hargs2) as (t2 & Et2 & Eb2 & Hwt2 & Hacct2); [split; lia|].
  rewrite (bind_inl _ _ _ _ _ Eb2). cbv beta.
  destruct (Rfc1951.acceptable Inftrees.DISTS D nd) eqn:Ea2; cycle 1.
  { rewrite Hacct2. cbn [andb]. match goal with |- context [bad ?m ?x] => destruct (bad_run m x) as (r8 & E8 & Hs8 & Hm8 & _) end.
    exists r8. split; [exact E8|]. split; [|done]. etransitivity; [|exact Hs8]. by split. }
  destruct Hacct2 as (Hr2 & Hzt2 & Hadv2 & Hfr2). rewrite Hr2. change (c_true 0) with false. cbv iota. cbn [andb].
  destruct (Z.eqb_spec flush Z_TREES); [done|].
  eexists _, L, D. split; [done|]. split; [by split|]. do 5 (split; [reflexivity|]).
  split; [|split; [|split; [|split; [exact HLl|exact HDd]]]].
  - split; [exact Hlz|]. split; [exact (eq_trans Hwt2 (eq_trans Hwt Hwz))|exact (eq_trans Hzt2 (eq_trans Hzt Hcz))].
  - unfold len_serves. change (tab_of (st _) (lencode (st _))) with (Inftrees.table t2, 0).
    change (lenbits (st _)) with (Inftrees.rbits t). cbn [fst snd].
    eapply (Symbols.built_serves_ext Inftrees.LENS L nl); [exact Hargs|exact Et|done|].
    intros j Hj. apply Hfr2; [lia|]. left. exact (proj2 Hj).
  - unfold dist_serves. change (tab_of (st _) (distcode (st _))) with (Inftrees.table t2, 0 + Inftrees.advance t).
    change (distbits (st _)) with (Inftrees.rbits t2). cbn [fst snd].
    eapply (Symbols.built_serves Inftrees.DISTS D nd); [exact Hargs2|exact Et2|done].
Qed.

(** ** The whole of CODELENS *)

Lemma codelens_step flush r ls0 cl nl nd : flush ≠ Z_TREES → mode (st r) = CODELENS → ready r →
  arrays (st r) → have (st r) = 0 → lencode (st r) = InCodes 0 →
  Symbols.serves Inftrees.CODES ls0 19 (codes (st r)) 0 (lenbits (st r)) →
  (∀ j, 0 ≤ j < 19 → ls0.[j] = cl.[j]) → nlen (st r) = nl → ndist (st r) = nd →
  257 ≤ nl ≤ 286 → 1 ≤ nd ≤ 30 → ret r = Z_OK →
  match Rfc1951.read_lengths (S (Z.to_nat (nl + nd))) cl (nl + nd) [] (view r) with
  | Rfc1951.Short => ∃ r', step flush r = (r', inr Leave) ∧ still r r' ∧ ret r' = ret r ∧ mode (st r') = CODELENS
  | Rfc1951.Bad => ∃ r', step flush r = (r', inl ()) ∧ still r r' ∧ mode (st r') = BAD
  | Rfc1951.Ok acc s =>
      let ll := take (Z.to_nat nl) acc in let ld := drop (Z.to_nat nl) acc in
      zlen acc = nl + nd ∧
      if (ll.[256] =? 0) || negb (Rfc1951.acceptable Inftrees.LENS ll nl && Rfc1951.acceptable Inftrees.DISTS ld nd)
      then ∃ r', step flush r = (r', inl ()) ∧ still r r' ∧ mode (st r') = BAD
      else ∃ r' L D, step flush r = (r', inl ()) ∧ parsed r r' s ∧ arrays (st r') ∧ mode (st r') = LEN_ ∧
        len_serves (st r') L nl ∧ dist_serves (st r') D nd ∧
        (∀ i, 0 ≤ i < nl → L.[i] = ll.[i]) ∧ (∀ i, 0 ≤ i < nd → D.[i] = ld.[i])
  end.
Proof.
  intros Hfl Hm Hrdy (Hlz & Hwz & Hcz) Hh Hlc Hs Heq Hnl Hnd Hl Hd Hret. at_mode Hm. unfold do_CODELENS.
  pose proof (read_codelens_run 321 (S (Z.to_nat (nl + nd))) ls0 cl (nl + nd) [] r Hrdy Hlc Hs Heq
    ltac:(congruence) ltac:(lia) Hlz (prefix_nil _) Hh ltac:(change (zlen (@nil Z)) with 0; lia) (Forall_nil_2 _)
    ltac:(change (zlen (@nil Z)) with 0; lia) ltac:(change (zlen (@nil Z)) with 0; lia)) as Hrun.
  destruct (Rfc1951.read_lengths _ _ _ _ _) as [acc s| |].
  - destruct Hrun as (ls & nx & h & b & E & Hrdy1 & Hv1 & Hpre & Hz & Hacc & Hok). split; [done|].
    rewrite (bind_inl _ _ _ _ _ E). cbv beta. set (r1 := fed _ _ _ _) in *. rewrite bind_gets. cbv beta.
    change (mode (st r1)) with (mode (st r)). rewrite Hm. rewrite bool_decide_eq_false_2 by done.
    assert ((lens (st r1)).[256] = (take (Z.to_nat nl) acc).[256]) as ->.
    { rewrite aget_take by lia. change (lens (st r1)) with ls. destruct Hpre as [k ->]. apply aget_app_l. lia. }
    destruct ((take (Z.to_nat nl) acc).[256] =? 0); cbn [orb].
    { match goal with |- context [bad ?m r1] => destruct (bad_run m r1) as (r8 & E8 & Hs8 & Hm8 & _) end.
      exists r8. split; [exact E8|]. split; [|done]. etransitivity; [|exact Hs8]. by split. }
    assert (still r r1) as Hst by (by split).
    pose proof (build_codes_run flush r1 acc nl nd Hfl (conj Hz (conj Hwz Hcz)) Hret Hnl Hnd Hl Hd Hpre Hacc Hok) as Hb.
    cbv zeta in Hb.
    destruct (Rfc1951.acceptable Inftrees.LENS _ _ && Rfc1951.acceptable Inftrees.DISTS _ _); cbn [negb].
    + destruct Hb as (r' & L & D & Eb & Hs' & Hr' & En & Eh & Ebt & Hm' & Ha' & Hls & Hds & HL & HD).
      exists r', L, D. split; [exact Eb|]. split.
      { split; [by etransitivity|congruence|by apply (ready_same r1)|].
        rewrite <-Hv1. unfold view. by rewrite En, Eh, Ebt. }
      by split_and!.
    + destruct Hb as (r' & Eb & Hs' & Hm'). exists r'. split; [exact Eb|]. split; [by etransitivity|done].
  - destruct Hrun as (ls & k & nx & h & b & E). rewrite (bind_inr _ _ _ _ _ E). eexists. split; [done|]. by split_and!.
  - destruct Hrun as (r' & E & Hs' & Hm'). rewrite (bind_inl _ _ _ _ _ E). cbv beta. rewrite bind_gets. cbv beta.
    rewrite Hm', bool_decide_eq_true_2 by done. by exists r'.
Qed.

(** ** A dynamic block *)

Definition dynamic_block (hist out : list Z) (s : Rfc1951.bitstream) : Rfc1951.outcome :=
  match Rfc1951.dynamic s with
  | Rfc1951.Ok (ll, ld) s => Rfc1951.codes ll (zlen ll) ld (zlen ld) hist out s
  | Rfc1951.Short => Rfc1951.Starved out
  | Rfc1951.Bad => Rfc1951.Invalid out
  end.

Lemma dynamic_eq s : Rfc1951.dynamic s =
  match sizes s with
  | Rfc1951.Ok (nl, nd, nc) s =>
      if (286 <? nl) || (30 <? nd) then Rfc1951.Bad
      else match Rfc1951.read_cl (take (Z.to_nat nc) Rfc1951.order) (replicate 19 0) s with
           | Rfc1951.Ok cl s =>
               if Rfc1951.acceptable Inftrees.CODES cl 19 then
                 match Rfc1951.read_lengths (S (Z.to_nat (nl + nd))) cl (nl + nd) [] s with
                 | Rfc1951.Ok acc s =>
                     let ll := take (Z.to_nat nl) acc in let ld := drop (Z.to_nat nl) acc in
                     if (ll.[256] =? 0) || negb (Rfc1951.acceptable Inftrees.LENS ll nl && Rfc1951.acceptable Inftrees.DISTS ld nd)
                     then Rfc1951.Bad else Rfc1951.Ok (ll, ld) s
                 | Rfc1951.Short => Rfc1951.Short
                 | Rfc1951.Bad => Rfc1951.Bad
                 end
               else Rfc1951.Bad
           | Rfc1951.Short => Rfc1951.Short
           | Rfc1951.Bad => Rfc1951.Bad
           end
  | Rfc1951.Short => Rfc1951.Short
  | Rfc1951.Bad => Rfc1951.Bad
  end.
Proof.
  unfold Rfc1951.dynamic, sizes, mbind, Rfc1951.P_bind.
  destruct (Rfc1951.get 5 s) as [x s1| |]; [|done..]. destruct (Rfc1951.get 5 s1) as [y s2| |]; [|done..].
  destruct (Rfc1951.get 4 s2) as [z s3| |]; [|done..]. unfold mret, Rfc1951.P_ret.
  destruct (_ || _); [done|]. destruct (Rfc1951.read_cl _ _ _) as [cl s4| |]; [|done..].
  destruct (Rfc1951.acceptable Inftrees.CODES cl 19); [|done]. cbn [negb].
  destruct (Rfc1951.read_lengths _ _ _ _ _) as [acc s5| |]; [|done..]. cbv zeta.
  destruct (_ =? 0); [done|]. cbn [orb]. rewrite negb_andb. by destruct (_ || _).
Qed.

Lemma len_start flush r H pre cur ll nl ld nd : ctx r H pre cur → mode (st r) = LEN_ →
  len_serves (st r) ll nl → dist_serves (st r) ld nd →
  does flush r H pre (Rfc1951.codes ll nl ld nd H cur (view r)).
Proof.
  intros Hc Hm Hl Hd. set (r1 := r <| st := (st r) <| mode := LEN |> |>).
  assert (step flush r = (r1, inl ())) as E by (by at_mode Hm).
  apply (does_reaches flush r r1); [by apply reaches_one|by split|].
  change (view r) with (view r1). apply codes_does; [by apply ctx_mode|done..].
Qed.

Lemma dynamic_does flush r H pre cur : no_stop flush → ctx r H pre cur → mode (st r) = TABLE →
  does flush r H pre (dynamic_block H cur (view r)).
Proof.
  intros [_ Hfl] Hc Hm. unfold dynamic_block. rewrite dynamic_eq.
  pose proof (table_step flush r Hm (ctx_ready _ _ _ _ Hc)) as Ht.
  destruct (sizes (view r)) as [[[nl nd] nc] s1| |]; [| |done]; cycle 1.
  { destruct Ht as (nx & h & b & E). eapply does_starved; try done. by rewrite Hm. }
  destruct Ht as (Hnl & Hnd & Hnc & Ht). destruct (_ || _) eqn:Eb.
  { destruct Ht as (r' & ? & ? & ?). by eapply does_invalid. }
  apply orb_false_iff in Eb as [Eb1 Eb2]. apply Z.ltb_ge in Eb1, Eb2.
  destruct Ht as (nx & h & b & E1 & Hrdy1 & Hv1). set (r1 := fed _ _ _ _) in *.
  assert (framed r r1) as Hf1 by (by split).
  assert (ctx r1 H pre cur) as Hc1 by (eapply ctx_parsed; [done|split; [by split|done..]|apply Hc]).
  apply (does_reaches flush r r1); [by apply reaches_one|done|].
  pose proof (lenlens_step flush r1 eq_refl Hrdy1 (ctx_arrays _ _ _ _ Hc1) eq_refl Hnc (ctx_ret _ _ _ _ Hc1)) as H2.
  change (ncode (st r1)) with nc in H2. rewrite Hv1 in H2.
  destruct (Rfc1951.read_cl _ _ _) as [cl s2| |]; [| |destruct H2]; cycle 1.
  { destruct H2 as (r' & ? & ? & ? & ?). by eapply does_starved. }
  destruct (Rfc1951.acceptable Inftrees.CODES cl 19); cycle 1.
  { destruct H2 as (r' & ? & ? & ?). by eapply does_invalid. }
  destruct H2 as (r2 & ls & E2 & Hp2 & Ha2 & Hm2 & Hh2 & Hnl2 & Hnd2 & Hlc2 & Hs2 & Heq).
  pose proof (ctx_parsed _ _ _ _ _ _ Hc1 Hp2 Ha2) as Hc2. pose proof (parsed_view _ _ _ Hp2) as Hv2.
  apply (does_reaches flush r1 r2); [by apply reaches_one|apply Hp2|].
  pose proof (codelens_step flush r2 ls cl nl nd Hfl Hm2 (ctx_ready _ _ _ _ Hc2) Ha2 Hh2 Hlc2 Hs2 Heq
    Hnl2 Hnd2 ltac:(lia) ltac:(lia) (ctx_ret _ _ _ _ Hc2)) as H3. rewrite Hv2 in H3. clear Hs2.
  destruct (Rfc1951.read_lengths _ _ _ _ _) as [acc s3| |].
  - cbv zeta in H3 |- *. destruct H3 as [Hz H3]. destruct (_ || _).
    { destruct H3 as (r' & ? & ? & ?). by eapply does_invalid. }
    destruct H3 as (r3 & L & D & E3 & Hp3 & Ha3 & Hm3 & HL & HD & EL & ED).
    pose proof (ctx_parsed _ _ _ _ _ _ Hc2 Hp3 Ha3) as Hc3. pose proof (parsed_view _ _ _ Hp3) as Hv3.
    apply (does_reaches flush r2 r3); [by apply reaches_one|apply Hp3|]. rewrite <-Hv3.
    assert (zlen (take (Z.to_nat nl) acc) = nl) as -> by (unfold zlen in *; rewrite length_take; lia).
    assert (zlen (drop (Z.to_nat nl) acc) = nd) as -> by (unfold zlen in *; rewrite length_drop; lia).
    rewrite <-(Rfc1951.codes_ext L nl D nd) by (intros; by apply Symbols.symbol_ext).
    by apply len_start.
  - destruct H3 as (r' & ? & ? & ? & ?). eapply does_starved; try done; [congruence|by rewrite Hm2].
  - destruct H3 as (r' & ? & ? & ?). by eapply does_invalid.
Qed.

End Dynamic.
