(* ===== verification/RawInflate.v ===== *)
(** * inflate() is a decoder of RFC 1951

    From a fresh raw stream, one call of inflate() with all the input does what
    the reference decoder does: the same output, the same verdict, the same
    position in the input. *)

From Stdlib Require Import String.
From S2P Require Import Prelude Inftrees InftreesDecode Inffixed Rfc1951 Symbols InflateState Inffast.
From S2P Require Import Inflate Runs BitReader Window InflateCodes FastCodes Blocks Dynamic.

Module RawInflate.
Import InflateState Inflate Runs BitReader Window InflateCodes FastCodes Blocks Dynamic.

(** ** One block *)

Lemma fixed_serves s : lencode s = LenFix → lenbits s = 9 → distcode s = DistFix → distbits s = 5 →
  len_serves s Rfc1951.fixed_ll 288 ∧ dist_serves s Rfc1951.fixed_ld 32.
Proof.
  intros El Elb Ed Edb. unfold len_serves, dist_serves. rewrite El, Elb, Ed, Edb.
  split; [exact Symbols.len_fixed_serves|exact Symbols.dist_fixed_serves].
Qed.

(** The mode and tables the header of a block of type [t] leads to. *)
Definition block_mode (t : Z) (s : inflate_state) : Prop :=
  if t =? 0 then mode s = STORED
  else if t =? 1 then mode s = LEN_ ∧ lencode s = LenFix ∧ lenbits s = 9 ∧ distcode s = DistFix ∧ distbits s = 5
  else if t =? 2 then mode s = TABLE else mode s = BAD.

Lemma block_does flush r H pre cur t : no_stop flush → ctx r H pre cur → block_mode t (st r) →
  does flush r H pre (Rfc1951.block t H cur (view r)).
Proof.
  intros Hfl Hc. unfold block_mode, Rfc1951.block. destruct (t =? 0).
  { intros Hm. apply stored_does; [|done|done]. destruct Hfl. by apply Z.eqb_neq. }
  destruct (t =? 1).
  { intros (Hm & El & Elb & Ed & Edb). destruct (fixed_serves _ El Elb Ed Edb). by apply len_start. }
  destruct (t =? 2); [intros Hm; by apply dynamic_does|].
  intros Hm _. exists r. split_and!; [apply reaches_refl|by eapply still_ends|done].
Qed.

(** ** The blocks up to the last one *)

(** What the blocks keep: the state but for [last] too. *)
Definition unlast (s : inflate_state) : inflate_state := (frame s) <| last := 0 |>.

Record passed (r r' : run) : Prop := {
  passed_state : unlast (st r') = unlast (st r);
  passed_stream : core_stream (sm r') = core_stream (sm r);
  passed_in : in_ r' = in_ r;
  passed_out : out r' = out r
}.
#[global] Instance passed_preorder : PreOrder passed.
Proof. split; [done|]. intros r1 r2 r3 [] []. split; congruence. Qed.

Lemma framed_passed r r' : framed r r' → passed r r'.
Proof. intros [Hs]. split; [|done..]. unfold unlast. by rewrite Hs. Qed.

Definition stops (r r' : run) (pre cur' : list Z) : Prop :=
  passed r r' ∧ put r' = pre ++ cur' ∧ left_ r' = out r - zlen cur' ∧ 0 ≤ left_ r'.

Lemma stops_trans r r1 r2 pre c2 : passed r r1 → stops r1 r2 pre c2 → stops r r2 pre c2.
Proof. intros Hf (Hf2 & ? & ? & ?). rewrite (passed_out _ _ Hf) in *. split_and!; try done. by etransitivity. Qed.

Lemma ends_stops r r' pre c : ends r r' pre c → stops r r' pre c.
Proof. intros (? & ? & ? & ?). split; [by apply framed_passed|done]. Qed.

Definition does_blocks (flush : Z) (r : run) (H pre : list Z) (o : Rfc1951.outcome) : Prop :=
  match o with
  | Rfc1951.Done cur' s => zlen cur' ≤ out r → ∃ r', reaches flush r r' ∧ passed r r' ∧
      ctx r' H pre cur' ∧ mode (st r') = CHECK ∧ view r' = s ∧ bits r' = 0
  | Rfc1951.Starved cur' => zlen cur' ≤ out r → ∃ r', leaves flush r r' Leave ∧
      stops r r' pre cur' ∧ ret r' = Z_OK ∧ mode_val (mode (st r')) < mode_val CHECK
  | Rfc1951.Invalid cur' => zlen cur' < out r → ∃ r', reaches flush r r' ∧
      stops r r' pre cur' ∧ mode (st r') = BAD
  end.

Lemma does_blocks_reaches flush r r1 H pre o : reaches flush r r1 → passed r r1 →
  does_blocks flush r1 H pre o → does_blocks flush r H pre o.
Proof.
  intros Hr Hf. unfold does_blocks. rewrite (passed_out _ _ Hf). destruct o; intros HH Hroom.
  - destruct (HH Hroom) as (r2 & ? & ? & ?). exists r2.
    split; [by eapply reaches_trans|]. split; [by etransitivity|done].
  - destruct (HH Hroom) as (r2 & ? & ? & ?). exists r2.
    split; [by eapply leaves_trans|]. split; [by eapply stops_trans|done].
  - destruct (HH Hroom) as (r2 & ? & ? & ?). exists r2.
    split; [by eapply reaches_trans|]. split; [by eapply stops_trans|done].
Qed.

Lemma does_blocks_room flush r H pre o :
  (zlen (Rfc1951.output o) ≤ out r → does_blocks flush r H pre o) → does_blocks flush r H pre o.
Proof. intros HH. destruct o; simpl in *; intros Hroom; apply HH; lia. Qed.

(** After the last block. *)
Lemma last_step flush r H pre cur : no_stop flush → ctx r H pre cur → mode (st r) = TYPE → last (st r) = 1 →
  ∃ r', step flush r = (r', inl ()) ∧ framed r r' ∧ ctx r' H pre cur ∧ mode (st r') = CHECK ∧
    view r' = Rfc1951.align (view r) ∧ bits r' = 0.
Proof.
  intros Hfl Hc Hm Hlast. pose proof (ctx_ready _ _ _ _ Hc) as [Hg Hb].
  rewrite (type_step flush r Hfl (or_introl Hm)). unfold do_TYPEDO. rewrite bind_gets, Hlast.
  change (c_true 1) with true. cbv iota. destruct (BYTEBITS_view r Hg) as (E & Hg' & Hv').
  rewrite (bind_inl _ _ _ _ _ E). destruct (good_bits _ Hg).
  assert (bits r - bits r mod 8 = 0) as E0 by (rewrite Z.mod_small by lia; lia). set (r1 := fed _ _ _ _) in *.
  eexists. split; [done|]. split; [by split|]. split; [|split; [done|split; [exact Hv'|exact E0]]].
  apply ctx_mode. eapply ctx_parsed; [done|split; [by split|done| |done]|apply Hc]. split; [done|].
  change (bits r1) with (bits r - bits r mod 8). lia.
Qed.

Lemma blocks_run flush n r H pre cur : no_stop flush → ctx r H pre cur →
  mode (st r) = TYPE ∨ mode (st r) = TYPEDO → last (st r) = 0 → Rfc1951.avail (view r) < Z.of_nat n →
  does_blocks flush r H pre (Rfc1951.blocks_fuel n H cur (view r)).
Proof.
  intros Hfl. revert r cur. induction n as [|n IH]; intros r cur Hc Hm Hlast Hn.
  { pose proof (ctx_ready _ _ _ _ Hc) as [Hg _]. pose proof (view_avail r). destruct (good_bits _ Hg). lia. }
  pose proof (ctx_ready _ _ _ _ Hc) as Hrdy. pose proof (header_step flush r Hfl Hm Hrdy Hlast) as Hh.
  cbn [Rfc1951.blocks_fuel]. fold header.
  pose proof (view_avail r) as Hav. destruct Hrdy as [Hg _]. destruct (good_bits _ Hg).
  destruct (header (view r)) as [[l t] s1| |] eqn:Eh; [| |done].
  - destruct Hh as (nx & h & b & m & E & Em & Hrdy1 & Hv1 & Ht & Hl). set (r1 := fed _ _ _ _) in *.
    rewrite block_header_eq in Eh by lia. destruct (Z.ltb_spec (Rfc1951.avail (view r)) 3); [done|].
    assert (Rfc1951.avail s1 = Rfc1951.avail (view r) - 3) as Ha1 by (by injection Eh as _ _ <-). clear Eh.
    assert (passed r r1 ∧ ctx r1 H pre cur ∧ block_mode t (st r1) ∧ last (st r1) = l) as (Hp1 & Hc1 & Hbm & Hl1).
    { unfold r1 in *. clear r1. unfold typed, block_mode in *. cbv zeta in *.
      destruct (t =? 0); [|destruct (t =? 1); [|destruct (t =? 2)]];
        (split; [by split|]; split; [|done]; destruct Hc; split; try done; by eapply holds_ext; [..|done]). }
    assert (reaches flush r r1) as Hr1 by (by apply reaches_one).
    pose proof (block_does flush r1 H pre cur t Hfl Hc1 Hbm) as Hb. rewrite Hv1 in Hb.
    pose proof (λ out' s', Rfc1951.block_rest t H cur s1 out' s' ltac:(lia)) as Hrest.
    destruct (Rfc1951.block t H cur s1) as [out1 s2|out1|out1]; cbn [does] in Hb.
    + specialize (Hrest _ _ eq_refl). pose proof (Rfc1951.rest_avail _ _ _ Hrest).
      rewrite (passed_out _ _ Hp1) in Hb.
      assert (zlen out1 ≤ out r → ∃ r2, reaches flush r r2 ∧ passed r r2 ∧ ctx r2 H pre out1 ∧
        mode (st r2) = TYPE ∧ last (st r2) = l ∧ view r2 = s2) as Hdone.
      { intros Hroom. destruct (Hb Hroom) as (r2 & ? & Hf2 & ? & ? & ?). exists r2.
        destruct (frame_window _ _ H (framed_state _ _ Hf2)) as (_ & _ & _ & Hl2).
        split_and!; try done; [by eapply reaches_trans| |congruence].
        etransitivity; [exact Hp1|by apply framed_passed]. }
      destruct (Z.eqb_spec l 1) as [El|El].
      * intros Hroom. destruct (Hdone Hroom) as (r2 & Hr2 & Hp2 & Hc2 & Hm2 & Hl2 & <-).
        destruct (last_step flush r2 H pre out1 Hfl Hc2 Hm2 ltac:(lia)) as (r3 & E3 & Hf3 & ? & ? & ? & ?).
        exists r3. split_and!; try done; [eapply reaches_trans; [done|by apply reaches_one]|].
        etransitivity; [exact Hp2|by apply framed_passed].
      * apply does_blocks_room. intros Hroom.
        pose proof (prefix_length _ _ (Rfc1951.blocks_prefix n H out1 s2)) as Hpre.
        destruct Hdone as (r2 & Hr2 & Hp2 & Hc2 & Hm2 & Hl2 & <-); [unfold zlen in *; lia|].
        apply (does_blocks_reaches flush r r2); [done..|]. apply IH; [done|by left|lia|lia].
    + intros Hroom. rewrite <-(passed_out _ _ Hp1) in Hroom. destruct (Hb Hroom) as (r2 & ? & ? & ? & ?).
      exists r2. split_and!; try done; [by eapply leaves_trans|]. eapply stops_trans; [done|by apply ends_stops].
    + intros Hroom. rewrite <-(passed_out _ _ Hp1) in Hroom. destruct (Hb Hroom) as (r2 & ? & ? & ?).
      exists r2. split_and!; try done; [by eapply reaches_trans|]. eapply stops_trans; [done|by apply ends_stops].
  - destruct Hh as (nx & h & b & E). intros _. exists (fed r nx h b).
    split; [by apply leaves_now|]. split; [apply ends_stops; by eapply still_ends|]. split; [apply Hc|].
    change (mode (st (fed r nx h b))) with (mode (st r)). by destruct Hm as [-> | ->].
Qed.

(** ** Leaving *)

(** The return value at [inf_leave]. *)
Definition final_ret (flush : Z) (r : run) : Z :=
  if (((in_ r - zlen (nxt r) =? 0) && (out r - left_ r =? 0)) || (flush =? Z_FINISH)) && (ret r =? Z_OK)
  then Z_BUF_ERROR else ret r.

Definition allocates (ZALLOC : Z → option (list Z)) : Prop := ∀ n, ZALLOC n ≠ None.

Lemma updatewindow_allocates ZALLOC s data copy : allocates ZALLOC → ∃ s', updatewindow ZALLOC s data copy = Some s'.
Proof.
  intros Hz. unfold updatewindow, init_window. destruct (window s); [by eexists|].
  destruct (ZALLOC _) eqn:E; [by eexists|]. by destruct (Hz _ E).
Qed.

Lemma inf_leave_ret ZALLOC flush r : allocates ZALLOC → ∃ s',
  inf_leave ZALLOC flush r = (final_ret flush r, s') ∧ written s' = put r ∧ avail_out s' = left_ r ∧
  next_in s' = match next_in (sm r) with InNull n => InNull n | InBuf _ => InBuf (nxt r) end.
Proof.
  intros Hz. unfold inf_leave. destruct (RESTORE r) as [r1 x] eqn:E. injection E as <- <-.
  match goal with |- context [match ?x with Some s => _ | None => (Z_MEM_ERROR, _) end] =>
    assert (∃ s, x = Some s) as [s ->] end.
  { case_match; [by apply updatewindow_allocates|by eexists]. }
  cbv zeta. destruct (c_true (wrap_ _ .& 4) && _); eexists; (split; [done|]); by split_and!.
Qed.

(** ** A raw stream *)

(** The stream is at the start of its raw data, with the input [input], the
    history [H] in the window, and [pre] already in the output buffer. *)
Record raw_ready (s : z_stream) (st : inflate_state) (H pre input : list Z) : Prop := {
  rr_check : inflateStateCheck (Some s) = Some (s, st);
  rr_mode : mode st = HEAD;
  rr_wrap : wrap_ st = 0;
  rr_last : last st = 0;
  rr_hold : InflateState.hold st = 0;
  rr_bits : InflateState.bits st = 0;
  rr_sane : c_true (sane st) = true;
  rr_arrays : arrays st;
  rr_holds : holds st H;
  rr_have : whave st = zlen H;
  rr_out : out_null s = false;
  rr_in : next_in s = InBuf input;
  rr_bytes : bytes input;
  rr_written : written s = pre
}.

(** How a call that decoded [o] from [input] returns. *)
Definition returns (flush : Z) (input : list Z) (o : Rfc1951.outcome) (ret : Z) (s : z_stream) : Prop :=
  match o with
  | Rfc1951.Done _ rest => ret = Z_STREAM_END ∧
      next_in s = InBuf (drop (Z.to_nat (zlen input - Rfc1951.avail rest / 8)) input)
  | Rfc1951.Starved _ => (ret = Z_OK ∨ ret = Z_BUF_ERROR) ∧ (flush = Z_FINISH → ret = Z_BUF_ERROR)
  | Rfc1951.Invalid _ => ret = Z_DATA_ERROR
  end.

(** The states after the last block of a raw stream. *)
Lemma raw_trailer flush r : mode (st r) = CHECK → wrap_ (st r) = 0 →
  ∃ r', leaves flush r r' Leave ∧ ret r' = Z_STREAM_END ∧ put r' = put r ∧ left_ r' = left_ r ∧
    nxt r' = nxt r ∧ sm r' = sm r.
Proof.
  intros Hm Hw. set (r1 := r <| st := (st r) <| mode := LENGTH |> |>).
  set (r2 := r1 <| st := (st r1) <| mode := DONE |> |>).
  assert (step flush r = (r1, inl ())) as E1 by (at_mode Hm; unfold do_CHECK; by rewrite bind_gets, Hw).
  assert (step flush r1 = (r2, inl ())) as E2.
  { unfold step. rewrite bind_gets. change (mode (st r1)) with LENGTH. cbv iota. unfold do_LENGTH. rewrite bind_gets.
    change (wrap_ (st r1)) with (wrap_ (st r)). by rewrite Hw. }
  exists (r2 <| ret := Z_STREAM_END |>). split; [|by split_and!].
  apply (leaves_trans flush r r2); [|by apply leaves_now].
  eapply reaches_step; [exact E1|]. by apply reaches_one.
Qed.

Lemma bad_leaves flush r : mode (st r) = BAD →
  leaves flush r (r <| ret := Z_DATA_ERROR |>) Leave.
Proof. intros Hm. apply leaves_now. by at_mode Hm. Qed.

(** A call that leaves its state machine returns from [inf_leave]. *)
Lemma leaves_inflate ZALLOC flush s s0 r : inflateStateCheck (Some s) = Some (s, s0) → mode s0 = HEAD →
  out_null s = false → (∃ input, next_in s = InBuf input) → leaves flush (LOAD s s0) r Leave →
  ∃ n, ∀ fuel, (n ≤ fuel)%nat → inflate ZALLOC fuel (Some s) flush
    = let '(ret, s') := inf_leave ZALLOC flush r in Returned ret (Some s').
Proof.
  intros Hck Hm Ho [input Hin] Hl. destruct (leaves_loop _ _ _ _ Hl) as [n Hn]. exists n. intros fuel Hf.
  unfold inflate. rewrite Hck, Ho, Hin. cbn [orb]. rewrite bool_decide_eq_false_2 by (by rewrite Hm).
  rewrite Hn by done. done.
Qed.

Definition has_input (r : run) : Prop := ∃ l, next_in (sm r) = InBuf l.

Lemma leaves_returns ZALLOC flush s s0 r : allocates ZALLOC →
  inflateStateCheck (Some s) = Some (s, s0) → mode s0 = HEAD →
  out_null s = false → (∃ input, next_in s = InBuf input) → leaves flush (LOAD s s0) r Leave → has_input r →
  ∃ n s', (∀ fuel, (n ≤ fuel)%nat → inflate ZALLOC fuel (Some s) flush = Returned (final_ret flush r) (Some s')) ∧
    written s' = put r ∧ avail_out s' = left_ r ∧ next_in s' = InBuf (nxt r).
Proof.
  intros Hz Hck Hm Ho Hin Hl [l Hbl]. destruct (leaves_inflate ZALLOC flush s s0 r) as [n Hn]; try done.
  destruct (inf_leave_ret ZALLOC flush r Hz) as (s' & E & Hws & Has & Hns). rewrite Hbl in Hns.
  exists n, s'. split; [intros fuel Hf; rewrite Hn, E by done; done|done].
Qed.

(** The input pointer is not null before, so it is not null after. *)
Lemma passed_input r r' : passed r r' → has_input r → has_input r'.
Proof.
  intros Hp [l Hl]. pose proof (passed_stream _ _ Hp) as Hcs. unfold has_input.
  destruct (sm r) as [? [] ? ? ? ? ? ? ? ? ? ? ?]; [done|].
  destruct (sm r') as [? [] ? ? ? ? ? ? ? ? ? ? ?]; [done|]. by eexists.
Qed.

(** The rest of the input once the reader is at the rest [rest]. *)
Lemma rest_input r input rest : bytes input → ready r → bits r = 0 → view r = rest →
  Rfc1951.rest_of 0 (Rfc1951.of_bytes input) rest →
  nxt r = drop (Z.to_nat (zlen input - Rfc1951.avail rest / 8)) input.
Proof.
  intros Hby [[_ Hh Hby2] _] Hb Hv (c & Hc & Erest). rewrite Hb in Hh. rewrite view_bytes in Hv by lia.
  rewrite <-Hv in Erest |- *. cbn [Rfc1951.avail Rfc1951.of_bytes] in Hc |- *.
  rewrite (Z.mul_comm 8), Z.div_mul by lia. by eapply of_bytes_rest.
Qed.

(** A call that decoded [o] by the time it left. *)
Definition decoded (ZALLOC : Z → option (list Z)) (flush : Z) (s : z_stream) (pre input : list Z)
    (o : Rfc1951.outcome) : Prop :=
  ∃ n ret s', (∀ fuel, (n ≤ fuel)%nat → inflate ZALLOC fuel (Some s) flush = Returned ret (Some s')) ∧
    written s' = pre ++ Rfc1951.output o ∧ avail_out s' = avail_out s - zlen (Rfc1951.output o) ∧
    returns flush input o ret s'.

Lemma leaves_decoded ZALLOC flush s s0 pre input o r : allocates ZALLOC →
  inflateStateCheck (Some s) = Some (s, s0) → mode s0 = HEAD → out_null s = false → next_in s = InBuf input →
  leaves flush (LOAD s s0) r Leave → has_input r →
  put r = pre ++ Rfc1951.output o → left_ r = avail_out s - zlen (Rfc1951.output o) →
  match o with
  | Rfc1951.Done _ rest => ret r = Z_STREAM_END ∧
      nxt r = drop (Z.to_nat (zlen input - Rfc1951.avail rest / 8)) input
  | Rfc1951.Starved _ => ret r = Z_OK
  | Rfc1951.Invalid _ => ret r = Z_DATA_ERROR
  end → decoded ZALLOC flush s pre input o.
Proof.
  intros Hz Hck Hm Ho Hin Hl Hi Hp Hleft Hret.
  destruct (leaves_returns ZALLOC flush s s0 r) as (n & s' & Hn & Hws & Has & Hns); [done..|by exists input|done|done|].
  exists n, (final_ret flush r), s'. split; [done|]. split; [congruence|]. split; [congruence|].
  unfold returns, final_ret. destruct o.
  - destruct Hret as [-> <-]. by rewrite andb_false_r.
  - rewrite Hret. change (Z_OK =? Z_OK) with true. rewrite andb_true_r.
    split; [destruct (_ || _); auto|]. intros ->. by rewrite orb_true_r.
  - rewrite Hret. by rewrite andb_false_r.
Qed.

Lemma inflate_raw ZALLOC flush s s0 H pre input : raw_ready s s0 H pre input → allocates ZALLOC → no_stop flush →
  let o := Rfc1951.blocks H (Rfc1951.of_bytes input) in
  zlen (Rfc1951.output o) < avail_out s → decoded ZALLOC flush s pre input o.
Proof.
  intros [Hck Hm Hw Hlast Hh Hb Hsane Harr Hholds Hhave Hon Hin Hby Hwr] Hz Hfl o Hroom.
  set (r0 := LOAD s s0). set (r1 := r0 <| st := s0 <| mode := TYPEDO |> |>).
  assert (step flush r0 = (r1, inl ())) as E0.
  { assert (mode (st r0) = HEAD) as Hm0 by done. at_mode Hm0. unfold do_HEAD. rewrite bind_gets.
    change (wrap_ (st r0)) with (wrap_ s0). by rewrite Hw. }
  assert (nxt r1 = input) as Hn1 by (cbn; by rewrite Hin).
  assert (view r1 = Rfc1951.of_bytes input) as Hv1 by (rewrite <-Hn1; by apply view_bytes).
  pose proof (zlen_nonneg (Rfc1951.output o)) as Hzo.
  assert (ctx r1 H pre []) as Hc1.
  { split; try done.
    - split; [split|]; cbn; rewrite ?Hb, ?Hh, ?Hin; [lia|done|done|lia].
    - by eapply holds_ext; [..|done].
    - cbn. by rewrite app_nil_r.
    - cbn. change (zlen (@nil Z)) with 0. lia.
    - cbn. lia. }
  pose proof (zlen_nonneg input) as Hzi.
  assert (does_blocks flush r1 H pre o) as Hd.
  { unfold o, Rfc1951.blocks. rewrite <-Hv1. apply blocks_run; [done|done|by right|done|].
    rewrite Hv1. cbn [Rfc1951.avail Rfc1951.of_bytes]. lia. }
  assert (reaches flush r0 r1) as Hr01 by (by apply reaches_one).
  change (avail_out s) with (out r1) in Hroom.
  assert (has_input r1) as Hi1 by (by exists input).
  destruct o as [cur rest|cur|cur] eqn:Eo; cbn [does_blocks Rfc1951.output] in *.
  - destruct (Hd ltac:(lia)) as (r2 & Hr2 & Hp2 & Hc2 & Hm2 & Hv2 & Hb2).
    assert (wrap_ (st r2) = 0) as Hw2.
    { pose proof (passed_state _ _ Hp2) as Hu. apply (f_equal wrap_) in Hu. exact (eq_trans Hu Hw). }
    destruct (raw_trailer flush r2 Hm2 Hw2) as (r3 & Hl3 & Hret3 & Hput3 & Hleft3 & Hn3 & Hsm3).
    apply (leaves_decoded ZALLOC flush s s0 pre input _ r3); try done.
    + eapply leaves_trans; [exact Hr01|by eapply leaves_trans].
    + unfold has_input. rewrite Hsm3. by eapply passed_input.
    + by rewrite Hput3; apply Hc2.
    + pose proof (ctx_out _ _ _ _ Hc2) as Ho2. rewrite (passed_out _ _ Hp2) in Ho2. cbn in Ho2 |- *. lia.
    + split; [done|]. rewrite Hn3. unfold o, Rfc1951.blocks in Eo. apply Rfc1951.blocks_rest in Eo; [|cbn; lia].
      apply (rest_input r2); try done. apply Hc2.
  - destruct (Hd ltac:(lia)) as (r2 & Hl2 & (Hp2 & Hput2 & Hleft2 & _) & Hret2 & _).
    apply (leaves_decoded ZALLOC flush s s0 pre input _ r2); try done; [by eapply leaves_trans|by eapply passed_input].
  - destruct (Hd ltac:(lia)) as (r2 & Hr2 & (Hp2 & Hput2 & Hleft2 & _) & Hm2).
    apply (leaves_decoded ZALLOC flush s s0 pre input _ (r2 <| ret := Z_DATA_ERROR |>)); try done.
    + eapply leaves_trans; [exact Hr01|]. eapply leaves_trans; [done|by apply bad_leaves].
    + exact (passed_input _ _ Hp2 Hi1).
Qed.

(** ** Initialisation *)

(** The state inflateInit2_ leaves for the wrap request [w] and [wb] window bits. *)
Definition init_state (fresh : inflate_state) (s0 : z_stream) (w wb : Z) : inflate_state :=
  State (self s0) HEAD 0 w 0 (flags fresh) 32768 (check fresh) 0 None wb 0 0 0 None 0 0
    (length_ fresh) (offset fresh) (extra fresh) (InCodes 0) (InCodes 0) (lenbits fresh) (distbits fresh)
    (ncode fresh) (nlen fresh) (ndist fresh) (have fresh) 0 (lens fresh) (work fresh) (codes fresh) 1 (-1) (was fresh).

Lemma init_stream fresh s0 windowBits w wb : wrap_request windowBits = (w, wb) → 8 ≤ wb ≤ 15 →
  ∃ s, inflateInit2_ (Some fresh) (Some s0) windowBits (Some ZLIB_VERSION) sizeof_z_stream = (Z_OK, Some s) ∧
    inflateStateCheck (Some s) = Some (s, init_state fresh s0 w wb) ∧ out_null s = out_null s0 ∧
    next_in s = next_in s0 ∧ written s = written s0 ∧ avail_out s = avail_out s0.
Proof.
  intros Hw Hwb. unfold inflateInit2_. change (negb (ZLIB_VERSION.[0] =? ZLIB_VERSION.[0])
    || negb (sizeof_z_stream =? sizeof_z_stream)) with false. cbv iota.
  assert (∀ s st, state s = Some st → zalloc s = true → zfree s = true → InflateState.strm st = self s →
    mode st = HEAD → inflateStateCheck (Some s) = Some (s, st)) as Hck.
  { intros s st Hs Ha Hf Hst Hm. unfold inflateStateCheck. by rewrite Ha, Hf, Hs, Hst, Hm, Z.eqb_refl. }
  unfold inflateReset2. erewrite Hck by reflexivity. rewrite Hw.
  assert (c_true wb && ((wb <? 8) || (15 <? wb)) = false) as ->.
  { destruct (Z.ltb_spec wb 8), (Z.ltb_spec 15 wb); [lia..|]. by rewrite andb_false_r. }
  cbn [window with_state]. unfold inflateReset. erewrite Hck by reflexivity.
  unfold inflateResetKeep. erewrite Hck by reflexivity.
  change (negb (Z_OK =? Z_OK)) with false. cbv iota. eexists. split; [done|]. split; [|].
  - unfold reset_keep. cbv zeta. destruct (c_true _); by apply Hck.
  - unfold reset_keep. cbv zeta. destruct (c_true _); by split_and!.
Qed.

Lemma wrap_request_raw wb : 8 ≤ wb ≤ 15 → wrap_request (- wb) = (0, wb).
Proof. intros. unfold wrap_request. destruct (Z.ltb_spec (- wb) 0); [|lia]. f_equal. lia. Qed.

(** C2. A call of inflate() on a raw stream is the decoder of RFC 1951. After
    inflateInit2_ with -8 to -15 window bits, one call with the whole input and
    room for one byte more than the output stops, whatever the flush argument
    (but Z_BLOCK and Z_TREES, which stop early), with exactly the bytes the
    bit-by-bit reference decoder produces, and returns Z_STREAM_END at the end of the
    last block with the rest of the input untouched, Z_DATA_ERROR where the
    reference decoder finds the stream invalid, and Z_OK or Z_BUF_ERROR where the
    input ends early. *)
Theorem inflate_decodes_rfc1951 ZALLOC fresh s0 wb flush input :
  allocates ZALLOC → arrays fresh → 8 ≤ wb ≤ 15 → no_stop flush →
  out_null s0 = false → next_in s0 = InBuf input → bytes input →
  let o := Rfc1951.blocks [] (Rfc1951.of_bytes input) in
  zlen (Rfc1951.output o) < avail_out s0 →
  ∃ s n ret s',
    inflateInit2_ (Some fresh) (Some s0) (- wb) (Some ZLIB_VERSION) sizeof_z_stream = (Z_OK, Some s) ∧
    (∀ fuel, (n ≤ fuel)%nat → inflate ZALLOC fuel (Some s) flush = Returned ret (Some s')) ∧
    written s' = written s0 ++ Rfc1951.output o ∧
    avail_out s' = avail_out s0 - zlen (Rfc1951.output o) ∧
    returns flush input o ret s'.
Proof.
  intros Hz Harr Hwb Hfl Hon Hin Hby o Hroom.
  destruct (init_stream fresh s0 (- wb) 0 wb (wrap_request_raw wb Hwb) Hwb) as (s & Hi & Hck & Ho & Hn & Hw & Ha).
  assert (raw_ready s (init_state fresh s0 0 wb) [] (written s0) input) as Hr.
  { split; try done; try congruence. right. split_and!; try done. simpl. lia. }
  rewrite <-Ha in Hroom. destruct (inflate_raw ZALLOC flush s _ [] (written s0) input Hr Hz Hfl Hroom)
    as (n & ret & s' & ? & ? & ? & ?).
  exists s, n, ret, s'. rewrite <-Ha. by split_and!.
Qed.

(** "hello hello hello" in one fixed block, and a byte that follows it. *)
Definition hello_raw : list Z := [203; 72; 205; 201; 201; 87; 200; 64; 144; 0; 33].
Definition hello : list Z := [104; 101; 108; 108; 111; 32; 104; 101; 108; 108; 111; 32; 104; 101; 108; 108; 111].
Definition hello_stream (input : list Z) : z_stream :=
  Stream 7 (InBuf input) 0 false [] 40 0 None None false false 0 0.
Definition zero_alloc (n : Z) : option (list Z) := Some (replicate (Z.to_nat n) 0).

Lemma hello_decodes : Rfc1951.blocks [] (Rfc1951.of_bytes hello_raw) = Rfc1951.Done hello (Rfc1951.of_bytes [33]).
Proof. vm_compute. reflexivity. Qed.

Lemma inflate_decodes_rfc1951_witness : ∃ s n ret s',
  inflateInit2_ (Some (fresh_raw 0)) (Some (hello_stream hello_raw)) (- 15) (Some ZLIB_VERSION) sizeof_z_stream
    = (Z_OK, Some s) ∧
  (∀ fuel, (n ≤ fuel)%nat → inflate zero_alloc fuel (Some s) Z_FINISH = Returned ret (Some s')) ∧
  written s' = hello ∧ ret = Z_STREAM_END ∧ next_in s' = InBuf [33].
Proof.
  pose proof (inflate_decodes_rfc1951 zero_alloc (fresh_raw 0) (hello_stream hello_raw) 15 Z_FINISH hello_raw) as H.
  cbv zeta in H. rewrite hello_decodes in H. cbn [Rfc1951.output returns] in H.
  destruct H as (s & n & ret & s' & Hi & Hr & Hw & _ & Hret & Hn).
  - done.
  - done.
  - lia.
  - done.
  - reflexivity.
  - reflexivity.
  - apply (bool_decide_unpack _). vm_compute. reflexivity.
  - vm_compute. reflexivity.
  - by exists s, n, ret, s'.
Defined.

(** ** Preset dictionaries *)

(** The window knows no more of the history than its own contents. *)
Lemma in_use_last s H : in_use s H →
  let H' := last_bytes (Z.min (zlen H) (wsize s)) H in in_use s H' ∧ whave s = zlen H'.
Proof.
  intros [Hb Hsz Hlen Hsome Hnx Hhv Hfill Hring] H'. pose proof (zlen_nonneg H).
  assert (zlen H' = Z.min (zlen H) (wsize s)) as Hz by (apply zlen_last_bytes; lia).
  split; [|lia]. split; try done; [lia|]. intros d Hd. rewrite Hring by done. unfold H'.
  rewrite aget_last_bytes by (fold H'; lia). f_equal. fold H'. lia.
Qed.

(** Only the window is updated. *)
Definition windowless (s : inflate_state) : inflate_state :=
  s <| window := None |> <| wsize := 0 |> <| wnext := 0 |> <| whave := 0 |>.

Lemma updatewindow_only ZALLOC s data copy s' : updatewindow ZALLOC s data copy = Some s' →
  windowless s' = windowless s.
Proof.
  unfold updatewindow. destruct (init_window ZALLOC s) as [s1|] eqn:E; [|done]. intros [= <-].
  transitivity (windowless s1).
  - unfold copy_window. destruct (_ <=? _); [done|]. cbv zeta. by destruct (c_true _).
  - unfold init_window in E. destruct (window s); [|destruct (ZALLOC _) as [w|]; [|done]];
      injection E as <-; by destruct (_ =? 0).
Qed.

(** A checked stream stays so with another state of its own. *)
Lemma check_with_state s st st' : inflateStateCheck (Some s) = Some (s, st) →
  InflateState.strm st' = InflateState.strm st →
  inflateStateCheck (Some (with_state st' s)) = Some (with_state st' s, st').
Proof.
  unfold inflateStateCheck. intros E Es. cbn [zalloc zfree state self with_state].
  change (zalloc (with_state st' s)) with (zalloc s). change (zfree (with_state st' s)) with (zfree s).
  change (self (with_state st' s)) with (self s). change (state (with_state st' s)) with (Some st').
  destruct (negb (zalloc s) || negb (zfree s)); [done|]. destruct (state s) as [st1|]; [|done].
  rewrite Es. destruct (negb (InflateState.strm st1 =? self s)) eqn:E1; [done|]. cbn [orb] in E.
  assert (st1 = st) as -> by (by destruct (_ || _); [|injection E]).
  rewrite E1. by destruct (mode st').
Qed.

(** C20. inflateSetDictionary on a fresh raw stream gives the decoder its
    history: the call succeeds, and inflate() then decodes what the reference
    decoder decodes with the last 2^wbits bytes of the dictionary before the
    output, so distances reach into the dictionary exactly that far. *)
Theorem inflate_raw_dictionary ZALLOC fresh s0 wb flush dict input :
  allocates ZALLOC → (∀ n w, 0 ≤ n → ZALLOC n = Some w → zlen w = n) →
  arrays fresh → 8 ≤ wb ≤ 15 → no_stop flush →
  out_null s0 = false → next_in s0 = InBuf input → bytes input →
  let o := Rfc1951.blocks (last_bytes (Z.min (zlen dict) (2 ^ wb)) dict) (Rfc1951.of_bytes input) in
  zlen (Rfc1951.output o) < avail_out s0 →
  ∃ s sd n ret s',
    inflateInit2_ (Some fresh) (Some s0) (- wb) (Some ZLIB_VERSION) sizeof_z_stream = (Z_OK, Some s) ∧
    inflateSetDictionary ZALLOC (Some s) dict = (Z_OK, Some sd) ∧
    (∀ fuel, (n ≤ fuel)%nat → inflate ZALLOC fuel (Some sd) flush = Returned ret (Some s')) ∧
    written s' = written s0 ++ Rfc1951.output o ∧ returns flush input o ret s'.
Proof.
  intros Hz Hsz Harr Hwb Hfl Hon Hin Hby o Hroom.
  destruct (init_stream fresh s0 (- wb) 0 wb (wrap_request_raw wb Hwb) Hwb) as (s & Hi & Hck & Ho & Hn & Hw & Ha).
  set (st0 := init_state fresh s0 0 wb) in *.
  assert (holds st0 []) as Hh by (right; split_and!; try done; simpl; lia).
  destruct (updatewindow_allocates ZALLOC st0 dict (zlen dict) Hz) as [st1 Hup].
  destruct (updatewindow_ok ZALLOC Hsz st0 [] dict (zlen dict) st1 Hh) as [Huse Hwb1]; [pose proof (zlen_nonneg dict); lia|done|].
  assert (last_bytes (zlen dict) dict = dict) as Hld.
  { unfold last_bytes, zlen. rewrite Nat2Z.id, Nat.sub_diag. done. }
  simpl app in Huse. rewrite Hld in Huse. destruct (in_use_last st1 dict Huse) as [Huse' Hhave].
  assert (wsize st1 = 2 ^ wb) as Hws by (rewrite (use_size _ _ Huse), Hwb1; done). rewrite Hws in Huse', Hhave.
  set (st2 := st1 <| havedict := 1 |>). set (sd := with_state st2 s).
  assert (inflateSetDictionary ZALLOC (Some s) dict = (Z_OK, Some sd)) as Hset.
  { unfold inflateSetDictionary. rewrite Hck. change (wrap_ st0) with 0. change (mode st0) with HEAD.
    change (c_true 0 && negb (bool_decide (HEAD = DICT))) with false. cbn [bool_decide andb].
    match goal with |- context [updatewindow ZALLOC ?a ?b ?c] =>
      assert (updatewindow ZALLOC a b c = Some st1) as E by exact Hup; rewrite E end. done. }
  pose proof (updatewindow_only _ _ _ _ _ Hup) as Hrest.
  assert (raw_ready sd st2 (last_bytes (Z.min (zlen dict) (2 ^ wb)) dict) (written s0) input) as Hr.
  { unfold sd, st2. clear Hset sd st2. destruct st1. injection Hrest as -> -> -> -> -> -> -> -> -> -> -> -> -> -> -> -> -> -> -> -> -> -> -> -> -> -> -> -> -> -> ->.
    split; try done.
    - by apply (check_with_state s st0).
    - left. by destruct Huse'; split.
    - change (out_null s = false). congruence.
    - change (next_in s = InBuf input). congruence. }
  rewrite <-Ha in Hroom. destruct (inflate_raw ZALLOC flush sd st2 _ (written s0) input Hr Hz Hfl Hroom)
    as (n & ret & s' & ? & ? & ? & ?).
  exists s, sd, n, ret, s'. by split_and!.
Qed.

(** The same text, compressed with the dictionary "say hello". *)
Definition hello_dict_raw : list Z := [3; 19; 10; 72; 36; 0].
Definition say_hello : list Z := [115; 97; 121; 32; 104; 101; 108; 108; 111].

Lemma hello_dict_decodes :
  Rfc1951.blocks (last_bytes (Z.min (zlen say_hello) (2 ^ 15)) say_hello) (Rfc1951.of_bytes hello_dict_raw)
  = Rfc1951.Done hello (Rfc1951.of_bytes []).
Proof. vm_compute. reflexivity. Qed.

Lemma zero_alloc_size n w : 0 ≤ n → zero_alloc n = Some w → zlen w = n.
Proof. intros Hn [= <-]. unfold zlen. rewrite length_replicate. lia. Qed.

Lemma inflate_raw_dictionary_witness : ∃ s sd n ret s',
  inflateInit2_ (Some (fresh_raw 0)) (Some (hello_stream hello_dict_raw)) (- 15) (Some ZLIB_VERSION) sizeof_z_stream
    = (Z_OK, Some s) ∧
  inflateSetDictionary zero_alloc (Some s) say_hello = (Z_OK, Some sd) ∧
  (∀ fuel, (n ≤ fuel)%nat → inflate zero_alloc fuel (Some sd) Z_NO_FLUSH = Returned ret (Some s')) ∧
  written s' = hello ∧ ret = Z_STREAM_END.
Proof.
  pose proof (inflate_raw_dictionary zero_alloc (fresh_raw 0) (hello_stream hello_dict_raw) 15 Z_NO_FLUSH
    say_hello hello_dict_raw) as H.
  cbv zeta in H. rewrite hello_dict_decodes in H. cbn [Rfc1951.output returns] in H.
  destruct H as (s & sd & n & ret & s' & Hi & Hd & Hr & Hw & Hret & _).
  - done.
  - exact zero_alloc_size.
  - done.
  - lia.
  - done.
  - reflexivity.
  - reflexivity.
  - apply (bool_decide_unpack _). vm_compute. reflexivity.
  - vm_compute. reflexivity.
  - by exists s, sd, n, ret, s'.
Defined.

End RawInflate.
