(* ===== verification/ZlibInflate.v ===== *)
(** * inflate() is a decoder of RFC 1950

    The header, the dictionary identifier and the checksum of a zlib stream,
    around the blocks: HEAD, DICTID, DICT, CHECK and LENGTH with a zlib wrapper. *)

From Stdlib Require Import String.
From S2P Require Import Prelude Adler32 Crc32 Inftrees InftreesDecode Rfc1951 Rfc1950 InflateState Inffast.
From S2P Require Import Inflate Runs BitReader Window InflateCodes FastCodes Blocks Dynamic RawInflate.

Module ZlibInflate.
Import InflateState Inflate Runs BitReader Window InflateCodes FastCodes Blocks RawInflate.

(** ** Reading whole bytes *)

(** From an empty bit buffer, [n] bits that are whole bytes are read exactly. *)
Lemma NEEDBITS_bytes n r {A} (k : M A) : good r → bits r = 0 → n = 16 ∨ n = 32 →
  ∃ nx h b, let r' := fed r nx h b in
    (NEEDBITS n;; k) r = (if Rfc1951.avail (view r) <? n then (r', inr Leave) else k r') ∧
    (n ≤ Rfc1951.avail (view r) → good r' ∧ view r' = view r ∧ b = n ∧ h = Rfc1951.value (view r) mod 2 ^ n).
Proof.
  intros Hg Hb Hn. destruct (NEEDBITS_reads n r Hg) as (nx & h & b & E & Hg' & Hv' & Hmod & _ & Hneed);
    [lia|right; rewrite Hb; destruct Hn as [-> | ->]; done|].
  exists nx, h, b. split; [unfold mbind, M_bind; rewrite E; by case_match|]. intros Ha. specialize (Hneed Ha).
  assert (b = n) as ->.
  { rewrite Hb in Hmod. pose proof (Z.div_mod b 8 ltac:(lia)). change (0 mod 8) with 0 in Hmod. lia. }
  split_and!; try done. pose proof (view_hold _ Hg') as Hh. rewrite Hv' in Hh. exact Hh.
Qed.

(** ** HEAD *)

(** What the header says, of its 16 bits. *)
Lemma header_bits h : 0 ≤ h < 2 ^ 16 →
  c_true (u32 (u32 ((h mod 2 ^ 8) ≪ 8) + (h ≫ 8)) mod 31) = negb ((256 * (h mod 2 ^ 8) + h / 2 ^ 8) mod 31 =? 0) ∧
  h mod 2 ^ 4 = (h mod 2 ^ 8) mod 16 ∧ (h / 2 ^ 4) mod 2 ^ 4 = (h mod 2 ^ 8) / 16 ∧
  c_true ((h ≫ 4) .& 0x200) = ((h / 2 ^ 8 / 32) mod 2 =? 1).
Proof.
  intros Hh. assert (0 ≤ h / 2 ^ 8 < 2 ^ 8) as Hf by (split; [apply Z.div_pos|apply Z.div_lt_upper_bound]; lia).
  pose proof (Z.mod_pos_bound h (2 ^ 8) ltac:(lia)) as Hc. split_and!.
  - rewrite Z.shiftr_div_pow2, Z.shiftl_mul_pow2 by lia.
    rewrite (wrap_small 32 (h mod 2 ^ 8 * 2 ^ 8)), wrap_small by (unfold ubits; lia).
    replace (h mod 2 ^ 8 * 2 ^ 8) with (256 * (h mod 2 ^ 8)) by lia. done.
  - change 16 with (2 ^ 4). symmetry. apply mod_mod_pow2. lia.
  - change (2 ^ 8) with (2 ^ (4 + 4)). rewrite mod_pow2_split by lia. change 16 with (2 ^ 4).
    rewrite (Z.mul_comm (2 ^ 4)), Z.div_add, (Z.div_small (h mod 2 ^ 4)) by (lia || apply Z.mod_pos_bound; lia). lia.
  - change 32 with (2 ^ 5). rewrite Z.div_div by lia. change (2 ^ 8 * 2 ^ 5) with (2 ^ 13).
    assert (((h ≫ 4) .& 0x200) = if Z.testbit (h ≫ 4) 9 then 2 ^ 9 else 0) as ->.
    { apply Z.bits_inj'. intros i Hi. rewrite Z.land_spec. change 0x200 with (2 ^ 9). rewrite Z.pow2_bits_eqb by lia.
      destruct (Z.eqb_spec 9 i) as [<-|Hne].
      - rewrite andb_true_r. by destruct (Z.testbit (h ≫ 4) 9).
      - rewrite andb_false_r. destruct (Z.testbit (h ≫ 4) 9); [|by rewrite Z.bits_0].
        symmetry. rewrite Z.pow2_bits_eqb by lia. by apply Z.eqb_neq. }
    rewrite Z.shiftr_spec by lia. change (9 + 4) with 13. pose proof (Z.testbit_true h 13 ltac:(lia)) as Ht.
    destruct (Z.testbit h 13); [by rewrite (proj1 Ht eq_refl)|].
    destruct (Z.eqb_spec ((h / 2 ^ 13) mod 2) 1) as [E|_]; [|done]. by apply Ht in E.
Qed.

(** The run once the header is read: a plain stream goes on to the blocks, a
    stream with a preset dictionary to its identifier. *)
Record headed (r r' : run) (fdict : bool) : Prop := {
  hd_state : ∃ d, st r' = (st r) <| flags := 0 |> <| dmax := d |> <| check := 1 |>
               <| mode := if fdict then DICTID else TYPE |>;
  hd_stream : sm r' = (sm r) <| adler := 1 |>;
  hd_put : put r' = put r;
  hd_left : left_ r' = left_ r;
  hd_in : in_ r' = in_ r;
  hd_out : out r' = out r;
  hd_ret : ret r' = ret r;
  hd_hold : hold r' = 0;
  hd_bits : bits r' = 0;
  hd_bytes : bytes (nxt r')
}.

(** The header [h], all of it in the bit buffer. *)
Lemma head_zlib_run r wb h : wrap_ (st r) = 5 → wbits (st r) = wb → 8 ≤ wb ≤ 15 → flags (st r) = 0 →
  hold r = h → 0 ≤ h < 2 ^ 16 → bits r = 16 → bytes (nxt r) →
  let cmf := h mod 2 ^ 8 in let flg := h / 2 ^ 8 in
  if negb ((256 * cmf + flg) mod 31 =? 0) || negb (cmf mod 16 =? 8) || (wb <? cmf / 16 + 8) then
    ∃ r', head_zlib r = (r', inl ()) ∧ mode (st r') = BAD ∧ put r' = put r ∧
      left_ r' = left_ r ∧ next_in (sm r') = next_in (sm r)
  else ∃ r', head_zlib r = (r', inl ()) ∧ headed r r' ((flg / 32) mod 2 =? 1) ∧ nxt r' = nxt r.
Proof.
  intros Hw Hwb Hwb15 Hfl Hh Hh16 Hb Hby cmf flg. destruct (header_bits h Hh16) as (B1 & B2 & B3 & B4).
  fold cmf flg in B1, B2, B3, B4.
  assert (∀ m, ∃ r', bad m r = (r', inl ()) ∧ mode (st r') = BAD ∧ put r' = put r ∧
    left_ r' = left_ r ∧ next_in (sm r') = next_in (sm r)) as Hbad by (intros; by eexists).
  assert (∀ n, 0 ≤ n → BITS n r = (r, inl (h mod 2 ^ n))) as HB.
  { intros n Hn. unfold BITS, gets. by rewrite Hh, mask_mod. }
  unfold head_zlib. rewrite !bind_gets, Hw, Hh.
  rewrite (bind_inl _ _ _ _ _ (HB 8 ltac:(lia))). cbv beta. rewrite (bind_inl _ _ _ _ _ (HB 4 ltac:(lia))). cbv beta.
  change ((5 .& 1) =? 0) with false. cbn [orb]. fold cmf. rewrite B1, B2.
  destruct (negb (_ mod 31 =? 0)); cbn [orb]; [apply Hbad|].
  destruct (Z.eqb_spec (cmf mod 16) 8) as [E8|E8]; cycle 1.
  { destruct (Z.eqb_spec (cmf mod 16) Z_DEFLATED); [done|]. cbn [negb orb]. apply Hbad. }
  rewrite E8. change (negb (8 =? Z_DEFLATED)) with false. cbn [negb orb]. cbv iota.
  assert (DROPBITS 4 r = (r <| hold := h ≫ 4 |> <| bits := 12 |>, inl ())) as ED.
  { unfold DROPBITS, modify. by rewrite Hh, Hb. }
  rewrite (bind_inl _ _ _ _ _ ED). cbv beta. set (r1 := r <| hold := _ |> <| bits := _ |>).
  assert (BITS 4 r1 = (r1, inl (cmf / 16))) as EB.
  { unfold BITS, gets. rewrite mask_mod by lia. change (hold r1) with (h ≫ 4).
    by rewrite Z.shiftr_div_pow2, B3 by lia. }
  rewrite (bind_inl _ _ _ _ _ EB). cbv beta zeta. rewrite bind_upd, bind_gets. cbv beta.
  assert (∀ s, wbits s = wb → (if wbits s =? 0 then s <| wbits := cmf / 16 + 8 |> else s) = s) as Ewb.
  { intros s ->. by destruct (Z.eqb_spec wb 0); [lia|]. }
  rewrite (Ewb (st r1)) by done. change (r1 <| st := st r1 |>) with r1.
  change (wbits (st r1)) with (wbits (st r)). rewrite Hwb.
  assert ((15 <? cmf / 16 + 8) || (wb <? cmf / 16 + 8) = (wb <? cmf / 16 + 8)) as ->.
  { destruct (Z.ltb_spec 15 (cmf / 16 + 8)), (Z.ltb_spec wb (cmf / 16 + 8)); try done; lia. }
  destruct (wb <? cmf / 16 + 8).
  { match goal with |- context [bad ?m r1] => destruct (Hbad m) as (r' & Eb & ? & ? & ? & ?) end.
    eexists. split; [done|]. by split_and!. }
  rewrite bind_upd. unfold set_check. eexists. split; [done|]. split; [|done]. split; try done.
  exists (1 ≪ (cmf / 16 + 8)).
  match goal with |- context [c_true (?x .& 0x200)] => change (c_true (x .& 0x200)) with (c_true ((h ≫ 4) .& 0x200)) end.
  rewrite B4. unfold r1. clear Hbad HB ED EB r1. destruct r as [[] ]. cbn in Hfl. subst. done.
Qed.

Lemma upd_head_none f r : head (st r) = None → upd_head f r = (r, inl ()).
Proof. intros E. unfold upd_head, upd, modify. rewrite E. by destruct r as [[] ]; cbn in *; subst. Qed.

Lemma head_step flush r wb : mode (st r) = HEAD → wrap_ (st r) = 5 → wbits (st r) = wb → 8 ≤ wb ≤ 15 →
  head (st r) = None → good r → bits r = 0 →
  match Rfc1950.header wb (view r) with
  | Rfc1951.Short => ∃ nx h b, step flush r = (fed r nx h b, inr Leave)
  | Rfc1951.Bad => ∃ r', step flush r = (r', inl ()) ∧ mode (st r') = BAD ∧ put r' = put r ∧
      left_ r' = left_ r ∧ next_in (sm r') = next_in (sm r)
  | Rfc1951.Ok fdict s => ∃ r', step flush r = (r', inl ()) ∧ headed r r' fdict ∧ view r' = s
  end.
Proof.
  intros Hm Hw Hwb Hwb15 Hhead Hg Hb. pose proof (view_avail r) as Hav.
  rewrite Rfc1950.header_eq by (destruct (good_bits _ Hg); lia). at_mode Hm. unfold do_HEAD.
  rewrite bind_gets, Hw. change (5 =? 0) with false. cbv iota.
  match goal with |- context [(NEEDBITS 16;; ?k) r] =>
    destruct (NEEDBITS_bytes 16 r k Hg Hb) as (nx & h & b & E & Hk); [by left|]; rewrite E end.
  destruct (Z.ltb_spec (Rfc1951.avail (view r)) 16) as [|Hok]; [by exists nx, h, b|].
  destruct (Hk Hok) as (Hg1 & Hv1 & -> & Eh). set (r1 := fed r nx h 16) in *. rewrite bind_gets. cbv beta.
  change (c_true (5 .& 2)) with false. cbn [andb]. rewrite bind_upd.
  set (r2 := r1 <| st := (st r1) <| flags := 0 |> |>).
  assert (upd_head (λ h0, h0 <| done_ := -1 |>) r2 = (r2, inl ())) as Eh0.
  { by apply upd_head_none. }
  rewrite (bind_inl _ _ _ _ _ Eh0). cbv beta. clear Eh0 E Hk. set (V := Rfc1951.value (view r)) in *.
  assert (0 ≤ h < 2 ^ 16) as Hh by (rewrite Eh; apply Z.mod_pos_bound; lia).
  assert (V mod 2 ^ 8 = h mod 2 ^ 8) as -> by (rewrite Eh; symmetry; apply mod_mod_pow2; lia).
  assert ((V / 2 ^ 8) mod 2 ^ 8 = h / 2 ^ 8) as ->.
  { rewrite Eh. change (2 ^ 16) with (2 ^ (8 + 8)). rewrite mod_pow2_split, (Z.mul_comm (2 ^ 8) (_ mod _)), Z.div_add,
      (Z.div_small (V mod 2 ^ 8)) by (lia || apply Z.mod_pos_bound; lia). lia. }
  pose proof (head_zlib_run r2 wb h Hw Hwb Hwb15 eq_refl eq_refl Hh eq_refl (good_bytes _ Hg1)) as Hz. cbv zeta in Hz.
  destruct (_ || _ || _).
  { destruct Hz as (r' & ? & ? & ? & ? & ?). exists r'. by split_and!. }
  destruct Hz as (r' & E' & [[d Hd] ? ? ? ? ? ? Hh' Hb' ?] & Hn'). exists r'. split; [done|]. split.
  { split; try done. exists d. rewrite Hd. done. }
  rewrite view_bytes, Hn' by done. change (nxt r2) with (nxt r1). rewrite <-Hv1.
  unfold Rfc1951.dropped, Rfc1951.of_bytes, view. change (bits r1) with 16. change (hold r1) with h.
  cbn [Rfc1951.value Rfc1951.avail]. f_equal; [|lia].
  rewrite (Z.mul_comm (2 ^ 16)), Z.div_add, Z.div_small by lia. done.
Qed.

(** ** The dictionary identifier *)

Lemma dict_run flush r : mode (st r) = DICTID → havedict (st r) = 0 → good r → bits r = 0 →
  match Rfc1950.be32 (view r) with
  | Rfc1951.Short => ∃ nx h b, step flush r = (fed r nx h b, inr Leave)
  | Rfc1951.Bad => False
  | Rfc1951.Ok id s => ∃ r', leaves flush r r' (Return Z_NEED_DICT) ∧ adler (sm r') = id ∧
      written (sm r') = put r
  end.
Proof.
  intros Hm Hd Hg Hb. pose proof (view_avail r) as Hav.
  rewrite Rfc1950.be32_eq by (destruct (good_bits _ Hg); lia).
  assert (step flush r = do_DICTID r) as Es by (by at_mode Hm). unfold do_DICTID in Es.
  match type of Es with _ = (NEEDBITS 32;; ?k) r =>
    destruct (NEEDBITS_bytes 32 r k Hg Hb) as (nx & h & b & E & Hk); [by right|]; rewrite E in Es end.
  destruct (Z.ltb_spec (Rfc1951.avail (view r)) 32) as [|Hok]; [by exists nx, h, b|].
  destruct (Hk Hok) as (Hg1 & Hv1 & -> & Eh). set (r1 := fed r nx h 32) in *.
  rewrite bind_gets in Es. unfold set_check, INITBITS, set_mode, upd, modify, mbind, M_bind in Es. cbv beta iota in Es.
  match type of Es with _ = (?x, _) => set (r2 := x) in Es end.
  eexists. split.
  - eapply leaves_trans; [apply reaches_one; exact Es|]. apply leaves_now. unfold step. rewrite bind_gets.
    change (mode (st r2)) with DICT. cbv iota. unfold do_DICT. rewrite bind_gets.
    change (havedict (st r2)) with (havedict (st r)). rewrite Hd. cbn [Z.eqb]. done.
  - split; [|done]. change (Crc32.ZSWAP32 h = Crc32.ZSWAP32 (Rfc1951.value (view r) mod 2 ^ 32)). by rewrite <-Eh.
Qed.

(** ** The checksum *)

Lemma last_bytes_app pre cur : last_bytes (zlen cur) (pre ++ cur) = cur.
Proof.
  unfold last_bytes, zlen. rewrite Nat2Z.id, length_app.
  replace (length pre + length cur - length cur)%nat with (length pre) by lia. apply drop_app_length.
Qed.

(** The check of the output of the call, from its initial value. *)
Lemma check_value s cur : flags s = 0 → check s = 1 → bytes cur →
  (if c_true (zlen cur) then UPDATE s (check s) cur else check s) = Adler32.adler_ref 1 cur.
Proof.
  intros Hf Hc Hby. unfold UPDATE. rewrite Hf, Hc. change (c_true 0) with false. cbv iota.
  unfold Adler32.adler32. rewrite Adler32.adler32_z_path by (done || exact Adler32.valid_1).
  unfold c_true. destruct (Z.eqb_spec (zlen cur) 0) as [E|]; [|done].
  destruct cur; [done|]. rewrite zlen_cons in E. pose proof (zlen_nonneg cur). lia.
Qed.

Section Trailer.
  Context (flush : Z) (r : run) (H pre cur : list Z).
  Hypothesis Hc : ctx r H pre cur.
  Hypothesis Hm : mode (st r) = CHECK.
  Hypothesis Hw : wrap_ (st r) = 5.
  Hypothesis Hf : flags (st r) = 0.
  Hypothesis Hck : check (st r) = 1.
  Hypothesis Hb : bits r = 0.
  Hypothesis Hby : bytes cur.

(** What the run leaves after its checksum. *)
Definition same_output (r' : run) : Prop :=
  put r' = put r ∧ left_ r' = left_ r ∧ (has_input r → has_input r').

Lemma check_run :
  match Rfc1950.trailer cur (view r) with
  | Rfc1951.Starved _ => ∃ r', leaves flush r r' Leave ∧ same_output r' ∧ ret r' = Z_OK
  | Rfc1951.Invalid _ => ∃ r', reaches flush r r' ∧ same_output r' ∧ mode (st r') = BAD
  | Rfc1951.Done _ s => ∃ r', leaves flush r r' Leave ∧ same_output r' ∧ ret r' = Z_STREAM_END ∧
      ready r' ∧ bits r' = 0 ∧ view r' = s
  end.
Proof.
  pose proof (ctx_ready _ _ _ _ Hc) as [Hg _]. pose proof (view_avail r) as Hav.
  unfold Rfc1950.trailer. rewrite Rfc1950.be32_eq by (destruct (good_bits _ Hg); lia).
  assert (step flush r = do_CHECK r) as Es by (by at_mode Hm). unfold do_CHECK in Es. rewrite bind_gets, Hw in Es.
  change (c_true 5) with true in Es. cbv iota in Es.
  match type of Es with _ = (NEEDBITS 32;; ?k) r =>
    destruct (NEEDBITS_bytes 32 r k Hg Hb) as (nx & h & b & E & Hk); [by right|]; rewrite E in Es end.
  destruct (Z.ltb_spec (Rfc1951.avail (view r)) 32) as [|Hok].
  { eexists. split; [by apply leaves_now|]. split; [done|apply Hc]. }
  destruct (Hk Hok) as (Hg1 & Hv1 & -> & Eh). clear Hk E. set (r1 := fed r nx h 32) in *.
  rewrite bind_gets in Es. unfold id in Es. cbv beta zeta in Es.
  change (out r1 - left_ r1) with (out r - left_ r) in Es. rewrite (ctx_out _ _ _ _ Hc) in Es.
  change (put r1) with (put r) in Es. rewrite (ctx_put _ _ _ _ Hc), last_bytes_app in Es.
  change (c_true (5 .& 4)) with true in Es. cbn [andb] in Es.
  pose proof (check_value (st r) cur Hf Hck Hby) as Ha. set (a := Adler32.adler_ref 1 cur) in *. set (n := zlen cur) in *.
  set (s2 := (st r) <| total := u32 (total (st r) + n) |> <| check := a |>).
  assert (∃ m, next_in m = next_in (sm r) ∧ let r3 := r1 <| sm := m |> <| st := s2 |> <| out := left_ r1 |> in
    step flush r = (if negb (Crc32.ZSWAP32 h =? a) then bad "incorrect data check"
                    else INITBITS;; set_mode LENGTH) r3) as (m & Hmin & Es3).
  { unfold when, set_check, upd, modify, gets, mbind, M_bind, mret, M_ret in Es. destruct (c_true n) eqn:Ec.
    - exists ((sm r) <| total_out := u32 (total_out (sm r) + n) |> <| adler := a |>). split; [done|].
      rewrite Es. cbv beta iota zeta. change (UPDATE (st r1) (check (st r1)) cur) with (UPDATE (st r) (check (st r)) cur).
      rewrite Ha. match goal with |- context [c_true (flags ?x)] => change (flags x) with (flags (st r)) end.
      rewrite Hf. done.
    - exists ((sm r) <| total_out := u32 (total_out (sm r) + n) |>). split; [done|]. rewrite Es. cbv beta iota zeta.
      match goal with |- context [c_true (flags ?x)] => change (flags x) with (flags (st r)) end. rewrite Hf.
      unfold s2. rewrite <-Ha. done. }
  clear Es. cbv zeta in Es3. set (r3 := r1 <| sm := m |> <| st := s2 |> <| out := left_ r1 |>) in *.
  assert (same_output r3) as Hs3.
  { split; [done|]. split; [done|]. intros [l Hl]. exists l. change (sm r3) with m. congruence. }
  assert (Crc32.ZSWAP32 (Rfc1951.value (view r) mod 2 ^ 32) = Crc32.ZSWAP32 h) as -> by (by rewrite Eh).
  destruct (Crc32.ZSWAP32 h =? a); cbn [negb] in Es3; cycle 1.
  { eexists. split; [apply reaches_one; rewrite Es3; reflexivity|]. split; [|done]. destruct Hs3 as (? & ? & Hi). split_and!; [done..|].
    intros ?. destruct Hi as [l Hl]; [done|]. by exists l. }
  unfold INITBITS, set_mode, upd, modify, mbind, M_bind in Es3. cbv beta iota in Es3.
  match type of Es3 with _ = (?x, _) => set (r4 := x) in Es3 end.
  set (r5 := r4 <| st := (st r4) <| mode := DONE |> |>).
  assert (step flush r4 = (r5, inl ())) as E4.
  { unfold step. rewrite bind_gets. change (mode (st r4)) with LENGTH. cbv iota. unfold do_LENGTH. rewrite bind_gets.
    change (flags (st r4)) with (flags (st r)). rewrite Hf. change (c_true 0) with false. rewrite andb_false_r. done. }
  exists (r5 <| ret := Z_STREAM_END |>). split.
  { apply (leaves_trans flush r r5); [|by apply leaves_now]. eapply reaches_step; [exact Es3|]. by apply reaches_one. }
  split.
  { destruct Hs3 as (? & ? & Hi). split_and!; [done..|]. intros ?. destruct Hi as [l Hl]; [done|]. by exists l. }
  split; [done|]. split.
  { split; [split; [cbn; lia|cbn; lia|exact (good_bytes _ Hg1)]|cbn; lia]. }
  split; [done|]. rewrite view_bytes, <-Hv1 by done. unfold Rfc1951.dropped, Rfc1951.of_bytes, view.
  change (bits r1) with 32. change (hold r1) with h. cbn [Rfc1951.value Rfc1951.avail]. change (nxt (r5 <| ret := _ |>)) with (nxt r1).
  f_equal; [|lia]. assert (0 ≤ h < 2 ^ 32) by (rewrite Eh; apply Z.mod_pos_bound; lia).
  rewrite (Z.mul_comm (2 ^ 32)), Z.div_add, (Z.div_small h) by lia. lia.
Qed.

End Trailer.

(** ** A zlib stream *)

Definition zoutput (z : Rfc1950.zoutcome) : list Z :=
  match z with Rfc1950.Data o => Rfc1951.output o | Rfc1950.NeedDict _ => [] end.

Lemma wrap_request_zlib wb : 8 ≤ wb ≤ 15 → wrap_request wb = (5, wb).
Proof.
  intros Hwb. assert (forall_range (λ wb, let '(w, b) := wrap_request wb in (w =? 5) && (b =? wb)) 8 8 = true) as Hc by done.
  apply (forall_range_spec _ _ _ wb) in Hc; [|lia]. cbv beta in Hc. destruct (wrap_request wb). f_equal; lia.
Qed.

Section Call.
  Context (ZALLOC : Z → option (list Z)) (flush wb : Z) (s : z_stream) (s0 : inflate_state) (pre input : list Z).
  Hypothesis Hz : allocates ZALLOC.
  Hypothesis Hfl : no_stop flush.
  Hypothesis Hwb : 8 ≤ wb ≤ 15.
  Hypothesis Hck : inflateStateCheck (Some s) = Some (s, s0).
  Hypothesis Hs0 : ∃ fresh x, s0 = init_state fresh x 5 wb ∧ arrays fresh.
  Hypothesis Hon : out_null s = false.
  Hypothesis Hin : next_in s = InBuf input.
  Hypothesis Hby : bytes input.
  Hypothesis Hwr : written s = pre.
  Hypothesis Hroom : 0 < avail_out s.

Let r0 := LOAD s s0.

Lemma start_run : good r0 ∧ bits r0 = 0 ∧ view r0 = Rfc1951.of_bytes input ∧ has_input r0 ∧
  put r0 = pre ∧ left_ r0 = avail_out s ∧ ret r0 = Z_OK.
Proof.
  destruct Hs0 as (fresh & x & -> & _). split_and!; try done.
  - split; [cbn; lia|cbn; lia|]. cbn. by rewrite Hin.
  - rewrite view_bytes by done. cbn. by rewrite Hin.
  - by exists input.
Qed.

(** The header is read: the run decodes the blocks and the checksum. *)
Lemma data_run r1 c : reaches flush r0 r1 → headed r0 r1 false → view r1 = Rfc1951.dropped c (Rfc1951.of_bytes input) →
  0 ≤ c ≤ 8 * zlen input →
  let o := Rfc1950.data (view r1) in zlen (Rfc1951.output o) < avail_out s → decoded ZALLOC flush s pre input o.
Proof.
  intros Hr1 [[d Hst] Hsm Hput Hleft Hin1 Hout Hret Hh1 Hb1 Hby1] Hv1 Hcr o Hro.
  destruct start_run as (_ & _ & _ & Hi0 & Hp0 & Hl0 & Hret0).
  assert (has_input r1) as Hi1.
  { destruct Hi0 as [l Hl]. exists l. rewrite Hsm. exact Hl. }
  assert (last (st r1) = 0 ∧ wrap_ (st r1) = 5 ∧ flags (st r1) = 0 ∧ check (st r1) = 1) as (Hla1 & Hw1 & Hf1 & Hc1).
  { rewrite Hst. change (st r0) with s0. destruct Hs0 as (fresh & x & E & _). rewrite E. done. }
  assert (ctx r1 [] pre []) as Hctx.
  { destruct Hs0 as (fresh & x & E & Harr). change (st r0) with s0 in Hst. rewrite E in Hst. split; rewrite ?Hst.
    - split; [split|]; rewrite ?Hb1, ?Hh1; [lia|done|done|lia].
    - right. split_and!; try done. simpl. lia.
    - done.
    - done.
    - done.
    - rewrite Hput, Hp0. by rewrite app_nil_r.
    - rewrite Hleft, Hout. change (out r0) with (left_ r0). change (zlen (@nil Z)) with 0. lia.
    - rewrite Hleft, Hl0. lia.
    - by rewrite Hret. }
  assert (out r1 = avail_out s) as Ho1 by (rewrite Hout; done).
  assert (0 ≤ Rfc1951.avail (view r1)) as Hav1 by (rewrite Hv1; cbn; lia).
  assert (does_blocks flush r1 [] pre (Rfc1951.blocks [] (view r1))) as Hd.
  { apply blocks_run; [done|done| |done|lia]. left. by rewrite Hst. }
  assert (bytes (Rfc1951.output (Rfc1951.blocks [] (view r1)))) as Hbo by (by apply Rfc1951.blocks_bytes).
  assert (Rfc1951.rest_of 0 (Rfc1951.of_bytes input) (view r1)) as Hrest1 by (exists c; by rewrite Hv1).
  assert (∀ r2, leaves flush r1 r2 Leave → leaves flush (LOAD s s0) r2 Leave) as Hlv by (intros; by eapply leaves_trans).
  assert (mode s0 = HEAD) as Hm0 by (destruct Hs0 as (fresh & x & -> & _); done).
  unfold o, Rfc1950.data in Hro |- *. clear o.
  destruct (Rfc1951.blocks [] (view r1)) as [cur rest|cur|cur] eqn:Eo; cbn [does_blocks Rfc1951.output] in Hd, Hbo; rewrite Ho1 in Hd.
  - assert (Rfc1951.output (Rfc1950.trailer cur rest) = cur) as Ecur.
    { unfold Rfc1950.trailer. destruct (Rfc1950.be32 rest) as [a ?| |]; [|done..]. by destruct (a =? _). }
    rewrite Ecur in Hro. destruct (Hd ltac:(lia)) as (r2 & Hr2 & Hp2 & Hc2 & Hm2 & Hv2 & Hb2).
    pose proof (passed_state _ _ Hp2) as Hu.
    assert (wrap_ (st r2) = 5) as Hw2 by (apply (f_equal wrap_) in Hu; exact (eq_trans Hu Hw1)).
    assert (flags (st r2) = 0) as Hf2 by (apply (f_equal flags) in Hu; exact (eq_trans Hu Hf1)).
    assert (check (st r2) = 1) as Hk2 by (apply (f_equal check) in Hu; exact (eq_trans Hu Hc1)).
    pose proof (check_run flush r2 [] pre cur Hc2 Hm2 Hw2 Hf2 Hk2 Hb2 Hbo) as Hck2. rewrite Hv2 in Hck2.
    pose proof (passed_input _ _ Hp2 Hi1) as Hi2.
    assert (left_ r2 = avail_out s - zlen cur) as Hl2.
    { pose proof (ctx_out _ _ _ _ Hc2) as Ho2. rewrite (passed_out _ _ Hp2) in Ho2. lia. }
    apply Rfc1951.blocks_rest in Eo; [|done]. pose proof (Rfc1951.rest_avail _ _ _ Eo).
    destruct (Rfc1950.trailer cur rest) as [cur' rest'|cur'|cur'] eqn:Et; cbn [Rfc1951.output] in Ecur; subst cur'.
    + destruct Hck2 as (r3 & Hl3 & (Hp3 & Hle3 & Hi3) & Hret3 & Hrdy3 & Hb3 & Hv3).
      apply (leaves_decoded ZALLOC flush s s0 pre input _ r3); try done.
      * apply Hlv. by eapply leaves_trans.
      * by apply Hi3.
      * rewrite Hp3. apply Hc2.
      * rewrite Hle3. exact Hl2.
      * split; [done|]. apply (rest_input r3); try done.
        apply (Rfc1951.rest_trans 0 0 _ (view r1)); [done..|]. apply (Rfc1951.rest_trans 0 0 _ rest); [done..|].
        unfold Rfc1950.trailer in Et. rewrite Rfc1950.be32_eq in Et by lia.
        destruct (Z.ltb_spec (Rfc1951.avail rest) 32); [done|]. destruct (_ =? _); [|done].
        injection Et as <-. exists 32. split; [lia|done].
    + destruct Hck2 as (r3 & Hl3 & (Hp3 & Hle3 & Hi3) & Hret3).
      apply (leaves_decoded ZALLOC flush s s0 pre input _ r3); try done.
      * apply Hlv. by eapply leaves_trans.
      * by apply Hi3.
      * rewrite Hp3. apply Hc2.
      * rewrite Hle3. exact Hl2.
    + destruct Hck2 as (r3 & Hl3 & (Hp3 & Hle3 & Hi3) & Hm3).
      apply (leaves_decoded ZALLOC flush s s0 pre input _ (r3 <| ret := Z_DATA_ERROR |>)); try done.
      * apply Hlv. eapply leaves_trans; [|by apply bad_leaves]. by eapply reaches_trans.
      * exact (Hi3 Hi2).
      * change (put r3 = pre ++ cur). rewrite Hp3. apply Hc2.
      * change (left_ r3 = avail_out s - zlen cur). rewrite Hle3. exact Hl2.
  - cbn [Rfc1951.output] in Hro. destruct (Hd ltac:(lia)) as (r2 & Hl2 & (Hp2 & Hput2 & Hleft2 & _) & Hret2 & _).
    apply (leaves_decoded ZALLOC flush s s0 pre input _ r2); try done; [by apply Hlv|by eapply passed_input|].
    cbn. congruence.
  - cbn [Rfc1951.output] in Hro. destruct (Hd ltac:(lia)) as (r2 & Hr2 & (Hp2 & Hput2 & Hleft2 & _) & Hm2).
    apply (leaves_decoded ZALLOC flush s s0 pre input _ (r2 <| ret := Z_DATA_ERROR |>)); try done.
    + apply Hlv. eapply leaves_trans; [done|by apply bad_leaves].
    + exact (passed_input _ _ Hp2 Hi1).
    + cbn. congruence.
Qed.

End Call.

(** C21. A call of inflate() on a zlib stream is the decoder of RFC 1950. After
    inflateInit2_ with 8 to 15 window bits, one call with the whole input (and
    room for one byte more than the output) checks the header, decodes the data as
    the reference decoder does and compares the Adler-32 checksum that follows:
    it returns Z_STREAM_END with the rest of the input untouched only when the
    checksum is that of the output, Z_DATA_ERROR for a bad header, invalid data or a
    wrong checksum, Z_OK or Z_BUF_ERROR when the input ends early, and
    Z_NEED_DICT with the identifier of the dictionary in [adler] when the header
    asks for one. *)
Theorem inflate_decodes_rfc1950 ZALLOC fresh s0 wb flush input :
  allocates ZALLOC → arrays fresh → 8 ≤ wb ≤ 15 → no_stop flush →
  out_null s0 = false → next_in s0 = InBuf input → bytes input →
  let z := Rfc1950.zlib wb (Rfc1951.of_bytes input) in
  zlen (zoutput z) < avail_out s0 →
  ∃ s n ret s',
    inflateInit2_ (Some fresh) (Some s0) wb (Some ZLIB_VERSION) sizeof_z_stream = (Z_OK, Some s) ∧
    (∀ fuel, (n ≤ fuel)%nat → inflate ZALLOC fuel (Some s) flush = Returned ret (Some s')) ∧
    written s' = written s0 ++ zoutput z ∧
    match z with
    | Rfc1950.Data o => returns flush input o ret s'
    | Rfc1950.NeedDict id => ret = Z_NEED_DICT ∧ adler s' = id
    end.
Proof.
  intros Hz Harr Hwb Hfl Hon Hin Hby z Hroom. pose proof (zlen_nonneg (zoutput z)) as Hz0.
  destruct (init_stream fresh s0 wb 5 wb (wrap_request_zlib wb Hwb) Hwb) as (s & Hi & Hck & Ho & Hn & Hw & Ha).
  set (st0 := init_state fresh s0 5 wb) in *. rewrite Hin in Hn. rewrite Hon in Ho. rewrite <-Ha in Hroom.
  assert (∃ fresh x, st0 = init_state fresh x 5 wb ∧ arrays fresh) as Hst0 by (by exists fresh, s0).
  destruct (start_run wb s st0 (written s0) input Hck Hst0 Hn Hby Hw) as (Hg0 & Hb0 & Hv0 & Hi0 & Hp0 & Hl0 & Hr0).
  set (r0 := LOAD s st0) in *.
  (* it is enough to have decoded some outcome *)
  assert (∀ o, z = Rfc1950.Data o → decoded ZALLOC flush s (written s0) input o →
    ∃ s n ret s', inflateInit2_ (Some fresh) (Some s0) wb (Some ZLIB_VERSION) sizeof_z_stream = (Z_OK, Some s) ∧
      (∀ fuel, (n ≤ fuel)%nat → inflate ZALLOC fuel (Some s) flush = Returned ret (Some s')) ∧
      written s' = written s0 ++ zoutput z ∧
      match z with
      | Rfc1950.Data o => returns flush input o ret s'
      | Rfc1950.NeedDict id => ret = Z_NEED_DICT ∧ adler s' = id
      end) as Hdec.
  { intros o -> (n & ret & s' & ? & ? & _ & ?). by exists s, n, ret, s'. }
  assert (∀ o r, z = Rfc1950.Data o → Rfc1951.output o = [] → leaves flush r0 r Leave → has_input r →
    put r = put r0 → left_ r = left_ r0 →
    match o with Rfc1951.Done _ _ => False | Rfc1951.Starved _ => ret r = Z_OK | Rfc1951.Invalid _ => ret r = Z_DATA_ERROR end →
    decoded ZALLOC flush s (written s0) input o) as Hempty.
  { intros o r _ Eo Hl Hir Hput Hleft Hret. apply (leaves_decoded ZALLOC flush s st0 _ input o r); try done; rewrite ?Eo.
    - by rewrite app_nil_r, Hput.
    - change (zlen (@nil Z)) with 0. rewrite Hleft, Hl0. lia.
    - by destruct o. }
  pose proof (head_step flush r0 wb eq_refl eq_refl eq_refl Hwb eq_refl Hg0 Hb0) as Hhead. rewrite Hv0 in Hhead.
  pose proof (Rfc1950.header_eq wb (Rfc1951.of_bytes input)) as Heq. pose proof (zlen_nonneg input).
  specialize (Heq ltac:(cbn; lia)). cbv zeta in Heq. unfold z, Rfc1950.zlib in *. clear z.
  destruct (Rfc1950.header wb (Rfc1951.of_bytes input)) as [fd s1| |].
  - destruct Hhead as (r1 & E1 & Hh1 & Hv1). 
    assert (s1 = Rfc1951.dropped 16 (Rfc1951.of_bytes input) ∧ 16 ≤ 8 * zlen input) as [Es1 H16].
    { destruct (Z.ltb_spec (Rfc1951.avail (Rfc1951.of_bytes input)) 16) as [|Hge]; [done|]. cbn in Hge.
      destruct (_ || _ || _); [done|]. by injection Heq as _ ->. }
    assert (reaches flush r0 r1) as Hr1 by (by apply reaches_one). destruct fd.
    + destruct Hh1 as [[d Hst] Hsm Hput Hleft _ _ Hret Hhold Hbits Hby1].
      assert (good r1) as Hg1 by (split; rewrite ?Hbits, ?Hhold; [lia|done|done]).
      pose proof (dict_run flush r1 ltac:(by rewrite Hst) ltac:(by rewrite Hst) Hg1 Hbits) as Hd. rewrite Hv1 in Hd.
      destruct (Rfc1950.be32 s1) as [id s2| |]; [| |done].
      * destruct Hd as (r2 & Hl2 & Hid & Hw2). destruct (leaves_loop flush r0 r2 (Return Z_NEED_DICT)) as [n Hnn];
          [by eapply leaves_trans|].
        exists s, n, Z_NEED_DICT, (with_state (st r2) (sm r2)). split; [done|]. split.
        { intros fuel Hf. unfold inflate. rewrite Hck, Ho, Hn. cbn [orb].
          change (bool_decide (mode st0 = TYPE)) with false. cbv iota. fold r0. by rewrite Hnn. }
        split; [|done]. cbn [zoutput]. rewrite app_nil_r. change (written (sm r2) = written s0). by rewrite Hw2, Hput, Hp0.
      * destruct Hd as (nx & h & b & E2). apply (Hdec _ eq_refl). apply (Hempty _ (fed r1 nx h b) eq_refl eq_refl).
        -- eapply leaves_trans; [exact Hr1|by apply leaves_now].
        -- destruct Hi0 as [l Hl]. exists l. change (sm (fed r1 nx h b)) with (sm r1). by rewrite Hsm.
        -- exact Hput.
        -- exact Hleft.
        -- exact Hret.
    + apply (Hdec _ eq_refl). rewrite <-Hv1.
      apply (data_run ZALLOC flush wb s st0 (written s0) input Hz Hfl Hwb Hck Hst0 Ho Hn Hby Hw ltac:(lia) r1 16 Hr1 Hh1).
      * congruence.
      * lia.
      * rewrite Hv1. exact Hroom.
  - destruct Hhead as (nx & h & b & E1). apply (Hdec _ eq_refl).
    apply (Hempty _ (fed r0 nx h b) eq_refl eq_refl); try done. by apply leaves_now.
  - destruct Hhead as (r1 & E1 & Hm1 & Hp1 & Hl1 & Hn1). apply (Hdec _ eq_refl).
    apply (Hempty _ (r1 <| ret := Z_DATA_ERROR |>) eq_refl eq_refl); try done.
    + eapply leaves_trans; [by apply reaches_one|by apply bad_leaves].
    + destruct Hi0 as [l Hl]. exists l. change (next_in (sm r1) = InBuf l). congruence.
Qed.

(** "hello hello hello" as a zlib stream. *)
Definition hello_zlib : list Z := [120; 218; 203; 72; 205; 201; 201; 87; 200; 64; 144; 0; 58; 46; 6; 125].

Lemma hello_zlib_decodes :
  Rfc1950.zlib 15 (Rfc1951.of_bytes hello_zlib) = Rfc1950.Data (Rfc1951.Done hello (Rfc1951.of_bytes [])).
Proof. vm_compute. reflexivity. Qed.

Lemma inflate_decodes_rfc1950_witness : ∃ s n ret s',
  inflateInit2_ (Some (fresh_raw 0)) (Some (hello_stream hello_zlib)) 15 (Some ZLIB_VERSION) sizeof_z_stream
    = (Z_OK, Some s) ∧
  (∀ fuel, (n ≤ fuel)%nat → inflate zero_alloc fuel (Some s) Z_FINISH = Returned ret (Some s')) ∧
  written s' = hello ∧ ret = Z_STREAM_END ∧ next_in s' = InBuf [].
Proof.
  pose proof (inflate_decodes_rfc1950 zero_alloc (fresh_raw 0) (hello_stream hello_zlib) 15 Z_FINISH hello_zlib) as H.
  cbv zeta in H. rewrite hello_zlib_decodes in H. cbn [zoutput Rfc1951.output returns] in H.
  destruct H as (s & n & ret & s' & Hi & Hr & Hw & Hret & Hn).
  - done.
  - done.
  - lia.
  - done.
  - reflexivity.
  - reflexivity.
  - apply (bool_decide_unpack _). vm_compute. reflexivity.
  - vm_compute. reflexivity.
  - by exists s, n, ret, s'.
Defined.

End ZlibInflate.
