(* ===== verification/Sync.v ===== *)
(** * Resynchronisation: syncsearch and inflateSync

    [syncsearch] finds the first full-flush marker 00 00 FF FF, also when the
    input arrives in pieces; [inflateSync] applies it first to the bits it holds,
    which it shifts the wrong way. *)

From S2P Require Import Prelude InflateState Window.

Module Sync.
Import InflateState.

Definition marker : list Z := [0; 0; 0xff; 0xff].

(** [buf] contains the marker. *)
Definition contains (buf : list Z) : Prop := ∃ pre post, buf = pre ++ marker ++ post.

(** How much of the marker ends the bytes read so far, given in reverse. *)
Definition matched (r : list Z) : Z :=
  match r with
  | b1 :: b2 :: b3 :: _ =>
      if (b1 =? 0xff) && (b2 =? 0) && (b3 =? 0) then 3
      else if (b1 =? 0) && (b2 =? 0) then 2 else if b1 =? 0 then 1 else 0
  | b1 :: b2 :: _ => if (b1 =? 0) && (b2 =? 0) then 2 else if b1 =? 0 then 1 else 0
  | b1 :: _ => if b1 =? 0 then 1 else 0
  | [] => 0
  end.

(** The reversed text ends with the marker. *)
Definition marker_at_end (r : list Z) : bool :=
  match r with
  | b1 :: b2 :: b3 :: b4 :: _ => (b1 =? 0xff) && (b2 =? 0xff) && (b3 =? 0) && (b4 =? 0)
  | _ => false
  end.

(** The transition of the search is the one of the matching automaton. *)
Lemma sync_byte_matched r b :
  sync_byte (matched r) b = if marker_at_end (b :: r) then 4 else matched (b :: r).
Proof.
  unfold sync_byte, matched, marker_at_end, c_true.
  assert (∀ x, {x = 0} + {x = 0xff} + {(x =? 0) = false ∧ (x =? 0xff) = false}) as Hx.
  { intros x. destruct (decide (x = 0)); [by left; left|].
    destruct (decide (x = 0xff)); [by left; right|right; lia]. }
  destruct r as [|b1 [|b2 [|b3 r]]]; destruct (Hx b) as [[->| ->]|[? ?]];
    try (destruct (Hx b1) as [[->| ->]|[? ?]]); try (destruct (Hx b2) as [[->| ->]|[? ?]]);
    try (destruct (Hx b3) as [[->| ->]|[? ?]]);
    repeat first [progress cbn | match goal with H : ?x = false |- context [?x] => rewrite H end];
    reflexivity.
Qed.

Lemma matched_range r : 0 ≤ matched r ≤ 3.
Proof. unfold matched. repeat case_match; lia. Qed.

Lemma marker_at_end_spec r : marker_at_end r = true ↔ ∃ r', r = reverse marker ++ r'.
Proof.
  change (reverse marker) with [0xff; 0xff; 0; 0]. split.
  - intros H. destruct r as [|b1 [|b2 [|b3 [|b4 r]]]]; try done. simpl in H.
    apply andb_true_iff in H as [H H4]. apply andb_true_iff in H as [H H3].
    apply andb_true_iff in H as [H1 H2]. apply Z.eqb_eq in H1, H2, H3, H4. subst. by exists r.
  - by intros [r' ->].
Qed.

(** The marker first ends at the last byte: nothing before it contains one. *)
Lemma contains_snoc text b :
  contains (text ++ [b]) ↔ contains text ∨ marker_at_end (b :: reverse text) = true.
Proof.
  rewrite marker_at_end_spec. unfold contains. split.
  - intros (pre & post & E). destruct post as [|p post _] using rev_ind.
    + right. exists (reverse pre). rewrite app_nil_r in E.
      rewrite <-reverse_app, <-E, reverse_snoc. done.
    + left. exists pre, post. rewrite !app_assoc in E. apply app_inj_tail in E as [-> _].
      by rewrite app_assoc.
  - intros [(pre & post & ->)|(r' & E)].
    + exists pre, (post ++ [b]). by rewrite <-!app_assoc.
    + exists (reverse r'), []. rewrite app_nil_r.
      apply (f_equal reverse) in E. rewrite reverse_cons, reverse_involutive, reverse_app in E.
      by rewrite reverse_involutive in E.
Qed.

(** The search continued after [text], which holds no marker. *)
Lemma syncsearch_spec buf text : ¬ contains text →
  let '(got, n) := syncsearch (matched (reverse text)) buf in
  0 ≤ n ≤ zlen buf ∧
  ((got = 4 ∧ 0 < n ∧ contains (text ++ take (Z.to_nat n) buf) ∧
    ¬ contains (text ++ take (Z.to_nat (n - 1)) buf)) ∨
   (got = matched (reverse (text ++ buf)) ∧ n = zlen buf ∧ ¬ contains (text ++ buf))).
Proof.
  revert text. induction buf as [|b buf IH]; intros text Hno; cbn [syncsearch].
  { split; [done|]. right. by rewrite app_nil_r. }
  pose proof (matched_range (reverse text)). destruct (Z.ltb_spec (matched (reverse text)) 4); [|lia].
  rewrite sync_byte_matched. pose proof (contains_snoc text b) as Hc.
  destruct (marker_at_end (b :: reverse text)) eqn:Em.
  - assert (syncsearch 4 buf = (4, 0)) as -> by (destruct buf; reflexivity).
    split; [rewrite zlen_cons; pose proof (zlen_nonneg buf); lia|]. left. split_and!; [done|lia| |].
    + change (take (Z.to_nat (0 + 1)) (b :: buf)) with [b]. apply Hc. by right.
    + change (take (Z.to_nat (0 + 1 - 1)) (b :: buf)) with (@nil Z). by rewrite app_nil_r.
  - specialize (IH (text ++ [b])). rewrite reverse_snoc in IH.
    destruct (syncsearch (matched (b :: reverse text)) buf) as [got n].
    destruct IH as [Hn IH]; [by intros [?|?]%Hc|].
    rewrite zlen_cons. split; [lia|].
    assert (∀ m, 0 ≤ m → text ++ take (Z.to_nat (m + 1)) (b :: buf) = (text ++ [b]) ++ take (Z.to_nat m) buf)
      as Htk.
    { intros m Hm. replace (Z.to_nat (m + 1)) with (S (Z.to_nat m)) by lia. by rewrite <-app_assoc. }
    destruct IH as [(-> & Hpos & H1 & H2)|(-> & -> & H1)]; [left|right].
    + split_and!; [done|lia|by rewrite Htk by lia|].
      replace (n + 1 - 1) with ((n - 1) + 1) by lia. by rewrite Htk by lia.
    + rewrite <-app_assoc in H1. rewrite <-app_assoc. split_and!; [done|lia|done].
Qed.

Lemma contains_nil : ¬ contains [].
Proof. intros (pre & post & E). by destruct pre. Qed.

(** C17. syncsearch finds the first marker 00 00 FF FF of its input: started
    with no bytes matched, over pieces of any sizes it reports the marker at
    the piece where the first one ends, having read exactly up to its last
    byte, and reports none exactly when the input contains none. *)
Theorem syncsearch_first buf1 buf2 :
  ¬ contains buf1 →
  let '(got1, n1) := syncsearch 0 buf1 in
  let '(got2, n2) := syncsearch got1 buf2 in
  got1 < 4 ∧ n1 = zlen buf1 ∧
  (got2 = 4 ↔ contains (buf1 ++ buf2)) ∧
  (got2 = 4 → contains (buf1 ++ take (Z.to_nat n2) buf2) ∧
              ¬ contains (buf1 ++ take (Z.to_nat (n2 - 1)) buf2)) ∧
  (got2 ≠ 4 → n2 = zlen buf2).
Proof.
  intros Hno. pose proof (syncsearch_spec buf1 [] contains_nil) as H1.
  change (matched (reverse [])) with 0 in H1. destruct (syncsearch 0 buf1) as [got1 n1].
  destruct H1 as [Hn1 [(-> & _ & Hc & _)|(-> & -> & _)]].
  { exfalso. apply Hno. destruct Hc as (pre & post & E). simpl in E.
    exists pre, (post ++ drop (Z.to_nat n1) buf1).
    by rewrite <-(take_drop (Z.to_nat n1) buf1) at 1; rewrite E, <-!app_assoc. }
  simpl app. pose proof (syncsearch_spec buf2 buf1 Hno) as H2.
  destruct (syncsearch (matched (reverse buf1)) buf2) as [got2 n2].
  pose proof (matched_range (reverse buf1)). pose proof (matched_range (reverse (buf1 ++ buf2))).
  destruct H2 as [Hn2 [(-> & Hpos & Hc & Hnc)|(-> & -> & Hnc)]].
  - split_and!; try done; try lia. split; [|done]. intros _. destruct Hc as (pre & post & E).
    exists pre, (post ++ drop (Z.to_nat n2) buf2).
    by rewrite <-(take_drop (Z.to_nat n2) buf2) at 1; rewrite app_assoc, E, <-!app_assoc.
  - split_and!; try done; try lia. split; [lia|done].
Qed.

Lemma syncsearch_first_witness :
  let '(got1, n1) := syncsearch 0 [1; 0; 0] in
  let '(got2, n2) := syncsearch got1 [0; 0xff; 0xff; 7] in
  got1 < 4 ∧ n1 = zlen [1; 0; 0] ∧ (got2 = 4 ↔ contains ([1; 0; 0] ++ [0; 0xff; 0xff; 7])) ∧
  (got2 = 4 → contains ([1; 0; 0] ++ take (Z.to_nat n2) [0; 0xff; 0xff; 7]) ∧
              ¬ contains ([1; 0; 0] ++ take (Z.to_nat (n2 - 1)) [0; 0xff; 0xff; 7])) ∧
  (got2 ≠ 4 → n2 = zlen [0; 0xff; 0xff; 7]).
Proof.
  apply (syncsearch_first [1; 0; 0] [0; 0xff; 0xff; 7]).
  intros (pre & post & E). apply (f_equal length) in E. rewrite !length_app in E. simpl in E. lia.
Defined.

(** ** inflateSync *)

(** The bytes inflateSync takes out of the bit buffer before the input. *)
Definition shifted_bytes (hold bits : Z) : list Z :=
  (unload_bytes 4 (u32 (hold ≪ (bits .& 7))) (bits - (bits .& 7)) []).2.

(** The search goes on where the bytes [text] left it. *)
Lemma search_from text buf :
  let '(got, n) := syncsearch (syncsearch 0 text).1 buf in
  (got = 4 ∧ 0 ≤ n ≤ zlen buf ∧ contains (text ++ take (Z.to_nat n) buf) ∧
    (0 < n → ¬ contains (text ++ take (Z.to_nat (n - 1)) buf))) ∨
  (got < 4 ∧ n = zlen buf ∧ ¬ contains (text ++ buf) ∧ got = (syncsearch 0 (text ++ buf)).1).
Proof.
  pose proof (syncsearch_spec text [] contains_nil) as H1. change (matched (reverse [])) with 0 in H1.
  destruct (syncsearch 0 text) as [got0 n0]. cbn [fst]. destruct H1 as [_ [(-> & _ & Hc & _)|(-> & -> & Hno)]].
  - assert (syncsearch 4 buf = (4, 0)) as -> by (by destruct buf). left. pose proof (zlen_nonneg buf).
    split_and!; [done|lia|lia| |lia]. destruct Hc as (pre & post & E). simpl in E. change (take (Z.to_nat 0) buf) with (@nil Z).
    rewrite app_nil_r. exists pre, (post ++ drop (Z.to_nat n0) text). by rewrite <-(take_drop (Z.to_nat n0) text) at 1; rewrite E, <-!app_assoc.
  - simpl in Hno. pose proof (syncsearch_spec buf text Hno) as H2. pose proof (syncsearch_spec (text ++ buf) [] contains_nil) as H3.
    change (matched (reverse [])) with 0 in H3. cbn [app] in H3. change ([] ++ text) with text in *.
    destruct (syncsearch (matched (reverse text)) buf) as [got n]. destruct H2 as [Hn [(-> & Hp & Hc & Hnc)|(-> & -> & Hnc)]].
    + left. split_and!; [done|lia|lia|done|done].
    + right. pose proof (matched_range (reverse (text ++ buf))). split_and!; [lia|done|done|].
      destruct (syncsearch 0 (text ++ buf)) as [got3 n3]. destruct H3 as [_ [(-> & _ & Hc & _)|(-> & _)]]; [|done].
      exfalso. apply Hnc. destruct Hc as (pre & post & E). exists pre, (post ++ drop (Z.to_nat n3) (text ++ buf)).
      by rewrite <-(take_drop (Z.to_nat n3) (text ++ buf)) at 1; rewrite E, <-!app_assoc.
Qed.

Lemma check_inv s st : inflateStateCheck (Some s) = Some (s, st) →
  zalloc s = true ∧ zfree s = true ∧ state s = Some st ∧ strm st = self s.
Proof.
  unfold inflateStateCheck. destruct (zalloc s), (zfree s); try done. cbn [negb orb].
  destruct (state s) as [st'|]; [|done]. destruct (Z.eqb_spec (strm st') (self s)); [|done]. cbn [negb orb].
  destruct (_ || _); [done|]. by intros [= <-].
Qed.

Lemma sync_start_spec st text :
  (mode st ≠ SYNC ∧ text = shifted_bytes (hold st) (bits st)) ∨ (mode st = SYNC ∧ have st = (syncsearch 0 text).1) →
  mode (sync_start st) = SYNC ∧ have (sync_start st) = (syncsearch 0 text).1 ∧ strm (sync_start st) = strm st.
Proof.
  unfold sync_start. intros [[Hm ->]|[Hm Hh]].
  - rewrite bool_decide_eq_false_2 by done. unfold shifted_bytes. destruct (unload_bytes _ _ _ _) as [[h b] buf]. cbn [snd].
    destruct (syncsearch 0 buf) as [got n]. done.
  - by rewrite bool_decide_eq_true_2.
Qed.

Lemma reset_found s st : zalloc s = true → zfree s = true → strm st = self s → mode st = SYNC →
  ∃ s' st', inflateReset (Some (with_state st s)) = (Z_OK, Some s') ∧ state s' = Some st' ∧ next_in s' = next_in s.
Proof.
  intros Ha Hf Hs Hm. unfold inflateReset, inflateResetKeep, inflateStateCheck, with_state. destruct s as [? ? ? ? ? ? ? ? ? za zf ? ?].
  cbn in *. subst za zf. cbn. rewrite Hs, Z.eqb_refl, Hm. cbn. rewrite Hs, Z.eqb_refl, Hm. cbn.
  eexists _, _. split; [reflexivity|]. unfold reset_keep, with_state. by destruct (c_true _).
Qed.

Lemma sync_outcome s st text input : inflateStateCheck (Some s) = Some (s, st) → next_in s = InBuf input →
  (mode st ≠ SYNC ∧ text = shifted_bytes (hold st) (bits st)) ∨ (mode st = SYNC ∧ have st = (syncsearch 0 text).1) →
  0 < zlen input ∨ 8 ≤ bits st →
  ∃ ret s' st', inflateSync (Some s) = (ret, Some s') ∧ state s' = Some st' ∧ total_out s' = total_out s ∧
    ((ret = Z_OK ∧ mode st' = TYPE ∧ ∃ n, 0 ≤ n ≤ zlen input ∧ contains (text ++ take (Z.to_nat n) input) ∧
        (0 < n → ¬ contains (text ++ take (Z.to_nat (n - 1)) input)) ∧
        next_in s' = InBuf (drop (Z.to_nat n) input) ∧ total_in s' = u32 (total_in s + n)) ∨
     (ret = Z_DATA_ERROR ∧ ¬ contains (text ++ input) ∧ next_in s' = InBuf [] ∧ total_in s' = u32 (total_in s + zlen input) ∧
        mode st' = SYNC ∧ have st' = (syncsearch 0 (text ++ input)).1)).
Proof.
  intros Hck Hin Ht Hsome. destruct (check_inv s st Hck) as (Ha & Hf & Hs & Hself).
  destruct (sync_start_spec st text Ht) as (Hm & Hh & Hst). unfold inflateSync. rewrite Hck.
  assert ((avail_in s =? 0) && (bits st <? 8) = false) as ->.
  { unfold avail_in. rewrite Hin. destruct (Z.eqb_spec (zlen input) 0), (Z.ltb_spec (bits st) 8); (done || lia). }
  rewrite Hin, Hh. cbn [in_bytes]. pose proof (search_from text input) as Hsearch.
  destruct (syncsearch (syncsearch 0 text).1 input) as [got n]. destruct Hsearch as [(-> & Hn & Hc & Hnc)|(Hlt & -> & Hnc & ->)].
  - cbn [Z.eqb Pos.eqb negb]. match goal with |- context [inflateReset (Some (with_state ?st2 ?s2))] => set (st3 := st2); set (s3 := s2) end.
    destruct (reset_found s3 st3) as (s' & st' & Er & Es & Ein); [done|done|unfold st3, s3; cbn; congruence|done|]. rewrite Er. cbn [option_map].
    eexists Z_OK, _, _. split; [reflexivity|]. split; [cbn; by rewrite Es|]. split; [done|]. left. split; [done|]. split; [done|].
    exists n. split_and!; [lia|lia|done|done| |done]. cbn. rewrite Ein. done.
  - destruct (Z.eqb_spec (syncsearch 0 (text ++ input)).1 4) as [E|_]; [lia|]. cbn [negb].
    eexists Z_DATA_ERROR, _, _. split; [reflexivity|]. split; [reflexivity|]. split; [done|]. right.
    split_and!; try done. cbn. do 2 f_equal. apply drop_ge. unfold zlen. lia.
Qed.

(** C19. What inflateSync does, over any number of calls. [text] is the bytes searched
    before: in a first call those of the bit buffer, in a later one also the input of
    the calls before. It returns Z_OK exactly when these bytes and the input contain a marker 00 00 FF FF;
    the input is then used up to the last byte of the first one, and inflate() goes on with a
    block, with the totals kept. Otherwise it returns Z_DATA_ERROR with all the input
    used, and the next call continues the search. *)
Theorem inflateSync_finds s st text input : inflateStateCheck (Some s) = Some (s, st) → next_in s = InBuf input →
  (mode st ≠ SYNC ∧ text = shifted_bytes (hold st) (bits st)) ∨ (mode st = SYNC ∧ have st = (syncsearch 0 text).1) →
  0 < zlen input ∨ 8 ≤ bits st →
  ∃ ret s' st', inflateSync (Some s) = (ret, Some s') ∧ state s' = Some st' ∧ total_out s' = total_out s ∧
    ((ret = Z_OK ∧ mode st' = TYPE ∧ ∃ n, 0 ≤ n ≤ zlen input ∧ contains (text ++ take (Z.to_nat n) input) ∧
        (0 < n → ¬ contains (text ++ take (Z.to_nat (n - 1)) input)) ∧
        next_in s' = InBuf (drop (Z.to_nat n) input) ∧ total_in s' = u32 (total_in s + n)) ∨
     (ret = Z_DATA_ERROR ∧ ¬ contains (text ++ input) ∧ next_in s' = InBuf [] ∧ total_in s' = u32 (total_in s + zlen input) ∧
        mode st' = SYNC ∧ have st' = (syncsearch 0 (text ++ input)).1)).
Proof. apply sync_outcome. Qed.

(** A marker that ends in the second of two calls. *)
Definition sync_stream (st : inflate_state) (input : list Z) : z_stream :=
  Stream 0 (InBuf input) 0 false [] 100 0 None (Some st) true true 0 0.
Definition lost_state : inflate_state := (Window.fresh_raw 15) <| mode := SYNC |> <| have := 2 |>.

Lemma inflateSync_finds_witness : ∃ s', inflateSync (Some (sync_stream lost_state [0; 0xff; 0xff; 7])) = (Z_OK, Some s') ∧ next_in s' = InBuf [7].
Proof.
  destruct (inflateSync_finds (sync_stream lost_state [0; 0xff; 0xff; 7]) lost_state [1; 0; 0] [0; 0xff; 0xff; 7])
    as (ret & s' & st' & E & _ & _ & H); [by vm_compute|done|right; by vm_compute|left; by vm_compute|].
  exists s'. split.
  - assert (ret = Z_OK) as ->; [|exact E]. apply (f_equal fst) in E. cbn [fst] in E. rewrite <-E. vm_compute. reflexivity.
  - assert (option_map next_in (inflateSync (Some (sync_stream lost_state [0; 0xff; 0xff; 7]))).2 = Some (InBuf [7])) as E2 by (vm_compute; reflexivity).
    rewrite E in E2. cbn in E2. by injection E2.
Defined.

(** ** The bits inflateSync shifts the wrong way

    A bit buffer that holds the [p] last bits [v] of a byte and then the first
    [m] bytes of a marker, whose other bytes begin the input. *)

Definition marker_value (m : Z) : Z := if m =? 3 then 0xff0000 else 0.

(** The bytes that follow the current one: those of the bit buffer once its
    partial byte is dropped, as BYTEBITS() does, then the input. *)
Definition following_bytes (s : z_stream) (st : inflate_state) : list Z :=
  let '(_, _, buf) := unload_bytes 4 (hold st ≫ (bits st .& 7)) (bits st - (bits st .& 7)) [] in
  buf ++ in_bytes (next_in s).

(** The bits of the partial byte do not happen to vanish in the shift. *)
Definition spoils (m p v : Z) : Prop :=
  if m =? 3 then p ≤ 3 ∨ 2 ^ 8 ≤ v * 2 ^ p else (v * 2 ^ p) mod 2 ^ (8 * m) ≠ 0.
#[global] Instance spoils_dec m p v : Decision (spoils m p v) := ltac:(unfold spoils; destruct (m =? 3); apply _).

(** Every case: the search is back at the beginning after the marker. *)
Definition spoiled_check (m p v : Z) : bool :=
  if decide (spoils m p v) then
    ((syncsearch 0 (shifted_bytes (v + 2 ^ p * marker_value m) (8 * m + p) ++ drop (Z.to_nat m) marker)).1 =? 0)
    && bool_decide ((unload_bytes 4 ((v + 2 ^ p * marker_value m) ≫ ((8 * m + p) .& 7)) (8 * m + p - ((8 * m + p) .& 7)) []).2
         = take (Z.to_nat m) marker)
  else true.

Lemma spoiled_cases m p v : 1 ≤ m ≤ 3 → 1 ≤ p ≤ 7 → 0 < v < 2 ^ p → spoiled_check m p v = true.
Proof.
  intros Hm Hp Hv. assert (v < 2 ^ 7) as Hv7 by (eapply Z.lt_le_trans; [apply Hv|apply Z.pow_le_mono_r; lia]).
  assert (forall_range (λ m, forall_range (λ p, forall_range (λ v, (2 ^ p <=? v) || spoiled_check m p v) 1 127) 1 7) 1 3 = true) as H
    by (vm_compute; reflexivity).
  apply (forall_range_spec _ _ _ m) in H; [|lia]. apply (forall_range_spec _ _ _ p) in H; [|lia].
  apply (forall_range_spec _ _ _ v) in H; [|lia]. apply orb_true_iff in H as [H%Z.leb_le|H]; [lia|done].
Qed.

Lemma contains_app text rest : contains rest → contains (text ++ rest).
Proof. intros (pre & post & ->). exists (text ++ pre), post. by rewrite app_assoc. Qed.

(** Nothing of a text that leaves the search at its beginning matters. *)
Lemma contains_after text rest : (syncsearch 0 text).1 = 0 → contains (text ++ rest) → contains rest.
Proof.
  intros E Hc. pose proof (search_from text rest) as H1. pose proof (search_from [] rest) as H2.
  rewrite E in H1. change (syncsearch 0 []).1 with 0 in H2. destruct (syncsearch 0 rest) as [got n].
  destruct H1 as [(-> & _)|(_ & _ & Hno & _)]; [|done].
  destruct H2 as [(_ & _ & (pre & post & E2) & _)|(Hlt & _)]; [|lia]. simpl in E2.
  exists pre, (post ++ drop (Z.to_nat n) rest). by rewrite <-(take_drop (Z.to_nat n) rest) at 1; rewrite E2, <-!app_assoc.
Qed.

(** C18. inflateSync misses a marker that begins in the bit buffer behind a partial byte. Let the
    bit buffer hold [p] bits of a byte and the first [m] bytes of a marker, and let the input begin with
    the rest of it: the bytes of the stream that follow the partial byte begin with a marker. inflateSync
    discards the partial byte with a left shift, where BYTEBITS() shifts right, so that it searches other
    bytes; unless the bits shifted in happen to vanish it passes over this marker, and returns Z_OK exactly when
    another one follows, and Z_DATA_ERROR otherwise. *)
Theorem inflateSync_misses_marker s st m p v rest : inflateStateCheck (Some s) = Some (s, st) → mode st ≠ SYNC →
  1 ≤ m ≤ 3 → 1 ≤ p ≤ 7 → 0 < v < 2 ^ p → spoils m p v →
  hold st = v + 2 ^ p * marker_value m → bits st = 8 * m + p →
  next_in s = InBuf (drop (Z.to_nat m) marker ++ rest) →
  following_bytes s st = marker ++ rest ∧
  ((inflateSync (Some s)).1 = Z_OK ↔ contains rest) ∧ (¬ contains rest → (inflateSync (Some s)).1 = Z_DATA_ERROR).
Proof.
  intros Hck Hm Hm3 Hp Hv Hsp Hh Hb Hin. pose proof (spoiled_cases m p v Hm3 Hp Hv) as H. unfold spoiled_check in H. rewrite decide_True in H by done.
  apply andb_true_iff in H as [Hz%Z.eqb_eq Hf%bool_decide_eq_true].
  split.
  { unfold following_bytes. rewrite Hh, Hb, Hin. destruct (unload_bytes _ _ _ _) as [[h' b'] buf]. cbn [snd in_bytes] in *.
    by rewrite Hf, app_assoc, take_drop. }
  assert (shifted_bytes (hold st) (bits st) ++ drop (Z.to_nat m) marker ++ rest =
    (shifted_bytes (v + 2 ^ p * marker_value m) (8 * m + p) ++ drop (Z.to_nat m) marker) ++ rest) as E by (by rewrite Hh, Hb, <-app_assoc).
  destruct (sync_outcome s st (shifted_bytes (hold st) (bits st)) (drop (Z.to_nat m) marker ++ rest) Hck Hin) as (ret & s' & st' & -> & _ & _ & Hout);
    [by left|right; lia|]. rewrite E in Hout. cbn [fst].
  destruct Hout as [(-> & _ & n & _ & Hc & _)|(-> & Hnc & _)].
  - assert (contains rest) as Hr; [|by split].
    apply (contains_after _ rest Hz). rewrite <-E. destruct Hc as (pre & post & E2).
    exists pre, (post ++ drop (Z.to_nat n) (drop (Z.to_nat m) marker ++ rest)).
    by rewrite <-(take_drop (Z.to_nat n) (drop (Z.to_nat m) marker ++ rest)) at 1; rewrite app_assoc, E2, <-!app_assoc.
  - split; [split; [done|]|done]. intros Hr. exfalso. by apply Hnc, contains_app.
Qed.

(** Three bits of a byte and 00 00 FF are in the bit buffer. *)
Definition held_state : inflate_state :=
  (Window.fresh_raw 15) <| mode := LEN |> <| hold := 5 + 2 ^ 3 * 0xff0000 |> <| bits := 27 |>.
Definition held_stream : z_stream := sync_stream held_state [0xff; 1; 0; 0].

Lemma inflateSync_misses_witness : following_bytes held_stream held_state = marker ++ [1; 0; 0] ∧
  (inflateSync (Some held_stream)).1 = Z_DATA_ERROR.
Proof.
  destruct (inflateSync_misses_marker held_stream held_state 3 3 5 [1; 0; 0]) as (H1 & _ & H2);
    [by vm_compute|done|lia|lia|lia|by left|done|done|done|]. split; [exact H1|]. apply H2.
  intros (pre & post & E). apply (f_equal length) in E. rewrite !length_app in E. simpl in E. lia.
Defined.

End Sync.
