(* ===== verification/TreesTables.v ===== *)
(** * zlib/trees.h, zlib/trees.c: the constant tables of the compressor

    The tables of the checked-in trees.h (static trees, distance and length
    codes, base values) and those at the top of trees.c. An entry of a tree is
    the pair of unions of [ct_data_s] in deflate.h: [Freq] and [Code] share the
    first, [Dad] and [Len] the second. *)

From S2P Require Import Prelude.

Module TreesTables.

Record ct_data := Ct { fc : Z; dl : Z }.
#[global] Instance ct_data_inhabited : Inhabited ct_data := populate (Ct 0 0).
#[global] Instance ct_data_eq_dec : EqDecision ct_data.
Proof. solve_decision. Defined.
#[global] Instance ct_data_eta : Eta ct_data := λ r, Ct (fc r) (dl r).

Abbreviation Freq := fc.
Abbreviation Code := fc.
Abbreviation Dad := dl.
Abbreviation Len := dl.

Definition LENGTH_CODES : Z := 29.
Definition LITERALS : Z := 256.
Definition L_CODES : Z := LITERALS + 1 + LENGTH_CODES.
Definition D_CODES : Z := 30.
Definition BL_CODES : Z := 19.
Definition HEAP_SIZE : Z := 2 * L_CODES + 1.
Definition MAX_BITS : Z := 15.
Definition Buf_size : Z := 16.
Definition MAX_BL_BITS : Z := 7.
Definition END_BLOCK : Z := 256.
Definition REP_3_6 : Z := 16.
Definition REPZ_3_10 : Z := 17.
Definition REPZ_11_138 : Z := 18.
Definition DIST_CODE_LEN : Z := 512.
Definition MIN_MATCH : Z := 3.
Definition MAX_MATCH : Z := 258.

Definition extra_lbits : list Z := [
  0; 0; 0; 0; 0; 0; 0; 0; 1; 1; 1; 1; 2; 2; 2; 2; 3; 3; 3; 3; 4; 4; 4; 4; 5; 5; 5; 5; 0].
Definition extra_dbits : list Z := [
  0; 0; 0; 0; 1; 1; 2; 2; 3; 3; 4; 4; 5; 5; 6; 6; 7; 7; 8; 8; 9; 9; 10; 10; 11; 11; 12; 12; 13;
  13].
Definition extra_blbits : list Z := [
  0; 0; 0; 0; 0; 0; 0; 0; 0; 0; 0; 0; 0; 0; 0; 0; 2; 3; 7].
Definition bl_order : list Z := [
  16; 17; 18; 0; 8; 7; 9; 6; 10; 5; 11; 4; 12; 3; 13; 2; 14; 1; 15].

Definition static_ltree : list ct_data := [
  Ct 12 8; Ct 140 8; Ct 76 8; Ct 204 8; Ct 44 8; Ct 172 8; Ct 108 8; Ct 236 8; Ct 28 8; Ct 156
  8; Ct 92 8; Ct 220 8; Ct 60 8; Ct 188 8; Ct 124 8; Ct 252 8; Ct 2 8; Ct 130 8; Ct 66 8; Ct 194
  8; Ct 34 8; Ct 162 8; Ct 98 8; Ct 226 8; Ct 18 8; Ct 146 8; Ct 82 8; Ct 210 8; Ct 50 8; Ct 178
  8; Ct 114 8; Ct 242 8; Ct 10 8; Ct 138 8; Ct 74 8; Ct 202 8; Ct 42 8; Ct 170 8; Ct 106 8; Ct
  234 8; Ct 26 8; Ct 154 8; Ct 90 8; Ct 218 8; Ct 58 8; Ct 186 8; Ct 122 8; Ct 250 8; Ct 6 8; Ct
  134 8; Ct 70 8; Ct 198 8; Ct 38 8; Ct 166 8; Ct 102 8; Ct 230 8; Ct 22 8; Ct 150 8; Ct 86 8;
  Ct 214 8; Ct 54 8; Ct 182 8; Ct 118 8; Ct 246 8; Ct 14 8; Ct 142 8; Ct 78 8; Ct 206 8; Ct 46
  8; Ct 174 8; Ct 110 8; Ct 238 8; Ct 30 8; Ct 158 8; Ct 94 8; Ct 222 8; Ct 62 8; Ct 190 8; Ct
  126 8; Ct 254 8; Ct 1 8; Ct 129 8; Ct 65 8; Ct 193 8; Ct 33 8; Ct 161 8; Ct 97 8; Ct 225 8; Ct
  17 8; Ct 145 8; Ct 81 8; Ct 209 8; Ct 49 8; Ct 177 8; Ct 113 8; Ct 241 8; Ct 9 8; Ct 137 8; Ct
  73 8; Ct 201 8; Ct 41 8; Ct 169 8; Ct 105 8; Ct 233 8; Ct 25 8; Ct 153 8; Ct 89 8; Ct 217 8;
  Ct 57 8; Ct 185 8; Ct 121 8; Ct 249 8; Ct 5 8; Ct 133 8; Ct 69 8; Ct 197 8; Ct 37 8; Ct 165 8;
  Ct 101 8; Ct 229 8; Ct 21 8; Ct 149 8; Ct 85 8; Ct 213 8; Ct 53 8; Ct 181 8; Ct 117 8; Ct 245
  8; Ct 13 8; Ct 141 8; Ct 77 8; Ct 205 8; Ct 45 8; Ct 173 8; Ct 109 8; Ct 237 8; Ct 29 8; Ct
  157 8; Ct 93 8; Ct 221 8; Ct 61 8; Ct 189 8; Ct 125 8; Ct 253 8; Ct 19 9; Ct 275 9; Ct 147 9;
  Ct 403 9; Ct 83 9; Ct 339 9; Ct 211 9; Ct 467 9; Ct 51 9; Ct 307 9; Ct 179 9; Ct 435 9; Ct 115
  9; Ct 371 9; Ct 243 9; Ct 499 9; Ct 11 9; Ct 267 9; Ct 139 9; Ct 395 9; Ct 75 9; Ct 331 9; Ct
  203 9; Ct 459 9; Ct 43 9; Ct 299 9; Ct 171 9; Ct 427 9; Ct 107 9; Ct 363 9; Ct 235 9; Ct 491
  9; Ct 27 9; Ct 283 9; Ct 155 9; Ct 411 9; Ct 91 9; Ct 347 9; Ct 219 9; Ct 475 9; Ct 59 9; Ct
  315 9; Ct 187 9; Ct 443 9; Ct 123 9; Ct 379 9; Ct 251 9; Ct 507 9; Ct 7 9; Ct 263 9; Ct 135 9;
  Ct 391 9; Ct 71 9; Ct 327 9; Ct 199 9; Ct 455 9; Ct 39 9; Ct 295 9; Ct 167 9; Ct 423 9; Ct 103
  9; Ct 359 9; Ct 231 9; Ct 487 9; Ct 23 9; Ct 279 9; Ct 151 9; Ct 407 9; Ct 87 9; Ct 343 9; Ct
  215 9; Ct 471 9; Ct 55 9; Ct 311 9; Ct 183 9; Ct 439 9; Ct 119 9; Ct 375 9; Ct 247 9; Ct 503
  9; Ct 15 9; Ct 271 9; Ct 143 9; Ct 399 9; Ct 79 9; Ct 335 9; Ct 207 9; Ct 463 9; Ct 47 9; Ct
  303 9; Ct 175 9; Ct 431 9; Ct 111 9; Ct 367 9; Ct 239 9; Ct 495 9; Ct 31 9; Ct 287 9; Ct 159
  9; Ct 415 9; Ct 95 9; Ct 351 9; Ct 223 9; Ct 479 9; Ct 63 9; Ct 319 9; Ct 191 9; Ct 447 9; Ct
  127 9; Ct 383 9; Ct 255 9; Ct 511 9; Ct 0 7; Ct 64 7; Ct 32 7; Ct 96 7; Ct 16 7; Ct 80 7; Ct
  48 7; Ct 112 7; Ct 8 7; Ct 72 7; Ct 40 7; Ct 104 7; Ct 24 7; Ct 88 7; Ct 56 7; Ct 120 7; Ct 4
  7; Ct 68 7; Ct 36 7; Ct 100 7; Ct 20 7; Ct 84 7; Ct 52 7; Ct 116 7; Ct 3 8; Ct 131 8; Ct 67 8;
  Ct 195 8; Ct 35 8; Ct 163 8; Ct 99 8; Ct 227 8].
Definition static_dtree : list ct_data := [
  Ct 0 5; Ct 16 5; Ct 8 5; Ct 24 5; Ct 4 5; Ct 20 5; Ct 12 5; Ct 28 5; Ct 2 5; Ct 18 5; Ct 10 5;
  Ct 26 5; Ct 6 5; Ct 22 5; Ct 14 5; Ct 30 5; Ct 1 5; Ct 17 5; Ct 9 5; Ct 25 5; Ct 5 5; Ct 21 5;
  Ct 13 5; Ct 29 5; Ct 3 5; Ct 19 5; Ct 11 5; Ct 27 5; Ct 7 5; Ct 23 5].
Definition _dist_code : list Z := [
  0; 1; 2; 3; 4; 4; 5; 5; 6; 6; 6; 6; 7; 7; 7; 7; 8; 8; 8; 8; 8; 8; 8; 8; 9; 9; 9; 9; 9; 9; 9;
  9; 10; 10; 10; 10; 10; 10; 10; 10; 10; 10; 10; 10; 10; 10; 10; 10; 11; 11; 11; 11; 11; 11; 11;
  11; 11; 11; 11; 11; 11; 11; 11; 11; 12; 12; 12; 12; 12; 12; 12; 12; 12; 12; 12; 12; 12; 12;
  12; 12; 12; 12; 12; 12; 12; 12; 12; 12; 12; 12; 12; 12; 12; 12; 12; 12; 13; 13; 13; 13; 13;
  13; 13; 13; 13; 13; 13; 13; 13; 13; 13; 13; 13; 13; 13; 13; 13; 13; 13; 13; 13; 13; 13; 13;
  13; 13; 13; 13; 14; 14; 14; 14; 14; 14; 14; 14; 14; 14; 14; 14; 14; 14; 14; 14; 14; 14; 14;
  14; 14; 14; 14; 14; 14; 14; 14; 14; 14; 14; 14; 14; 14; 14; 14; 14; 14; 14; 14; 14; 14; 14;
  14; 14; 14; 14; 14; 14; 14; 14; 14; 14; 14; 14; 14; 14; 14; 14; 14; 14; 14; 14; 14; 14; 15;
  15; 15; 15; 15; 15; 15; 15; 15; 15; 15; 15; 15; 15; 15; 15; 15; 15; 15; 15; 15; 15; 15; 15;
  15; 15; 15; 15; 15; 15; 15; 15; 15; 15; 15; 15; 15; 15; 15; 15; 15; 15; 15; 15; 15; 15; 15;
  15; 15; 15; 15; 15; 15; 15; 15; 15; 15; 15; 15; 15; 15; 15; 15; 15; 0; 0; 16; 17; 18; 18; 19;
  19; 20; 20; 20; 20; 21; 21; 21; 21; 22; 22; 22; 22; 22; 22; 22; 22; 23; 23; 23; 23; 23; 23;
  23; 23; 24; 24; 24; 24; 24; 24; 24; 24; 24; 24; 24; 24; 24; 24; 24; 24; 25; 25; 25; 25; 25;
  25; 25; 25; 25; 25; 25; 25; 25; 25; 25; 25; 26; 26; 26; 26; 26; 26; 26; 26; 26; 26; 26; 26;
  26; 26; 26; 26; 26; 26; 26; 26; 26; 26; 26; 26; 26; 26; 26; 26; 26; 26; 26; 26; 27; 27; 27;
  27; 27; 27; 27; 27; 27; 27; 27; 27; 27; 27; 27; 27; 27; 27; 27; 27; 27; 27; 27; 27; 27; 27;
  27; 27; 27; 27; 27; 27; 28; 28; 28; 28; 28; 28; 28; 28; 28; 28; 28; 28; 28; 28; 28; 28; 28;
  28; 28; 28; 28; 28; 28; 28; 28; 28; 28; 28; 28; 28; 28; 28; 28; 28; 28; 28; 28; 28; 28; 28;
  28; 28; 28; 28; 28; 28; 28; 28; 28; 28; 28; 28; 28; 28; 28; 28; 28; 28; 28; 28; 28; 28; 28;
  28; 29; 29; 29; 29; 29; 29; 29; 29; 29; 29; 29; 29; 29; 29; 29; 29; 29; 29; 29; 29; 29; 29;
  29; 29; 29; 29; 29; 29; 29; 29; 29; 29; 29; 29; 29; 29; 29; 29; 29; 29; 29; 29; 29; 29; 29;
  29; 29; 29; 29; 29; 29; 29; 29; 29; 29; 29; 29; 29; 29; 29; 29; 29; 29; 29].
Definition _length_code : list Z := [
  0; 1; 2; 3; 4; 5; 6; 7; 8; 8; 9; 9; 10; 10; 11; 11; 12; 12; 12; 12; 13; 13; 13; 13; 14; 14;
  14; 14; 15; 15; 15; 15; 16; 16; 16; 16; 16; 16; 16; 16; 17; 17; 17; 17; 17; 17; 17; 17; 18;
  18; 18; 18; 18; 18; 18; 18; 19; 19; 19; 19; 19; 19; 19; 19; 20; 20; 20; 20; 20; 20; 20; 20;
  20; 20; 20; 20; 20; 20; 20; 20; 21; 21; 21; 21; 21; 21; 21; 21; 21; 21; 21; 21; 21; 21; 21;
  21; 22; 22; 22; 22; 22; 22; 22; 22; 22; 22; 22; 22; 22; 22; 22; 22; 23; 23; 23; 23; 23; 23;
  23; 23; 23; 23; 23; 23; 23; 23; 23; 23; 24; 24; 24; 24; 24; 24; 24; 24; 24; 24; 24; 24; 24;
  24; 24; 24; 24; 24; 24; 24; 24; 24; 24; 24; 24; 24; 24; 24; 24; 24; 24; 24; 25; 25; 25; 25;
  25; 25; 25; 25; 25; 25; 25; 25; 25; 25; 25; 25; 25; 25; 25; 25; 25; 25; 25; 25; 25; 25; 25;
  25; 25; 25; 25; 25; 26; 26; 26; 26; 26; 26; 26; 26; 26; 26; 26; 26; 26; 26; 26; 26; 26; 26;
  26; 26; 26; 26; 26; 26; 26; 26; 26; 26; 26; 26; 26; 26; 27; 27; 27; 27; 27; 27; 27; 27; 27;
  27; 27; 27; 27; 27; 27; 27; 27; 27; 27; 27; 27; 27; 27; 27; 27; 27; 27; 27; 27; 27; 27; 28].
Definition base_length : list Z := [
  0; 1; 2; 3; 4; 5; 6; 7; 8; 10; 12; 14; 16; 20; 24; 28; 32; 40; 48; 56; 64; 80; 96; 112; 128;
  160; 192; 224; 0].
Definition base_dist : list Z := [
  0; 1; 2; 3; 4; 6; 8; 12; 16; 24; 32; 48; 64; 96; 128; 192; 256; 384; 512; 768; 1024; 1536;
  2048; 3072; 4096; 6144; 8192; 12288; 16384; 24576].

(** The code of a distance less one. *)
Definition d_code (dist : Z) : Z :=
  if dist <? 256 then _dist_code.[dist] else _dist_code.[256 + (dist ≫ 7)].

End TreesTables.
