(* ===== verification/Trees.v ===== *)
(** * zlib/trees.c: Huffman coding of the compressor

    The operations of trees.c on the part of [internal_state] (deflate.h) they
    use: the bit buffer and the pending output, the tallying of literals and
    matches, the construction of the three trees, the choice and the writing of
    a block. [d_buf] and [l_buf] lie in the same memory as the pending output,
    as deflateInit2_ allocates them. [ulg] is 32 bits wide. *)

From S2P Require Import Prelude TreesTables.

Module Trees.
Export TreesTables.

(** ** State *)

Record static_tree_desc := StaticDesc {
  static_tree : option (list ct_data); extra_bits : list Z; extra_base : Z;
  elems : Z; max_length : Z
}.
Definition static_l_desc := StaticDesc (Some static_ltree) extra_lbits (LITERALS + 1) L_CODES MAX_BITS.
Definition static_d_desc := StaticDesc (Some static_dtree) extra_dbits 0 D_CODES MAX_BITS.
Definition static_bl_desc := StaticDesc None extra_blbits 0 BL_CODES MAX_BL_BITS.

(** What the construction of a tree works on besides the tree. *)
Record workspace := Workspace {
  bl_count : list Z; heap : list Z; heap_len : Z; heap_max : Z; depth : list Z;
  opt_len : Z; static_len : Z
}.
#[global] Instance workspace_eta : Eta workspace := λ r,
  Workspace (bl_count r) (heap r) (heap_len r) (heap_max r) (depth r) (opt_len r) (static_len r).

Record deflate_state := Deflate {
  data_type : Z; pending_buf : list Z; pending : Z; level : Z; strategy : Z;
  dyn_ltree : list ct_data; dyn_dtree : list ct_data; bl_tree : list ct_data;
  l_max_code : Z; d_max_code : Z; bl_max_code : Z;
  ws : workspace; lit_bufsize : Z; last_lit : Z; matches : Z; bi_buf : Z; bi_valid : Z
}.
#[global] Instance deflate_eta : Eta deflate_state := λ r,
  Deflate (data_type r) (pending_buf r) (pending r) (level r) (strategy r)
    (dyn_ltree r) (dyn_dtree r) (bl_tree r) (l_max_code r) (d_max_code r) (bl_max_code r)
    (ws r) (lit_bufsize r) (last_lit r) (matches r) (bi_buf r) (bi_valid r).

Definition set_freq (t : list ct_data) (n v : Z) : list ct_data := t.[n <- Ct (u16 v) (Dad t.[n])].
Definition set_len (t : list ct_data) (n v : Z) : list ct_data := t.[n <- Ct (Freq t.[n]) (u16 v)].

(** [for (i = hi; i >= lo; i--)]. *)
Definition for_down {S : Type} (hi lo : Z) (b : Z → S → S) (s : S) : S :=
  for_ 0 (hi - lo + 1) (λ i, b (hi - i)) s.

(** ** Output of bits *)

Definition put_byte (s : deflate_state) (c : Z) : deflate_state :=
  s <| pending_buf := (pending_buf s).[pending s <- u8 c] |> <| pending := pending s + 1 |>.

Definition put_short (s : deflate_state) (w : Z) : deflate_state :=
  put_byte (put_byte s (w .& 0xff)) (u16 w ≫ 8).

Definition send_bits (s : deflate_state) (value length : Z) : deflate_state :=
  let len := length in
  if Buf_size - len <? bi_valid s then
    let val := value in
    let s1 := put_short (s <| bi_buf := u16 (bi_buf s .| (u16 val ≪ bi_valid s)) |>)
                (u16 (bi_buf s .| (u16 val ≪ bi_valid s))) in
    s1 <| bi_buf := u16 (u16 val ≫ (Buf_size - bi_valid s)) |>
       <| bi_valid := bi_valid s + (len - Buf_size) |>
  else
    s <| bi_buf := u16 (bi_buf s .| (u16 value ≪ bi_valid s)) |>
      <| bi_valid := bi_valid s + len |>.

Definition send_code (s : deflate_state) (c : Z) (tree : list ct_data) : deflate_state :=
  send_bits s (Code tree.[c]) (Len tree.[c]).

Definition bi_flush (s : deflate_state) : deflate_state :=
  if bi_valid s =? 16 then (put_short s (bi_buf s)) <| bi_buf := 0 |> <| bi_valid := 0 |>
  else if 8 <=? bi_valid s then
    (put_byte s (bi_buf s)) <| bi_buf := bi_buf s ≫ 8 |> <| bi_valid := bi_valid s - 8 |>
  else s.

Definition bi_windup (s : deflate_state) : deflate_state :=
  let s1 := if 8 <? bi_valid s then put_short s (bi_buf s)
            else if 0 <? bi_valid s then put_byte s (bi_buf s) else s in
  s1 <| bi_buf := 0 |> <| bi_valid := 0 |>.

(** [do { res |= code & 1; code >>= 1, res <<= 1; } while (--len > 0);] *)
Definition bi_reverse (code len : Z) : Z :=
  let body '(res, code, len) := (u32 ((res .| (code .& 1)) ≪ 1), code ≫ 1, len - 1) in
  let '(res, _, _) := while 32 (λ '(_, _, len), 0 <? len) body (body (0, code, len)) in
  res ≫ 1.

(** ** Codes of a tree *)

Definition next_code_step (bl_count : list Z) (bits : Z) : Z * list Z → Z * list Z := λ '(code, next_code),
  let code := u32 ((code + bl_count.[bits - 1]) ≪ 1) in
  (code, next_code.[bits <- u16 code]).

Definition next_codes (bl_count : list Z) : list Z :=
  (for_ 1 (MAX_BITS + 1) (next_code_step bl_count) (0, replicate 16 0)).2.

Definition gen_code_step (n : Z) : list ct_data * list Z → list ct_data * list Z := λ '(tree, next_code),
  let len := Len tree.[n] in
  if len =? 0 then (tree, next_code)
  else (tree.[n <- Ct (u16 (bi_reverse next_code.[len] len)) (Len tree.[n])],
        next_code.[len <- u16 (next_code.[len] + 1)]).

Definition gen_codes (tree : list ct_data) (max_code : Z) (bl_count : list Z) : list ct_data :=
  (for_ 0 (max_code + 1) gen_code_step (tree, next_codes bl_count)).1.

(** ** The heap *)

Definition SMALLEST : Z := 1.

Definition smaller (tree : list ct_data) (n m : Z) (depth : list Z) : bool :=
  (Freq tree.[n] <? Freq tree.[m])
  || ((Freq tree.[n] =? Freq tree.[m]) && (depth.[n] <=? depth.[m])).

(** The loop of pqdownheap with its last assignment. *)
Fixpoint down_loop (fuel : nat) (tree : list ct_data) (w : workspace) (v k j : Z) : workspace :=
  match fuel with
  | O => w <| heap := (heap w).[k <- v] |>
  | S fuel =>
      if j <=? heap_len w then
        let j := if (j <? heap_len w) && smaller tree (heap w).[j + 1] (heap w).[j] (depth w)
                 then j + 1 else j in
        if smaller tree v (heap w).[j] (depth w) then w <| heap := (heap w).[k <- v] |>
        else down_loop fuel tree (w <| heap := (heap w).[k <- (heap w).[j]] |>) v j (j ≪ 1)
      else w <| heap := (heap w).[k <- v] |>
  end.

Definition pqdownheap (tree : list ct_data) (w : workspace) (k : Z) : workspace :=
  down_loop (Z.to_nat HEAP_SIZE) tree w (heap w).[k] k (k ≪ 1).

Definition pqremove (tree : list ct_data) (w : workspace) : Z * workspace :=
  let top := (heap w).[SMALLEST] in
  let w := w <| heap := (heap w).[SMALLEST <- (heap w).[heap_len w]] |>
             <| heap_len := heap_len w - 1 |> in
  (top, pqdownheap tree w SMALLEST).

(** ** Bit lengths *)

Definition extra_of (d : static_tree_desc) (n : Z) : Z :=
  if extra_base d <=? n then (extra_bits d).[n - extra_base d] else 0.

(** The first pass on the node [heap[h]]; [overflow] counts the lengths cut. *)
Definition bitlen_step (d : static_tree_desc) (max_code h : Z)
    : list ct_data * workspace * Z → list ct_data * workspace * Z := λ '(tree, w, overflow),
  let n := (heap w).[h] in
  let bits := Len tree.[Dad tree.[n]] + 1 in
  let '(bits, overflow) := if max_length d <? bits then (max_length d, overflow + 1) else (bits, overflow) in
  let tree := set_len tree n bits in
  if max_code <? n then (tree, w, overflow)
  else
    let w := w <| bl_count := (bl_count w).[bits <- u16 ((bl_count w).[bits] + 1)] |> in
    let xbits := extra_of d n in
    let f := Freq tree.[n] in
    let w := w <| opt_len := u32 (opt_len w + f * (bits + xbits)) |> in
    let w := match static_tree d with
             | Some stree => w <| static_len := u32 (static_len w + f * (Len stree.[n] + xbits)) |>
             | None => w
             end in
    (tree, w, overflow).

(** One round of the loop that moves leaves down until none overflows. *)
Definition overflow_step (max_length : Z) : list Z * Z → list Z * Z := λ '(bl_count, overflow),
  let bits := while 16 (λ bits, bl_count.[bits] =? 0) (λ bits, bits - 1) (max_length - 1) in
  let bl_count := bl_count.[bits <- u16 (bl_count.[bits] - 1)] in
  let bl_count := bl_count.[bits + 1 <- u16 (bl_count.[bits + 1] + 2)] in
  let bl_count := bl_count.[max_length <- u16 (bl_count.[max_length] - 1)] in
  (bl_count, overflow - 2).

Definition overflow_loop (max_length : Z) (bl_count : list Z) (overflow : Z) : list Z :=
  (while (Z.to_nat HEAP_SIZE) (λ '(_, overflow), 0 <? overflow) (overflow_step max_length)
     (overflow_step max_length (bl_count, overflow))).1.

(** The length [bits] for the next node of the heap, when it is a leaf. *)
Definition assign_step (heap : list Z) (max_code bits : Z)
    : list ct_data * Z * Z * Z → list ct_data * Z * Z * Z := λ '(tree, opt_len, h, n),
  let h := h - 1 in
  let m := heap.[h] in
  if max_code <? m then (tree, opt_len, h, n)
  else if Len tree.[m] =? bits then (tree, opt_len, h, n - 1)
  else (set_len tree m bits, u32 (opt_len + u32 (bits - Len tree.[m]) * Freq tree.[m]), h, n - 1).

Definition assign_lengths (heap : list Z) (max_code max_length : Z) (bl_count : list Z)
    (tree : list ct_data) (opt_len : Z) : list ct_data * Z :=
  let '(tree, opt_len, _) := for_down max_length 1 (λ bits '(tree, opt_len, h),
    let '(tree, opt_len, h, _) :=
      while (Z.to_nat HEAP_SIZE) (λ '(_, _, _, n), c_true n) (assign_step heap max_code bits)
        (tree, opt_len, h, bl_count.[bits]) in
    (tree, opt_len, h)) (tree, opt_len, HEAP_SIZE) in
  (tree, opt_len).

Definition gen_bitlen (d : static_tree_desc) (max_code : Z) (tree : list ct_data) (w : workspace)
    : list ct_data * workspace :=
  let w := w <| bl_count := for_ 0 (MAX_BITS + 1) (λ bits c, c.[bits <- 0]) (bl_count w) |> in
  let tree := set_len tree (heap w).[heap_max w] 0 in
  let '(tree, w, overflow) :=
    for_ (heap_max w + 1) HEAP_SIZE (bitlen_step d max_code) (tree, w, 0) in
  if overflow =? 0 then (tree, w)
  else
    let w := w <| bl_count := overflow_loop (max_length d) (bl_count w) overflow |> in
    let '(tree, opt) := assign_lengths (heap w) max_code (max_length d) (bl_count w) tree (opt_len w) in
    (tree, w <| opt_len := opt |>).

(** ** The construction of a tree *)

Definition init_heap (elems : Z) (tree : list ct_data) (w : workspace) : list ct_data * workspace * Z :=
  for_ 0 elems (λ n '(tree, w, max_code),
    if c_true (Freq tree.[n]) then
      (tree, w <| heap_len := heap_len w + 1 |> <| heap := (heap w).[heap_len w + 1 <- n] |>
               <| depth := (depth w).[n <- 0] |>, n)
    else (set_len tree n 0, w, max_code))
  (tree, w <| heap_len := 0 |> <| heap_max := HEAP_SIZE |>, -1).

(** A code for a symbol that does not occur. *)
Definition force_step (stree : option (list ct_data))
    : list ct_data * workspace * Z → list ct_data * workspace * Z := λ '(tree, w, max_code),
  let '(node, max_code) := if max_code <? 2 then (max_code + 1, max_code + 1) else (0, max_code) in
  let w := w <| heap_len := heap_len w + 1 |> <| heap := (heap w).[heap_len w + 1 <- node] |>
             <| depth := (depth w).[node <- 0] |> <| opt_len := u32 (opt_len w - 1) |> in
  let w := match stree with
           | Some stree => w <| static_len := u32 (static_len w - Len stree.[node]) |>
           | None => w
           end in
  (set_freq tree node 1, w, max_code).

(** At least two codes: [while (s->heap_len < 2)]. *)
Definition force_two (stree : option (list ct_data)) : list ct_data * workspace * Z → list ct_data * workspace * Z :=
  while 2 (λ '(_, w, _), heap_len w <? 2) (force_step stree).

(** The two least frequent nodes become the sons of [node]. *)
Definition combine_step : list ct_data * workspace * Z → list ct_data * workspace * Z := λ '(tree, w, node),
  let '(n, w) := pqremove tree w in
  let m := (heap w).[SMALLEST] in
  let w := w <| heap := (heap w).[heap_max w - 1 <- n].[heap_max w - 2 <- m] |>
             <| heap_max := heap_max w - 2 |> in
  let tree := set_freq tree node (Freq tree.[n] + Freq tree.[m]) in
  let d := if (depth w).[m] <=? (depth w).[n] then (depth w).[n] else (depth w).[m] in
  let w := w <| depth := (depth w).[node <- u8 (d + 1)] |> in
  let tree := set_len (set_len tree m node) n node in
  let w := w <| heap := (heap w).[SMALLEST <- node] |> in
  (tree, pqdownheap tree w SMALLEST, node + 1).

Definition combine (tree : list ct_data) (w : workspace) (elems : Z) : list ct_data * workspace :=
  let '(tree, w, _) :=
    while (Z.to_nat HEAP_SIZE) (λ '(_, w, _), 2 <=? heap_len w) combine_step
      (combine_step (tree, w, elems)) in
  (tree, w <| heap := (heap w).[heap_max w - 1 <- (heap w).[SMALLEST]] |> <| heap_max := heap_max w - 1 |>).

(** [build_tree]: the tree with its lengths and codes, the workspace and
    [desc->max_code]. *)
Definition build_tree (d : static_tree_desc) (tree : list ct_data) (w : workspace)
    : list ct_data * workspace * Z :=
  let '(tree, w, max_code) := force_two (static_tree d) (init_heap (elems d) tree w) in
  let w := for_down (heap_len w / 2) 1 (λ n w, pqdownheap tree w n) w in
  let '(tree, w) := combine tree w (elems d) in
  let '(tree, w) := gen_bitlen d max_code tree w in
  (gen_codes tree max_code (bl_count w), w, max_code).

(** ** The code lengths as runs

    The loop that scan_tree and send_tree share: it finds the runs of equal
    lengths and passes each to [act] with the length before it. *)

Record run_state := Run { prevlen : Z; nextlen : Z; count : Z; max_count : Z; min_count : Z }.

Section Runs.
  Context {S : Type} (act : Z → Z → Z → Z → S → S) (tree : list ct_data).

Definition run_step (n : Z) : run_state * S → run_state * S := λ '(r, s),
  let curlen := nextlen r in
  let next := Len tree.[n + 1] in
  let cnt := count r + 1 in
  if (cnt <? max_count r) && (curlen =? next) then
    (Run (prevlen r) next cnt (max_count r) (min_count r), s)
  else
    let s := act curlen (prevlen r) cnt (min_count r) s in
    let '(max_count, min_count) :=
      if next =? 0 then (138, 3) else if curlen =? next then (6, 3) else (7, 4) in
    (Run curlen next 0 max_count min_count, s).

Definition runs (max_code : Z) (s : S) : S :=
  let nextlen := Len tree.[0] in
  let '(max_count, min_count) := if nextlen =? 0 then (138, 3) else (7, 4) in
  (for_ 0 (max_code + 1) run_step (Run (-1) nextlen 0 max_count min_count, s)).2.

End Runs.

(** What scan_tree does with a run. *)
Definition scan_run (curlen prevlen count min_count : Z) (bl : list ct_data) : list ct_data :=
  if count <? min_count then set_freq bl curlen (Freq bl.[curlen] + count)
  else if c_true curlen then
    let bl := if curlen =? prevlen then bl else set_freq bl curlen (Freq bl.[curlen] + 1) in
    set_freq bl REP_3_6 (Freq bl.[REP_3_6] + 1)
  else if count <=? 10 then set_freq bl REPZ_3_10 (Freq bl.[REPZ_3_10] + 1)
  else set_freq bl REPZ_11_138 (Freq bl.[REPZ_11_138] + 1).

(** The tree with its guard, and the frequencies of the bit length codes. *)
Definition scan_tree (tree : list ct_data) (max_code : Z) (bl : list ct_data)
    : list ct_data * list ct_data :=
  let tree := set_len tree (max_code + 1) 0xffff in
  (tree, runs scan_run tree max_code bl).

(** What send_tree does with a run. *)
Definition send_run (curlen prevlen count min_count : Z) (s : deflate_state) : deflate_state :=
  if count <? min_count then for_ 0 count (λ _ s, send_code s curlen (bl_tree s)) s
  else if c_true curlen then
    let '(s, count) :=
      if curlen =? prevlen then (s, count) else (send_code s curlen (bl_tree s), count - 1) in
    send_bits (send_code s REP_3_6 (bl_tree s)) (count - 3) 2
  else if count <=? 10 then send_bits (send_code s REPZ_3_10 (bl_tree s)) (count - 3) 3
  else send_bits (send_code s REPZ_11_138 (bl_tree s)) (count - 11) 7.

Definition send_tree (s : deflate_state) (tree : list ct_data) (max_code : Z) : deflate_state :=
  runs send_run tree max_code s.

Definition build_bl_tree (s : deflate_state) : deflate_state * Z :=
  let '(lt, bl) := scan_tree (dyn_ltree s) (l_max_code s) (bl_tree s) in
  let '(dt, bl) := scan_tree (dyn_dtree s) (d_max_code s) bl in
  let '(bl, w, max_code) := build_tree static_bl_desc bl (ws s) in
  let max_blindex := while 19 (λ i, (3 <=? i) && (Len bl.[bl_order.[i]] =? 0)) (λ i, i - 1) (BL_CODES - 1) in
  let w := w <| opt_len := u32 (opt_len w + (3 * (max_blindex + 1) + 5 + 5 + 4)) |> in
  (s <| dyn_ltree := lt |> <| dyn_dtree := dt |> <| bl_tree := bl |> <| ws := w |>
     <| bl_max_code := max_code |>, max_blindex).

Definition send_all_trees (s : deflate_state) (lcodes dcodes blcodes : Z) : deflate_state :=
  let s := send_bits s (lcodes - 257) 5 in
  let s := send_bits s (dcodes - 1) 5 in
  let s := send_bits s (blcodes - 4) 4 in
  let s := for_ 0 blcodes (λ rank s, send_bits s (Len (bl_tree s).[bl_order.[rank]]) 3) s in
  let s := send_tree s (dyn_ltree s) (lcodes - 1) in
  send_tree s (dyn_dtree s) (dcodes - 1).

(** ** Blocks *)

(** The literals and matches of the block: [d_buf] and [l_buf]. *)
Definition d_at (s : deflate_state) (lx : Z) : Z := lit_bufsize s + 2 * lx.
Definition l_at (s : deflate_state) (lx : Z) : Z := 3 * lit_bufsize s + lx.
Definition d_buf (s : deflate_state) (lx : Z) : Z :=
  (pending_buf s).[d_at s lx] + 256 * (pending_buf s).[d_at s lx + 1].
Definition l_buf (s : deflate_state) (lx : Z) : Z := (pending_buf s).[l_at s lx].

Definition init_block (s : deflate_state) : deflate_state :=
  let lt := for_ 0 L_CODES (λ n t, set_freq t n 0) (dyn_ltree s) in
  let dt := for_ 0 D_CODES (λ n t, set_freq t n 0) (dyn_dtree s) in
  let bl := for_ 0 BL_CODES (λ n t, set_freq t n 0) (bl_tree s) in
  s <| dyn_ltree := set_freq lt END_BLOCK 1 |> <| dyn_dtree := dt |> <| bl_tree := bl |>
    <| ws := (ws s) <| opt_len := 0 |> <| static_len := 0 |> |>
    <| last_lit := 0 |> <| matches := 0 |>.

Definition _tr_init (s : deflate_state) : deflate_state :=
  init_block (s <| bi_buf := 0 |> <| bi_valid := 0 |>).

(** The state, and whether the block must be flushed. *)
Definition _tr_tally (s : deflate_state) (dist lc : Z) : deflate_state * bool :=
  let lx := last_lit s in
  let buf := (pending_buf s).[d_at s lx <- u16 dist .& 0xff].[d_at s lx + 1 <- u16 dist ≫ 8]
               .[l_at s lx <- u8 lc] in
  let s := s <| pending_buf := buf |> <| last_lit := lx + 1 |> in
  let s :=
    if dist =? 0 then s <| dyn_ltree := set_freq (dyn_ltree s) lc (Freq (dyn_ltree s).[lc] + 1) |>
    else
      let dist := u32 (dist - 1) in
      let lcode := _length_code.[lc] + LITERALS + 1 in
      let dcode := d_code dist in
      s <| matches := matches s + 1 |>
        <| dyn_ltree := set_freq (dyn_ltree s) lcode (Freq (dyn_ltree s).[lcode] + 1) |>
        <| dyn_dtree := set_freq (dyn_dtree s) dcode (Freq (dyn_dtree s).[dcode] + 1) |> in
  (s, last_lit s =? lit_bufsize s - 1).

(** The inline versions in deflate.h. *)
Definition _tr_tally_lit (s : deflate_state) (c : Z) : deflate_state * bool :=
  let cc := u8 c in
  let lx := last_lit s in
  let buf := (pending_buf s).[d_at s lx <- 0 .& 0xff].[d_at s lx + 1 <- 0 ≫ 8].[l_at s lx <- cc] in
  let s := s <| pending_buf := buf |> <| last_lit := lx + 1 |> in
  let s := s <| dyn_ltree := set_freq (dyn_ltree s) cc (Freq (dyn_ltree s).[cc] + 1) |> in
  (s, last_lit s =? lit_bufsize s - 1).

Definition _tr_tally_dist (s : deflate_state) (distance length : Z) : deflate_state * bool :=
  let len := u8 length in
  let dist := u16 distance in
  let lx := last_lit s in
  let buf := (pending_buf s).[d_at s lx <- dist .& 0xff].[d_at s lx + 1 <- dist ≫ 8].[l_at s lx <- len] in
  let s := s <| pending_buf := buf |> <| last_lit := lx + 1 |> in
  let dist := u16 (dist - 1) in
  let lcode := _length_code.[len] + LITERALS + 1 in
  let dcode := d_code dist in
  let s := s <| dyn_ltree := set_freq (dyn_ltree s) lcode (Freq (dyn_ltree s).[lcode] + 1) |>
             <| dyn_dtree := set_freq (dyn_dtree s) dcode (Freq (dyn_dtree s).[dcode] + 1) |> in
  (s, last_lit s =? lit_bufsize s - 1).

Definition compress_step (ltree dtree : list ct_data) : deflate_state * Z → deflate_state * Z := λ '(s, lx),
  let dist := d_buf s lx in
  let lc := l_buf s lx in
  let lx := lx + 1 in
  if dist =? 0 then (send_code s lc ltree, lx)
  else
    let code := _length_code.[lc] in
    let s := send_code s (code + LITERALS + 1) ltree in
    let extra := extra_lbits.[code] in
    let s := if c_true extra then send_bits s (lc - base_length.[code]) extra else s in
    let dist := u32 (dist - 1) in
    let code := d_code dist in
    let s := send_code s code dtree in
    let extra := extra_dbits.[code] in
    let s := if c_true extra then send_bits s (u32 (dist - base_dist.[code])) extra else s in
    (s, lx).

Definition compress_block (s : deflate_state) (ltree dtree : list ct_data) : deflate_state :=
  let '(s, _) :=
    if c_true (last_lit s) then
      while (Z.to_nat (last_lit s)) (λ '(s, lx), lx <? last_lit s) (compress_step ltree dtree)
        (compress_step ltree dtree (s, 0))
    else (s, 0) in
  send_code s END_BLOCK ltree.

Definition Z_BINARY : Z := 0.
Definition Z_TEXT : Z := 1.
Definition Z_UNKNOWN : Z := 2.
Definition Z_FIXED : Z := 4.
Definition STORED_BLOCK : Z := 0.
Definition STATIC_TREES : Z := 1.
Definition DYN_TREES : Z := 2.

Definition detect_data_type (s : deflate_state) : Z :=
  let freq n := c_true (Freq (dyn_ltree s).[n]) in
  if (for_ 0 32 (λ n '(found, black_mask),
        (found || (c_true (black_mask .& 1) && freq n), black_mask ≫ 1)) (false, 0xf3ffc07f)).1
  then Z_BINARY
  else if freq 9 || freq 10 || freq 13 then Z_TEXT
  else if for_ 32 LITERALS (λ n found, found || freq n) false then Z_TEXT
  else Z_BINARY.

(** [buf] is the memory from the pointer on, [None] for NULL. *)
Definition _tr_stored_block (s : deflate_state) (buf : option (list Z)) (stored_len : Z) (last : bool)
    : deflate_state :=
  let s := send_bits s ((STORED_BLOCK ≪ 1) + Z.b2z last) 3 in
  let s := bi_windup s in
  let s := put_short s (u16 stored_len) in
  let s := put_short s (u16 (Z.lnot stored_len)) in
  s <| pending_buf := memcpy (pending_buf s) (pending s) (take (Z.to_nat stored_len) (default [] buf)) |>
    <| pending := pending s + stored_len |>.

Definition _tr_flush_bits (s : deflate_state) : deflate_state := bi_flush s.

Definition _tr_align (s : deflate_state) : deflate_state :=
  let s := send_bits s (STATIC_TREES ≪ 1) 3 in
  let s := send_code s END_BLOCK static_ltree in
  bi_flush s.

(** The trees of the block and the sizes in bytes with them and without. *)
Definition build_trees (s : deflate_state) : deflate_state * Z * Z * Z :=
  let s := if data_type s =? Z_UNKNOWN then s <| data_type := detect_data_type s |> else s in
  let '(lt, w, lmax) := build_tree static_l_desc (dyn_ltree s) (ws s) in
  let s := s <| dyn_ltree := lt |> <| ws := w |> <| l_max_code := lmax |> in
  let '(dt, w, dmax) := build_tree static_d_desc (dyn_dtree s) (ws s) in
  let s := s <| dyn_dtree := dt |> <| ws := w |> <| d_max_code := dmax |> in
  let '(s, max_blindex) := build_bl_tree s in
  let opt_lenb := u32 (opt_len (ws s) + 3 + 7) ≫ 3 in
  let static_lenb := u32 (static_len (ws s) + 3 + 7) ≫ 3 in
  (s, max_blindex, if static_lenb <=? opt_lenb then static_lenb else opt_lenb, static_lenb).

Definition _tr_flush_block (s : deflate_state) (buf : option (list Z)) (stored_len : Z) (last : bool)
    : deflate_state :=
  let '(s, max_blindex, opt_lenb, static_lenb) :=
    if 0 <? level s then build_trees s else (s, 0, u32 (stored_len + 5), u32 (stored_len + 5)) in
  let s :=
    if (u32 (stored_len + 4) <=? opt_lenb) && bool_decide (is_Some buf) then
      _tr_stored_block s buf stored_len last
    else if (strategy s =? Z_FIXED) || (static_lenb =? opt_lenb) then
      compress_block (send_bits s ((STATIC_TREES ≪ 1) + Z.b2z last) 3) static_ltree static_dtree
    else
      let s := send_bits s ((DYN_TREES ≪ 1) + Z.b2z last) 3 in
      let s := send_all_trees s (l_max_code s + 1) (d_max_code s + 1) (max_blindex + 1) in
      compress_block s (dyn_ltree s) (dyn_dtree s) in
  let s := init_block s in
  if last then bi_windup s else s.

End Trees.
