(* ===== verification/TreesInit.v ===== *)
(** * zlib/trees.c: tr_static_init

    The generator of the tables of trees.h, and that trees.h is what it
    generates. *)

From S2P Require Import Prelude TreesTables Trees.

Module TreesInit.
Import Trees.

(** The lengths 0..255 to length codes 0..28: the codes in turn, each for the
    lengths its extra bits distinguish. *)
Definition fill_codes (code count : Z) : list Z * Z → list Z * Z :=
  for_ 0 count (λ _ '(codes, n), (codes.[n <- u8 code], n + 1)).

Definition init_length_codes : list Z * list Z :=
  let '(_length_code, base_length, length) :=
    for_ 0 (LENGTH_CODES - 1) (λ code '(_length_code, base_length, length),
      let base_length := base_length.[code <- length] in
      let '(_length_code, length) := fill_codes code (1 ≪ extra_lbits.[code]) (_length_code, length) in
      (_length_code, base_length, length))
    (replicate (Z.to_nat (MAX_MATCH - MIN_MATCH + 1)) 0, replicate (Z.to_nat LENGTH_CODES) 0, 0) in
  (_length_code.[length - 1 <- u8 (LENGTH_CODES - 1)], base_length).

(** The distances 0..32K to distance codes 0..29, divided by 128 from 256 on. *)
Definition init_dist_codes : list Z * list Z :=
  let '(_dist_code, base_dist, dist) :=
    for_ 0 16 (λ code '(_dist_code, base_dist, dist),
      let base_dist := base_dist.[code <- dist] in
      let '(_dist_code, dist) := fill_codes code (1 ≪ extra_dbits.[code]) (_dist_code, dist) in
      (_dist_code, base_dist, dist))
    (replicate (Z.to_nat DIST_CODE_LEN) 0, replicate (Z.to_nat D_CODES) 0, 0) in
  let dist := dist ≫ 7 in
  let '(_dist_code, base_dist, _) :=
    for_ 16 D_CODES (λ code '(_dist_code, base_dist, dist),
      let base_dist := base_dist.[code <- dist ≪ 7] in
      let '(_dist_code, at_) := fill_codes code (1 ≪ (extra_dbits.[code] - 7)) (_dist_code, 256 + dist) in
      (_dist_code, base_dist, at_ - 256))
    (_dist_code, base_dist, dist) in
  (_dist_code, base_dist).

(** [while (n <= last) static_ltree[n++].Len = len, bl_count[len]++;] *)
Definition fill_lens (len first last : Z) : list ct_data * list Z → list ct_data * list Z :=
  for_ first (last + 1) (λ n '(t, bl_count), (set_len t n len, bl_count.[len <- u16 (bl_count.[len] + 1)])).

Definition init_static_ltree : list ct_data :=
  let '(t, bl_count) := (replicate (Z.to_nat (L_CODES + 2)) (Ct 0 0), replicate (Z.to_nat (MAX_BITS + 1)) 0) in
  let '(t, bl_count) := fill_lens 8 280 287 (fill_lens 7 256 279 (fill_lens 9 144 255 (fill_lens 8 0 143 (t, bl_count)))) in
  gen_codes t (L_CODES + 1) bl_count.

Definition init_static_dtree : list ct_data :=
  for_ 0 D_CODES (λ n t, set_freq (set_len t n 5) n (bi_reverse n 5)) (replicate (Z.to_nat D_CODES) (Ct 0 0)).

Definition tr_static_init : list ct_data * list ct_data * list Z * list Z * list Z * list Z :=
  let '(_length_code, base_length) := init_length_codes in
  let '(_dist_code, base_dist) := init_dist_codes in
  (init_static_ltree, init_static_dtree, _dist_code, _length_code, base_length, base_dist).

(** The tables of trees.h are what tr_static_init computes: the fixed codes of
    literals, lengths and distances, the code of every match length and of every
    distance, and their bases, all 1,145 entries. *)
Theorem static_tables_generated :
  tr_static_init = (static_ltree, static_dtree, _dist_code, _length_code, base_length, base_dist).
Proof. vm_compute. reflexivity. Qed.

End TreesInit.
