(* ===== verification/BitWriter.v ===== *)
(** * zlib/trees.c: the bits written

    What the pending output and the bit buffer hold is a string of bits;
    send_bits, bi_flush and bi_windup append to it, within the pending buffer
    and without touching the memory past the output. A part of the output is
    the list of the fields sent, each a value and its width, low bit first. *)

From S2P Require Import Prelude Inftrees Rfc1951 TreesTables Trees.

Module BitWriter.
Import Rfc1951 Trees.

(** ** Fields *)

Abbreviation field := (Z * Z)%type.
Definition field_ok (f : field) : Prop := 0 ≤ f.2 ≤ 16 ∧ ubits f.2 f.1.

Definition fbits (fs : list field) : Z := foldr (λ f n, f.2 + n) 0 fs.
Definition fval (fs : list field) : Z := foldr (λ f v, f.1 + 2 ^ f.2 * v) 0 fs.

(** The stream that begins with the bits of a field. *)
Definition pre (x n : Z) (s : bitstream) : bitstream := Bits (x + 2 ^ n * value s) (n + avail s).
Definition feed (fs : list field) (s : bitstream) : bitstream := foldr (λ f, pre f.1 f.2) s fs.

Lemma fbits_cons f fs : fbits (f :: fs) = f.2 + fbits fs.
Proof. done. Qed.

Lemma fbits_replicate k f : fbits (replicate k f) = Z.of_nat k * f.2.
Proof. induction k as [|k IH]; [done|]. cbn [replicate]. rewrite fbits_cons, IH. lia. Qed.

Lemma fbits_app fs gs : fbits (fs ++ gs) = fbits fs + fbits gs.
Proof. induction fs as [|f fs IH]; simpl; [done|]. rewrite IH. lia. Qed.

Lemma fbits_nonneg fs : Forall field_ok fs → 0 ≤ fbits fs.
Proof. induction 1 as [|f fs [Hf _] _ IH]; simpl; lia. Qed.

Lemma fval_app fs gs : Forall field_ok fs → fval (fs ++ gs) = fval fs + 2 ^ fbits fs * fval gs.
Proof.
  induction 1 as [|f fs [Hf _] Hfs IH]; [by rewrite Z.mul_1_l|].
  cbn [fval fbits foldr app] in *. fold (fval (fs ++ gs)) (fval fs) (fbits fs) in *.
  pose proof (fbits_nonneg fs Hfs). rewrite IH, Z.pow_add_r by lia. lia.
Qed.

Lemma fval_ubits fs : Forall field_ok fs → ubits (fbits fs) (fval fs).
Proof.
  induction 1 as [|f fs [Hf Hv] Hfs IH]; [by apply ubits_0|].
  cbn [fval fbits foldr]. fold (fval fs) (fbits fs). pose proof (fbits_nonneg fs Hfs).
  unfold ubits in *. rewrite Z.pow_add_r by lia. nia.
Qed.

Lemma feed_app fs gs s : feed (fs ++ gs) s = feed fs (feed gs s).
Proof. unfold feed. by rewrite foldr_app. Qed.

Lemma feed_bits fs v n : Forall field_ok fs → 
  feed fs (Bits v n) = Bits (fval fs + 2 ^ fbits fs * v) (fbits fs + n).
Proof.
  induction 1 as [|f fs [Hf _] Hfs IH]; [simpl; by rewrite Z.mul_1_l|].
  cbn [feed fval fbits foldr]. fold (feed fs (Bits v n)) (fval fs) (fbits fs).
  pose proof (fbits_nonneg fs Hfs). rewrite IH. unfold pre. simpl.
  rewrite Z.pow_add_r by lia. f_equal; lia.
Qed.

Lemma avail_feed fs s : Forall field_ok fs → avail (feed fs s) = fbits fs + avail s.
Proof. intros. destruct s as [v n]. by rewrite feed_bits. Qed.

Lemma get_pre n x s : 0 ≤ n → ubits n x → 0 ≤ avail s → get n (pre x n s) = Ok x s.
Proof.
  intros Hn Hx Hs. unfold get, pre. simpl. destruct (Z.ltb_spec (n + avail s) n); [lia|].
  f_equal.
  - rewrite Z.mul_comm, Z.mod_add by lia. by apply Z.mod_small.
  - destruct s as [v a]. unfold dropped. simpl. f_equal; [|lia].
    rewrite Z.mul_comm, Z.div_add, Z.div_small by (done || lia). done.
Qed.

Lemma bind_pre {A} n x s (f : Z → P A) : 0 ≤ n → ubits n x → 0 ≤ avail s →
  (get n ≫= f) (pre x n s) = f x s.
Proof. intros. unfold mbind, P_bind. by rewrite get_pre. Qed.

(** ** Little-endian bytes *)

Lemma le_value_app l k : le_value (l ++ k) = le_value l + 2 ^ (8 * zlen l) * le_value k.
Proof.
  induction l as [|b l IH]; [change (le_value k = 0 + 1 * le_value k); lia|]. rewrite zlen_cons. pose proof (zlen_nonneg l).
  cbn [le_value foldr app] in *. fold (le_value (l ++ k)) (le_value l) in *. rewrite IH.
  replace (8 * (1 + zlen l)) with (8 + 8 * zlen l) by lia. rewrite Z.pow_add_r by lia. lia.
Qed.

Lemma take_succ_aget {A} `{!Inhabited A} (l : list A) i : 0 ≤ i < zlen l →
  take (Z.to_nat (i + 1)) l = take (Z.to_nat i) l ++ [l.[i]].
Proof.
  intros Hi. replace (Z.to_nat (i + 1)) with (S (Z.to_nat i)) by lia.
  apply take_S_r. unfold aget, zlen in *. apply list_lookup_lookup_total_lt. lia.
Qed.

Lemma take_aset {A} (l : list A) i n x : n ≤ i → take (Z.to_nat n) (aset l i x) = take (Z.to_nat n) l.
Proof. intros. unfold aset. apply take_insert_ge. lia. Qed.

(** ** The output *)

Definition output_bytes (s : deflate_state) : list Z := take (Z.to_nat (pending s)) (pending_buf s).
Definition sent (s : deflate_state) : bitstream :=
  Bits (le_value (output_bytes s) + 2 ^ (8 * pending s) * bi_buf s) (8 * pending s + bi_valid s).

Record writer_ok (s : deflate_state) : Prop := {
  wo_pending : 0 ≤ pending s ≤ zlen (pending_buf s);
  wo_bytes : bytes (pending_buf s);
  wo_valid : 0 ≤ bi_valid s ≤ 16;
  wo_buf : ubits (bi_valid s) (bi_buf s);
}.

(** The state with another output. *)
Definition with_out (s : deflate_state) (buf : list Z) (p b v : Z) : deflate_state :=
  s <| pending_buf := buf |> <| pending := p |> <| bi_buf := b |> <| bi_valid := v |>.

(** [s'] is [s] with the bits of the fields [fs] written. *)
Record emits (s s' : deflate_state) (fs : list field) : Prop := {
  em_with : ∃ buf p b v, s' = with_out s buf p b v;
  em_ok : writer_ok s';
  em_fields : Forall field_ok fs;
  em_sent : sent s' = Bits (value (sent s) + 2 ^ avail (sent s) * fval fs) (avail (sent s) + fbits fs);
  em_size : zlen (pending_buf s') = zlen (pending_buf s);
  em_mono : pending s ≤ pending s';
  em_tail : ∀ i, pending s' ≤ i → (pending_buf s').[i] = (pending_buf s).[i];
}.

(** The bits there is room for. *)
Definition room (s : deflate_state) : Z := 8 * (zlen (pending_buf s) - pending s) - bi_valid s.

Lemma emits_refl s : writer_ok s → emits s s [].
Proof.
  intros H. constructor; try done.
  - exists (pending_buf s), (pending s), (bi_buf s), (bi_valid s). by destruct s.
  - unfold sent. simpl. f_equal; lia.
Qed.

Lemma emits_trans s s1 s2 fs gs : writer_ok s → emits s s1 fs → emits s1 s2 gs → emits s s2 (fs ++ gs).
Proof.
  intros Hs [(b1 & p1 & c1 & v1 & E1) O1 F1 S1 Z1 M1 T1] [(b2 & p2 & c2 & v2 & E2) O2 F2 S2 Z2 M2 T2].
  constructor.
  - exists b2, p2, c2, v2. by rewrite E2, E1.
  - done.
  - by apply Forall_app.
  - rewrite S2, S1, fval_app, fbits_app by done. pose proof (fbits_nonneg fs F1).
    assert (0 ≤ avail (sent s)) by (destruct Hs as [Hp _ Hv _]; simpl; lia).
    cbn [value avail]. rewrite Z.pow_add_r by lia. f_equal; lia.
  - by rewrite Z2.
  - lia.
  - intros i Hi. rewrite T2, T1 by lia. done.
Qed.

Lemma emits_room s s' fs : emits s s' fs → room s' = room s - fbits fs.
Proof.
  intros [_ _ _ HS HZ _ _]. unfold room. injection HS as _ Hb. rewrite HZ. lia.
Qed.

Lemma emits_pending s s' fs : emits s s' fs → 8 * pending s' ≤ 8 * pending s + bi_valid s + fbits fs.
Proof. intros [_ [_ _ Hv _] _ HS _ _ _]. injection HS as _ Hb. lia. Qed.

(** A byte appended to the pending output. *)
Lemma put_byte_ok s c : 0 ≤ pending s < zlen (pending_buf s) → bytes (pending_buf s) →
  let s' := put_byte s c in
  output_bytes s' = output_bytes s ++ [u8 c] ∧ bytes (pending_buf s') ∧
  zlen (pending_buf s') = zlen (pending_buf s) ∧
  ∀ i, pending s' ≤ i → (pending_buf s').[i] = (pending_buf s).[i].
Proof.
  intros Hp Hb s'. unfold s', put_byte, output_bytes. simpl. split_and!.
  - rewrite take_succ_aget by (by rewrite zlen_aset). rewrite take_aset, aget_aset_eq by lia. done.
  - apply Forall_aset; [done|]. apply wrap_ubits. lia.
  - apply zlen_aset.
  - intros i Hi. apply aget_aset_ne; lia.
Qed.

Lemma put_short_ok s w : 0 ≤ pending s → pending s + 2 ≤ zlen (pending_buf s) → bytes (pending_buf s) → ubits 16 w →
  let s' := put_short s w in
  (∃ buf, s' = s <| pending_buf := buf |> <| pending := pending s + 2 |>) ∧
  (∃ b0 b1, output_bytes s' = output_bytes s ++ [b0; b1] ∧ byte b0 ∧ byte b1 ∧ b0 + 2 ^ 8 * b1 = w) ∧
  bytes (pending_buf s') ∧
  zlen (pending_buf s') = zlen (pending_buf s) ∧
  ∀ i, pending s' ≤ i → (pending_buf s').[i] = (pending_buf s).[i].
Proof.
  intros Hp Hr Hb Hw s'. destruct (put_byte_ok s (w .& 0xff)) as (O1 & B1 & Z1 & T1); [lia|done|].
  destruct (put_byte_ok (put_byte s (w .& 0xff)) (u16 w ≫ 8)) as (O2 & B2 & Z2 & T2);
    [simpl; rewrite zlen_aset; lia|done|].
  split_and!.
  - eexists. unfold s', put_short, put_byte. simpl. f_equal. lia.
  - eexists _, _. split; [unfold s', put_short; rewrite O2, O1, <-app_assoc; done|].
    split; [apply wrap_ubits; lia|]. split; [apply wrap_ubits; lia|].
    change 0xff with (Z.ones 8). rewrite Z.land_ones, Z.shiftr_div_pow2, (wrap_small 16) by (done || lia).
    unfold wrap, ubits in *. Z.div_mod_to_equations. lia.
  - done.
  - unfold s', put_short. by rewrite Z2.
  - intros i Hi. unfold s', put_short in *. rewrite T2 by lia. apply T1. simpl in *. lia.
Qed.

(** ** The operations *)

Lemma lor_buf b v x : 0 ≤ v ≤ 16 → ubits v b → ubits 16 x →
  u16 (b .| (u16 x ≪ v)) = b + 2 ^ v * (x mod 2 ^ (16 - v)).
Proof.
  intros Hv Hb Hx. rewrite (wrap_small 16 x) by done. rewrite lor_shiftl_add by (done || lia).
  unfold wrap. replace 16 with (v + (16 - v)) at 1 by lia.
  rewrite mod_pow2_split by lia. unfold ubits in Hb. rewrite Z.mod_add, Z.div_add by lia.
  rewrite (Z.mod_small b), (Z.div_small b) by lia. done.
Qed.

(** A full 16-bit buffer goes to the output. *)
Lemma emits_short s w v (rest : Z) : writer_ok s → 0 ≤ v → v < 2 ^ 16 → 0 ≤ rest ≤ 16 →
  ubits rest w → 0 ≤ pending s → pending s + 2 ≤ zlen (pending_buf s) →
  let s' := (put_short s v) <| bi_buf := w |> <| bi_valid := rest |> in
  (∃ buf p b n, s' = with_out s buf p b n) ∧ writer_ok s' ∧
  sent s' = Bits (le_value (output_bytes s) + 2 ^ (8 * pending s) * (v + 2 ^ 16 * w)) (8 * pending s + 16 + rest) ∧
  zlen (pending_buf s') = zlen (pending_buf s) ∧ pending s ≤ pending s' ∧
  ∀ i, pending s' ≤ i → (pending_buf s').[i] = (pending_buf s).[i].
Proof.
  intros [Hp Hb Hv _] Hv0 Hv16 Hr Hw H0 Hroom s'.
  destruct (put_short_ok s v) as ((buf & E) & (b0 & b1 & O & Hb0 & Hb1 & Ev) & B & Zl & T); [lia..|done|done|].
  assert (pending (put_short s v) = pending s + 2) as Ep by (by rewrite E).
  unfold s'. clear s'. set (u := put_short s v) in *. clearbody u.
  split_and!; [| constructor| | | |]; simpl; try done; try lia.
  - exists buf, (pending s + 2), w, rest. by rewrite E.
  - transitivity (Bits (le_value (output_bytes u) + 2 ^ (8 * pending u) * w) (8 * pending u + rest)); [done|].
    rewrite O, le_value_app, Ep. f_equal; [|lia].
    assert (zlen (output_bytes s) = pending s) as ->
      by (unfold output_bytes, zlen in *; rewrite length_take; lia).
    replace (8 * (pending s + 2)) with (8 * pending s + 16) by lia. rewrite Z.pow_add_r by lia.
    simpl le_value. rewrite <-Ev. lia.
Qed.

Lemma send_bits_ok s x n : writer_ok s → field_ok (x, n) → n ≤ room s → emits s (send_bits s x n) [(x, n)].
Proof.
  intros Hs [Hn Hx] Hroom. simpl in Hn, Hx. pose proof Hs as [Hp Hb Hv Hbuf]. unfold room in Hroom.
  assert (ubits 16 x) as Hx16 by (apply (ubits_mono n); [lia|done]).
  unfold send_bits, Buf_size. rewrite lor_buf by done.
  set (v := bi_valid s) in *. set (b := bi_buf s) in *.
  pose proof (Z.mod_pos_bound x (2 ^ (16 - v)) ltac:(lia)) as Hm.
  destruct (Z.ltb_spec (16 - n) v) as [Hf|Hf].
  - rewrite (wrap_small 16 x) by done. rewrite Z.shiftr_div_pow2 by lia.
    assert (ubits (v + (n - 16)) (x / 2 ^ (16 - v))) as Hq.
    { unfold ubits in *. split; [apply Z.div_pos; lia|]. apply Z.div_lt_upper_bound; [lia|].
      rewrite <-Z.pow_add_r by lia. replace (16 - v + (v + (n - 16))) with n by lia. lia. }
    rewrite (wrap_small 16) by (eapply ubits_mono; [|done]; lia).
    assert (2 ^ 16 = 2 ^ v * 2 ^ (16 - v)) as E16 by (rewrite <-Z.pow_add_r by lia; f_equal; lia).
    edestruct (emits_short s (x / 2 ^ (16 - v)) (b + 2 ^ v * (x mod 2 ^ (16 - v))) (v + (n - 16)))
      as (W & O & S & Zl & M & T); [done| | |lia|done|lia| |].
    { unfold ubits in Hbuf. nia. }
    { unfold ubits in Hbuf. rewrite E16. nia. }
    { lia. }
    constructor; [exact W|exact O|by apply Forall_singleton| |exact Zl|exact M|exact T].
    etransitivity; [exact S|]. unfold sent. fold v b. simpl. f_equal; [|lia].
    rewrite (Z.div_mod x (2 ^ (16 - v))) at 3 by lia.
    rewrite Z.pow_add_r by lia. rewrite E16. lia.
  - rewrite (Z.mod_small x).
    2: { unfold ubits in Hx. split; [lia|]. eapply Z.lt_le_trans; [apply Hx|]. apply Z.pow_le_mono_r; lia. }
    constructor.
    + by eexists _, _, _, _.
    + constructor; simpl; [done|done|lia|]. unfold ubits in *. rewrite Z.pow_add_r by lia. nia.
    + by apply Forall_singleton.
    + unfold sent. simpl. fold v b. f_equal; [|lia]. rewrite Z.pow_add_r by lia.
      unfold output_bytes. simpl. lia.
    + done.
    + simpl. lia.
    + done.
Qed.

(** Bytes appended to the output, with another bit buffer after them. *)
Lemma emits_append s s' l fs : writer_ok s → (∃ buf p b v, s' = with_out s buf p b v) →
  output_bytes s' = output_bytes s ++ l → pending s' = pending s + zlen l →
  bytes (pending_buf s') → zlen (pending_buf s') = zlen (pending_buf s) → pending s' ≤ zlen (pending_buf s) →
  (∀ i, pending s' ≤ i → (pending_buf s').[i] = (pending_buf s).[i]) →
  0 ≤ bi_valid s' ≤ 16 → ubits (bi_valid s') (bi_buf s') → Forall field_ok fs →
  le_value l + 2 ^ (8 * zlen l) * bi_buf s' = bi_buf s + 2 ^ bi_valid s * fval fs →
  8 * zlen l + bi_valid s' = bi_valid s + fbits fs → emits s s' fs.
Proof.
  intros [Hp Hb Hv Hbuf] W O P B Zl Pl T V U F Ev En. pose proof (zlen_nonneg l).
  constructor; try done; [constructor; (done || lia)| |lia].
  unfold sent. rewrite O, le_value_app, P. cbn [value avail]. f_equal; [|lia].
  assert (zlen (output_bytes s) = pending s) as ->
    by (unfold output_bytes, zlen in *; rewrite length_take; lia).
  replace (8 * (pending s + zlen l)) with (8 * pending s + 8 * zlen l) by lia.
  rewrite !Z.pow_add_r by lia.
  transitivity (le_value (output_bytes s) + 2 ^ (8 * pending s) * (le_value l + 2 ^ (8 * zlen l) * bi_buf s'));
    [lia|]. rewrite Ev. lia.
Qed.

Lemma bi_flush_ok s : writer_ok s → 0 ≤ room s → emits s (bi_flush s) [] ∧ bi_valid (bi_flush s) < 8.
Proof.
  intros Hs Hroom. pose proof Hs as [Hp Hb Hv Hbuf]. unfold room in Hroom. unfold bi_flush.
  destruct (Z.eqb_spec (bi_valid s) 16) as [E|]; [|destruct (Z.leb_spec 8 (bi_valid s))].
  - rewrite E in Hbuf. destruct (put_short_ok s (bi_buf s)) as ((buf & E') & (b0 & b1 & O & Hb0 & Hb1 & Ev) & B & Zl & T);
      [lia..|done|done|]. split; [|simpl; lia].
    assert (pending (put_short s (bi_buf s)) = pending s + 2) as Ep by (by rewrite E').
    set (u := put_short s (bi_buf s)) in *. clearbody u.
    eapply (emits_append _ _ [b0; b1]); [done|rewrite E'; by eexists _, _, _, _|exact O|exact Ep|exact B|exact Zl| |exact T|..].
    + cbn [pending set_field]. simpl. lia.
    + simpl. lia.
    + by apply ubits_0.
    + done.
    + change (le_value [b0; b1]) with (b0 + 2 ^ 8 * (b1 + 2 ^ 8 * 0)). cbn [bi_buf fval foldr]. simpl. lia.
    + simpl. rewrite E. done.
  - destruct (put_byte_ok s (bi_buf s)) as (O & B & Zl & T); [lia|done|]. split; [|simpl; lia].
    eapply (emits_append _ _ [u8 (bi_buf s)]); [done|by eexists _, _, _, _|exact O|done|exact B|exact Zl| |exact T|..].
    + simpl. lia.
    + simpl. lia.
    + apply ubits_shiftr_sub; [lia|done].
    + done.
    + simpl bi_buf. cbn [le_value foldr fval]. rewrite Z.shiftr_div_pow2 by lia. unfold wrap.
      change (8 * zlen _) with 8. pose proof (Z.div_mod (bi_buf s) (2 ^ 8)). lia.
    + change (zlen [u8 (bi_buf s)]) with 1. simpl. lia.
  - split; [by apply emits_refl|lia].
Qed.

(** The bits that fill the last byte. *)
Definition padding (s : deflate_state) : Z := - bi_valid s mod 8.

Lemma bi_windup_ok s : writer_ok s → 0 ≤ room s →
  emits s (bi_windup s) [(0, padding s)] ∧ bi_valid (bi_windup s) = 0 ∧ bi_buf (bi_windup s) = 0.
Proof.
  intros Hs Hroom. pose proof Hs as [Hp Hb Hv Hbuf]. unfold room in Hroom. split; [|done].
  assert (field_ok (0, padding s)) as Hf.
  { pose proof (Z.mod_pos_bound (- bi_valid s) 8 ltac:(lia)). split; [simpl; unfold padding; lia|].
    apply ubits_0. simpl. unfold padding. lia. }
  unfold bi_windup. destruct (Z.ltb_spec 8 (bi_valid s)); [|destruct (Z.ltb_spec 0 (bi_valid s))].
  - assert (ubits 16 (bi_buf s)) as Hw by (apply (ubits_mono (bi_valid s)); [lia|done]).
    destruct (put_short_ok s (bi_buf s)) as ((buf & E') & (b0 & b1 & O & Hb0 & Hb1 & Ev) & B & Zl & T);
      [lia..|done|done|].
    assert (pending (put_short s (bi_buf s)) = pending s + 2) as Ep by (by rewrite E').
    set (u := put_short s (bi_buf s)) in *. clearbody u.
    eapply (emits_append _ _ [b0; b1]); [done|rewrite E'; by eexists _, _, _, _|exact O|exact Ep|exact B|exact Zl| |exact T|..].
    + cbn [pending set_field]. simpl. lia.
    + simpl. lia.
    + by apply ubits_0.
    + by apply Forall_singleton.
    + change (le_value [b0; b1]) with (b0 + 2 ^ 8 * (b1 + 2 ^ 8 * 0)). cbn [bi_buf fval foldr fst snd]. simpl bi_buf. lia.
    + cbn [fbits foldr snd]. change (zlen [b0; b1]) with 2. simpl bi_valid. unfold padding. Z.div_mod_to_equations. lia.
  - destruct (put_byte_ok s (bi_buf s)) as (O & B & Zl & T); [lia|done|].
    eapply (emits_append _ _ [u8 (bi_buf s)]); [done|by eexists _, _, _, _|exact O|done|exact B|exact Zl| |exact T|..].
    + simpl. lia.
    + simpl. lia.
    + by apply ubits_0.
    + by apply Forall_singleton.
    + rewrite (wrap_small 8) by (apply (ubits_mono (bi_valid s)); [lia|done]).
      cbn [le_value foldr fval fst snd]. simpl bi_buf. lia.
    + cbn [fbits foldr snd]. change (zlen [u8 (bi_buf s)]) with 1. simpl bi_valid. unfold padding. Z.div_mod_to_equations. lia.
  - assert (bi_valid s = 0) as E by lia. rewrite E in Hbuf. assert (bi_buf s = 0) as E' by (unfold ubits in Hbuf; lia).
    eapply (emits_append _ _ []); [done|by eexists _, _, _, _|by rewrite app_nil_r|change (zlen []) with 0; simpl; lia|done|done| |done|..].
    + simpl. lia.
    + simpl. lia.
    + by apply ubits_0.
    + by apply Forall_singleton.
    + rewrite E'. cbn [le_value foldr fval fst snd]. simpl bi_buf. lia.
    + unfold padding. rewrite E. done.
Qed.

(** On a byte boundary, whole bytes are copied. *)
Definition byte_fields (l : list Z) : list field := map (λ b, (b, 8)) l.

Lemma byte_fields_ok l : bytes l → Forall field_ok (byte_fields l).
Proof. induction 1; simpl; constructor; [split; simpl; [lia|done]|done]. Qed.

Lemma fval_bytes l : fval (byte_fields l) = le_value l.
Proof.
  induction l as [|b l IH]; [done|]. cbn [byte_fields map fval foldr fst snd le_value].
  fold (byte_fields l) (fval (byte_fields l)) (le_value l). by rewrite IH.
Qed.

Lemma fbits_bytes l : fbits (byte_fields l) = 8 * zlen l.
Proof.
  induction l as [|b l IH]; [done|]. cbn [byte_fields map fbits foldr snd]. rewrite zlen_cons.
  fold (byte_fields l) (fbits (byte_fields l)). lia.
Qed.

Lemma emits_bytes s s' l : writer_ok s → bi_valid s = 0 → bytes l → 
  (∃ buf p, s' = with_out s buf p (bi_buf s) 0) →
  output_bytes s' = output_bytes s ++ l → pending s' = pending s + zlen l →
  bytes (pending_buf s') → zlen (pending_buf s') = zlen (pending_buf s) → pending s' ≤ zlen (pending_buf s) →
  (∀ i, pending s' ≤ i → (pending_buf s').[i] = (pending_buf s).[i]) → emits s s' (byte_fields l).
Proof.
  intros Hs E Hl (buf & p & Es) O P B Zl Pl T. pose proof Hs as [_ _ _ Hbuf]. rewrite E in Hbuf.
  assert (bi_buf s = 0) as E0 by (unfold ubits in Hbuf; lia).
  eapply (emits_append _ _ l); try done.
  - eexists _, _, _, _. exact Es.
  - by rewrite Es.
  - by rewrite Es.
  - by apply byte_fields_ok.
  - rewrite Es. simpl bi_buf. rewrite E, E0, fval_bytes. lia.
  - rewrite Es, fbits_bytes, E. simpl. lia.
Qed.

Lemma put_short_emits s w : writer_ok s → bi_valid s = 0 → ubits 16 w → 16 ≤ room s →
  emits s (put_short s w) [(w, 16)].
Proof.
  intros Hs E Hw Hroom. pose proof Hs as [Hp Hb _ Hbuf]. unfold room in Hroom. rewrite E in Hbuf.
  destruct (put_short_ok s w) as ((buf & E') & (b0 & b1 & O & Hb0 & Hb1 & Ev) & B & Zl & T); [lia..|done|done|].
  assert (pending (put_short s w) = pending s + 2) as Ep by (by rewrite E').
  assert (bi_buf s = 0) as E0 by (unfold ubits in Hbuf; lia).
  set (u := put_short s w) in *. clearbody u.
  eapply (emits_append _ _ [b0; b1]); [done| |exact O|exact Ep|exact B|exact Zl|lia|exact T|..].
  - rewrite E'. exists buf, (pending s + 2), (bi_buf s), (bi_valid s). by destruct s.
  - rewrite E'. simpl. lia.
  - rewrite E'. simpl. rewrite E. done.
  - apply Forall_singleton. split; [simpl; lia|done].
  - rewrite E'. simpl bi_buf. rewrite E0, E. cbn [le_value foldr fval fst snd]. lia.
  - rewrite E', E. simpl. rewrite E. done.
Qed.

End BitWriter.
