(* ===== verification/HuffCodes.v ===== *)
(** * zlib/trees.c: the codes of a tree

    gen_codes gives every symbol its canonical code, high bit first, and the
    reference decoder of RFC 1951 reads the symbol back from it. *)

From S2P Require Import Prelude Inftrees InftreesDecode Rfc1951 Inffixed Symbols TreesTables Trees BitWriter.

Module HuffCodes.
Import Inftrees InftreesDecode Symbols Trees BitWriter.

(** ** Reversing the bits *)

Definition rev_body : Z * Z * Z → Z * Z * Z := λ '(res, code, len),
  (u32 ((res .| (code .& 1)) ≪ 1), code ≫ 1, len - 1).

Lemma rev_body_step acc x len : 0 ≤ acc → acc < 2 ^ 20 →
  rev_body (2 * acc, x, len) = (2 * (if Z.odd x then Z.succ_double acc else Z.double acc), Z.div2 x, len - 1).
Proof.
  intros Ha Hb. unfold rev_body. rewrite Z.div2_spec. f_equal. f_equal.
  change 1 with (Z.ones 1) at 1. rewrite Z.land_ones by lia. change (2 ^ 1) with 2. rewrite Zmod_odd.
  assert (2 * acc .| (if Z.odd x then 1 else 0) = 2 * acc + (if Z.odd x then 1 else 0)) as ->.
  { rewrite Z.lor_comm. replace (2 * acc) with (acc ≪ 1) by (rewrite Z.shiftl_mul_pow2 by lia; lia).
    rewrite lor_shiftl_add by (unfold ubits; destruct (Z.odd x); lia). rewrite Z.shiftl_mul_pow2 by lia. lia. }
  rewrite Z.shiftl_mul_pow2 by lia. change (2 ^ 1) with 2. rewrite wrap_small.
  - destruct (Z.odd x); rewrite ?Z.succ_double_spec, ?Z.double_spec; lia.
  - unfold ubits. destruct (Z.odd x); lia.
Qed.

Lemma rev_loop n fuel acc x : (n ≤ fuel)%nat → 0 ≤ acc → acc < 2 ^ (20 - Z.of_nat n) → (n ≤ 20)%nat →
  (while fuel (λ '(_, _, len), 0 <? len) rev_body (2 * acc, x, Z.of_nat n)).1.1 = 2 * rev_acc n x acc.
Proof.
  revert fuel acc x. induction n as [|n IH]; intros fuel acc x Hf Ha Hb Hn.
  { by destruct fuel. }
  destruct fuel as [|fuel]; [lia|]. cbn [while]. destruct (Z.ltb_spec 0 (Z.of_nat (S n))); [|lia].
  assert (acc < 2 ^ 20).
  { eapply Z.lt_le_trans; [done|]. apply Z.pow_le_mono_r; lia. }
  rewrite rev_body_step by done. replace (Z.of_nat (S n) - 1) with (Z.of_nat n) by lia.
  assert (2 ^ (20 - Z.of_nat n) = 2 * 2 ^ (20 - Z.of_nat (S n))) as E.
  { rewrite <-Z.pow_succ_r by lia. f_equal. lia. }
  rewrite IH; [done|lia|..|lia]; destruct (Z.odd x); rewrite ?Z.succ_double_spec, ?Z.double_spec; lia.
Qed.

Lemma bi_reverse_spec x len : 1 ≤ len ≤ 15 → bi_reverse x len = rev_bits (Z.to_nat len) x.
Proof.
  intros Hl. change (bi_reverse x len) with (let '(res, _, _) :=
    while 32 (λ '(_, _, len), 0 <? len) rev_body (rev_body (0, x, len)) in res ≫ 1).
  destruct (while 32 _ rev_body _) as [[res ?] ?] eqn:E.
  assert (res = 2 * rev_acc (Z.to_nat len) x 0) as ->.
  { replace res with (res, z, z0).1.1 by done. rewrite <-E.
    destruct (Z.to_nat len) as [|n] eqn:En; [lia|]. replace len with (Z.of_nat (S n)) by lia.
    change (0, x, Z.of_nat (S n)) with (2 * 0, x, Z.of_nat (S n)).
    rewrite rev_body_step by lia. replace (Z.of_nat (S n) - 1) with (Z.of_nat n) by lia.
    rewrite rev_loop; [done|lia|by destruct (Z.odd x)| |lia].
    assert (2 ^ 5 ≤ 2 ^ (20 - Z.of_nat n)) by (apply Z.pow_le_mono_r; lia).
    destruct (Z.odd x); simpl; lia. }
  rewrite rev_acc_spec, Z.shiftr_div_pow2 by lia. change (2 ^ 1) with 2. rewrite Z.mul_comm. apply Z.div_mul. lia.
Qed.

(** The code left-justified in 15 bits has the same reversal. *)
Lemma rev_justify l c : 0 ≤ l ≤ 15 → ubits l c → rev (c * 2 ^ (15 - l)) = rev_bits (Z.to_nat l) c.
Proof.
  intros Hl Hc. apply Z.bits_inj'. intros i Hi. rewrite !rev_bits_testbit, <-Z.shiftl_mul_pow2 by lia.
  change (Z.of_nat 15) with 15. rewrite Z2Nat.id by lia. destruct (Z.ltb_spec i l), (Z.ltb_spec i 15); try lia; cbn [andb].
  - rewrite Z.shiftl_spec by lia. f_equal. lia.
  - apply Z.shiftl_spec_low. lia.
Qed.

(** ** Lengths of a tree *)

Definition tlens (t : list ct_data) (n : Z) : list Z := map (λ i, Len t.[i]) (seqZ 0 n).

Lemma tlens_at t n i : 0 ≤ i < n → (tlens t n).[i] = Len t.[i].
Proof. intros. unfold tlens. by rewrite aget_map_seqZ. Qed.

Lemma zlen_tlens t n : 0 ≤ n → zlen (tlens t n) = n.
Proof. apply zlen_map_seqZ. Qed.

(** The rank of a symbol among those of its length. *)
Lemma with_len_rank lens n y : 0 ≤ y < n → 
  (with_len lens n lens.[y]).[num lens y lens.[y]] = y ∧ num lens y lens.[y] < num lens n lens.[y].
Proof.
  intros Hy. replace n with (y + 1 + (n - y - 1)) by lia.
  apply (natlike_ind (λ d, (with_len lens (y + 1 + d) lens.[y]).[num lens y lens.[y]] = y ∧
    num lens y lens.[y] < num lens (y + 1 + d) lens.[y])); [| |lia].
  - rewrite Z.add_0_r, num_succ, with_len_succ by lia. rewrite !decide_True by done.
    split; [|lia]. unfold num. apply aget_snoc.
  - intros d Hd [IH1 IH2]. replace (y + 1 + Z.succ d) with (y + 1 + d + 1) by lia.
    rewrite num_succ, with_len_succ by lia. split; [|case_decide; lia].
    rewrite aget_app_l; [done|]. pose proof (num_nonneg lens y lens.[y]). unfold num in *. lia.
Qed.

(** ** Canonical codes *)

Section Canonical.
  Context (lens : list Z) (n : Z) (Hok : lengths_ok lens n) (Hk : kraft lens n ≤ 2 ^ 15).

Lemma kraft_upto_16 : kraft_upto lens n 16 = kraft lens n.
Proof. by unfold kraft. Qed.

Lemma kraft_upto_1 : kraft_upto lens n 1 = 0.
Proof. unfold kraft_upto. by rewrite for_empty by lia. Qed.

(** The code of the symbol [y], as a number. *)
Definition code_of (y : Z) : Z := first_code lens n lens.[y] + num lens y lens.[y].

Lemma first_code_le l : 1 ≤ l ≤ 15 → 0 ≤ first_code lens n l ∧ first_code lens n l + num lens n l ≤ 2 ^ l.
Proof.
  intros Hl. pose proof (first_code_spec lens n l Hl) as E.
  pose proof (kraft_upto_mono lens n (l + 1) 16) as Hm.
  pose proof (kraft_upto_mono lens n 1 l) as H1. rewrite kraft_upto_1 in H1.
  rewrite kraft_upto_succ in Hm by lia. rewrite kraft_upto_16 in Hm.
  assert (2 ^ 15 = 2 ^ (15 - l) * 2 ^ l) as E15 by (rewrite <-Z.pow_add_r by lia; f_equal; lia).
  assert (0 < 2 ^ (15 - l)) by lia. split; nia.
Qed.

Lemma code_of_ubits y : 0 ≤ y < n → lens.[y] ≠ 0 → ubits lens.[y] (code_of y).
Proof.
  intros Hy Hl. destruct Hok as (_ & _ & Hlen). pose proof (Hlen y Hy).
  destruct (first_code_le lens.[y]) as [H0 Hle]; [lia|].
  destruct (with_len_rank lens n y Hy) as [_ Hr]. pose proof (num_nonneg lens y lens.[y]).
  unfold ubits, code_of. lia.
Qed.

(** The reference decoder reads a symbol from the bits of its code. *)
Lemma symbol_code y s : 0 ≤ y < n → lens.[y] ≠ 0 → 0 ≤ Rfc1951.avail s →
  Rfc1951.symbol lens n (pre (rev_bits (Z.to_nat lens.[y]) (code_of y)) lens.[y] s) = Rfc1951.Ok y s.
Proof.
  intros Hy Hl Hs. pose proof Hok as (_ & _ & Hlen). pose proof (Hlen y Hy). set (l := lens.[y]) in *.
  assert (1 ≤ l ≤ 15) as Hl' by lia. pose proof (code_of_ubits y Hy Hl) as Hc. fold l in Hc.
  destruct (with_len_rank lens n y Hy) as [Ey Hr]. fold l in Ey, Hr. pose proof (num_nonneg lens y l) as Hr0.
  set (i := base lens n l + num lens y l).
  assert (0 ≤ i < base lens n 16) as Hi.
  { pose proof (base_mono lens n 1 l). rewrite base_1 in *. pose proof (base_mono lens n (l + 1) 16).
    rewrite base_succ in * by lia. unfold i. lia. }
  assert (start lens n i = code_of y * 2 ^ (15 - l)) as Ei.
  { rewrite (start_pos lens n l) by (rewrite ?base_succ; unfold i; lia). unfold code_of. fold l.
    rewrite (first_code_spec lens n l) by lia. unfold i. lia. }
  assert ((sorted lens n).[i] = y) as Es by (unfold i; rewrite sorted_at by lia; done).
  pose proof (start_succ lens n i ltac:(lia)) as Ei'. rewrite Es in Ei'. fold l in Ei'.
  assert (2 ^ 15 = 2 ^ l * 2 ^ (15 - l)) as E15 by (rewrite <-Z.pow_add_r by lia; f_equal; lia).
  set (w := pre (rev_bits (Z.to_nat l) (code_of y)) l s).
  assert (Rfc1951.avail w = l + Rfc1951.avail s) as Ea by done.
  assert (start lens n i ≤ rev (window w) < start lens n (i + 1)) as Hin.
  { rewrite Ei'. apply window_iff; [lia|apply Z.mod_pos_bound; lia|unfold ubits in Hc; rewrite Ei; nia|
      rewrite Ei; apply Z.divide_factor_r|].
    unfold window. rewrite mod_mod_pow2 by lia. unfold w, pre. cbn [Rfc1951.value].
    rewrite Z.mul_comm, Z.mod_add by lia. rewrite Ei, rev_justify by (done || lia).
    apply Z.mod_small. pose proof (rev_bits_ubits (Z.to_nat l) (code_of y)) as H'.
    rewrite Z2Nat.id in H' by lia. exact H'. }
  destruct (symbol_spec lens n Hok w) as [(j & Hj & Hjn & E)|[Hbad _]].
  - lia.
  - assert (j = i) as -> by (eapply (interval_unique lens n); done). cbv zeta in E. rewrite Es in E. fold l in E. rewrite E, Ea.
    destruct (Z.ltb_spec (l + Rfc1951.avail s) l); [lia|]. f_equal. unfold w, pre, Rfc1951.dropped.
    destruct s as [v a]. simpl. replace (l + a - l) with a by lia. f_equal. rewrite Z.mul_comm, Z.div_add by lia.
    rewrite Z.div_small; [done|]. pose proof (rev_bits_ubits (Z.to_nat l) (code_of y)) as H'.
    rewrite Z2Nat.id in H' by lia. exact H'.
  - exfalso. rewrite <-start_kraft in Hbad. pose proof (start_mono lens n (i + 1) (base lens n 16)). lia.
Qed.

End Canonical.

(** ** Trees with their codes

    The first [m] entries of the tree [t] hold the canonical codes of the
    lengths [lens] of [n] symbols. *)

Record encodes (t : list ct_data) (lens : list Z) (n m : Z) : Prop := {
  enc_ok : lengths_ok lens n;
  enc_kraft : kraft lens n ≤ 2 ^ 15;
  enc_le : m ≤ n;
  enc_len : ∀ y, 0 ≤ y < m → lens.[y] = Len t.[y];
  enc_code : ∀ y, 0 ≤ y < m → Len t.[y] ≠ 0 →
    Code t.[y] = rev_bits (Z.to_nat (Len t.[y])) (code_of lens n y);
}.

(** The field send_code sends. *)
Definition code_field (t : list ct_data) (y : Z) : field := (Code t.[y], Len t.[y]).

Section Encodes.
  Context (t : list ct_data) (lens : list Z) (n m : Z) (He : encodes t lens n m).

Lemma encodes_len y : 0 ≤ y < m → 0 ≤ Len t.[y] ≤ 15.
Proof.
  destruct He as [(_ & _ & Hl) _ Hm El _]. intros Hy. rewrite <-El by done. apply Hl. lia.
Qed.

Lemma code_field_ok y : 0 ≤ y < m → Len t.[y] ≠ 0 → field_ok (code_field t y).
Proof.
  intros Hy Hl. pose proof (encodes_len y Hy). split; simpl; [lia|]. rewrite (enc_code _ _ _ _ He) by done.
  pose proof (rev_bits_ubits (Z.to_nat (Len t.[y])) (code_of lens n y)) as H'.
  rewrite Z2Nat.id in H' by lia. exact H'.
Qed.

Lemma send_code_ok s y : writer_ok s → 0 ≤ y < m → Len t.[y] ≠ 0 → Len t.[y] ≤ room s →
  emits s (send_code s y t) [code_field t y].
Proof. intros. apply send_bits_ok; [done|by apply code_field_ok|done]. Qed.

Lemma symbol_feed y s : 0 ≤ y < m → Len t.[y] ≠ 0 → 0 ≤ Rfc1951.avail s →
  Rfc1951.symbol lens n (feed [code_field t y] s) = Rfc1951.Ok y s.
Proof.
  intros Hy Hl Hs. destruct He as [Hok Hk Hm El Ec]. cbn [feed foldr fst snd code_field].
  rewrite Ec by done. rewrite <-(El y) in * by done. apply symbol_code; [done|done|lia|done|done].
Qed.

End Encodes.

(** ** gen_codes *)

Section GenCodes.
  Context (t : list ct_data) (max_code : Z) (bl : list Z).
  Abbreviation n := (max_code + 1).
  Abbreviation lens := (tlens t n).
  Hypotheses (Hn : 0 ≤ n ≤ zlen t) (Hok : lengths_ok lens n) (Hk : kraft lens n ≤ 2 ^ 15)
    (Hbl0 : bl.[0] = 0) (Hbl : ∀ l, 1 ≤ l ≤ 15 → bl.[l] = num lens n l).

Lemma first_code_16 l : 1 ≤ l ≤ 15 → ubits 16 (first_code lens n l) ∧ ubits 16 (first_code lens n l + num lens n l).
Proof.
  intros Hl. destruct (first_code_le lens n Hk l Hl). pose proof (num_nonneg lens n l).
  pose proof (Z.pow_le_mono_r 2 l 15). unfold ubits. lia.
Qed.

Lemma next_codes_spec : zlen (next_codes bl) = 16 ∧ ∀ l, 1 ≤ l ≤ 15 → (next_codes bl).[l] = first_code lens n l.
Proof.
  unfold next_codes. change (MAX_BITS + 1) with 16.
  unshelve epose proof (for_rule (λ i '(code, nc), zlen nc = 16 ∧ (1 < i → code = first_code lens n (i - 1)) ∧ (i = 1 → code = 0) ∧
    ∀ l, 1 ≤ l < i → nc.[l] = first_code lens n l) 1 16 (next_code_step bl) (0, replicate 16 0) _ _ _) as H; [lia|..].
  - split_and!; [done|lia|done|lia].
  - intros i [code nc] Hi (Hz & Hc & Hc1 & Hnc). unfold next_code_step.
    assert (u32 ((code + bl.[i - 1]) ≪ 1) = first_code lens n i) as ->.
    { destruct (first_code_16 i ltac:(lia)) as [H16 _]. rewrite Z.shiftl_mul_pow2 by lia. change (2 ^ 1) with 2.
      assert ((code + bl.[i - 1]) * 2 = first_code lens n i) as ->.
      { destruct (decide (i = 1)) as [->|Hne].
        - rewrite Hc1 by done. change (1 - 1) with 0. rewrite Hbl0. unfold first_code. by rewrite kraft_upto_1.
        - pose proof (first_code_succ lens n (i - 1) ltac:(lia)) as E. replace (i - 1 + 1) with i in E by lia.
          rewrite Hc, Hbl by lia. lia. }
      apply wrap_small. unfold ubits in *. lia. }
    rewrite (wrap_small 16) by (apply first_code_16; lia). split_and!; [by rewrite zlen_aset| |lia|].
    + intros _. f_equal. lia.
    + intros l Hl. destruct (decide (l = i)) as [->|Hne].
      * by rewrite aget_aset_eq by lia.
      * rewrite aget_aset_ne by lia. apply Hnc. lia.
  - destruct (for_ 1 16 (next_code_step bl) (0, replicate 16 0)) as [code nc]. simpl. destruct H as (Hz & _ & _ & H). split; [done|].
    intros l Hl. apply H. lia.
Qed.

Lemma gen_codes_spec : let t' := gen_codes t max_code bl in
  zlen t' = zlen t ∧ (∀ i, 0 ≤ i → Len t'.[i] = Len t.[i]) ∧ encodes t' lens n n.
Proof.
  unfold gen_codes. destruct next_codes_spec as [Hz0 Hnc0].
  unshelve epose proof (for_rule (λ i '(t', nc), zlen t' = zlen t ∧ zlen nc = 16 ∧ (∀ j, 0 ≤ j → Len t'.[j] = Len t.[j]) ∧
    (∀ l, 1 ≤ l ≤ 15 → nc.[l] = first_code lens n l + num lens i l) ∧
    ∀ y, 0 ≤ y < i → Len t.[y] ≠ 0 → Code t'.[y] = rev_bits (Z.to_nat (Len t.[y])) (code_of lens n y))
    0 n gen_code_step (t, next_codes bl) _ _ _) as H; [lia|..].
  - split_and!; [done..| |lia]. intros l Hl. rewrite Hnc0 by done.
    change (num lens 0 l) with 0. lia.
  - intros i [t' nc] Hi (Ht & Hz & Hlen & Hnc & Hcode). unfold gen_code_step. rewrite Hlen by lia.
    destruct Hok as (_ & _ & Hl). specialize (Hl i ltac:(lia)). rewrite tlens_at in Hl by lia.
    assert (∀ l, num lens (i + 1) l = num lens i l + (if decide (Len t.[i] = l) then 1 else 0)) as Hns.
    { intros l. rewrite num_succ, tlens_at by lia. done. }
    destruct (Z.eqb_spec (Len t.[i]) 0) as [E|E].
    + split_and!; try done.
      * intros l Hl'. rewrite Hnc, Hns by done. rewrite decide_False by lia. lia.
      * intros y Hy Hy0. apply Hcode; [|done]. destruct (decide (y = i)) as [->|Hne]; [done|lia].
    + set (l := Len t.[i]) in *. pose proof (code_of_ubits lens n Hok Hk i) as Hc. rewrite tlens_at in Hc by lia.
      specialize (Hc ltac:(lia) E). fold l in Hc.
      assert (nc.[l] = code_of lens n i) as Enc.
      { rewrite Hnc by lia. unfold code_of. rewrite tlens_at by lia. done. }
      pose proof (Z.pow_le_mono_r 2 l 15) as Hp15.
      rewrite bi_reverse_spec, Enc by lia.
      assert (ubits 15 (rev_bits (Z.to_nat l) (code_of lens n i))) as Hr.
      { apply (ubits_mono (Z.of_nat (Z.to_nat l))); [lia|apply rev_bits_ubits]. }
      rewrite !(wrap_small 16) by (unfold ubits in *; lia).
      split_and!; [by rewrite zlen_aset..| | |].
      * intros j Hj. destruct (decide (j = i)) as [->|Hne]; [by rewrite aget_aset_eq by lia|].
        rewrite aget_aset_ne by lia. by apply Hlen.
      * intros l' Hl'. rewrite Hns. destruct (decide (l' = l)) as [->|Hne].
        -- rewrite aget_aset_eq by lia. rewrite decide_True by done. rewrite <-Enc, Hnc by lia. lia.
        -- rewrite aget_aset_ne by lia. rewrite Hnc, decide_False by (done || congruence). lia.
      * intros y Hy Hy0. destruct (decide (y = i)) as [->|Hne].
        -- by rewrite aget_aset_eq by lia.
        -- rewrite aget_aset_ne by lia. apply Hcode; [lia|done].
  - destruct (for_ 0 n gen_code_step (t, next_codes bl)) as [t' nc]. simpl. destruct H as (Ht & _ & Hlen & _ & Hcode).
    split_and!; [done..|]. constructor; [done|done|lia| |].
    + intros y Hy. rewrite tlens_at, Hlen by lia. done.
    + intros y Hy Hy0. rewrite Hlen in Hy0 |- * by lia. by apply Hcode.
Qed.

End GenCodes.

(** ** The static trees *)

Definition check_code (t : list ct_data) (lens : list Z) (n y : Z) : bool :=
  (lens.[y] =? Len t.[y]) && (Code t.[y] =? rev_bits (Z.to_nat (Len t.[y])) (code_of lens n y)).

Lemma check_encodes t lens n m : lengths_ok lens n → kraft lens n ≤ 2 ^ 15 → 0 ≤ m ≤ n →
  forall_range (check_code t lens n) 0 (Z.to_nat m) = true → encodes t lens n m.
Proof.
  intros Hok Hk Hm H. constructor; [done|done|lia| |]; intros y Hy;
    pose proof (forall_range_spec _ _ _ y H ltac:(lia)) as Hc; unfold check_code in Hc;
    apply andb_true_iff in Hc as [H1%Z.eqb_eq H2%Z.eqb_eq]; auto.
Qed.

(** The lengths of the fixed code, and how many codes each length has. *)
Definition fixed_tree : list ct_data := map (Ct 0) Rfc1951.fixed_ll.
Definition fixed_counts : list Z := [0; 0; 0; 0; 0; 0; 0; 24; 152; 112; 0; 0; 0; 0; 0; 0].

Lemma static_ltree_encodes : encodes static_ltree Rfc1951.fixed_ll 288 286.
Proof.
  pose proof (args_lens _ _ _ _ _ _ _ fixed_len_args) as Hok. assert (tlens fixed_tree 288 = Rfc1951.fixed_ll) as E by (vm_compute; reflexivity).
  assert (forall_range (λ l, fixed_counts.[l] =? num Rfc1951.fixed_ll 288 l) 1 15 = true) as Hc by (vm_compute; reflexivity).
  pose proof (gen_codes_spec fixed_tree 287 fixed_counts) as H. change (287 + 1) with 288 in H. rewrite E in H.
  assert (gen_codes fixed_tree 287 fixed_counts = static_ltree) as Eg by (vm_compute; reflexivity).
  cbv zeta in H. rewrite Eg in H. destruct H as (_ & _ & [H1 H2 H3 H4 H5]).
  - split; [lia|]. vm_compute. congruence.
  - exact Hok.
  - vm_compute. congruence.
  - done.
  - intros l Hl. pose proof (forall_range_spec _ _ _ l Hc ltac:(lia)) as Hl'. cbv beta in Hl'. lia.
  - constructor; [done|done|lia| |]; intros y Hy; [apply H4|apply H5]; lia.
Qed.

Lemma static_dtree_encodes : encodes static_dtree Rfc1951.fixed_ld 32 30.
Proof.
  apply check_encodes; [apply fixed_dist_args|vm_compute; congruence|lia|vm_compute; reflexivity].
Qed.

End HuffCodes.
