(* ===== verification/HuffTree.v ===== *)
(** * zlib/trees.c: the shape of the tree build_tree makes

    The heap keeps its elements whatever the frequencies are; combining the two
    smallest until one is left makes every leaf and every inner node but the
    root the son of an inner node that follows it in the order of gen_bitlen,
    and every inner node the father of two. *)

From S2P Require Import Prelude Slices TreesTables Trees.

Module HuffTree.
Import Trees.

(** ** The heap *)

Definition active (w : workspace) : list Z := slice (heap w) 1 (heap_len w).
Definition sorted_nodes (w : workspace) : list Z := slice (heap w) (heap_max w) (HEAP_SIZE - heap_max w).

(** [w'] is [w] with its heap reordered. *)
Record reordered (w w' : workspace) : Prop := {
  ro_with : ∃ h, w' = w <| heap := h |>;
  ro_size : zlen (heap w') = zlen (heap w);
  ro_active : active w' ≡ₚ active w;
  ro_rest : ∀ i, 0 ≤ i → ¬ 1 ≤ i ≤ heap_len w → (heap w').[i] = (heap w).[i];
}.

Lemma reordered_refl w : reordered w w.
Proof. constructor; try done. exists (heap w). by destruct w. Qed.

Lemma reordered_trans w1 w2 w3 : reordered w1 w2 → reordered w2 w3 → reordered w1 w3.
Proof.
  intros [[h1 ->] Z1 A1 R1] [[h2 ->] Z2 A2 R2]. constructor.
  - by exists h2.
  - by rewrite Z2.
  - by rewrite A2.
  - intros i Hi Hn. rewrite R2 by done. by apply R1.
Qed.

Lemma down_loop_spec fuel t w v k j : 0 ≤ heap_len w < zlen (heap w) → 1 ≤ k ≤ heap_len w → k < j →
  (heap w).[k <- v] = heap (w <| heap := (heap w).[k <- v] |>) →
  reordered (w <| heap := (heap w).[k <- v] |>) (down_loop fuel t w v k j).
Proof.
  revert w k j. induction fuel as [|fuel IH]; intros w k j Hl Hk Hj _; cbn [down_loop]; [apply reordered_refl|].
  destruct (Z.leb_spec j (heap_len w)) as [Hjl|]; [|apply reordered_refl].
  set (c := (j <? heap_len w) && _). set (j' := if c then j + 1 else j).
  assert (j ≤ j' ≤ heap_len w) as Hj'.
  { unfold j'. destruct c eqn:E; [|lia]. apply andb_true_iff in E as [E _]. lia. }
  destruct (smaller t v _ _); [apply reordered_refl|].
  set (h := heap w) in *. set (w1 := w <| heap := h.[k <- h.[j']] |>).
  eapply reordered_trans; [|apply (IH w1 j' (j' ≪ 1)); unfold w1; simpl;
    [by rewrite zlen_aset|lia|rewrite Z.shiftl_mul_pow2 by lia; lia|done]].
  assert (h.[k <- h.[j']].[j' <- v] = (h.[k <- v]).[k <- (h.[k <- v]).[j']].[j' <- (h.[k <- v]).[k]]) as E.
  { rewrite (aget_aset_ne _ k j') by lia. rewrite aget_aset_eq by lia. f_equal.
    unfold aset. by rewrite list_insert_insert_eq. }
  constructor; simpl.
  - eexists. reflexivity.
  - by rewrite !zlen_aset.
  - unfold active. simpl. rewrite E. apply slice_perm; rewrite ?zlen_aset; try lia.
    + apply exchange_perm; rewrite ?zlen_aset; lia.
    + intros i Hi Hn. rewrite !(aget_aset_ne _ _ i) by lia. done.
  - intros i Hi Hn. rewrite E, !(aget_aset_ne _ _ i) by lia. done.
Qed.

Lemma pqdownheap_spec t w k : 0 ≤ heap_len w < zlen (heap w) → 1 ≤ k ≤ heap_len w →
  reordered w (pqdownheap t w k).
Proof.
  intros Hl Hk. unfold pqdownheap.
  assert (w = w <| heap := (heap w).[k <- (heap w).[k]] |>) as E.
  { destruct w as [bl h hl hm d o s]. cbn [set_field heap heap_len] in *. simpl. f_equal. unfold aset, aget, zlen in *.
    rewrite list_insert_id; [done|]. apply list_lookup_lookup_total_lt. simpl in *. lia. }
  rewrite E at 1. apply down_loop_spec; [done|done|rewrite Z.shiftl_mul_pow2 by lia; lia|done].
Qed.

(** Enough rounds for any heap: more fuel changes nothing. *)
Lemma down_loop_fuel fuel fuel' t w v k j : 1 ≤ j → heap_len w - j < Z.of_nat fuel → heap_len w - j < Z.of_nat fuel' →
  down_loop fuel t w v k j = down_loop fuel' t w v k j.
Proof.
  revert fuel' w k j. induction fuel as [|fuel IH]; intros fuel' w k j Hj Hf Hf'.
  - destruct fuel' as [|fuel']; [done|]. cbn [down_loop]. by destruct (Z.leb_spec j (heap_len w)); [lia|].
  - destruct fuel' as [|fuel']; cbn [down_loop].
    { by destruct (Z.leb_spec j (heap_len w)); [lia|]. }
    destruct (Z.leb_spec j (heap_len w)) as [Hjl|]; [|done].
    set (j' := if _ && _ then j + 1 else j). assert (j ≤ j') by (unfold j'; case_match; lia).
    destruct (smaller t v _ _); [done|]. rewrite Z.shiftl_mul_pow2 by lia. apply IH; simpl; lia.
Qed.

(** ** Entries of a tree *)

Lemma dad_set_len t n v x : 0 ≤ n < zlen t → 0 ≤ x → 0 ≤ v < 2 ^ 16 →
  Dad (set_len t n v).[x] = if decide (x = n) then v else Dad t.[x].
Proof.
  intros Hn Hx Hv. unfold set_len. case_decide as E.
  - subst. rewrite aget_aset_eq by done. by apply wrap_small.
  - by rewrite aget_aset_ne by lia.
Qed.

Lemma freq_set_len t n v x : 0 ≤ n → 0 ≤ x → Freq (set_len t n v).[x] = Freq t.[x].
Proof.
  intros Hn Hx. unfold set_len. destruct (decide (x = n)) as [->|]; [|by rewrite aget_aset_ne by lia].
  destruct (decide (n < zlen t)); [by rewrite aget_aset_eq by lia|].
  f_equal. unfold aget, aset, zlen in *. rewrite list_insert_ge by lia. done.
Qed.

Lemma dad_set_freq t n v x : 0 ≤ n → 0 ≤ x → Dad (set_freq t n v).[x] = Dad t.[x].
Proof.
  intros Hn Hx. unfold set_freq. destruct (decide (x = n)) as [->|]; [|by rewrite aget_aset_ne by lia].
  destruct (decide (n < zlen t)); [by rewrite aget_aset_eq by lia|].
  f_equal. unfold aget, aset, zlen in *. rewrite list_insert_ge by lia. done.
Qed.

Lemma freq_set_freq_ne t n v x : 0 ≤ n → 0 ≤ x → x ≠ n → Freq (set_freq t n v).[x] = Freq t.[x].
Proof. intros. unfold set_freq. by rewrite aget_aset_ne by lia. Qed.

Lemma zlen_set_len t n v : zlen (set_len t n v) = zlen t.
Proof. apply zlen_aset. Qed.

Lemma zlen_set_freq t n v : zlen (set_freq t n v) = zlen t.
Proof. apply zlen_aset. Qed.

(** pqremove takes the first element. *)
Lemma pqremove_spec t w : 2 ≤ heap_len w < zlen (heap w) →
  let '(n, w') := pqremove t w in
  n :: active w' ≡ₚ active w ∧ (∃ h, w' = w <| heap := h |> <| heap_len := heap_len w - 1 |>) ∧
  zlen (heap w') = zlen (heap w) ∧ ∀ i, heap_len w < i → (heap w').[i] = (heap w).[i].
Proof.
  intros Hl. unfold pqremove, SMALLEST.
  set (wa := w <| heap := (heap w).[1 <- (heap w).[heap_len w]] |> <| heap_len := heap_len w - 1 |>).
  destruct (pqdownheap_spec t wa 1) as [[h Eh] Z1 A1 R1]; [unfold wa; simpl; rewrite ?zlen_aset; lia..|].
  split_and!.
  - rewrite A1. unfold active, wa. simpl.
    replace (heap_len w) with (1 + ((heap_len w - 2) + 1)) at 3 by lia.
    rewrite (slice_app _ _ 1), (slice_last _ _ (heap_len w - 2)) by lia.
    rewrite (slice_first _ 1 (heap_len w - 1)), aget_aset_eq, slice_aset by lia.
    replace (heap_len w - 1 - 1) with (heap_len w - 2) by lia.
    replace (1 + 1 + (heap_len w - 2)) with (heap_len w) by lia.
    change (slice (heap w) 1 1) with [(heap w).[1]]. apply perm_skip, Permutation_cons_append.
  - exists h. rewrite Eh. done.
  - rewrite Z1. unfold wa. simpl. apply zlen_aset.
  - intros i Hi. rewrite R1 by (unfold wa; simpl; lia). unfold wa. simpl. apply aget_aset_ne; lia.
Qed.

(** ** Combining *)

(** Every element is the son of one in [A] or of an earlier one. *)
Fixpoint rooted (dad : Z → Z) (A l : list Z) : Prop :=
  match l with
  | [] => True
  | x :: l => dad x ∈ A ∧ rooted dad (x :: A) l
  end.

Lemma rooted_mono dad dad' A A' l : A ⊆ A' → (∀ x, x ∈ l → dad' x = dad x) → rooted dad A l → rooted dad' A' l.
Proof.
  revert A A'. induction l as [|x l IH]; intros A A' HA Hd H; [done|]. destruct H as [H1 H2]. split.
  - rewrite Hd by (by left). by apply HA.
  - eapply IH; [|by intros; apply Hd; right|done]. intros y Hy. apply elem_of_cons in Hy as [->|Hy]; [by left|].
    right. by apply HA.
Qed.

(** The forest after [node - elems] nodes were made from [leaves]. *)
Record forest (elems : Z) (leaves : list Z) (t0 t : list ct_data) (w : workspace) (node : Z) : Prop := {
  fo_heap : zlen (heap w) = HEAP_SIZE;
  fo_tree : zlen t = zlen t0;
  fo_len : 1 ≤ heap_len w;
  fo_node : elems ≤ node;
  fo_max : heap_max w = HEAP_SIZE - 2 * (node - elems);
  fo_count : heap_len w + (node - elems) = zlen leaves;
  fo_nodes : active w ++ sorted_nodes w ≡ₚ leaves ++ seqZ elems (node - elems);
  fo_dads : map (λ x, Dad t.[x]) (sorted_nodes w) ≡ₚ seqZ elems (node - elems) ++ seqZ elems (node - elems);
  fo_rooted : rooted (λ x, Dad t.[x]) (active w) (sorted_nodes w);
  fo_last : elems < node → node - 1 ∈ active w;
  fo_freq : ∀ i, 0 ≤ i < elems → Freq t.[i] = Freq t0.[i];
  fo_rest : ∀ i, 0 ≤ i < elems → i ∉ leaves → Len t.[i] = Len t0.[i];
}.

Section Combine.
  Context (elems : Z) (leaves : list Z) (t0 : list ct_data).
  Hypotheses (Hleaves : ∀ x, x ∈ leaves → 0 ≤ x < elems) (Hnd : NoDup leaves)
    (Helems : 2 ≤ elems ≤ L_CODES) (Ht0 : 2 * elems ≤ zlen t0).

Lemma zlen_leaves : zlen leaves ≤ elems.
Proof.
  assert (leaves ⊆+ seqZ 0 elems) as Hs.
  { apply NoDup_submseteq; [done|]. intros x Hx. apply elem_of_seqZ. specialize (Hleaves x Hx). lia. }
  apply submseteq_length in Hs. rewrite length_seqZ in Hs. unfold zlen. lia.
Qed.

(** The two smallest leave the heap, and the node made of them enters it. *)
Lemma combine_step_spec t w node : forest elems leaves t0 t w node → 2 ≤ heap_len w →
  let '(t', w', node') := combine_step (t, w, node) in
  node' = node + 1 ∧ heap_len w' = heap_len w - 1 ∧ forest elems leaves t0 t' w' node'.
Proof.
  intros F H2. destruct F as [Fh Ft Fl Fn Fm Fc Fp Fd Fr Fa Ff Fz]. pose proof zlen_leaves as Hll.
  unfold L_CODES, LITERALS, LENGTH_CODES in Helems. assert (HEAP_SIZE = 573) as Ehs by done.
  unfold combine_step. pose proof (pqremove_spec t w ltac:(lia)) as HR.
  destruct (pqremove t w) as [n wb]. destruct HR as (A1 & [h Eb] & Z1 & R1).
  assert (heap_len wb = heap_len w - 1) as Elb by (by rewrite Eb).
  assert (heap_max wb = heap_max w) as Emb by (by rewrite Eb). clear Eb.
  unfold SMALLEST. set (m := (heap wb).[1]). set (rest := slice (heap wb) 2 (heap_len w - 2)).
  assert (active wb = m :: rest) as Eab.
  { unfold active. rewrite Elb, slice_first by lia. unfold rest. f_equal. f_equal; lia. }
  rewrite Eab in A1.
  (* the nodes *)
  assert (∀ x, x ∈ n :: m :: rest ++ sorted_nodes w → 0 ≤ x < node) as Hrange.
  { intros x Hx. assert (x ∈ leaves ++ seqZ elems (node - elems)) as Hx'.
    { rewrite <-Fp, <-A1. exact Hx. }
    apply elem_of_app in Hx' as [Hx'|Hx'%elem_of_seqZ]; [apply Hleaves in Hx'; lia|lia]. }
  assert (NoDup (n :: m :: rest ++ sorted_nodes w)) as Hnodup.
  { change (NoDup ((n :: m :: rest) ++ sorted_nodes w)). rewrite A1, Fp.
    apply NoDup_app. split_and!; [done| |apply NoDup_seqZ].
    intros x Hx Hx'%elem_of_seqZ. apply Hleaves in Hx. lia. }
  apply NoDup_cons in Hnodup as [Hn Hnodup]. apply NoDup_cons in Hnodup as [Hm _].
  pose proof (Hrange n ltac:(by left)) as Hnr. pose proof (Hrange m ltac:(right; by left)) as Hmr.
  assert (n ≠ m) as Hnm by (intros ->; apply Hn; by left).
  (* the tree *)
  set (t' := set_len (set_len (set_freq t node _) m node) n node).
  assert (zlen t' = zlen t) as Et' by (unfold t'; by rewrite !zlen_set_len, zlen_set_freq).
  assert (∀ x, 0 ≤ x → Dad t'.[x] = if decide (x = n ∨ x = m) then node else Dad t.[x]) as Hdad.
  { intros x Hx. unfold t'. rewrite !dad_set_len, dad_set_freq by (rewrite ?zlen_set_len, ?zlen_set_freq; lia).
    repeat case_decide; (done || tauto). }
  (* the workspace *)
  match goal with |- context [pqdownheap ?tt ?ww 1] => set (wd := ww); set (tt' := tt) end.
  assert (heap_len wd = heap_len w - 1) as Eld by (by rewrite <-Elb).
  assert (heap_max wd = heap_max w - 2) as Emd by (by rewrite <-Emb).
  assert (heap wd = (heap wb).[heap_max w - 1 <- n].[heap_max w - 2 <- m].[1 <- node]) as Ehd by (by rewrite <-Emb).
  clearbody wd. destruct (pqdownheap_spec tt' wd 1) as [[h' E'] Z' A' R']; [rewrite Ehd, !zlen_aset; lia|lia|].
  set (we := pqdownheap tt' wd 1) in *. clearbody we.
  assert (heap_len we = heap_len w - 1) as Ele by (by rewrite E', <-Eld).
  assert (heap_max we = heap_max w - 2) as Eme by (by rewrite E', <-Emd). clear E'.
  assert (active we ≡ₚ node :: rest) as Eae.
  { rewrite A'. unfold active. rewrite Eld, slice_first, Ehd, aget_aset_eq by (rewrite ?zlen_aset; lia).
    rewrite !slice_aset by lia. unfold rest. by replace (heap_len w - 1 - 1) with (heap_len w - 2) by lia. }
  assert (sorted_nodes we = m :: n :: sorted_nodes w) as Ese.
  { unfold sorted_nodes. rewrite Eme, (slice_first _ (heap_max w - 2)), (slice_first _ (heap_max w - 2 + 1)) by lia.
    rewrite !R', Ehd by lia. rewrite !(aget_aset_ne _ 1) by lia.
    rewrite aget_aset_eq by (rewrite ?zlen_aset; lia). rewrite (aget_aset_ne _ _ (heap_max w - 2 + 1)) by lia.
    replace (heap_max w - 2 + 1) with (heap_max w - 1) by lia. rewrite aget_aset_eq by lia. do 2 f_equal.
    replace (heap_max w - 1 + 1) with (heap_max w) by lia.
    replace (HEAP_SIZE - (heap_max w - 2) - 1 - 1) with (HEAP_SIZE - heap_max w) by lia.
    apply slice_ext. intros i Hi. rewrite R', Ehd, !aget_aset_ne, R1 by lia. done. }
  assert (∀ x, x ∈ sorted_nodes w → Dad t'.[x] = Dad t.[x]) as Hsame.
  { intros x Hx. pose proof (Hrange x ltac:(do 2 right; apply elem_of_app; by right)). rewrite Hdad by lia.
    apply decide_False. intros [->| ->]; [apply Hn; right|apply Hm]; apply elem_of_app; by right. }
  assert (seqZ elems (node + 1 - elems) ≡ₚ node :: seqZ elems (node - elems)) as Eseq.
  { replace (node + 1 - elems) with (node - elems + 1) by lia. rewrite seqZ_app by lia.
    replace (elems + (node - elems)) with node by lia. change (seqZ node 1) with [node].
    by rewrite Permutation_app_comm. }
  split_and!; [done|done|]. constructor; try lia.
  - rewrite Z', Ehd, !zlen_aset. lia.
  - by etransitivity; [exact Et'|].
  - rewrite Eae, Ese, Eseq. rewrite <-!Permutation_middle, <-Fp, <-A1. simpl.
    etransitivity; [apply Permutation_swap|]. symmetry. apply (Permutation_middle [n; m]).
  - rewrite Ese. simpl. rewrite !Hdad, !decide_True by (auto || lia).
    rewrite (map_ext_in _ (λ x, Dad t.[x])) by (intros x Hx%list_elem_of_In; by apply Hsame).
    rewrite Fd, Eseq. simpl. by rewrite <-Permutation_middle.
  - rewrite Ese. simpl. rewrite !Hdad, !decide_True by (auto || lia).
    split; [rewrite Eae; by left|]. split; [right; rewrite Eae; by left|].
    eapply rooted_mono; [|exact Hsame|exact Fr].
    intros x Hx. rewrite <-A1 in Hx. rewrite Eae. apply elem_of_cons in Hx as [->|Hx]; [by left|].
    apply elem_of_cons in Hx as [->|Hx]; [right; by left|]. do 2 right. by right.
  - intros _. rewrite Eae. replace (node + 1 - 1) with node by lia. by left.
  - intros i Hi. change (Freq t'.[i] = Freq t0.[i]). unfold t'. rewrite !freq_set_len, freq_set_freq_ne by lia. by apply Ff.
  - intros i Hi Hil. change (Dad t'.[i] = Dad t0.[i]).
    assert (∀ x, x ∈ n :: m :: rest → x ≠ i) as Hne.
    { intros x Hx ->. assert (i ∈ leaves ++ seqZ elems (node - elems)) as Hx'
        by (rewrite <-Fp, <-A1; apply elem_of_app; by left).
      apply elem_of_app in Hx' as [?|Hx'%elem_of_seqZ]; [done|lia]. }
    rewrite Hdad, decide_False; [by apply Fz|..|lia].
    intros [->| ->]; [apply (Hne n)|apply (Hne m)]; try done; [by left|right; by left].
Qed.

(** The tree once combined: [nodes w] lists its nodes, the root first. *)
Definition nodes (w : workspace) : list Z := slice (heap w) (heap_max w + 1) (HEAP_SIZE - heap_max w - 1).

Record shape (t : list ct_data) (w : workspace) (root : Z) : Prop := {
  sh_heap : zlen (heap w) = HEAP_SIZE;
  sh_tree : zlen t = zlen t0;
  sh_max : heap_max w = HEAP_SIZE - 2 * zlen leaves + 1;
  sh_root : (heap w).[heap_max w] = root;
  sh_inner : elems ≤ root;
  sh_nodes : root :: nodes w ≡ₚ leaves ++ seqZ elems (zlen leaves - 1);
  sh_dads : map (λ x, Dad t.[x]) (nodes w) ≡ₚ seqZ elems (zlen leaves - 1) ++ seqZ elems (zlen leaves - 1);
  sh_rooted : rooted (λ x, Dad t.[x]) [root] (nodes w);
  sh_freq : ∀ i, 0 ≤ i < elems → Freq t.[i] = Freq t0.[i];
  sh_rest : ∀ i, 0 ≤ i < elems → i ∉ leaves → Len t.[i] = Len t0.[i];
}.

Lemma combine_spec w : zlen (heap w) = HEAP_SIZE → heap_max w = HEAP_SIZE → 2 ≤ heap_len w →
  active w ≡ₚ leaves → let '(t', w') := combine t0 w elems in ∃ root, shape t' w' root.
Proof.
  intros Hh Hm Hl Ha. pose proof zlen_leaves as Hll. unfold L_CODES, LITERALS, LENGTH_CODES in Helems.
  assert (HEAP_SIZE = 573) as Ehs by done.
  assert (heap_len w = zlen leaves) as Elen.
  { apply Permutation_length in Ha. pose proof (zlen_slice (heap w) 1 (heap_len w) ltac:(lia)).
    unfold active, zlen in *. lia. }
  assert (forest elems leaves t0 t0 w elems) as F0.
  { constructor; try done; try lia; rewrite ?Z.sub_diag, ?Hm.
    - unfold sorted_nodes. rewrite Hm. rewrite Ha. done.
    - unfold sorted_nodes. by rewrite Hm.
    - unfold sorted_nodes. by rewrite Hm. }
  pose proof (combine_step_spec t0 w elems F0 Hl) as H1. unfold combine.
  destruct (combine_step (t0, w, elems)) as [[t1 w1] node1]. destruct H1 as (En & El & F1).
  destruct (while_rule (λ '(t, w, node), elems < node ∧ forest elems leaves t0 t w node)
    (λ '(t, w, node), Z.to_nat (heap_len w)) (Z.to_nat HEAP_SIZE) (λ '(_, w, _), 2 <=? heap_len w) combine_step
    (t1, w1, node1)) as [Hend Hstop].
  - intros [[t' w'] node'] [Hn F] Hc%Z.leb_le. pose proof (combine_step_spec t' w' node' F Hc) as H.
    destruct (combine_step (t', w', node')) as [[t2 w2] node2]. destruct H as (-> & ? & ?).
    split; [split; [lia|done]|lia].
  - split; [lia|done].
  - destruct F1. lia.
  - destruct (while _ _ _ _) as [[t2 w2] node2]. destruct Hend as [Hn [Fh Ft Fl Fn Fm Fc Fp Fd Fr Fa Ff Fz]].
    apply Z.leb_gt in Hstop. assert (heap_len w2 = 1) as E1 by lia. clear Fl Hstop.
    assert (active w2 = [(heap w2).[1]]) as Ea by (unfold active; rewrite E1; done).
    rewrite Ea in Fp, Fr, Fa. unfold SMALLEST. set (root := (heap w2).[1]) in *.
    specialize (Fa Hn). apply list_elem_of_singleton in Fa.
    assert (node2 - elems = zlen leaves - 1) as Ec by lia. rewrite Ec in *.
    exists root. set (w3 := _ <| heap_max := _ |>).
    assert (nodes w3 = sorted_nodes w2) as En3.
    { unfold nodes, sorted_nodes, w3. simpl. replace (heap_max w2 - 1 + 1) with (heap_max w2) by lia.
      replace (HEAP_SIZE - (heap_max w2 - 1) - 1) with (HEAP_SIZE - heap_max w2) by lia. apply slice_aset; lia. }
    constructor; rewrite ?En3; try done.
    + unfold w3. simpl. by rewrite zlen_aset.
    + unfold w3. simpl. lia.
    + unfold w3. simpl. apply aget_aset_eq. lia.
    + lia.
Qed.

End Combine.

(** ** The leaves *)

(** The heap holds the leaves [L] of those below [n]; the largest is [mc]. *)
Record leaves_ok (elems : Z) (t0 t : list ct_data) (w : workspace) (mc n : Z) (L : list Z) : Prop := {
  lv_heap : zlen (heap w) = HEAP_SIZE;
  lv_tree : zlen t = zlen t0;
  lv_max : heap_max w = HEAP_SIZE;
  lv_active : active w = L;
  lv_len : heap_len w = zlen L;
  lv_nodup : NoDup L;
  lv_code : (L = [] ∧ mc = -1) ∨ mc ∈ L;
  lv_range : ∀ x, x ∈ L → 0 ≤ x < n ∧ x ≤ mc;
  lv_freq : ∀ i, 0 ≤ i < n → i ∈ L ↔ Freq t.[i] ≠ 0;
  lv_used : ∀ i, 0 ≤ i < n → Freq t0.[i] ≠ 0 → i ∈ L;
  lv_zero : ∀ i, 0 ≤ i < n → i ∉ L → Len t.[i] = 0;
  lv_later : ∀ i, n ≤ i → t.[i] = t0.[i];
}.

Lemma heap_push w x L : zlen (heap w) = HEAP_SIZE → active w = L → heap_len w = zlen L → zlen L < HEAP_SIZE - 1 →
  slice ((heap w).[heap_len w + 1 <- x]) 1 (heap_len w + 1) = L ++ [x].
Proof.
  intros Hh Ha Hl Hlt. pose proof (zlen_nonneg L). rewrite slice_last by lia.
  rewrite slice_aset by lia. f_equal; [done|]. f_equal.
  replace (1 + heap_len w) with (heap_len w + 1) by lia. apply aget_aset_eq. lia.
Qed.

Lemma leaves_short elems t0 t w mc n L : leaves_ok elems t0 t w mc n L → 0 ≤ n → zlen L ≤ n.
Proof.
  intros [_ _ _ _ _ Hnd _ Hr _ _ _ _] Hn. assert (L ⊆+ seqZ 0 n) as Hs.
  { apply NoDup_submseteq; [done|]. intros x Hx. apply elem_of_seqZ. specialize (Hr x Hx). lia. }
  apply submseteq_length in Hs. rewrite length_seqZ in Hs. unfold zlen. lia.
Qed.

Lemma init_heap_spec elems t0 w : 0 ≤ elems ≤ L_CODES → elems ≤ zlen t0 → zlen (heap w) = HEAP_SIZE →
  let '(t, w, mc) := init_heap elems t0 w in ∃ L, leaves_ok elems t0 t w mc elems L.
Proof.
  intros He Ht Hh. assert (HEAP_SIZE = 573) as Ehs by done. unfold L_CODES, LITERALS, LENGTH_CODES in He.
  unfold init_heap. apply (for_rule (λ n '(t, w, mc), ∃ L, leaves_ok elems t0 t w mc n L)); [lia| |].
  - exists []. constructor; try done; try lia; [constructor|by left|..]; intros i Hi; apply elem_of_nil in Hi; done.
  - intros n [[t w'] mc] Hn [L HL]. pose proof (leaves_short _ _ _ _ _ _ _ HL ltac:(lia)) as Hs.
    destruct HL as [H1 H2 H3 H4 H5 H6 H7 H8 H9 H10 H11 H12]. unfold c_true.
    assert (n ∉ L) as HnL by (intros Hx; apply H8 in Hx; lia).
    assert (t.[n] = t0.[n]) as En by (apply H12; lia).
    destruct (Z.eqb_spec (Freq t.[n]) 0) as [E|E]; cbn [negb].
    + exists L. constructor; try done.
      * by rewrite zlen_set_len.
      * intros x Hx. specialize (H8 x Hx). lia.
      * intros i Hi. rewrite freq_set_len by lia. destruct (decide (i = n)) as [->|]; [tauto|]. apply H9. lia.
      * intros i Hi Hf. destruct (decide (i = n)) as [->|]; [congruence|]. apply H10; [lia|done].
      * intros i Hi Hf. rewrite dad_set_len by lia. case_decide; [done|]. apply H11; [lia|done].
      * intros i Hi. unfold set_len. rewrite aget_aset_ne by lia. apply H12. lia.
    + exists (L ++ [n]). constructor; simpl; try done.
      * by rewrite zlen_aset.
      * unfold active. simpl. by apply heap_push; [..|lia].
      * rewrite zlen_app, H5. done.
      * apply NoDup_app. split_and!; [done| |apply NoDup_singleton]. intros x Hx Hx'%list_elem_of_singleton. congruence.
      * right. apply elem_of_app. right. by apply list_elem_of_singleton.
      * intros x [Hx|Hx%list_elem_of_singleton]%elem_of_app; [specialize (H8 x Hx)|]; lia.
      * intros i Hi. rewrite elem_of_app, list_elem_of_singleton. destruct (decide (i = n)) as [->|]; [tauto|].
        rewrite <-H9 by lia. tauto.
      * intros i Hi Hf. rewrite elem_of_app, list_elem_of_singleton. destruct (decide (i = n)) as [->|]; [tauto|].
        left. apply H10; [lia|done].
      * intros i Hi Hf. rewrite elem_of_app, list_elem_of_singleton in Hf. apply H11; [|tauto].
        destruct (decide (i = n)) as [->|]; [tauto|lia].
      * intros i Hi. apply H12. lia.
Qed.

Lemma force_two_spec elems t0 t w mc L stree : 3 ≤ elems ≤ L_CODES → elems ≤ zlen t0 →
  leaves_ok elems t0 t w mc elems L →
  let '(t, w, mc) := force_two stree (t, w, mc) in 2 ≤ heap_len w ∧ ∃ L, leaves_ok elems t0 t w mc elems L.
Proof.
  intros He Ht HL. assert (HEAP_SIZE = 573) as Ehs by done. unfold L_CODES, LITERALS, LENGTH_CODES in He.
  unfold force_two.
  destruct (while_rule (λ '(t, w, mc), ∃ L, leaves_ok elems t0 t w mc elems L) (λ '(_, w, _), Z.to_nat (2 - heap_len w))
    2 (λ '(_, w, _), heap_len w <? 2) (force_step stree) (t, w, mc)) as [H Hc].
  - clear -He Ht Ehs. intros [[t w] mc] [L HL] Hc%Z.ltb_lt. destruct HL as [H1 H2 H3 H4 H5 H6 H7 H8 H9 H10 H11 H12].
    unfold force_step. set (nm := if mc <? 2 then _ else _).
    assert (∃ node mc', nm = (node, mc') ∧ 0 ≤ node < elems ∧ node ≤ mc' ∧ mc ≤ mc' ∧ (node ∉ L) ∧
      (mc' = node ∨ (mc' = mc ∧ mc ∈ L))) as (node & mc' & -> & Hn & Hn' & Hmc & HnL & Hmc').
    { unfold nm. destruct (Z.ltb_spec mc 2).
      - exists (mc + 1), (mc + 1). assert (-1 ≤ mc) by (destruct H7 as [[_ ->]|H7%H8]; lia).
        split_and!; [done|lia..|intros Hx%H8; lia|by left].
      - destruct H7 as [[_ ->]|H7]; [lia|]. exists 0, mc. split_and!; [done|lia..| |by right].
        destruct L as [|x [|y L]]; [by apply elem_of_nil in H7| |].
        + apply list_elem_of_singleton in H7 as ->. intros ?%list_elem_of_singleton. lia.
        + rewrite H5, !zlen_cons in Hc. pose proof (zlen_nonneg L). lia. }
    cbv beta iota zeta. match goal with |- context [leaves_ok elems t0 (set_freq t node 1) ?ww mc'] => set (w' := ww) end.
    assert (heap w' = (heap w).[heap_len w + 1 <- node] ∧ heap_len w' = heap_len w + 1 ∧ heap_max w' = heap_max w)
      as (E1 & E2 & E3) by (unfold w'; by destruct stree).
    clearbody w'. split; [|lia]. exists (L ++ [node]). constructor; rewrite ?E1, ?E2, ?E3, ?zlen_set_freq, ?zlen_aset; try done.
    + unfold active. rewrite E1, E2. apply heap_push; [done..|]. lia.
    + rewrite zlen_app, H5. done.
    + apply NoDup_app. split_and!; [done| |apply NoDup_singleton]. intros x Hx Hx'%list_elem_of_singleton. congruence.
    + right. apply elem_of_app. destruct Hmc' as [->|[-> ?]]; [right; by apply list_elem_of_singleton|by left].
    + intros x [Hx|Hx%list_elem_of_singleton]%elem_of_app; [specialize (H8 x Hx)|]; lia.
    + intros i Hi. rewrite elem_of_app, list_elem_of_singleton. destruct (decide (i = node)) as [->|].
      * unfold set_freq. rewrite aget_aset_eq by lia. split; [done|tauto].
      * rewrite freq_set_freq_ne, <-H9 by lia. tauto.
    + intros i Hi Hf. apply elem_of_app. left. by apply H10.
    + intros i Hi Hf. rewrite elem_of_app, list_elem_of_singleton in Hf. rewrite dad_set_freq by lia. apply H11; tauto.
    + intros i Hi. unfold set_freq. rewrite aget_aset_ne by lia. by apply H12.
  - by exists L.
  - pose proof (zlen_nonneg L). destruct HL. lia.
  - destruct (while _ _ _ _) as [[t1 w1] mc1]. apply Z.ltb_ge in Hc. done.
Qed.

Lemma heapify_spec t w n : 0 ≤ n ≤ heap_len w → heap_len w < zlen (heap w) →
  reordered w (for_down n 1 (λ n w, pqdownheap t w n) w).
Proof.
  intros Hn Hl. unfold for_down. apply (for_rule (λ _ w', reordered w w')); [lia|apply reordered_refl|].
  intros i w' Hi R. eapply reordered_trans; [done|]. destruct R as [[h E] Z _ _].
  assert (heap_len w' = heap_len w) by (by rewrite E). apply pqdownheap_spec; lia.
Qed.

(** The counts of the lengths are not touched before gen_bitlen. *)
Lemma init_bl elems t w : bl_count (init_heap elems t w).1.2 = bl_count w.
Proof.
  unfold init_heap. destruct (decide (0 ≤ elems)) as [He|]; [|by rewrite for_empty by lia].
  apply (for_rule (λ _ s, bl_count s.1.2 = bl_count w)); [lia|done|].
  intros i [[t' w'] mc] _ H. by destruct (c_true _).
Qed.

Lemma while_bl {A B : Type} fuel (c : A * workspace * B → bool) b s :
  (∀ s, bl_count (b s).1.2 = bl_count s.1.2) → bl_count (while fuel c b s).1.2 = bl_count s.1.2.
Proof.
  intros Hb. revert s. induction fuel as [|fuel IH]; intros s; cbn [while]; [done|].
  destruct (c s); [|done]. by rewrite IH.
Qed.

Lemma force_bl stree s : bl_count (force_two stree s).1.2 = bl_count s.1.2.
Proof.
  apply while_bl. intros [[t w] mc]. unfold force_step. destruct (if mc <? 2 then _ else _) as [node mc'].
  by destruct stree.
Qed.

Lemma down_bl fuel t w v k j : bl_count (down_loop fuel t w v k j) = bl_count w.
Proof.
  revert w k j. induction fuel as [|fuel IH]; intros w k j; cbn [down_loop]; [done|].
  destruct (j <=? heap_len w); [|done]. destruct (smaller _ _ _ _); [done|]. by rewrite IH.
Qed.

Lemma pqdownheap_bl t w k : bl_count (pqdownheap t w k) = bl_count w.
Proof. apply down_bl. Qed.

Lemma combine_step_bl s : bl_count (combine_step s).1.2 = bl_count s.1.2.
Proof.
  destruct s as [[t w] node]. unfold combine_step. destruct (pqremove t w) as [n w'] eqn:E.
  unfold pqremove in E. injection E as _ <-. etransitivity; [apply pqdownheap_bl|].
  etransitivity; [apply pqdownheap_bl|]. done.
Qed.

Lemma combine_bl t w elems : bl_count (combine t w elems).2 = bl_count w.
Proof.
  unfold combine. pose proof (while_bl (Z.to_nat HEAP_SIZE) (λ '(_, w, _), 2 <=? heap_len w) combine_step
    (combine_step (t, w, elems)) combine_step_bl) as H. rewrite combine_step_bl in H.
  destruct (while _ _ _ _) as [[t' w'] node]. exact H.
Qed.

End HuffTree.
