(* ===== verification/BitLengths.v ===== *)
(** * zlib/trees.c: the code lengths of a tree

    gen_bitlen cuts the depths of the leaves to the longest length and moves
    leaves down until the lengths are those of a complete prefix code again:
    the Kraft sum of the result is exactly 1 and every length is in range. *)

From S2P Require Import Prelude Slices TreesTables Trees HuffTree.

Module BitLengths.
Import Trees HuffTree.

Lemma rooted_at dad A P n Q : rooted dad A (P ++ n :: Q) → dad n ∈ A ++ P.
Proof.
  revert A. induction P as [|x P IH]; intros A H; simpl in H; destruct H as [H1 H2].
  - rewrite app_nil_r. done.
  - apply IH in H2. rewrite elem_of_app, elem_of_cons in *. tauto.
Qed.

(** ** The first pass *)

Section Pass.
  Context (d : static_tree_desc) (mc root : Z) (t : list ct_data) (w : workspace).
  Abbreviation L := (max_length d).
  Abbreviation S' := (nodes w).
Definition dad (x : Z) : Z := Dad t.[x].
  Hypotheses (HL : 1 ≤ L ≤ 15) (Hroot : 0 ≤ root < zlen t)
    (Hnodes : ∀ x, x ∈ S' → 0 ≤ x < zlen t) (Hnd : NoDup (root :: S'))
    (Hrooted : rooted dad [root] S') (Hheap : 0 ≤ heap_max w < HEAP_SIZE).

(** What the pass has set once it is through [P]. *)
Record pass (P : list Z) (t' : list ct_data) (w' : workspace) (ov : Z) : Prop := {
  pa_tree : zlen t' = zlen t;
  pa_heap : heap w' = heap w;
  pa_max : heap_max w' = heap_max w;
  pa_bl : zlen (bl_count w') = 16;
  pa_freq : ∀ x, 0 ≤ x → Freq t'.[x] = Freq t.[x];
  pa_root : Len t'.[root] = 0;
  pa_old : ∀ x, 0 ≤ x → x ≠ root → x ∉ P → Dad t'.[x] = Dad t.[x];
  pa_len : ∀ x, x ∈ P → Len t'.[x] = Z.min L (Len t'.[dad x] + 1);
  pa_range : ∀ x, x ∈ P → 1 ≤ Len t'.[x] ≤ L;
  pa_count : ∀ b, 0 ≤ b ≤ 15 → (bl_count w').[b] = countb (λ x, (x <=? mc) && (Len t'.[x] =? b)) P;
  pa_over : ov = countb (λ x, Len t'.[dad x] =? L) P;
}.

Lemma zlen_nodes : zlen S' ≤ 572.
Proof. unfold nodes. rewrite zlen_slice by lia. unfold HEAP_SIZE, L_CODES, LITERALS, LENGTH_CODES in *. lia. Qed.

Lemma pass_step P n Q t' w' ov h : S' = P ++ n :: Q → n = (heap w).[h] → pass P t' w' ov →
  let '(t2, w2, ov2) := bitlen_step d mc h (t', w', ov) in pass (P ++ [n]) t2 w2 ov2.
Proof.
  intros ES En [A1 A2 A2' A3 A4 A5 A6 A7 A8 A9 A10]. pose proof zlen_nodes as Hz. rewrite ES, zlen_app, zlen_cons in Hz.
  pose proof (zlen_nonneg Q). rewrite ES in *.
  assert (dad n ∈ root :: P) as Hdad by (apply (rooted_at dad [root] P n Q); done).
  apply NoDup_cons in Hnd as [Hr Hnd']. apply NoDup_app in Hnd' as (_ & HnP & HnQ).
  assert (n ∉ P) as Hn by (intros Hx; apply (HnP n Hx); by left).
  assert (n ≠ root) as Hnr by (intros ->; apply Hr, elem_of_app; right; by left).
  assert (0 ≤ n < zlen t) as Hnt by (apply Hnodes, elem_of_app; right; by left).
  assert (∀ x, x ∈ P → 0 ≤ x < zlen t) as HPt by (intros x Hx; apply Hnodes, elem_of_app; by left).
  assert (0 ≤ Len t'.[dad n] ≤ L ∧ dad n ≠ n ∧ 0 ≤ dad n) as (Hld & Hdn & Hd0).
  { apply elem_of_cons in Hdad as [->|Hx]; [rewrite A5; lia|].
    split; [specialize (A8 _ Hx); lia|]. split; [intros E; by rewrite E in Hx|]. apply HPt in Hx. lia. }
  assert (∀ x, x ∈ P → dad x ∈ root :: P ∧ dad x ≠ n ∧ 0 ≤ dad x) as HdP.
  { intros x Hx. apply list_elem_of_split in Hx as (P1 & P2 & ->). 
    assert (dad x ∈ [root] ++ P1) as Hx.
    { apply (rooted_at dad [root] P1 x (P2 ++ n :: Q)). by rewrite <-app_assoc in Hrooted. }
    assert (dad x ∈ root :: (P1 ++ x :: P2)) as Hx'.
    { apply elem_of_cons in Hx as [->|Hx]; [by left|right; apply elem_of_app; by left]. }
    split; [done|]. apply elem_of_cons in Hx' as [->|Hx']; [split; lia|].
    split; [intros E; by rewrite E in Hx'|]. apply HPt in Hx'. lia. }
  unfold bitlen_step. rewrite A2, <-En. rewrite (A6 n) by (done || lia). fold (dad n).
  set (bits := Len t'.[dad n] + 1).
  set (bo := if L <? bits then _ else _).
  assert (bo = (Z.min L bits, ov + Z.b2z (Len t'.[dad n] =? L))) as ->.
  { unfold bo. destruct (Z.ltb_spec L bits), (Z.eqb_spec (Len t'.[dad n]) L); simpl; try (exfalso; lia); f_equal; lia. }
  set (b := Z.min L bits). assert (1 ≤ b ≤ L) as Hb by lia.
  set (t2 := set_len t' n b).
  assert (∀ x, 0 ≤ x → Len t2.[x] = if decide (x = n) then b else Len t'.[x]) as El.
  { intros x Hx. unfold t2. apply dad_set_len; lia. }
  assert (∀ x, x ∈ P → Len t2.[x] = Len t'.[x]) as ElP.
  { intros x Hx. rewrite El by (apply HPt in Hx; lia). apply decide_False. congruence. }
  assert (∀ x, x ∈ P → Len t2.[dad x] = Len t'.[dad x]) as EldP.
  { intros x Hx. destruct (HdP x Hx) as (_ & ? & ?). rewrite El by lia. by apply decide_False. }
  assert (Len t2.[n] = b) as Eln by (rewrite El by lia; by apply decide_True).
  assert (Len t2.[dad n] = Len t'.[dad n]) as Eldn by (rewrite El by lia; by apply decide_False).
  assert (∀ b', countb (λ x, (x <=? mc) && (Len t2.[x] =? b')) (P ++ [n])
    = countb (λ x, (x <=? mc) && (Len t'.[x] =? b')) P + Z.b2z ((n <=? mc) && (b =? b'))) as Ec.
  { intros b'. unfold countb. rewrite sumf_app. f_equal; [apply sumf_ext; intros x Hx; by rewrite ElP|].
    rewrite sumf_cons, Eln. simpl. lia. }
  assert (countb (λ x, Len t2.[dad x] =? L) (P ++ [n])
    = countb (λ x, Len t'.[dad x] =? L) P + Z.b2z (Len t'.[dad n] =? L)) as Eo.
  { unfold countb. rewrite sumf_app. f_equal; [apply sumf_ext; intros x Hx; by rewrite EldP|].
    rewrite sumf_cons, Eldn. simpl. lia. }
  assert (∀ w2, heap w2 = heap w → heap_max w2 = heap_max w → zlen (bl_count w2) = 16 →
    (∀ b', 0 ≤ b' ≤ 15 → (bl_count w2).[b'] = (bl_count w').[b'] + Z.b2z ((n <=? mc) && (b =? b'))) →
    pass (P ++ [n]) t2 w2 (ov + Z.b2z (Len t'.[dad n] =? L))) as Hfin.
  { intros w2 B1 B1' B2 B3. constructor; try done.
    - unfold t2. by rewrite zlen_set_len.
    - intros x Hx. unfold t2. rewrite freq_set_len by lia. by apply A4.
    - rewrite El, decide_False by (done || lia). done.
    - intros x Hx Hxr HxP. rewrite elem_of_app, list_elem_of_singleton in HxP.
      rewrite El, decide_False by (tauto || lia). apply A6; tauto.
    - intros x [Hx|Hx%list_elem_of_singleton]%elem_of_app; [rewrite ElP, EldP by done; by apply A7|].
      subst x. by rewrite Eln, Eldn.
    - intros x [Hx|Hx%list_elem_of_singleton]%elem_of_app; [rewrite ElP by done; by apply A8|].
      subst x. by rewrite Eln.
    - intros b' Hb'. rewrite B3, A9, Ec by done. done.
    - rewrite Eo. lia. }
  destruct (Z.ltb_spec mc n) as [Hmc|Hmc].
  - apply Hfin; [done..|]. intros b' Hb'. destruct (Z.leb_spec n mc); [lia|]. simpl. lia.
  - match goal with |- context [pass _ _ ?ww _] => set (w2 := ww) end.
    assert (heap w2 = heap w ∧ heap_max w2 = heap_max w ∧
      bl_count w2 = (bl_count w').[b <- u16 ((bl_count w').[b] + 1)]) as (E1 & E1' & E2)
      by (unfold w2; by destruct (static_tree d)).
    apply Hfin; [done..|by rewrite E2, zlen_aset|]. intros b' Hb'. rewrite E2.
    destruct (Z.leb_spec n mc); [|lia]. cbn [andb]. destruct (Z.eqb_spec b b') as [<-|].
    + rewrite aget_aset_eq, A9 by lia. apply wrap_small.
      pose proof (countb_nonneg (λ x, (x <=? mc) && (Len t'.[x] =? b)) P).
      pose proof (countb_le (λ x, (x <=? mc) && (Len t'.[x] =? b)) P). unfold ubits. simpl. lia.
    + rewrite aget_aset_ne by lia. simpl. lia.
Qed.

Definition pass_start : list ct_data * workspace * Z :=
  (set_len t root 0, w <| bl_count := for_ 0 (MAX_BITS + 1) (λ bits c, c.[bits <- 0]) (bl_count w) |>, 0).

Lemma pass_init : zlen (bl_count w) = 16 → let '(t', w', ov) := pass_start in pass [] t' w' ov.
Proof.
  intros Hz. unfold pass_start.
  pose proof (for_rule (λ i c, zlen c = 16 ∧ ∀ b, 0 ≤ b < i → c.[b] = 0) 0 16 (λ bits c, c.[bits <- 0]) (bl_count w)
    ltac:(lia)) as H. specialize (H ltac:(split; [done|lia])).
  destruct H as [H1 H2].
  { intros i c Hi [Hc Hb]. rewrite zlen_aset. split; [done|]. intros b Hb'.
    destruct (decide (b = i)) as [->|]; [by rewrite aget_aset_eq by lia|]. rewrite aget_aset_ne by lia. apply Hb. lia. }
  change (MAX_BITS + 1) with 16. constructor; try done.
  - apply zlen_set_len.
  - intros x Hx. apply freq_set_len; lia.
  - rewrite dad_set_len, decide_True by (done || lia). done.
  - intros x Hx Hr _. rewrite dad_set_len, decide_False by (done || lia). done.
  - intros x Hx. by apply elem_of_nil in Hx.
  - intros x Hx. by apply elem_of_nil in Hx.
  - intros b Hb. apply H2. lia.
Qed.

Lemma pass_all : zlen (bl_count w) = 16 →
  let '(t', w', ov) := for_ (heap_max w + 1) HEAP_SIZE (bitlen_step d mc) pass_start in pass S' t' w' ov.
Proof.
  intros Hz. pose proof (pass_init Hz) as H0.
  apply (for_rule (λ h '(t', w', ov), pass (slice (heap w) (heap_max w + 1) (h - heap_max w - 1)) t' w' ov)); [lia| |].
  - replace (heap_max w + 1 - heap_max w - 1) with 0 by lia. exact H0.
  - intros h [[t' w'] ov] Hh HP. replace (h + 1 - heap_max w - 1) with (h - heap_max w - 1 + 1) by lia.
    rewrite slice_last by lia. replace (heap_max w + 1 + (h - heap_max w - 1)) with h by lia.
    eapply (pass_step _ _ (slice (heap w) (h + 1) (HEAP_SIZE - h - 1))); [|done|done].
    unfold nodes. replace (HEAP_SIZE - heap_max w - 1) with ((h - heap_max w - 1) + (1 + (HEAP_SIZE - h - 1))) by lia.
    rewrite !slice_app by lia. replace (heap_max w + 1 + (h - heap_max w - 1)) with h by lia. done.
Qed.

(** The Kraft sum after the pass: each pair of overflowing nodes adds a unit. *)
Section Kraft.
  Context (leaves inner : list Z).
  Hypotheses (Hperm : root :: S' ≡ₚ leaves ++ inner) (Hdads : map dad S' ≡ₚ inner ++ inner)
    (Hleaves : ∀ x, x ∈ leaves → x ≤ mc) (Hinner : ∀ x, x ∈ inner → mc < x) (Hri : root ∈ inner).

Lemma pass_kraft t' w' ov : pass S' t' w' ov →
  2 * sumf (λ x, 2 ^ (L - Len t'.[x])) leaves = 2 * 2 ^ L + ov.
Proof.
  intros [A1 A2 A2' A3 A4 A5 A6 A7 A8 A9 A10]. set (g := λ x, 2 ^ (L - Len t'.[x])).
  assert (∀ x, x ∈ root :: S' → 0 ≤ Len t'.[x] ≤ L) as Hr.
  { intros x [->|Hx]%elem_of_cons; [rewrite A5; lia|]. specialize (A8 x Hx). lia. }
  assert (2 * sumf g S' = sumf (λ x, g (dad x)) S' + ov) as E1.
  { rewrite <-sumf_mul, A10. unfold countb. rewrite <-sumf_add. apply sumf_ext. intros x Hx.
    unfold g. rewrite (A7 x Hx).
    assert (dad x ∈ root :: S') as Hd.
    { rewrite Hperm. apply elem_of_app. right. 
      assert (dad x ∈ map dad S') as H by (apply list_elem_of_fmap; by exists x).
      rewrite Hdads in H. apply elem_of_app in H. tauto. }
    specialize (Hr _ Hd). destruct (Z.eqb_spec (Len t'.[dad x]) L) as [E|E]; simpl.
    - rewrite E, Z.min_l, Z.sub_diag by lia. done.
    - rewrite Z.min_r, <-Z.pow_succ_r by lia. rewrite Z.add_0_r. f_equal. lia. }
  assert (sumf (λ x, g (dad x)) S' = 2 * sumf g inner) as E2.
  { rewrite <-sumf_map, (sumf_perm _ _ _ Hdads), sumf_app. lia. }
  pose proof (sumf_perm g _ _ Hperm) as E3. rewrite sumf_app, sumf_cons in E3.
  assert (g root = 2 ^ L) as Eg by (unfold g; by rewrite A5, Z.sub_0_r).
  lia.
Qed.

Lemma pass_leaves t' w' ov : pass S' t' w' ov →
  (∀ x, x ∈ leaves → 1 ≤ Len t'.[x] ≤ L) ∧
  (∀ b, 0 ≤ b ≤ 15 → (bl_count w').[b] = countb (λ x, Len t'.[x] =? b) leaves) ∧ 0 ≤ ov.
Proof.
  intros [A1 A2 A2' A3 A4 A5 A6 A7 A8 A9 A10].
  assert (mc < root) as Hmr by (by apply Hinner).
  assert (∀ x, x ∈ leaves → x ∈ S') as Hls.
  { intros x Hx. assert (x ∈ root :: S') as H by (rewrite Hperm; apply elem_of_app; by left).
    apply elem_of_cons in H as [->|H]; [apply Hleaves in Hx; lia|done]. }
  split; [intros x Hx; by apply A8, Hls|]. split; [|rewrite A10; apply countb_nonneg].
  intros b Hb. rewrite A9 by done. unfold countb.
  set (f := λ x, Z.b2z ((x <=? mc) && (Len t'.[x] =? b))).
  pose proof (sumf_perm f _ _ Hperm) as E. rewrite sumf_cons, sumf_app in E.
  assert (∀ x, mc < x → f x = 0) as Hz by (intros x Hx; unfold f; by destruct (Z.leb_spec x mc); [lia|]).
  rewrite (Hz root), (sumf_zero f inner) in E by auto. change (sumf f S' = sumf (λ x, Z.b2z (Len t'.[x] =? b)) leaves).
  rewrite <-(sumf_ext f) with (l := leaves); [lia|]. intros x Hx. unfold f.
  specialize (Hleaves x Hx). by destruct (Z.leb_spec x mc); [|lia].
Qed.

(** Half of the overflowing nodes at least are leaves of the longest length. *)
Lemma pass_last t' w' ov : pass S' t' w' ov → ov ≤ 2 * countb (λ x, Len t'.[x] =? L) leaves.
Proof.
  intros [A1 A2 A2' A3 A4 A5 A6 A7 A8 A9 A10]. set (g := λ x, Z.b2z (Len t'.[x] =? L)).
  assert (ov = 2 * sumf g inner) as E1.
  { rewrite A10. unfold countb. change (sumf (λ x, g (dad x)) S' = 2 * sumf g inner).
    rewrite <-sumf_map, (sumf_perm _ _ _ Hdads), sumf_app. lia. }
  pose proof (sumf_perm g _ _ Hperm) as E3. rewrite sumf_app, sumf_cons in E3.
  assert (g root = 0) as Eg by (unfold g; rewrite A5; by destruct (Z.eqb_spec 0 L); [lia|]).
  assert (sumf (λ x, g (dad x)) S' ≤ sumf g S') as E2.
  { apply sumf_mono. intros x Hx. unfold g. rewrite (A7 x Hx).
    destruct (Z.eqb_spec (Len t'.[dad x]) L) as [E|E]; [rewrite E, Z.min_l, Z.eqb_refl by lia; done|].
    destruct (_ =? _); simpl; lia. }
  assert (ov = sumf (λ x, g (dad x)) S') by (by rewrite A10).
  change (ov ≤ 2 * sumf g leaves). lia.
Qed.

End Kraft.

End Pass.

(** ** Moving leaves down *)

Lemma sumf_aset (c : Z → Z) (l : list Z) lo n i v : 0 ≤ lo → lo ≤ i < lo + n → i < zlen l →
  sumf (λ b, l.[i <- v].[b] * c b) (seqZ lo n) = sumf (λ b, l.[b] * c b) (seqZ lo n) + (v - l.[i]) * c i.
Proof.
  intros Hlo Hi Hz. replace n with ((i - lo) + (1 + (lo + n - i - 1))) by lia.
  rewrite !seqZ_app, !sumf_app by lia. replace (lo + (i - lo)) with i by lia.
  change (seqZ i 1) with [i]. rewrite !sumf_cons, aget_aset_eq by lia.
  rewrite (sumf_ext (λ b, l.[i <- v].[b] * c b) (λ b, l.[b] * c b) (seqZ lo (i - lo))),
    (sumf_ext (λ b, l.[i <- v].[b] * c b) (λ b, l.[b] * c b) (seqZ (i + 1) _)); simpl; [lia|..];
    intros b Hb%elem_of_seqZ; by rewrite aget_aset_ne by lia.
Qed.

Section Overflow.
  Context (L n : Z).
  Hypotheses (HL : 1 ≤ L ≤ 15) (Hn : 0 ≤ n ≤ 2 ^ L) (Hn' : n ≤ 600).

Definition kraft_of (bl : list Z) : Z := sumf (λ b, bl.[b] * 2 ^ (L - b)) (seqZ 1 L).
Definition total (bl : list Z) : Z := sumf (λ b, bl.[b] * 1) (seqZ 1 L).

(** The counts of [n] lengths up to [L], with [ov] nodes still below. *)
Record counts (bl : list Z) (ov : Z) : Prop := {
  co_size : zlen bl = 16;
  co_zero : ∀ b, 0 ≤ b ≤ 15 → b < 1 ∨ L < b → bl.[b] = 0;
  co_nonneg : ∀ b, 1 ≤ b ≤ L → 0 ≤ bl.[b];
  co_total : total bl = n;
  co_kraft : 2 * kraft_of bl = 2 * 2 ^ L + ov;
  co_last : ov ≤ 2 * bl.[L];
  co_over : 0 ≤ ov;
}.

Lemma counts_le bl ov b : counts bl ov → 1 ≤ b ≤ L → 0 ≤ bl.[b] ≤ n.
Proof.
  intros [_ _ H <- _ _ _] Hb. split; [by apply H|]. unfold total.
  replace bl.[b] with (bl.[b] * 1) at 1 by lia. apply (sumf_le (λ b, bl.[b] * 1)).
  - intros x Hx%elem_of_seqZ. specialize (H x). lia.
  - apply elem_of_seqZ. lia.
Qed.

(** Some length shorter than the longest is in use when the code is over-full. *)
Lemma shorter_used bl ov : counts bl ov → 0 < ov → ∃ b, 1 ≤ b ≤ L - 1 ∧ bl.[b] ≠ 0.
Proof.
  intros [H1 H2 H3 H4 H5 H6 H7] Hov.
  destruct (decide (Forall (λ b, bl.[b] = 0) (seqZ 1 (L - 1)))) as [Hall|Hex].
  - exfalso. rewrite Forall_forall in Hall.
    assert (∀ c, sumf (λ b, bl.[b] * c b) (seqZ 1 L) = bl.[L] * c L) as E.
    { intros c. replace (seqZ 1 L) with (seqZ 1 (L - 1) ++ [L]).
      - rewrite sumf_app, sumf_cons, sumf_zero; [simpl; lia|]. intros x Hx. rewrite Hall by done. lia.
      - replace L with (L - 1 + 1) at 3 by lia. rewrite seqZ_app by lia.
        by replace (1 + (L - 1)) with L by lia. }
    unfold total, kraft_of in *. rewrite (E (λ _, 1)) in H4. rewrite (E (λ b, 2 ^ (L - b))), Z.sub_diag in H5. lia.
  - apply not_Forall_Exists in Hex; [|apply _]. apply Exists_exists in Hex as (b & Hb%elem_of_seqZ & Hne).
    exists b. split; [lia|done].
Qed.

Lemma overflow_step_spec bl ov : counts bl ov → 0 < ov →
  let '(bl', ov') := overflow_step L (bl, ov) in ov' = ov - 2 ∧ counts bl' ov'.
Proof.
  intros HC Hov. destruct (shorter_used bl ov HC Hov) as (b0 & Hb0 & Hne0).
  unfold overflow_step.
  destruct (while_rule (λ bits, b0 ≤ bits ≤ L - 1) (λ bits, Z.to_nat bits) 16
    (λ bits, bl.[bits] =? 0) (λ bits, bits - 1) (L - 1)) as [Hbits Hne]; [|lia|lia|].
  { intros b Hb Hc%Z.eqb_eq. assert (b ≠ b0) by congruence. lia. }
  set (bits := while _ _ _ _) in *. apply Z.eqb_neq in Hne. clearbody bits.
  pose proof (counts_le _ _ bits HC ltac:(lia)) as Hcb. pose proof (counts_le _ _ (bits + 1) HC ltac:(lia)) as Hcb1.
  pose proof (counts_le _ _ L HC ltac:(lia)) as HcL.
  destruct HC as [H1 H2 H3 H4 H5 H6 H7]. split; [done|].
  set (bl1 := bl.[bits <- u16 (bl.[bits] - 1)]).
  assert (bl1 = bl.[bits <- bl.[bits] - 1]) as E1 by (unfold bl1; rewrite wrap_small; [done|unfold ubits; lia]).
  assert (bl1.[bits + 1] = bl.[bits + 1]) as E1' by (unfold bl1; by rewrite aget_aset_ne by lia).
  set (bl2 := bl1.[bits + 1 <- u16 (bl1.[bits + 1] + 2)]).
  assert (bl2 = bl1.[bits + 1 <- bl1.[bits + 1] + 2]) as E2
    by (unfold bl2; rewrite E1', wrap_small; [done|unfold ubits; lia]).
  assert (zlen bl1 = 16) as Z1 by (unfold bl1; by rewrite zlen_aset).
  assert (zlen bl2 = 16) as Z2 by (unfold bl2; by rewrite zlen_aset).
  assert (bl2.[L] = bl.[L] + (if decide (bits + 1 = L) then 2 else 0)) as E2L.
  { rewrite E2. case_decide as E.
    - rewrite <-E, aget_aset_eq by lia. by rewrite E1'.
    - rewrite aget_aset_ne by lia. unfold bl1. rewrite aget_aset_ne by lia. lia. }
  assert (1 ≤ bl.[L]) as HL1 by lia.
  assert (u16 (bl2.[L] - 1) = bl2.[L] - 1) as E3 by (apply wrap_small; unfold ubits; rewrite E2L; case_decide; lia).
  rewrite E3. clearbody bl1 bl2.
  assert (∀ c, sumf (λ b, bl2.[L <- bl2.[L] - 1].[b] * c b) (seqZ 1 L)
    = sumf (λ b, bl.[b] * c b) (seqZ 1 L) - c bits + 2 * c (bits + 1) - c L) as Hsum.
  { intros c. rewrite sumf_aset, E2, sumf_aset, E1, sumf_aset by (rewrite ?E1, ?zlen_aset; lia). lia. }
  constructor.
  - by rewrite zlen_aset.
  - intros b Hb Hb'. rewrite aget_aset_ne, E2, aget_aset_ne, E1, aget_aset_ne by lia. by apply H2.
  - intros b Hb. destruct (decide (b = L)) as [->|].
    + rewrite aget_aset_eq by lia. rewrite E2L. case_decide; lia.
    + rewrite aget_aset_ne by lia. rewrite E2. destruct (decide (b = bits + 1)) as [->|].
      * rewrite aget_aset_eq by lia. lia.
      * rewrite aget_aset_ne, E1 by lia. destruct (decide (b = bits)) as [->|].
        -- rewrite aget_aset_eq by lia. lia.
        -- rewrite aget_aset_ne by lia. by apply H3.
  - unfold total in *. rewrite (Hsum (λ _, 1)). lia.
  - unfold kraft_of in *. rewrite (Hsum (λ b, 2 ^ (L - b))), Z.sub_diag.
    replace (L - bits) with (Z.succ (L - (bits + 1))) by lia. rewrite Z.pow_succ_r by lia. lia.
  - rewrite aget_aset_eq, E2L by lia. case_decide; lia.
  - lia.
Qed.

Lemma overflow_loop_spec bl ov : counts bl ov → 0 < ov ≤ 573 → counts (overflow_loop L bl ov) 0.
Proof.
  intros HC Hov. unfold overflow_loop. pose proof (overflow_step_spec bl ov HC ltac:(lia)) as H1.
  destruct (overflow_step L (bl, ov)) as [bl1 ov1]. destruct H1 as [E1 H1].
  destruct (while_rule (λ '(bl, ov), counts bl ov) (λ '(_, ov), Z.to_nat ov) (Z.to_nat HEAP_SIZE)
    (λ '(_, ov), 0 <? ov) (overflow_step L) (bl1, ov1)) as [Hend Hstop].
  - intros [b o] Hc Ho%Z.ltb_lt. pose proof (overflow_step_spec b o Hc Ho) as H.
    destruct (overflow_step L (b, o)) as [b' o']. destruct H as [-> ?]. split; [done|lia].
  - done.
  - unfold HEAP_SIZE, L_CODES, LITERALS, LENGTH_CODES. lia.
  - destruct (while _ _ _ _) as [b o]. simpl. apply Z.ltb_ge in Hstop.
    assert (o = 0) as -> by (pose proof (co_over _ _ Hend); lia); done.
Qed.

End Overflow.

(** ** Assigning the lengths *)

Section Assign.
  Context (heap : list Z) (mc hm L : Z) (bl : list Z) (size : Z).
  Abbreviation leaf := (λ x, x <=? mc).
Definition scanned (h h0 : Z) : list Z := slice heap h (h0 - h).
  Hypotheses (Hhm : 0 ≤ hm < HEAP_SIZE) (Hheap : ∀ i, hm < i < HEAP_SIZE → 0 ≤ heap.[i] < size)
    (Hnd : NoDup (scanned (hm + 1) HEAP_SIZE)) (HL : 1 ≤ L ≤ 15)
    (Hbl : ∀ b, 1 ≤ b ≤ L → 0 ≤ bl.[b]) 
    (Hsum : sumf (λ b, bl.[b] * 1) (seqZ 1 L) = countb leaf (scanned (hm + 1) HEAP_SIZE)).

Lemma scanned_split h h1 h0 : h ≤ h1 ≤ h0 → scanned h h0 = scanned h h1 ++ scanned h1 h0.
Proof.
  intros Hh. unfold scanned. replace (h0 - h) with ((h1 - h) + (h0 - h1)) by lia.
  rewrite slice_app by lia. by replace (h + (h1 - h)) with h1 by lia.
Qed.

Lemma scanned_first h h0 : h < h0 → scanned h h0 = heap.[h] :: scanned (h + 1) h0.
Proof. intros Hh. unfold scanned. rewrite slice_first by lia. do 2 f_equal. lia. Qed.

Lemma countb_app {A} (p : A → bool) l k : countb p (l ++ k) = countb p l + countb p k.
Proof. apply sumf_app. Qed.

Lemma scanned_range h x : hm < h → x ∈ scanned h HEAP_SIZE → 0 ≤ x < size.
Proof. intros Hh (i & Hi & ->)%elem_of_slice. apply Hheap. lia. Qed.

(** The nodes from [h] to [h0] are through: their leaves have the length [bits]. *)
Record assigned (bits h0 : Z) (t0 : list ct_data) (n0 : Z) (t : list ct_data) (h n : Z) : Prop := {
  as_size : zlen t = zlen t0;
  as_h : hm + 1 ≤ h ≤ h0;
  as_n : 0 ≤ n;
  as_count : n + countb leaf (scanned h h0) = n0;
  as_freq : ∀ x, 0 ≤ x → Freq t.[x] = Freq t0.[x];
  as_set : ∀ x, x ∈ scanned h h0 → x ≤ mc → Len t.[x] = bits;
  as_old : ∀ x, 0 ≤ x → x ∉ scanned h h0 ∨ mc < x → Len t.[x] = Len t0.[x];
}.

Lemma assign_step_spec bits h0 t0 n0 t opt h n : h0 ≤ HEAP_SIZE → size ≤ zlen t0 → 1 ≤ bits ≤ 15 →
  n0 ≤ countb leaf (scanned (hm + 1) h0) → assigned bits h0 t0 n0 t h n → n ≠ 0 →
  let '(t', _, h', n') := assign_step heap mc bits (t, opt, h, n) in h' = h - 1 ∧ assigned bits h0 t0 n0 t' h' n'.
Proof.
  intros Hh0 Hsz Hb Hn0 [A1 A2 A3 A4 A5 A6 A7] Hn.
  rewrite (scanned_split (hm + 1) h h0), countb_app in Hn0 by lia.
  assert (hm + 1 < h) as Hh.
  { destruct (decide (hm + 1 < h)); [done|]. assert (h = hm + 1) as -> by lia.
    unfold scanned at 1 in Hn0. rewrite Z.sub_diag in Hn0. change (countb leaf (slice heap (hm + 1) 0)) with 0 in Hn0. lia. }
  pose proof (Hheap (h - 1) ltac:(lia)) as Hm. set (m := heap.[h - 1]) in *.
  assert (scanned (h - 1) h0 = m :: scanned h h0) as Es.
  { rewrite scanned_first by lia. by replace (h - 1 + 1) with h by lia. }
  assert (m ∉ scanned h h0) as Hmn.
  { rewrite (scanned_split (hm + 1) (h - 1) HEAP_SIZE), (scanned_split (h - 1) h0 HEAP_SIZE), Es in Hnd by lia.
    apply NoDup_app in Hnd as (_ & _ & Hnd'). simpl in Hnd'. apply NoDup_cons in Hnd' as [Hnd' _].
    intros Hx. apply Hnd'. apply elem_of_app. by left. }
  assert (countb leaf (m :: scanned h h0) = Z.b2z (m <=? mc) + countb leaf (scanned h h0)) as Ec by done.
  unfold assign_step. fold m. destruct (Z.ltb_spec mc m) as [Hmc|Hmc].
  - split; [done|]. constructor; try done; rewrite ?Es; try lia.
    + rewrite Ec. destruct (Z.leb_spec m mc); [lia|]. simpl. lia.
    + intros x [->|Hx]%elem_of_cons Hle; [lia|by apply A6].
    + intros x Hx Hor. apply A7; [done|]. rewrite elem_of_cons in Hor. destruct (decide (mc < x)); [by right|left].
      tauto.
  - assert (∀ t', zlen t' = zlen t → (∀ x, 0 ≤ x → Freq t'.[x] = Freq t.[x]) →
      (∀ x, 0 ≤ x → Len t'.[x] = if decide (x = m) then bits else Len t.[x]) →
      assigned bits h0 t0 n0 t' (h - 1) (n - 1)) as Hfin.
    { intros t' B1 B2 B3. constructor; rewrite ?Es; try lia.
      - rewrite Ec. destruct (Z.leb_spec m mc); [|lia]. simpl. lia.
      - intros x Hx. rewrite B2 by done. by apply A5.
      - intros x Hx Hle. apply elem_of_cons in Hx as [->|Hx].
        + rewrite B3, decide_True by (done || lia). done.
        + assert (0 ≤ x < size) as Hxr.
          { apply (scanned_range h); [lia|]. rewrite (scanned_split h h0) by lia. apply elem_of_app. by left. }
          rewrite B3 by lia. case_decide; [done|]. by apply A6.
      - intros x Hx Hor. rewrite elem_of_cons in Hor. rewrite B3 by done. case_decide as E; [subst x; exfalso|].
        + destruct Hor as [Hor|]; [|lia]. apply Hor. by left.
        + apply A7; [done|]. tauto. }
    destruct (Z.eqb_spec (Len t.[m]) bits) as [E|E].
    + split; [done|]. apply Hfin; try done. intros x Hx. case_decide; [by subst|done].
    + split; [done|]. apply Hfin; [apply zlen_set_len|intros; apply freq_set_len; lia|].
      intros x Hx. apply dad_set_len; lia.
Qed.

Lemma assign_loop_spec bits h0 t0 opt n0 : h0 ≤ HEAP_SIZE → hm + 1 ≤ h0 → size ≤ zlen t0 → 1 ≤ bits ≤ 15 →
  0 ≤ n0 ≤ countb leaf (scanned (hm + 1) h0) →
  let '(t', _, h', n') := while (Z.to_nat HEAP_SIZE) (λ '(_, _, _, n), c_true n) (assign_step heap mc bits) (t0, opt, h0, n0) in
  assigned bits h0 t0 n0 t' h' 0.
Proof.
  intros Hh0 Hlo Hsz Hb Hn0.
  destruct (while_rule (λ '(t, o, h, n), assigned bits h0 t0 n0 t h n) (λ '(_, _, h, _), Z.to_nat h)
    (Z.to_nat HEAP_SIZE) (λ '(_, _, _, n), c_true n) (assign_step heap mc bits) (t0, opt, h0, n0)) as [H Hstop].
  - intros [[[t o] h] n] HA Hc. unfold c_true in Hc.
    assert (n ≠ 0) as Hne by (destruct (Z.eqb_spec n 0); [done|lia]).
    pose proof (assign_step_spec bits h0 t0 n0 t o h n Hh0 Hsz Hb ltac:(lia) HA Hne) as Hs.
    destruct (assign_step heap mc bits (t, o, h, n)) as [[[t' o'] h'] n']. destruct Hs as [-> Hs].
    split; [done|]. destruct HA. lia.
  - constructor; try done; try lia.
    + unfold scanned. rewrite Z.sub_diag. change (countb leaf (slice heap h0 0)) with 0. lia.
    + intros x Hx. unfold scanned in Hx. rewrite Z.sub_diag in Hx. by apply elem_of_nil in Hx.
  - lia.
  - destruct (while _ _ _ _) as [[[t' o'] h'] n']. unfold c_true in Hstop.
    assert (n' = 0) as -> by (destruct (Z.eqb_spec n' 0); [done|by simpl in Hstop]). done.
Qed.

Lemma assign_lengths_spec t0 opt : size ≤ zlen t0 →
  let '(t', _) := assign_lengths heap mc L bl t0 opt in
  zlen t' = zlen t0 ∧ (∀ x, 0 ≤ x → Freq t'.[x] = Freq t0.[x]) ∧
  (∀ x, x ∈ scanned (hm + 1) HEAP_SIZE → x ≤ mc → 1 ≤ Len t'.[x] ≤ L) ∧
  (∀ b, 1 ≤ b ≤ L → countb (λ x, leaf x && (Len t'.[x] =? b)) (scanned (hm + 1) HEAP_SIZE) = bl.[b]) ∧
  ∀ x, 0 ≤ x → x ∉ scanned (hm + 1) HEAP_SIZE ∨ mc < x → Len t'.[x] = Len t0.[x].
Proof.
  intros Hsz. unfold assign_lengths, for_down. replace (L - 1 + 1) with L by lia.
  match goal with |- context [for_ 0 L ?body ?start] => pose proof (for_rule (λ i '(t, _, h),
    hm + 1 ≤ h ≤ HEAP_SIZE ∧ zlen t = zlen t0 ∧ (∀ x, 0 ≤ x → Freq t.[x] = Freq t0.[x]) ∧
    countb leaf (scanned h HEAP_SIZE) = sumf (λ b, bl.[b] * 1) (seqZ (L - i + 1) i) ∧
    (∀ x, x ∈ scanned h HEAP_SIZE → x ≤ mc → L - i < Len t.[x] ≤ L) ∧
    (∀ b, L - i < b ≤ L → countb (λ x, leaf x && (Len t.[x] =? b)) (scanned h HEAP_SIZE) = bl.[b]) ∧
    ∀ x, 0 ≤ x → x ∉ scanned h HEAP_SIZE ∨ mc < x → Len t.[x] = Len t0.[x]) 0 L body start ltac:(lia)) as H end.
  destruct (for_ 0 L _ _) as [[t' opt'] h'] eqn:E. 
  destruct H as (H1 & H2 & H3 & H4 & H5 & H6 & H7).
  - assert (scanned HEAP_SIZE HEAP_SIZE = []) as -> by (unfold scanned; by rewrite Z.sub_diag).
    split_and!; try done; try lia. intros x Hx. by apply elem_of_nil in Hx.
  - clear E t' opt' h'. intros i [[t o] h] Hi (H1 & H2 & H3 & H4 & H5 & H6 & H7).
    set (bits := L - i). assert (1 ≤ bits ≤ L) as Hb by lia.
    assert (bl.[bits] ≤ countb leaf (scanned (hm + 1) h)) as Hle.
    { rewrite (scanned_split (hm + 1) h), countb_app, H4 in Hsum by lia.
      replace (seqZ 1 L) with (seqZ 1 (bits - 1) ++ [bits] ++ seqZ (L - i + 1) i) in Hsum.
      - rewrite !sumf_app, sumf_cons in Hsum. change (sumf _ []) with 0 in Hsum.
        assert (0 ≤ sumf (λ b, bl.[b] * 1) (seqZ 1 (bits - 1))); [|lia].
        apply sumf_nonneg. intros b Hb'%elem_of_seqZ. specialize (Hbl b). lia.
      - replace L with ((bits - 1) + (1 + i)) at 2 by lia. rewrite !seqZ_app by lia.
        replace (1 + (bits - 1)) with bits by lia. change (seqZ bits 1) with [bits].
        by replace (bits + 1) with (L - i + 1) by lia. }
    pose proof (assign_loop_spec bits h t o bl.[bits] ltac:(lia) ltac:(lia) ltac:(lia) ltac:(lia)
      (conj (Hbl bits Hb) Hle)) as Hs.
    destruct (while _ _ _ (t, o, h, bl.[bits])) as [[[t' o'] h'] n']. destruct Hs as [B1 B2 B3 B4 B5 B6 B7].
    rewrite (scanned_split h' h) by lia.
    assert (∀ x, x ∈ scanned h HEAP_SIZE → x ∉ scanned h' h) as Hdis.
    { intros x Hx Hx'. rewrite (scanned_split (hm + 1) h'), (scanned_split h' h) in Hnd by lia.
      apply NoDup_app in Hnd as (_ & _ & Hnd'). apply NoDup_app in Hnd' as (_ & Hd & _). by apply (Hd x). }
    assert (∀ x, x ∈ scanned h' h → 0 ≤ x) as Hnn.
    { intros x Hx. apply (scanned_range h'); [lia|]. rewrite (scanned_split h' h) by lia. apply elem_of_app. by left. }
    assert (∀ x, x ∈ scanned h HEAP_SIZE → 0 ≤ x) as Hnn' by (intros x Hx; apply (scanned_range h x); [lia|done]).
    split_and!; try lia.
    + intros x Hx. rewrite B5 by done. by apply H3.
    + rewrite countb_app, H4. replace (L - (i + 1) + 1) with bits by lia.
      replace (i + 1) with (1 + i) by lia. rewrite seqZ_app, sumf_app by lia. change (seqZ bits 1) with [bits].
      rewrite sumf_cons. change (sumf _ []) with 0. replace (bits + 1) with (L - i + 1) by lia. lia.
    + intros x [Hx|Hx]%elem_of_app Hxm; [rewrite B6 by done; lia|].
      rewrite B7; [|by apply Hnn'|left; by apply Hdis]. specialize (H5 x Hx Hxm). lia.
    + intros b Hb'. rewrite countb_app.
      assert (countb (λ x, leaf x && (Len t'.[x] =? b)) (scanned h HEAP_SIZE)
        = countb (λ x, leaf x && (Len t.[x] =? b)) (scanned h HEAP_SIZE)) as ->.
      { apply sumf_ext. intros x Hx. rewrite B7; [done|by apply Hnn'|left; by apply Hdis]. }
      assert (countb (λ x, leaf x && (Len t'.[x] =? b)) (scanned h' h)
        = if decide (b = bits) then countb leaf (scanned h' h) else 0) as ->.
      { case_decide as Eb.
        - apply sumf_ext. intros x Hx. destruct (Z.leb_spec x mc); [|done]. rewrite B6, Eb, Z.eqb_refl by done. done.
        - apply sumf_zero. intros x Hx. destruct (Z.leb_spec x mc); [|done]. rewrite B6 by done.
          by destruct (Z.eqb_spec bits b); [lia|]. }
      case_decide as Eb; [|rewrite H6 by lia; lia].
      assert (countb (λ x, leaf x && (Len t.[x] =? b)) (scanned h HEAP_SIZE) = 0) as ->; [|subst b; lia].
      apply sumf_zero. intros x Hx. destruct (Z.leb_spec x mc); [|done]. specialize (H5 x Hx ltac:(done)).
      destruct (Z.eqb_spec (Len t.[x]) b); [lia|done].
    + intros x Hx Hor. rewrite elem_of_app in Hor. rewrite B7 by (done || tauto). apply H7; [done|tauto].
  - rewrite Z.sub_diag in *. change (0 + 1) with 1 in H4.
    assert (countb leaf (scanned (hm + 1) h') = 0) as H0.
    { rewrite (scanned_split (hm + 1) h'), countb_app, H4 in Hsum by lia. lia. }
    assert (∀ x, x ∈ scanned (hm + 1) h' → mc < x) as Hnone.
    { intros x Hx. assert (Z.b2z (x <=? mc) ≤ countb leaf (scanned (hm + 1) h')) as Hs.
      { apply (sumf_le (λ x, Z.b2z (x <=? mc))); [|done]. intros y _. destruct (y <=? mc); simpl; lia. }
      rewrite H0 in Hs. destruct (Z.leb_spec x mc); [simpl in Hs; lia|done]. }
    rewrite (scanned_split (hm + 1) h') by lia. split_and!; try done.
    + intros x [Hx|Hx]%elem_of_app Hxm; [apply Hnone in Hx; lia|]. specialize (H5 x Hx Hxm). lia.
    + intros b Hb. rewrite countb_app, H6 by lia. unfold countb. rewrite sumf_zero; [done|].
      intros x Hx. apply Hnone in Hx. by destruct (Z.leb_spec x mc); [lia|].
    + intros x Hx Hor. rewrite elem_of_app in Hor. apply H7; [done|tauto].
Qed.

End Assign.

(** ** gen_bitlen *)

Section GenBitlen.
  Context (d : static_tree_desc) (mc root : Z) (leaves : list Z) (t0 t : list ct_data) (w : workspace).
  Abbreviation L := (max_length d).
  Hypotheses (HL : 1 ≤ L ≤ 15) (Helems : 2 ≤ elems d ≤ L_CODES) (Ht : 2 * elems d ≤ zlen t)
    (Hnd : NoDup leaves) (Hleaves : ∀ x, x ∈ leaves → 0 ≤ x ≤ mc) (Hmc : mc < elems d)
    (HN : 2 ≤ zlen leaves) (HNL : zlen leaves ≤ 2 ^ L) (Hbl : zlen (bl_count w) = 16)
    (Hshape : shape (elems d) leaves t0 t w root).

(** What the lengths of the leaves are in the end. *)
Record lengths_of (t' : list ct_data) (w' : workspace) : Prop := {
  lo_heap : heap w' = heap w;
  lo_tree : zlen t' = zlen t;
  lo_freq : ∀ x, 0 ≤ x → Freq t'.[x] = Freq t.[x];
  lo_range : ∀ x, x ∈ leaves → 1 ≤ Len t'.[x] ≤ L;
  lo_size : zlen (bl_count w') = 16;
  lo_count : ∀ b, 0 ≤ b ≤ 15 → (bl_count w').[b] = countb (λ x, Len t'.[x] =? b) leaves;
  lo_kraft : sumf (λ x, 2 ^ (L - Len t'.[x])) leaves = 2 ^ L;
  lo_rest : ∀ x, 0 ≤ x < elems d → x ∉ leaves → Len t'.[x] = Len t.[x];
}.

Lemma group_lengths t' (g : Z → Z) : (∀ x, x ∈ leaves → 1 ≤ Len t'.[x] ≤ L) →
  sumf (λ x, g (Len t'.[x])) leaves = sumf (λ b, countb (λ x, Len t'.[x] =? b) leaves * g b) (seqZ 1 L).
Proof. intros H. apply (sumf_group (λ x, Len t'.[x])); [lia|]. intros x Hx. specialize (H x Hx). lia. Qed.

Lemma gen_bitlen_spec : let '(t', w') := gen_bitlen d mc t w in lengths_of t' w'.
Proof.
  pose proof (zlen_leaves (elems d) leaves ltac:(intros x Hx; specialize (Hleaves x Hx); lia) Hnd Helems) as Hn286.
  unfold L_CODES, LITERALS, LENGTH_CODES in Helems. assert (HEAP_SIZE = 573) as Ehs by done.
  destruct Hshape as [S1 S2 S3 S4 S5 S6 S7 S8 S9 _]. set (inner := seqZ (elems d) (zlen leaves - 1)) in *.
  assert (∀ x, x ∈ inner → elems d ≤ x < elems d + zlen leaves - 1) as Hinner by (intros x Hx%elem_of_seqZ; lia).
  assert (∀ x, x ∈ root :: nodes w → 0 ≤ x < zlen t) as Hrange.
  { intros x Hx. rewrite S6 in Hx. apply elem_of_app in Hx as [Hx|Hx]; [apply Hleaves in Hx|apply Hinner in Hx]; lia. }
  assert (NoDup (root :: nodes w)) as Hndn.
  { rewrite S6. apply NoDup_app. split_and!; [done| |apply NoDup_seqZ].
    intros x Hx Hx'%Hinner. apply Hleaves in Hx. lia. }
  assert (root ∈ inner) as Hri.
  { assert (root ∈ leaves ++ inner) as H by (rewrite <-S6; by left).
    apply elem_of_app in H as [H|H]; [apply Hleaves in H; lia|done]. }
  assert (0 ≤ heap_max w < HEAP_SIZE) as Hhm by lia.
  pose proof (pass_all d mc root t w HL (Hrange root ltac:(by left)) ltac:(intros x Hx; apply Hrange; by right)
    Hndn S8 Hhm Hbl) as Hp.
  unfold gen_bitlen. simpl heap. simpl heap_max. rewrite S4. fold (pass_start root t w).
  change (heap_max (w <| bl_count := _ |>)) with (heap_max w).
  destruct (for_ (heap_max w + 1) HEAP_SIZE (bitlen_step d mc) (pass_start root t w)) as [[t1 w1] ov].
  assert (∀ x, x ∈ inner → mc < x) as Hmi by (intros x Hx%Hinner; lia).
  assert (∀ x, x ∈ leaves → x ≤ mc) as Hlm by (intros x Hx%Hleaves; lia).
  pose proof (pass_kraft d mc root t w HL (Hrange root ltac:(by left)) Hhm leaves inner S6 S7 t1 w1 ov Hp) as Hk.
  destruct (pass_leaves d mc root t w leaves inner S6 Hlm Hmi Hri t1 w1 ov Hp) as (Hlr & Hlc & Hov).
  pose proof (pass_last d mc root t w HL leaves inner S6 S7 t1 w1 ov Hp) as Hlast.
  pose proof (zlen_nodes w Hhm) as Hzn.
  destruct Hp as [A1 A2 A2' A3 A4 A5 A6 A7 A8 A9 A10].
  assert (∀ x, 0 ≤ x < elems d → x ∉ leaves → x ∉ root :: nodes w) as Hout.
  { intros x Hx Hxl Hx'. rewrite S6 in Hx'. apply elem_of_app in Hx' as [?|Hx'%Hinner]; [done|lia]. }
  assert (∀ x, 0 ≤ x < elems d → x ∉ leaves → Len t1.[x] = Len t.[x]) as Hrest.
  { intros x Hx Hxl. specialize (Hout x Hx Hxl). rewrite elem_of_cons in Hout. apply A6; [lia|tauto..]. }
  destruct (Z.eqb_spec ov 0) as [E0|E0].
  { constructor; try done. lia. }
  (* some lengths are too long *)
  assert (ov ≤ zlen (nodes w)) as Hov' by (rewrite A10; apply countb_le).
  assert (countb (λ x, true) leaves = zlen leaves) as Ecl by (unfold countb; change (sumf (λ _ : Z, 1) leaves = zlen leaves); rewrite sumf_const; lia).
  assert (counts L (zlen leaves) (bl_count w1) ov) as HC.
  { constructor; try done.
    - intros b Hb Hb'. rewrite Hlc by done. apply sumf_zero. intros x Hx. specialize (Hlr x Hx).
      by destruct (Z.eqb_spec (Len t1.[x]) b); [lia|].
    - intros b Hb. rewrite Hlc by lia. apply countb_nonneg.
    - unfold total. rewrite <-Ecl. symmetry. etransitivity; [exact (group_lengths t1 (λ _, 1) Hlr)|]. apply sumf_ext. intros b Hb%elem_of_seqZ. by rewrite Hlc by lia.
    - rewrite <-Hk. f_equal. unfold kraft_of. rewrite (group_lengths t1 (λ b, 2 ^ (L - b)) Hlr).
      apply sumf_ext. intros b Hb%elem_of_seqZ. by rewrite Hlc by lia.
    - rewrite Hlc by lia. done. }
  pose proof (overflow_loop_spec L (zlen leaves) HL ltac:(lia) ltac:(lia) (bl_count w1) ov HC ltac:(lia)) as HC'.
  set (bl' := overflow_loop L (bl_count w1) ov) in *.
  destruct HC' as [C1 C2 C3 C4 C5 C6 C7].
  assert (scanned (heap w) (heap_max w + 1) HEAP_SIZE = nodes w) as Esc.
  { unfold scanned, nodes. f_equal. lia. }
  assert (∀ f, (∀ x, mc < x → f x = 0) → sumf f (nodes w) = sumf f leaves) as Hsumn.
  { intros f Hf. pose proof (sumf_perm f _ _ S6) as E. rewrite sumf_cons, sumf_app, (Hf root), (sumf_zero f inner) in E by auto.
    lia. }
  simpl heap. rewrite A2.
  pose proof (assign_lengths_spec (heap w) mc (heap_max w) L bl' (zlen t1) Hhm) as HA.
  rewrite Esc in HA. specialize (HA
    ltac:(intros i Hi; rewrite A1; apply Hrange; right; apply elem_of_slice; exists i; split; [lia|done])
    ltac:(by apply NoDup_cons in Hndn as [_ ?]) HL C3).
  rewrite A1 in HA.
  specialize (HA ltac:(unfold countb; rewrite Hsumn by (intros x Hx; by destruct (Z.leb_spec x mc); [lia|]);
    unfold total in C4; rewrite C4, <-Ecl; apply sumf_ext; intros x Hx; specialize (Hlm x Hx);
    by destruct (Z.leb_spec x mc); [|lia])).
  specialize (HA t1 (opt_len w1) ltac:(lia)).
  simpl bl_count. simpl opt_len.
  destruct (assign_lengths (heap w) mc L bl' t1 (opt_len w1)) as [t2 opt2]. destruct HA as (B1 & B2 & B3 & B4 & B5).
  assert (∀ x, x ∈ leaves → x ∈ nodes w) as Hln.
  { intros x Hx. assert (x ∈ root :: nodes w) as H by (rewrite S6; apply elem_of_app; by left).
    apply elem_of_cons in H as [->|H]; [apply Hlm in Hx; apply Hmi in Hri; lia|done]. }
  assert (∀ x, x ∈ leaves → 1 ≤ Len t2.[x] ≤ L) as Hlr2 by (intros x Hx; apply B3; [by apply Hln|by apply Hlm]).
  assert (∀ b, 1 ≤ b ≤ L → countb (λ x, Len t2.[x] =? b) leaves = bl'.[b]) as Hc2.
  { intros b Hb. rewrite <-B4 by done. unfold countb. rewrite Hsumn by (intros x Hx; by destruct (Z.leb_spec x mc); [lia|]).
    apply sumf_ext. intros x Hx. specialize (Hlm x Hx). by destruct (Z.leb_spec x mc); [|lia]. }
  simpl. constructor; try done.
  - by rewrite B1.
  - intros x Hx. rewrite B2 by done. by apply A4.
  - intros b Hb. destruct (decide (1 ≤ b ≤ L)); [by rewrite Hc2|]. rewrite C2 by lia. symmetry. apply sumf_zero.
    intros x Hx. specialize (Hlr2 x Hx). by destruct (Z.eqb_spec (Len t2.[x]) b); [lia|].
  - rewrite (group_lengths t2 (λ b, 2 ^ (L - b)) Hlr2).
    rewrite (sumf_ext _ (λ b, bl'.[b] * 2 ^ (L - b))) by (intros b Hb%elem_of_seqZ; by rewrite Hc2 by lia).
    unfold kraft_of in C5. lia.
  - intros x Hx Hxl. rewrite B5; [by apply Hrest|lia|left]. intros Hx'. apply (Hout x Hx Hxl). by right.
Qed.

End GenBitlen.

End BitLengths.
