(* ===== verification/BuildTree.v ===== *)
(** * zlib/trees.c: build_tree makes a complete prefix code

    Whatever the frequencies are, the lengths are at most the longest one,
    their Kraft sum is exactly 1, every symbol that occurs has a code, and the
    codes are the canonical ones, which the decoder of RFC 1951 reads. *)

From S2P Require Import Prelude Slices Inftrees InftreesDecode Rfc1951 Symbols TreesTables Trees BitWriter HuffCodes HuffTree BitLengths.

Module BuildTree.
Import Inftrees Symbols Trees BitWriter HuffCodes HuffTree BitLengths.

(** ** Sums over the symbols *)

Lemma num_countb lens n l : 0 ≤ n → num lens n l = countb (λ x, lens.[x] =? l) (seqZ 0 n).
Proof.
  intros Hn. pattern n. apply natlike_ind; [done| |done]. intros k Hk IH.
  rewrite <-Z.add_1_r, num_succ by done. rewrite seqZ_app, countb_app by lia. rewrite IH. f_equal.
  change (seqZ (0 + k) 1) with [0 + k]. unfold countb. rewrite sumf_cons. change (sumf _ []) with 0. rewrite Z.add_0_l.
  case_decide; destruct (Z.eqb_spec lens.[k] l); simpl; lia.
Qed.

Lemma kraft_upto_sumf lens n m : 1 ≤ m →
  kraft_upto lens n m = sumf (λ l, num lens n l * 2 ^ (15 - l)) (seqZ 1 (m - 1)).
Proof.
  intros Hm. replace m with (1 + (m - 1)) at 1 by lia.
  apply (natlike_ind (λ d, kraft_upto lens n (1 + d) = sumf (λ l, num lens n l * 2 ^ (15 - l)) (seqZ 1 d))); [| |lia].
  - by rewrite Z.add_0_r, kraft_upto_1.
  - intros d Hd IH. rewrite <-Z.add_1_r, Z.add_assoc, kraft_upto_succ, IH by lia.
    rewrite seqZ_app, sumf_app by lia. change (seqZ (1 + d) 1) with [1 + d]. rewrite sumf_cons.
    change (sumf _ []) with 0. lia.
Qed.

Lemma kraft_sumf lens n : kraft lens n = sumf (λ l, num lens n l * 2 ^ (15 - l)) (seqZ 1 15).
Proof. rewrite <-kraft_upto_16, kraft_upto_sumf by lia. done. Qed.

(** A sum over a range whose other members contribute nothing. *)
Lemma sumf_sub (f : Z → Z) (n : Z) (leaves : list Z) : NoDup leaves → (∀ x, x ∈ leaves → 0 ≤ x < n) →
  (∀ x, 0 ≤ x < n → x ∉ leaves → f x = 0) → sumf f (seqZ 0 n) = sumf f leaves.
Proof.
  intros Hnd Hr Hz. assert (leaves ⊆+ seqZ 0 n) as [k Hk]%submseteq_Permutation.
  { apply NoDup_submseteq; [done|]. intros x Hx. apply elem_of_seqZ. specialize (Hr x Hx). lia. }
  rewrite (sumf_perm _ _ _ Hk), sumf_app, (sumf_zero f k); [lia|]. intros x Hx.
  assert (NoDup (leaves ++ k)) as Hnd' by (rewrite <-Hk; apply NoDup_seqZ).
  apply NoDup_app in Hnd' as (_ & Hdis & _). apply Hz; [|intros Hx'; by apply (Hdis x)].
  assert (x ∈ seqZ 0 n) as H by (rewrite Hk; apply elem_of_app; by right). apply elem_of_seqZ in H. lia.
Qed.

(** ** More symbols without a code *)

Lemma num_extend t n k l : 0 ≤ n ≤ k → l ≠ 0 → (∀ x, n ≤ x < k → Len t.[x] = 0) →
  num (tlens t k) k l = num (tlens t n) n l.
Proof.
  intros Hn Hl Hz. rewrite !num_countb by lia.
  assert (seqZ 0 k = seqZ 0 n ++ seqZ n (k - n)) as ->.
  { replace k with (n + (k - n)) at 1 by lia. by rewrite seqZ_app by lia. }
  rewrite countb_app.
  assert (countb (λ x, (tlens t k).[x] =? l) (seqZ n (k - n)) = 0) as ->.
  { apply sumf_zero. intros x Hx%elem_of_seqZ. rewrite tlens_at, Hz by lia. by destruct (Z.eqb_spec 0 l); [lia|]. }
  rewrite Z.add_0_r. apply sumf_ext. intros x Hx%elem_of_seqZ. by rewrite !tlens_at by lia.
Qed.

Lemma kraft_extend t n k m : 0 ≤ n ≤ k → (∀ x, n ≤ x < k → Len t.[x] = 0) → 1 ≤ m →
  kraft_upto (tlens t k) k m = kraft_upto (tlens t n) n m.
Proof.
  intros Hn Hz Hm. rewrite !kraft_upto_sumf by done. apply sumf_ext. intros l Hl%elem_of_seqZ.
  by rewrite num_extend with (n := n) by (done || lia).
Qed.

Lemma encodes_extend t n k : 0 ≤ n ≤ k → k < 2 ^ 16 → (∀ x, n ≤ x < k → Len t.[x] = 0) →
  encodes t (tlens t n) n n → encodes t (tlens t k) k k.
Proof.
  intros Hn Hk Hz [(_ & _ & Hl) Hkr _ _ Hc]. constructor.
  - split; [rewrite zlen_tlens by lia; lia|]. split; [lia|]. intros s Hs. rewrite tlens_at by lia.
    destruct (decide (s < n)); [|rewrite Hz; lia]. specialize (Hl s ltac:(lia)). rewrite tlens_at in Hl by lia. done.
  - rewrite <-kraft_upto_16 in *. by rewrite (kraft_extend t n k) by (done || lia).
  - done.
  - intros y Hy. by rewrite tlens_at by lia.
  - intros y Hy Hy0. destruct (decide (y < n)); [|rewrite Hz in Hy0; lia].
    rewrite Hc by (done || lia). f_equal. unfold code_of. rewrite !tlens_at by lia. f_equal.
    + unfold first_code. pose proof (Hl y ltac:(lia)) as H. rewrite tlens_at in H by lia.
      by rewrite (kraft_extend t n k) by (done || lia).
    + rewrite !num_countb by lia. apply sumf_ext. intros x Hx%elem_of_seqZ. by rewrite !tlens_at by lia.
Qed.

(** ** build_tree *)

Definition desc_ok (d : static_tree_desc) : Prop :=
  3 ≤ elems d ≤ L_CODES ∧ 1 ≤ max_length d ≤ 15 ∧ elems d ≤ 2 ^ max_length d.

Lemma desc_l_ok : desc_ok static_l_desc.
Proof. unfold desc_ok. simpl. unfold L_CODES, LITERALS, LENGTH_CODES, MAX_BITS. lia. Qed.
Lemma desc_d_ok : desc_ok static_d_desc.
Proof. unfold desc_ok. simpl. unfold L_CODES, D_CODES, LITERALS, LENGTH_CODES, MAX_BITS. lia. Qed.
Lemma desc_bl_ok : desc_ok static_bl_desc.
Proof. unfold desc_ok. simpl. unfold L_CODES, BL_CODES, LITERALS, LENGTH_CODES, MAX_BL_BITS. lia. Qed.

Definition workspace_ok (w : workspace) : Prop := zlen (heap w) = HEAP_SIZE ∧ zlen (bl_count w) = 16.

(** The tree [t] with its codes: [mc] is the largest symbol with one. *)
Record coded (d : static_tree_desc) (t : list ct_data) (mc : Z) : Prop := {
  cd_mc : 1 ≤ mc < elems d;
  cd_range : ∀ x, 0 ≤ x < elems d → 0 ≤ Len t.[x] ≤ max_length d;
  cd_last : Len t.[mc] ≠ 0;
  cd_zero : ∀ x, mc < x < elems d → Len t.[x] = 0;
  cd_kraft : kraft (tlens t (mc + 1)) (mc + 1) = 2 ^ 15;
  cd_codes : encodes t (tlens t (mc + 1)) (mc + 1) (mc + 1);
}.

Lemma coded_all d t mc : desc_ok d → coded d t mc →
  encodes t (tlens t (elems d)) (elems d) (elems d) ∧ kraft (tlens t (elems d)) (elems d) = 2 ^ 15.
Proof.
  intros (He & _ & _) [H1 H2 H3 H4 H5 H6]. unfold L_CODES, LITERALS, LENGTH_CODES in He. split.
  - apply (encodes_extend t (mc + 1)); [lia|lia| |done]. intros x Hx. apply H4. lia.
  - rewrite <-kraft_upto_16 in *. rewrite (kraft_extend t (mc + 1)); [done|lia| |lia]. intros x Hx. apply H4. lia.
Qed.

Section BuildTree.
  Context (d : static_tree_desc) (Hd : desc_ok d).

(** The codes of lengths that fill the code space. *)
Lemma codes_of_lengths mc leaves t (w w' : workspace) t' : 0 ≤ mc < elems d → elems d ≤ zlen t → NoDup leaves →
  (∀ x, x ∈ leaves → 0 ≤ x ≤ mc) → mc ∈ leaves → 1 ≤ mc → (∀ x, 0 ≤ x < elems d → x ∉ leaves → Len t.[x] = 0) →
  lengths_of d leaves t w t' w' →
  let t2 := gen_codes t' mc (bl_count w') in
  coded d t2 mc ∧ zlen t2 = zlen t ∧ ∀ x, x ∈ leaves → Len t2.[x] ≠ 0.
Proof.
  intros Hmc Ht Hnd Hl Hmcl Hmc1 Hz [L0 L1 L2 L3 L4 L5 L6 L7]. destruct Hd as (He & HL & _).
  unfold L_CODES, LITERALS, LENGTH_CODES in He. set (L := max_length d) in *.
  assert (∀ x, 0 ≤ x < elems d → 0 ≤ Len t'.[x] ≤ L) as Hr.
  { intros x Hx. destruct (decide (x ∈ leaves)) as [Hxl|Hxl]; [specialize (L3 x Hxl); lia|].
    rewrite L7, Hz by done. lia. }
  set (lens := tlens t' (mc + 1)).
  assert (lengths_ok lens (mc + 1)) as Hok.
  { split; [unfold lens; rewrite zlen_tlens; lia|]. split; [lia|]. intros s Hs. unfold lens. rewrite tlens_at by lia.
    specialize (Hr s ltac:(lia)). lia. }
  assert (∀ f, f 0 = 0 → sumf (λ x, f (Len t'.[x])) (seqZ 0 (mc + 1)) = sumf (λ x, f (Len t'.[x])) leaves) as Hsub.
  { intros f Hf. apply sumf_sub; [done|intros x Hx; specialize (Hl x Hx); lia|].
    intros x Hx Hxl. rewrite L7, Hz by (done || lia). done. }
  assert (∀ l, l ≠ 0 → num lens (mc + 1) l = countb (λ x, Len t'.[x] =? l) leaves) as Hnum.
  { intros l Hl0. rewrite num_countb by lia. unfold countb.
    rewrite <-(Hsub (λ v, Z.b2z (v =? l))) by (by destruct (Z.eqb_spec 0 l); [lia|]).
    apply sumf_ext. intros x Hx%elem_of_seqZ. unfold lens. by rewrite tlens_at by lia. }
  assert (kraft lens (mc + 1) = 2 ^ 15) as Hk.
  { rewrite kraft_sumf. replace 15 with (L + (15 - L)) at 2 by lia. rewrite Z.pow_add_r, <-L6 by lia.
    rewrite Z.mul_comm, <-sumf_mul. rewrite (sumf_ext _ (λ x, (λ l, 2 ^ (15 - l)) (Len t'.[x])) leaves).
    - rewrite (sumf_group (λ x, Len t'.[x]) (λ l, 2 ^ (15 - l)) 1 15); [|lia|].
      + apply sumf_ext. intros l Hl'%elem_of_seqZ. by rewrite Hnum by lia.
      + intros x Hx. specialize (L3 x Hx). lia.
    - intros x Hx. specialize (L3 x Hx). cbv beta. rewrite <-Z.pow_add_r by lia. f_equal. lia. }
  pose proof (gen_codes_spec t' mc (bl_count w') ltac:(lia) Hok ltac:(fold lens; lia)) as Hg.
  specialize (Hg ltac:(rewrite L5 by lia; apply sumf_zero; intros x Hx; specialize (L3 x Hx);
    by destruct (Z.eqb_spec (Len t'.[x]) 0); [lia|])).
  specialize (Hg ltac:(intros l Hl'; rewrite L5 by lia; fold lens; by rewrite Hnum by lia)).
  destruct Hg as (G1 & G2 & G3). intros t2. fold t2 in G1, G2, G3. fold lens in G3.
  assert (tlens t2 (mc + 1) = lens) as Et.
  { unfold lens, tlens. apply map_ext_in. intros x Hx%list_elem_of_In%elem_of_seqZ. apply G2. lia. }
  split; [|split; [lia|]].
  - constructor.
    + lia.
    + intros x Hx. rewrite G2 by lia. by apply Hr.
    + rewrite G2 by lia. specialize (L3 mc Hmcl). lia.
    + intros x Hx. rewrite G2, L7, Hz by (lia || (intros Hx'; apply Hl in Hx'; lia)). done.
    + by rewrite Et.
    + by rewrite Et.
  - intros x Hx. pose proof (Hl x Hx). rewrite G2 by lia. specialize (L3 x Hx). lia.
Qed.

Lemma build_tree_spec t0 w0 : 2 * elems d ≤ zlen t0 → workspace_ok w0 →
  let '(t, w, mc) := build_tree d t0 w0 in
  coded d t mc ∧ workspace_ok w ∧ zlen t = zlen t0 ∧
  ∀ x, 0 ≤ x < elems d → Freq t0.[x] ≠ 0 → x ≤ mc ∧ Len t.[x] ≠ 0.
Proof.
  intros Ht0 [Hh Hb]. pose proof Hd as (He & HL & Hpow).
  assert (HEAP_SIZE = 573) as Ehs by done. pose proof He as He'. unfold L_CODES, LITERALS, LENGTH_CODES in He.
  unfold build_tree.
  pose proof (init_heap_spec (elems d) t0 w0 ltac:(lia) ltac:(lia) Hh) as H1.
  destruct (init_heap (elems d) t0 w0) as [[t1 w1] mc1] eqn:E1. destruct H1 as [L1 H1].
  pose proof (force_two_spec (elems d) t0 t1 w1 mc1 L1 (static_tree d) He' ltac:(lia) H1) as H2.
  destruct (force_two (static_tree d) (t1, w1, mc1)) as [[t2 w2] mc] eqn:E2. destruct H2 as (Hlen2 & leaves & HL2).
  pose proof (leaves_short _ _ _ _ _ _ _ HL2 ltac:(lia)) as Hshort.
  destruct HL2 as [V1 V2 V3 V4 V5 V6 V7 V8 V9 V10 V11 V12].
  assert (zlen (bl_count w2) = 16) as Hb2.
  { pose proof (f_equal (λ x, zlen (bl_count x.1.2)) E1) as Hb1. pose proof (f_equal (λ x, zlen (bl_count x.1.2)) E2) as Hb2.
    simpl in Hb1, Hb2. rewrite <-Hb2. rewrite force_bl. simpl. rewrite <-Hb1. by rewrite init_bl. }
  pose proof (heapify_spec t2 w2 (heap_len w2 / 2) ltac:(Z.div_mod_to_equations; lia) ltac:(lia)) as HR.
  set (w3 := for_down (heap_len w2 / 2) 1 _ w2) in *. destruct HR as [[h3 E3] Z3 A3 R3].
  assert (heap_len w3 = heap_len w2) as El3 by (by rewrite E3).
  assert (heap_max w3 = HEAP_SIZE) as Em3 by (by rewrite E3).
  assert (zlen (bl_count w3) = 16) as Hb3 by (by rewrite E3). clearbody w3.
  assert (∀ x, x ∈ leaves → 0 ≤ x < elems d) as Hlr by (intros x Hx; apply V8 in Hx; lia).
  assert (2 ≤ elems d ≤ L_CODES) as He2 by (unfold L_CODES, LITERALS, LENGTH_CODES; lia).
  pose proof (combine_spec (elems d) leaves t2 Hlr V6 He2 ltac:(lia) w3 ltac:(lia) Em3 ltac:(lia)
    ltac:(rewrite A3, V4; done)) as Hc.
  pose proof (combine_bl t2 w3 (elems d)) as Hb4.
  destruct (combine t2 w3 (elems d)) as [t4 w4]. destruct Hc as [root Hshape]. simpl in Hb4.
  assert (mc ∈ leaves) as Hmcl.
  { destruct V7 as [[-> _]|]; [|done]. change (zlen []) with 0 in V5. lia. }
  pose proof (V8 mc Hmcl) as Hmc.
  assert (1 ≤ mc) as Hmc1.
  { destruct (decide (1 ≤ mc)); [done|]. assert (leaves ⊆+ [0]) as Hs.
    { apply NoDup_submseteq; [done|]. intros x Hx. apply V8 in Hx. apply list_elem_of_singleton. lia. }
    apply submseteq_length in Hs. unfold zlen in *. simpl in Hs. lia. }
  assert (zlen t4 = zlen t2) as Ht4 by apply Hshape.
  pose proof (gen_bitlen_spec d mc root leaves t2 t4 w4 HL He2 ltac:(lia) V6
    ltac:(intros x Hx; apply V8 in Hx; lia) ltac:(lia) ltac:(lia) ltac:(lia) ltac:(by rewrite Hb4) Hshape) as Hg.
  destruct (gen_bitlen d mc t4 w4) as [t5 w5].
  pose proof (codes_of_lengths mc leaves t4 w4 w5 t5 ltac:(lia) ltac:(lia) V6 ltac:(intros x Hx; apply V8 in Hx; lia)
    Hmcl Hmc1 ltac:(intros x Hx Hxl; rewrite (sh_rest _ _ _ _ _ _ Hshape) by done; by apply V11) Hg) as (C1 & C2 & C3).
  split; [done|]. split; [split; [|apply Hg]|split; [lia|]].
  - rewrite (lo_heap _ _ _ _ _ _ Hg). apply Hshape.
  - intros x Hx Hf. assert (x ∈ leaves) as Hxl by (by apply V10). split; [apply V8 in Hxl; lia|by apply C3].
Qed.

End BuildTree.

(** C5. build_tree makes a complete code within the limit, for any frequencies.
    Whatever the 16-bit frequencies are, none of them nonzero included, for the
    tree of literals and lengths, of distances or of lengths, and from whatever
    the heap and counts hold: every length is within [max_length] (15, or 7),
    every symbol that occurs has a code, the lengths fill the code space exactly
    (no code is wasted and none is ambiguous), and the codes stored in the tree
    are those the decoder of RFC 1951 assigns to the lengths: it reads each symbol
    back from its code, whatever follows. *)
Theorem build_tree_complete d t0 w0 : desc_ok d → 2 * elems d ≤ zlen t0 → workspace_ok w0 →
  let '(t, w, mc) := build_tree d t0 w0 in
  let lens := tlens t (elems d) in
  kraft lens (elems d) = 2 ^ 15 ∧
  (∀ x, 0 ≤ x < elems d → 0 ≤ Len t.[x] ≤ max_length d ∧ (Freq t0.[x] ≠ 0 → x ≤ mc ∧ Len t.[x] ≠ 0)) ∧
  ∀ x s, 0 ≤ x < elems d → Len t.[x] ≠ 0 → 0 ≤ Rfc1951.avail s →
    Rfc1951.symbol lens (elems d) (feed [code_field t x] s) = Rfc1951.Ok x s.
Proof.
  intros Hd Ht Hw. pose proof (build_tree_spec d Hd t0 w0 Ht Hw) as H.
  destruct (build_tree d t0 w0) as [[t w] mc]. destruct H as (Hc & _ & _ & Hu).
  destruct (coded_all d t mc Hd Hc) as [He Hk]. split; [done|]. split.
  - intros x Hx. split; [by apply Hc|by apply Hu].
  - intros x s Hx Hl Hs. by apply (symbol_feed _ _ _ _ He).
Qed.

(** Fibonacci numbers: the code wants 10 bits, and gets 7. *)
Definition skewed : list ct_data :=
  map (λ f, Ct f 0) ([1; 1; 2; 3; 5; 8; 13; 21; 34; 55; 89] ++ replicate 28 0).

Lemma build_tree_complete_witness :
  let '(t, _, _) := build_tree static_bl_desc skewed (Workspace (replicate 16 0) (replicate 573 0) 0 0 (replicate 573 0) 0 0) in
  tlens t 19 = [7; 7; 7; 7; 7; 7; 6; 4; 3; 2; 1; 0; 0; 0; 0; 0; 0; 0; 0] ∧ kraft (tlens t 19) 19 = 2 ^ 15.
Proof.
  pose proof (build_tree_complete static_bl_desc skewed (Workspace (replicate 16 0) (replicate 573 0) 0 0 (replicate 573 0) 0 0)
    desc_bl_ok) as H.
  destruct (build_tree static_bl_desc skewed _) as [[t w] mc] eqn:E.
  split; [|apply H; [vm_compute; congruence|by split]].
  pose proof (f_equal (λ x, tlens x.1.1 19) E) as El. cbn [fst] in El. rewrite <-El. vm_compute. reflexivity.
Defined.

End BuildTree.
