(* ===== verification/SendTree.v ===== *)
(** * zlib/trees.c: the code lengths as runs, sent and read back

    scan_tree and send_tree cut the lengths of a tree into the same runs;
    scan_tree counts every bit length code send_tree will send, and the
    decoder of RFC 1951 expands what send_tree sends to the lengths again. *)

From S2P Require Import Prelude Slices Inftrees InftreesDecode Rfc1951 Symbols TreesTables Trees BitWriter HuffCodes HuffTree BitLengths.

Module SendTree.
Import Inftrees Rfc1951 Symbols Trees BitWriter HuffCodes HuffTree.

(** ** Runs *)

Record run := Rn { r_len : Z; r_prev : Z; r_count : Z; r_min : Z }.

Definition run_list (tree : list ct_data) (max_code : Z) : list run :=
  runs (λ cur prev cnt mn l, l ++ [Rn cur prev cnt mn]) tree max_code [].

Lemma runs_foldl {S : Type} (act : Z → Z → Z → Z → S → S) tree mc s :
  runs act tree mc s = foldl (λ s r, act (r_len r) (r_prev r) (r_count r) (r_min r) s) s (run_list tree mc).
Proof.
  unfold run_list, runs. set (m := if Len tree.[0] =? 0 then _ else _). destruct m as [mx mn].
  set (r0 := Run (-1) (Len tree.[0]) 0 mx mn). destruct (decide (0 ≤ mc + 1)); [|by rewrite !for_empty by lia].
  set (f := λ s r, act (r_len r) (r_prev r) (r_count r) (r_min r) s).
  assert (∀ n, 0 ≤ n → let x := for_ 0 n (run_step act tree) (r0, s) in
    let y := for_ 0 n (run_step (λ cur prev cnt mn l, l ++ [Rn cur prev cnt mn]) tree) (r0, []) in
    x.1 = y.1 ∧ x.2 = foldl f s y.2) as H; [|by apply H].
  intros n Hn. pattern n. apply natlike_ind; [by rewrite !for_empty by lia| |done].
  clear n Hn. intros n Hn IH. rewrite <-Z.add_1_r, !for_last by lia.
  destruct (for_ 0 n (run_step act tree) (r0, s)) as [r1 s1].
  destruct (for_ 0 n (run_step _ tree) (r0, [])) as [r2 l2]. destruct IH as [E1 E2]. simpl in E1, E2. subst r2.
  unfold run_step. destruct (_ && _); [done|].
  destruct (if Len tree.[n + 1] =? 0 then _ else _) as [mx' mn']. simpl. split; [done|].
  rewrite foldl_app. simpl. by rewrite E2.
Qed.

Definition expand (r : run) : list Z := replicate (Z.to_nat (r_count r)) (r_len r).

(** The shape of a run whose predecessor has the length [p]. *)
Definition run_ok (p : Z) (r : run) : Prop :=
  r_prev r = p ∧ 1 ≤ r_count r ∧
  ((r_count r < r_min r) ∨
   (r_len r ≠ 0 ∧ r_len r ≠ p ∧ 4 ≤ r_count r ≤ 7) ∨
   (r_len r ≠ 0 ∧ r_len r = p ∧ 3 ≤ r_count r ≤ 6) ∨
   (r_len r = 0 ∧ 3 ≤ r_count r ≤ 138)) ∧ 3 ≤ r_min r.

Fixpoint runs_ok (p : Z) (l : list run) : Prop :=
  match l with
  | [] => True
  | r :: l => run_ok p r ∧ runs_ok (r_len r) l
  end.

Definition last_len (p : Z) (l : list run) : Z := match last l with Some r => r_len r | None => p end.

Lemma runs_ok_snoc p l r : runs_ok p (l ++ [r]) ↔ runs_ok p l ∧ run_ok (last_len p l) r.
Proof.
  revert p. induction l as [|x l IH]; intros p; simpl; [tauto|]. rewrite IH.
  assert (last_len (r_len x) l = last_len p (x :: l)) as -> by (unfold last_len; rewrite last_cons; by destruct (last l)). tauto.
Qed.

Lemma last_len_snoc p l r : last_len p (l ++ [r]) = r_len r.
Proof. unfold last_len. by rewrite last_snoc. Qed.

Definition expansion (l : list run) : list Z := concat (map expand l).

Lemma expansion_snoc l r : expansion (l ++ [r]) = expansion l ++ expand r.
Proof. unfold expansion. rewrite map_app, concat_app. simpl. by rewrite app_nil_r. Qed.

Definition limits (prev next : Z) : Z * Z :=
  if next =? 0 then (138, 3) else if prev =? next then (6, 3) else (7, 4).

(** The runs of a tree whose lengths end at a guard no length equals. *)
Lemma run_list_ok tree mc : 0 ≤ mc → (∀ i, 0 ≤ i ≤ mc → 0 ≤ Len tree.[i] ≤ 15) → Len tree.[mc + 1] = 0xffff →
  runs_ok (-1) (run_list tree mc) ∧ expansion (run_list tree mc) = tlens tree (mc + 1).
Proof.
  intros Hmc Hl Hg. unfold run_list, runs.
  set (m := if Len tree.[0] =? 0 then _ else _).
  assert (m = limits (-1) (Len tree.[0])) as ->.
  { unfold m, limits. specialize (Hl 0 ltac:(lia)). destruct (Z.eqb_spec (Len tree.[0]) 0); [done|].
    by destruct (Z.eqb_spec (-1) (Len tree.[0])); [lia|]. }
  destruct (limits (-1) (Len tree.[0])) as [mx mn] eqn:Em.
  set (act := λ cur prev cnt mn l, l ++ [Rn cur prev cnt mn]).
  pose proof (for_rule (λ n '(r, l), runs_ok (-1) l ∧ prevlen r = last_len (-1) l ∧ nextlen r = Len tree.[n] ∧
    0 ≤ count r < max_count r ∧ (max_count r, min_count r) = limits (prevlen r) (nextlen r) ∧
    (∀ i, n - count r ≤ i < n → Len tree.[i] = Len tree.[n]) ∧ count r ≤ n ∧
    expansion l = tlens tree (n - count r)) 0 (mc + 1) (run_step act tree)
    (Run (-1) (Len tree.[0]) 0 mx mn, []) ltac:(lia)) as H.
  destruct (for_ 0 (mc + 1) _ _) as [r l]. destruct H as (H1 & H2 & H3 & H4 & H5 & H6 & H7 & H8).
  - simpl. split_and!; try done; try lia.
    unfold limits in Em. repeat case_match; injection Em as <- <-; lia.
  - clear Em r l. intros n [r l] Hn (H1 & H2 & H3 & H4 & H5 & H6 & H7 & H8). unfold run_step.
    set (cur := nextlen r) in *. set (next := Len tree.[n + 1]). set (cnt := count r + 1).
    specialize (Hl n ltac:(lia)).
    assert (∀ i, n + 1 - cnt ≤ i < n + 1 → Len tree.[i] = cur) as Hrun.
    { intros i Hi. destruct (decide (i = n)) as [->|]; [done|]. rewrite H3. apply H6. unfold cnt in Hi. lia. }
    assert (max_count r = 138 ∧ min_count r = 3 ∧ cur = 0 ∨ max_count r = 6 ∧ min_count r = 3 ∧ cur ≠ 0 ∧ prevlen r = cur
      ∨ max_count r = 7 ∧ min_count r = 4 ∧ cur ≠ 0 ∧ prevlen r ≠ cur) as Hlim.
    { unfold limits in H5. destruct (Z.eqb_spec cur 0); [|destruct (Z.eqb_spec (prevlen r) cur)];
        injection H5 as E1 E2; lia. }
    destruct ((cnt <? max_count r) && (cur =? next)) eqn:Ec.
    { apply andb_true_iff in Ec as [Hc%Z.ltb_lt Ec%Z.eqb_eq]. simpl. split_and!; try done; try lia; [by rewrite <-Ec|intros i Hi; fold next; rewrite <-Ec; by apply Hrun|].
      rewrite H8. f_equal. lia. }
    assert (cnt ≤ max_count r) as Hc by (unfold cnt; lia).
    assert (run_ok (last_len (-1) l) (Rn cur (prevlen r) cnt (min_count r))) as Hok
      by (split; [done|]; simpl; rewrite <-H2; lia).
    assert (expansion (l ++ [Rn cur (prevlen r) cnt (min_count r)]) = tlens tree (n + 1)) as Hexp
      by (rewrite expansion_snoc, H8; unfold expand, tlens; cbn [r_count r_len];
          replace (n + 1) with ((n - count r) + cnt) by (unfold cnt; lia);
          rewrite seqZ_app, map_app by lia; f_equal; symmetry; apply (map_const_replicate _ cur cnt); [lia|];
          intros i Hi; apply Hrun; lia).
    destruct (if next =? 0 then _ else _) as [mx' mn'] eqn:Em; change (limits cur next = (mx', mn')) in Em.
    unfold act; simpl.
    split_and!; [by apply runs_ok_snoc|by rewrite last_len_snoc|done|lia| |done|lia|lia|by rewrite Z.sub_0_r].
    unfold limits in Em; repeat case_match; injection Em as <- <-; lia.
  - split; [done|]. cbn [snd]. rewrite H8. f_equal. destruct (decide (count r = 0)) as [->|Hc]; [lia|exfalso].
    specialize (H6 mc ltac:(lia)). rewrite Hg in H6. specialize (Hl mc ltac:(lia)). lia.
Qed.

(** ** The codes and fields of a run *)

Definition run_syms (r : run) : list Z :=
  if r_count r <? r_min r then expand r
  else if c_true (r_len r) then
    (if r_len r =? r_prev r then [] else [r_len r]) ++ [REP_3_6]
  else if r_count r <=? 10 then [REPZ_3_10] else [REPZ_11_138].

Definition run_fields (bl : list ct_data) (r : run) : list field :=
  if r_count r <? r_min r then replicate (Z.to_nat (r_count r)) (code_field bl (r_len r))
  else if c_true (r_len r) then
    if r_len r =? r_prev r then [code_field bl REP_3_6; (r_count r - 3, 2)]
    else [code_field bl (r_len r); code_field bl REP_3_6; (r_count r - 1 - 3, 2)]
  else if r_count r <=? 10 then [code_field bl REPZ_3_10; (r_count r - 3, 3)]
  else [code_field bl REPZ_11_138; (r_count r - 11, 7)].

Definition tree_fields (bl : list ct_data) (l : list run) : list field := concat (map (run_fields bl) l).
Definition tree_syms (l : list run) : list Z := concat (map run_syms l).

(** ** send_tree *)

Section Send.
  Context (bl : list ct_data) (cl : list Z) (He : encodes bl cl 19 19).

Definition used (l : list Z) : Prop := ∀ y, y ∈ l → 0 ≤ y < 19 ∧ Len bl.[y] ≠ 0.

Lemma send_code_room s y : writer_ok s → bl_tree s = bl → 0 ≤ y < 19 → Len bl.[y] ≠ 0 → fbits [code_field bl y] ≤ room s →
  emits s (send_code s y (bl_tree s)) [code_field bl y].
Proof.
  intros Hs -> Hy Hl Hr. eapply (send_code_ok bl cl 19 19 He); [done|lia|done|]. cbn [fbits foldr snd code_field] in Hr. lia.
Qed.

Lemma emits_bl s s' fs : emits s s' fs → bl_tree s' = bl_tree s.
Proof. intros [(b & p & c & v & ->) _ _ _ _ _ _]. done. Qed.

Lemma code_nonneg y : 0 ≤ y < 19 → 0 ≤ Len bl.[y].
Proof. intros Hy. pose proof (encodes_len bl cl 19 19 He y Hy). lia. Qed.

Lemma send_repeat n s y : 0 ≤ n → writer_ok s → bl_tree s = bl → 0 ≤ y < 19 → Len bl.[y] ≠ 0 →
  fbits (replicate (Z.to_nat n) (code_field bl y)) ≤ room s →
  emits s (for_ 0 n (λ _ s, send_code s y (bl_tree s)) s) (replicate (Z.to_nat n) (code_field bl y)).
Proof.
  intros Hn Hs Hbl Hy Hl Hr. pose proof (code_nonneg y Hy).
  assert (∀ k, fbits (replicate k (code_field bl y)) = Z.of_nat k * Len bl.[y]) as Hfb
    by (intros k; by rewrite fbits_replicate).
  rewrite Hfb in Hr. rewrite Z2Nat.id in Hr by lia.
  apply (for_rule (λ i s', emits s s' (replicate (Z.to_nat i) (code_field bl y)))); [done|by apply emits_refl|].
  intros i s' Hi Hem. replace (Z.to_nat (i + 1)) with (Z.to_nat i + 1)%nat by lia. rewrite replicate_add.
  eapply emits_trans; [done|done|]. apply send_code_room; [apply Hem|by rewrite (emits_bl _ _ _ Hem)|done|done|].
  rewrite (emits_room _ _ _ Hem), Hfb. simpl. rewrite Z2Nat.id by lia. nia.
Qed.

Lemma emits2 s s1 s2 f g : writer_ok s → emits s s1 [f] → emits s1 s2 [g] → emits s s2 [f; g].
Proof. intros Hs H1 H2. by apply (emits_trans s s1 s2 [f] [g]). Qed.

Lemma send_run_ok p r s : run_ok p r → writer_ok s → bl_tree s = bl → used (run_syms r) →
  fbits (run_fields bl r) ≤ room s →
  emits s (send_run (r_len r) (r_prev r) (r_count r) (r_min r) s) (run_fields bl r).
Proof.
  intros (Hp & H1 & Hc & Hm) Hs Hbl Hu Hr. unfold send_run, run_fields, run_syms in *.
  destruct (Z.ltb_spec (r_count r) (r_min r)) as [Hlt|Hge].
  { destruct (Hu (r_len r)) as [Hy Hl].
    { unfold expand. apply elem_of_replicate. split; [done|lia]. }
    by apply send_repeat; [lia|..]. }
  unfold c_true in *. destruct (Z.eqb_spec (r_len r) 0) as [E0|E0]; cbn [negb] in *.
  - destruct (Z.leb_spec (r_count r) 10).
    + destruct (Hu REPZ_3_10) as [Hy Hl]; [by left|]. pose proof (code_nonneg _ Hy).
      cbn [fbits foldr snd code_field] in Hr.
      assert (emits s (send_code s REPZ_3_10 (bl_tree s)) [code_field bl REPZ_3_10]) as E
        by (apply send_code_room; try done; cbn [fbits foldr snd code_field]; lia).
      eapply emits2; [done|exact E|]. apply send_bits_ok; [apply E|split; simpl; unfold ubits; lia|].
      rewrite (emits_room _ _ _ E). cbn [fbits foldr snd code_field]. lia.
    + destruct (Hu REPZ_11_138) as [Hy Hl]; [by left|]. pose proof (code_nonneg _ Hy).
      cbn [fbits foldr snd code_field] in Hr.
      assert (emits s (send_code s REPZ_11_138 (bl_tree s)) [code_field bl REPZ_11_138]) as E
        by (apply send_code_room; try done; cbn [fbits foldr snd code_field]; lia).
      eapply emits2; [done|exact E|]. apply send_bits_ok; [apply E|split; simpl; unfold ubits; lia|].
      rewrite (emits_room _ _ _ E). cbn [fbits foldr snd code_field]. lia.
  - destruct (Hu REP_3_6) as [Hy Hl]; [apply elem_of_app; right; by left|]. pose proof (code_nonneg _ Hy).
    destruct (Z.eqb_spec (r_len r) (r_prev r)) as [Ep|Ep].
    + cbn [fbits foldr snd code_field] in Hr.
      assert (emits s (send_code s REP_3_6 (bl_tree s)) [code_field bl REP_3_6]) as E
        by (apply send_code_room; try done; cbn [fbits foldr snd code_field]; lia).
      eapply emits2; [done|exact E|]. apply send_bits_ok; [apply E|split; simpl; unfold ubits; lia|].
      rewrite (emits_room _ _ _ E). cbn [fbits foldr snd code_field]. lia.
    + destruct (Hu (r_len r)) as [Hy' Hl']; [by left|]. pose proof (code_nonneg _ Hy').
      cbn [fbits foldr snd code_field] in Hr.
      assert (emits s (send_code s (r_len r) (bl_tree s)) [code_field bl (r_len r)]) as E0'
        by (apply send_code_room; try done; cbn [fbits foldr snd code_field]; lia).
      set (s1 := send_code s (r_len r) (bl_tree s)) in *. pose proof (emits_bl _ _ _ E0') as Eb.
      assert (emits s1 (send_code s1 REP_3_6 (bl_tree s1)) [code_field bl REP_3_6]) as E.
      { apply send_code_room; [apply E0'|by rewrite Eb|done|done|]. rewrite (emits_room _ _ _ E0').
        cbn [fbits foldr snd code_field]. lia. }
      apply (emits_trans s s1 _ [_] [_; _]); [done|done|].
      eapply emits2; [apply E0'|exact E|]. apply send_bits_ok; [apply E|split; simpl; unfold ubits; lia|].
      rewrite (emits_room _ _ _ E), (emits_room _ _ _ E0'). cbn [fbits foldr snd code_field]. lia.
Qed.

Lemma tree_fields_cons r l : tree_fields bl (r :: l) = run_fields bl r ++ tree_fields bl l.
Proof. done. Qed.

Lemma run_fields_nonneg r : used (run_syms r) → 0 ≤ r_count r → 0 ≤ fbits (run_fields bl r).
Proof.
  intros Hu Hc. unfold run_fields, run_syms in *.
  assert (∀ y, y ∈ run_syms r → 0 ≤ Len bl.[y]) as Hn by (intros y Hy; apply code_nonneg, Hu, Hy).
  unfold run_syms in Hn. destruct (_ <? _).
  { rewrite fbits_replicate. cbn [snd code_field]. destruct (decide (r_count r = 0)) as [->|]; [done|].
    assert (0 ≤ Len bl.[r_len r]); [|nia]. apply Hn. unfold expand. apply elem_of_replicate. split; [done|lia]. }
  unfold c_true in *. destruct (_ =? 0); cbn [negb] in *.
  - destruct (_ <=? 10); cbn [fbits foldr snd code_field];
      [pose proof (Hn REPZ_3_10 ltac:(by left))|pose proof (Hn REPZ_11_138 ltac:(by left))]; lia.
  - pose proof (Hn REP_3_6 ltac:(apply elem_of_app; right; by left)).
    destruct (_ =? r_prev r); cbn [fbits foldr snd code_field]; [lia|]. pose proof (Hn (r_len r) ltac:(by left)). lia.
Qed.

Lemma send_runs_ok p l s : runs_ok p l → writer_ok s → bl_tree s = bl → used (tree_syms l) →
  fbits (tree_fields bl l) ≤ room s →
  emits s (foldl (λ s r, send_run (r_len r) (r_prev r) (r_count r) (r_min r) s) s l) (tree_fields bl l).
Proof.
  revert p s. induction l as [|r l IH]; intros p s Hok Hs Hbl Hu Hr; [by apply emits_refl|].
  destruct Hok as [Hr1 Hok]. rewrite tree_fields_cons, fbits_app in Hr. rewrite tree_fields_cons.
  assert (used (run_syms r)) as Hu1 by (intros y Hy; apply Hu, elem_of_app; by left).
  assert (used (tree_syms l)) as Hu2 by (intros y Hy; apply Hu, elem_of_app; by right).
  assert (0 ≤ fbits (tree_fields bl l)) as Hnn.
  { clear -Hok Hu2 He. revert Hok Hu2. generalize (r_len r). induction l as [|x l IH]; intros q Hok Hu; [done|].
    rewrite tree_fields_cons, fbits_app. destruct Hok as [(_ & Hc & _) Hok].
    pose proof (run_fields_nonneg x ltac:(intros y Hy; apply Hu, elem_of_app; by left) ltac:(lia)).
    specialize (IH _ Hok ltac:(intros y Hy; apply Hu, elem_of_app; by right)). lia. }
  pose proof (send_run_ok p r s Hr1 Hs Hbl Hu1 ltac:(lia)) as E. simpl foldl.
  eapply emits_trans; [done|exact E|]. apply (IH (r_len r)); [done|apply E|by rewrite (emits_bl _ _ _ E)|done|].
  rewrite (emits_room _ _ _ E). lia.
Qed.

Lemma send_tree_ok s tree mc : runs_ok (-1) (run_list tree mc) → writer_ok s → bl_tree s = bl →
  used (tree_syms (run_list tree mc)) → fbits (tree_fields bl (run_list tree mc)) ≤ room s →
  emits s (send_tree s tree mc) (tree_fields bl (run_list tree mc)).
Proof.
  intros. unfold send_tree. rewrite (runs_foldl (send_run : Z → Z → Z → Z → deflate_state → deflate_state)).
  by apply (send_runs_ok (-1)).
Qed.

End Send.

(** ** The lengths read back *)

Section Read.
  Context (bl : list ct_data) (cl : list Z) (He : encodes bl cl 19 19) (Hlong : longest cl 19 ≠ 0) (total : Z).

Lemma length_symbol_feed y s : 0 ≤ y < 19 → Len bl.[y] ≠ 0 → 0 ≤ avail s →
  length_symbol cl (feed [code_field bl y] s) = Ok y s.
Proof.
  intros. unfold length_symbol. destruct (Z.eqb_spec (longest cl 19) 0); [done|]. by apply (symbol_feed bl cl 19 19).
Qed.

(** One code of the stream. *)
Lemma read_code fuel acc y fs s : 0 ≤ y < 19 → Len bl.[y] ≠ 0 → Forall field_ok fs → 0 ≤ avail s → zlen acc < total →
  read_lengths (S fuel) cl total acc (feed (code_field bl y :: fs) s) =
  (if y <? 16 then read_lengths fuel cl total (acc ++ [y])
   else
     '(v, n) ← (if y =? 16 then r ← get 2; if zlen acc =? 0 then bad else mret (acc.[zlen acc - 1], 3 + r)
                else if y =? 17 then r ← get 3; mret (0, 3 + r) else r ← get 7; mret (0, 11 + r));
     if total <? zlen acc + n then bad
     else read_lengths fuel cl total (acc ++ replicate (Z.to_nat n) v)) (feed fs s).
Proof.
  intros Hy Hl Hfs Hs Hlt. cbn [read_lengths]. destruct (Z.ltb_spec (zlen acc) total); [|lia].
  change (code_field bl y :: fs) with ([code_field bl y] ++ fs). rewrite feed_app. unfold mbind at 1, P_bind at 1.
  rewrite length_symbol_feed; [done|done|done|]. rewrite avail_feed by done. pose proof (fbits_nonneg fs Hfs). lia.
Qed.

(** A copy of [n] times [v]. *)
Lemma read_copy fuel acc y x w s v n : 
  0 ≤ y < 19 → Len bl.[y] ≠ 0 → 0 ≤ avail s → ubits w x → 0 ≤ w ≤ 16 → zlen acc + n ≤ total → 1 ≤ n →
  (y = 16 ∧ w = 2 ∧ n = 3 + x ∧ 0 < zlen acc ∧ acc.[zlen acc - 1] = v ∨
   y = 17 ∧ w = 3 ∧ n = 3 + x ∧ v = 0 ∨ y = 18 ∧ w = 7 ∧ n = 11 + x ∧ v = 0) →
  read_lengths (S fuel) cl total acc (feed [code_field bl y; (x, w)] s)
  = read_lengths fuel cl total (acc ++ replicate (Z.to_nat n) v) s.
Proof.
  intros Hy Hl Hs Hx Hw Hn Hn1 Hc. rewrite read_code; [|done|done|by apply Forall_singleton|done|lia].
  destruct (Z.ltb_spec y 16); [lia|]. cbn [feed foldr fst snd].
  destruct Hc as [(-> & -> & -> & Ha & Hv)|[(-> & -> & -> & ->)|(-> & -> & -> & ->)]]; simpl (_ =? _); cbv iota;
    unfold mbind, P_bind; rewrite get_pre by (done || lia).
  - destruct (Z.eqb_spec (zlen acc) 0); [lia|]. unfold mret, P_ret. rewrite Hv.
    by destruct (Z.ltb_spec total (zlen acc + (3 + x))); [lia|].
  - unfold mret, P_ret. by destruct (Z.ltb_spec total (zlen acc + (3 + x))); [lia|].
  - unfold mret, P_ret. by destruct (Z.ltb_spec total (zlen acc + (11 + x))); [lia|].
Qed.

Lemma read_repeat k fuel acc y s : 0 ≤ y < 16 → Len bl.[y] ≠ 0 → 0 ≤ avail s → 
  zlen acc + Z.of_nat k ≤ total → (k ≤ fuel)%nat →
  read_lengths fuel cl total acc (feed (replicate k (code_field bl y)) s)
  = read_lengths (fuel - k) cl total (acc ++ replicate k y) s.
Proof.
  intros Hy Hl Hs. revert fuel acc. induction k as [|k IH]; intros fuel acc Hk Hf.
  { by rewrite Nat.sub_0_r, app_nil_r. }
  destruct fuel as [|fuel]; [lia|]. cbn [replicate].
  assert (Forall field_ok (replicate k (code_field bl y))) as Hfo.
  { apply Forall_replicate. apply (code_field_ok bl cl 19 19); (done || lia). }
  rewrite read_code; [|lia|done|done|done|lia]. destruct (Z.ltb_spec y 16); [|lia].
  rewrite IH; [|rewrite zlen_app; change (zlen [y]) with 1; lia|lia].
  rewrite <-app_assoc. done.
Qed.

Lemma zlen_replicate {A} k (x : A) : zlen (replicate k x) = Z.of_nat k.
Proof. unfold zlen. by rewrite length_replicate. Qed.

Lemma read_run p r acc s fuel : run_ok p r → 0 ≤ r_len r ≤ 15 → used bl (run_syms r) → 0 ≤ avail s →
  (p = -1 ∨ 0 < zlen acc ∧ acc.[zlen acc - 1] = p) → zlen acc + r_count r ≤ total → total - zlen acc < Z.of_nat fuel →
  ∃ fuel', total - (zlen acc + r_count r) < Z.of_nat fuel' ∧
  read_lengths fuel cl total acc (feed (run_fields bl r) s) = read_lengths fuel' cl total (acc ++ expand r) s.
Proof.
  intros (Hp & H1 & Hc & Hm) Hl Hu Hs Hacc Ht Hf. unfold run_fields, run_syms, expand in *.
  destruct (Z.ltb_spec (r_count r) (r_min r)) as [Hlt|Hge].
  { destruct (Hu (r_len r)) as [Hy Hy'].
    { apply elem_of_replicate. split; [done|lia]. }
    exists (fuel - Z.to_nat (r_count r))%nat. split; [lia|]. apply read_repeat; (done || lia). }
  destruct fuel as [|fuel]; [lia|].
  unfold c_true in *. destruct (Z.eqb_spec (r_len r) 0) as [E0|E0]; cbn [negb] in *.
  - exists fuel. split; [lia|]. rewrite E0. destruct (Z.leb_spec (r_count r) 10).
    + destruct (Hu REPZ_3_10) as [Hy Hy']; [by left|].
      apply read_copy; try done; try lia; unfold ubits; try lia. right. left. unfold REPZ_3_10. lia.
    + destruct (Hu REPZ_11_138) as [Hy Hy']; [by left|].
      apply read_copy; try done; try lia; unfold ubits; try lia. right. right. unfold REPZ_11_138. lia.
  - destruct (Hu REP_3_6) as [Hy Hy']; [apply elem_of_app; right; by left|].
    destruct (Z.eqb_spec (r_len r) (r_prev r)) as [Ep|Ep].
    + exists fuel. split; [lia|]. apply read_copy; try done; try lia; unfold ubits; try lia.
      left. unfold REP_3_6. destruct Hacc as [Hacc|[Ha1 Ha2]]; [lia|]. split_and!; (done || lia).
    + destruct (Hu (r_len r)) as [Hz Hz']; [by left|]. destruct fuel as [|fuel]; [lia|]. exists fuel. split; [lia|].
      pose proof (code_field_ok bl cl 19 19 He REP_3_6 Hy Hy') as Hf1.
      rewrite read_code; try done; try lia.
      2: { constructor; [done|]. apply Forall_singleton. split; simpl; unfold ubits; lia. }
      destruct (Z.ltb_spec (r_len r) 16); [|lia].
      rewrite (read_copy _ _ _ _ _ _ (r_len r) (r_count r - 1)).
      * rewrite <-app_assoc. f_equal. f_equal. replace (Z.to_nat (r_count r)) with (S (Z.to_nat (r_count r - 1))) by lia. done.
      * done.
      * done.
      * done.
      * unfold ubits. lia.
      * lia.
      * rewrite zlen_app. change (zlen [r_len r]) with 1. lia.
      * lia.
      * left. rewrite zlen_app. change (zlen [r_len r]) with 1. pose proof (zlen_nonneg acc). split_and!; [done|done|lia|lia|].
        replace (zlen acc + 1 - 1) with (zlen acc) by lia. apply aget_snoc.
Qed.

Lemma read_runs p l acc s fuel : runs_ok p l → (∀ r, r ∈ l → 0 ≤ r_len r ≤ 15) → used bl (tree_syms l) → 0 ≤ avail s →
  (p = -1 ∨ 0 < zlen acc ∧ acc.[zlen acc - 1] = p) → zlen acc + zlen (expansion l) ≤ total →
  total - zlen acc < Z.of_nat fuel → Forall field_ok (tree_fields bl l) →
  ∃ fuel', total - (zlen acc + zlen (expansion l)) < Z.of_nat fuel' ∧
  read_lengths fuel cl total acc (feed (tree_fields bl l) s) = read_lengths fuel' cl total (acc ++ expansion l) s.
Proof.
  revert p acc fuel. induction l as [|r l IH]; intros p acc fuel Hok Hlen Hu Hs Hacc Ht Hf Hfo.
  { exists fuel. change (zlen (expansion [])) with 0. rewrite Z.add_0_r, app_nil_r. done. }
  destruct Hok as [Hr Hok]. pose proof Hr as (_ & H1 & _).
  assert (zlen (expansion (r :: l)) = r_count r + zlen (expansion l)) as Ez.
  { unfold expansion. simpl. rewrite zlen_app. unfold expand. rewrite zlen_replicate, Z2Nat.id by lia. done. }
  pose proof (zlen_nonneg (expansion l)). rewrite Ez in *.
  rewrite tree_fields_cons in *. apply Forall_app in Hfo as [Hf1 Hf2]. rewrite feed_app.
  destruct (read_run p r acc (feed (tree_fields bl l) s) fuel) as (fuel1 & Hf1' & E1); try done; try lia.
  - apply Hlen. by left.
  - intros y Hy. apply Hu, elem_of_app. by left.
  - rewrite avail_feed by done. pose proof (fbits_nonneg _ Hf2). lia.
  - assert (zlen (acc ++ expand r) = zlen acc + r_count r) as Ea.
    { rewrite zlen_app. unfold expand. rewrite zlen_replicate. lia. }
    destruct (IH (r_len r) (acc ++ expand r) fuel1) as (fuel2 & Hf2' & E2); rewrite ?Ea; try done; try lia.
    + intros x Hx. apply Hlen. by right.
    + intros y Hy. apply Hu, elem_of_app. by right.
    + right. pose proof (zlen_nonneg acc). split; [lia|]. unfold expand.
      replace (Z.to_nat (r_count r)) with (Z.to_nat (r_count r - 1) + 1)%nat by lia.
      rewrite replicate_add, app_assoc. simpl.
      replace (zlen acc + r_count r - 1) with (zlen (acc ++ replicate (Z.to_nat (r_count r - 1)) (r_len r)));
        [apply aget_snoc|]. rewrite zlen_app, zlen_replicate. lia.
    + exists fuel2. rewrite Ea in Hf2'. split; [lia|]. rewrite E1, E2, <-app_assoc. done.
Qed.

End Read.

(** ** The counts of scan_tree *)

Definition freqs_ok (bl : list ct_data) (m : Z) : Prop :=
  19 ≤ zlen bl ∧ ∀ y, 0 ≤ y < 19 → 0 ≤ Freq bl.[y] ≤ m.

Definition occurs (y : Z) (l : list Z) : Z := countb (λ x, x =? y) l.

Lemma occurs_app y l k : occurs y (l ++ k) = occurs y l + occurs y k.
Proof. apply sumf_app. Qed.

Lemma set_freq_count bl m c k : freqs_ok bl m → 0 ≤ c < 19 → 0 ≤ k → m + k < 2 ^ 16 →
  freqs_ok (set_freq bl c (Freq bl.[c] + k)) (m + k) ∧
  ∀ y, 0 ≤ y < 19 → Freq (set_freq bl c (Freq bl.[c] + k)).[y] = Freq bl.[y] + (if decide (y = c) then k else 0).
Proof.
  intros [Hz Hf] Hc Hk Hm. 
  assert (∀ y, 0 ≤ y < 19 → Freq (set_freq bl c (Freq bl.[c] + k)).[y] = Freq bl.[y] + (if decide (y = c) then k else 0)) as H.
  { intros y Hy. case_decide as E.
    - subst. unfold set_freq. rewrite aget_aset_eq by lia. simpl. apply wrap_small. specialize (Hf c Hc). unfold ubits. lia.
    - rewrite freq_set_freq_ne by lia. lia. }
  split; [|done]. split; [by rewrite zlen_set_freq|]. intros y Hy. rewrite H by done. specialize (Hf y Hy). case_decide; lia.
Qed.

Lemma occurs_single y c : occurs y [c] = if decide (y = c) then 1 else 0.
Proof.
  unfold occurs, countb. rewrite sumf_cons. change (sumf _ []) with 0.
  case_decide; destruct (Z.eqb_spec c y); simpl; lia.
Qed.

Lemma occurs_replicate y c k : occurs y (replicate k c) = if decide (y = c) then Z.of_nat k else 0.
Proof.
  induction k as [|k IH]; [by case_decide|]. cbn [replicate]. change (c :: replicate k c) with ([c] ++ replicate k c).
  rewrite occurs_app, occurs_single, IH. case_decide; lia.
Qed.

Lemma scan_run_ok p r bl m : run_ok p r → 0 ≤ r_len r ≤ 15 → freqs_ok bl m → m + r_count r < 2 ^ 16 →
  let bl' := scan_run (r_len r) (r_prev r) (r_count r) (r_min r) bl in
  freqs_ok bl' (m + r_count r) ∧ ∀ y, 0 ≤ y < 19 → Freq bl'.[y] = Freq bl.[y] + occurs y (run_syms r).
Proof.
  intros (Hp & H1 & Hc & Hmin) Hl Hf Hm. unfold scan_run, run_syms.
  assert (∀ bl1, freqs_ok bl1 (m + 1) → freqs_ok bl1 (m + r_count r)) as Hw.
  { intros bl1 [Hz Hy]. split; [done|]. intros y Hy'. specialize (Hy y Hy'). lia. }
  destruct (Z.ltb_spec (r_count r) (r_min r)).
  { destruct (set_freq_count bl m (r_len r) (r_count r)) as [A B]; [done|lia..|]. split; [done|]. intros y Hy.
    rewrite B by done. unfold expand. rewrite occurs_replicate, Z2Nat.id by lia. done. }
  unfold c_true. destruct (Z.eqb_spec (r_len r) 0); cbn [negb].
  - destruct (Z.leb_spec (r_count r) 10).
    + destruct (set_freq_count bl m REPZ_3_10 1) as [A B]; [done|done|lia|lia|]. split; [by apply Hw|]. intros y Hy.
      by rewrite B, occurs_single.
    + destruct (set_freq_count bl m REPZ_11_138 1) as [A B]; [done|done|lia|lia|]. split; [by apply Hw|]. intros y Hy.
      by rewrite B, occurs_single.
  - destruct (Z.eqb_spec (r_len r) (r_prev r)).
    + destruct (set_freq_count bl m REP_3_6 1) as [A B]; [done|done|lia|lia|]. split; [by apply Hw|]. intros y Hy.
      rewrite B by done. simpl app. by rewrite occurs_single.
    + destruct (set_freq_count bl m (r_len r) 1) as [A B]; [done|lia..|].
      destruct (set_freq_count (set_freq bl (r_len r) (Freq bl.[r_len r] + 1)) (m + 1) REP_3_6 1) as [A' B'];
        [done|done|lia|lia|]. split.
      * destruct A' as [Hz Hy]. split; [done|]. intros y Hy'. specialize (Hy y Hy'). lia.
      * intros y Hy. rewrite B', B, occurs_app, !occurs_single by done. lia.
Qed.

Lemma scan_runs_ok p l bl m : runs_ok p l → (∀ r, r ∈ l → 0 ≤ r_len r ≤ 15) → freqs_ok bl m →
  m + zlen (expansion l) < 2 ^ 16 →
  let bl' := foldl (λ s r, scan_run (r_len r) (r_prev r) (r_count r) (r_min r) s) bl l in
  freqs_ok bl' (m + zlen (expansion l)) ∧ ∀ y, 0 ≤ y < 19 → Freq bl'.[y] = Freq bl.[y] + occurs y (tree_syms l).
Proof.
  revert p bl m. induction l as [|r l IH]; intros p bl m Hok Hl Hf Hm.
  { simpl. change (zlen (expansion [])) with 0. rewrite Z.add_0_r. split; [done|]. intros. unfold occurs, countb. simpl. lia. }
  destruct Hok as [Hr Hok]. pose proof Hr as (_ & H1 & _). simpl foldl.
  assert (zlen (expansion (r :: l)) = r_count r + zlen (expansion l)) as Ez.
  { unfold expansion. simpl. rewrite zlen_app. unfold expand. rewrite zlen_replicate, Z2Nat.id by lia. done. }
  pose proof (zlen_nonneg (expansion l)). rewrite Ez in *.
  destruct (scan_run_ok p r bl m Hr ltac:(apply Hl; by left) Hf ltac:(lia)) as [A B].
  destruct (IH (r_len r) _ (m + r_count r) Hok ltac:(intros x Hx; apply Hl; by right) A ltac:(lia)) as [A' B'].
  rewrite Z.add_assoc. split; [done|]. intros y Hy. rewrite B', B by done.
  change (tree_syms (r :: l)) with (run_syms r ++ tree_syms l). rewrite occurs_app. lia.
Qed.

Lemma scan_foldl_size l bl :
  zlen (foldl (λ s r, scan_run (r_len r) (r_prev r) (r_count r) (r_min r) s) bl l) = zlen bl.
Proof.
  revert bl. induction l as [|r l IH]; intros bl; [done|]. simpl foldl. rewrite IH. unfold scan_run.
  destruct (_ <? _); [apply zlen_set_freq|]. destruct (c_true _); [|destruct (_ <=? _); apply zlen_set_freq].
  destruct (_ =? _); rewrite ?zlen_set_freq; done.
Qed.

(** A symbol of the runs is one of the 19, and it is counted. *)
Lemma run_syms_range r y : 0 ≤ r_len r ≤ 15 → y ∈ run_syms r → 0 ≤ y < 19.
Proof.
  intros Hl. unfold run_syms, expand, REP_3_6, REPZ_3_10, REPZ_11_138. destruct (_ <? _).
  { intros [-> _]%elem_of_replicate. lia. }
  destruct (c_true _); [|destruct (_ <=? 10); intros ->%list_elem_of_singleton; lia].
  destruct (_ =? r_prev r); rewrite elem_of_app, list_elem_of_singleton.
  - rewrite elem_of_nil. intros [[]| ->]. lia.
  - rewrite list_elem_of_singleton. lia.
Qed.

Lemma tree_syms_range l y : (∀ r, r ∈ l → 0 ≤ r_len r ≤ 15) → y ∈ tree_syms l → 0 ≤ y < 19.
Proof.
  induction l as [|r l IH]; intros Hl Hy; [by apply elem_of_nil in Hy|].
  change (tree_syms (r :: l)) with (run_syms r ++ tree_syms l) in Hy. apply elem_of_app in Hy as [Hy|Hy].
  - apply (run_syms_range r); [|done]. apply Hl. by left.
  - apply IH; [|done]. intros x Hx. apply Hl. by right.
Qed.

Lemma occurs_pos y l : y ∈ l → 1 ≤ occurs y l.
Proof.
  intros Hy. pose proof (sumf_le (λ x, Z.b2z (x =? y)) l y) as H. cbv beta in H. rewrite Z.eqb_refl in H.
  apply H; [|done]. intros x _. destruct (x =? y); simpl; lia.
Qed.

(** The lengths of the runs are those of the tree. *)
Lemma run_lens tree mc : 0 ≤ mc → (∀ i, 0 ≤ i ≤ mc → 0 ≤ Len tree.[i] ≤ 15) → Len tree.[mc + 1] = 0xffff →
  ∀ r, r ∈ run_list tree mc → 0 ≤ r_len r ≤ 15.
Proof.
  intros Hmc Hl Hg r Hr. destruct (run_list_ok tree mc Hmc Hl Hg) as [Hok He].
  assert (1 ≤ r_count r) as Hc.
  { clear -Hok Hr. revert Hok. generalize (-1). induction (run_list tree mc) as [|x l IH]; intros p Hok;
      [by apply elem_of_nil in Hr|]. destruct Hok as [(_ & Hx & _) Hok].
    apply elem_of_cons in Hr as [->|Hr]; [done|by eapply IH]. }
  assert (r_len r ∈ tlens tree (mc + 1)) as Hin.
  { rewrite <-He. unfold expansion. apply list_elem_of_In, in_concat. exists (expand r). split.
    - apply in_map. by apply list_elem_of_In.
    - apply list_elem_of_In. unfold expand. apply elem_of_replicate. split; [done|lia]. }
  unfold tlens in Hin. apply list_elem_of_fmap in Hin as (i & -> & Hi%elem_of_seqZ). apply Hl. lia.
Qed.

End SendTree.
