(* ===== verification/CompressBlock.v ===== *)
(** * zlib/trees.c: compress_block

    The literals and matches of a block, written with the codes of two trees,
    are what the decoder of RFC 1951 reads: it produces the bytes they stand
    for. [d_buf] and [l_buf] lie where the output grows, so this needs the
    output not to reach an entry before it is read. *)

From S2P Require Import Prelude Slices Inftrees InftreesDecode Rfc1951 Symbols TreesTables Trees BitWriter HuffCodes.

Module CompressBlock.
Import Inftrees Rfc1951 Symbols Trees BitWriter HuffCodes.

(** ** Literals and matches *)

(** A literal is a pair of 0 and the byte, a match its distance and its length
    less [MIN_MATCH]. *)
Abbreviation lzsym := (Z * Z)%type.
Definition sym_ok (x : lzsym) : Prop := 0 ≤ x.1 ≤ 2 ^ 15 ∧ byte x.2.

Definition sym_bytes (x : lzsym) (h : list Z) : list Z :=
  if x.1 =? 0 then [x.2] else lz_bytes (Z.to_nat (x.2 + MIN_MATCH)) x.1 h.

(** The bytes they stand for after the history [h]. *)
Fixpoint play (h : list Z) (l : list lzsym) : list Z :=
  match l with
  | [] => []
  | x :: l => sym_bytes x h ++ play (h ++ sym_bytes x h) l
  end.

(** No match reaches back before the history. *)
Fixpoint reaches (h : list Z) (l : list lzsym) : Prop :=
  match l with
  | [] => True
  | x :: l => x.1 ≤ zlen h ∧ reaches (h ++ sym_bytes x h) l
  end.

(** ** The codes and fields of a symbol *)

Definition len_sym (x : lzsym) : Z := _length_code.[x.2] + LITERALS + 1.
Definition dist_sym (x : lzsym) : Z := d_code (x.1 - 1).
Definition ll_sym (x : lzsym) : Z := if x.1 =? 0 then x.2 else len_sym x.

Definition opt_field (v n : Z) : list field := if c_true n then [(v, n)] else [].

Definition sym_fields (lt dt : list ct_data) (x : lzsym) : list field :=
  if x.1 =? 0 then [code_field lt x.2]
  else
    code_field lt (len_sym x) ::
    opt_field (x.2 - base_length.[_length_code.[x.2]]) extra_lbits.[_length_code.[x.2]] ++
    code_field dt (dist_sym x) ::
    opt_field (x.1 - 1 - base_dist.[dist_sym x]) extra_dbits.[dist_sym x].

Definition syms_fields (lt dt : list ct_data) (l : list lzsym) : list field := concat (map (sym_fields lt dt) l).
Definition block_fields (lt dt : list ct_data) (l : list lzsym) : list field :=
  syms_fields lt dt l ++ [code_field lt END_BLOCK].

(** The tables agree with the RFC. *)
Definition len_check (lc : Z) : bool :=
  let c := _length_code.[lc] in
  let e := if extra_lbits.[c] =? 0 then 0 else lc - base_length.[c] in
  (0 <=? c) && (c <=? 28) && (len_extra (c + LITERALS + 1) =? extra_lbits.[c]) && (0 <=? extra_lbits.[c]) && (extra_lbits.[c] <=? 5)
  && (0 <=? e) && (e <? 2 ^ extra_lbits.[c]) && (len_base (c + LITERALS + 1) + e =? lc + MIN_MATCH).

(** A distance less one below 256, and the 128 distances of an entry above. *)
Definition dist_fits (c lo hi : Z) : bool :=
  (0 <=? c) && (c <=? 29) && (dist_extra c =? extra_dbits.[c]) && (0 <=? extra_dbits.[c]) && (extra_dbits.[c] <=? 13)
  && (base_dist.[c] <=? lo) && (hi <? base_dist.[c] + 2 ^ extra_dbits.[c]) && (dist_base c =? base_dist.[c] + 1).

Lemma len_checks lc : byte lc → len_check lc = true.
Proof.
  intros Hl. assert (forall_range len_check 0 256 = true) as H by (vm_compute; reflexivity).
  apply (forall_range_spec _ _ _ lc H). unfold ubits in Hl. lia.
Qed.

Lemma dist_checks d : 0 ≤ d < 2 ^ 15 → ∃ lo hi, dist_fits (d_code d) lo hi = true ∧ lo ≤ d ≤ hi.
Proof.
  intros Hd. unfold d_code. destruct (Z.ltb_spec d 256).
  - assert (forall_range (λ d, dist_fits _dist_code.[d] d d) 0 256 = true) as H' by (vm_compute; reflexivity).
    exists d, d. split; [|lia]. apply (forall_range_spec _ _ _ d H'). lia.
  - assert (forall_range (λ q, dist_fits _dist_code.[256 + q] (128 * q) (128 * q + 127)) 2 254 = true) as H'
      by (vm_compute; reflexivity).
    rewrite Z.shiftr_div_pow2 by lia. change (2 ^ 7) with 128. exists (128 * (d / 128)), (128 * (d / 128) + 127).
    split; [|Z.div_mod_to_equations; lia]. apply (forall_range_spec _ _ _ (d / 128) H'). Z.div_mod_to_equations. lia.
Qed.

Lemma len_facts lc : byte lc → let c := _length_code.[lc] in
  let e := if extra_lbits.[c] =? 0 then 0 else lc - base_length.[c] in
  0 ≤ c ≤ 28 ∧ len_extra (c + LITERALS + 1) = extra_lbits.[c] ∧ 0 ≤ extra_lbits.[c] ≤ 5 ∧ ubits extra_lbits.[c] e ∧
  len_base (c + LITERALS + 1) + e = lc + MIN_MATCH.
Proof.
  intros H c e. apply len_checks in H. unfold len_check in H. fold c in H. fold e in H.
  repeat (apply andb_true_iff in H as [H ?]). unfold ubits. lia.
Qed.

Lemma dist_facts d : 0 ≤ d < 2 ^ 15 → let c := d_code d in
  let e := if extra_dbits.[c] =? 0 then 0 else d - base_dist.[c] in
  0 ≤ c ≤ 29 ∧ dist_extra c = extra_dbits.[c] ∧ 0 ≤ extra_dbits.[c] ≤ 13 ∧ ubits extra_dbits.[c] e ∧
  dist_base c + e = d + 1.
Proof.
  intros H c e. destruct (dist_checks d H) as (lo & hi & Hf & Hr). unfold dist_fits in Hf. fold c in Hf.
  repeat (apply andb_true_iff in Hf as [Hf ?]). unfold ubits, e. destruct (Z.eqb_spec extra_dbits.[c] 0) as [E|E]; [|lia].
  rewrite E in *. lia.
Qed.

Section Block.
  Context (lt dt : list ct_data) (ll : list Z) (nl : Z) (ld : list Z) (nd : Z) (ml md : Z)
    (Hl : encodes lt ll nl ml) (Hd : encodes dt ld nd md) (Hml : 257 ≤ ml ≤ 286) (Hmd : 0 ≤ md ≤ 30).

(** Every symbol has a code in the trees. *)
Definition sym_coded (x : lzsym) : Prop :=
  sym_ok x ∧ ll_sym x < ml ∧ Len lt.[ll_sym x] ≠ 0 ∧ (x.1 ≠ 0 → dist_sym x < md ∧ Len dt.[dist_sym x] ≠ 0).

Lemma ll_sym_nonneg x : sym_ok x → 0 ≤ ll_sym x.
Proof.
  intros [_ Hb]. unfold ll_sym, len_sym. destruct (x.1 =? 0); [unfold ubits in Hb; lia|].
  destruct (len_facts x.2 Hb) as [? _]. unfold LITERALS. lia.
Qed.

Lemma opt_field_ok v n : 0 ≤ n ≤ 16 → ubits n (if n =? 0 then 0 else v) → Forall field_ok (opt_field v n).
Proof.
  intros Hn Hv. unfold opt_field, c_true. destruct (n =? 0); [constructor|]. by apply Forall_singleton.
Qed.

Lemma sym_fields_ok x : sym_coded x → Forall field_ok (sym_fields lt dt x).
Proof.
  intros (Hok & Hm & Hc & Hdc). pose proof (ll_sym_nonneg x Hok) as Hn. destruct Hok as [H1 H2].
  unfold sym_fields, ll_sym in *. destruct (Z.eqb_spec x.1 0) as [E|E].
  { apply Forall_singleton. apply (code_field_ok lt ll nl ml Hl); [lia|done]. }
  destruct (Hdc E) as [Hm' Hc']. destruct (len_facts x.2 H2) as (L1 & L2 & L3 & L4 & L5).
  destruct (dist_facts (x.1 - 1) ltac:(lia)) as (D1 & D2 & D3 & D4 & D5). unfold dist_sym in *.
  constructor; [apply (code_field_ok lt ll nl ml Hl); [lia|done]|]. apply Forall_app. split; [by apply opt_field_ok; [lia|]|].
  constructor; [apply (code_field_ok dt ld nd md Hd); [lia|done]|]. by apply opt_field_ok; [lia|].
Qed.

Lemma syms_fields_ok l : Forall sym_coded l → Forall field_ok (syms_fields lt dt l).
Proof.
  induction 1 as [|x l Hx _ IH]; [constructor|]. change (syms_fields lt dt (x :: l)) with (sym_fields lt dt x ++ syms_fields lt dt l).
  apply Forall_app. split; [by apply sym_fields_ok|done].
Qed.

(** ** Decoding *)

Lemma get_opt v n s : 0 ≤ n → ubits n (if n =? 0 then 0 else v) → 0 ≤ avail s →
  get n (feed (opt_field v n) s) = Ok (if n =? 0 then 0 else v) s.
Proof.
  intros Hn Hv Hs. unfold opt_field, c_true. destruct (Z.eqb_spec n 0) as [->|]; cbn [negb].
  - unfold get, dropped. simpl. destruct (Z.ltb_spec (avail s) 0); [lia|]. destruct s as [v' a]. simpl.
    rewrite Z.mod_1_r, Z.div_1_r, Z.sub_0_r. done.
  - apply (get_pre n v s); done.
Qed.

Lemma sym_decoded x h s : sym_coded x → x.1 ≤ zlen h → 0 ≤ avail s →
  code_step ll nl ld nd h (feed (sym_fields lt dt x) s) = Ok (Some (sym_bytes x h)) s.
Proof.
  intros (Hok & Hm & Hc & Hdc) Hh Hs. pose proof (ll_sym_nonneg x Hok) as Hn. destruct Hok as [H1 H2].
  unfold sym_fields, sym_bytes, ll_sym in *. unfold code_step, mbind, P_bind.
  destruct (Z.eqb_spec x.1 0) as [E|E].
  { rewrite (symbol_feed lt ll nl ml Hl) by (done || lia). destruct (Z.ltb_spec x.2 256); [done|]. unfold ubits in H2. lia. }
  destruct (Hdc E) as [Hm' Hc']. destruct (len_facts x.2 H2) as (L1 & L2 & L3 & L4 & L5).
  destruct (dist_facts (x.1 - 1) ltac:(lia)) as (D1 & D2 & D3 & D4 & D5). unfold dist_sym in *.
  unfold ubits in H2.
  match goal with |- context [feed (?a :: ?b ++ ?c :: ?d) s] =>
    change (a :: b ++ c :: d) with ([a] ++ b ++ [c] ++ d); rewrite !feed_app end.
  assert (Forall field_ok [code_field dt (d_code (x.1 - 1))]) as Hfd.
  { apply Forall_singleton. apply (code_field_ok dt ld nd md Hd); [lia|done]. }
  set (s3 := feed (opt_field (x.1 - 1 - _) _) s).
  assert (0 ≤ avail s3) as Hs3.
  { unfold s3. assert (Forall field_ok (opt_field (x.1 - 1 - base_dist.[d_code (x.1 - 1)]) extra_dbits.[d_code (x.1 - 1)])) as Hf
      by (apply opt_field_ok; [lia|exact D4]). rewrite avail_feed by done. pose proof (fbits_nonneg _ Hf). lia. }
  set (s2 := feed [code_field dt _] s3).
  assert (0 ≤ avail s2) as Hs2.
  { unfold s2. rewrite avail_feed by done. pose proof (fbits_nonneg _ Hfd). lia. }
  set (s1 := feed (opt_field (x.2 - _) _) s2).
  assert (0 ≤ avail s1) as Hs1.
  { unfold s1. assert (Forall field_ok (opt_field (x.2 - base_length.[_length_code.[x.2]]) extra_lbits.[_length_code.[x.2]])) as Hf
      by (apply opt_field_ok; [lia|exact L4]). rewrite avail_feed by done. pose proof (fbits_nonneg _ Hf). lia. }
  rewrite (symbol_feed lt ll nl ml Hl) by (done || lia). unfold len_sym, LITERALS in *.
  set (y := _length_code.[x.2] + 256 + 1) in *.
  destruct (Z.ltb_spec y 256); [lia|]. destruct (Z.eqb_spec y 256); [lia|]. destruct (Z.ltb_spec 285 y); [lia|].
  rewrite L2. unfold s1. rewrite get_opt by (done || lia). unfold s2.
  rewrite (symbol_feed dt ld nd md Hd) by (done || lia). destruct (Z.ltb_spec 29 (d_code (x.1 - 1))); [lia|].
  rewrite D2. unfold s3. rewrite get_opt by (done || lia). rewrite D5, L5.
  replace (x.1 - 1 + 1) with x.1 by lia. by destruct (Z.ltb_spec (zlen h) x.1); [lia|].
Qed.

Lemma end_decoded h s : Len lt.[END_BLOCK] ≠ 0 → 0 ≤ avail s →
  code_step ll nl ld nd h (feed [code_field lt END_BLOCK] s) = Ok None s.
Proof.
  intros Hc Hs. unfold code_step, mbind, P_bind.
  rewrite (symbol_feed lt ll nl ml Hl); [done|unfold END_BLOCK; lia|done|done].
Qed.

Lemma block_decoded l hist out s : Forall sym_coded l → reaches (hist ++ out) l → Len lt.[END_BLOCK] ≠ 0 → 0 ≤ avail s →
  codes ll nl ld nd hist out (feed (block_fields lt dt l) s) = Done (out ++ play (hist ++ out) l) s.
Proof.
  intros Hc. revert out. induction Hc as [|x l Hx Hc IH]; intros out Hr He Hs.
  - unfold block_fields. simpl app. rewrite codes_eq.
    + rewrite end_decoded by done. by rewrite app_nil_r.
    + assert (Forall field_ok [code_field lt END_BLOCK]) as Hf.
      { apply Forall_singleton. apply (code_field_ok lt ll nl ml Hl); [unfold END_BLOCK; lia|done]. }
      rewrite avail_feed by done. pose proof (fbits_nonneg _ Hf). lia.
  - destruct Hr as [Hr1 Hr2].
    change (block_fields lt dt (x :: l)) with ((sym_fields lt dt x ++ syms_fields lt dt l) ++ [code_field lt END_BLOCK]).
    rewrite <-app_assoc, feed_app. change (syms_fields lt dt l ++ _) with (block_fields lt dt l).
    assert (Forall field_ok (block_fields lt dt l)) as Hf.
    { apply Forall_app. split; [by apply syms_fields_ok|]. apply Forall_singleton.
      apply (code_field_ok lt ll nl ml Hl); [unfold END_BLOCK; lia|done]. }
    assert (0 ≤ avail (feed (block_fields lt dt l) s)) as Ha.
    { rewrite avail_feed by done. pose proof (fbits_nonneg _ Hf). lia. }
    pose proof (sym_fields_ok x Hx) as Hfx.
    rewrite codes_eq; [|rewrite avail_feed by done; pose proof (fbits_nonneg _ Hfx); lia].
    rewrite sym_decoded by done. rewrite IH; [|by rewrite app_assoc|done|done].
    simpl. by rewrite !app_assoc.
Qed.

(** ** Sending *)

(** [d_buf] and [l_buf] hold the symbols [l]. *)
Record tallied (s : deflate_state) (l : list lzsym) : Prop := {
  ta_last : last_lit s = zlen l;
  ta_size : zlen (pending_buf s) = 4 * lit_bufsize s;
  ta_room : zlen l < lit_bufsize s;
  ta_d : ∀ k, 0 ≤ k < zlen l → d_buf s k = l.[k].1;
  ta_l : ∀ k, 0 ≤ k < zlen l → l_buf s k = l.[k].2;
}.

(** The output stays below an entry of [d_buf] until the entry is read. *)
Definition fits (s : deflate_state) (l : list lzsym) : Prop :=
  ∀ k, 0 ≤ k < zlen l →
    (8 * pending s + bi_valid s + fbits (syms_fields lt dt (take (Z.to_nat k) l))) / 8 ≤ d_at s k.

Lemma emits_frame s s' fs : emits s s' fs →
  lit_bufsize s' = lit_bufsize s ∧ last_lit s' = last_lit s.
Proof. intros [(b & p & c & v & ->) _ _ _ _ _ _]. done. Qed.

Lemma emits_opt s v n : writer_ok s → 0 ≤ n ≤ 16 → ubits n (if n =? 0 then 0 else v) → n ≤ room s →
  emits s (if c_true n then send_bits s v n else s) (opt_field v n).
Proof.
  intros Hs Hn Hv Hr. unfold opt_field, c_true. destruct (Z.eqb_spec n 0); cbn [negb]; [by apply emits_refl|].
  apply send_bits_ok; [done|by split|done].
Qed.

Lemma fbits_opt v n : fbits (opt_field v n) = n.
Proof. unfold opt_field, c_true. destruct (Z.eqb_spec n 0); cbn [negb]; [by subst|]. cbn [fbits foldr snd]. lia. Qed.

Lemma aget_bytes (l : list Z) i : bytes l → 0 ≤ i < zlen l → byte l.[i].
Proof. intros. by apply Forall_aget. Qed.

Lemma compress_step_ok s x lx : sym_coded x → writer_ok s → d_buf s lx = x.1 → l_buf s lx = x.2 →
  fbits (sym_fields lt dt x) ≤ room s →
  ∃ s', compress_step lt dt (s, lx) = (s', lx + 1) ∧ emits s s' (sym_fields lt dt x).
Proof.
  intros (Hok & Hm & Hc & Hdc) Hs Ed El Hr. pose proof (ll_sym_nonneg x Hok) as Hn. destruct Hok as [H1 H2].
  unfold compress_step. rewrite Ed, El. unfold sym_fields, ll_sym in *.
  destruct (Z.eqb_spec x.1 0) as [E|E].
  { eexists. split; [done|]. eapply (send_code_ok lt ll nl ml Hl); [done|lia|done|]. cbn [fbits foldr snd code_field] in Hr. lia. }
  destruct (Hdc E) as [Hm' Hc']. destruct (len_facts x.2 H2) as (L1 & L2 & L3 & L4 & L5).
  destruct (dist_facts (x.1 - 1) ltac:(lia)) as (D1 & D2 & D3 & D4 & D5). unfold dist_sym in *.
  rewrite fbits_cons, fbits_app, fbits_cons, !fbits_opt in Hr. cbn [snd code_field] in Hr.
  pose proof (encodes_len lt ll nl ml Hl (len_sym x) ltac:(lia)) as Hl0.
  pose proof (encodes_len dt ld nd md Hd (d_code (x.1 - 1)) ltac:(lia)) as Hd0.
  rewrite !(wrap_small 32 (x.1 - 1)) by (unfold ubits; lia).
  fold (len_sym x).
  eexists. split; [reflexivity|].
  match goal with |- emits _ _ (?a :: ?b ++ ?c :: ?d) => change (a :: b ++ c :: d) with ([a] ++ b ++ [c] ++ d) end.
  pose proof (send_code_ok lt ll nl ml Hl s (len_sym x) Hs ltac:(lia) Hc ltac:(lia)) as E1.
  set (s1 := send_code s (len_sym x) lt) in *.
  eapply emits_trans; [done|exact E1|]. pose proof (emits_room _ _ _ E1) as R1. rewrite fbits_cons in R1.
  cbn [snd code_field] in R1. change (fbits []) with 0 in R1. pose proof (em_ok _ _ _ E1) as O1.
  assert (emits s1 (if c_true extra_lbits.[_length_code.[x.2]]
    then send_bits s1 (x.2 - base_length.[_length_code.[x.2]]) extra_lbits.[_length_code.[x.2]] else s1)
    (opt_field (x.2 - base_length.[_length_code.[x.2]]) extra_lbits.[_length_code.[x.2]])) as E2
    by (apply emits_opt; [done|lia|exact L4|lia]).
  set (s2 := if c_true extra_lbits.[_length_code.[x.2]] then send_bits s1 _ _ else s1) in *.
  eapply emits_trans; [done|exact E2|]. pose proof (emits_room _ _ _ E2) as R2. rewrite fbits_opt in R2.
  pose proof (em_ok _ _ _ E2) as O2.
  pose proof (send_code_ok dt ld nd md Hd s2 (d_code (x.1 - 1)) O2 ltac:(lia) Hc' ltac:(lia)) as E3.
  set (s3 := send_code s2 (d_code (x.1 - 1)) dt) in *.
  eapply emits_trans; [done|exact E3|]. pose proof (emits_room _ _ _ E3) as R3. rewrite fbits_cons in R3.
  cbn [snd code_field] in R3. change (fbits []) with 0 in R3. pose proof (em_ok _ _ _ E3) as O3.
  assert (extra_dbits.[d_code (x.1 - 1)] ≠ 0 → u32 (x.1 - 1 - base_dist.[d_code (x.1 - 1)])
    = x.1 - 1 - base_dist.[d_code (x.1 - 1)]) as Eu.
  { intros Ez. destruct (Z.eqb_spec extra_dbits.[d_code (x.1 - 1)] 0); [done|]. apply wrap_small.
    eapply ubits_mono; [|exact D4]. lia. }
  assert ((if c_true extra_dbits.[d_code (x.1 - 1)] then send_bits s3 (u32 (x.1 - 1 - base_dist.[d_code (x.1 - 1)])) extra_dbits.[d_code (x.1 - 1)] else s3)
    =@{deflate_state} (if c_true extra_dbits.[d_code (x.1 - 1)] then send_bits s3 (x.1 - 1 - base_dist.[d_code (x.1 - 1)]) extra_dbits.[d_code (x.1 - 1)] else s3)) as ->.
  { unfold c_true. destruct (Z.eqb_spec extra_dbits.[d_code (x.1 - 1)] 0); cbn [negb]; [done|]. by rewrite Eu. }
  apply emits_opt; [done|lia|done|lia].
Qed.

Lemma syms_fields_snoc l x : syms_fields lt dt (l ++ [x]) = syms_fields lt dt l ++ sym_fields lt dt x.
Proof. unfold syms_fields. rewrite map_app, concat_app. simpl. by rewrite app_nil_r. Qed.

Lemma fields_split l k : 0 ≤ k ≤ zlen l →
  syms_fields lt dt l = syms_fields lt dt (take (Z.to_nat k) l) ++ syms_fields lt dt (drop (Z.to_nat k) l).
Proof.
  intros Hk. unfold syms_fields. rewrite <-concat_app, <-map_app, take_drop. done.
Qed.

Lemma compress_block_ok s l : tallied s l → Forall sym_coded l → Len lt.[END_BLOCK] ≠ 0 → writer_ok s → fits s l →
  fbits (block_fields lt dt l) ≤ room s → emits s (compress_block s lt dt) (block_fields lt dt l).
Proof.
  intros [T1 T2 T3 T4 T5] Hc He Hs Hf Hr. pose proof (zlen_nonneg l) as Hz0.
  assert (Forall field_ok [code_field lt END_BLOCK]) as Hfe.
  { apply Forall_singleton. apply (code_field_ok lt ll nl ml Hl); [unfold END_BLOCK; lia|done]. }
  assert (∀ k, 0 ≤ k ≤ zlen l → fbits (syms_fields lt dt (take (Z.to_nat k) l)) ≤ fbits (syms_fields lt dt l)) as Hpre.
  { intros k Hk. rewrite (fields_split l k Hk), fbits_app.
    pose proof (fbits_nonneg _ (syms_fields_ok (drop (Z.to_nat k) l) ltac:(by apply Forall_drop))). lia. }
  unfold block_fields in Hr |- *. rewrite fbits_app in Hr. pose proof (fbits_nonneg _ Hfe) as Hfe0.
  assert (∀ s' k, 0 ≤ k < zlen l → emits s s' (syms_fields lt dt (take (Z.to_nat k) l)) →
    ∃ s2, compress_step lt dt (s', k) = (s2, k + 1) ∧ emits s s2 (syms_fields lt dt (take (Z.to_nat (k + 1)) l))) as Hstep.
  { intros s' k Hk Hem. pose proof (emits_pending _ _ _ Hem) as Hp. specialize (Hf k Hk).
    destruct (emits_frame _ _ _ Hem) as [Hlb _].
    assert (pending s' ≤ d_at s k) as Hpk.
    { etransitivity; [|exact Hf]. apply Z.div_le_lower_bound; lia. }
    assert (sym_coded l.[k]) as Hx by (by apply Forall_aget).
    pose proof (Hpre (k + 1) ltac:(lia)) as Hp1.
    assert (syms_fields lt dt (take (Z.to_nat (k + 1)) l)
      = syms_fields lt dt (take (Z.to_nat k) l) ++ sym_fields lt dt l.[k]) as Es
      by (by rewrite take_succ_aget, syms_fields_snoc by done).
    rewrite Es in *. rewrite fbits_app in Hp1.
    destruct (compress_step_ok s' l.[k] k) as (s2 & E & Hem2).
    - done.
    - apply Hem.
    - rewrite <-T4 by done. unfold d_buf, d_at in *. rewrite Hlb, !(em_tail _ _ _ Hem) by lia. done.
    - rewrite <-T5 by done. unfold l_buf, l_at, d_at in *. rewrite Hlb, (em_tail _ _ _ Hem) by lia. done.
    - rewrite (emits_room _ _ _ Hem). lia.
    - exists s2. split; [done|]. by apply (emits_trans s s'). }
  assert (∃ s' lx, (if c_true (last_lit s) then while (Z.to_nat (last_lit s)) (λ '(s, lx), lx <? last_lit s)
      (compress_step lt dt) (compress_step lt dt (s, 0)) else (s, 0)) = (s', lx) ∧ emits s s' (syms_fields lt dt l))
    as (s' & lx & E & Hem).
  { unfold c_true. destruct (Z.eqb_spec (last_lit s) 0) as [E0|E0]; cbn [negb].
    { assert (l = []) as -> by (destruct l; [done|]; rewrite T1, zlen_cons in E0; pose proof (zlen_nonneg l); lia).
      exists s, 0. split; [done|]. by apply emits_refl. }
    destruct (Hstep s 0 ltac:(lia) ltac:(by apply emits_refl)) as (s1 & E1 & Hem1). rewrite E1.
    destruct (while_rule (λ '(s', k), 1 ≤ k ≤ zlen l ∧ emits s s' (syms_fields lt dt (take (Z.to_nat k) l)))
      (λ '(_, k), Z.to_nat (zlen l - k)) (Z.to_nat (last_lit s)) (λ '(s, lx), lx <? last_lit s) (compress_step lt dt) (s1, 0 + 1))
      as [Hend Hstop].
    - intros [s' k] [Hk Hem'] Hc'%Z.ltb_lt. destruct (emits_frame _ _ _ Hem') as [_ Hll]. rewrite Hll, T1 in Hc'.
      destruct (Hstep s' k ltac:(lia) Hem') as (s2 & -> & Hem2). split; [split; [lia|done]|lia].
    - split; [lia|done].
    - lia.
    - destruct (while _ _ _ _) as [s' k]. exists s', k. split; [done|]. destruct Hend as [Hk Hem'].
      apply Z.ltb_ge in Hstop. destruct (emits_frame _ _ _ Hem') as [_ Hll]. rewrite Hll, T1 in Hstop.
      assert (k = zlen l) as -> by lia. unfold zlen in Hem'. rewrite Nat2Z.id, firstn_all in Hem'. done. }
  unfold compress_block. rewrite E. eapply emits_trans; [done|exact Hem|].
  eapply (send_code_ok lt ll nl ml Hl); [apply Hem|unfold END_BLOCK; lia|done|].
  rewrite (emits_room _ _ _ Hem). rewrite fbits_cons in Hr. cbn [snd code_field] in Hr. change (fbits []) with 0 in Hr. lia.
Qed.

End Block.

End CompressBlock.
