(* ===== verification/BlockTrees.v ===== *)
(** * zlib/trees.c: the trees of a block and the header that sends them

    build_bl_tree gives a code to every bit length code the two trees need;
    send_all_trees writes the counts, the lengths of that code and the runs of
    lengths, and the decoder of RFC 1951 reads the lengths of both trees. *)

From S2P Require Import Prelude Slices Inftrees InftreesDecode Rfc1951 Symbols TreesTables Trees BitWriter HuffCodes HuffTree BitLengths BuildTree SendTree.

Module BlockTrees.
Import Inftrees Rfc1951 Symbols Trees BitWriter HuffCodes HuffTree BuildTree SendTree.

(** ** Trees with a guard *)

(** The entries below [m] are the same. *)
Lemma encodes_same t t' lens n m : (∀ y, 0 ≤ y < m → Len t'.[y] = Len t.[y] ∧ Code t'.[y] = Code t.[y]) →
  encodes t lens n m → encodes t' lens n m.
Proof.
  intros Hs [H1 H2 H3 H4 H5]. constructor; [done..| |].
  - intros y Hy. destruct (Hs y Hy) as [-> _]. by apply H4.
  - intros y Hy. destruct (Hs y Hy) as [-> ->]. by apply H5.
Qed.

(** A code tree ready to be sent: lengths up to [mc], then the guard. *)
Record guarded (t : list ct_data) (mc n : Z) : Prop := {
  gd_mc : 1 ≤ mc < n;
  gd_size : n < zlen t;
  gd_range : ∀ i, 0 ≤ i ≤ mc → 0 ≤ Len t.[i] ≤ 15;
  gd_last : Len t.[mc] ≠ 0;
  gd_guard : Len t.[mc + 1] = 0xffff;
  gd_kraft : kraft (tlens t (mc + 1)) (mc + 1) = 2 ^ 15;
  gd_codes : encodes t (tlens t (mc + 1)) (mc + 1) (mc + 1);
}.

Lemma guard_tree d t mc : desc_ok d → coded d t mc → elems d < zlen t →
  let t' := set_len t (mc + 1) 0xffff in
  guarded t' mc (elems d) ∧ zlen t' = zlen t ∧ ∀ i, 0 ≤ i ≤ mc → Len t'.[i] = Len t.[i].
Proof.
  intros Hd [H1 H2 H3 H4 H5 H6] Hz t'. pose proof Hd as (_ & HL & _).
  assert (∀ y, 0 ≤ y < mc + 1 → Len t'.[y] = Len t.[y] ∧ Code t'.[y] = Code t.[y]) as Hs.
  { intros y Hy. unfold t', set_len. by rewrite aget_aset_ne by lia. }
  assert (tlens t' (mc + 1) = tlens t (mc + 1)) as Et.
  { unfold tlens. apply map_ext_in. intros x Hx%list_elem_of_In%elem_of_seqZ. apply Hs. lia. }
  split; [|split; [apply zlen_set_len|intros i Hi; apply Hs; lia]]. constructor; rewrite ?Et; try done.
  - unfold t'. by rewrite zlen_set_len.
  - intros i Hi. destruct (Hs i ltac:(lia)) as [-> _]. specialize (H2 i ltac:(lia)). lia.
  - destruct (Hs mc ltac:(lia)) as [-> _]. done.
  - unfold t'. rewrite dad_set_len, decide_True by (done || lia). done.
  - by apply (encodes_same t).
Qed.

Lemma guarded_runs t mc n : guarded t mc n →
  runs_ok (-1) (run_list t mc) ∧ expansion (run_list t mc) = tlens t (mc + 1) ∧
  ∀ r, r ∈ run_list t mc → 0 ≤ r_len r ≤ 15.
Proof.
  intros [H1 H2 H3 H4 H5 _ _]. destruct (run_list_ok t mc ltac:(lia) H3 H5) as [A B].
  split; [done|]. split; [done|]. apply (run_lens t mc); [lia|done|done].
Qed.

(** Some length that is not 0 is sent as such. *)
Lemma nonzero_sent p l : p ≤ 0 → runs_ok p l → (∀ r, r ∈ l → 0 ≤ r_len r ≤ 15) → (∃ r, r ∈ l ∧ r_len r ≠ 0) →
  ∃ y, y ∈ tree_syms l ∧ 1 ≤ y ≤ 15.
Proof.
  revert p. induction l as [|r l IH]; intros p Hp Hok Hl (x & Hx & Hx0); [by apply elem_of_nil in Hx|].
  destruct Hok as [(Hrp & H1 & Hc & Hm) Hok]. pose proof (Hl r ltac:(by left)) as Hr.
  change (tree_syms (r :: l)) with (run_syms r ++ tree_syms l).
  destruct (decide (r_len r = 0)) as [E|E].
  - apply elem_of_cons in Hx as [->|Hx]; [done|].
    destruct (IH (r_len r)) as (y & Hy & ?); [lia|done|intros z Hz; apply Hl; by right|by exists x|].
    exists y. split; [apply elem_of_app; by right|done].
  - exists (r_len r). split; [|lia]. apply elem_of_app. left. unfold run_syms.
    destruct (Z.ltb_spec (r_count r) (r_min r)).
    + unfold expand. apply elem_of_replicate. split; [done|lia].
    + unfold c_true. destruct (Z.eqb_spec (r_len r) 0); [done|]. cbn [negb].
      destruct (Z.eqb_spec (r_len r) (r_prev r)); [lia|]. apply elem_of_app. left. by left.
Qed.

(** ** The code for the lengths *)

Record trees_ready (s : deflate_state) (mb : Z) : Prop := {
  tr_l : guarded (dyn_ltree s) (l_max_code s) L_CODES;
  tr_lmax : 256 ≤ l_max_code s;
  tr_lend : Len (dyn_ltree s).[END_BLOCK] ≠ 0;
  tr_d : guarded (dyn_dtree s) (d_max_code s) D_CODES;
  tr_bl : encodes (bl_tree s) (tlens (bl_tree s) 19) 19 19;
  tr_bl_kraft : kraft (tlens (bl_tree s) 19) 19 = 2 ^ 15;
  tr_bl_size : 19 ≤ zlen (bl_tree s);
  tr_bl_range : ∀ y, 0 ≤ y < 19 → 0 ≤ Len (bl_tree s).[y] ≤ 7;
  tr_used : used (bl_tree s) (tree_syms (run_list (dyn_ltree s) (l_max_code s)) ++
                              tree_syms (run_list (dyn_dtree s) (d_max_code s)));
  tr_mb : 3 ≤ mb ≤ 18;
  tr_rest : ∀ j, mb < j ≤ 18 → Len (bl_tree s).[bl_order.[j]] = 0;
}.

Lemma bl_index (bl : list ct_data) : (∃ y, 1 ≤ y ≤ 15 ∧ Len bl.[y] ≠ 0) →
  let mb := while 19 (λ i, (3 <=? i) && (Len bl.[bl_order.[i]] =? 0)) (λ i, i - 1) (BL_CODES - 1) in
  3 ≤ mb ≤ 18 ∧ ∀ j, mb < j ≤ 18 → Len bl.[bl_order.[j]] = 0.
Proof.
  intros (y & Hy & Hy0) mb.
  assert (∃ j, 3 ≤ j ≤ 18 ∧ bl_order.[j] = y) as (j0 & Hj0 & Ej0).
  { assert (forall_range (λ y, existsb (λ j, bl_order.[j] =? y) (seqZ 3 16)) 1 15 = true) as H by (vm_compute; reflexivity).
    apply (forall_range_spec _ _ _ y) in H; [|lia]. apply existsb_exists in H as (j & Hj%list_elem_of_In%elem_of_seqZ & E%Z.eqb_eq).
    exists j. lia. }
  destruct (while_rule (λ i, j0 ≤ i ≤ 18 ∧ ∀ j, i < j ≤ 18 → Len bl.[bl_order.[j]] = 0) Z.to_nat 19
    (λ i, (3 <=? i) && (Len bl.[bl_order.[i]] =? 0)) (λ i, i - 1) (BL_CODES - 1)) as [[H1 H2] _].
  - intros i [Hi Hz] [Hc1%Z.leb_le Hc2%Z.eqb_eq]%andb_true_iff.
    assert (i ≠ j0) by (intros ->; congruence). split; [split; [lia|]|lia].
    intros j Hj. destruct (decide (j = i)) as [->|]; [done|]. apply Hz. lia.
  - unfold BL_CODES. split; [lia|]. intros. lia.
  - unfold BL_CODES. lia.
  - fold mb in H1, H2. split; [lia|done].
Qed.

Lemma build_bl_tree_spec s : coded static_l_desc (dyn_ltree s) (l_max_code s) → coded static_d_desc (dyn_dtree s) (d_max_code s) →
  L_CODES < zlen (dyn_ltree s) → D_CODES < zlen (dyn_dtree s) → 38 ≤ zlen (bl_tree s) → workspace_ok (ws s) →
  256 ≤ l_max_code s → Len (dyn_ltree s).[END_BLOCK] ≠ 0 →
  (∀ y, 0 ≤ y < 19 → Freq (bl_tree s).[y] = 0) →
  let '(s', mb) := build_bl_tree s in
  trees_ready s' mb ∧ workspace_ok (ws s') ∧ zlen (bl_tree s') = zlen (bl_tree s) ∧
  l_max_code s' = l_max_code s ∧ d_max_code s' = d_max_code s ∧
  zlen (dyn_ltree s') = zlen (dyn_ltree s) ∧ zlen (dyn_dtree s') = zlen (dyn_dtree s) ∧
  (∀ i, 0 ≤ i ≤ l_max_code s → Len (dyn_ltree s').[i] = Len (dyn_ltree s).[i]) ∧
  (∀ i, 0 ≤ i ≤ d_max_code s → Len (dyn_dtree s').[i] = Len (dyn_dtree s).[i]).
Proof.
  intros Cl Cd Zl Zd Zb Hw Hlm Hend Hf.
  destruct (guard_tree static_l_desc _ _ desc_l_ok Cl Zl) as (Gl & Zl' & Sl).
  destruct (guard_tree static_d_desc _ _ desc_d_ok Cd Zd) as (Gd & Zd' & Sd).
  unfold build_bl_tree, scan_tree. 
  set (lt := set_len (dyn_ltree s) _ _) in *. set (dt := set_len (dyn_dtree s) _ _) in *.
  destruct (guarded_runs _ _ _ Gl) as (Rl & El & Ll). destruct (guarded_runs _ _ _ Gd) as (Rd & Ed & Ld).
  rewrite !(runs_foldl (scan_run : Z → Z → Z → Z → list ct_data → list ct_data)).
  assert (freqs_ok (bl_tree s) 0) as F0 by (split; [lia|]; intros y Hy; rewrite Hf by done; lia).
  assert (zlen (expansion (run_list lt (l_max_code s))) = l_max_code s + 1) as Xl
    by (rewrite El, zlen_tlens; [done|destruct Gl; lia]).
  assert (zlen (expansion (run_list dt (d_max_code s))) = d_max_code s + 1) as Xd
    by (rewrite Ed, zlen_tlens; [done|destruct Gd; lia]).
  assert (l_max_code s < 286) as Hl286 by (destruct Gl as [H _ _ _ _ _ _]; simpl in H; unfold L_CODES, LITERALS, LENGTH_CODES in H; lia).
  assert (d_max_code s < 30) as Hd30 by (destruct Gd as [H _ _ _ _ _ _]; simpl in H; unfold D_CODES in H; lia).
  destruct (scan_runs_ok (-1) _ (bl_tree s) 0 Rl Ll F0 ltac:(lia)) as [F1 B1].
  set (bl1 := foldl _ (bl_tree s) _) in *.
  destruct (scan_runs_ok (-1) _ bl1 _ Rd Ld F1 ltac:(lia)) as [F2 B2].
  set (bl2 := foldl _ bl1 _) in *.
  assert (zlen bl2 = zlen (bl_tree s)) as Zb2.
  { unfold bl2, bl1. rewrite !scan_foldl_size. done. }
  pose proof (build_tree_spec static_bl_desc desc_bl_ok bl2 (ws s)) as HB. simpl elems in HB. unfold BL_CODES in HB at 1.
  specialize (HB ltac:(lia) Hw). destruct (build_tree static_bl_desc bl2 (ws s)) as [[bl w] mc].
  destruct HB as (Cb & Hw' & Zb' & Hused). simpl elems in Hused.
  destruct (coded_all static_bl_desc bl mc desc_bl_ok Cb) as [Eb Kb]. simpl elems in Eb, Kb. unfold BL_CODES in *.
  assert (used bl (tree_syms (run_list lt (l_max_code s)) ++ tree_syms (run_list dt (d_max_code s)))) as Hu.
  { intros y Hy. assert (0 ≤ y < 19) as Hy19.
    { apply elem_of_app in Hy as [Hy|Hy]; [by apply (tree_syms_range _ y Ll)|by apply (tree_syms_range _ y Ld)]. }
    split; [done|]. apply Hused; [done|]. rewrite B2, B1, Hf by done.
    pose proof (countb_nonneg (λ x, x =? y) (tree_syms (run_list lt (l_max_code s)))).
    pose proof (countb_nonneg (λ x, x =? y) (tree_syms (run_list dt (d_max_code s)))). unfold occurs in *.
    apply elem_of_app in Hy as [Hy|Hy]; apply occurs_pos in Hy; unfold occurs in Hy; lia. }
  assert (∃ y, 1 ≤ y ≤ 15 ∧ Len bl.[y] ≠ 0) as Hnz.
  { destruct (nonzero_sent (-1) (run_list lt (l_max_code s))) as (y & Hy & Hy15); [lia|done|done| |].
    - destruct (decide (Exists (λ r, r_len r ≠ 0) (run_list lt (l_max_code s)))) as [He|Hn].
      + apply Exists_exists in He as (r & ? & ?). by exists r.
      + exfalso. assert (∀ z, z ∈ expansion (run_list lt (l_max_code s)) → z = 0) as Hz.
        { intros z Hz. unfold expansion in Hz. apply list_elem_of_In, in_concat in Hz as (k & Hk & Hz).
          apply in_map_iff in Hk as (r & <- & Hr%list_elem_of_In). apply list_elem_of_In in Hz. unfold expand in Hz.
          apply elem_of_replicate in Hz as [-> _]. destruct (decide (r_len r = 0)); [done|].
          exfalso. apply Hn, Exists_exists. by exists r. }
        apply Hend. assert (Len (dyn_ltree s).[END_BLOCK] = Len lt.[END_BLOCK]) as -> by (symmetry; apply Sl; unfold END_BLOCK; lia).
        apply Hz. rewrite El. unfold tlens. apply list_elem_of_fmap. exists END_BLOCK. split; [done|].
        apply elem_of_seqZ. unfold END_BLOCK. lia.
    - exists y. split; [done|]. apply Hu, elem_of_app. by left. }
  destruct (bl_index bl Hnz) as [Hmb Hrest]. unfold BL_CODES in Hmb, Hrest.
  split; [|split_and!; try done; simpl; lia].
  constructor; simpl; try done.
  - rewrite Sl by (unfold END_BLOCK; lia). done.
  - lia.
  - intros y Hy. destruct Cb as [_ Hr _ _ _ _]. specialize (Hr y Hy). simpl in Hr. unfold MAX_BL_BITS in Hr. lia.
Qed.

End BlockTrees.
