(* ===== verification/BlockHeader.v ===== *)
(** * zlib/trees.c: the header of a block with its own trees

    send_all_trees writes how many codes there are, the lengths of the code
    for lengths and the runs of lengths of both trees; the decoder of RFC 1951
    reads from it the lengths of both trees, and finds them acceptable. *)

From S2P Require Import Prelude Slices Inftrees InftreesDecode Rfc1951 Symbols TreesTables Trees BitWriter HuffCodes HuffTree BitLengths BuildTree SendTree BlockTrees.

Module BlockHeader.
Import Inftrees Rfc1951 Symbols Trees BitWriter HuffCodes HuffTree BuildTree SendTree BlockTrees.

(** ** Sending *)

Definition cl_fields (bl : list ct_data) (l : list Z) : list field := map (λ i, (Len bl.[i], 3)) l.

Definition header_fields (s : deflate_state) (mb : Z) : list field :=
  [(l_max_code s + 1 - 257, 5); (d_max_code s + 1 - 1, 5); (mb + 1 - 4, 4)] ++
  cl_fields (bl_tree s) (take (Z.to_nat (mb + 1)) bl_order) ++
  tree_fields (bl_tree s) (run_list (dyn_ltree s) (l_max_code s)) ++
  tree_fields (bl_tree s) (run_list (dyn_dtree s) (d_max_code s)).

Lemma zlen_bl_order : zlen bl_order = 19.
Proof. done. Qed.

Lemma bl_order_range i : i ∈ bl_order → 0 ≤ i < 19.
Proof.
  intros Hi. assert (Forall (λ i, 0 ≤ i < 19) bl_order) as H by (repeat constructor; lia).
  by apply (proj1 (Forall_forall _ _) H).
Qed.

Lemma cl_fields_ok bl l : (∀ y, 0 ≤ y < 19 → 0 ≤ Len bl.[y] ≤ 7) → (∀ i, i ∈ l → 0 ≤ i < 19) →
  Forall field_ok (cl_fields bl l).
Proof.
  intros Hb Hl. unfold cl_fields. apply Forall_fmap, Forall_forall. intros i Hi. specialize (Hb i (Hl i Hi)).
  split; simpl; [lia|]. unfold ubits. lia.
Qed.

Lemma take_bl_order n i : i ∈ take n bl_order → 0 ≤ i < 19.
Proof. intros Hi. apply bl_order_range. eapply elem_of_take in Hi as (j & Hj & _). by eapply list_elem_of_lookup_2. Qed.

Lemma emits_same s s' fs : emits s s' fs → bl_tree s' = bl_tree s ∧ dyn_ltree s' = dyn_ltree s ∧ dyn_dtree s' = dyn_dtree s ∧
  l_max_code s' = l_max_code s ∧ d_max_code s' = d_max_code s.
Proof. intros [(b & p & c & v & ->) _ _ _ _ _ _]. done. Qed.

Lemma emits_step s s1 s2 fs gs : writer_ok s → emits s s1 fs → (writer_ok s1 → room s1 = room s - fbits fs → emits s1 s2 gs) →
  emits s s2 (fs ++ gs).
Proof. intros Hs H1 H2. eapply emits_trans; [done|done|]. apply H2; [apply H1|by apply emits_room]. Qed.

Lemma send_lengths_ok s n : writer_ok s → 0 ≤ n ≤ 19 → (∀ y, 0 ≤ y < 19 → 0 ≤ Len (bl_tree s).[y] ≤ 7) → 3 * n ≤ room s →
  emits s (for_ 0 n (λ rank s, send_bits s (Len (bl_tree s).[bl_order.[rank]]) 3) s)
    (cl_fields (bl_tree s) (take (Z.to_nat n) bl_order)).
Proof.
  intros Hs Hn Hb Hr.
  assert (∀ l, fbits (cl_fields (bl_tree s) l) = 3 * zlen l) as Hfb.
  { intros l. induction l as [|x l IH]; [done|]. unfold cl_fields in *. cbn [map]. rewrite fbits_cons, IH, zlen_cons. simpl. lia. }
  apply (for_rule (λ i s', emits s s' (cl_fields (bl_tree s) (take (Z.to_nat i) bl_order)))); [lia|by apply emits_refl|].
  intros i s' Hi Hem. rewrite take_succ_aget by (rewrite zlen_bl_order; lia). unfold cl_fields in *. rewrite map_app.
  eapply emits_trans; [done|done|]. destruct (emits_same _ _ _ Hem) as (-> & _).
  assert (0 ≤ bl_order.[i] < 19) as Hy by (apply (Forall_aget (λ x, 0 ≤ x < 19)); [repeat constructor; lia|rewrite zlen_bl_order; lia]).
  apply send_bits_ok; [apply Hem|split; simpl; [lia|]; specialize (Hb _ Hy); unfold ubits; lia|].
  rewrite (emits_room _ _ _ Hem), Hfb. unfold zlen. rewrite length_take. lia.
Qed.

Section Header.
  Context (s : deflate_state) (mb : Z) (Ht : trees_ready s mb) (Hs : writer_ok s).
  Abbreviation bl := (bl_tree s).
  Abbreviation rl := (run_list (dyn_ltree s) (l_max_code s)).
  Abbreviation rd := (run_list (dyn_dtree s) (d_max_code s)).

Lemma used_both : used bl (tree_syms rl) ∧ used bl (tree_syms rd).
Proof.
  destruct Ht as [_ _ _ _ _ _ _ _ Hu _ _]. split; intros y Hy; apply Hu, elem_of_app; [by left|by right].
Qed.

Lemma tree_fields_ok p l : runs_ok p l → used bl (tree_syms l) → (∀ r, r ∈ l → 0 ≤ r_len r ≤ 15) →
  Forall field_ok (tree_fields bl l).
Proof.
  intros Hok Hu Hl. destruct Ht as [_ _ _ _ He _ _ _ _ _ _]. revert p Hok. induction l as [|r l IH]; intros p Hok; [constructor|].
  destruct Hok as [(Hp & H1 & Hc & Hm) Hok]. rewrite tree_fields_cons. apply Forall_app. split.
  2: { eapply IH; [|intros x Hx; apply Hl; by right|exact Hok]. intros y Hy. apply Hu, elem_of_app. by right. }
  assert (used bl (run_syms r)) as Hur by (intros y Hy; apply Hu, elem_of_app; by left).
  assert (∀ y, y ∈ run_syms r → field_ok (code_field bl y)) as Hf.
  { intros y Hy. destruct (Hur y Hy). by apply (code_field_ok bl _ 19 19 He). }
  clear -Hf H1 Hc Hm Hp. unfold run_fields, run_syms, expand in *. destruct (Z.ltb_spec (r_count r) (r_min r)).
  { apply Forall_replicate, Hf, elem_of_replicate. split; [done|lia]. }
  unfold c_true in *. destruct (Z.eqb_spec (r_len r) 0); cbn [negb] in *.
  - destruct (Z.leb_spec (r_count r) 10); (constructor; [apply Hf; by left|]); apply Forall_singleton; split; simpl; unfold ubits; lia.
  - destruct (Z.eqb_spec (r_len r) (r_prev r)).
    + constructor; [apply Hf; by left|]. apply Forall_singleton. split; simpl; unfold ubits; lia.
    + constructor; [apply Hf; by left|]. constructor; [apply Hf; right; by left|].
      apply Forall_singleton. split; simpl; unfold ubits; lia.
Qed.

Lemma header_parts : Forall field_ok (header_fields s mb) ∧
  runs_ok (-1) rl ∧ expansion rl = tlens (dyn_ltree s) (l_max_code s + 1) ∧ (∀ r, r ∈ rl → 0 ≤ r_len r ≤ 15) ∧
  runs_ok (-1) rd ∧ expansion rd = tlens (dyn_dtree s) (d_max_code s + 1) ∧ (∀ r, r ∈ rd → 0 ≤ r_len r ≤ 15) ∧
  Forall field_ok (tree_fields bl rl) ∧ Forall field_ok (tree_fields bl rd) ∧
  256 ≤ l_max_code s < 286 ∧ 1 ≤ d_max_code s < 30.
Proof.
  pose proof Ht as [Hl Hlm _ Hd _ _ _ Hb _ Hmb _].
  destruct (guarded_runs _ _ _ Hl) as (Rl & El & Ll). destruct (guarded_runs _ _ _ Hd) as (Rd & Ed & Ld).
  destruct used_both as [Ul Ud].
  assert (256 ≤ l_max_code s < 286) as Hl286 by (destruct Hl as [H _ _ _ _ _ _]; unfold L_CODES, LITERALS, LENGTH_CODES in H; lia).
  assert (1 ≤ d_max_code s < 30) as Hd30 by (destruct Hd as [H _ _ _ _ _ _]; unfold D_CODES in H; lia).
  pose proof (tree_fields_ok _ _ Rl Ul Ll) as Fl. pose proof (tree_fields_ok _ _ Rd Ud Ld) as Fd.
  split; [|done]. unfold header_fields. apply Forall_app. split.
  { repeat constructor; simpl; unfold ubits; lia. }
  apply Forall_app. split; [|by apply Forall_app]. apply cl_fields_ok; [done|]. intros i. apply take_bl_order.
Qed.

Lemma fbits_cl l : fbits (cl_fields bl l) = 3 * zlen l.
Proof. induction l as [|x l IH]; [done|]. unfold cl_fields in *. cbn [map]. rewrite fbits_cons, IH, zlen_cons. simpl. lia. Qed.

Lemma send_all_trees_ok : fbits (header_fields s mb) ≤ room s →
  emits s (send_all_trees s (l_max_code s + 1) (d_max_code s + 1) (mb + 1)) (header_fields s mb).
Proof.
  intros Hr. destruct header_parts as (_ & Rl & _ & _ & Rd & _ & _ & Fl & Fd & Hl286 & Hd30).
  pose proof Ht as [_ _ _ _ He _ _ Hb _ Hmb _]. destruct used_both as [Ul Ud].
  pose proof (fbits_nonneg _ Fl). pose proof (fbits_nonneg _ Fd).
  assert (zlen (take (Z.to_nat (mb + 1)) bl_order) = mb + 1) as Ez.
  { unfold zlen. rewrite length_take. change (length bl_order) with 19%nat. lia. }
  unfold header_fields in *. rewrite !fbits_app, fbits_cl, Ez in Hr. cbn [fbits foldr snd] in Hr.
  unfold send_all_trees.
  change ([?a; ?b; ?c] ++ ?x) with ([a] ++ [b] ++ [c] ++ x).
  pose proof (send_bits_ok s (l_max_code s + 1 - 257) 5 Hs ltac:(split; simpl; unfold ubits; lia) ltac:(lia)) as E1.
  set (s1 := send_bits s _ 5) in *. destruct (emits_same _ _ _ E1) as (B1 & L1 & D1 & _). pose proof (emits_room _ _ _ E1) as R1.
  cbn [fbits foldr snd] in R1.
  pose proof (send_bits_ok s1 (d_max_code s + 1 - 1) 5 (em_ok _ _ _ E1) ltac:(split; simpl; unfold ubits; lia) ltac:(lia)) as E2.
  set (s2 := send_bits s1 _ 5) in *. destruct (emits_same _ _ _ E2) as (B2 & L2 & D2 & _). pose proof (emits_room _ _ _ E2) as R2.
  cbn [fbits foldr snd] in R2.
  pose proof (send_bits_ok s2 (mb + 1 - 4) 4 (em_ok _ _ _ E2) ltac:(split; simpl; unfold ubits; lia) ltac:(lia)) as E3.
  set (s3 := send_bits s2 _ 4) in *. destruct (emits_same _ _ _ E3) as (B3 & L3 & D3 & _). pose proof (emits_room _ _ _ E3) as R3.
  cbn [fbits foldr snd] in R3.
  assert (bl_tree s3 = bl) as EB3 by congruence.
  pose proof (send_lengths_ok s3 (mb + 1) (em_ok _ _ _ E3) ltac:(lia) ltac:(by rewrite EB3) ltac:(lia)) as E4.
  rewrite EB3 in E4.
  set (s4 := for_ 0 (mb + 1) _ s3) in *. destruct (emits_same _ _ _ E4) as (B4 & L4 & D4 & _). pose proof (emits_room _ _ _ E4) as R4.
  rewrite fbits_cl, Ez in R4.
  replace (l_max_code s + 1 - 1) with (l_max_code s) by lia. replace (d_max_code s + 1 - 1) with (d_max_code s) by lia.
  replace (d_max_code s + 1 - 1) with (d_max_code s) in E2 by lia.
  assert (dyn_ltree s4 = dyn_ltree s) as -> by congruence.
  pose proof (send_tree_ok bl _ He s4 (dyn_ltree s) (l_max_code s) Rl (em_ok _ _ _ E4) ltac:(congruence) Ul ltac:(lia)) as E5.
  set (s5 := send_tree s4 _ _) in *. destruct (emits_same _ _ _ E5) as (B5 & L5 & D5 & _). pose proof (emits_room _ _ _ E5) as R5.
  assert (dyn_dtree s5 = dyn_dtree s) as -> by congruence.
  pose proof (send_tree_ok bl _ He s5 (dyn_dtree s) (d_max_code s) Rd (em_ok _ _ _ E5) ltac:(congruence) Ud ltac:(lia)) as E6.
  eapply emits_trans; [done|exact E1|]. eapply emits_trans; [apply E1|exact E2|]. eapply emits_trans; [apply E2|exact E3|].
  eapply emits_trans; [apply E3|exact E4|]. eapply emits_trans; [apply E4|exact E5|exact E6].
Qed.

(** ** Reading *)

Lemma read_cl_feed l cl r : (∀ i, i ∈ l → 0 ≤ i < 19) → (∀ y, 0 ≤ y < 19 → 0 ≤ Len bl.[y] ≤ 7) → 0 ≤ avail r →
  read_cl l cl (feed (cl_fields bl l) r) = Ok (foldl (λ c i, c.[i <- Len bl.[i]]) cl l) r.
Proof.
  intros Hl Hb Hr. revert cl. induction l as [|i l IH]; intros cl; [done|]. cbn [read_cl cl_fields map feed foldr fst snd].
  pose proof (Hb i (Hl i ltac:(by left))). fold (cl_fields bl l) (feed (cl_fields bl l) r).
  rewrite bind_pre; [|lia|unfold ubits; lia|].
  - simpl foldl. apply IH. intros j Hj. apply Hl. by right.
  - assert (Forall field_ok (cl_fields bl l)) as Hf by (apply cl_fields_ok; [done|intros j Hj; apply Hl; by right]).
    rewrite avail_feed by done. pose proof (fbits_nonneg _ Hf). lia.
Qed.

Lemma foldl_set (f : Z → Z) l (cl : list Z) : (∀ i, i ∈ l → 0 ≤ i < zlen cl) →
  zlen (foldl (λ c i, c.[i <- f i]) cl l) = zlen cl ∧
  ∀ j, 0 ≤ j → (foldl (λ c i, c.[i <- f i]) cl l).[j] = if decide (j ∈ l) then f j else cl.[j].
Proof.
  revert cl. induction l as [|i l IH]; intros cl Hl; [split; [done|]; intros j Hj; case_decide as E; [by apply elem_of_nil in E|done]|].
  simpl foldl. destruct (IH cl.[i <- f i]) as [Hz Hj]; [intros k Hk; rewrite zlen_aset; apply Hl; by right|].
  split; [by rewrite Hz, zlen_aset|]. intros j Hj0. rewrite Hj by done. pose proof (Hl i ltac:(by left)).
  destruct (decide (j ∈ l)) as [E|E]; [rewrite decide_True; [done|by right]|].
  destruct (decide (j = i)) as [->|Hne].
  - rewrite decide_True by (by left). apply aget_aset_eq. lia.
  - rewrite decide_False by (rewrite elem_of_cons; tauto). apply aget_aset_ne; lia.
Qed.

Lemma cl_read : foldl (λ c i, c.[i <- Len bl.[i]]) (replicate 19 0) (take (Z.to_nat (mb + 1)) order) = tlens bl 19.
Proof.
  pose proof Ht as [_ _ _ _ _ _ _ _ _ Hmb Hrest]. change order with bl_order.
  destruct (foldl_set (λ i, Len bl.[i]) (take (Z.to_nat (mb + 1)) bl_order) (replicate 19 0)) as [Hz Hj].
  { intros i Hi. by apply take_bl_order in Hi. }
  apply list_eq_aget; [rewrite Hz, zlen_tlens by lia; done|]. intros j Hjr. rewrite Hz in Hjr. change (zlen _) with 19 in Hjr.
  rewrite Hj, tlens_at by lia. case_decide as E; [done|].
  assert (∃ k, 0 ≤ k < 19 ∧ bl_order.[k] = j) as (k & Hk & <-).
  { assert (forall_range (λ y, existsb (λ j, bl_order.[j] =? y) (seqZ 0 19)) 0 19 = true) as H by (vm_compute; reflexivity).
    apply (forall_range_spec _ _ _ j) in H; [|lia]. apply existsb_exists in H as (k & Hk%list_elem_of_In%elem_of_seqZ & Ek%Z.eqb_eq).
    exists k. lia. }
  rewrite Hrest.
  - assert (Forall (λ x, x = 0) (replicate 19 0)) as H by (by repeat constructor).
    apply (Forall_aget _ _ _ H). change (zlen _) with 19. lia.
  - split; [|lia]. destruct (Z.lt_ge_cases mb k); [done|]. exfalso. apply E.
    assert (bl_order.[k] = (take (Z.to_nat (mb + 1)) bl_order).[k]) as ->.
    { unfold aget. rewrite !list_lookup_total_alt, lookup_take_lt by lia. done. }
    unfold aget. apply list_elem_of_lookup_total_2. rewrite length_take. change (length bl_order) with 19%nat. lia.
Qed.

Lemma complete_longest lens n : lengths_ok lens n → kraft lens n = 2 ^ 15 → longest lens n ≠ 0.
Proof.
  intros Hok Hk Hl. destruct (longest_spec lens n Hok) as (_ & _ & _ & H). rewrite Hl in H.
  destruct (InftreesDecode.kraft_zero lens n) as [Hz _]; [intros l ?; apply H; lia|]. lia.
Qed.

Lemma complete_acceptable ty lens n : kraft lens n = 2 ^ 15 → acceptable ty lens n = true.
Proof. intros Hk. unfold acceptable, accept. rewrite Hk. done. Qed.

Lemma header_decoded r : 0 ≤ avail r →
  dynamic (feed (header_fields s mb) r) =
  Ok (tlens (dyn_ltree s) (l_max_code s + 1), tlens (dyn_dtree s) (d_max_code s + 1)) r.
Proof.
  intros Hr. destruct header_parts as (_ & Rl & El & Ll & Rd & Ed & Ld & Fl & Fd & Hl286 & Hd30).
  pose proof Ht as [Hl Hlm Hend Hd He Hk _ Hb _ Hmb _]. destruct used_both as [Ul Ud].
  unfold header_fields. rewrite !feed_app.
  set (r1 := feed (tree_fields bl rd) r). set (r2 := feed (tree_fields bl rl) r1).
  assert (0 ≤ avail r1) as Hr1 by (unfold r1; rewrite avail_feed by done; pose proof (fbits_nonneg _ Fd); lia).
  assert (0 ≤ avail r2) as Hr2 by (unfold r2; rewrite avail_feed by done; pose proof (fbits_nonneg _ Fl); lia).
  assert (Forall field_ok (cl_fields bl (take (Z.to_nat (mb + 1)) bl_order))) as Fc
    by (apply cl_fields_ok; [done|intros i; apply take_bl_order]).
  set (r3 := feed (cl_fields _ _) r2).
  assert (0 ≤ avail r3) as Hr3 by (unfold r3; rewrite avail_feed by done; pose proof (fbits_nonneg _ Fc); lia).
  cbn [feed foldr fst snd]. unfold dynamic.
  rewrite bind_pre; [|lia|unfold ubits; lia|simpl; lia].
  rewrite bind_pre; [|lia|unfold ubits; lia|simpl; lia].
  rewrite bind_pre; [|lia|unfold ubits; lia|done].
  replace (l_max_code s + 1 - 257 + 257) with (l_max_code s + 1) by lia.
  replace (d_max_code s + 1 - 1 + 1) with (d_max_code s + 1) by lia. replace (mb + 1 - 4 + 4) with (mb + 1) by lia.
  destruct (Z.ltb_spec 286 (l_max_code s + 1)); [lia|]. destruct (Z.ltb_spec 30 (d_max_code s + 1)); [lia|]. cbn [orb].
  unfold mbind at 1, P_bind at 1. cbv beta iota. unfold r3. change bl_order with order.
  rewrite read_cl_feed; [|intros i; change order with bl_order; apply take_bl_order|done|done].
  rewrite cl_read. rewrite complete_acceptable by done. cbn [negb].
  pose proof (complete_longest _ _ (enc_ok _ _ _ _ He) Hk) as Hlong.
  assert (zlen (expansion rl) = l_max_code s + 1) as Xl by (rewrite El, zlen_tlens; lia).
  assert (zlen (expansion rd) = d_max_code s + 1) as Xd by (rewrite Ed, zlen_tlens; lia).
  set (total := l_max_code s + 1 + (d_max_code s + 1)) in *.
  destruct (read_runs bl (tlens bl 19) He Hlong total (-1) rl [] r1 (S (Z.to_nat total))) as (f1 & Hf1 & E1); try done;
    [by left|change (zlen []) with 0; lia..|].
  change (zlen []) with 0 in Hf1.
  destruct (read_runs bl (tlens bl 19) He Hlong total (-1) rd ([] ++ expansion rl) r f1) as (f2 & Hf2 & E2); try done;
    [by left|simpl app; lia..|]. simpl app in *.
  unfold mbind at 1, P_bind at 1. unfold r2. rewrite E1. unfold r1. rewrite E2.
  assert (zlen (expansion rl ++ expansion rd) = total) as Ez by (rewrite zlen_app; lia).
  destruct f2 as [|f2]; [lia|]. cbn [read_lengths]. rewrite Ez. destruct (Z.ltb_spec total total); [lia|].
  cbv delta [mret P_ret] beta iota.
  assert (Z.to_nat (l_max_code s + 1) = length (expansion rl)) as -> by (unfold zlen in Xl; lia).
  rewrite take_app_length, drop_app_length, El, Ed.
  rewrite tlens_at by lia. unfold END_BLOCK in Hend. destruct (Z.eqb_spec (Len (dyn_ltree s).[256]) 0); [done|].
  rewrite (complete_acceptable LENS) by apply (gd_kraft _ _ _ Hl).
  rewrite (complete_acceptable DISTS) by apply (gd_kraft _ _ _ Hd). done.
Qed.

End Header.

End BlockHeader.
