(* ===== verification/BlockState.v ===== *)
(** * zlib/trees.c: the literals and matches of a block

    The invariant of the state between two blocks: [d_buf] and [l_buf] hold the
    literals and matches tallied so far, and the frequencies of the trees count
    them. _tr_init and init_block establish it for none, _tr_tally adds one. *)

From S2P Require Import Prelude Slices Inftrees InftreesDecode Rfc1951 Symbols TreesTables Trees BitWriter HuffCodes HuffTree BitLengths BuildTree CompressBlock.

Module BlockState.
Import Inftrees Rfc1951 Symbols Trees BitWriter HuffCodes HuffTree BuildTree CompressBlock.

(** ** The invariant *)

(** How often a literal or length code, and a distance code, occurs. *)
Definition ll_count (l : list lzsym) (y : Z) : Z := countb (λ x, ll_sym x =? y) l.
Definition d_count (l : list lzsym) (y : Z) : Z := countb (λ x : lzsym, negb (x.1 =? 0) && (dist_sym x =? y)) l.

Record trees_sized (s : deflate_state) : Prop := {
  ts_l : zlen (dyn_ltree s) = 2 * L_CODES + 1;
  ts_d : zlen (dyn_dtree s) = 2 * D_CODES + 1;
  ts_bl : zlen (bl_tree s) = 2 * BL_CODES + 1;
  ts_ws : workspace_ok (ws s);
}.

(** The memory deflateInit2_ allocates; [memLevel] is 9 at most. *)
Record memory_ok (s : deflate_state) : Prop := {
  mo_writer : writer_ok s;
  mo_lits : 1 ≤ lit_bufsize s ≤ 2 ^ 15;
  mo_size : zlen (pending_buf s) = 4 * lit_bufsize s;
}.

Record block_ok (s : deflate_state) (l : list lzsym) : Prop := {
  bo_memory : memory_ok s;
  bo_sized : trees_sized s;
  bo_tallied : tallied s l;
  bo_l : ∀ y, 0 ≤ y < L_CODES → Freq (dyn_ltree s).[y] = Z.b2z (END_BLOCK =? y) + ll_count l y;
  bo_d : ∀ y, 0 ≤ y < D_CODES → Freq (dyn_dtree s).[y] = d_count l y;
  bo_bl : ∀ y, 0 ≤ y < BL_CODES → Freq (bl_tree s).[y] = 0;
  bo_syms : Forall sym_ok l;
}.

(** The memory of deflateInit2_, whatever it contains. *)
Record fresh_memory (s : deflate_state) : Prop := {
  fm_pending : pending s = 0;
  fm_bytes : bytes (pending_buf s);
  fm_lits : 1 ≤ lit_bufsize s ≤ 2 ^ 15;
  fm_size : zlen (pending_buf s) = 4 * lit_bufsize s;
  fm_sized : trees_sized s;
}.

Definition fresh (lits lvl strat : Z) : deflate_state :=
  Deflate Z_BINARY (replicate (Z.to_nat (4 * lits)) 0) 0 lvl strat
    (replicate (Z.to_nat (2 * L_CODES + 1)) (Ct 0 0)) (replicate (Z.to_nat (2 * D_CODES + 1)) (Ct 0 0))
    (replicate (Z.to_nat (2 * BL_CODES + 1)) (Ct 0 0)) 0 0 0
    (Workspace (replicate 16 0) (replicate (Z.to_nat HEAP_SIZE) 0) 0 0 (replicate (Z.to_nat HEAP_SIZE) 0) 0 0)
    lits 0 0 0 0.

Lemma fresh_ok lvl strat : fresh_memory (fresh 128 lvl strat).
Proof.
  constructor; [done| |vm_compute; intuition congruence|done|].
  - apply Forall_replicate. unfold ubits. lia.
  - by constructor; [..|split].
Qed.

(** What the trees are built with. *)
Definition same_output (s s' : deflate_state) : Prop :=
  pending_buf s' = pending_buf s ∧ pending s' = pending s ∧ bi_buf s' = bi_buf s ∧ bi_valid s' = bi_valid s ∧
  lit_bufsize s' = lit_bufsize s.

Lemma same_sent s s' : same_output s s' → sent s' = sent s ∧ room s' = room s ∧ (writer_ok s → writer_ok s').
Proof.
  intros (E1 & E2 & E3 & E4 & _). unfold sent, output_bytes, room. rewrite E1, E2, E3, E4. split; [done|]. split; [done|].
  intros [H1 H2 H3 H4]. constructor; by rewrite ?E1, ?E2, ?E3, ?E4.
Qed.

Lemma same_memory s s' : same_output s s' → memory_ok s → memory_ok s'.
Proof.
  intros H [H1 H2 H3]. pose proof (same_sent _ _ H) as (_ & _ & Hw). destruct H as (E1 & _ & _ & _ & E5).
  constructor; rewrite ?E1, ?E5; auto.
Qed.

(** ** The start of a block *)

Lemma clear_freqs n t : 0 ≤ n ≤ zlen t → let t' := for_ 0 n (λ n t, set_freq t n 0) t in
  zlen t' = zlen t ∧ ∀ y, 0 ≤ y < n → Freq t'.[y] = 0.
Proof.
  intros Hn. apply (for_rule (λ i t', zlen t' = zlen t ∧ ∀ y, 0 ≤ y < i → Freq t'.[y] = 0)); [lia|split; [done|lia]|].
  intros i t' Hi [Hz Hf]. rewrite zlen_set_freq. split; [done|]. intros y Hy. destruct (decide (y = i)) as [->|].
  - unfold set_freq. by rewrite aget_aset_eq by lia.
  - rewrite freq_set_freq_ne by lia. apply Hf. lia.
Qed.

Lemma init_block_ok s : memory_ok s → trees_sized s → block_ok (init_block s) [] ∧ same_output s (init_block s).
Proof.
  intros Hm [Zl Zd Zb Hw]. split; [|done].
  assert (memory_ok (init_block s)) as Hm' by (by apply (same_memory s)).
  destruct (clear_freqs L_CODES (dyn_ltree s)) as [Zl' Fl]; [unfold L_CODES, LITERALS, LENGTH_CODES in *; lia|].
  destruct (clear_freqs D_CODES (dyn_dtree s)) as [Zd' Fd]; [unfold D_CODES in *; lia|].
  destruct (clear_freqs BL_CODES (bl_tree s)) as [Zb' Fb]; [unfold BL_CODES in *; lia|].
  set (lt := for_ 0 L_CODES _ (dyn_ltree s)) in *. set (dt := for_ 0 D_CODES _ (dyn_dtree s)) in *.
  set (bt := for_ 0 BL_CODES _ (bl_tree s)) in *.
  assert (∃ w, heap w = heap (ws s) ∧ bl_count w = bl_count (ws s) ∧ init_block s = s <| dyn_ltree := set_freq lt END_BLOCK 1 |>
    <| dyn_dtree := dt |> <| bl_tree := bt |> <| ws := w |> <| last_lit := 0 |> <| matches := 0 |>) as (w & Hh & Hbc & E)
    by (by eexists ((ws s) <| opt_len := 0 |> <| static_len := 0 |>)).
  clearbody lt dt bt. rewrite E in *. clear E.
  constructor.
  - exact Hm'.
  - constructor; simpl; rewrite ?zlen_set_freq; try congruence. destruct Hw as [H1 H2]. split; congruence.
  - constructor; change (zlen []) with 0; simpl; try lia; [apply Hm|]. destruct Hm as [_ H _]. lia.
  - intros y Hy. change (ll_count [] y) with 0. cbn [dyn_ltree set_field]. simpl dyn_ltree. destruct (Z.eqb_spec END_BLOCK y) as [<-|Hne].
    + unfold set_freq at 1. rewrite aget_aset_eq; [done|]. rewrite Zl', Zl. unfold END_BLOCK, L_CODES, LITERALS, LENGTH_CODES. lia.
    + rewrite freq_set_freq_ne by (unfold END_BLOCK in *; lia). by apply Fl.
  - intros y Hy. by apply Fd.
  - intros y Hy. by apply Fb.
  - constructor.
Qed.

Lemma tr_init_ok s : 0 ≤ pending s ≤ zlen (pending_buf s) → bytes (pending_buf s) → 1 ≤ lit_bufsize s ≤ 2 ^ 15 →
  zlen (pending_buf s) = 4 * lit_bufsize s → trees_sized s → block_ok (_tr_init s) [] ∧ bi_valid (_tr_init s) = 0.
Proof.
  intros Hp Hb Hl Hz [H1 H2 H3 H4]. split; [|done]. apply init_block_ok; [|done].
  constructor; [constructor; cbn; try done; try lia; by apply ubits_0|done|done].
Qed.

(** ** One more literal or match *)

Lemma ll_count_snoc l x y : ll_count (l ++ [x]) y = ll_count l y + Z.b2z (ll_sym x =? y).
Proof. unfold ll_count, countb. rewrite sumf_app, sumf_cons. change (sumf _ []) with 0. lia. Qed.

Lemma d_count_snoc l x y : d_count (l ++ [x]) y = d_count l y + Z.b2z (negb (x.1 =? 0) && (dist_sym x =? y)).
Proof. unfold d_count, countb. rewrite sumf_app, sumf_cons. change (sumf _ []) with 0. lia. Qed.

(** A frequency one higher. *)
Lemma bump_freq t c m y : 0 ≤ c < zlen t → 0 ≤ y → 0 ≤ Freq t.[c] ≤ m → m < 2 ^ 16 - 1 →
  Freq (set_freq t c (Freq t.[c] + 1)).[y] = Freq t.[y] + Z.b2z (c =? y).
Proof.
  intros Hc Hy Hf Hm. destruct (Z.eqb_spec c y) as [<-|].
  - unfold set_freq. rewrite aget_aset_eq by done. simpl. apply wrap_small. unfold ubits. lia.
  - rewrite freq_set_freq_ne by lia. simpl. lia.
Qed.

Lemma sym_ranges x : sym_ok x → 0 ≤ ll_sym x < L_CODES ∧ (x.1 ≠ 0 → 0 ≤ dist_sym x < D_CODES).
Proof.
  intros [H1 H2]. unfold ll_sym, len_sym, dist_sym, L_CODES, LITERALS, LENGTH_CODES, D_CODES. split.
  - destruct (len_facts x.2 H2) as (L1 & _). unfold ubits in H2. case_match; lia.
  - intros Hne. destruct (dist_facts (x.1 - 1) ltac:(lia)) as (D1 & _). lia.
Qed.

(** The entry _tr_tally writes, and no other. *)
Lemma entry_written (b : list Z) n m dist lc : zlen b = 4 * n → 0 ≤ m < n → 0 ≤ dist < 2 ^ 16 →
  let b' := b.[n + 2 * m <- dist .& 0xff].[n + 2 * m + 1 <- dist ≫ 8].[3 * n + m <- lc] in
  (b'.[n + 2 * m] + 256 * b'.[n + 2 * m + 1] = dist ∧ b'.[3 * n + m] = lc) ∧
  (∀ k, 0 ≤ k < m → b'.[n + 2 * k] = b.[n + 2 * k] ∧ b'.[n + 2 * k + 1] = b.[n + 2 * k + 1] ∧ b'.[3 * n + k] = b.[3 * n + k]) ∧
  ∀ p, p ≤ n + 2 * m → take (Z.to_nat p) b' = take (Z.to_nat p) b.
Proof.
  intros Hz Hm Hd b'. unfold b'. split_and!.
  - rewrite aget_aset_ne by lia. rewrite aget_aset_ne by lia. rewrite aget_aset_eq by lia.
    rewrite aget_aset_ne by lia. rewrite aget_aset_eq by (rewrite zlen_aset; lia).
    change 0xff with (Z.ones 8). rewrite Z.land_ones, Z.shiftr_div_pow2 by lia. pose proof (Z.div_mod dist (2 ^ 8)). lia.
  - apply aget_aset_eq. rewrite !zlen_aset. lia.
  - intros k Hk. split_and!; rewrite !aget_aset_ne by lia; done.
  - intros p Hp. rewrite !take_aset by lia. done.
Qed.

Lemma tr_tally_ok s l x : block_ok s l → sym_ok x → zlen l + 1 < lit_bufsize s → pending s ≤ d_at s (zlen l) →
  block_ok (_tr_tally s x.1 x.2).1 (l ++ [x]) ∧
  ((_tr_tally s x.1 x.2).2 = true ↔ zlen l + 1 = lit_bufsize s - 1) ∧
  sent (_tr_tally s x.1 x.2).1 = sent s ∧ pending (_tr_tally s x.1 x.2).1 = pending s ∧
  bi_valid (_tr_tally s x.1 x.2).1 = bi_valid s ∧ lit_bufsize (_tr_tally s x.1 x.2).1 = lit_bufsize s.
Proof.
  intros [[Hw Hlb Hz] [Zl Zd Zb Hws] [T1 T2 T3 T4 T5] Fl Fd Fb Hsy] Hx Hroom Hpend.
  pose proof (zlen_nonneg l) as Hz0. destruct (sym_ranges x Hx) as [Hll Hdd]. pose proof Hx as [Hx1 Hx2].
  unfold d_at in Hpend.
  destruct (entry_written (pending_buf s) (lit_bufsize s) (zlen l) x.1 x.2 Hz ltac:(lia) ltac:(lia)) as ((N1 & N2) & Hold & Htake).
  set (b' := (pending_buf s).[_ <- x.1 .& 0xff].[_ <- x.1 ≫ 8].[_ <- x.2]) in *.
  assert (zlen b' = zlen (pending_buf s)) as Zb' by (unfold b'; by rewrite !zlen_aset).
  assert (bytes b') as Hb'.
  { unfold b'. repeat apply Forall_aset; [apply Hw| | |done].
    - change 0xff with (Z.ones 8). rewrite Z.land_ones by lia. unfold ubits. apply Z.mod_pos_bound. lia.
    - rewrite Z.shiftr_div_pow2 by lia. unfold ubits. split; [apply Z.div_pos; lia|apply Z.div_lt_upper_bound; lia]. }
  assert (∀ t, (∃ lt dt m, t = s <| pending_buf := b' |> <| last_lit := zlen l + 1 |> <| dyn_ltree := lt |> <| dyn_dtree := dt |>
      <| matches := m |> ∧ zlen lt = zlen (dyn_ltree s) ∧ zlen dt = zlen (dyn_dtree s) ∧
      (∀ y, 0 ≤ y < L_CODES → Freq lt.[y] = Freq (dyn_ltree s).[y] + Z.b2z (ll_sym x =? y)) ∧
      (∀ y, 0 ≤ y < D_CODES → Freq dt.[y] = Freq (dyn_dtree s).[y] + Z.b2z (negb (x.1 =? 0) && (dist_sym x =? y)))) →
    block_ok t (l ++ [x]) ∧ sent t = sent s ∧ pending t = pending s ∧ bi_valid t = bi_valid s ∧ lit_bufsize t = lit_bufsize s ∧
    last_lit t = zlen l + 1) as Hmain.
  { intros t (lt & dt & m & -> & Z1 & Z2 & F1 & F2). split.
    - constructor.
      + constructor; cbn; [|done|lia]. destruct Hw as [W1 W2 W3 W4]. constructor; cbn; [rewrite Zb'; done|done..].
      + constructor; cbn; [lia..|done].
      + constructor; cbn; rewrite ?zlen_app; change (zlen [x]) with 1.
        * lia.
        * lia.
        * lia.
        * intros k Hk. unfold d_buf, d_at in *. cbn. destruct (decide (k = zlen l)) as [->|].
          -- rewrite aget_snoc. done.
          -- destruct (Hold k ltac:(lia)) as (-> & -> & _). rewrite aget_app_l by lia. apply T4. lia.
        * intros k Hk. unfold l_buf, l_at in *. cbn. destruct (decide (k = zlen l)) as [->|].
          -- rewrite aget_snoc. done.
          -- destruct (Hold k ltac:(lia)) as (_ & _ & ->). rewrite aget_app_l by lia. apply T5. lia.
      + intros y Hy. change (dyn_ltree _) with lt. rewrite F1, Fl, ll_count_snoc by done. lia.
      + intros y Hy. change (dyn_dtree _) with dt. rewrite F2, Fd, d_count_snoc by done. lia.
      + done.
      + apply Forall_app. split; [done|by apply Forall_singleton].
    - split; [|done]. unfold sent, output_bytes. cbn. rewrite Htake by lia. done. }
  pose proof (countb_nonneg (λ z, ll_sym z =? ll_sym x) l) as C1. pose proof (countb_le (λ z, ll_sym z =? ll_sym x) l) as C2.
  pose proof (countb_nonneg (λ z : lzsym, negb (z.1 =? 0) && (dist_sym z =? dist_sym x)) l) as C3.
  pose proof (countb_le (λ z : lzsym, negb (z.1 =? 0) && (dist_sym z =? dist_sym x)) l) as C4.
  assert (0 ≤ Freq (dyn_ltree s).[ll_sym x] ≤ 2 ^ 15) as Hfl.
  { rewrite Fl by done. unfold ll_count. destruct (END_BLOCK =? _); simpl Z.b2z; lia. }
  assert (ll_sym x < zlen (dyn_ltree s)) as Hllz by (unfold L_CODES, LITERALS, LENGTH_CODES in *; lia).
  unfold _tr_tally. rewrite (wrap_small 16 x.1), (wrap_small 8 x.2) by (done || (unfold ubits; lia)). unfold d_at, l_at. rewrite T1.
  fold b'.
  assert (∀ t, block_ok t (l ++ [x]) ∧ sent t = sent s ∧ pending t = pending s ∧ bi_valid t = bi_valid s ∧ lit_bufsize t = lit_bufsize s ∧
    last_lit t = zlen l + 1 → block_ok t (l ++ [x]) ∧ ((last_lit t =? lit_bufsize t - 1) = true ↔ zlen l + 1 = lit_bufsize s - 1) ∧
    sent t = sent s ∧ pending t = pending s ∧ bi_valid t = bi_valid s ∧ lit_bufsize t = lit_bufsize s) as Hfin.
  { intros t (A & B & C & D & E & F). split; [done|]. split; [rewrite Z.eqb_eq; lia|done]. }
  cbn [fst snd]. apply Hfin, Hmain. unfold ll_sym in *. destruct (Z.eqb_spec x.1 0) as [E|E].
  - exists (set_freq (dyn_ltree s) x.2 (Freq (dyn_ltree s).[x.2] + 1)), (dyn_dtree s), (matches s).
    split; [by destruct s|]. rewrite zlen_set_freq. split; [done|]. split; [done|]. split.
    + intros y Hy. cbn. apply (bump_freq _ _ (2 ^ 15)); lia.
    + intros y Hy. simpl. lia.
  - specialize (Hdd E). cbn. rewrite (wrap_small 32 (x.1 - 1)) by (unfold ubits; lia). fold (len_sym x) (dist_sym x).
    exists (set_freq (dyn_ltree s) (len_sym x) (Freq (dyn_ltree s).[len_sym x] + 1)),
      (set_freq (dyn_dtree s) (dist_sym x) (Freq (dyn_dtree s).[dist_sym x] + 1)), (matches s + 1). split; [by destruct s|]. rewrite !zlen_set_freq. split; [done|]. split; [done|]. split.
    + intros y Hy. apply (bump_freq _ _ (2 ^ 15)); lia.
    + intros y Hy. simpl negb. cbn [andb]. apply (bump_freq _ _ (2 ^ 15)); [|lia| |lia].
      * unfold D_CODES in *. lia.
      * rewrite Fd by done. unfold d_count. lia.
Qed.

(** The inline versions do the same, but do not count matches. *)
Lemma tally_lit_eq s c : byte c → _tr_tally_lit s c = _tr_tally s 0 c.
Proof. intros Hc. unfold _tr_tally_lit, _tr_tally. rewrite (wrap_small 8 c) by done. by rewrite (wrap_small 16 0) by done. Qed.

Lemma tally_dist_eq s d lc : 1 ≤ d ≤ 2 ^ 15 → byte lc →
  _tr_tally_dist s d lc = ((_tr_tally s d lc).1 <| matches := matches s |>, (_tr_tally s d lc).2).
Proof.
  intros Hd Hl. unfold _tr_tally_dist, _tr_tally. rewrite (wrap_small 8 lc), (wrap_small 16 d) by (done || (unfold ubits; lia)).
  rewrite (wrap_small 16 (d - 1)), (wrap_small 32 (d - 1)) by (unfold ubits; lia). destruct (Z.eqb_spec d 0); [lia|].
  by destruct s.
Qed.

Definition tally_all (s : deflate_state) (l : list lzsym) : deflate_state :=
  foldl (λ s x, (_tr_tally s x.1 x.2).1) s l.

Lemma tally_all_ok s l : block_ok s [] → Forall sym_ok l → zlen l < lit_bufsize s → pending s ≤ lit_bufsize s →
  block_ok (tally_all s l) l ∧ sent (tally_all s l) = sent s ∧ pending (tally_all s l) = pending s ∧
  lit_bufsize (tally_all s l) = lit_bufsize s.
Proof.
  intros Hb. induction l as [|x l IH] using rev_ind; intros Hl Hz Hp; [done|].
  apply Forall_app in Hl as [Hl Hx]. apply Forall_cons in Hx as [Hx _]. rewrite zlen_app in Hz. change (zlen [x]) with 1 in Hz.
  destruct (IH Hl ltac:(lia) Hp) as (B & E1 & E2 & E3). unfold tally_all in *. rewrite foldl_app. cbn [foldl].
  pose proof (zlen_nonneg l).
  destruct (tr_tally_ok _ l x B Hx) as (B' & _ & F1 & F2 & _ & F4).
  - rewrite E3. lia.
  - unfold d_at. rewrite E2, E3. lia.
  - split; [exact B'|]. split; [by rewrite F1|]. split; [by rewrite F2|by rewrite F4].
Qed.

End BlockState.
