(* ===== verification/StoredBlock.v ===== *)
(** * zlib/trees.c: stored blocks, alignment, and what a step writes

    A step of the compressor appends fields to what was sent. The bytes of a
    stored block, and the empty block of _tr_align, read by the decoder. *)

From S2P Require Import Prelude Slices Inftrees InftreesDecode Rfc1951 Symbols TreesTables Trees BitWriter HuffCodes HuffTree BitLengths BuildTree CompressBlock BlockState.

Module StoredBlock.
Import Inftrees Rfc1951 Symbols Trees BitWriter HuffCodes CompressBlock BlockState.

(** ** What a step writes *)

Record writes (s s' : deflate_state) (fs : list field) : Prop := {
  wr_memory : memory_ok s';
  wr_fields : Forall field_ok fs;
  wr_sent : sent s' = Bits (value (sent s) + 2 ^ avail (sent s) * fval fs) (avail (sent s) + fbits fs);
  wr_lits : lit_bufsize s' = lit_bufsize s;
  wr_room : room s' = room s - fbits fs;
  wr_kind : level s' = level s ∧ strategy s' = strategy s;
}.

Lemma writes_emits s s' fs : memory_ok s → emits s s' fs → writes s s' fs.
Proof.
  intros [H1 H2 H3] He. pose proof (emits_room _ _ _ He). pose proof He as [(b & p & c & v & E) O F S Z M T].
  constructor; [|done..|by subst|done|by subst]. constructor; [done|by subst|]. rewrite Z, H3. by subst.
Qed.

Lemma writes_same s s' : memory_ok s → same_output s s' → level s' = level s ∧ strategy s' = strategy s → writes s s' [].
Proof.
  intros Hm Hs Hk. pose proof (same_sent _ _ Hs) as (E & R & _).
  constructor; [by eapply same_memory|constructor| |apply Hs| |done].
  - rewrite E. destruct (sent s). simpl. f_equal; lia.
  - rewrite R. simpl. lia.
Qed.

Lemma sent_avail s : memory_ok s → 0 ≤ avail (sent s).
Proof. intros [[Hp _ Hv _] _ _]. simpl. lia. Qed.

Lemma writes_trans s s1 s2 fs gs : memory_ok s → writes s s1 fs → writes s1 s2 gs → writes s s2 (fs ++ gs).
Proof.
  intros Hm [M1 F1 S1 L1 R1 K1] [M2 F2 S2 L2 R2 K2]. constructor.
  - done.
  - by apply Forall_app.
  - rewrite S2, S1, fval_app, fbits_app by done. pose proof (fbits_nonneg fs F1). pose proof (sent_avail s Hm).
    cbn [value avail]. rewrite Z.pow_add_r by lia. f_equal; lia.
  - congruence.
  - rewrite fbits_app. lia.
  - destruct K1, K2. split; congruence.
Qed.

(** A step from an output read as [gs] leads to one read as [gs ++ fs]. *)
Lemma writes_feed s s' fs : memory_ok s → writes s s' fs → ∀ gs, Forall field_ok gs → sent s = feed gs (Bits 0 0) →
  sent s' = feed (gs ++ fs) (Bits 0 0).
Proof.
  intros Hm [_ F S _ _ _] gs Hg E. rewrite S, E. rewrite !feed_bits by (done || by apply Forall_app). cbn [value avail].
  rewrite fval_app, fbits_app by done. f_equal; [|lia]. rewrite !Z.mul_0_r, !Z.add_0_r. done.
Qed.

(** ** Fields that are read in parts *)

Lemma pre_split a b n m s : 0 ≤ n → 0 ≤ m → pre (a + 2 ^ n * b) (n + m) s = pre a n (pre b m s).
Proof. intros. unfold pre. simpl. rewrite Z.pow_add_r by lia. f_equal; lia. Qed.

Definition block_head (type : Z) (last : bool) : field := ((type ≪ 1) + Z.b2z last, 3).

Lemma block_head_ok type last : 0 ≤ type < 3 → field_ok (block_head type last).
Proof.
  intros. split; simpl; [lia|]. rewrite Z.shiftl_mul_pow2 by lia. unfold ubits. destruct last; simpl Z.b2z; lia.
Qed.

Lemma block_head_read fuel type last hist out s : 0 ≤ type < 3 → 0 ≤ avail s →
  blocks_fuel (S fuel) hist out (feed [block_head type last] s) =
  match block type hist out s with
  | Done out s => if last then Done out (align s) else blocks_fuel fuel hist out s
  | o => o
  end.
Proof.
  intros Ht Hs. cbn [blocks_fuel feed foldr fst snd block_head].
  rewrite Z.shiftl_mul_pow2 by lia. replace (type * 2 ^ 1 + Z.b2z last) with (Z.b2z last + 2 ^ 1 * type) by lia.
  change 3 with (1 + 2) at 1. rewrite pre_split by lia.
  rewrite bind_pre; [|lia|destruct last; done|simpl; lia]. rewrite bind_pre; [|lia|unfold ubits; lia|done].
  cbv delta [mret P_ret] beta iota. destruct (block type hist out s); [|done..]. by destruct last.
Qed.

(** ** Stored blocks *)

Lemma lxor_complement n : ubits 16 n → (0xffff - n) .^ 0xffff = n.
Proof.
  intros Hn. change 0xffff with (Z.ones 16). rewrite Z.sub_nocarry_ldiff.
  - apply Z.bits_inj'. intros i Hi. rewrite Z.lxor_spec, Z.ldiff_spec, Z.testbit_ones_nonneg by lia.
    destruct (Z.ltb_spec i 16); simpl; [by rewrite xorb_true_r, negb_involutive|].
    symmetry. apply (testbit_ubits 16); [done|lia].
  - apply Z.bits_inj'. intros i Hi. rewrite Z.ldiff_spec, Z.testbit_ones_nonneg, Z.bits_0 by lia.
    destruct (Z.ltb_spec i 16); simpl; [by rewrite andb_false_r|].
    rewrite andb_true_r. apply (testbit_ubits 16); [done|lia].
Qed.

Lemma stored_bytes_feed l out s : bytes l → 0 ≤ avail s →
  stored_bytes (length l) out (feed (byte_fields l) s) = Done (out ++ l) s.
Proof.
  intros Hl Hs. revert out. induction Hl as [|b l Hb Hl IH]; intros out; [by rewrite app_nil_r|].
  cbn [length stored_bytes byte_fields map feed foldr fst snd]. fold (byte_fields l) (feed (byte_fields l) s).
  rewrite get_pre; [|lia|done|].
  - rewrite IH, <-app_assoc. done.
  - rewrite avail_feed by (by apply byte_fields_ok). pose proof (fbits_nonneg _ (byte_fields_ok l Hl)). lia.
Qed.

Definition stored_fields (p : Z) (data : list Z) : list field :=
  [(0, p); (zlen data, 16); (0xffff - zlen data, 16)] ++ byte_fields data.

Lemma stored_fields_ok p data : 0 ≤ p < 8 → zlen data < 2 ^ 16 → bytes data → Forall field_ok (stored_fields p data).
Proof.
  intros Hp Hd Hb. pose proof (zlen_nonneg data). apply Forall_app. split; [|by apply byte_fields_ok].
  repeat constructor; simpl; try lia; unfold ubits; lia.
Qed.

Lemma fbits_stored p data : fbits (stored_fields p data) = p + 32 + 8 * zlen data.
Proof. unfold stored_fields. rewrite fbits_app, fbits_bytes. simpl. lia. Qed.

Lemma align_pad p s : 0 ≤ p < 8 → avail s mod 8 = 0 → align (pre 0 p s) = s.
Proof.
  intros Hp Hs. unfold align, pre, dropped. destruct s as [v a]. simpl in *.
  assert ((p + a) mod 8 = p) as -> by (Z.div_mod_to_equations; lia).
  rewrite ?Z.add_0_l, (Z.mul_comm (2 ^ p)), Z.div_mul by lia. f_equal. lia.
Qed.

Lemma stored_read p data out s : 0 ≤ p < 8 → zlen data < 2 ^ 16 → bytes data → 0 ≤ avail s → avail s mod 8 = 0 →
  stored out (feed (stored_fields p data) s) = Done (out ++ data) s.
Proof.
  intros Hp Hd Hb Hs Ha. pose proof (zlen_nonneg data). unfold stored, stored_fields. rewrite feed_app.
  pose proof (fbits_nonneg _ (byte_fields_ok data Hb)) as Hn.
  assert (avail (feed (byte_fields data) s) = 8 * zlen data + avail s) as Ea
    by (rewrite avail_feed, fbits_bytes by (by apply byte_fields_ok); done).
  set (r := feed (byte_fields data) s) in *. cbn [feed foldr fst snd].
  rewrite align_pad; [|done|simpl; rewrite Ea; Z.div_mod_to_equations; lia].
  rewrite bind_pre; [|lia|unfold ubits; lia|simpl; lia]. rewrite bind_pre; [|lia|unfold ubits; lia|lia].
  cbv delta [mret P_ret] beta iota. rewrite lxor_complement by (unfold ubits; lia). rewrite Z.eqb_refl.
  unfold zlen. rewrite Nat2Z.id. by apply stored_bytes_feed.
Qed.

(** The bytes copied after the output. *)
Lemma copy_emits s data : writer_ok s → bi_valid s = 0 → bytes data → 8 * zlen data ≤ room s →
  emits s (s <| pending_buf := memcpy (pending_buf s) (pending s) data |> <| pending := pending s + zlen data |>) (byte_fields data).
Proof.
  intros Hs E Hd Hr. pose proof Hs as [Hp Hb _ Hbuf]. unfold room in Hr. pose proof (zlen_nonneg data).
  assert (zlen (memcpy (pending_buf s) (pending s) data) = zlen (pending_buf s)) as Hz
    by (unfold zlen; f_equal; apply length_memcpy; lia).
  apply emits_bytes; try done.
  - exists (memcpy (pending_buf s) (pending s) data), (pending s + zlen data). destruct s; simpl in *. by rewrite E.
  - unfold output_bytes. cbn [pending pending_buf set_field]. simpl pending. simpl pending_buf.
    replace (Z.to_nat (pending s + zlen data)) with (Z.to_nat (pending s) + length data)%nat by (unfold zlen; lia).
    apply take_memcpy. lia.
  - simpl pending_buf. unfold memcpy. repeat apply Forall_app_2; [by apply Forall_take|done|by apply Forall_drop].
  - simpl pending. lia.
  - intros i Hi. simpl pending in Hi. simpl pending_buf. unfold memcpy, aget.
    rewrite !list_lookup_total_alt, app_assoc, lookup_app_r.
    + rewrite lookup_drop, length_app, length_take. do 2 f_equal. unfold zlen in *. lia.
    + rewrite length_app, length_take. unfold zlen in *. lia.
Qed.

Definition pad_after (s : deflate_state) (n : Z) : Z := - (bi_valid s + n) mod 8.

Lemma pad_after_range s n : 0 ≤ pad_after s n < 8.
Proof. apply Z.mod_pos_bound. lia. Qed.

Lemma stored_block_ok s buf stored_len last : memory_ok s → 0 ≤ stored_len < 2 ^ 16 →
  let data := take (Z.to_nat stored_len) (default [] buf) in
  zlen data = stored_len → bytes data → 3 + pad_after s 3 + 32 + 8 * stored_len ≤ room s →
  emits s (_tr_stored_block s buf stored_len last)
    (block_head STORED_BLOCK last :: stored_fields (pad_after s 3) data) ∧
  bi_valid (_tr_stored_block s buf stored_len last) = 0.
Proof.
  intros Hm Hl data Hd Hb Hr. pose proof Hm as [Hw _ _]. unfold _tr_stored_block. fold data.
  pose proof (pad_after_range s 3) as Hpad.
  assert (emits s (send_bits s ((STORED_BLOCK ≪ 1) + Z.b2z last) 3) [block_head STORED_BLOCK last]) as E1
    by (apply send_bits_ok; [done|by apply block_head_ok|lia]).
  set (s1 := send_bits s _ 3) in *. pose proof (emits_room _ _ _ E1) as R1. cbn [fbits foldr snd block_head] in R1.
  destruct (bi_windup_ok s1 (em_ok _ _ _ E1) ltac:(lia)) as (E2 & V2 & B2).
  assert (padding s1 = pad_after s 3) as Epad.
  { pose proof (em_sent _ _ _ E1) as Hse. injection Hse as _ Ha. cbn [fbits foldr snd block_head] in Ha.
    unfold padding, pad_after. Z.div_mod_to_equations. lia. }
  rewrite Epad in E2. set (s2 := bi_windup s1) in *. pose proof (emits_room _ _ _ E2) as R2. cbn [fbits foldr snd] in R2.
  rewrite (wrap_small 16 stored_len) by (unfold ubits; lia).
  assert (u16 (Z.lnot stored_len) = 0xffff - stored_len) as ->.
  { unfold wrap, Z.lnot. Z.div_mod_to_equations. lia. }
  pose proof (put_short_emits s2 stored_len (em_ok _ _ _ E2) V2 ltac:(unfold ubits; lia) ltac:(lia)) as E3.
  set (s3 := put_short s2 stored_len) in *. pose proof (emits_room _ _ _ E3) as R3. cbn [fbits foldr snd] in R3.
  assert (bi_valid s3 = 0) as V3 by done.
  pose proof (put_short_emits s3 (0xffff - stored_len) (em_ok _ _ _ E3) V3 ltac:(unfold ubits; lia) ltac:(lia)) as E4.
  set (s4 := put_short s3 _) in *. pose proof (emits_room _ _ _ E4) as R4. cbn [fbits foldr snd] in R4.
  assert (bi_valid s4 = 0) as V4 by done.
  pose proof (copy_emits s4 data (em_ok _ _ _ E4) V4 Hb ltac:(lia)) as E5. rewrite Hd in E5. split; [|done].
  unfold stored_fields. rewrite Hd.
  change (?a :: [?b; ?c; ?d] ++ ?e) with ([a] ++ [b] ++ [c] ++ [d] ++ e).
  eapply emits_trans; [done|exact E1|]. eapply emits_trans; [apply E1|exact E2|]. eapply emits_trans; [apply E2|exact E3|].
  eapply emits_trans; [apply E3|exact E4|exact E5].
Qed.

(** The rest of the stream after the fields of a stored block is whole bytes. *)
Lemma stored_block_read s data last fuel hist out r : memory_ok s → zlen data < 2 ^ 16 → bytes data → 0 ≤ avail r →
  let fs := block_head STORED_BLOCK last :: stored_fields (pad_after s 3) data in
  (avail (sent s) + fbits fs + avail r) mod 8 = 0 →
  blocks_fuel (S fuel) hist out (feed fs r) =
  if last then Done (out ++ data) (align r) else blocks_fuel fuel hist (out ++ data) r.
Proof.
  intros Hm Hd Hb Hr fs Ha. pose proof (pad_after_range s 3) as Hpad.
  unfold fs. change (?a :: ?b) with ([a] ++ b). rewrite feed_app.
  pose proof (stored_fields_ok (pad_after s 3) data Hpad Hd Hb) as Hf. pose proof (fbits_nonneg _ Hf).
  assert (avail r mod 8 = 0) as Har.
  { unfold fs in Ha. rewrite fbits_cons, fbits_stored in Ha. cbn [snd block_head] in Ha. unfold pad_after in Ha. simpl in Ha.
    Z.div_mod_to_equations. lia. }
  rewrite block_head_read; [|by unfold STORED_BLOCK|rewrite avail_feed by done; lia].
  unfold block. simpl (_ =? _). cbv iota. by rewrite stored_read.
Qed.

(** ** The empty block of _tr_align *)

Lemma end_field : field_ok (code_field static_ltree END_BLOCK).
Proof. apply (code_field_ok _ _ _ _ static_ltree_encodes); [done|done]. Qed.

Definition align_fields : list field := [block_head STATIC_TREES false; code_field static_ltree END_BLOCK].

Lemma tr_align_ok s : memory_ok s → 10 ≤ room s →
  emits s (_tr_align s) align_fields ∧ bi_valid (_tr_align s) < 8.
Proof.
  intros Hm Hr. pose proof Hm as [Hw _ _]. unfold _tr_align.
  assert (emits s (send_bits s (STATIC_TREES ≪ 1) 3) [block_head STATIC_TREES false]) as E1
    by (apply (send_bits_ok s); [done|by apply (block_head_ok STATIC_TREES false)|lia]).
  set (s1 := send_bits s _ 3) in *. pose proof (emits_room _ _ _ E1) as R1. cbn [fbits foldr snd block_head] in R1.
  assert (emits s1 (send_code s1 END_BLOCK static_ltree) [code_field static_ltree END_BLOCK]) as E2.
  { apply (send_code_ok _ _ _ _ static_ltree_encodes); [apply E1|done|done|]. change (Len static_ltree.[END_BLOCK]) with 7. lia. }
  set (s2 := send_code s1 _ _) in *. pose proof (emits_room _ _ _ E2) as R2. rewrite fbits_cons in R2. cbn [snd code_field] in R2.
  change (Len static_ltree.[END_BLOCK]) with 7 in R2. change (fbits []) with 0 in R2.
  destruct (bi_flush_ok s2 (em_ok _ _ _ E2) ltac:(lia)) as [E3 V3]. split; [|done].
  rewrite <-(app_nil_r align_fields). change align_fields with ([block_head STATIC_TREES false] ++ [code_field static_ltree END_BLOCK]).
  rewrite <-app_assoc. eapply emits_trans; [done|exact E1|]. eapply emits_trans; [apply E1|exact E2|exact E3].
Qed.

Lemma align_read fuel hist out r : 0 ≤ avail r →
  blocks_fuel (S fuel) hist out (feed align_fields r) = blocks_fuel fuel hist out r.
Proof.
  intros Hr. unfold align_fields. change [?a; ?b] with ([a] ++ [b]). rewrite feed_app.
  assert (Forall field_ok [code_field static_ltree END_BLOCK]) as Hf.
  { apply Forall_singleton, end_field. }
  rewrite block_head_read; [|by unfold STATIC_TREES|rewrite avail_feed by done; pose proof (fbits_nonneg _ Hf); lia].
  change (block STATIC_TREES hist out) with (codes fixed_ll 288 fixed_ld 32 hist out).
  pose proof (block_decoded static_ltree static_dtree fixed_ll 288 fixed_ld 32 286 30 static_ltree_encodes static_dtree_encodes
    ltac:(lia) [] hist out r ltac:(constructor) I ltac:(done) Hr) as H.
  change (block_fields static_ltree static_dtree []) with [code_field static_ltree END_BLOCK] in H.
  rewrite H. simpl. by rewrite app_nil_r.
Qed.

Lemma tr_flush_bits_ok s : memory_ok s → 0 ≤ room s → writes s (_tr_flush_bits s) [] ∧ bi_valid (_tr_flush_bits s) < 8.
Proof.
  intros Hm Hr. destruct (bi_flush_ok s (mo_writer _ Hm) Hr) as [E V]. split; [|done]. by apply writes_emits.
Qed.

End StoredBlock.
