(* ===== verification/FlushBlock.v ===== *)
(** * zlib/trees.c: _tr_flush_block

    build_trees makes codes for the literals and matches of a block;
    _tr_flush_block sends the block stored, with the fixed codes or with its
    own, whichever is shortest. The decoder of RFC 1951 reads from what was sent
    the bytes the block stands for, whichever way was chosen. *)

From S2P Require Import Prelude Slices Inftrees InftreesDecode Rfc1951 Symbols TreesTables Trees BitWriter HuffCodes HuffTree BitLengths BuildTree SendTree CompressBlock BlockTrees BlockHeader BlockState StoredBlock.

Module FlushBlock.
Import Inftrees Rfc1951 Symbols Trees BitWriter HuffCodes HuffTree BuildTree SendTree CompressBlock BlockTrees BlockHeader BlockState StoredBlock.

(** ** The trees of the block *)

Definition frame (s s' : deflate_state) : Prop :=
  same_output s s' ∧ last_lit s' = last_lit s ∧ level s' = level s ∧ strategy s' = strategy s.

Lemma frame_refl s : frame s s.
Proof. done. Qed.

Lemma frame_trans s s1 s2 : frame s s1 → frame s1 s2 → frame s s2.
Proof. unfold frame, same_output. intuition congruence. Qed.

Lemma build_bl_tree_frame s : frame s (build_bl_tree s).1.
Proof.
  unfold build_bl_tree. destruct (scan_tree (dyn_ltree s) _ _) as [lt bl]. destruct (scan_tree (dyn_dtree s) _ _) as [dt bl'].
  by destruct (build_tree static_bl_desc bl' (ws s)) as [[bl2 w] mc].
Qed.

Lemma tallied_frame s s' l : frame s s' → tallied s l → tallied s' l.
Proof.
  intros ((E1 & _ & _ & _ & E5) & E6 & _) [T1 T2 T3 T4 T5].
  constructor; unfold d_buf, l_buf, d_at, l_at in *; rewrite ?E1, ?E5, ?E6; done.
Qed.

Lemma count_in {A} (p : A → bool) l x : x ∈ l → p x = true → 1 ≤ countb p l.
Proof.
  intros Hx Hp. pose proof (sumf_le (λ x, Z.b2z (p x)) l x) as H. cbv beta in H. rewrite Hp in H. apply H; [|done].
  intros y _. destruct (p y); simpl; lia.
Qed.

Record built (s s' : deflate_state) (mb : Z) (l : list lzsym) : Prop := {
  bu_ready : trees_ready s' mb;
  bu_frame : frame s s';
  bu_sized : trees_sized s';
  bu_coded : Forall (sym_coded (dyn_ltree s') (dyn_dtree s') (l_max_code s' + 1) (d_max_code s' + 1)) l;
}.

Lemma build_trees_ok s l : block_ok s l → let '(s', mb, _, _) := build_trees s in built s s' mb l.
Proof.
  intros [Hm [Zl Zd Zb Hws] Ht Fl Fd Fb Hsy]. unfold build_trees.
  set (s0 := if data_type s =? Z_UNKNOWN then _ else s).
  assert (frame s s0 ∧ dyn_ltree s0 = dyn_ltree s ∧ dyn_dtree s0 = dyn_dtree s ∧ bl_tree s0 = bl_tree s ∧ ws s0 = ws s) as
    (Hf0 & L0 & D0 & B0 & W0) by (unfold s0; by destruct (data_type s =? Z_UNKNOWN)).
  clearbody s0. rewrite L0, W0.
  pose proof (build_tree_spec static_l_desc desc_l_ok (dyn_ltree s) (ws s) ltac:(rewrite Zl; vm_compute; congruence) Hws) as HL.
  destruct (build_tree static_l_desc (dyn_ltree s) (ws s)) as [[lt w1] lmax]. destruct HL as (Cl & Hw1 & Zl1 & Ul).
  cbn [dyn_dtree ws]. 
  set (s1 := s0 <| dyn_ltree := lt |> <| ws := w1 |> <| l_max_code := lmax |>).
  assert (frame s s1 ∧ dyn_ltree s1 = lt ∧ dyn_dtree s1 = dyn_dtree s ∧ bl_tree s1 = bl_tree s ∧ ws s1 = w1 ∧ l_max_code s1 = lmax)
    as (Hf1 & L1 & D1 & B1 & W1 & M1) by (split; [eapply frame_trans; [exact Hf0|done]|done]).
  clearbody s1. rewrite D1, W1.
  pose proof (build_tree_spec static_d_desc desc_d_ok (dyn_dtree s) w1 ltac:(rewrite Zd; vm_compute; congruence) Hw1) as HD.
  destruct (build_tree static_d_desc (dyn_dtree s) w1) as [[dt w2] dmax]. destruct HD as (Cd & Hw2 & Zd2 & Ud).
  set (s2 := s1 <| dyn_dtree := dt |> <| ws := w2 |> <| d_max_code := dmax |>).
  assert (frame s s2 ∧ dyn_ltree s2 = lt ∧ dyn_dtree s2 = dt ∧ bl_tree s2 = bl_tree s ∧ ws s2 = w2 ∧ l_max_code s2 = lmax ∧
    d_max_code s2 = dmax) as (Hf2 & L2 & D2 & B2 & W2 & M2 & N2) by (split; [eapply frame_trans; [exact Hf1|done]|done]).
  clearbody s2.
  change (elems static_l_desc) with L_CODES in *. change (elems static_d_desc) with D_CODES in *.
  destruct (Ul END_BLOCK) as [Hm256 Hend]; [by vm_compute| |].
  { rewrite Fl by (by vm_compute). unfold ll_count. pose proof (countb_nonneg (λ x, ll_sym x =? END_BLOCK) l).
    rewrite Z.eqb_refl. simpl Z.b2z. lia. }
  pose proof (build_bl_tree_spec s2) as HB. rewrite L2, D2, B2, W2, M2, N2 in HB.
  specialize (HB Cl Cd ltac:(rewrite Zl1, Zl; vm_compute; done) ltac:(rewrite Zd2, Zd; vm_compute; done)
    ltac:(rewrite Zb; vm_compute; congruence) Hw2 Hm256 Hend Fb).
  pose proof (build_bl_tree_frame s2) as Hf3.
  destruct (build_bl_tree s2) as [s3 mb]. cbn [fst] in Hf3. destruct HB as (Hr & Hw3 & Zb3 & M3 & N3 & Zl3 & Zd3 & Sl & Sd).
  constructor.
  - done.
  - by eapply frame_trans.
  - constructor; [congruence..|done].
  - apply Forall_forall. intros x Hx. pose proof (proj1 (Forall_forall _ _) Hsy x Hx) as Hsx.
    destruct (sym_ranges x Hsx) as [Hll Hdd]. rewrite M3, N3. split; [done|].
    destruct (Ul (ll_sym x) Hll) as [U1 U2].
    { rewrite Fl by done. pose proof (count_in (λ z, ll_sym z =? ll_sym x) l x Hx (Z.eqb_refl _)). unfold ll_count.
      destruct (END_BLOCK =? ll_sym x); simpl Z.b2z; lia. }
    split; [lia|]. split; [by rewrite Sl by lia|]. intros Hne. specialize (Hdd Hne).
    destruct (Ud (dist_sym x) Hdd) as [V1 V2].
    { rewrite Fd by done. pose proof (count_in (λ z : lzsym, negb (z.1 =? 0) && (dist_sym z =? dist_sym x)) l x Hx) as H.
      unfold d_count. cbv beta in H. rewrite Z.eqb_refl in H. destruct (Z.eqb_spec x.1 0); [done|]. specialize (H eq_refl). lia. }
    split; [lia|]. by rewrite Sd by lia.
Qed.

(** ** A block of codes *)

Lemma block_fields_ok lt dt ll nl ld nd ml md l : encodes lt ll nl ml → encodes dt ld nd md → 257 ≤ ml →
  Forall (sym_coded lt dt ml md) l → Len lt.[END_BLOCK] ≠ 0 → Forall field_ok (block_fields lt dt l).
Proof.
  intros Hl Hd Hm Hc He. apply Forall_app. split; [by apply (syms_fields_ok _ _ _ _ _ _ _ _ Hl Hd)|].
  apply Forall_singleton, (code_field_ok _ _ _ _ Hl); [unfold END_BLOCK; lia|done].
Qed.

(** With [hdr] bits before it, the block fits in the pending buffer, and its
    output stays below the entries of [d_buf] still to be read. *)
Definition fits_after (hdr : Z) (lt dt : list ct_data) (s : deflate_state) (l : list lzsym) : Prop :=
  (∀ k, 0 ≤ k < zlen l →
    (8 * pending s + bi_valid s + (hdr + fbits (syms_fields lt dt (take (Z.to_nat k) l)))) / 8 ≤ d_at s k) ∧
  hdr + fbits (block_fields lt dt l) ≤ room s.

(** The symbols stay as long as the output does not reach them. *)
Lemma tallied_emits s s1 l fs : tallied s l → emits s s1 fs → (l ≠ [] → pending s1 ≤ lit_bufsize s) → tallied s1 l.
Proof.
  intros [T1 T2 T3 T4 T5] Hem Hp0. destruct (emits_frame _ _ _ Hem) as [Elb Ell].
  assert (∀ k, 0 ≤ k < zlen l → pending s1 ≤ lit_bufsize s) as Hp.
  { intros k Hk. apply Hp0. intros ->. change (zlen []) with 0 in Hk. lia. }
  constructor; [congruence|by rewrite (em_size _ _ _ Hem), Elb|by rewrite Elb| |].
  - intros k Hk. rewrite <-T4 by done. specialize (Hp k Hk). unfold d_buf, d_at. rewrite Elb.
    by rewrite !(em_tail _ _ _ Hem) by lia.
  - intros k Hk. rewrite <-T5 by done. specialize (Hp k Hk). unfold l_buf, l_at. rewrite Elb.
    by rewrite !(em_tail _ _ _ Hem) by lia.
Qed.

Lemma coded_block hs lt dt ll nl ld nd ml md s s1 l : encodes lt ll nl ml → encodes dt ld nd md → 257 ≤ ml ≤ 286 →
  memory_ok s → tallied s l → Forall (sym_coded lt dt ml md) l → Len lt.[END_BLOCK] ≠ 0 →
  emits s s1 hs → fits_after (fbits hs) lt dt s l →
  emits s (compress_block s1 lt dt) (hs ++ block_fields lt dt l).
Proof.
  intros Hl Hd Hml Hm Ht Hc He Hem [Hf Hr]. pose proof Hm as [Hw _ _]. pose proof (zlen_nonneg l).
  eapply emits_trans; [done|exact Hem|]. pose proof (emits_room _ _ _ Hem) as Hroom. pose proof (em_sent _ _ _ Hem) as Hse.
  injection Hse as _ Ha. change (8 * pending s1 + bi_valid s1 = 8 * pending s + bi_valid s + fbits hs) in Ha.
  destruct (emits_frame _ _ _ Hem) as [Elb Ell].
  apply (compress_block_ok lt dt ll nl ld nd ml md Hl Hd Hml); [|done|done|apply Hem| |lia].
  - apply (tallied_emits s s1 l hs Ht Hem). intros Hl0. specialize (Hf 0 ltac:(destruct l; [done|rewrite zlen_cons; pose proof (zlen_nonneg l); lia])).
    unfold d_at in Hf. pose proof (em_ok _ _ _ Hem) as [_ _ Hv _].
    change (take (Z.to_nat 0) l) with (@nil lzsym) in Hf. change (fbits (syms_fields lt dt [])) with 0 in Hf. Z.div_mod_to_equations. lia.
  - intros k Hk. specialize (Hf k Hk). unfold d_at in *. rewrite Elb.
    replace (8 * pending s1 + bi_valid s1) with (8 * pending s + bi_valid s + fbits hs) by lia.
    by rewrite <-Z.add_assoc.
Qed.

(** ** The choice of _tr_flush_block *)

Inductive choice :=
  | Stored
  | Fixed
  | Dynamic (mb : Z).

(** The trees when there are some, and how the block is sent. *)
Definition choose (s : deflate_state) (buf : option (list Z)) (stored_len : Z) : deflate_state * choice :=
  let '(s1, mb, opt_lenb, static_lenb) :=
    if 0 <? level s then build_trees s else (s, 0, u32 (stored_len + 5), u32 (stored_len + 5)) in
  (s1, if (u32 (stored_len + 4) <=? opt_lenb) && bool_decide (is_Some buf) then Stored
       else if (strategy s1 =? Z_FIXED) || (static_lenb =? opt_lenb) then Fixed else Dynamic mb).

Definition block_of (s1 : deflate_state) (c : choice) (data : list Z) (l : list lzsym) (last : bool) : list field :=
  match c with
  | Stored => block_head STORED_BLOCK last :: stored_fields (pad_after s1 3) data
  | Fixed => block_head STATIC_TREES last :: block_fields static_ltree static_dtree l
  | Dynamic mb => block_head DYN_TREES last :: header_fields s1 mb ++ block_fields (dyn_ltree s1) (dyn_dtree s1) l
  end.

(** There is room for the block in the pending buffer. *)
Definition block_fits (s1 : deflate_state) (c : choice) (data : list Z) (l : list lzsym) : Prop :=
  match c with
  | Stored => 3 + pad_after s1 3 + 32 + 8 * zlen data ≤ room s1
  | Fixed => fits_after 3 static_ltree static_dtree s1 l
  | Dynamic mb => fits_after (3 + fbits (header_fields s1 mb)) (dyn_ltree s1) (dyn_dtree s1) s1 l
  end.

Lemma choose_ok s buf stored_len l : block_ok s l → let '(s1, c) := choose s buf stored_len in
  frame s s1 ∧ memory_ok s1 ∧ trees_sized s1 ∧ tallied s1 l ∧
  match c with
  | Stored => is_Some buf
  | Fixed => True
  | Dynamic mb => built s s1 mb l
  end.
Proof.
  intros Hok. pose proof Hok as [Hm Hz Ht _ _ _ _]. unfold choose. destruct (Z.ltb_spec 0 (level s)).
  - pose proof (build_trees_ok s l Hok) as Hb. destruct (build_trees s) as [[[s1 mb] optb] staticb].
    pose proof Hb as [Hr Hf Hz1 _]. split; [done|]. split; [eapply same_memory; [apply Hf|done]|]. split; [done|].
    split; [by eapply tallied_frame|]. destruct (_ && bool_decide _) eqn:E; [|by destruct (_ || _)].
    apply andb_true_iff in E as [_ E%bool_decide_eq_true]. done.
  - split; [done|]. split; [done|]. split; [done|]. split; [done|]. rewrite Z.eqb_refl, orb_true_r.
    destruct (_ && bool_decide _) eqn:E; [|done]. apply andb_true_iff in E as [_ E%bool_decide_eq_true]. done.
Qed.

Definition send_chosen (s1 : deflate_state) (c : choice) (buf : option (list Z)) (stored_len : Z) (last : bool)
    : deflate_state :=
  match c with
  | Stored => _tr_stored_block s1 buf stored_len last
  | Fixed => compress_block (send_bits s1 ((STATIC_TREES ≪ 1) + Z.b2z last) 3) static_ltree static_dtree
  | Dynamic mb =>
      let s := send_bits s1 ((DYN_TREES ≪ 1) + Z.b2z last) 3 in
      let s := send_all_trees s (l_max_code s + 1) (d_max_code s + 1) (mb + 1) in
      compress_block s (dyn_ltree s) (dyn_dtree s)
  end.

Lemma flush_block_eq s buf stored_len last : let '(s1, c) := choose s buf stored_len in
  _tr_flush_block s buf stored_len last =
  let s2 := send_chosen s1 c buf stored_len last in
  if last then bi_windup (init_block s2) else init_block s2.
Proof.
  unfold choose, _tr_flush_block.
  destruct (if 0 <? level s then _ else _) as [[[s1 mb] optb] staticb].
  destruct (_ && bool_decide _); [done|]. by destruct (_ || _).
Qed.

Lemma trees_ready_emits s s' mb fs : emits s s' fs → trees_ready s mb → trees_ready s' mb.
Proof. intros [(b & p & c & v & ->) _ _ _ _ _ _] [H1 H2 H3 H4 H5 H6 H7 H8 H9 H10 H11]. by constructor. Qed.

Lemma sized_emits s s' fs : emits s s' fs → trees_sized s → trees_sized s'.
Proof. intros [(b & p & c & v & ->) _ _ _ _ _ _] [H1 H2 H3 H4]. by constructor. Qed.

(** The codes of the chosen trees. *)
Lemma sym_static x : sym_ok x → sym_coded static_ltree static_dtree 286 30 x.
Proof.
  intros Hx. destruct (sym_ranges x Hx) as [H1 H2]. unfold L_CODES, LITERALS, LENGTH_CODES, D_CODES in *.
  split; [done|]. split; [lia|].
  assert (forall_range (λ y, negb (Len static_ltree.[y] =? 0)) 0 286 = true) as Hl by (vm_compute; reflexivity).
  assert (forall_range (λ y, negb (Len static_dtree.[y] =? 0)) 0 30 = true) as Hd by (vm_compute; reflexivity).
  apply (forall_range_spec _ _ _ (ll_sym x)) in Hl; [|lia]. cbv beta in Hl.
  split; [intros E; by rewrite E in Hl|]. intros Hne. specialize (H2 Hne). split; [lia|].
  apply (forall_range_spec _ _ _ (dist_sym x)) in Hd; [|lia]. cbv beta in Hd. intros E; by rewrite E in Hd.
Qed.

Section Chosen.
  Context (s s1 : deflate_state) (c : choice) (l : list lzsym) (data : list Z) (last : bool) (Hm : memory_ok s1)
    (Hsz : trees_sized s1) (Ht : tallied s1 l) (Hsy : Forall sym_ok l)
    (Hc : match c with Dynamic mb => built s s1 mb l | _ => True end)
    (Hdata : c = Stored → zlen data < 2 ^ 16 ∧ bytes data).

Lemma static_coded : Forall (sym_coded static_ltree static_dtree 286 30) l.
Proof. eapply Forall_impl; [exact Hsy|]. intros x. apply sym_static. Qed.

Lemma chosen_read fuel hist out r : 0 ≤ avail r → reaches (hist ++ out) l →
  (c = Stored → data = play (hist ++ out) l) →
  (avail (sent s1) + fbits (block_of s1 c data l last) + avail r) mod 8 = 0 →
  blocks_fuel (S fuel) hist out (feed (block_of s1 c data l last) r) =
  if last then Done (out ++ play (hist ++ out) l) (align r) else blocks_fuel fuel hist (out ++ play (hist ++ out) l) r.
Proof.
  intros Hr Hrea Hd Ha. unfold block_of in *. destruct c as [| |mb].
  - destruct (Hdata eq_refl) as [Hd1 Hd2]. rewrite <-(Hd eq_refl). by apply stored_block_read.
  - change (?a :: ?b) with ([a] ++ b). rewrite feed_app. pose proof static_coded as Hco.
    pose proof (block_decoded _ _ _ _ _ _ _ _ static_ltree_encodes static_dtree_encodes ltac:(lia) l hist out r Hco Hrea ltac:(done) Hr) as H.
    assert (Forall field_ok (block_fields static_ltree static_dtree l)) as Hf.
    { refine (block_fields_ok _ _ _ _ _ _ _ _ l static_ltree_encodes static_dtree_encodes _ Hco _); [lia|done]. }
    pose proof (fbits_nonneg _ Hf). rewrite block_head_read; [|unfold STATIC_TREES; lia|rewrite (avail_feed _ _ Hf); lia].
    change (block STATIC_TREES hist out) with (codes fixed_ll 288 fixed_ld 32 hist out). by rewrite H.
  - destruct Hc as [Hrdy _ _ Hco]. pose proof Hrdy as [Hl Hlm Hend Hd' _ _ _ _ _ _ _].
    destruct (header_parts s1 mb Hrdy) as (Hhf & _ & _ & _ & _ & _ & _ & _ & _ & Hl286 & Hd30).
    change (?a :: ?b) with ([a] ++ b). rewrite !feed_app.
    pose proof (gd_codes _ _ _ Hl) as El. pose proof (gd_codes _ _ _ Hd') as Ed.
    pose proof (block_decoded _ _ _ _ _ _ _ _ El Ed ltac:(lia) l hist out r Hco Hrea Hend Hr) as H.
    assert (Forall field_ok (block_fields (dyn_ltree s1) (dyn_dtree s1) l)) as Hf.
    { refine (block_fields_ok _ _ _ _ _ _ _ _ l El Ed _ Hco Hend). lia. }
    pose proof (fbits_nonneg _ Hf). pose proof (fbits_nonneg _ Hhf).
    rewrite block_head_read; [|unfold DYN_TREES; lia|rewrite (avail_feed _ _ Hhf), (avail_feed _ _ Hf); lia].
    unfold block. change (DYN_TREES =? 0) with false. change (DYN_TREES =? 1) with false. change (DYN_TREES =? 2) with true. cbv iota.
    rewrite header_decoded; [|done|rewrite avail_feed by done; lia]. rewrite !zlen_tlens by lia. by rewrite H.
Qed.

(** What _tr_flush_block sends. *)
Lemma chosen_sent buf stored_len : 0 ≤ stored_len → data = take (Z.to_nat stored_len) (default [] buf) →
  (c = Stored → zlen data = stored_len) → block_fits s1 c data l →
  let s2 := send_chosen s1 c buf stored_len last in
  writes s1 s2 (block_of s1 c data l last) ∧ trees_sized s2.
Proof.
  intros Hsl Ed Hlen Hfit. pose proof Hm as [Hw _ _].
  assert (∀ ty, 0 ≤ ty < 3 → 3 ≤ room s1 → emits s1 (send_bits s1 ((ty ≪ 1) + Z.b2z last) 3) [block_head ty last]) as Hhead
    by (intros ty Hty Hr; apply send_bits_ok; [done|by apply block_head_ok|done]).
  unfold send_chosen, block_of, block_fits in *. destruct c as [| |mb].
  - destruct (Hdata eq_refl) as [Hd1 Hd2]. specialize (Hlen eq_refl).
    rewrite Hlen in *. subst data.
    destruct (stored_block_ok s1 buf stored_len last Hm ltac:(lia) Hlen Hd2 Hfit) as [E _].
    split; [by apply writes_emits|by eapply sized_emits].
  - assert (0 ≤ fbits (block_fields static_ltree static_dtree l)) as Hnn.
    { apply fbits_nonneg. refine (block_fields_ok _ _ _ _ _ _ _ _ l static_ltree_encodes static_dtree_encodes _ static_coded _); [lia|done]. }
    pose proof (Hhead STATIC_TREES ltac:(unfold STATIC_TREES; lia) ltac:(destruct Hfit; lia)) as E1.
    pose proof (coded_block _ _ _ _ _ _ _ _ _ s1 _ l static_ltree_encodes static_dtree_encodes ltac:(lia) Hm Ht static_coded ltac:(done) E1
      ltac:(exact Hfit)) as E2.
    split; [by apply writes_emits|by eapply sized_emits].
  - destruct Hc as [Hrdy _ _ Hco]. pose proof Hrdy as [Hl Hlm Hend Hd' _ _ _ _ _ _ _].
    destruct (header_parts s1 mb Hrdy) as (Hhf & _ & _ & _ & _ & _ & _ & _ & _ & Hl286 & Hd30).
    pose proof (gd_codes _ _ _ Hl) as El. pose proof (gd_codes _ _ _ Hd') as Edd.
    assert (0 ≤ fbits (block_fields (dyn_ltree s1) (dyn_dtree s1) l)) as Hnn.
    { apply fbits_nonneg. refine (block_fields_ok _ _ _ _ _ _ _ _ l El Edd _ Hco Hend). lia. }
    pose proof (fbits_nonneg _ Hhf). pose proof Hfit as [_ Hroom].
    pose proof (Hhead DYN_TREES ltac:(unfold DYN_TREES; lia) ltac:(lia)) as E1. cbv zeta.
    set (sa := send_bits s1 _ 3) in *. pose proof (emits_room _ _ _ E1) as R1. cbn [fbits foldr snd block_head] in R1.
    destruct (emits_same _ _ _ E1) as (B1 & L1 & D1 & M1 & N1).
    assert (header_fields sa mb = header_fields s1 mb) as Eh by (unfold header_fields; by rewrite B1, L1, D1, M1, N1).
    pose proof (send_all_trees_ok sa mb (trees_ready_emits _ _ _ _ E1 Hrdy) (em_ok _ _ _ E1) ltac:(rewrite Eh; lia)) as E2.
    rewrite Eh in E2. set (sb := send_all_trees sa _ _ _) in *. destruct (emits_same _ _ _ E2) as (B2 & L2 & D2 & _).
    rewrite L2, D2, L1, D1.
    assert (emits s1 sb ([block_head DYN_TREES last] ++ header_fields s1 mb)) as E3 by (by eapply emits_trans).
    pose proof (coded_block _ _ _ _ _ _ _ _ _ s1 sb l El Edd ltac:(lia) Hm Ht Hco Hend E3 ltac:(exact Hfit)) as E4.
    rewrite <-app_assoc in E4. split; [by apply writes_emits|by eapply sized_emits].
Qed.

End Chosen.

(** ** _tr_flush_block *)

Lemma head_bits ty last fs : Forall field_ok (block_head ty last :: fs) → 3 ≤ fbits (block_head ty last :: fs).
Proof. intros H. apply Forall_cons in H as [_ H]. pose proof (fbits_nonneg _ H). rewrite fbits_cons. simpl. lia. Qed.

Lemma writes_windup s : memory_ok s → 0 ≤ room s →
  writes s (bi_windup s) [(0, padding s)] ∧ bi_valid (bi_windup s) = 0.
Proof.
  intros Hm Hr. destruct (bi_windup_ok s (mo_writer _ Hm) Hr) as (E & V & _). split; [by apply writes_emits|done].
Qed.

Lemma block_ok_emits s s' l fs : block_ok s l → emits s s' fs → (l ≠ [] → pending s' ≤ lit_bufsize s) → block_ok s' l.
Proof.
  intros [Hm Hz Ht Fl Fd Fb Hsy] He Hp. pose proof (writes_emits _ _ _ Hm He) as Hw.
  pose proof (sized_emits _ _ _ He Hz) as Hz'. destruct (emits_same _ _ _ He) as (B & L & D & _).
  constructor; rewrite ?B, ?L, ?D; try done; [apply Hw|by eapply tallied_emits].
Qed.

Lemma flush_block_ok s l buf stored_len last : block_ok s l → 0 ≤ stored_len →
  let data := take (Z.to_nat stored_len) (default [] buf) in
  (is_Some buf → zlen data = stored_len ∧ stored_len < 2 ^ 16 ∧ bytes data) →
  block_fits (choose s buf stored_len).1 (choose s buf stored_len).2 data l →
  let s' := _tr_flush_block s buf stored_len last in
  ∃ fs, block_ok s' [] ∧ writes s s' fs ∧ 3 ≤ fbits fs ∧ (last = true → bi_valid s' = 0) ∧
  ∀ fuel hist out r, 0 ≤ avail r → (avail (sent s) + fbits fs + avail r) mod 8 = 0 → reaches (hist ++ out) l →
    (is_Some buf → data = play (hist ++ out) l) →
    blocks_fuel (S fuel) hist out (feed fs r) =
    if last then Done (out ++ play (hist ++ out) l) r else blocks_fuel fuel hist (out ++ play (hist ++ out) l) r.
Proof.
  intros Hok Hsl data Hbuf Hfit s'. pose proof (choose_ok s buf stored_len l Hok) as Hch.
  pose proof (flush_block_eq s buf stored_len last) as Heq. destruct (choose s buf stored_len) as [s1 c]. cbn [fst snd] in Hfit.
  destruct Hch as (Hfr & Hm1 & Hz1 & Ht1 & Hc). pose proof (bo_memory _ _ Hok) as Hm. pose proof (bo_syms _ _ Hok) as Hsy.
  assert (c = Stored → is_Some buf) as Hsb by (by intros ->).
  assert (match c with Dynamic mb => built s s1 mb l | _ => True end) as Hc' by (by destruct c).
  assert (c = Stored → zlen data < 2 ^ 16 ∧ bytes data) as Hdata by (intros E; destruct (Hbuf (Hsb E)) as (-> & ? & ?); done).
  destruct (chosen_sent s s1 c l data last Hm1 Hz1 Ht1 Hsy Hc' Hdata buf stored_len Hsl eq_refl
    ltac:(intros E; apply (Hbuf (Hsb E))) Hfit) as [Hw2 Hz2]. cbv zeta in Heq, Hw2, Hz2.
  set (s2 := send_chosen s1 c buf stored_len last) in *.
  assert (writes s s1 []) as Hw1 by (apply writes_same; [done|apply Hfr|split; apply Hfr]).
  destruct (init_block_ok s2 (wr_memory _ _ _ Hw2) Hz2) as [Hok3 Hso3].
  assert (writes s2 (init_block s2) []) as Hw3 by (by apply writes_same; [apply Hw2|..]).
  assert (writes s (init_block s2) (block_of s1 c data l last)) as Hw.
  { rewrite <-(app_nil_r (block_of s1 c data l last)).
    eapply (writes_trans s s1 _ []); [done|done|]. by eapply writes_trans. }
  assert (avail (sent s1) = avail (sent s)) as Ea by (by destruct (same_sent _ _ (proj1 Hfr)) as (-> & _)).
  pose proof (chosen_read s s1 c l data last Hm1 Hsy Hc' Hdata) as Hread. rewrite Ea in Hread.
  assert (3 ≤ fbits (block_of s1 c data l last)) as Hf3 by (pose proof (wr_fields _ _ _ Hw2); destruct c; by eapply head_bits).
  unfold s'. rewrite Heq. set (s3 := init_block s2) in *. clearbody s3. clear Heq. destruct last.
  - assert (0 ≤ room s3) as Hr0.
    { destruct (bo_memory _ _ Hok3) as [[Hp Hb Hv Hu] Hl Hz]. rewrite (wr_room _ _ _ Hw).
      clear - Hfit Hw2 Hw Hm1 Hc' Hsy Hdata Hw1. pose proof (wr_room _ _ _ Hw1) as R1. change (fbits []) with 0 in R1.
      unfold block_fits, block_of in *. destruct c as [| |mb].
      - rewrite fbits_cons, fbits_stored. cbn [snd block_head]. lia.
      - destruct Hfit as [_ H]. rewrite fbits_cons. cbn [snd block_head]. lia.
      - destruct Hfit as [_ H]. rewrite fbits_cons, fbits_app. cbn [snd block_head]. lia. }
    destruct (writes_windup s3 (bo_memory _ _ Hok3) Hr0) as [Hw4 V4].
    destruct (bi_windup_ok s3 (mo_writer _ (bo_memory _ _ Hok3)) Hr0) as (E4 & _ & _).
    set (s4 := bi_windup s3) in *. clearbody s4.
    exists (block_of s1 c data l true ++ [(0, padding s3)]). split; [exact (block_ok_emits _ _ [] _ Hok3 E4 ltac:(done))|].
    pose proof (writes_trans _ _ _ _ _ Hm Hw Hw4) as Hw5. split; [exact Hw5|].
    split; [rewrite fbits_app; cbn [fbits foldr snd]; pose proof (Z.mod_pos_bound (- bi_valid s3) 8 ltac:(lia)); unfold padding; lia|].
    split; [intros _; exact V4|].
    intros fuel hist out r Hr Ha Hrea Hd. rewrite fbits_app in Ha. cbn [fbits foldr snd] in Ha.
    assert (0 ≤ padding s3 < 8) as Hpad by (apply Z.mod_pos_bound; lia).
    pose proof (f_equal avail (wr_sent _ _ _ Hw5)) as Hav.
    change (avail (sent s4)) with (8 * pending s4 + bi_valid s4) in Hav. cbn [avail] in Hav. rewrite V4, fbits_app in Hav. cbn [fbits foldr snd] in Hav.
    set (a0 := avail (sent s)) in *. clearbody a0.
    rewrite feed_app. cbn [feed foldr fst snd]. rewrite Hread; [|simpl; lia|done|intros E; by apply Hd, Hsb|].
    + rewrite align_pad; [done|done|]. Z.div_mod_to_equations. lia.
    + simpl avail. rewrite <-Ha. f_equal. lia.
  - exists (block_of s1 c data l false). split; [exact Hok3|]. split; [exact Hw|]. split; [exact Hf3|]. split; [discriminate|].
    intros fuel hist out r Hr Ha Hrea Hd. apply Hread; [done|done|intros E; by apply Hd, Hsb|done].
Qed.

(** ** The header and the block, read back *)

(** C7. The code lengths of a block survive the header. build_trees makes the
    trees of any block; the bits send_all_trees then appends to the output (the
    three counts, the lengths of the code for lengths in their odd order, and
    both trees as runs of equal lengths) are a header the decoder of RFC 1951
    accepts, and it reads from them exactly the lengths of both trees, leaving
    what follows. *)
Theorem code_lengths_roundtrip s l : block_ok s l →
  let '(s1, mb, _, _) := build_trees s in
  fbits (header_fields s1 mb) ≤ room s1 →
  let s2 := send_all_trees s1 (l_max_code s1 + 1) (d_max_code s1 + 1) (mb + 1) in
  ∃ fs, sent s2 = Bits (value (sent s) + 2 ^ avail (sent s) * fval fs) (avail (sent s) + fbits fs) ∧
  ∀ r, 0 ≤ avail r →
    dynamic (feed fs r) = Ok (tlens (dyn_ltree s1) (l_max_code s1 + 1), tlens (dyn_dtree s1) (d_max_code s1 + 1)) r.
Proof.
  intros Hok. pose proof (build_trees_ok s l Hok) as Hb. destruct (build_trees s) as [[[s1 mb] optb] staticb].
  intros Hr. destruct Hb as [Hrdy Hfr _ _]. destruct (same_sent _ _ (proj1 Hfr)) as (Es & _ & Hw).
  specialize (Hw (mo_writer _ (bo_memory _ _ Hok))).
  exists (header_fields s1 mb). split; [|by apply header_decoded].
  rewrite <-Es. apply (em_sent _ _ _ (send_all_trees_ok s1 mb Hrdy Hw Hr)).
Qed.

(** Five bytes, then a match of seven. *)
Definition sample_syms : list lzsym := [(0, 97); (0, 98); (0, 99); (0, 97); (0, 98); (3, 4)].
Definition sample : deflate_state := tally_all (_tr_init (fresh 128 6 0)) sample_syms.

Lemma init_fresh_ok lvl strat : block_ok (_tr_init (fresh 128 lvl strat)) [].
Proof.
  destruct (fresh_ok lvl strat) as [F1 F2 F3 F4 F5]. by apply tr_init_ok; [rewrite F1, F4; split; lia|..].
Qed.

Lemma sample_block_ok : block_ok sample sample_syms.
Proof.
  apply tally_all_ok; [apply init_fresh_ok| |done|vm_compute; congruence].
  repeat constructor; cbn [fst snd]; unfold ubits; lia.
Qed.

Lemma code_lengths_roundtrip_witness :
  let '(s1, mb, _, _) := build_trees sample in
  let s2 := send_all_trees s1 (l_max_code s1 + 1) (d_max_code s1 + 1) (mb + 1) in
  ∃ fs, sent s2 = Bits (value (sent sample) + 2 ^ avail (sent sample) * fval fs) (avail (sent sample) + fbits fs) ∧
  ∀ r, 0 ≤ avail r →
    dynamic (feed fs r) = Ok (tlens (dyn_ltree s1) (l_max_code s1 + 1), tlens (dyn_dtree s1) (d_max_code s1 + 1)) r.
Proof.
  pose proof (code_lengths_roundtrip sample sample_syms sample_block_ok) as H.
  assert ((let '(s1, mb, _, _) := build_trees sample in fbits (header_fields s1 mb) <=? room s1) = true) as Hr
    by (vm_compute; reflexivity).
  destruct (build_trees sample) as [[[s1 mb] optb] staticb]. apply H. by apply Z.leb_le.
Defined.

(** C6. _tr_flush_block, whichever way it sends the block. For any literals and
    matches tallied since the last block, if the block fits in the pending
    buffer (and its bytes come with it when it may be stored), the bits appended
    to the output are one block (stored, with the fixed codes, or with trees
    of its own) from which the decoder of RFC 1951, after any history, reads
    the bytes the literals and matches stand for and then goes on with what
    follows, or stops if the block was the last. The state is that of an empty
    block again, on a byte boundary after the last one. *)
Theorem flush_block_decodes s l buf stored_len last hist out : block_ok s l → 0 ≤ stored_len →
  (is_Some buf → let data := take (Z.to_nat stored_len) (default [] buf) in
    zlen data = stored_len ∧ stored_len < 2 ^ 16 ∧ bytes data ∧ data = play (hist ++ out) l) →
  block_fits (choose s buf stored_len).1 (choose s buf stored_len).2 (take (Z.to_nat stored_len) (default [] buf)) l →
  reaches (hist ++ out) l →
  let s' := _tr_flush_block s buf stored_len last in
  ∃ fs, sent s' = Bits (value (sent s) + 2 ^ avail (sent s) * fval fs) (avail (sent s) + fbits fs) ∧
  block_ok s' [] ∧ (last = true → bi_valid s' = 0) ∧
  ∀ fuel r, 0 ≤ avail r → (avail (sent s') + avail r) mod 8 = 0 →
    blocks_fuel (S fuel) hist out (feed fs r) =
    if last then Done (out ++ play (hist ++ out) l) r else blocks_fuel fuel hist (out ++ play (hist ++ out) l) r.
Proof.
  intros Hok Hsl Hbuf Hfit Hrea s'.
  destruct (flush_block_ok s l buf stored_len last Hok Hsl ltac:(intros H; by destruct (Hbuf H) as (? & ? & ? & _)) Hfit)
    as (fs & Hok' & Hw & _ & Hv & Hread).
  exists fs. pose proof (wr_sent _ _ _ Hw) as Es. split; [exact Es|]. split; [exact Hok'|]. split; [exact Hv|].
  intros fuel r Hr Ha. apply Hread; [done| |done|intros H; by destruct (Hbuf H) as (_ & _ & _ & ?)].
  pose proof (f_equal avail Es) as Ea. cbn [avail] in Ea. by rewrite <-Ea.
Qed.

(** Twelve bytes that may be stored; the fixed codes are shorter. *)
Definition sample_bytes : list Z := [97; 98; 99; 97; 98; 99; 97; 98; 99; 97; 98; 99].

Lemma flush_block_decodes_witness :
  let s' := _tr_flush_block sample (Some sample_bytes) 12 true in
  (choose sample (Some sample_bytes) 12).2 = Fixed ∧ play [] sample_syms = sample_bytes ∧
  ∃ fs, block_ok s' [] ∧ blocks_fuel 1 [] [] (feed fs (Bits 0 0)) = Done sample_bytes (Bits 0 0).
Proof.
  assert ((choose sample (Some sample_bytes) 12).2 = Fixed) as Ec by (vm_compute; reflexivity).
  assert (play [] sample_syms = sample_bytes) as Ep by (vm_compute; reflexivity).
  split; [done|]. split; [done|].
  destruct (flush_block_decodes sample sample_syms (Some sample_bytes) 12 true [] [] sample_block_ok) as (fs & _ & Hok & _ & H).
  - lia.
  - intros _. cbn zeta. split; [done|]. split; [lia|]. split; [repeat constructor; unfold ubits; lia|done].
  - rewrite Ec. split; [|vm_compute; congruence]. intros k Hk. change (zlen sample_syms) with 6 in Hk.
    assert (k = 0 ∨ k = 1 ∨ k = 2 ∨ k = 3 ∨ k = 4 ∨ k = 5) as [-> | [-> | [-> | [-> | [-> | ->]]]]] by lia; vm_compute; congruence.
  - vm_compute. intuition congruence.
  - exists fs. split; [done|]. rewrite (H 0%nat (Bits 0 0)); [|done|vm_compute; reflexivity]. by rewrite <-Ep.
Defined.

End FlushBlock.
