(* ===== verification/Compressor.v ===== *)
(** * zlib/trees.c, zlib/deflate.c: a whole compressed stream

    The operations of trees.c in any order deflate() may use them, with
    flush_pending of deflate.c moving the pending output to the application in
    pieces of any size. A run is a sequence of steps; whatever the run, the
    stream it wrote decodes to the bytes its literals and matches stand for. *)

From stdpp Require Import relations.
From S2P Require Import Prelude Slices Inftrees InftreesDecode Rfc1951 Symbols TreesTables Trees BitWriter HuffCodes BuildTree CompressBlock BlockTrees BlockHeader BlockState StoredBlock FlushBlock.

Module Compressor.
Import Inftrees Rfc1951 Symbols Trees BitWriter HuffCodes BuildTree CompressBlock BlockTrees BlockHeader BlockState StoredBlock FlushBlock.

(** ** flush_pending *)

(** The compressor and the part of [z_stream] it writes to; [next_out] lists
    the bytes written so far, [pending_out] is an index into [pending_buf]. *)
Record out_stream := Out { comp : deflate_state; pending_out : Z; next_out : list Z; total_out : Z; avail_out : Z }.
#[global] Instance out_stream_eta : Eta out_stream := λ r,
  Out (comp r) (pending_out r) (next_out r) (total_out r) (avail_out r).

Definition flush_pending (z : out_stream) : out_stream :=
  let s := _tr_flush_bits (comp z) in
  let z := z <| comp := s |> in
  let len := if avail_out z <? pending s then avail_out z else pending s in
  if len =? 0 then z
  else
    let z := z <| next_out := next_out z ++ take (Z.to_nat len) (drop (Z.to_nat (pending_out z)) (pending_buf s)) |>
               <| pending_out := pending_out z + len |> <| total_out := u32 (total_out z + len) |>
               <| avail_out := avail_out z - len |> <| comp := s <| pending := pending s - len |> |> in
    if pending (comp z) =? 0 then z <| pending_out := 0 |> else z.

(** The pending bytes not written yet, and all that was sent. *)
Definition unsent (z : out_stream) : list Z :=
  take (Z.to_nat (pending (comp z))) (drop (Z.to_nat (pending_out z)) (pending_buf (comp z))).
Definition all_sent (z : out_stream) : bitstream :=
  let l := next_out z ++ unsent z in
  Bits (le_value l + 2 ^ (8 * zlen l) * bi_buf (comp z)) (8 * zlen l + bi_valid (comp z)).

(** Output is only written while everything pending starts at [pending_buf]. *)
Record stream_ok (z : out_stream) : Prop := {
  so_memory : memory_ok (comp z);
  so_out : 0 ≤ pending_out z;
  so_end : pending_out z + pending (comp z) ≤ zlen (pending_buf (comp z));
  so_bits : pending_out z ≠ 0 → bi_valid (comp z) < 8;
  so_reset : pending (comp z) = 0 → pending_out z = 0;
  so_next : bytes (next_out z);
  so_avail : 0 ≤ avail_out z;
}.

Lemma zlen_unsent z : stream_ok z → zlen (unsent z) = pending (comp z).
Proof.
  intros [Hm H1 H2 _ _ _ _]. destruct (mo_writer _ Hm) as [Hp _ _ _]. unfold unsent, zlen in *.
  rewrite length_take, length_drop. lia.
Qed.

Lemma unsent_output z : pending_out z = 0 → unsent z = output_bytes (comp z).
Proof. intros E. unfold unsent, output_bytes. by rewrite E. Qed.

Lemma all_sent_writes z s' fs gs : stream_ok z → pending_out z = 0 → writes (comp z) s' fs → Forall field_ok gs →
  all_sent z = feed gs (Bits 0 0) → all_sent (z <| comp := s' |>) = feed (gs ++ fs) (Bits 0 0).
Proof.
  intros Hz E [Hm F Hs _ _ _] Hg Ha. pose proof Hz as [Hmz _ _ _ _ _ _].
  unfold all_sent in *. rewrite unsent_output in * by done.
  set (o := next_out z) in *. change (next_out (z <| comp := s' |>)) with o. change (comp (z <| comp := s' |>)) with s'.
  assert (∀ s, memory_ok s → zlen (output_bytes s) = pending s) as Hzl.
  { intros s [[Hp _ _ _] _ _]. unfold output_bytes, zlen in *. rewrite length_take. lia. }
  assert (∀ s, memory_ok s → Bits (le_value (o ++ output_bytes s) + 2 ^ (8 * zlen (o ++ output_bytes s)) * bi_buf s)
      (8 * zlen (o ++ output_bytes s) + bi_valid s) =
    Bits (le_value o + 2 ^ (8 * zlen o) * value (sent s)) (8 * zlen o + avail (sent s))) as Hsplit.
  { intros s Hms. pose proof (zlen_nonneg o). rewrite zlen_app, le_value_app, (Hzl s Hms). destruct Hms as [[Hp _ _ _] _ _].
    rewrite Z.mul_add_distr_l, Z.pow_add_r by lia. unfold sent. cbn [value avail]. f_equal; lia. }
  change (comp (z <| comp := s' |>)) with s' in *. rewrite Hsplit in * by done. rewrite Hs. cbn [value avail].
  rewrite !feed_bits in * by (done || by apply Forall_app). pose proof (f_equal value Ha) as E1. pose proof (f_equal avail Ha) as E2. cbn [value avail] in E1, E2.
  rewrite fval_app, fbits_app by done. pose proof (sent_avail _ Hmz). pose proof (zlen_nonneg o).
  f_equal; [|lia]. rewrite Z.mul_add_distr_l, Z.mul_assoc, <-Z.pow_add_r, Z.add_assoc, E1 by lia.
  replace (8 * zlen o + avail (sent (comp z))) with (fbits gs) by lia. lia.
Qed.

(** flush_pending moves bytes, whatever room there is. *)
Lemma flush_pending_ok z gs : stream_ok z → 0 ≤ room (comp z) → Forall field_ok gs → all_sent z = feed gs (Bits 0 0) →
  let z' := flush_pending z in
  stream_ok z' ∧ all_sent z' = all_sent z ∧
  (pending (_tr_flush_bits (comp z)) ≤ avail_out z → pending (comp z') = 0 ∧ pending_out z' = 0) ∧
  (∃ p, comp z' = (_tr_flush_bits (comp z)) <| pending := p |> ∧ 0 ≤ p ≤ pending (_tr_flush_bits (comp z))).
Proof.
  intros Hz Hr Hg Ha. pose proof Hz as [Hm H1 H2 H3 H6 H4 H5].
  destruct (tr_flush_bits_ok (comp z) Hm Hr) as [Hw Hv]. set (s := _tr_flush_bits (comp z)) in *.
  assert (stream_ok (z <| comp := s |>) ∧ all_sent (z <| comp := s |>) = all_sent z) as [Hz1 Ha1].
  { destruct (decide (pending_out z = 0)) as [E|E].
    - split.
      + pose proof (wr_memory _ _ _ Hw) as Mw. destruct (mo_writer _ Mw) as [Hp _ _ _].
        constructor; cbn [comp pending_out next_out avail_out set_field]; try done; simpl; lia.
      + rewrite Ha. rewrite (all_sent_writes z s [] gs) by done. by rewrite app_nil_r.
    - assert (s = comp z) as ->.
      { unfold s, _tr_flush_bits, bi_flush. specialize (H3 E). destruct (Z.eqb_spec (bi_valid (comp z)) 16); [lia|].
        by destruct (Z.leb_spec 8 (bi_valid (comp z))); [lia|]. }
      assert (z <| comp := comp z |> = z) as -> by (by destruct z). done. }
  unfold flush_pending. fold s. set (z1 := z <| comp := s |>) in *.
  assert (comp z1 = s ∧ avail_out z1 = avail_out z) as [Ec Ev] by done. rewrite <-Ev in *. clearbody z1.
  pose proof Hz1 as [M1 O1 E1 B1 R1 N1 A1]. rewrite Ec in *. pose proof (mo_writer _ M1) as [Hp Hb Hbv Hbb].
  set (len := if avail_out z1 <? pending s then avail_out z1 else pending s).
  assert (0 ≤ len ≤ pending s ∧ len ≤ avail_out z1 ∧ (pending s ≤ avail_out z1 → len = pending s)) as (L1 & L2 & L3)
    by (unfold len; destruct (Z.ltb_spec (avail_out z1) (pending s)); lia).
  clearbody len. destruct (Z.eqb_spec len 0) as [E0|E0].
  { split; [done|]. split; [done|]. split.
    - intros Hle. specialize (L3 Hle). rewrite Ec. split; [lia|]. apply R1. lia.
    - exists (pending s). split; [|lia]. rewrite Ec. by destruct s. }
  set (moved := take (Z.to_nat len) (drop (Z.to_nat (pending_out z1)) (pending_buf s))).
  assert (zlen moved = len) as Zm by (unfold moved, zlen in *; rewrite length_take, length_drop; lia).
  assert (bytes moved) as Bm by (by apply Forall_take, Forall_drop).
  set (s2 := s <| pending := pending s - len |>).
  assert (memory_ok s2) as M2.
  { destruct M1 as [_ ? ?]. constructor; simpl; try done. constructor; simpl; try done. lia. }
  assert (∀ po, (po = 0 ∧ pending s2 = 0 ∨ po = pending_out z1 + len ∧ pending s2 ≠ 0) →
    let z2 := Out s2 po (next_out z1 ++ moved) (u32 (total_out z1 + len)) (avail_out z1 - len) in
    stream_ok z2 ∧ all_sent z2 = all_sent z1) as Hfin.
  { intros po Hpo z2. assert (bi_valid s2 = bi_valid s ∧ bi_buf s2 = bi_buf s ∧ pending s2 = pending s - len ∧
      pending_buf s2 = pending_buf s) as (Q1 & Q2 & Q3 & Q4) by done.
    assert (unsent z1 = moved ++ unsent z2) as Eu.
    { unfold unsent, moved, z2. cbn [comp pending_out]. rewrite Q3, Q4, Ec.
      replace (Z.to_nat (pending s)) with (Z.to_nat len + Z.to_nat (pending s - len))%nat by lia.
      rewrite <-(take_drop (Z.to_nat len) (drop (Z.to_nat (pending_out z1)) (pending_buf s))) at 1.
      assert (length (take (Z.to_nat len) (drop (Z.to_nat (pending_out z1)) (pending_buf s))) = Z.to_nat len) as El
        by (unfold moved, zlen in Zm; lia).
      rewrite take_app_add' by done. f_equal. destruct Hpo as [[-> Hp0]|[-> _]].
      - replace (Z.to_nat (pending s - len)) with 0%nat by lia. done.
      - rewrite drop_drop. do 2 f_equal. lia. }
    split.
    - assert (0 ≤ po ∧ po + (pending s - len) ≤ zlen (pending_buf s)) as [P1 P2]
        by (rewrite <-Q3; destruct Hpo as [[-> ?]|[-> ?]]; lia).
      constructor; unfold z2; cbn [comp pending_out next_out avail_out].
      + exact M2.
      + exact P1.
      + rewrite Q3, Q4. exact P2.
      + rewrite Q1. intros _. exact Hv.
      + intros Hp0. destruct Hpo as [[-> ?]|[-> ?]]; [done|lia].
      + by apply Forall_app.
      + lia.
    - unfold all_sent. rewrite Eu. change (next_out z2) with (next_out z1 ++ moved). change (comp z2) with s2.
      rewrite Ec, Q1, Q2, <-app_assoc. done. }
  cbn zeta. set (z2 := z1 <| next_out := _ |> <| pending_out := _ |> <| total_out := _ |> <| avail_out := _ |> <| comp := s2 |>).
  assert (z2 = Out s2 (pending_out z1 + len) (next_out z1 ++ moved) (u32 (total_out z1 + len)) (avail_out z1 - len)) as E2
    by (by destruct z1).
  clearbody z2. subst z2. cbn [comp]. assert (pending s2 = pending s - len) as Q3 by done.
  destruct (Z.eqb_spec (pending s2) 0) as [Ep|Ep].
  - destruct (Hfin 0 ltac:(by left)) as [A B]. split; [exact A|]. split; [etransitivity; [exact B|exact Ha1]|]. split; [done|].
    exists (pending s - len). split; [done|lia].
  - destruct (Hfin _ ltac:(right; split; [reflexivity|exact Ep])) as [A B]. split; [exact A|]. split; [etransitivity; [exact B|exact Ha1]|].
    split; [intros Hle; specialize (L3 Hle); lia|]. exists (pending s - len). split; [done|lia].
Qed.

(** ** Runs of the compressor *)

(** The literals and matches of the block so far, and the bytes of the blocks
    before it. *)
Record session := Session { strm : out_stream; syms : list lzsym; done : list Z; closed : bool }.

Definition data (c : session) : list Z := done c ++ play (done c) (syms c).

(** deflate() writes only when the pending output begins at [pending_buf];
    flush_pending and a new output buffer are possible at any time. *)
Inductive step : session → session → Prop :=
  | step_tally z l out x : pending_out z = 0 → sym_ok x → x.1 ≤ zlen (out ++ play out l) →
      zlen l + 1 < lit_bufsize (comp z) → pending (comp z) ≤ d_at (comp z) (zlen l) →
      step (Session z l out false) (Session (z <| comp := (_tr_tally (comp z) x.1 x.2).1 |>) (l ++ [x]) out false)
  | step_block z l out buf stored_len last : pending_out z = 0 → 0 ≤ stored_len →
      let data := take (Z.to_nat stored_len) (default [] buf) in
      (is_Some buf → zlen data = stored_len ∧ stored_len < 2 ^ 16 ∧ bytes data ∧ data = play out l) →
      block_fits (choose (comp z) buf stored_len).1 (choose (comp z) buf stored_len).2 data l →
      step (Session z l out false)
        (Session (z <| comp := _tr_flush_block (comp z) buf stored_len last |>) [] (out ++ play out l) last)
  | step_align z out : pending_out z = 0 → 10 ≤ room (comp z) →
      step (Session z [] out false) (Session (z <| comp := _tr_align (comp z) |>) [] out false)
  | step_sync z out : pending_out z = 0 → 42 ≤ room (comp z) →
      step (Session z [] out false) (Session (z <| comp := _tr_stored_block (comp z) None 0 false |>) [] out false)
  | step_flush z l out cl : 0 ≤ room (comp z) → (l ≠ [] → pending (comp z) + 2 ≤ lit_bufsize (comp z)) →
      step (Session z l out cl) (Session (flush_pending z) l out cl)
  | step_room z l out cl n : 0 ≤ n → step (Session z l out cl) (Session (z <| avail_out := n |>) l out cl).

Lemma play_snoc h l x : play h (l ++ [x]) = play h l ++ sym_bytes x (h ++ play h l).
Proof.
  revert h. induction l as [|y l IH]; intros h; simpl; [by rewrite !app_nil_r|].
  rewrite IH, <-!app_assoc. done.
Qed.

Lemma reaches_snoc h l x : reaches h (l ++ [x]) ↔ reaches h l ∧ x.1 ≤ zlen (h ++ play h l).
Proof.
  revert h. induction l as [|y l IH]; intros h; simpl; [rewrite app_nil_r; tauto|].
  rewrite IH, <-app_assoc. tauto.
Qed.

(** What is known of a run: the stream read so far, and what it read. *)
Record session_ok (c : session) : Prop := {
  sn_stream : stream_ok (strm c);
  sn_block : block_ok (comp (strm c)) (syms c);
  sn_reaches : reaches (done c) (syms c);
  sn_read : ∃ fs n, Forall field_ok fs ∧ all_sent (strm c) = feed fs (Bits 0 0) ∧ Z.of_nat n ≤ fbits fs ∧
    ∀ fuel r, 0 ≤ avail r → (fbits fs + avail r) mod 8 = 0 →
      blocks_fuel (n + fuel) [] [] (feed fs r) = if closed c then Done (done c) r else blocks_fuel fuel [] (done c) r;
  sn_closed : closed c = true → bi_valid (comp (strm c)) = 0 ∧ syms c = [];
}.

Lemma stream_writes z s' fs : stream_ok z → pending_out z = 0 → writes (comp z) s' fs → stream_ok (z <| comp := s' |>).
Proof.
  intros [Hm H1 H2 H3 H6 H4 H5] E Hw. pose proof (wr_memory _ _ _ Hw) as Mw. destruct (mo_writer _ Mw) as [Hp _ _ _].
  constructor; cbn [comp pending_out next_out avail_out set_field]; try done; simpl; lia.
Qed.

(** A step that writes [fs], read as some block without changing the rest. *)
Lemma session_writes z l out s' l' out' last fs : session_ok (Session z l out false) → pending_out z = 0 →
  writes (comp z) s' fs → block_ok s' l' → reaches out' l' →
  ((fs = [] ∧ out' = out ∧ last = false) ∨
   3 ≤ fbits fs ∧ ∀ fuel r, 0 ≤ avail r → (avail (sent (comp z)) + fbits fs + avail r) mod 8 = 0 →
     blocks_fuel (S fuel) [] out (feed fs r) = if last then Done out' r else blocks_fuel fuel [] out' r) →
  (last = true → bi_valid s' = 0 ∧ l' = []) →
  session_ok (Session (z <| comp := s' |>) l' out' last).
Proof.
  intros [Hs Hb Hr (gs & n & Hg & Ha & Hn & Hread) _] E Hw Hb' Hr' Hcase Hlast. cbn [strm syms done closed] in *.
  pose proof (wr_fields _ _ _ Hw) as Hf. pose proof (fbits_nonneg _ Hf). pose proof (fbits_nonneg _ Hg).
  constructor; simpl; [by eapply stream_writes|done|done| |done].
  exists (gs ++ fs). pose proof (all_sent_writes z s' fs gs Hs E Hw Hg Ha) as Ha'.
  assert ((avail (sent (comp z)) - fbits gs) mod 8 = 0) as Hmod.
  { pose proof (f_equal avail Ha) as Ea. rewrite avail_feed in Ea by done. unfold all_sent in Ea. cbn [avail] in Ea.
    rewrite zlen_app, (zlen_unsent z Hs) in Ea. change (avail (sent (comp z))) with (8 * pending (comp z) + bi_valid (comp z)).
    Z.div_mod_to_equations. lia. }
  destruct Hcase as [(-> & -> & ->)|[H3 Hcase]].
  - exists n. rewrite app_nil_r in *. by split_and!.
  - exists (n + 1)%nat. split; [by apply Forall_app|]. split; [done|]. rewrite fbits_app. split; [lia|].
    intros fuel r Hr0 Hal. rewrite feed_app. replace (n + 1 + fuel)%nat with (n + S fuel)%nat by lia.
    rewrite Hread; [apply Hcase; [done|]|rewrite avail_feed by done; lia|rewrite avail_feed by done; rewrite Z.add_assoc; done].
    Z.div_mod_to_equations. lia.
Qed.

Lemma block_ok_pending s l p : block_ok s l → 0 ≤ p ≤ pending s → block_ok (s <| pending := p |>) l.
Proof.
  intros [[[H1 H2 H3 H4] H5 H6] [Z1 Z2 Z3 Z4] [T1 T2 T3 T4 T5] Fl Fd Fb Hsy] Hp.
  constructor; [|by constructor|by constructor|done..]. constructor; [|done|done]. constructor; simpl; try done; lia.
Qed.

Lemma session_step c c' : session_ok c → step c c' → session_ok c'.
Proof.
  intros Hc Hst. destruct Hst as [z l out x E Hx Hreach Hlit Hpend|z l out buf sl last E Hsl dat Hbuf Hfit|z out E Hr|z out E Hr
    |z l out cl Hr Hp|z l out cl n Hn].
  - pose proof Hc as [Hs Hb Hr _ _]. cbn [strm syms done closed] in *.
    destruct (tr_tally_ok (comp z) l x Hb Hx Hlit Hpend) as (Hb' & _ & Es & Ep & Ev & El).
    eapply (session_writes z l out _ (l ++ [x]) out false []); try done; [|by apply reaches_snoc|by left].
    constructor; [apply Hb'|constructor| |done| |unfold _tr_tally; by destruct (x.1 =? 0)].
    + rewrite Es. change (fval []) with 0. change (fbits []) with 0. destruct (sent (comp z)). cbn [value avail]. f_equal; lia.
    + unfold room. rewrite Ep, Ev. destruct (bo_memory _ _ Hb') as [_ _ Z1]. destruct (bo_memory _ _ Hb) as [_ _ Z2].
      rewrite Z1, Z2, El. change (fbits []) with 0. lia.
  - pose proof Hc as [Hs Hb Hr _ _]. cbn [strm syms done closed] in *.
    destruct (flush_block_ok (comp z) l buf sl last Hb Hsl) as (fs & Hb' & Hw & Hf3 & Hv & Hread); [|done|].
    { intros H. destruct (Hbuf H) as (? & ? & ? & _). done. }
    eapply (session_writes z l out _ [] (out ++ play out l) last fs); try done.
    + right. split; [done|]. intros fuel r Hr0 Hal. apply (Hread fuel [] out r Hr0 Hal Hr). intros H. apply (Hbuf H).
    + intros El. by split; [apply Hv|].
  - pose proof Hc as [Hs Hb Hr' _ _]. cbn [strm syms done closed] in *.
    destruct (tr_align_ok (comp z) (bo_memory _ _ Hb) Hr) as [Hem _].
    eapply (session_writes z [] out _ [] out false); try done; [by apply writes_emits; [apply Hb|]|by eapply block_ok_emits|].
    right. split; [done|]. intros. by apply align_read.
  - pose proof Hc as [Hs Hb Hr' _ _]. cbn [strm syms done closed] in *. pose proof (pad_after_range (comp z) 3).
    destruct (stored_block_ok (comp z) None 0 false (bo_memory _ _ Hb)) as [Hem _]; [lia|done|constructor|lia|].
    eapply (session_writes z [] out _ [] out false); try done; [by apply writes_emits; [apply Hb|]|by eapply block_ok_emits|].
    right. split; [rewrite fbits_cons, fbits_stored; change (zlen _) with 0; simpl; lia|]. intros fuel r Hr0 Hal.
    pose proof (stored_block_read (comp z) [] false fuel [] out r (bo_memory _ _ Hb) ltac:(done) ltac:(constructor) Hr0 Hal) as H'.
    rewrite app_nil_r in H'. exact H'.
  - destruct Hc as [Hs Hb Hr' (gs & n & Hg & Ha & Hn & Hread) Hcl]. cbn [strm syms done closed] in *.
    destruct (flush_pending_ok z gs Hs Hr Hg Ha) as (Hs' & Ha' & _ & (p & Ec & Hp0)).
    destruct (bi_flush_ok (comp z) (mo_writer _ (so_memory _ Hs)) Hr) as [Hem _]. fold (_tr_flush_bits (comp z)) in Hem.
    assert (block_ok (_tr_flush_bits (comp z)) l) as Hb'.
    { eapply block_ok_emits; [done|done|]. intros Hl. pose proof (emits_pending _ _ _ Hem) as Hpd.
      destruct (mo_writer _ (so_memory _ Hs)) as [_ _ Hv _]. specialize (Hp Hl). change (fbits []) with 0 in Hpd. lia. }
    constructor; cbn [strm syms done closed]; [done| |done| |].
    + rewrite Ec. by apply block_ok_pending.
    + exists gs, n. rewrite Ha'. done.
    + intros El. destruct (Hcl El) as [Hv ->]. split; [|done]. rewrite Ec. change (bi_valid (_tr_flush_bits (comp z)) = 0).
      unfold _tr_flush_bits, bi_flush. by rewrite Hv.
  - destruct Hc as [Hs Hb Hr' (gs & n' & Hg & Ha & Hn' & Hread) Hcl]. cbn [strm syms done closed] in *.
    constructor; cbn [strm syms done closed]; try done; [by destruct Hs; constructor|]. by exists gs, n'.
Qed.

Definition start (s : deflate_state) (n : Z) : session := Session (Out (_tr_init s) 0 [] 0 n) [] [] false.

Lemma start_ok s n : fresh_memory s → 0 ≤ n → session_ok (start s n).
Proof.
  intros [F1 F2 F3 F4 F5] Hn. pose proof (zlen_nonneg (pending_buf s)).
  destruct (tr_init_ok s ltac:(lia) F2 F3 F4 F5) as [Hb Hv].
  assert (pending (_tr_init s) = 0) as Ep by (etransitivity; [|exact F1]; done).
  assert (bi_buf (_tr_init s) = 0) as Eb by done.
  constructor; unfold start; cbn [strm syms done closed]; [|done|done| |done].
  - constructor; cbn [comp pending_out next_out avail_out]; try done; [apply Hb|]. rewrite Ep. destruct Hb as [[_ _ Hz] _ _ _ _ _ _].
    apply zlen_nonneg.
  - exists [], 0%nat. split; [constructor|]. split; [|split; [done|done]].
    unfold all_sent, unsent. cbn [comp next_out pending_out]. rewrite Ep, Eb, Hv. done.
Qed.

Lemma steps_ok c c' : rtc step c c' → session_ok c → session_ok c'.
Proof. induction 1 as [|c c1 c' Hs _ IH]; [done|]. intros Hc. by apply IH, (session_step c). Qed.

Lemma run_ok s n c : fresh_memory s → 0 ≤ n → rtc step (start s n) c → session_ok c.
Proof.
  intros Hf Hn Hr. by eapply steps_ok, start_ok.
Qed.

(** What a closed run wrote and has still to write is one whole stream. *)
Lemma closed_stream c : session_ok c → closed c = true →
  blocks [] (of_bytes (next_out (strm c) ++ unsent (strm c))) = Done (done c) (of_bytes []) ∧
  bytes (next_out (strm c) ++ unsent (strm c)).
Proof.
  intros [Hs Hb Hr (gs & n & Hg & Ha & Hn & Hread) Hcl] Ec. destruct (Hcl Ec) as [Hv _]. rewrite Ec in Hread.
  pose proof (so_memory _ Hs) as [[_ Hby _ Hbuf] _ _]. rewrite Hv in Hbuf.
  split; [|apply Forall_app; split; [apply Hs|by apply Forall_take, Forall_drop]].
  set (l := next_out (strm c) ++ unsent (strm c)).
  assert (of_bytes l = feed gs (Bits 0 0)) as El.
  { rewrite <-Ha. unfold all_sent, of_bytes. fold l. rewrite Hv. assert (bi_buf (comp (strm c)) = 0) as ->; [|f_equal; lia].
    unfold ubits in Hbuf. lia. }
  pose proof (f_equal avail El) as Ea. rewrite avail_feed in Ea by done. cbn [avail of_bytes] in Ea.
  unfold blocks. rewrite El, avail_feed by done. cbn [avail].
  replace (S (Z.to_nat (fbits gs + 0))) with (n + (S (Z.to_nat (fbits gs + 0)) - n))%nat by lia.
  change (of_bytes []) with (Bits 0 0). apply Hread; [done|]. cbn [avail]. rewrite <-Ea. rewrite Z.mul_comm. apply Z.mod_mul. lia.
Qed.

(** C3. The compressor's output decodes to what was tallied, in any run. From
    the memory deflateInit2_ allocates and _tr_init, take any sequence of
    _tr_tally, _tr_flush_block (each block stored, with the fixed codes or with
    its own trees, as the code chooses), _tr_align, empty stored blocks and
    flush_pending into output buffers of any sizes, where each block fits in the
    pending buffer, no match reaches before the start of the data and a block
    offered as stored comes with its bytes. Once a last block was flushed, the
    bytes written and those still pending are a complete stream, and the
    decoder of RFC 1951 reads from it exactly the bytes that the
    literals and matches stand for, up to its last byte. *)
Theorem session_decodes s n c : fresh_memory s → 0 ≤ n → rtc step (start s n) c → closed c = true →
  blocks [] (of_bytes (next_out (strm c) ++ unsent (strm c))) = Done (done c) (of_bytes []) ∧
  (pending (comp (strm c)) = 0 → blocks [] (of_bytes (next_out (strm c))) = Done (done c) (of_bytes [])).
Proof.
  intros Hf Hn Hr Ec. pose proof (run_ok s n c Hf Hn Hr) as Hok. destruct (closed_stream c Hok Ec) as [H _].
  split; [done|]. intros Ep. unfold unsent in H. rewrite Ep in H. change (take (Z.to_nat 0) _) with (@nil Z) in H.
  by rewrite app_nil_r in H.
Qed.

(** ** A small run *)

(** The conditions of the steps, decided. *)
Definition tally_check (c : session) (x : lzsym) : bool :=
  (pending_out (strm c) =? 0) && negb (closed c) && (0 <=? x.1) && (x.1 <=? 2 ^ 15) && (0 <=? x.2) && (x.2 <? 2 ^ 8)
  && (x.1 <=? zlen (data c)) && (zlen (syms c) + 1 <? lit_bufsize (comp (strm c)))
  && (pending (comp (strm c)) <=? d_at (comp (strm c)) (zlen (syms c))).
Definition tally (c : session) (x : lzsym) : session :=
  Session ((strm c) <| comp := (_tr_tally (comp (strm c)) x.1 x.2).1 |>) (syms c ++ [x]) (done c) false.

Lemma tally_step c x : tally_check c x = true → step c (tally c x).
Proof.
  destruct c as [z l out cl]. unfold tally_check, tally. cbn [strm syms done closed]. intros H.
  repeat (apply andb_true_iff in H as [H ?]). destruct cl; [done|]. unfold data in *. cbn [syms done] in *.
  apply step_tally; try lia. split; unfold ubits; lia.
Qed.

Definition fits_check (hdr : Z) (lt dt : list ct_data) (s : deflate_state) (l : list lzsym) : bool :=
  forall_range (λ k, (8 * pending s + bi_valid s + (hdr + fbits (syms_fields lt dt (take (Z.to_nat k) l)))) / 8 <=? d_at s k)
    0 (length l) && (hdr + fbits (block_fields lt dt l) <=? room s).
Definition block_check (c : session) : bool :=
  match (choose (comp (strm c)) None 0).2 with
  | Stored => false
  | Fixed => fits_check 3 static_ltree static_dtree (choose (comp (strm c)) None 0).1 (syms c)
  | Dynamic mb =>
      let s := (choose (comp (strm c)) None 0).1 in
      fits_check (3 + fbits (header_fields s mb)) (dyn_ltree s) (dyn_dtree s) s (syms c)
  end.
Definition end_block (c : session) (last : bool) : session :=
  Session ((strm c) <| comp := _tr_flush_block (comp (strm c)) None 0 last |>) [] (data c) last.

Lemma fits_checked hdr lt dt s l : fits_check hdr lt dt s l = true → fits_after hdr lt dt s l.
Proof.
  intros [H1 H2%Z.leb_le]%andb_true_iff. split; [|done]. intros k Hk.
  apply (forall_range_spec _ _ _ k) in H1; [by apply Z.leb_le|]. unfold zlen in Hk. lia.
Qed.

Lemma block_step c last : pending_out (strm c) = 0 → closed c = false → block_check c = true → step c (end_block c last).
Proof.
  destruct c as [z l out cl]. unfold block_check, end_block. cbn [strm syms done closed]. intros Ez -> H.
  apply (step_block z l out None 0 last Ez ltac:(lia)); [by intros [? ?]|]. unfold block_fits.
  destruct (choose (comp z) None 0).2; [done|by apply fits_checked..].
Qed.

Definition drain (c : session) (n : Z) : session :=
  Session (flush_pending ((strm c) <| avail_out := n |>)) (syms c) (done c) (closed c).

Lemma drain_step c n : 0 ≤ n → 0 ≤ room (comp (strm c)) → syms c = [] → rtc step c (drain c n).
Proof.
  destruct c as [z l out cl]. unfold drain. cbn [strm syms done closed]. intros Hn Hr ->.
  eapply rtc_l; [by apply (step_room z [] out cl n)|]. apply rtc_once. by apply step_flush.
Qed.

(** Eight times the same byte: a literal, a match that overlaps itself; the
    last block is flushed and moves out three bytes and then the rest. *)
Definition c2 : session := tally (tally (start (fresh 128 6 0) 3) (0, 97)) (1, 4).
Definition c3 : session := end_block c2 true.
Definition c6 : session := drain (drain c3 3) 8.

Lemma small_run : rtc step (start (fresh 128 6 0) 3) c6.
Proof.
  eapply rtc_l; [apply (tally_step _ (0, 97)); vm_compute; reflexivity|].
  eapply rtc_l; [apply (tally_step _ (1, 4)); vm_compute; reflexivity|]. fold c2.
  eapply rtc_l; [apply (block_step c2 true); vm_compute; reflexivity|]. fold c3.
  etransitivity; [apply (drain_step c3 3); vm_compute; congruence|].
  apply (drain_step (drain c3 3) 8); vm_compute; congruence.
Qed.

Lemma session_decodes_witness : next_out (strm c6) = [75; 132; 2; 0] ∧
  blocks [] (of_bytes [75; 132; 2; 0]) = Done (replicate 8 97) (of_bytes []).
Proof.
  assert (next_out (strm c6) = [75; 132; 2; 0]) as E by (vm_compute; reflexivity). split; [exact E|].
  rewrite <-E. apply (session_decodes (fresh 128 6 0) 3 c6).
  - apply fresh_ok.
  - lia.
  - apply small_run.
  - reflexivity.
  - vm_compute. reflexivity.
Defined.

(** ** Where the output overruns the symbols *)

(** 127 matches of 253 bytes at a distance of 20000, and the fixed codes. *)
Definition far_syms : list lzsym := replicate (Z.to_nat 127) (20000, 250).
Definition far_block : deflate_state := tally_all (_tr_init (fresh 128 6 Z_FIXED)) far_syms.

(** The state of compress_block before it reads the symbol [k]. *)
Definition before_symbol (k : Z) : deflate_state :=
  (for_ 0 k (λ _, compress_step static_ltree static_dtree)
     (send_bits far_block ((STATIC_TREES ≪ 1) + Z.b2z true) 3, 0)).1.

(** C8. With Z_FIXED the output can overrun the matches it is made from. With
    [memLevel] 1 (128 symbols), 127 tallied matches, all valid, and an empty
    pending buffer that has room for their whole block, compress_block
    writes with 31 bits a match but only moves on 16 bits of [d_buf]: before it
    reads the match 70 the output has written over it, and the block that ends up in
    the pending buffer is shorter than the codes of what was tallied. *)
Theorem fixed_block_overruns :
  let s' := _tr_flush_block far_block None 0 true in
  block_ok far_block far_syms ∧ pending far_block = 0 ∧
  3 + fbits (block_fields static_ltree static_dtree far_syms) + 7 ≤ room far_block ∧
  d_buf far_block 70 = 20000 ∧ d_buf (before_symbol 70) 70 ≠ 20000 ∧
  avail (sent s') < 3 + fbits (block_fields static_ltree static_dtree far_syms).
Proof.
  assert (block_ok far_block far_syms) as Hb.
  { apply tally_all_ok; [apply init_fresh_ok| |done|vm_compute; congruence].
    apply Forall_replicate. split; cbn [fst snd]; unfold ubits; lia. }
  split; [exact Hb|]. vm_compute. intuition congruence.
Qed.

End Compressor.
