(* ===== verification/CompressInflate.v ===== *)
(** * Compression and decompression together

    trees.c on one side, inflate.c on the other: what a run of the compressor
    writes, inflate() turns back into the bytes that were compressed. *)

From Stdlib Require Import String.
From stdpp Require Import relations.
From S2P Require Import Prelude Inftrees Rfc1951 InflateState Inflate Window Blocks RawInflate Trees CompressBlock BlockState Compressor.

Module CompressInflate.
Import InflateState Inflate Window Blocks RawInflate.

(** C1. Round trip. Take any run of the compressor that flushed its last block and
    moved all its output to the application, and give the bytes it wrote to
    inflate(), in one call on a fresh raw stream of any window size with room
    for one byte more than the data: it returns Z_STREAM_END, it has written
    exactly the bytes that were compressed, and it has used up the input. *)
Theorem inflate_restores d n c ZALLOC fresh s0 wb flush :
  BlockState.fresh_memory d → 0 ≤ n → rtc Compressor.step (Compressor.start d n) c → Compressor.closed c = true →
  Trees.pending (Compressor.comp (Compressor.strm c)) = 0 →
  let input := Compressor.next_out (Compressor.strm c) in
  allocates ZALLOC → arrays fresh → 8 ≤ wb ≤ 15 → no_stop flush →
  out_null s0 = false → next_in s0 = InBuf input → zlen (Compressor.done c) < avail_out s0 →
  ∃ s n ret s',
    inflateInit2_ (Some fresh) (Some s0) (- wb) (Some ZLIB_VERSION) sizeof_z_stream = (Z_OK, Some s) ∧
    (∀ fuel, (n ≤ fuel)%nat → inflate ZALLOC fuel (Some s) flush = Returned ret (Some s')) ∧
    written s' = written s0 ++ Compressor.done c ∧ ret = Z_STREAM_END ∧ next_in s' = InBuf [].
Proof.
  intros Hd Hn Hrun Hcl Hp input Hz Harr Hwb Hfl Hon Hin Hroom.
  destruct (Compressor.closed_stream c (Compressor.run_ok d n c Hd Hn Hrun) Hcl) as [Ho Hby].
  assert (Compressor.next_out (Compressor.strm c) ++ Compressor.unsent (Compressor.strm c) = input) as E.
  { unfold Compressor.unsent. rewrite Hp. change (take (Z.to_nat 0) _) with (@nil Z). apply app_nil_r. }
  rewrite E in Ho, Hby.
  destruct (init_stream fresh s0 (- wb) 0 wb (wrap_request_raw wb Hwb) Hwb) as (s & Hi & Hck & Hon' & Hn' & Hw & Ha).
  assert (raw_ready s (init_state fresh s0 0 wb) [] (written s0) input) as Hr.
  { split; try done; try congruence. right. split_and!; try done. simpl. lia. }
  pose proof (inflate_raw ZALLOC flush s _ [] (written s0) input Hr Hz Hfl) as H. cbv zeta in H. rewrite Ho, Ha in H.
  destruct (H Hroom) as (m & ret & s' & H1 & H2 & _ & H3 & H4).
  exists s, m, ret, s'. split; [done|]. split; [done|]. split; [done|]. split; [done|]. rewrite H4.
  cbn [Rfc1951.avail Rfc1951.of_bytes]. change (8 * zlen [] `div` 8) with 0. rewrite Z.sub_0_r. f_equal.
  apply drop_ge. unfold zlen. lia.
Qed.

Lemma inflate_restores_witness : ∃ s n ret s',
  inflateInit2_ (Some (fresh_raw 0)) (Some (hello_stream [75; 132; 2; 0])) (- 15) (Some ZLIB_VERSION) sizeof_z_stream
    = (Z_OK, Some s) ∧
  (∀ fuel, (n ≤ fuel)%nat → inflate zero_alloc fuel (Some s) Z_FINISH = Returned ret (Some s')) ∧
  written s' = replicate 8 97 ∧ ret = Z_STREAM_END ∧ next_in s' = InBuf [].
Proof.
  apply (inflate_restores (BlockState.fresh 128 6 0) 3 Compressor.c6 zero_alloc (fresh_raw 0) (hello_stream [75; 132; 2; 0]) 15 Z_FINISH).
  - apply BlockState.fresh_ok.
  - lia.
  - apply Compressor.small_run.
  - reflexivity.
  - vm_compute. reflexivity.
  - done.
  - done.
  - lia.
  - done.
  - reflexivity.
  - vm_compute. reflexivity.
  - vm_compute. reflexivity.
Defined.

End CompressInflate.
