(* ===== verification/StdMap.v ===== *)
(** * Ordered maps

    A [std::map] with string keys is the list of its entries in the order of the
    keys, each key once ([sorted]); iteration is the order of the list. A
    [std::string] is the list of its bytes. *)

From Stdlib Require Import ZArith Lia Sorted.
From S2P Require Import Prelude.

Module StdMap.

Definition smap (A : Type) : Type := list (list Z * A).

(** The order of [std::string]: bytes compared from the first. *)
Fixpoint key_compare (a b : list Z) : comparison :=
  match a, b with
  | [], [] => Eq
  | [], _ => Lt
  | _, [] => Gt
  | x :: a, y :: b => match x ?= y with Eq => key_compare a b | c => c end
  end.

(** [m.find(k)]. *)
Fixpoint map_find {A} (m : smap A) (k : list Z) : option A :=
  match m with
  | [] => None
  | (k', x) :: m => match key_compare k k' with Eq => Some x | _ => map_find m k end
  end.

(** [m[k]], default-constructed when absent. *)
Definition map_at {A} (d : A) (m : smap A) (k : list Z) : A := default d (map_find m k).

(** [m[k] = x]. *)
Fixpoint map_set {A} (m : smap A) (k : list Z) (x : A) : smap A :=
  match m with
  | [] => [(k, x)]
  | (k', x') :: m' =>
      match key_compare k k' with
      | Lt => (k, x) :: m
      | Eq => (k, x) :: m'
      | Gt => (k', x') :: map_set m' k x
      end
  end.

(** [m.erase(k)]. *)
Fixpoint map_erase {A} (m : smap A) (k : list Z) : smap A :=
  match m with
  | [] => []
  | (k', x') :: m' => match key_compare k k' with Eq => m' | _ => (k', x') :: map_erase m' k end
  end.

(** ** The order of keys *)

Lemma key_compare_refl a : key_compare a a = Eq.
Proof. induction a as [|x a IH]; cbn; [done|]. by rewrite Z.compare_refl. Qed.

Lemma key_compare_antisym a b : key_compare b a = CompOpp (key_compare a b).
Proof.
  revert b. induction a as [|x a IH]; intros [|y b]; cbn; try done.
  rewrite (Z.compare_antisym x y). destruct (x ?= y); cbn; [apply IH|done..].
Qed.

Lemma key_eq a b : key_compare a b = Eq ↔ a = b.
Proof.
  split; [|intros ->; apply key_compare_refl].
  revert b. induction a as [|x a IH]; intros [|y b]; cbn; try done.
  destruct (Z.compare_spec x y) as [-> | |]; [|done..]. intros E. by rewrite (IH b E).
Qed.

Lemma key_lt_trans a b c : key_compare a b = Lt → key_compare b c = Lt → key_compare a c = Lt.
Proof.
  revert b c. induction a as [|x a IH]; intros [|y b] [|z c]; cbn; try done.
  destruct (Z.compare_spec x y) as [-> |Hxy|]; [|intros _|done].
  - destruct (Z.compare_spec y z); [by apply IH|done..].
  - destruct (Z.compare_spec y z) as [-> |Hyz|]; [|intros _|done]; by destruct (Z.compare_spec x z); try lia.
Qed.

(** The keys of a map, in order and each once. *)
Definition sorted {A} (m : smap A) : Prop := StronglySorted (λ a b, key_compare a.1 b.1 = Lt) m.

Definition before {A} (m : smap A) (k : list Z) : Prop := Forall (λ e, key_compare e.1 k = Lt) m.

Lemma after_gt {A} (e : list Z * A) k : key_compare e.1 k = Lt → key_compare k e.1 = Gt.
Proof. intros E. by rewrite key_compare_antisym, E. Qed.

Section Map.
Context {A : Type}.
Implicit Types (m : smap A) (x : A).

(** ** Adding after the last key *)

Lemma map_find_new m k : before m k → map_find m k = None.
Proof. induction 1 as [|[k' x] m Hk Hm IH]; cbn; [done|]. apply after_gt in Hk. cbn in Hk. by rewrite Hk. Qed.

Lemma map_at_new d m k : before m k → map_at d m k = d.
Proof. intros Hm. unfold map_at. by rewrite map_find_new. Qed.

Lemma map_set_new m k x : before m k → map_set m k x = m ++ [(k, x)].
Proof. induction 1 as [|[k' x'] m Hk Hm IH]; cbn; [done|]. apply after_gt in Hk. cbn in Hk. by rewrite Hk, IH. Qed.

(** ** Order is kept *)

Lemma map_set_keys (Q : list Z → Prop) m k x : Q k → Forall (λ e, Q e.1) m → Forall (λ e, Q e.1) (map_set m k x).
Proof.
  intros Hk. induction 1 as [|[k' x'] m He Hm IH]; cbn; [by repeat constructor|]. case_match; by repeat constructor.
Qed.

Lemma map_set_sorted m k x : sorted m → sorted (map_set m k x).
Proof.
  unfold sorted. induction 1 as [|[k' x'] m Hm IH Hlt]; cbn; [by repeat constructor|].
  destruct (key_compare k k') eqn:E.
  - apply key_eq in E as ->. by constructor.
  - constructor; [by constructor|]. constructor; [done|].
    eapply Forall_impl; [exact Hlt|]. intros e. cbn. by apply key_lt_trans.
  - constructor; [done|]. apply (map_set_keys (λ q, key_compare k' q = Lt)); [|done].
    by rewrite key_compare_antisym, E.
Qed.

Lemma map_erase_Forall (P : list Z * A → Prop) m k : Forall P m → Forall P (map_erase m k).
Proof. induction 1 as [|[k' x'] m He Hm IH]; cbn; [done|]. case_match; [done|by constructor..]. Qed.

Lemma map_erase_sorted m k : sorted m → sorted (map_erase m k).
Proof.
  unfold sorted. induction 1 as [|[k' x'] m Hm IH Hlt]; cbn; [constructor|].
  case_match; [done|constructor; [done|by apply map_erase_Forall]..].
Qed.

Lemma map_set_Forall (P : list Z * A → Prop) m k x : P (k, x) → Forall P m → Forall P (map_set m k x).
Proof.
  intros Hx. induction 1 as [|[k' x'] m He Hm IH]; cbn; [by constructor|].
  case_match; by repeat constructor.
Qed.

Lemma filter_sorted (P : list Z * A → Prop) `{!∀ e, Decision (P e)} (m : list (list Z * A)) : sorted m → sorted (filter P m).
Proof.
  unfold sorted. induction 1 as [|e m Hm IH Hlt]; [constructor|]. rewrite filter_cons. case_decide; [|done].
  constructor; [done|]. rewrite Forall_forall in *. intros e' [_ He']%list_elem_of_filter. by apply Hlt.
Qed.

(** ** Lookup *)

Lemma map_find_set m k k' x : map_find (map_set m k x) k' = if decide (k' = k) then Some x else map_find m k'.
Proof.
  assert (∀ a b, key_compare a b ≠ Eq → a ≠ b) as Hne by (intros a b H ->; by rewrite key_compare_refl in H).
  induction m as [|[q y] m IH]; cbn [map_set map_find].
  - case_decide as Hd; [by rewrite Hd, key_compare_refl|]. rewrite <-key_eq in Hd. by destruct (key_compare k' k).
  - destruct (key_compare k q) eqn:E; cbn [map_find].
    + apply key_eq in E as ->. case_decide as Hd; [by rewrite Hd, key_compare_refl|].
      rewrite <-key_eq in Hd. by destruct (key_compare k' q).
    + case_decide as Hd; [by rewrite Hd, key_compare_refl|]. rewrite <-key_eq in Hd. by destruct (key_compare k' k).
    + rewrite IH. case_decide as Hd; [subst k'; by rewrite E|done].
Qed.

Lemma map_find_elem m k x : sorted m → map_find m k = Some x ↔ (k, x) ∈ m.
Proof.
  unfold sorted. induction 1 as [|[q y] m Hm IH Hlt]; cbn [map_find]; [by rewrite elem_of_nil|].
  rewrite elem_of_cons. rewrite Forall_forall in Hlt. destruct (key_compare k q) eqn:E.
  - apply key_eq in E as ->. split; [intros [= ->]; by left|]. intros [[= ->]|Hin]; [done|].
    specialize (Hlt _ Hin). cbn in Hlt. by rewrite key_compare_refl in Hlt.
  - rewrite IH. split; [by right|]. intros [[= -> ->]|]; [by rewrite key_compare_refl in E|done].
  - rewrite IH. split; [by right|]. intros [[= -> ->]|]; [by rewrite key_compare_refl in E|done].
Qed.

Lemma map_find_elem_1 m k x : map_find m k = Some x → (k, x) ∈ m.
Proof.
  induction m as [|[q y] m IH]; cbn [map_find]; [done|]. destruct (key_compare k q) eqn:E.
  - apply key_eq in E as ->. intros [= ->]. by left.
  - intros H. right. by apply IH.
  - intros H. right. by apply IH.
Qed.

Lemma map_find_erase m k k' : sorted m → map_find (map_erase m k) k' = if decide (k' = k) then None else map_find m k'.
Proof.
  intros Hs. pose proof (map_erase_sorted m k Hs) as Hs'. apply option_eq. intros x.
  rewrite map_find_elem by done. transitivity (k' ≠ k ∧ (k', x) ∈ m).
  2: { rewrite <-map_find_elem by done. case_decide; naive_solver. }
  clear Hs'. unfold sorted in Hs. induction Hs as [|[q y] m Hm IH Hlt]; cbn [map_erase].
  { rewrite !elem_of_nil. naive_solver. }
  rewrite Forall_forall in Hlt. destruct (key_compare k q) eqn:E.
  - apply key_eq in E as ->. rewrite elem_of_cons. split; [|naive_solver]. intros Hin. split; [|by right].
    intros ->. specialize (Hlt _ Hin). cbn in Hlt. by rewrite key_compare_refl in Hlt.
  - rewrite !elem_of_cons, IH. split; [|naive_solver]. intros [[= -> ->]|]; [|naive_solver]. split; [|by left].
    intros ->. by rewrite key_compare_refl in E.
  - rewrite !elem_of_cons, IH. split; [|naive_solver]. intros [[= -> ->]|]; [|naive_solver]. split; [|by left].
    intros ->. by rewrite key_compare_refl in E.
Qed.

(** The keys are distinct. *)
Lemma sorted_keys m : sorted m → NoDup (map fst m).
Proof.
  unfold sorted. induction 1 as [|[q y] m Hm IH Hlt]; cbn; constructor; [|done].
  rewrite list_elem_of_fmap. intros ([q' y'] & -> & Hin). rewrite Forall_forall in Hlt. specialize (Hlt _ Hin). cbn in Hlt.
  by rewrite key_compare_refl in Hlt.
Qed.

End Map.

End StdMap.
