(* ===== verification/BondProtocol.v ===== *)
(** * The Bond compact binary protocol

    lib/bond/CompactBinaryProtocolWriter.hpp and CompactBinaryProtocolReader.hpp.

    A write operation is the list of the bytes it appends to [m_output]; a
    sequence of calls is the concatenation. A read operation is a function of
    the unread bytes of [m_input] (those from [m_ofs] on); it gives the value read
    and the bytes left, or [Fail] where the code returns [false]. [Stuck] is the
    result of a loop that outruns its fuel, which no read does (BondTotal).
    A [std::string] is the list of its bytes; a [double] is the list of its eight
    bytes in memory, on the little-endian machines the code supports. *)

From Stdlib Require Import ZArith Lia.
From S2P Require Import Prelude StdMap.

Module Bond.
Import StdMap.

(** BondDataType *)
Definition BT_STOP : Z := 0.
Definition BT_STOP_BASE : Z := 1.
Definition BT_BOOL : Z := 2.
Definition BT_UINT8 : Z := 3.
Definition BT_UINT32 : Z := 5.
Definition BT_UINT64 : Z := 6.
Definition BT_DOUBLE : Z := 8.
Definition BT_STRING : Z := 9.
Definition BT_STRUCT : Z := 10.
Definition BT_LIST : Z := 11.
Definition BT_MAP : Z := 13.
Definition BT_INT32 : Z := 16.
Definition BT_INT64 : Z := 17.

(** ** Writing *)

Definition output : Type := list Z.

Fixpoint varint_loop (fuel : nat) (value : Z) : output :=
  match fuel with
  | O => []
  | S f => if value >? 127 then ((value .& 127) .| 128) :: varint_loop f (value ≫ 7)
           else [value .& 127]
  end.

(** Ten groups of seven bits hold any 64-bit value. *)
Definition writeVarint (value : Z) : output := varint_loop 10 value.

Definition WriteBlob (data : list Z) : output := data.
Definition WriteBool (value : bool) : output := [if value then 1 else 0].
Definition WriteUInt8 (value : Z) : output := [value].
Definition WriteUInt16 (value : Z) : output := writeVarint value.
Definition WriteUInt32 (value : Z) : output := writeVarint value.
Definition WriteUInt64 (value : Z) : output := writeVarint value.
Definition WriteInt8 (value : Z) : output := WriteUInt8 (u8 value).

(** The sign moves to the lowest bit. *)
Definition zigzag (w value : Z) : Z := wrap w ((value ≪ 1) .^ (value ≫ (w - 1))).
Definition WriteInt16 (value : Z) : output := WriteUInt16 (zigzag 16 value).
Definition WriteInt32 (value : Z) : output := WriteUInt32 (zigzag 32 value).
Definition WriteInt64 (value : Z) : output := WriteUInt64 (zigzag 64 value).

Definition WriteFloat (value : list Z) : output := WriteBlob value.
Definition WriteDouble (value : list Z) : output := WriteBlob value.

Definition WriteString (value : list Z) : output :=
  match value with
  | [] => WriteUInt32 0
  | _ => WriteUInt32 (u32 (zlen value)) ++ WriteBlob value
  end.

Definition WriteWString (_ : list Z) : output := WriteUInt32 0.

Definition WriteContainerBegin (size elementType : Z) : output :=
  WriteUInt8 elementType ++ WriteUInt32 (u32 size).
Definition WriteMapContainerBegin (size keyType valueType : Z) : output :=
  WriteUInt8 keyType ++ WriteUInt8 valueType ++ WriteUInt32 (u32 size).
Definition WriteContainerEnd : output := [].

Definition WriteFieldBegin (type id : Z) : output :=
  if id <=? 5 then [u8 (type .| (u8 id ≪ 5))]
  else if id <=? 0xff then [u8 (type .| (6 ≪ 5)); id .& 255]
  else [u8 (type .| (7 ≪ 5)); id .& 255; u8 (id ≫ 8)].
Definition WriteFieldEnd : output := [].
Definition WriteFieldOmitted (_ _ : Z) : output := [].
Definition WriteStructBegin (_ : bool) : output := [].
Definition WriteStructEnd (isBase : bool) : output := WriteUInt8 (if isBase then BT_STOP_BASE else BT_STOP).

(** ** Reading *)

Inductive rres (A : Type) : Type :=
  | Ok (a : A) (rest : list Z)
  | Fail
  | Stuck.
Arguments Ok {A} a rest.
Arguments Fail {A}.
Arguments Stuck {A}.

Definition Reader (A : Type) : Type := list Z → rres A.
#[global] Instance Reader_ret : MRet Reader := λ A a input, Ok a input.
#[global] Instance Reader_bind : MBind Reader := λ A B k m input,
  match m input with Ok a rest => k a rest | Fail => Fail | Stuck => Stuck end.
Definition fail {A} : Reader A := λ _, Fail.

(** [if (!cond) return false;] *)
Definition require (cond : bool) : Reader () := if cond then mret () else fail.

Definition ReadUInt8 : Reader Z := λ input,
  match input with [] => Fail | b :: rest => Ok b rest end.

Fixpoint readVarint_loop (fuel : nat) (w value bits : Z) : Reader Z :=
  match fuel with
  | O => λ _, Stuck
  | S f =>
      raw ← ReadUInt8;
      let value := wrap w (value .| ((raw .& 127) ≪ bits)) in
      if negb (c_true (raw .& 128)) then mret value
      else let bits := bits + 7 in
           if bits >=? w then fail else readVarint_loop f w value bits
  end.

(** A [w]-bit value; the loop ends once [bits] reaches [w], in ten rounds at
    most. *)
Definition readVarint (w : Z) : Reader Z := readVarint_loop 10 w 0 0.

Definition ReadBlob (size : Z) : Reader (list Z) := λ input,
  if size >? zlen input then Fail
  else if size =? 0 then Fail
  else Ok (take (Z.to_nat size) input) (drop (Z.to_nat size) input).

Definition ReadBool : Reader bool := λ input,
  match input with
  | 0 :: rest => Ok false rest
  | 1 :: rest => Ok true rest
  | _ => Fail
  end.

Definition ReadUInt16 : Reader Z := readVarint 16.
Definition ReadUInt32 : Reader Z := readVarint 32.
Definition ReadUInt64 : Reader Z := readVarint 64.
Definition ReadInt8 : Reader Z := uValue ← ReadUInt8; mret (swrap 8 uValue).

Definition unzigzag (w uValue : Z) : Z := swrap w ((uValue ≫ 1) .^ (- (uValue .& 1))).
Definition ReadInt16 : Reader Z := uValue ← ReadUInt16; mret (unzigzag 16 uValue).
Definition ReadInt32 : Reader Z := uValue ← ReadUInt32; mret (unzigzag 32 uValue).
Definition ReadInt64 : Reader Z := uValue ← ReadUInt64; mret (unzigzag 64 uValue).

Definition ReadFloat : Reader (list Z) := ReadBlob 4.
Definition ReadDouble : Reader (list Z) := ReadBlob 8.

(** [value.assign(&m_input[m_ofs], length); m_ofs += length], when they are there. *)
Definition assign (length : Z) : Reader (list Z) := λ input,
  if length >? zlen input then Fail
  else Ok (take (Z.to_nat length) input) (drop (Z.to_nat length) input).

Definition ReadString : Reader (list Z) := length ← ReadUInt32; assign length.

(** Never succeeds. *)
Definition ReadWString : Reader () := _ ← ReadUInt32; fail.

Definition ReadContainerBegin : Reader (Z * Z) :=
  raw ← ReadUInt8;
  _ ← require (raw ≫ 5 =? 0);
  size ← ReadUInt32;
  mret (size, raw .& 31).

Definition ReadMapContainerBegin : Reader (Z * Z * Z) :=
  keyType ← ReadUInt8;
  _ ← require (keyType ≫ 5 =? 0);
  valueType ← ReadUInt8;
  _ ← require (valueType ≫ 5 =? 0);
  size ← ReadUInt32;
  mret (size, keyType, valueType).

Definition ReadContainerEnd : Reader () := mret ().

Definition ReadFieldBegin : Reader (Z * Z) :=
  raw ← ReadUInt8;
  let type := raw .& 31 in
  let raw := raw ≫ 5 in
  if raw <=? 5 then mret (type, raw)
  else if raw =? 6 then raw ← ReadUInt8; mret (type, raw)
  else raw ← ReadUInt8; raw2 ← ReadUInt8; mret (type, raw .| (raw2 ≪ 8)).

Definition ReadFieldEnd : Reader () := mret ().
Definition ReadStructBegin (_ : bool) : Reader () := mret ().
Definition ReadStructEnd (_ : bool) : Reader () := mret ().

(** ** Fields, lists, maps and structures, as the generated code has them *)

(** [if (present) { WriteFieldBegin; ...; WriteFieldEnd } else WriteFieldOmitted]. *)
Definition field (present : bool) (type id : Z) (body : output) : output :=
  if present then WriteFieldBegin type id ++ body ++ WriteFieldEnd else WriteFieldOmitted type id.

Definition nonempty {A} (l : list A) : bool := match l with [] => false | _ => true end.

Definition write_list {A} (elementType : Z) (write : A → output) (l : list A) : output :=
  WriteContainerBegin (zlen l) elementType ++ concat (map write l) ++ WriteContainerEnd.

Definition write_map {A} (valueType : Z) (write : A → output) (m : smap A) : output :=
  WriteMapContainerBegin (zlen m) BT_STRING valueType
    ++ concat (map (λ kv, WriteString kv.1 ++ write kv.2) m) ++ WriteContainerEnd.

(** Elements [i] to [i + n] of a vector resized to its new size: those it had are
    read in place, the others start as [d]. *)
Fixpoint read_elems {A} (d : A) (read : A → Reader A) (n : nat) (old : list A) : Reader (list A) :=
  match n with
  | O => mret []
  | S n => x ← read (hd d old); xs ← read_elems d read n (tl old); mret (x :: xs)
  end.

Definition read_list {A} (elementType : Z) (d : A) (read : A → Reader A) (old : list A) : Reader (list A) :=
  '(size, type) ← ReadContainerBegin;
  _ ← require (type =? elementType);
  l ← read_elems d read (Z.to_nat size) old;
  _ ← ReadContainerEnd;
  mret l.

Fixpoint read_entries {A} (d : A) (read : A → Reader A) (n : nat) (m : smap A) : Reader (smap A) :=
  match n with
  | O => mret m
  | S n => k ← ReadString; x ← read (map_at d m k); read_entries d read n (map_set m k x)
  end.

Definition read_map {A} (valueType : Z) (d : A) (read : A → Reader A) (m : smap A) : Reader (smap A) :=
  '(size, kt, vt) ← ReadMapContainerBegin;
  _ ← require ((kt =? BT_STRING) && (vt =? valueType));
  m ← read_entries d read (Z.to_nat size) m;
  _ ← ReadContainerEnd;
  mret m.

(** The loop of a [Deserialize]: [cases id v] is its [switch (id)] on the value
    read so far. *)
Fixpoint struct_loop {A} (fuel : nat) (cases : Z → A → Reader A) (isBase : bool) (v : A) : Reader A :=
  match fuel with
  | O => λ _, Stuck
  | S f =>
      '(type, id) ← ReadFieldBegin;
      if (type =? BT_STOP) || (type =? BT_STOP_BASE)
      then _ ← require (Bool.eqb isBase (type =? BT_STOP_BASE)); mret v
      else v ← cases id v; _ ← ReadFieldEnd; struct_loop f cases isBase v
  end.

(** A round takes at least a byte. *)
Definition read_struct {A} (cases : Z → A → Reader A) (isBase : bool) (v : A) : Reader A :=
  _ ← ReadStructBegin isBase;
  v ← ((λ input, struct_loop (S (length input)) cases isBase v input) : Reader A);
  _ ← ReadStructEnd isBase;
  mret v.

End Bond.
