(* ===== verification/BondLaws.v ===== *)
(** * Laws of the Bond protocol

    What each write operation writes, the matching read operation reads back
    ([reads]); every read operation stops, and what it leaves unread is a suffix of
    its input ([Sane]). The laws of lists, maps and structures are generic in the
    operations of their parts; CsRoundtrip applies them to the generated code. *)

From Stdlib Require Import ZArith Lia Sorted.
From S2P Require Import Prelude StdMap BondProtocol.

Module BondLaws.
Import StdMap Bond.

#[global] Typeclasses Opaque ReadUInt8 ReadUInt16 ReadUInt32 ReadUInt64 ReadInt32 ReadInt64 ReadBool ReadBlob
  ReadDouble ReadString assign require ReadFieldBegin ReadContainerBegin ReadMapContainerBegin ReadContainerEnd
  readVarint readVarint_loop read_elems read_list read_entries read_map read_struct struct_loop fail
  Reader_ret Reader_bind.

(** ** Every read stops inside the input *)

Class Sane {A} (R : Reader A) : Prop := {
  sane_suffix : ∀ i a r, R i = Ok a r → r `suffix_of` i;
  sane_stops : ∀ i, R i ≠ Stuck;
}.

#[global] Instance sane_ret {A} (a : A) : Sane (mret a : Reader A).
Proof. split; [by intros i b r [= _ ->]|done]. Qed.

#[global] Instance sane_fail {A} : Sane (fail : Reader A).
Proof. by split. Qed.

#[global] Instance sane_bind {A B} (m : Reader A) (k : A → Reader B) :
  Sane m → (∀ a, Sane (k a)) → Sane (m ≫= k).
Proof.
  intros Hm Hk. split; unfold mbind, Reader_bind.
  - intros i b r E. destruct (m i) as [a i1| |] eqn:Em; [|done..].
    transitivity i1; [exact (sane_suffix (R := k a) _ _ _ E)|exact (sane_suffix (R := m) _ _ _ Em)].
  - intros i. pose proof (sane_stops (R := m) i). destruct (m i) as [a i1| |]; [|done..]. by apply sane_stops.
Qed.

#[global] Instance sane_if {A} (b : bool) (m1 m2 : Reader A) : Sane m1 → Sane m2 → Sane (if b then m1 else m2).
Proof. by destruct b. Qed.

#[global] Instance sane_require b : Sane (require b).
Proof. unfold require. apply _. Qed.

#[global] Instance sane_uint8 : Sane ReadUInt8.
Proof. split; intros [|b i]; try done. intros a r [= _ ->]. by exists [b]. Qed.

#[global] Instance sane_bool : Sane ReadBool.
Proof.
  split; intros [|b i]; try done; cbn.
  - destruct b as [|[]|]; try done; intros a r [= _ ->]; by eexists [_].
  - by destruct b as [|[]|].
Qed.

Lemma sane_varint_loop f w value bits : w ≤ bits + 7 * Z.of_nat f → (0 < f)%nat → Sane (readVarint_loop f w value bits).
Proof.
  revert value bits. induction f as [|f IH]; intros value bits Hw Hf; [lia|]. cbn [readVarint_loop].
  apply sane_bind; [apply _|]. intros raw. apply sane_if; [apply _|].
  destruct (Z.geb_spec (bits + 7) w); [apply _|]. apply IH; lia.
Qed.

#[global] Instance sane_uint16 : Sane ReadUInt16.
Proof. apply sane_varint_loop; lia. Qed.
#[global] Instance sane_uint32 : Sane ReadUInt32.
Proof. apply sane_varint_loop; lia. Qed.
#[global] Instance sane_uint64 : Sane ReadUInt64.
Proof. apply sane_varint_loop; lia. Qed.
#[global] Instance sane_int32 : Sane ReadInt32.
Proof. unfold ReadInt32. apply _. Qed.
#[global] Instance sane_int64 : Sane ReadInt64.
Proof. unfold ReadInt64. apply _. Qed.

#[global] Instance sane_blob n : Sane (ReadBlob n).
Proof.
  split; intros i; unfold ReadBlob; destruct (_ >? _); try done; destruct (_ =? 0); try done.
  intros a r [= _ <-]. eexists. symmetry. apply take_drop.
Qed.
#[global] Instance sane_double : Sane ReadDouble.
Proof. apply sane_blob. Qed.

#[global] Instance sane_assign n : Sane (assign n).
Proof.
  split; intros i; unfold assign; destruct (_ >? _); try done.
  intros a r [= _ <-]. eexists. symmetry. apply take_drop.
Qed.
#[global] Instance sane_string : Sane ReadString.
Proof. unfold ReadString. apply _. Qed.

#[global] Instance sane_elems {A} (d : A) read n old : (∀ a, Sane (read a)) → Sane (read_elems d read n old).
Proof. intros Hr. revert old. induction n; intros old; cbn [read_elems]; apply _. Qed.

#[global] Instance sane_pair {A B C} (k : A → B → Reader C) p : (∀ a b, Sane (k a b)) → Sane (let '(a, b) := p in k a b).
Proof. by destruct p. Qed.

#[global] Instance sane_list {A} t (d : A) read old : (∀ a, Sane (read a)) → Sane (read_list t d read old).
Proof.
  intros Hr. unfold read_list, ReadContainerBegin, ReadContainerEnd. apply sane_bind; [apply _|].
  intros [size type]. apply _.
Qed.

#[global] Instance sane_entries {A} (d : A) read n m : (∀ a, Sane (read a)) → Sane (read_entries d read n m).
Proof. intros Hr. revert m. induction n; intros m; cbn [read_entries]; apply _. Qed.

#[global] Instance sane_map {A} t (d : A) read m : (∀ a, Sane (read a)) → Sane (read_map t d read m).
Proof.
  intros Hr. unfold read_map, ReadMapContainerBegin, ReadContainerEnd. apply sane_bind; [apply _|].
  intros [[size kt] vt]. apply _.
Qed.

#[global] Instance sane_field_begin : Sane ReadFieldBegin.
Proof. unfold ReadFieldBegin. apply _. Qed.

(** A field header takes at least a byte, so a structure of [n] bytes has at most
    [n] fields. *)
Lemma field_begin_takes i a r : ReadFieldBegin i = Ok a r → (length r < length i)%nat.
Proof.
  destruct i as [|b i]; [done|]. intros E. unfold ReadFieldBegin, mbind, Reader_bind in E. cbn [ReadUInt8] in E.
  assert (∀ (m : Reader (Z * Z)), Sane m → m i = Ok a r → (length r < length (b :: i))%nat) as Hlt.
  { intros m Hm Em. apply sane_suffix in Em. apply suffix_length in Em. cbn. lia. }
  destruct (_ <=? 5); [|destruct (_ =? 6)].
  - refine (Hlt (mret _) _ E).
  - refine (Hlt (ReadUInt8 ≫= λ raw, mret (_, raw)) _ E).
  - refine (Hlt (ReadUInt8 ≫= λ raw, ReadUInt8 ≫= λ raw2, mret (_, raw .| (raw2 ≪ 8))) _ E).
Qed.

Lemma struct_loop_sane {A} (cases : Z → A → Reader A) isBase : (∀ id v, Sane (cases id v)) → ∀ n v i,
  (length i < n)%nat →
  match struct_loop n cases isBase v i with Ok _ r => r `suffix_of` i | Fail => True | Stuck => False end.
Proof.
  intros Hc n. induction n as [|n IH]; intros v i Hi; [lia|]. cbn [struct_loop].
  unfold mbind at 1, Reader_bind at 1.
  destruct (ReadFieldBegin i) as [[type id] i1| |] eqn:E; [|done|by apply sane_stops in E].
  pose proof (field_begin_takes _ _ _ E) as Hlt. apply sane_suffix in E.
  destruct (_ || _).
  - unfold require. by destruct (Bool.eqb _ _).
  - unfold mbind, Reader_bind. destruct (cases id v i1) as [v1 i2| |] eqn:Ec; [|done|by apply sane_stops in Ec].
    apply sane_suffix in Ec. pose proof (suffix_length _ _ Ec). cbn [ReadFieldEnd mret Reader_ret].
    specialize (IH v1 i2 ltac:(lia)). destruct (struct_loop n cases isBase v1 i2); [|done..].
    by do 2 (etransitivity; [|eassumption]).
Qed.

#[global] Instance sane_struct {A} (cases : Z → A → Reader A) isBase v :
  (∀ id v, Sane (cases id v)) → Sane (read_struct cases isBase v).
Proof.
  intros Hc. unfold read_struct, ReadStructBegin, ReadStructEnd. apply sane_bind; [apply _|]. intros _.
  apply sane_bind; [|apply _]. split.
  - intros i a r E. pose proof (struct_loop_sane cases isBase Hc (S (length i)) v i ltac:(lia)) as H. by rewrite E in H.
  - intros i E. pose proof (struct_loop_sane cases isBase Hc (S (length i)) v i ltac:(lia)) as H. by rewrite E in H.
Qed.

(** ** What is written is read back *)

(** [R] reads [a] from [bs], whatever follows. *)
Definition reads {A} (R : Reader A) (bs : list Z) (a : A) : Prop := ∀ rest, R (bs ++ rest) = Ok a rest.

Lemma reads_bind {A B} (m : Reader A) (k : A → Reader B) bs1 bs2 a b :
  reads m bs1 a → reads (k a) bs2 b → reads (m ≫= k) (bs1 ++ bs2) b.
Proof. intros Hm Hk rest. unfold mbind, Reader_bind. rewrite <-app_assoc, Hm. apply Hk. Qed.

Lemma reads_ret {A} (a : A) : reads (mret a) [] a.
Proof. done. Qed.

Lemma reads_require b : b = true → reads (require b) [] ().
Proof. by intros ->. Qed.

Lemma reads_map {A B} (m : Reader A) (f : A → B) bs a : reads m bs a → reads (a ← m; mret (f a)) bs (f a).
Proof. intros Hm rest. unfold mbind, Reader_bind. by rewrite Hm. Qed.

Lemma reads_uint8 b : reads ReadUInt8 (WriteUInt8 b) b.
Proof. done. Qed.

Lemma reads_bool b : reads ReadBool (WriteBool b) b.
Proof. by destruct b. Qed.

(** The groups of a variable-length integer. *)
Lemma low_group v : 0 ≤ v → v .& 127 = v mod 2 ^ 7.
Proof. intros. change 127 with (Z.ones 7). by rewrite Z.land_ones. Qed.

Lemma more_group v : 0 ≤ v → let b := (v .& 127) .| 128 in b .& 127 = v mod 2 ^ 7 ∧ c_true (b .& 128) = true.
Proof.
  intros Hv b. assert (b = v mod 2 ^ 7 + 2 ^ 7) as Eb.
  { unfold b. rewrite low_group by done. change 128 with (1 ≪ 7).
    rewrite (lor_shiftl_add 7) by (try apply Z.mod_pos_bound; lia). lia. }
  pose proof (Z.mod_pos_bound v (2 ^ 7)). split.
  - rewrite low_group by lia. rewrite Eb, Z.add_mod, Z.mod_same, Z.add_0_r, !Z.mod_mod by lia. done.
  - assert (Z.testbit b 7 = true) as Ht.
    { rewrite Z.testbit_true by lia. replace b with (v mod 2 ^ 7 + 1 * 2 ^ 7) by lia.
      rewrite Z.div_add, Z.div_small by lia. done. }
    unfold c_true. destruct (Z.eqb_spec (b .& 128) 0) as [E|]; [|done]. exfalso.
    assert (Z.testbit (b .& 128) 7 = true) as H7 by (rewrite Z.land_spec, Ht; done). by rewrite E in H7.
Qed.

Lemma group_value w bits acc x : 0 ≤ bits → ubits bits acc → 0 ≤ x → acc + x * 2 ^ bits < 2 ^ w →
  wrap w (acc .| (x ≪ bits)) = acc + x * 2 ^ bits.
Proof.
  intros Hb Ha Hx Hw. rewrite (lor_shiftl_add bits) by done. apply wrap_small.
  unfold ubits in *. pose proof (Z.pow_pos_nonneg 2 bits). nia.
Qed.

Lemma varint_reads f g w acc bits v : 0 ≤ bits ≤ w → ubits bits acc → 0 ≤ v < 2 ^ (w - bits) →
  v < 2 ^ (7 * Z.of_nat f) → v < 2 ^ (7 * Z.of_nat g) → (0 < f)%nat → (0 < g)%nat →
  reads (readVarint_loop f w acc bits) (varint_loop g v) (acc + v * 2 ^ bits).
Proof.
  revert g acc bits v. induction f as [|f IH]; intros [|g] acc bits v Hb Ha Hv Hf Hg Hf0 Hg0; try lia.
  assert (2 ^ w = 2 ^ (w - bits) * 2 ^ bits) as Ew by (rewrite <-Z.pow_add_r by lia; f_equal; lia).
  pose proof (Z.pow_pos_nonneg 2 bits ltac:(lia) ltac:(lia)) as Hp. unfold ubits in Ha.
  cbn [readVarint_loop varint_loop]. intros rest. unfold mbind, Reader_bind. rewrite Z.gtb_ltb.
  destruct (Z.ltb_spec 127 v) as [Hbig|Hsmall].
  - destruct (more_group v) as [Elow Ehi]; [lia|]. cbn [app ReadUInt8]. cbv zeta. rewrite Ehi, Elow. cbn [negb].
    pose proof (Z.mod_pos_bound v (2 ^ 7) ltac:(lia)). pose proof (Z.mod_le v (2 ^ 7)).
    rewrite group_value by (unfold ubits; lia || nia).
    assert (7 < w - bits) as H7.
    { destruct (Z.le_gt_cases (w - bits) 7) as [Hle|]; [|lia].
      pose proof (Z.pow_le_mono_r 2 (w - bits) 7 ltac:(lia) Hle). lia. }
    rewrite Z.geb_leb. destruct (Z.leb_spec w (bits + 7)); [lia|].
    destruct f as [|f]; [cbn in Hf; lia|]. destruct g as [|g]; [cbn in Hg; lia|].
    assert (v ≫ 7 = v / 2 ^ 7) as Esh by (by rewrite Z.shiftr_div_pow2).
    pose proof (Z.div_mod v (2 ^ 7) ltac:(lia)) as Edm. pose proof (Z.div_pos v (2 ^ 7) ltac:(lia) ltac:(lia)).
    assert (∀ k, 0 ≤ k → v < 2 ^ (k + 7) → v / 2 ^ 7 < 2 ^ k) as Hdiv.
    { intros k Hk Hlt. apply Z.div_lt_upper_bound; [lia|]. rewrite <-Z.pow_add_r by lia.
      by replace (7 + k) with (k + 7) by lia. }
    rewrite Esh. replace (acc + v * 2 ^ bits) with ((acc + v mod 2 ^ 7 * 2 ^ bits) + v / 2 ^ 7 * 2 ^ (bits + 7)).
    2: { rewrite Z.pow_add_r by lia. nia. }
    apply IH; try lia.
    + unfold ubits. rewrite Z.pow_add_r by lia. nia.
    + split; [done|]. apply Hdiv; [lia|]. replace (w - (bits + 7) + 7) with (w - bits) by lia. apply Hv.
    + apply Hdiv; [lia|]. by replace (7 * Z.of_nat (S f) + 7) with (7 * Z.of_nat (S (S f))) by lia.
    + apply Hdiv; [lia|]. by replace (7 * Z.of_nat (S g) + 7) with (7 * Z.of_nat (S (S g))) by lia.
  - cbn [app ReadUInt8]. cbv zeta. assert (v .& 127 = v) as Ev.
    { rewrite low_group by lia. apply Z.mod_small. lia. }
    assert (c_true (v .& 128) = false) as Ec.
    { unfold c_true. rewrite negb_false_iff, Z.eqb_eq. apply Z.bits_inj'. intros n Hn. rewrite Z.land_spec, Z.bits_0.
      destruct (Z.eq_dec n 7) as [->|]; [|].
      - rewrite (testbit_ubits 7) by (unfold ubits; lia). done.
      - assert (Z.testbit 128 n = false) as ->; [|apply andb_false_r]. change 128 with (2 ^ 7). apply Z.pow2_bits_false. lia. }
    rewrite Ev, Ev, Ec. cbn [negb]. unfold mret, Reader_ret. f_equal. apply group_value; unfold ubits; lia || nia.
Qed.

Lemma reads_varint w v : 0 ≤ w ≤ 64 → ubits w v → reads (readVarint w) (writeVarint v) v.
Proof.
  intros Hw Hv. unfold readVarint, writeVarint, ubits in *.
  pose proof (Z.pow_le_mono_r 2 w 64 ltac:(lia) ltac:(lia)). pose proof (Z.pow_le_mono_r 2 64 70 ltac:(lia) ltac:(lia)).
  replace v with (0 + v * 2 ^ 0) at 2 by lia. apply varint_reads; try lia.
  - unfold ubits. lia.
  - by rewrite Z.sub_0_r.
Qed.

Lemma reads_uint32 v : ubits 32 v → reads ReadUInt32 (WriteUInt32 v) v.
Proof. apply reads_varint. lia. Qed.
Lemma reads_uint64 v : ubits 64 v → reads ReadUInt64 (WriteUInt64 v) v.
Proof. apply reads_varint. lia. Qed.

(** [v] is a value of a [w]-bit signed type. *)
Definition sbits (w v : Z) : Prop := - 2 ^ (w - 1) ≤ v < 2 ^ (w - 1).

Lemma swrap_small w v : 0 < w → sbits w v → swrap w v = v.
Proof.
  intros Hw Hv. unfold swrap, sbits in *.
  assert (2 ^ w = 2 * 2 ^ (w - 1)) by (rewrite <-Z.pow_succ_r by lia; f_equal; lia).
  rewrite Z.mod_small; lia.
Qed.

Lemma zigzag_value w v : 0 < w → sbits w v → zigzag w v = if v <? 0 then - 2 * v - 1 else 2 * v.
Proof.
  intros Hw Hv. unfold zigzag, sbits in *.
  assert (2 ^ w = 2 * 2 ^ (w - 1)) by (rewrite <-Z.pow_succ_r by lia; f_equal; lia).
  rewrite Z.shiftr_div_pow2, Z.shiftl_mul_pow2 by lia. destruct (Z.ltb_spec v 0).
  - assert (v / 2 ^ (w - 1) = -1) as -> by (symmetry; apply (Z.div_unique v _ (-1) (v + 2 ^ (w - 1))); lia).
    rewrite Z.lxor_m1_r, wrap_small; unfold Z.lnot, ubits; lia.
  - rewrite Z.div_small, Z.lxor_0_r, wrap_small by (unfold ubits; lia). lia.
Qed.

Lemma zigzag_ubits w v : 0 < w → sbits w v → ubits w (zigzag w v).
Proof. intros Hw _. apply wrap_ubits. lia. Qed.

Lemma unzigzag_zigzag w v : 0 < w → sbits w v → unzigzag w (zigzag w v) = v.
Proof.
  intros Hw Hv. rewrite zigzag_value by done. unfold unzigzag.
  assert (∀ x, x .& 1 = x mod 2) as Hodd by (intros; exact (Z.land_ones x 1 ltac:(lia))).
  rewrite Hodd, Z.shiftr_div_pow2 by lia. change (2 ^ 1) with 2.
  destruct (Z.ltb_spec v 0).
  - assert ((- 2 * v - 1) / 2 = - v - 1) as -> by (symmetry; apply (Z.div_unique _ _ _ 1); lia).
    assert ((- 2 * v - 1) mod 2 = 1) as -> by (symmetry; apply (Z.mod_unique _ _ (- v - 1)); lia).
    change (- 1) with (-1). rewrite Z.lxor_m1_r. unfold Z.lnot. replace (Z.pred (- (- v - 1))) with v by lia.
    by apply swrap_small.
  - rewrite (Z.mul_comm 2 v), Z.div_mul, Z.mod_mul by lia. rewrite Z.opp_0, Z.lxor_0_r. by apply swrap_small.
Qed.

Lemma reads_zigzag w v : 0 < w ≤ 64 → sbits w v →
  reads (u ← readVarint w; mret (unzigzag w u)) (writeVarint (zigzag w v)) v.
Proof.
  intros Hw Hv rest. unfold mbind, Reader_bind. rewrite reads_varint by (try apply zigzag_ubits; lia || done).
  by rewrite unzigzag_zigzag by (done || lia).
Qed.

Lemma reads_int16 v : sbits 16 v → reads ReadInt16 (WriteInt16 v) v.
Proof. apply reads_zigzag. lia. Qed.
Lemma reads_int32 v : sbits 32 v → reads ReadInt32 (WriteInt32 v) v.
Proof. apply reads_zigzag. lia. Qed.
Lemma reads_int64 v : sbits 64 v → reads ReadInt64 (WriteInt64 v) v.
Proof. apply reads_zigzag. lia. Qed.

Lemma split_at {A} (l rest : list A) : take (Z.to_nat (zlen l)) (l ++ rest) = l ∧ drop (Z.to_nat (zlen l)) (l ++ rest) = rest.
Proof. unfold zlen. rewrite Nat2Z.id. by rewrite take_app_length, drop_app_length. Qed.

Lemma reads_double d : length d = 8%nat → reads ReadDouble (WriteDouble d) d.
Proof.
  intros Hd rest. unfold ReadDouble, WriteDouble, WriteBlob, ReadBlob. rewrite zlen_app.
  assert (zlen d = 8) as E by (unfold zlen; lia). pose proof (zlen_nonneg rest). rewrite Z.gtb_ltb, E.
  destruct (Z.ltb_spec (8 + zlen rest) 8); [lia|]. cbn [Z.eqb].
  destruct (split_at d rest) as [Et Ed]. rewrite E in Et, Ed. by rewrite Et, Ed.
Qed.

(** A string, or a list, whose size fits its 32-bit length. *)
Definition short {A} (l : list A) : Prop := zlen l < 2 ^ 32.

Lemma reads_assign s : reads (assign (zlen s)) s s.
Proof.
  intros rest. unfold assign. rewrite zlen_app. pose proof (zlen_nonneg rest). rewrite Z.gtb_ltb.
  destruct (Z.ltb_spec (zlen s + zlen rest) (zlen s)); [lia|]. by destruct (split_at s rest) as [-> ->].
Qed.

Lemma short_ubits {A} (l : list A) : short l → ubits 32 (zlen l).
Proof. unfold short, ubits. pose proof (zlen_nonneg l). lia. Qed.

Lemma reads_string s : short s → reads ReadString (WriteString s) s.
Proof.
  intros Hs. apply short_ubits in Hs. unfold ReadString.
  assert (WriteString s = WriteUInt32 (zlen s) ++ s) as ->.
  { unfold WriteString, WriteBlob. destruct s; [by rewrite app_nil_r|]. by rewrite wrap_small. }
  eapply reads_bind; [by apply reads_uint32|apply reads_assign].
Qed.

(** ** Field headers *)

Lemma type_bits ty x : 0 ≤ ty < 32 → 0 ≤ x < 8 →
  let b := u8 (ty .| (x ≪ 5)) in b .& 31 = ty ∧ b ≫ 5 = x.
Proof.
  intros Ht Hx. cbv zeta. assert (u8 (ty .| (x ≪ 5)) = ty + x * 2 ^ 5) as ->.
  { rewrite (lor_shiftl_add 5) by (unfold ubits; lia). apply wrap_small. unfold ubits. lia. }
  change 31 with (Z.ones 5). rewrite Z.land_ones, Z.shiftr_div_pow2 by lia.
  rewrite Z.mod_add, Z.mod_small, Z.div_add, Z.div_small by lia. lia.
Qed.

Lemma reads_field_begin ty id : 0 ≤ ty < 32 → ubits 16 id → reads ReadFieldBegin (WriteFieldBegin ty id) (ty, id).
Proof.
  intros Ht Hid rest. unfold ubits in Hid. unfold WriteFieldBegin, ReadFieldBegin, mbind, Reader_bind.
  destruct (Z.leb_spec id 5); [|destruct (Z.leb_spec id 0xff)]; cbn [app ReadUInt8].
  - assert (u8 id = id) as Eid by (apply wrap_small; unfold ubits; lia).
    rewrite Eid. destruct (type_bits ty id Ht ltac:(lia)) as [-> ->]. by destruct (Z.leb_spec id 5); [|lia].
  - destruct (type_bits ty 6 Ht ltac:(lia)) as [-> ->]. cbn. unfold mret, Reader_ret. do 2 f_equal.
    change 255 with (Z.ones 8). rewrite Z.land_ones by lia. apply Z.mod_small. lia.
  - destruct (type_bits ty 7 Ht ltac:(lia)) as [-> ->]. cbn. unfold mret, Reader_ret. do 2 f_equal.
    change 255 with (Z.ones 8). rewrite Z.land_ones, Z.shiftr_div_pow2 by lia.
    rewrite (lor_shiftl_add 8) by (try apply Z.mod_pos_bound; lia).
    rewrite wrap_small. 2: { split; [by apply Z.div_pos; lia|]. apply Z.div_lt_upper_bound; lia. }
    pose proof (Z.div_mod id (2 ^ 8)). lia.
Qed.

(** ** Lists and maps *)

(** What [write] writes of [x], [read] reads into a default-constructed value as
    [c x]; [c] is the identity but where the writer leaves out a negative zero. *)
Definition codec {A} (P : A → Prop) (c : A → A) (d : A) (write : A → output) (read : A → Reader A) : Prop :=
  ∀ x, P x → reads (read d) (write x) (c x).

Lemma reads_container ty (size : Z) : 0 ≤ ty < 32 → ubits 32 size →
  reads ReadContainerBegin (WriteContainerBegin size ty) (size, ty).
Proof.
  intros Ht Hs. unfold ReadContainerBegin, WriteContainerBegin. rewrite (wrap_small 32) by done.
  assert (ty .& 31 = ty) as E by (change 31 with (Z.ones 5); rewrite Z.land_ones, Z.mod_small by lia; done).
  rewrite <-E at 2.
  eapply reads_bind; [apply reads_uint8|]. eapply (reads_bind _ _ []).
  { apply reads_require. rewrite Z.shiftr_div_pow2, Z.div_small by lia. done. }
  by apply (reads_map ReadUInt32 (λ size, (size, ty .& 31))), reads_uint32.
Qed.

Lemma reads_elems {A} (P : A → Prop) c d write read l : codec P c d write read → Forall P l →
  reads (read_elems d read (length l) []) (concat (map write l)) (map c l).
Proof.
  intros Hc. induction 1 as [|x l Hx Hl IH]; cbn [length read_elems map concat]; [apply reads_ret|].
  eapply reads_bind; [by apply Hc|]. rewrite <-(app_nil_r (concat _)). eapply reads_bind; [exact IH|]. apply reads_ret.
Qed.

Lemma list_codec {A} ty (P : A → Prop) c d write read : 0 ≤ ty < 32 → codec P c d write read →
  codec (λ l, short l ∧ Forall P l) (map c) [] (write_list ty write) (read_list ty d read).
Proof.
  intros Ht Hc l [Hs Hl]. unfold read_list, write_list. apply short_ubits in Hs.
  eapply reads_bind; [by apply reads_container|]. cbv beta iota. eapply (reads_bind _ _ []).
  { apply reads_require, Z.eqb_refl. }
  eapply reads_bind; [|apply reads_ret]. unfold zlen. rewrite Nat2Z.id. by eapply reads_elems.
Qed.

Definition entry_ok {A} (P : A → Prop) (e : list Z * A) : Prop := short e.1 ∧ P e.2.
Definition entry_c {A} (c : A → A) (e : list Z * A) : list Z * A := (e.1, c e.2).

Lemma reads_entries {A} (P : A → Prop) c d write read m acc : codec P c d write read →
  Forall (entry_ok P) m → sorted m → Forall (λ e, before acc e.1) m →
  reads (read_entries d read (length m) acc) (concat (map (λ kv, WriteString kv.1 ++ write kv.2) m))
    (acc ++ map (entry_c c) m).
Proof.
  intros Hc Hm. revert acc. induction Hm as [|[k x] m [Hk Hx] Hm IH]; intros acc Hs Hb; cbn [length read_entries map concat].
  { rewrite app_nil_r. apply reads_ret. }
  apply Forall_cons in Hb as [Hb1 Hb]. apply StronglySorted_inv in Hs as [Hs Hlt]. cbn [fst snd] in *.
  rewrite <-app_assoc. eapply reads_bind; [by apply reads_string|].
  rewrite map_at_new by done. eapply reads_bind; [by apply Hc|]. rewrite map_set_new by done.
  replace (acc ++ entry_c c (k, x) :: map (entry_c c) m) with ((acc ++ [(k, c x)]) ++ map (entry_c c) m)
    by (by rewrite <-app_assoc).
  apply IH; [done|]. rewrite Forall_forall in Hb, Hlt. apply Forall_forall. intros e He.
  apply Forall_app. split; [by apply Hb|]. apply Forall_singleton. by apply Hlt.
Qed.

Lemma reads_map_container kt vt (size : Z) : 0 ≤ kt < 32 → 0 ≤ vt < 32 → ubits 32 size →
  reads ReadMapContainerBegin (WriteMapContainerBegin size kt vt) (size, kt, vt).
Proof.
  intros Hk Hv Hs rest. unfold ReadMapContainerBegin, WriteMapContainerBegin, WriteUInt8, mbind, Reader_bind.
  rewrite (wrap_small 32) by done. cbn [app ReadUInt8].
  unfold require, mret, Reader_ret.
  assert (∀ t, 0 ≤ t < 32 → (t ≫ 5 =? 0) = true) as H5.
  { intros t Ht. by rewrite Z.shiftr_div_pow2, Z.div_small by lia. }
  rewrite H5 by done. cbn [ReadUInt8]. by rewrite H5, (reads_uint32 size Hs rest).
Qed.

Lemma map_codec {A} ty (P : A → Prop) c d write read : 0 ≤ ty < 32 → codec P c d write read →
  codec (λ m, short m ∧ sorted m ∧ Forall (entry_ok P) m) (map (entry_c c)) [] (write_map ty write) (read_map ty d read).
Proof.
  intros Ht Hc m (Hs & Hso & Hm). unfold read_map, write_map. apply short_ubits in Hs.
  eapply reads_bind; [by apply reads_map_container|].
  cbv beta iota. eapply (reads_bind _ _ []); [apply reads_require; by rewrite !Z.eqb_refl|].
  eapply reads_bind; [|apply reads_ret]. unfold zlen. rewrite Nat2Z.id.
  apply (reads_entries P c d write read m []); [done..|]. apply Forall_forall. intros. by apply Forall_nil.
Qed.

(** ** Structures *)

(** From [v] the loop of a [Deserialize] reads the fields [bs] and stops with
    [w]. *)
Definition parses {A} (cases : Z → A → Reader A) (isBase : bool) (v : A) (bs : list Z) (w : A) : Prop :=
  ∀ n rest, (length (bs ++ rest) < n)%nat → struct_loop n cases isBase v (bs ++ rest) = Ok w rest.

Lemma parses_end {A} (cases : Z → A → Reader A) isBase v : parses cases isBase v (WriteStructEnd isBase) v.
Proof.
  intros [|n] rest Hn; [lia|]. cbn [struct_loop]. unfold mbind at 1, Reader_bind at 1.
  by destruct isBase.
Qed.

Lemma parses_field {A} (cases : Z → A → Reader A) isBase v v' present ty id body more w :
  2 ≤ ty < 32 → ubits 16 id →
  (present = true → reads (cases id v) body v') → (present = false → v' = v) →
  parses cases isBase v' more w → parses cases isBase v (field present ty id body ++ more) w.
Proof.
  intros Ht Hid Hread Homit Hmore. unfold field. destruct present.
  2: { rewrite <-(Homit eq_refl). exact Hmore. }
  specialize (Hread eq_refl). intros [|n] rest Hn; [lia|]. cbn [struct_loop]. unfold mbind at 1, Reader_bind at 1.
  unfold WriteFieldEnd in *. rewrite app_nil_r, <-!app_assoc in *.
  pose proof (reads_field_begin ty id ltac:(lia) Hid (body ++ more ++ rest)) as E. rewrite E.
  apply field_begin_takes in E. unfold BT_STOP, BT_STOP_BASE.
  destruct (Z.eqb_spec ty 0), (Z.eqb_spec ty 1); try lia. cbn [orb].
  unfold mbind, Reader_bind. rewrite (Hread (more ++ rest)). cbn [ReadFieldEnd mret Reader_ret].
  apply Hmore. rewrite !length_app in *. lia.
Qed.

(** The fields under an [#ifdef]. *)
Lemma parses_nil_app {A} (cases : Z → A → Reader A) isBase v more w :
  parses cases isBase v more w → parses cases isBase v ([] ++ more) w.
Proof. done. Qed.

Lemma struct_codec {A} (P : A → Prop) c d (write : A → bool → output) cases isBase :
  (∀ x, P x → parses cases isBase d (write x isBase) (c x)) →
  codec P c d (λ x, write x isBase) (read_struct cases isBase).
Proof.
  intros H x Hx rest. unfold read_struct, ReadStructBegin, ReadStructEnd, mbind, Reader_bind, mret, Reader_ret.
  rewrite (H x Hx) by lia. done.
Qed.

End BondLaws.
