(* ===== verification/CsTypes.v ===== *)
(** * The structures of CsProtocol

    lib/include/public/CsProtocol_types.hpp: the record an event becomes and the
    structures it is made of, with the defaults of their members. A member's name
    carries the name of its structure. The members under [#ifdef HAVE_CS4] and
    [HAVE_CS4_FULL] are members of the model in every build; in a build without
    the macro they keep their defaults ([*_ok]). An enumeration is the 32-bit integer
    it is stored as. *)

From Stdlib Require Import ZArith Lia Sorted.
From S2P Require Import Prelude StdMap BondProtocol BondLaws.

Module CsTypes.
Import StdMap Bond BondLaws.

(** The macros of a build. *)
Class Build := { HAVE_CS4 : bool; HAVE_CS4_FULL : bool }.

Abbreviation cstring := (list Z).
Abbreviation double := (list Z).

(** 0.0 and 100.0 as IEEE 754 doubles, least significant byte first. *)
Definition zero_double : double := [0; 0; 0; 0; 0; 0; 0; 0].
Definition hundred_double : double := [0; 0; 0; 0; 0; 0; 0x59; 0x40].

Definition ValueString : Z := 5.
Definition PIIKind_NotSet : Z := 0.
Definition CustomerContentKind_NotSet : Z := 0.

Record Ingest := MkIngest {
  Ingest_time : Z; Ingest_clientIp : cstring; Ingest_auth : Z; Ingest_quality : Z; Ingest_uploadTime : Z;
  Ingest_userAgent : cstring; Ingest_client : cstring
}.
#[global] Instance Ingest_eta : Eta Ingest := λ v,
  MkIngest (Ingest_time v) (Ingest_clientIp v) (Ingest_auth v) (Ingest_quality v) (Ingest_uploadTime v)
  (Ingest_userAgent v) (Ingest_client v).
Definition Ingest_default : Ingest :=
  MkIngest 0 [] 0 0 0 [] [].

Record User := MkUser {
  User_id : cstring; User_localId : cstring; User_authId : cstring; User_locale : cstring
}.
#[global] Instance User_eta : Eta User := λ v,
  MkUser (User_id v) (User_localId v) (User_authId v) (User_locale v).
Definition User_default : User :=
  MkUser [] [] [] [].

Record Loc := MkLoc {
  Loc_id : cstring; Loc_country : cstring; Loc_timezone : cstring
}.
#[global] Instance Loc_eta : Eta Loc := λ v,
  MkLoc (Loc_id v) (Loc_country v) (Loc_timezone v).
Definition Loc_default : Loc :=
  MkLoc [] [] [].

Record Device := MkDevice {
  Device_id : cstring; Device_localId : cstring; Device_authId : cstring; Device_authSecId : cstring;
  Device_deviceClass : cstring; Device_orgId : cstring; Device_orgAuthId : cstring; Device_make : cstring;
  Device_model : cstring; Device_authIdEnt : cstring
}.
#[global] Instance Device_eta : Eta Device := λ v,
  MkDevice (Device_id v) (Device_localId v) (Device_authId v) (Device_authSecId v) (Device_deviceClass v)
  (Device_orgId v) (Device_orgAuthId v) (Device_make v) (Device_model v) (Device_authIdEnt v).
Definition Device_default : Device :=
  MkDevice [] [] [] [] [] [] [] [] [] [].

Record Os := MkOs {
  Os_locale : cstring; Os_expId : cstring; Os_bootId : Z; Os_name : cstring; Os_ver : cstring
}.
#[global] Instance Os_eta : Eta Os := λ v,
  MkOs (Os_locale v) (Os_expId v) (Os_bootId v) (Os_name v) (Os_ver v).
Definition Os_default : Os :=
  MkOs [] [] 0 [] [].

Record App := MkApp {
  App_expId : cstring; App_userId : cstring; App_env : cstring; App_asId : Z; App_id : cstring;
  App_ver : cstring; App_locale : cstring; App_name : cstring; App_sesId : cstring
}.
#[global] Instance App_eta : Eta App := λ v,
  MkApp (App_expId v) (App_userId v) (App_env v) (App_asId v) (App_id v) (App_ver v) (App_locale v)
  (App_name v) (App_sesId v).
Definition App_default : App :=
  MkApp [] [] [] 0 [] [] [] [] [].

Record Utc := MkUtc {
  Utc_stId : cstring; Utc_aId : cstring; Utc_raId : cstring; Utc_op : cstring; Utc_cat : Z; Utc_flags : Z;
  Utc_sqmId : cstring; Utc_mon : cstring; Utc_cpId : Z; Utc_bSeq : cstring; Utc_epoch : cstring; Utc_seq : Z;
  Utc_popSample : double; Utc_eventFlags : Z; Utc_wsId : Z; Utc_wcmp : Z; Utc_wPId : Z
}.
#[global] Instance Utc_eta : Eta Utc := λ v,
  MkUtc (Utc_stId v) (Utc_aId v) (Utc_raId v) (Utc_op v) (Utc_cat v) (Utc_flags v) (Utc_sqmId v) (Utc_mon v)
  (Utc_cpId v) (Utc_bSeq v) (Utc_epoch v) (Utc_seq v) (Utc_popSample v) (Utc_eventFlags v) (Utc_wsId v)
  (Utc_wcmp v) (Utc_wPId v).
Definition Utc_default : Utc :=
  MkUtc [] [] [] [] 0 0 [] [] 0 [] [] 0 zero_double 0 0 0 0.

Record M365a := MkM365a {
  M365a_enrolledTenantId : cstring; M365a_msp : Z
}.
#[global] Instance M365a_eta : Eta M365a := λ v,
  MkM365a (M365a_enrolledTenantId v) (M365a_msp v).
Definition M365a_default : M365a :=
  MkM365a [] 0.

Record Xbl := MkXbl {
  Xbl_claims : smap cstring; Xbl_nbf : cstring; Xbl_exp : cstring; Xbl_sbx : cstring; Xbl_dty : cstring;
  Xbl_did : cstring; Xbl_xid : cstring; Xbl_uts : Z; Xbl_pid : cstring; Xbl_dvr : cstring; Xbl_tid : Z;
  Xbl_tvr : cstring; Xbl_sty : cstring; Xbl_sid : cstring; Xbl_eid : Z; Xbl_ip : cstring
}.
#[global] Instance Xbl_eta : Eta Xbl := λ v,
  MkXbl (Xbl_claims v) (Xbl_nbf v) (Xbl_exp v) (Xbl_sbx v) (Xbl_dty v) (Xbl_did v) (Xbl_xid v) (Xbl_uts v)
  (Xbl_pid v) (Xbl_dvr v) (Xbl_tid v) (Xbl_tvr v) (Xbl_sty v) (Xbl_sid v) (Xbl_eid v) (Xbl_ip v).
Definition Xbl_default : Xbl :=
  MkXbl [] [] [] [] [] [] [] 0 [] [] 0 [] [] [] 0 [].

Record Javascript := MkJavascript {
  Javascript_libVer : cstring; Javascript_osName : cstring; Javascript_browser : cstring;
  Javascript_browserVersion : cstring; Javascript_platform : cstring; Javascript_make : cstring;
  Javascript_model : cstring; Javascript_screenSize : cstring; Javascript_msfpc : cstring;
  Javascript_mc1Id : cstring; Javascript_mc1Lu : Z; Javascript_isMc1New : bool; Javascript_ms0 : cstring;
  Javascript_anid : cstring; Javascript_a : cstring; Javascript_msResearch : cstring;
  Javascript_csrvc : cstring; Javascript_rtCell : cstring; Javascript_rtEndAction : cstring;
  Javascript_rtPermId : cstring; Javascript_r : cstring; Javascript_wtFpc : cstring;
  Javascript_omniId : cstring; Javascript_gsfxSession : cstring; Javascript_domain : cstring;
  Javascript_userConsent : bool; Javascript_browserLang : cstring; Javascript_serviceName : cstring;
  Javascript_dnt : cstring
}.
#[global] Instance Javascript_eta : Eta Javascript := λ v,
  MkJavascript (Javascript_libVer v) (Javascript_osName v) (Javascript_browser v)
  (Javascript_browserVersion v) (Javascript_platform v) (Javascript_make v) (Javascript_model v)
  (Javascript_screenSize v) (Javascript_msfpc v) (Javascript_mc1Id v) (Javascript_mc1Lu v)
  (Javascript_isMc1New v) (Javascript_ms0 v) (Javascript_anid v) (Javascript_a v) (Javascript_msResearch v)
  (Javascript_csrvc v) (Javascript_rtCell v) (Javascript_rtEndAction v) (Javascript_rtPermId v)
  (Javascript_r v) (Javascript_wtFpc v) (Javascript_omniId v) (Javascript_gsfxSession v) (Javascript_domain v)
  (Javascript_userConsent v) (Javascript_browserLang v) (Javascript_serviceName v) (Javascript_dnt v).
Definition Javascript_default : Javascript :=
  MkJavascript [] [] [] [] [] [] [] [] [] [] 0 false [] [] [] [] [] [] [] [] [] [] [] [] [] false [] [] [].

Record Protocol := MkProtocol {
  Protocol_metadataCrc : Z; Protocol_ticketKeys : list (list cstring); Protocol_devMake : cstring;
  Protocol_devModel : cstring; Protocol_msp : Z
}.
#[global] Instance Protocol_eta : Eta Protocol := λ v,
  MkProtocol (Protocol_metadataCrc v) (Protocol_ticketKeys v) (Protocol_devMake v) (Protocol_devModel v)
  (Protocol_msp v).
Definition Protocol_default : Protocol :=
  MkProtocol 0 [] [] [] 0.

Record Receipts := MkReceipts {
  Receipts_originalTime : Z; Receipts_uploadTime : Z; Receipts_originalName : cstring; Receipts_flags : Z
}.
#[global] Instance Receipts_eta : Eta Receipts := λ v,
  MkReceipts (Receipts_originalTime v) (Receipts_uploadTime v) (Receipts_originalName v) (Receipts_flags v).
Definition Receipts_default : Receipts :=
  MkReceipts 0 0 [] 0.

Record Net := MkNet {
  Net_provider : cstring; Net_cost : cstring; Net_type : cstring
}.
#[global] Instance Net_eta : Eta Net := λ v,
  MkNet (Net_provider v) (Net_cost v) (Net_type v).
Definition Net_default : Net :=
  MkNet [] [] [].

Record Sdk := MkSdk {
  Sdk_ver : cstring; Sdk_epoch : cstring; Sdk_seq : Z; Sdk_installId : cstring; Sdk_libVer : cstring
}.
#[global] Instance Sdk_eta : Eta Sdk := λ v,
  MkSdk (Sdk_ver v) (Sdk_epoch v) (Sdk_seq v) (Sdk_installId v) (Sdk_libVer v).
Definition Sdk_default : Sdk :=
  MkSdk [] [] 0 [] [].

Record Cloud := MkCloud {
  Cloud_fullEnvName : cstring; Cloud_location : cstring; Cloud_environment : cstring;
  Cloud_deploymentUnit : cstring; Cloud_name : cstring; Cloud_roleInstance : cstring; Cloud_role : cstring
}.
#[global] Instance Cloud_eta : Eta Cloud := λ v,
  MkCloud (Cloud_fullEnvName v) (Cloud_location v) (Cloud_environment v) (Cloud_deploymentUnit v)
  (Cloud_name v) (Cloud_roleInstance v) (Cloud_role v).
Definition Cloud_default : Cloud :=
  MkCloud [] [] [] [] [] [] [].

Record Service := MkService {
  Service_name : cstring; Service_role : cstring; Service_roleVersion : cstring
}.
#[global] Instance Service_eta : Eta Service := λ v,
  MkService (Service_name v) (Service_role v) (Service_roleVersion v).
Definition Service_default : Service :=
  MkService [] [] [].

Record Cs := MkCs {
  Cs_sig : cstring
}.
#[global] Instance Cs_eta : Eta Cs := λ v,
  MkCs (Cs_sig v).
Definition Cs_default : Cs :=
  MkCs [].

Record Mscv := MkMscv {
  Mscv_cV : cstring
}.
#[global] Instance Mscv_eta : Eta Mscv := λ v,
  MkMscv (Mscv_cV v).
Definition Mscv_default : Mscv :=
  MkMscv [].

Record IntWeb := MkIntWeb {
  IntWeb_mc1Id : cstring; IntWeb_msfpc : cstring; IntWeb_anid : cstring; IntWeb_serviceName : cstring;
  IntWeb_mscom : smap cstring
}.
#[global] Instance IntWeb_eta : Eta IntWeb := λ v,
  MkIntWeb (IntWeb_mc1Id v) (IntWeb_msfpc v) (IntWeb_anid v) (IntWeb_serviceName v) (IntWeb_mscom v).
Definition IntWeb_default : IntWeb :=
  MkIntWeb [] [] [] [] [].

Record IntService := MkIntService {
  IntService_fullEnvName : cstring; IntService_location : cstring; IntService_environment : cstring;
  IntService_deploymentUnit : cstring; IntService_name : cstring
}.
#[global] Instance IntService_eta : Eta IntService := λ v,
  MkIntService (IntService_fullEnvName v) (IntService_location v) (IntService_environment v)
  (IntService_deploymentUnit v) (IntService_name v).
Definition IntService_default : IntService :=
  MkIntService [] [] [] [] [].

Record Web := MkWeb {
  Web_browser : cstring; Web_browserVer : cstring; Web_screenRes : cstring; Web_domain : cstring;
  Web_userConsent : bool; Web_browserLang : cstring; Web_isManual : bool
}.
#[global] Instance Web_eta : Eta Web := λ v,
  MkWeb (Web_browser v) (Web_browserVer v) (Web_screenRes v) (Web_domain v) (Web_userConsent v)
  (Web_browserLang v) (Web_isManual v).
Definition Web_default : Web :=
  MkWeb [] [] [] [] false [] false.

Record PII := MkPII {
  PII_Kind : Z
}.
#[global] Instance PII_eta : Eta PII := λ v,
  MkPII (PII_Kind v).
Definition PII_default : PII :=
  MkPII PIIKind_NotSet.

Record CustomerContent := MkCustomerContent {
  CustomerContent_Kind : Z
}.
#[global] Instance CustomerContent_eta : Eta CustomerContent := λ v,
  MkCustomerContent (CustomerContent_Kind v).
Definition CustomerContent_default : CustomerContent :=
  MkCustomerContent CustomerContentKind_NotSet.

Record Attributes := MkAttributes {
  Attributes_pii : list PII; Attributes_customerContent : list CustomerContent
}.
#[global] Instance Attributes_eta : Eta Attributes := λ v,
  MkAttributes (Attributes_pii v) (Attributes_customerContent v).
Definition Attributes_default : Attributes :=
  MkAttributes [] [].

Record Value := MkValue {
  Value_type : Z; Value_attributes : list Attributes; Value_stringValue : cstring; Value_longValue : Z;
  Value_doubleValue : double; Value_guidValue : list (list Z); Value_stringArray : list (list cstring);
  Value_longArray : list (list Z); Value_doubleArray : list (list double);
  Value_guidArray : list (list (list Z))
}.
#[global] Instance Value_eta : Eta Value := λ v,
  MkValue (Value_type v) (Value_attributes v) (Value_stringValue v) (Value_longValue v) (Value_doubleValue v)
  (Value_guidValue v) (Value_stringArray v) (Value_longArray v) (Value_doubleArray v) (Value_guidArray v).
Definition Value_default : Value :=
  MkValue ValueString [] [] 0 zero_double [] [] [] [] [].

Record Data := MkData {
  Data_properties : smap Value
}.
#[global] Instance Data_eta : Eta Data := λ v,
  MkData (Data_properties v).
Definition Data_default : Data :=
  MkData [].

Record CsRecord := MkCsRecord {
  CsRecord_ver : cstring; CsRecord_name : cstring; CsRecord_time : Z; CsRecord_popSample : double;
  CsRecord_iKey : cstring; CsRecord_flags : Z; CsRecord_cV : cstring; CsRecord_extIngest : list Ingest;
  CsRecord_extProtocol : list Protocol; CsRecord_extUser : list User; CsRecord_extDevice : list Device;
  CsRecord_extOs : list Os; CsRecord_extApp : list App; CsRecord_extUtc : list Utc;
  CsRecord_extXbl : list Xbl; CsRecord_extJavascript : list Javascript; CsRecord_extReceipts : list Receipts;
  CsRecord_extNet : list Net; CsRecord_extSdk : list Sdk; CsRecord_extLoc : list Loc;
  CsRecord_extCloud : list Cloud; CsRecord_extService : list Service; CsRecord_extCs : list Cs;
  CsRecord_extM365a : list M365a; CsRecord_ext : list Data; CsRecord_extMscv : list Mscv;
  CsRecord_extIntWeb : list IntWeb; CsRecord_extIntService : list IntService; CsRecord_extWeb : list Web;
  CsRecord_tags : smap cstring; CsRecord_baseType : cstring; CsRecord_baseData : list Data;
  CsRecord_data : list Data
}.
#[global] Instance CsRecord_eta : Eta CsRecord := λ v,
  MkCsRecord (CsRecord_ver v) (CsRecord_name v) (CsRecord_time v) (CsRecord_popSample v) (CsRecord_iKey v)
  (CsRecord_flags v) (CsRecord_cV v) (CsRecord_extIngest v) (CsRecord_extProtocol v) (CsRecord_extUser v)
  (CsRecord_extDevice v) (CsRecord_extOs v) (CsRecord_extApp v) (CsRecord_extUtc v) (CsRecord_extXbl v)
  (CsRecord_extJavascript v) (CsRecord_extReceipts v) (CsRecord_extNet v) (CsRecord_extSdk v)
  (CsRecord_extLoc v) (CsRecord_extCloud v) (CsRecord_extService v) (CsRecord_extCs v) (CsRecord_extM365a v)
  (CsRecord_ext v) (CsRecord_extMscv v) (CsRecord_extIntWeb v) (CsRecord_extIntService v) (CsRecord_extWeb v)
  (CsRecord_tags v) (CsRecord_baseType v) (CsRecord_baseData v) (CsRecord_data v).
Definition CsRecord_default : CsRecord :=
  MkCsRecord [] [] 0 hundred_double [] 0 [] [] [] [] [] [] [] [] [] [] [] [] [] [] [] [] [] [] [] [] [] [] []
  [] [] [] [].

(** ** Values of the types

    The sizes of strings and containers fit the 32-bit lengths of the protocol
    (the writer asserts it), the keys of a map are in order and each once, and
    the integers are those of their types. *)

Definition any_ok (_ : Z) : Prop := True.
Definition double_ok (d : double) : Prop := length d = 8%nat.
Definition list_ok {A} (P : A → Prop) (l : list A) : Prop := short l ∧ Forall P l.
Definition map_ok {A} (P : A → Prop) (m : smap A) : Prop := short m ∧ sorted m ∧ Forall (entry_ok P) m.

Section Valid.
Context `{Build}.

Definition Ingest_ok (v : Ingest) : Prop :=
  sbits 64 (Ingest_time v) ∧ short (Ingest_clientIp v) ∧ sbits 64 (Ingest_auth v) ∧
  sbits 64 (Ingest_quality v) ∧ sbits 64 (Ingest_uploadTime v) ∧ short (Ingest_userAgent v) ∧
  short (Ingest_client v).
Definition User_ok (v : User) : Prop :=
  short (User_id v) ∧ short (User_localId v) ∧ short (User_authId v) ∧ short (User_locale v).
Definition Loc_ok (v : Loc) : Prop :=
  short (Loc_id v) ∧ short (Loc_country v) ∧ short (Loc_timezone v).
Definition Device_ok (v : Device) : Prop :=
  short (Device_id v) ∧ short (Device_localId v) ∧ short (Device_authId v) ∧ short (Device_authSecId v) ∧
  short (Device_deviceClass v) ∧ short (Device_orgId v) ∧ short (Device_orgAuthId v) ∧ short (Device_make v) ∧
  short (Device_model v) ∧ short (Device_authIdEnt v) ∧ (HAVE_CS4 = false → Device_authIdEnt v = []).
Definition Os_ok (v : Os) : Prop :=
  short (Os_locale v) ∧ short (Os_expId v) ∧ sbits 32 (Os_bootId v) ∧ short (Os_name v) ∧ short (Os_ver v).
Definition App_ok (v : App) : Prop :=
  short (App_expId v) ∧ short (App_userId v) ∧ short (App_env v) ∧ sbits 32 (App_asId v) ∧ short (App_id v) ∧
  short (App_ver v) ∧ short (App_locale v) ∧ short (App_name v) ∧ short (App_sesId v) ∧
  (HAVE_CS4 = false → App_sesId v = []).
Definition Utc_ok (v : Utc) : Prop :=
  short (Utc_stId v) ∧ short (Utc_aId v) ∧ short (Utc_raId v) ∧ short (Utc_op v) ∧ sbits 64 (Utc_cat v) ∧
  sbits 64 (Utc_flags v) ∧ short (Utc_sqmId v) ∧ short (Utc_mon v) ∧ sbits 32 (Utc_cpId v) ∧
  short (Utc_bSeq v) ∧ short (Utc_epoch v) ∧ sbits 64 (Utc_seq v) ∧ double_ok (Utc_popSample v) ∧
  sbits 64 (Utc_eventFlags v) ∧ sbits 64 (Utc_wsId v) ∧ sbits 64 (Utc_wcmp v) ∧ sbits 64 (Utc_wPId v) ∧
  (HAVE_CS4 = false → Utc_wsId v = 0) ∧ (HAVE_CS4 = false → Utc_wcmp v = 0) ∧
  (HAVE_CS4 = false → Utc_wPId v = 0).
Definition M365a_ok (v : M365a) : Prop :=
  short (M365a_enrolledTenantId v) ∧ ubits 64 (M365a_msp v) ∧ (HAVE_CS4 = false → M365a_msp v = 0).
Definition Xbl_ok (v : Xbl) : Prop :=
  map_ok short (Xbl_claims v) ∧ short (Xbl_nbf v) ∧ short (Xbl_exp v) ∧ short (Xbl_sbx v) ∧
  short (Xbl_dty v) ∧ short (Xbl_did v) ∧ short (Xbl_xid v) ∧ ubits 64 (Xbl_uts v) ∧ short (Xbl_pid v) ∧
  short (Xbl_dvr v) ∧ ubits 32 (Xbl_tid v) ∧ short (Xbl_tvr v) ∧ short (Xbl_sty v) ∧ short (Xbl_sid v) ∧
  sbits 64 (Xbl_eid v) ∧ short (Xbl_ip v).
Definition Javascript_ok (v : Javascript) : Prop :=
  short (Javascript_libVer v) ∧ short (Javascript_osName v) ∧ short (Javascript_browser v) ∧
  short (Javascript_browserVersion v) ∧ short (Javascript_platform v) ∧ short (Javascript_make v) ∧
  short (Javascript_model v) ∧ short (Javascript_screenSize v) ∧ short (Javascript_msfpc v) ∧
  short (Javascript_mc1Id v) ∧ ubits 64 (Javascript_mc1Lu v) ∧ short (Javascript_ms0 v) ∧
  short (Javascript_anid v) ∧ short (Javascript_a v) ∧ short (Javascript_msResearch v) ∧
  short (Javascript_csrvc v) ∧ short (Javascript_rtCell v) ∧ short (Javascript_rtEndAction v) ∧
  short (Javascript_rtPermId v) ∧ short (Javascript_r v) ∧ short (Javascript_wtFpc v) ∧
  short (Javascript_omniId v) ∧ short (Javascript_gsfxSession v) ∧ short (Javascript_domain v) ∧
  short (Javascript_browserLang v) ∧ short (Javascript_serviceName v) ∧ short (Javascript_dnt v) ∧
  (HAVE_CS4 = false → Javascript_msfpc v = []) ∧ (HAVE_CS4 = false → Javascript_userConsent v = false) ∧
  (HAVE_CS4 = false → Javascript_browserLang v = []) ∧ (HAVE_CS4 = false → Javascript_serviceName v = []).
Definition Protocol_ok (v : Protocol) : Prop :=
  sbits 32 (Protocol_metadataCrc v) ∧ list_ok (list_ok short) (Protocol_ticketKeys v) ∧
  short (Protocol_devMake v) ∧ short (Protocol_devModel v) ∧ ubits 64 (Protocol_msp v) ∧
  (HAVE_CS4 = false → Protocol_msp v = 0).
Definition Receipts_ok (v : Receipts) : Prop :=
  sbits 64 (Receipts_originalTime v) ∧ sbits 64 (Receipts_uploadTime v) ∧ short (Receipts_originalName v) ∧
  ubits 64 (Receipts_flags v) ∧ (HAVE_CS4 = false → Receipts_originalName v = []) ∧
  (HAVE_CS4 = false → Receipts_flags v = 0).
Definition Net_ok (v : Net) : Prop :=
  short (Net_provider v) ∧ short (Net_cost v) ∧ short (Net_type v).
Definition Sdk_ok (v : Sdk) : Prop :=
  short (Sdk_ver v) ∧ short (Sdk_epoch v) ∧ sbits 64 (Sdk_seq v) ∧ short (Sdk_installId v) ∧
  short (Sdk_libVer v) ∧ (HAVE_CS4 = false → Sdk_ver v = []).
Definition Cloud_ok (v : Cloud) : Prop :=
  short (Cloud_fullEnvName v) ∧ short (Cloud_location v) ∧ short (Cloud_environment v) ∧
  short (Cloud_deploymentUnit v) ∧ short (Cloud_name v) ∧ short (Cloud_roleInstance v) ∧ short (Cloud_role v).
Definition Service_ok (v : Service) : Prop :=
  short (Service_name v) ∧ short (Service_role v) ∧ short (Service_roleVersion v).
Definition Cs_ok (v : Cs) : Prop :=
  short (Cs_sig v).
Definition Mscv_ok (v : Mscv) : Prop :=
  short (Mscv_cV v).
Definition IntWeb_ok (v : IntWeb) : Prop :=
  short (IntWeb_mc1Id v) ∧ short (IntWeb_msfpc v) ∧ short (IntWeb_anid v) ∧ short (IntWeb_serviceName v) ∧
  map_ok short (IntWeb_mscom v).
Definition IntService_ok (v : IntService) : Prop :=
  short (IntService_fullEnvName v) ∧ short (IntService_location v) ∧ short (IntService_environment v) ∧
  short (IntService_deploymentUnit v) ∧ short (IntService_name v).
Definition Web_ok (v : Web) : Prop :=
  short (Web_browser v) ∧ short (Web_browserVer v) ∧ short (Web_screenRes v) ∧ short (Web_domain v) ∧
  short (Web_browserLang v).
Definition PII_ok (v : PII) : Prop :=
  sbits 32 (PII_Kind v).
Definition CustomerContent_ok (v : CustomerContent) : Prop :=
  sbits 32 (CustomerContent_Kind v).
Definition Attributes_ok (v : Attributes) : Prop :=
  list_ok PII_ok (Attributes_pii v) ∧ list_ok CustomerContent_ok (Attributes_customerContent v).
Definition Value_ok (v : Value) : Prop :=
  sbits 32 (Value_type v) ∧ list_ok Attributes_ok (Value_attributes v) ∧ short (Value_stringValue v) ∧
  sbits 64 (Value_longValue v) ∧ double_ok (Value_doubleValue v) ∧
  list_ok (list_ok any_ok) (Value_guidValue v) ∧ list_ok (list_ok short) (Value_stringArray v) ∧
  list_ok (list_ok (sbits 64)) (Value_longArray v) ∧ list_ok (list_ok double_ok) (Value_doubleArray v) ∧
  list_ok (list_ok (list_ok any_ok)) (Value_guidArray v).
Definition Data_ok (v : Data) : Prop :=
  map_ok Value_ok (Data_properties v).
Definition CsRecord_ok (v : CsRecord) : Prop :=
  short (CsRecord_ver v) ∧ short (CsRecord_name v) ∧ sbits 64 (CsRecord_time v) ∧
  double_ok (CsRecord_popSample v) ∧ short (CsRecord_iKey v) ∧ sbits 64 (CsRecord_flags v) ∧
  short (CsRecord_cV v) ∧ list_ok Ingest_ok (CsRecord_extIngest v) ∧
  list_ok Protocol_ok (CsRecord_extProtocol v) ∧ list_ok User_ok (CsRecord_extUser v) ∧
  list_ok Device_ok (CsRecord_extDevice v) ∧ list_ok Os_ok (CsRecord_extOs v) ∧
  list_ok App_ok (CsRecord_extApp v) ∧ list_ok Utc_ok (CsRecord_extUtc v) ∧
  list_ok Xbl_ok (CsRecord_extXbl v) ∧ list_ok Javascript_ok (CsRecord_extJavascript v) ∧
  list_ok Receipts_ok (CsRecord_extReceipts v) ∧ list_ok Net_ok (CsRecord_extNet v) ∧
  list_ok Sdk_ok (CsRecord_extSdk v) ∧ list_ok Loc_ok (CsRecord_extLoc v) ∧
  list_ok Cloud_ok (CsRecord_extCloud v) ∧ list_ok Service_ok (CsRecord_extService v) ∧
  list_ok Cs_ok (CsRecord_extCs v) ∧ list_ok M365a_ok (CsRecord_extM365a v) ∧
  list_ok Data_ok (CsRecord_ext v) ∧ list_ok Mscv_ok (CsRecord_extMscv v) ∧
  list_ok IntWeb_ok (CsRecord_extIntWeb v) ∧ list_ok IntService_ok (CsRecord_extIntService v) ∧
  list_ok Web_ok (CsRecord_extWeb v) ∧ map_ok short (CsRecord_tags v) ∧ short (CsRecord_baseType v) ∧
  list_ok Data_ok (CsRecord_baseData v) ∧ list_ok Data_ok (CsRecord_data v) ∧
  (HAVE_CS4_FULL = false → CsRecord_extIngest v = []) ∧ (HAVE_CS4_FULL = false → CsRecord_extXbl v = []) ∧
  (HAVE_CS4_FULL = false → CsRecord_extJavascript v = []) ∧
  (HAVE_CS4_FULL = false → CsRecord_extReceipts v = []) ∧ (HAVE_CS4_FULL = false → CsRecord_extCloud v = []) ∧
  (HAVE_CS4_FULL = false → CsRecord_extService v = []) ∧ (HAVE_CS4_FULL = false → CsRecord_extCs v = []) ∧
  (HAVE_CS4_FULL = false → CsRecord_extMscv v = []) ∧ (HAVE_CS4_FULL = false → CsRecord_extIntWeb v = []) ∧
  (HAVE_CS4_FULL = false → CsRecord_extIntService v = []) ∧ (HAVE_CS4_FULL = false → CsRecord_extWeb v = []).

End Valid.

End CsTypes.
