(* ===== verification/CsWriters.v ===== *)
(** * The writers of CsProtocol

    lib/bond/generated/CsProtocol_writers.hpp: one [Serialize] per structure; a
    member with its default value is left out. *)

From Stdlib Require Import ZArith Lia.
From S2P Require Import Prelude StdMap BondProtocol CsTypes.

Module CsWriters.
Import StdMap Bond CsTypes.

(** [d != 0.0]: false for both zeros. *)
Definition double_ne_zero (d : double) : bool := negb (bool_decide (d = zero_double ∨ d = [0; 0; 0; 0; 0; 0; 0; 0x80])).

(** [d != 100]. *)
Definition double_ne_hundred (d : double) : bool := negb (bool_decide (d = hundred_double)).

(** The statements between [#ifdef macro] and [#endif]. *)
Definition ifdef (macro : bool) (code : output) : output := if macro then code else [].

Section Writers.
Context `{Build}.

Definition Serialize_Ingest (v : Ingest) (isBase : bool) : output :=
  WriteStructBegin isBase ++
  field (negb (Ingest_time v =? 0)) BT_INT64 1 (WriteInt64 (Ingest_time v)) ++
  field (nonempty (Ingest_clientIp v)) BT_STRING 2 (WriteString (Ingest_clientIp v)) ++
  field (negb (Ingest_auth v =? 0)) BT_INT64 3 (WriteInt64 (Ingest_auth v)) ++
  field (negb (Ingest_quality v =? 0)) BT_INT64 4 (WriteInt64 (Ingest_quality v)) ++
  field (negb (Ingest_uploadTime v =? 0)) BT_INT64 5 (WriteInt64 (Ingest_uploadTime v)) ++
  field (nonempty (Ingest_userAgent v)) BT_STRING 6 (WriteString (Ingest_userAgent v)) ++
  field (nonempty (Ingest_client v)) BT_STRING 7 (WriteString (Ingest_client v)) ++
  WriteStructEnd isBase.

Definition Serialize_User (v : User) (isBase : bool) : output :=
  WriteStructBegin isBase ++
  field (nonempty (User_id v)) BT_STRING 1 (WriteString (User_id v)) ++
  field (nonempty (User_localId v)) BT_STRING 2 (WriteString (User_localId v)) ++
  field (nonempty (User_authId v)) BT_STRING 3 (WriteString (User_authId v)) ++
  field (nonempty (User_locale v)) BT_STRING 4 (WriteString (User_locale v)) ++
  WriteStructEnd isBase.

Definition Serialize_Loc (v : Loc) (isBase : bool) : output :=
  WriteStructBegin isBase ++
  field (nonempty (Loc_id v)) BT_STRING 1 (WriteString (Loc_id v)) ++
  field (nonempty (Loc_country v)) BT_STRING 2 (WriteString (Loc_country v)) ++
  field (nonempty (Loc_timezone v)) BT_STRING 3 (WriteString (Loc_timezone v)) ++
  WriteStructEnd isBase.

Definition Serialize_Device (v : Device) (isBase : bool) : output :=
  WriteStructBegin isBase ++
  field (nonempty (Device_id v)) BT_STRING 1 (WriteString (Device_id v)) ++
  field (nonempty (Device_localId v)) BT_STRING 2 (WriteString (Device_localId v)) ++
  field (nonempty (Device_authId v)) BT_STRING 3 (WriteString (Device_authId v)) ++
  field (nonempty (Device_authSecId v)) BT_STRING 4 (WriteString (Device_authSecId v)) ++
  field (nonempty (Device_deviceClass v)) BT_STRING 5 (WriteString (Device_deviceClass v)) ++
  field (nonempty (Device_orgId v)) BT_STRING 6 (WriteString (Device_orgId v)) ++
  field (nonempty (Device_orgAuthId v)) BT_STRING 7 (WriteString (Device_orgAuthId v)) ++
  field (nonempty (Device_make v)) BT_STRING 8 (WriteString (Device_make v)) ++
  field (nonempty (Device_model v)) BT_STRING 9 (WriteString (Device_model v)) ++
  ifdef HAVE_CS4 (field (nonempty (Device_authIdEnt v)) BT_STRING 10 (WriteString (Device_authIdEnt v))) ++
  WriteStructEnd isBase.

Definition Serialize_Os (v : Os) (isBase : bool) : output :=
  WriteStructBegin isBase ++
  field (nonempty (Os_locale v)) BT_STRING 1 (WriteString (Os_locale v)) ++
  field (nonempty (Os_expId v)) BT_STRING 2 (WriteString (Os_expId v)) ++
  field (negb (Os_bootId v =? 0)) BT_INT32 3 (WriteInt32 (Os_bootId v)) ++
  field (nonempty (Os_name v)) BT_STRING 4 (WriteString (Os_name v)) ++
  field (nonempty (Os_ver v)) BT_STRING 5 (WriteString (Os_ver v)) ++
  WriteStructEnd isBase.

Definition Serialize_App (v : App) (isBase : bool) : output :=
  WriteStructBegin isBase ++
  field (nonempty (App_expId v)) BT_STRING 1 (WriteString (App_expId v)) ++
  field (nonempty (App_userId v)) BT_STRING 2 (WriteString (App_userId v)) ++
  field (nonempty (App_env v)) BT_STRING 3 (WriteString (App_env v)) ++
  field (negb (App_asId v =? 0)) BT_INT32 4 (WriteInt32 (App_asId v)) ++
  field (nonempty (App_id v)) BT_STRING 5 (WriteString (App_id v)) ++
  field (nonempty (App_ver v)) BT_STRING 6 (WriteString (App_ver v)) ++
  field (nonempty (App_locale v)) BT_STRING 7 (WriteString (App_locale v)) ++
  field (nonempty (App_name v)) BT_STRING 8 (WriteString (App_name v)) ++
  ifdef HAVE_CS4 (field (nonempty (App_sesId v)) BT_STRING 9 (WriteString (App_sesId v))) ++
  WriteStructEnd isBase.

Definition Serialize_Utc (v : Utc) (isBase : bool) : output :=
  WriteStructBegin isBase ++
  field (nonempty (Utc_stId v)) BT_STRING 1 (WriteString (Utc_stId v)) ++
  field (nonempty (Utc_aId v)) BT_STRING 2 (WriteString (Utc_aId v)) ++
  field (nonempty (Utc_raId v)) BT_STRING 3 (WriteString (Utc_raId v)) ++
  field (nonempty (Utc_op v)) BT_STRING 4 (WriteString (Utc_op v)) ++
  field (negb (Utc_cat v =? 0)) BT_INT64 5 (WriteInt64 (Utc_cat v)) ++
  field (negb (Utc_flags v =? 0)) BT_INT64 6 (WriteInt64 (Utc_flags v)) ++
  field (nonempty (Utc_sqmId v)) BT_STRING 7 (WriteString (Utc_sqmId v)) ++
  field (nonempty (Utc_mon v)) BT_STRING 9 (WriteString (Utc_mon v)) ++
  field (negb (Utc_cpId v =? 0)) BT_INT32 10 (WriteInt32 (Utc_cpId v)) ++
  field (nonempty (Utc_bSeq v)) BT_STRING 11 (WriteString (Utc_bSeq v)) ++
  field (nonempty (Utc_epoch v)) BT_STRING 12 (WriteString (Utc_epoch v)) ++
  field (negb (Utc_seq v =? 0)) BT_INT64 13 (WriteInt64 (Utc_seq v)) ++
  field (double_ne_zero (Utc_popSample v)) BT_DOUBLE 14 (WriteDouble (Utc_popSample v)) ++
  field (negb (Utc_eventFlags v =? 0)) BT_INT64 15 (WriteInt64 (Utc_eventFlags v)) ++
  ifdef HAVE_CS4 (field (negb (Utc_wsId v =? 0)) BT_INT64 16 (WriteInt64 (Utc_wsId v))) ++
  ifdef HAVE_CS4 (field (negb (Utc_wcmp v =? 0)) BT_INT64 17 (WriteInt64 (Utc_wcmp v))) ++
  ifdef HAVE_CS4 (field (negb (Utc_wPId v =? 0)) BT_INT64 18 (WriteInt64 (Utc_wPId v))) ++
  WriteStructEnd isBase.

Definition Serialize_M365a (v : M365a) (isBase : bool) : output :=
  WriteStructBegin isBase ++
  field (nonempty (M365a_enrolledTenantId v)) BT_STRING 1 (WriteString (M365a_enrolledTenantId v)) ++
  ifdef HAVE_CS4 (field (negb (M365a_msp v =? 0)) BT_UINT64 2 (WriteUInt64 (M365a_msp v))) ++
  WriteStructEnd isBase.

Definition Serialize_Xbl (v : Xbl) (isBase : bool) : output :=
  WriteStructBegin isBase ++
  field (nonempty (Xbl_claims v)) BT_MAP 5 (write_map BT_STRING WriteString (Xbl_claims v)) ++
  field (nonempty (Xbl_nbf v)) BT_STRING 10 (WriteString (Xbl_nbf v)) ++
  field (nonempty (Xbl_exp v)) BT_STRING 20 (WriteString (Xbl_exp v)) ++
  field (nonempty (Xbl_sbx v)) BT_STRING 30 (WriteString (Xbl_sbx v)) ++
  field (nonempty (Xbl_dty v)) BT_STRING 40 (WriteString (Xbl_dty v)) ++
  field (nonempty (Xbl_did v)) BT_STRING 50 (WriteString (Xbl_did v)) ++
  field (nonempty (Xbl_xid v)) BT_STRING 60 (WriteString (Xbl_xid v)) ++
  field (negb (Xbl_uts v =? 0)) BT_UINT64 70 (WriteUInt64 (Xbl_uts v)) ++
  field (nonempty (Xbl_pid v)) BT_STRING 80 (WriteString (Xbl_pid v)) ++
  field (nonempty (Xbl_dvr v)) BT_STRING 90 (WriteString (Xbl_dvr v)) ++
  field (negb (Xbl_tid v =? 0)) BT_UINT32 100 (WriteUInt32 (Xbl_tid v)) ++
  field (nonempty (Xbl_tvr v)) BT_STRING 110 (WriteString (Xbl_tvr v)) ++
  field (nonempty (Xbl_sty v)) BT_STRING 120 (WriteString (Xbl_sty v)) ++
  field (nonempty (Xbl_sid v)) BT_STRING 130 (WriteString (Xbl_sid v)) ++
  field (negb (Xbl_eid v =? 0)) BT_INT64 140 (WriteInt64 (Xbl_eid v)) ++
  field (nonempty (Xbl_ip v)) BT_STRING 150 (WriteString (Xbl_ip v)) ++
  WriteStructEnd isBase.

Definition Serialize_Javascript (v : Javascript) (isBase : bool) : output :=
  WriteStructBegin isBase ++
  field (nonempty (Javascript_libVer v)) BT_STRING 10 (WriteString (Javascript_libVer v)) ++
  field (nonempty (Javascript_osName v)) BT_STRING 15 (WriteString (Javascript_osName v)) ++
  field (nonempty (Javascript_browser v)) BT_STRING 20 (WriteString (Javascript_browser v)) ++
  field (nonempty (Javascript_browserVersion v)) BT_STRING 21 (WriteString (Javascript_browserVersion v)) ++
  field (nonempty (Javascript_platform v)) BT_STRING 25 (WriteString (Javascript_platform v)) ++
  field (nonempty (Javascript_make v)) BT_STRING 30 (WriteString (Javascript_make v)) ++
  field (nonempty (Javascript_model v)) BT_STRING 35 (WriteString (Javascript_model v)) ++
  field (nonempty (Javascript_screenSize v)) BT_STRING 40 (WriteString (Javascript_screenSize v)) ++
  ifdef HAVE_CS4 (field (nonempty (Javascript_msfpc v)) BT_STRING 45 (WriteString (Javascript_msfpc v))) ++
  field (nonempty (Javascript_mc1Id v)) BT_STRING 50 (WriteString (Javascript_mc1Id v)) ++
  field (negb (Javascript_mc1Lu v =? 0)) BT_UINT64 60 (WriteUInt64 (Javascript_mc1Lu v)) ++
  field (Javascript_isMc1New v) BT_BOOL 70 (WriteBool (Javascript_isMc1New v)) ++
  field (nonempty (Javascript_ms0 v)) BT_STRING 80 (WriteString (Javascript_ms0 v)) ++
  field (nonempty (Javascript_anid v)) BT_STRING 90 (WriteString (Javascript_anid v)) ++
  field (nonempty (Javascript_a v)) BT_STRING 100 (WriteString (Javascript_a v)) ++
  field (nonempty (Javascript_msResearch v)) BT_STRING 110 (WriteString (Javascript_msResearch v)) ++
  field (nonempty (Javascript_csrvc v)) BT_STRING 120 (WriteString (Javascript_csrvc v)) ++
  field (nonempty (Javascript_rtCell v)) BT_STRING 130 (WriteString (Javascript_rtCell v)) ++
  field (nonempty (Javascript_rtEndAction v)) BT_STRING 140 (WriteString (Javascript_rtEndAction v)) ++
  field (nonempty (Javascript_rtPermId v)) BT_STRING 150 (WriteString (Javascript_rtPermId v)) ++
  field (nonempty (Javascript_r v)) BT_STRING 160 (WriteString (Javascript_r v)) ++
  field (nonempty (Javascript_wtFpc v)) BT_STRING 170 (WriteString (Javascript_wtFpc v)) ++
  field (nonempty (Javascript_omniId v)) BT_STRING 180 (WriteString (Javascript_omniId v)) ++
  field (nonempty (Javascript_gsfxSession v)) BT_STRING 190 (WriteString (Javascript_gsfxSession v)) ++
  field (nonempty (Javascript_domain v)) BT_STRING 200 (WriteString (Javascript_domain v)) ++
  ifdef HAVE_CS4 (field (Javascript_userConsent v) BT_BOOL 210 (WriteBool (Javascript_userConsent v))) ++
  ifdef HAVE_CS4 (field (nonempty (Javascript_browserLang v)) BT_STRING 220 (WriteString
    (Javascript_browserLang v))) ++
  ifdef HAVE_CS4 (field (nonempty (Javascript_serviceName v)) BT_STRING 230 (WriteString
    (Javascript_serviceName v))) ++
  field (nonempty (Javascript_dnt v)) BT_STRING 999 (WriteString (Javascript_dnt v)) ++
  WriteStructEnd isBase.

Definition Serialize_Protocol (v : Protocol) (isBase : bool) : output :=
  WriteStructBegin isBase ++
  field (negb (Protocol_metadataCrc v =? 0)) BT_INT32 1 (WriteInt32 (Protocol_metadataCrc v)) ++
  field (nonempty (Protocol_ticketKeys v)) BT_LIST 2 (write_list BT_LIST
    (write_list BT_STRING WriteString) (Protocol_ticketKeys v)) ++
  field (nonempty (Protocol_devMake v)) BT_STRING 3 (WriteString (Protocol_devMake v)) ++
  field (nonempty (Protocol_devModel v)) BT_STRING 4 (WriteString (Protocol_devModel v)) ++
  ifdef HAVE_CS4 (field (negb (Protocol_msp v =? 0)) BT_UINT64 5 (WriteUInt64 (Protocol_msp v))) ++
  WriteStructEnd isBase.

Definition Serialize_Receipts (v : Receipts) (isBase : bool) : output :=
  WriteStructBegin isBase ++
  field (negb (Receipts_originalTime v =? 0)) BT_INT64 1 (WriteInt64 (Receipts_originalTime v)) ++
  field (negb (Receipts_uploadTime v =? 0)) BT_INT64 2 (WriteInt64 (Receipts_uploadTime v)) ++
  ifdef HAVE_CS4 (field (nonempty (Receipts_originalName v)) BT_STRING 3 (WriteString
    (Receipts_originalName v))) ++
  ifdef HAVE_CS4 (field (negb (Receipts_flags v =? 0)) BT_UINT64 4 (WriteUInt64 (Receipts_flags v))) ++
  WriteStructEnd isBase.

Definition Serialize_Net (v : Net) (isBase : bool) : output :=
  WriteStructBegin isBase ++
  field (nonempty (Net_provider v)) BT_STRING 1 (WriteString (Net_provider v)) ++
  field (nonempty (Net_cost v)) BT_STRING 2 (WriteString (Net_cost v)) ++
  field (nonempty (Net_type v)) BT_STRING 3 (WriteString (Net_type v)) ++
  WriteStructEnd isBase.

Definition Serialize_Sdk (v : Sdk) (isBase : bool) : output :=
  WriteStructBegin isBase ++
  ifdef HAVE_CS4 (field (nonempty (Sdk_ver v)) BT_STRING 1 (WriteString (Sdk_ver v))) ++
  ifdef (negb HAVE_CS4) (field (nonempty (Sdk_libVer v)) BT_STRING 1 (WriteString (Sdk_libVer v))) ++
  field (nonempty (Sdk_epoch v)) BT_STRING 2 (WriteString (Sdk_epoch v)) ++
  field (negb (Sdk_seq v =? 0)) BT_INT64 3 (WriteInt64 (Sdk_seq v)) ++
  field (nonempty (Sdk_installId v)) BT_STRING 4 (WriteString (Sdk_installId v)) ++
  ifdef HAVE_CS4 (field (nonempty (Sdk_libVer v)) BT_STRING 5 (WriteString (Sdk_libVer v))) ++
  WriteStructEnd isBase.

Definition Serialize_Cloud (v : Cloud) (isBase : bool) : output :=
  WriteStructBegin isBase ++
  field (nonempty (Cloud_fullEnvName v)) BT_STRING 1 (WriteString (Cloud_fullEnvName v)) ++
  field (nonempty (Cloud_location v)) BT_STRING 2 (WriteString (Cloud_location v)) ++
  field (nonempty (Cloud_environment v)) BT_STRING 3 (WriteString (Cloud_environment v)) ++
  field (nonempty (Cloud_deploymentUnit v)) BT_STRING 4 (WriteString (Cloud_deploymentUnit v)) ++
  field (nonempty (Cloud_name v)) BT_STRING 5 (WriteString (Cloud_name v)) ++
  field (nonempty (Cloud_roleInstance v)) BT_STRING 6 (WriteString (Cloud_roleInstance v)) ++
  field (nonempty (Cloud_role v)) BT_STRING 7 (WriteString (Cloud_role v)) ++
  WriteStructEnd isBase.

Definition Serialize_Service (v : Service) (isBase : bool) : output :=
  WriteStructBegin isBase ++
  field (nonempty (Service_name v)) BT_STRING 1 (WriteString (Service_name v)) ++
  field (nonempty (Service_role v)) BT_STRING 2 (WriteString (Service_role v)) ++
  field (nonempty (Service_roleVersion v)) BT_STRING 3 (WriteString (Service_roleVersion v)) ++
  WriteStructEnd isBase.

Definition Serialize_Cs (v : Cs) (isBase : bool) : output :=
  WriteStructBegin isBase ++
  field (nonempty (Cs_sig v)) BT_STRING 1 (WriteString (Cs_sig v)) ++
  WriteStructEnd isBase.

Definition Serialize_Mscv (v : Mscv) (isBase : bool) : output :=
  WriteStructBegin isBase ++
  field (nonempty (Mscv_cV v)) BT_STRING 1 (WriteString (Mscv_cV v)) ++
  WriteStructEnd isBase.

Definition Serialize_IntWeb (v : IntWeb) (isBase : bool) : output :=
  WriteStructBegin isBase ++
  field (nonempty (IntWeb_mc1Id v)) BT_STRING 1 (WriteString (IntWeb_mc1Id v)) ++
  field (nonempty (IntWeb_msfpc v)) BT_STRING 2 (WriteString (IntWeb_msfpc v)) ++
  field (nonempty (IntWeb_anid v)) BT_STRING 3 (WriteString (IntWeb_anid v)) ++
  field (nonempty (IntWeb_serviceName v)) BT_STRING 4 (WriteString (IntWeb_serviceName v)) ++
  field (nonempty (IntWeb_mscom v)) BT_MAP 5 (write_map BT_STRING WriteString (IntWeb_mscom v)) ++
  WriteStructEnd isBase.

Definition Serialize_IntService (v : IntService) (isBase : bool) : output :=
  WriteStructBegin isBase ++
  field (nonempty (IntService_fullEnvName v)) BT_STRING 1 (WriteString (IntService_fullEnvName v)) ++
  field (nonempty (IntService_location v)) BT_STRING 2 (WriteString (IntService_location v)) ++
  field (nonempty (IntService_environment v)) BT_STRING 3 (WriteString (IntService_environment v)) ++
  field (nonempty (IntService_deploymentUnit v)) BT_STRING 4 (WriteString (IntService_deploymentUnit v)) ++
  field (nonempty (IntService_name v)) BT_STRING 5 (WriteString (IntService_name v)) ++
  WriteStructEnd isBase.

Definition Serialize_Web (v : Web) (isBase : bool) : output :=
  WriteStructBegin isBase ++
  field (nonempty (Web_browser v)) BT_STRING 10 (WriteString (Web_browser v)) ++
  field (nonempty (Web_browserVer v)) BT_STRING 20 (WriteString (Web_browserVer v)) ++
  field (nonempty (Web_screenRes v)) BT_STRING 30 (WriteString (Web_screenRes v)) ++
  field (nonempty (Web_domain v)) BT_STRING 40 (WriteString (Web_domain v)) ++
  field (Web_userConsent v) BT_BOOL 50 (WriteBool (Web_userConsent v)) ++
  field (nonempty (Web_browserLang v)) BT_STRING 60 (WriteString (Web_browserLang v)) ++
  field (Web_isManual v) BT_BOOL 70 (WriteBool (Web_isManual v)) ++
  WriteStructEnd isBase.

Definition Serialize_PII (v : PII) (isBase : bool) : output :=
  WriteStructBegin isBase ++
  field (negb (PII_Kind v =? PIIKind_NotSet)) BT_INT32 1 (WriteInt32 (PII_Kind v)) ++
  WriteStructEnd isBase.

Definition Serialize_CustomerContent (v : CustomerContent) (isBase : bool) : output :=
  WriteStructBegin isBase ++
  field (negb (CustomerContent_Kind v =? CustomerContentKind_NotSet)) BT_INT32 1 (WriteInt32
    (CustomerContent_Kind v)) ++
  WriteStructEnd isBase.

Definition Serialize_Attributes (v : Attributes) (isBase : bool) : output :=
  WriteStructBegin isBase ++
  field (nonempty (Attributes_pii v)) BT_LIST 1 (write_list BT_STRUCT (λ item2, Serialize_PII item2 false)
    (Attributes_pii v)) ++
  field (nonempty (Attributes_customerContent v)) BT_LIST 2 (write_list BT_STRUCT
    (λ item2, Serialize_CustomerContent item2 false) (Attributes_customerContent v)) ++
  WriteStructEnd isBase.

Definition Serialize_Value (v : Value) (isBase : bool) : output :=
  WriteStructBegin isBase ++
  field (negb (Value_type v =? ValueString)) BT_INT32 1 (WriteInt32 (Value_type v)) ++
  field (nonempty (Value_attributes v)) BT_LIST 2 (write_list BT_STRUCT
    (λ item2, Serialize_Attributes item2 false) (Value_attributes v)) ++
  field (nonempty (Value_stringValue v)) BT_STRING 3 (WriteString (Value_stringValue v)) ++
  field (negb (Value_longValue v =? 0)) BT_INT64 4 (WriteInt64 (Value_longValue v)) ++
  field (double_ne_zero (Value_doubleValue v)) BT_DOUBLE 5 (WriteDouble (Value_doubleValue v)) ++
  field (nonempty (Value_guidValue v)) BT_LIST 6 (write_list BT_LIST (write_list BT_UINT8 WriteUInt8)
    (Value_guidValue v)) ++
  field (nonempty (Value_stringArray v)) BT_LIST 10 (write_list BT_LIST (write_list BT_STRING WriteString)
    (Value_stringArray v)) ++
  field (nonempty (Value_longArray v)) BT_LIST 11 (write_list BT_LIST (write_list BT_INT64 WriteInt64)
    (Value_longArray v)) ++
  field (nonempty (Value_doubleArray v)) BT_LIST 12 (write_list BT_LIST (write_list BT_DOUBLE WriteDouble)
    (Value_doubleArray v)) ++
  field (nonempty (Value_guidArray v)) BT_LIST 13 (write_list BT_LIST (write_list BT_LIST
    (write_list BT_UINT8 WriteUInt8)) (Value_guidArray v)) ++
  WriteStructEnd isBase.

Definition Serialize_Data (v : Data) (isBase : bool) : output :=
  WriteStructBegin isBase ++
  field (nonempty (Data_properties v)) BT_MAP 1 (write_map BT_STRUCT
    (λ item2, Serialize_Value item2 false) (Data_properties v)) ++
  WriteStructEnd isBase.

Definition Serialize_CsRecord (v : CsRecord) (isBase : bool) : output :=
  WriteStructBegin isBase ++
  field (nonempty (CsRecord_ver v)) BT_STRING 1 (WriteString (CsRecord_ver v)) ++
  field (nonempty (CsRecord_name v)) BT_STRING 2 (WriteString (CsRecord_name v)) ++
  field (negb (CsRecord_time v =? 0)) BT_INT64 3 (WriteInt64 (CsRecord_time v)) ++
  field (double_ne_hundred (CsRecord_popSample v)) BT_DOUBLE 4 (WriteDouble (CsRecord_popSample v)) ++
  field (nonempty (CsRecord_iKey v)) BT_STRING 5 (WriteString (CsRecord_iKey v)) ++
  field (negb (CsRecord_flags v =? 0)) BT_INT64 6 (WriteInt64 (CsRecord_flags v)) ++
  field (nonempty (CsRecord_cV v)) BT_STRING 7 (WriteString (CsRecord_cV v)) ++
  ifdef HAVE_CS4_FULL (field (nonempty (CsRecord_extIngest v)) BT_LIST 20 (write_list BT_STRUCT
    (λ item2, Serialize_Ingest item2 false) (CsRecord_extIngest v))) ++
  field (nonempty (CsRecord_extProtocol v)) BT_LIST 21 (write_list BT_STRUCT
    (λ item2, Serialize_Protocol item2 false) (CsRecord_extProtocol v)) ++
  field (nonempty (CsRecord_extUser v)) BT_LIST 22 (write_list BT_STRUCT
    (λ item2, Serialize_User item2 false) (CsRecord_extUser v)) ++
  field (nonempty (CsRecord_extDevice v)) BT_LIST 23 (write_list BT_STRUCT
    (λ item2, Serialize_Device item2 false) (CsRecord_extDevice v)) ++
  field (nonempty (CsRecord_extOs v)) BT_LIST 24 (write_list BT_STRUCT (λ item2, Serialize_Os item2 false)
    (CsRecord_extOs v)) ++
  field (nonempty (CsRecord_extApp v)) BT_LIST 25 (write_list BT_STRUCT
    (λ item2, Serialize_App item2 false) (CsRecord_extApp v)) ++
  field (nonempty (CsRecord_extUtc v)) BT_LIST 26 (write_list BT_STRUCT
    (λ item2, Serialize_Utc item2 false) (CsRecord_extUtc v)) ++
  ifdef HAVE_CS4_FULL (field (nonempty (CsRecord_extXbl v)) BT_LIST 27 (write_list BT_STRUCT
    (λ item2, Serialize_Xbl item2 false) (CsRecord_extXbl v))) ++
  ifdef HAVE_CS4_FULL (field (nonempty (CsRecord_extJavascript v)) BT_LIST 28 (write_list BT_STRUCT
    (λ item2, Serialize_Javascript item2 false) (CsRecord_extJavascript v))) ++
  ifdef HAVE_CS4_FULL (field (nonempty (CsRecord_extReceipts v)) BT_LIST 29 (write_list BT_STRUCT
    (λ item2, Serialize_Receipts item2 false) (CsRecord_extReceipts v))) ++
  field (nonempty (CsRecord_extNet v)) BT_LIST 31 (write_list BT_STRUCT
    (λ item2, Serialize_Net item2 false) (CsRecord_extNet v)) ++
  field (nonempty (CsRecord_extSdk v)) BT_LIST 32 (write_list BT_STRUCT
    (λ item2, Serialize_Sdk item2 false) (CsRecord_extSdk v)) ++
  field (nonempty (CsRecord_extLoc v)) BT_LIST 33 (write_list BT_STRUCT
    (λ item2, Serialize_Loc item2 false) (CsRecord_extLoc v)) ++
  ifdef HAVE_CS4_FULL (field (nonempty (CsRecord_extCloud v)) BT_LIST 34 (write_list BT_STRUCT
    (λ item2, Serialize_Cloud item2 false) (CsRecord_extCloud v))) ++
  ifdef HAVE_CS4_FULL (field (nonempty (CsRecord_extService v)) BT_LIST 35 (write_list BT_STRUCT
    (λ item2, Serialize_Service item2 false) (CsRecord_extService v))) ++
  ifdef HAVE_CS4_FULL (field (nonempty (CsRecord_extCs v)) BT_LIST 36 (write_list BT_STRUCT
    (λ item2, Serialize_Cs item2 false) (CsRecord_extCs v))) ++
  field (nonempty (CsRecord_extM365a v)) BT_LIST 37 (write_list BT_STRUCT
    (λ item2, Serialize_M365a item2 false) (CsRecord_extM365a v)) ++
  field (nonempty (CsRecord_ext v)) BT_LIST 41 (write_list BT_STRUCT (λ item2, Serialize_Data item2 false)
    (CsRecord_ext v)) ++
  ifdef HAVE_CS4_FULL (field (nonempty (CsRecord_extMscv v)) BT_LIST 42 (write_list BT_STRUCT
    (λ item2, Serialize_Mscv item2 false) (CsRecord_extMscv v))) ++
  ifdef HAVE_CS4_FULL (field (nonempty (CsRecord_extIntWeb v)) BT_LIST 43 (write_list BT_STRUCT
    (λ item2, Serialize_IntWeb item2 false) (CsRecord_extIntWeb v))) ++
  ifdef HAVE_CS4_FULL (field (nonempty (CsRecord_extIntService v)) BT_LIST 44 (write_list BT_STRUCT
    (λ item2, Serialize_IntService item2 false) (CsRecord_extIntService v))) ++
  ifdef HAVE_CS4_FULL (field (nonempty (CsRecord_extWeb v)) BT_LIST 45 (write_list BT_STRUCT
    (λ item2, Serialize_Web item2 false) (CsRecord_extWeb v))) ++
  field (nonempty (CsRecord_tags v)) BT_MAP 51 (write_map BT_STRING WriteString (CsRecord_tags v)) ++
  field (nonempty (CsRecord_baseType v)) BT_STRING 60 (WriteString (CsRecord_baseType v)) ++
  field (nonempty (CsRecord_baseData v)) BT_LIST 61 (write_list BT_STRUCT
    (λ item2, Serialize_Data item2 false) (CsRecord_baseData v)) ++
  field (nonempty (CsRecord_data v)) BT_LIST 70 (write_list BT_STRUCT
    (λ item2, Serialize_Data item2 false) (CsRecord_data v)) ++
  WriteStructEnd isBase.

End Writers.

End CsWriters.
