(* ===== verification/CsReaders.v ===== *)
(** * The readers of CsProtocol

    lib/bond/generated/CsProtocol_readers.hpp: one [Deserialize] per structure,
    which reads into the value it is given; [*_cases] is its [switch (id)]. *)

From Stdlib Require Import ZArith Lia.
From S2P Require Import Prelude StdMap BondProtocol CsTypes.

Module CsReaders.
Import StdMap Bond CsTypes.

Section Readers.
Context `{Build}.

Definition Ingest_cases (id : Z) (v : Ingest) : Reader Ingest :=
  match id with
  | 1 => x ← ReadInt64; mret (v <| Ingest_time := x |>)
  | 2 => x ← ReadString; mret (v <| Ingest_clientIp := x |>)
  | 3 => x ← ReadInt64; mret (v <| Ingest_auth := x |>)
  | 4 => x ← ReadInt64; mret (v <| Ingest_quality := x |>)
  | 5 => x ← ReadInt64; mret (v <| Ingest_uploadTime := x |>)
  | 6 => x ← ReadString; mret (v <| Ingest_userAgent := x |>)
  | 7 => x ← ReadString; mret (v <| Ingest_client := x |>)
  | _ => fail
  end.

Definition Deserialize_Ingest (v : Ingest) (isBase : bool) : Reader Ingest := read_struct Ingest_cases isBase v.

Definition User_cases (id : Z) (v : User) : Reader User :=
  match id with
  | 1 => x ← ReadString; mret (v <| User_id := x |>)
  | 2 => x ← ReadString; mret (v <| User_localId := x |>)
  | 3 => x ← ReadString; mret (v <| User_authId := x |>)
  | 4 => x ← ReadString; mret (v <| User_locale := x |>)
  | _ => fail
  end.

Definition Deserialize_User (v : User) (isBase : bool) : Reader User := read_struct User_cases isBase v.

Definition Loc_cases (id : Z) (v : Loc) : Reader Loc :=
  match id with
  | 1 => x ← ReadString; mret (v <| Loc_id := x |>)
  | 2 => x ← ReadString; mret (v <| Loc_country := x |>)
  | 3 => x ← ReadString; mret (v <| Loc_timezone := x |>)
  | _ => fail
  end.

Definition Deserialize_Loc (v : Loc) (isBase : bool) : Reader Loc := read_struct Loc_cases isBase v.

Definition Device_cases (id : Z) (v : Device) : Reader Device :=
  match id with
  | 1 => x ← ReadString; mret (v <| Device_id := x |>)
  | 2 => x ← ReadString; mret (v <| Device_localId := x |>)
  | 3 => x ← ReadString; mret (v <| Device_authId := x |>)
  | 4 => x ← ReadString; mret (v <| Device_authSecId := x |>)
  | 5 => x ← ReadString; mret (v <| Device_deviceClass := x |>)
  | 6 => x ← ReadString; mret (v <| Device_orgId := x |>)
  | 7 => x ← ReadString; mret (v <| Device_orgAuthId := x |>)
  | 8 => x ← ReadString; mret (v <| Device_make := x |>)
  | 9 => x ← ReadString; mret (v <| Device_model := x |>)
  | 10 => if HAVE_CS4 then x ← ReadString; mret (v <| Device_authIdEnt := x |>) else fail
  | _ => fail
  end.

Definition Deserialize_Device (v : Device) (isBase : bool) : Reader Device := read_struct Device_cases isBase v.

Definition Os_cases (id : Z) (v : Os) : Reader Os :=
  match id with
  | 1 => x ← ReadString; mret (v <| Os_locale := x |>)
  | 2 => x ← ReadString; mret (v <| Os_expId := x |>)
  | 3 => x ← ReadInt32; mret (v <| Os_bootId := x |>)
  | 4 => x ← ReadString; mret (v <| Os_name := x |>)
  | 5 => x ← ReadString; mret (v <| Os_ver := x |>)
  | _ => fail
  end.

Definition Deserialize_Os (v : Os) (isBase : bool) : Reader Os := read_struct Os_cases isBase v.

Definition App_cases (id : Z) (v : App) : Reader App :=
  match id with
  | 1 => x ← ReadString; mret (v <| App_expId := x |>)
  | 2 => x ← ReadString; mret (v <| App_userId := x |>)
  | 3 => x ← ReadString; mret (v <| App_env := x |>)
  | 4 => x ← ReadInt32; mret (v <| App_asId := x |>)
  | 5 => x ← ReadString; mret (v <| App_id := x |>)
  | 6 => x ← ReadString; mret (v <| App_ver := x |>)
  | 7 => x ← ReadString; mret (v <| App_locale := x |>)
  | 8 => x ← ReadString; mret (v <| App_name := x |>)
  | 9 => if HAVE_CS4 then x ← ReadString; mret (v <| App_sesId := x |>) else fail
  | _ => fail
  end.

Definition Deserialize_App (v : App) (isBase : bool) : Reader App := read_struct App_cases isBase v.

Definition Utc_cases (id : Z) (v : Utc) : Reader Utc :=
  match id with
  | 1 => x ← ReadString; mret (v <| Utc_stId := x |>)
  | 2 => x ← ReadString; mret (v <| Utc_aId := x |>)
  | 3 => x ← ReadString; mret (v <| Utc_raId := x |>)
  | 4 => x ← ReadString; mret (v <| Utc_op := x |>)
  | 5 => x ← ReadInt64; mret (v <| Utc_cat := x |>)
  | 6 => x ← ReadInt64; mret (v <| Utc_flags := x |>)
  | 7 => x ← ReadString; mret (v <| Utc_sqmId := x |>)
  | 9 => x ← ReadString; mret (v <| Utc_mon := x |>)
  | 10 => x ← ReadInt32; mret (v <| Utc_cpId := x |>)
  | 11 => x ← ReadString; mret (v <| Utc_bSeq := x |>)
  | 12 => x ← ReadString; mret (v <| Utc_epoch := x |>)
  | 13 => x ← ReadInt64; mret (v <| Utc_seq := x |>)
  | 14 => x ← ReadDouble; mret (v <| Utc_popSample := x |>)
  | 15 => x ← ReadInt64; mret (v <| Utc_eventFlags := x |>)
  | 16 => if HAVE_CS4 then x ← ReadInt64; mret (v <| Utc_wsId := x |>) else fail
  | 17 => if HAVE_CS4 then x ← ReadInt64; mret (v <| Utc_wcmp := x |>) else fail
  | 18 => if HAVE_CS4 then x ← ReadInt64; mret (v <| Utc_wPId := x |>) else fail
  | _ => fail
  end.

Definition Deserialize_Utc (v : Utc) (isBase : bool) : Reader Utc := read_struct Utc_cases isBase v.

Definition M365a_cases (id : Z) (v : M365a) : Reader M365a :=
  match id with
  | 1 => x ← ReadString; mret (v <| M365a_enrolledTenantId := x |>)
  | 2 => if HAVE_CS4 then x ← ReadUInt64; mret (v <| M365a_msp := x |>) else fail
  | _ => fail
  end.

Definition Deserialize_M365a (v : M365a) (isBase : bool) : Reader M365a := read_struct M365a_cases isBase v.

Definition Xbl_cases (id : Z) (v : Xbl) : Reader Xbl :=
  match id with
  | 5 => x ← read_map BT_STRING [] (λ _, ReadString) (Xbl_claims v); mret (v <| Xbl_claims := x |>)
  | 10 => x ← ReadString; mret (v <| Xbl_nbf := x |>)
  | 20 => x ← ReadString; mret (v <| Xbl_exp := x |>)
  | 30 => x ← ReadString; mret (v <| Xbl_sbx := x |>)
  | 40 => x ← ReadString; mret (v <| Xbl_dty := x |>)
  | 50 => x ← ReadString; mret (v <| Xbl_did := x |>)
  | 60 => x ← ReadString; mret (v <| Xbl_xid := x |>)
  | 70 => x ← ReadUInt64; mret (v <| Xbl_uts := x |>)
  | 80 => x ← ReadString; mret (v <| Xbl_pid := x |>)
  | 90 => x ← ReadString; mret (v <| Xbl_dvr := x |>)
  | 100 => x ← ReadUInt32; mret (v <| Xbl_tid := x |>)
  | 110 => x ← ReadString; mret (v <| Xbl_tvr := x |>)
  | 120 => x ← ReadString; mret (v <| Xbl_sty := x |>)
  | 130 => x ← ReadString; mret (v <| Xbl_sid := x |>)
  | 140 => x ← ReadInt64; mret (v <| Xbl_eid := x |>)
  | 150 => x ← ReadString; mret (v <| Xbl_ip := x |>)
  | _ => fail
  end.

Definition Deserialize_Xbl (v : Xbl) (isBase : bool) : Reader Xbl := read_struct Xbl_cases isBase v.

Definition Javascript_cases (id : Z) (v : Javascript) : Reader Javascript :=
  match id with
  | 10 => x ← ReadString; mret (v <| Javascript_libVer := x |>)
  | 15 => x ← ReadString; mret (v <| Javascript_osName := x |>)
  | 20 => x ← ReadString; mret (v <| Javascript_browser := x |>)
  | 21 => x ← ReadString; mret (v <| Javascript_browserVersion := x |>)
  | 25 => x ← ReadString; mret (v <| Javascript_platform := x |>)
  | 30 => x ← ReadString; mret (v <| Javascript_make := x |>)
  | 35 => x ← ReadString; mret (v <| Javascript_model := x |>)
  | 40 => x ← ReadString; mret (v <| Javascript_screenSize := x |>)
  | 45 => if HAVE_CS4 then x ← ReadString; mret (v <| Javascript_msfpc := x |>) else fail
  | 50 => x ← ReadString; mret (v <| Javascript_mc1Id := x |>)
  | 60 => x ← ReadUInt64; mret (v <| Javascript_mc1Lu := x |>)
  | 70 => x ← ReadBool; mret (v <| Javascript_isMc1New := x |>)
  | 80 => x ← ReadString; mret (v <| Javascript_ms0 := x |>)
  | 90 => x ← ReadString; mret (v <| Javascript_anid := x |>)
  | 100 => x ← ReadString; mret (v <| Javascript_a := x |>)
  | 110 => x ← ReadString; mret (v <| Javascript_msResearch := x |>)
  | 120 => x ← ReadString; mret (v <| Javascript_csrvc := x |>)
  | 130 => x ← ReadString; mret (v <| Javascript_rtCell := x |>)
  | 140 => x ← ReadString; mret (v <| Javascript_rtEndAction := x |>)
  | 150 => x ← ReadString; mret (v <| Javascript_rtPermId := x |>)
  | 160 => x ← ReadString; mret (v <| Javascript_r := x |>)
  | 170 => x ← ReadString; mret (v <| Javascript_wtFpc := x |>)
  | 180 => x ← ReadString; mret (v <| Javascript_omniId := x |>)
  | 190 => x ← ReadString; mret (v <| Javascript_gsfxSession := x |>)
  | 200 => x ← ReadString; mret (v <| Javascript_domain := x |>)
  | 210 => if HAVE_CS4 then x ← ReadBool; mret (v <| Javascript_userConsent := x |>) else fail
  | 220 => if HAVE_CS4 then x ← ReadString; mret (v <| Javascript_browserLang := x |>) else fail
  | 230 => if HAVE_CS4 then x ← ReadString; mret (v <| Javascript_serviceName := x |>) else fail
  | 999 => x ← ReadString; mret (v <| Javascript_dnt := x |>)
  | _ => fail
  end.

Definition Deserialize_Javascript (v : Javascript) (isBase : bool) : Reader Javascript := read_struct Javascript_cases isBase v.

Definition Protocol_cases (id : Z) (v : Protocol) : Reader Protocol :=
  match id with
  | 1 => x ← ReadInt32; mret (v <| Protocol_metadataCrc := x |>)
  | 2 => x ← read_list BT_LIST [] (read_list BT_STRING [] (λ _, ReadString)) (Protocol_ticketKeys v);
      mret (v <| Protocol_ticketKeys := x |>)
  | 3 => x ← ReadString; mret (v <| Protocol_devMake := x |>)
  | 4 => x ← ReadString; mret (v <| Protocol_devModel := x |>)
  | 5 => if HAVE_CS4 then x ← ReadUInt64; mret (v <| Protocol_msp := x |>) else fail
  | _ => fail
  end.

Definition Deserialize_Protocol (v : Protocol) (isBase : bool) : Reader Protocol := read_struct Protocol_cases isBase v.

Definition Receipts_cases (id : Z) (v : Receipts) : Reader Receipts :=
  match id with
  | 1 => x ← ReadInt64; mret (v <| Receipts_originalTime := x |>)
  | 2 => x ← ReadInt64; mret (v <| Receipts_uploadTime := x |>)
  | 3 => if HAVE_CS4 then x ← ReadString; mret (v <| Receipts_originalName := x |>) else fail
  | 4 => if HAVE_CS4 then x ← ReadUInt64; mret (v <| Receipts_flags := x |>) else fail
  | _ => fail
  end.

Definition Deserialize_Receipts (v : Receipts) (isBase : bool) : Reader Receipts := read_struct Receipts_cases isBase v.

Definition Net_cases (id : Z) (v : Net) : Reader Net :=
  match id with
  | 1 => x ← ReadString; mret (v <| Net_provider := x |>)
  | 2 => x ← ReadString; mret (v <| Net_cost := x |>)
  | 3 => x ← ReadString; mret (v <| Net_type := x |>)
  | _ => fail
  end.

Definition Deserialize_Net (v : Net) (isBase : bool) : Reader Net := read_struct Net_cases isBase v.

Definition Sdk_cases (id : Z) (v : Sdk) : Reader Sdk :=
  match id with
  | 1 => x ← ReadString; mret (if HAVE_CS4 then v <| Sdk_ver := x |> else v <| Sdk_libVer := x |>)
  | 2 => x ← ReadString; mret (v <| Sdk_epoch := x |>)
  | 3 => x ← ReadInt64; mret (v <| Sdk_seq := x |>)
  | 4 => x ← ReadString; mret (v <| Sdk_installId := x |>)
  | 5 => if HAVE_CS4 then x ← ReadString; mret (v <| Sdk_libVer := x |>) else fail
  | _ => fail
  end.

Definition Deserialize_Sdk (v : Sdk) (isBase : bool) : Reader Sdk := read_struct Sdk_cases isBase v.

Definition Cloud_cases (id : Z) (v : Cloud) : Reader Cloud :=
  match id with
  | 1 => x ← ReadString; mret (v <| Cloud_fullEnvName := x |>)
  | 2 => x ← ReadString; mret (v <| Cloud_location := x |>)
  | 3 => x ← ReadString; mret (v <| Cloud_environment := x |>)
  | 4 => x ← ReadString; mret (v <| Cloud_deploymentUnit := x |>)
  | 5 => x ← ReadString; mret (v <| Cloud_name := x |>)
  | 6 => x ← ReadString; mret (v <| Cloud_roleInstance := x |>)
  | 7 => x ← ReadString; mret (v <| Cloud_role := x |>)
  | _ => fail
  end.

Definition Deserialize_Cloud (v : Cloud) (isBase : bool) : Reader Cloud := read_struct Cloud_cases isBase v.

Definition Service_cases (id : Z) (v : Service) : Reader Service :=
  match id with
  | 1 => x ← ReadString; mret (v <| Service_name := x |>)
  | 2 => x ← ReadString; mret (v <| Service_role := x |>)
  | 3 => x ← ReadString; mret (v <| Service_roleVersion := x |>)
  | _ => fail
  end.

Definition Deserialize_Service (v : Service) (isBase : bool) : Reader Service := read_struct Service_cases isBase v.

Definition Cs_cases (id : Z) (v : Cs) : Reader Cs :=
  match id with
  | 1 => x ← ReadString; mret (v <| Cs_sig := x |>)
  | _ => fail
  end.

Definition Deserialize_Cs (v : Cs) (isBase : bool) : Reader Cs := read_struct Cs_cases isBase v.

Definition Mscv_cases (id : Z) (v : Mscv) : Reader Mscv :=
  match id with
  | 1 => x ← ReadString; mret (v <| Mscv_cV := x |>)
  | _ => fail
  end.

Definition Deserialize_Mscv (v : Mscv) (isBase : bool) : Reader Mscv := read_struct Mscv_cases isBase v.

Definition IntWeb_cases (id : Z) (v : IntWeb) : Reader IntWeb :=
  match id with
  | 1 => x ← ReadString; mret (v <| IntWeb_mc1Id := x |>)
  | 2 => x ← ReadString; mret (v <| IntWeb_msfpc := x |>)
  | 3 => x ← ReadString; mret (v <| IntWeb_anid := x |>)
  | 4 => x ← ReadString; mret (v <| IntWeb_serviceName := x |>)
  | 5 => x ← read_map BT_STRING [] (λ _, ReadString) (IntWeb_mscom v); mret (v <| IntWeb_mscom := x |>)
  | _ => fail
  end.

Definition Deserialize_IntWeb (v : IntWeb) (isBase : bool) : Reader IntWeb := read_struct IntWeb_cases isBase v.

Definition IntService_cases (id : Z) (v : IntService) : Reader IntService :=
  match id with
  | 1 => x ← ReadString; mret (v <| IntService_fullEnvName := x |>)
  | 2 => x ← ReadString; mret (v <| IntService_location := x |>)
  | 3 => x ← ReadString; mret (v <| IntService_environment := x |>)
  | 4 => x ← ReadString; mret (v <| IntService_deploymentUnit := x |>)
  | 5 => x ← ReadString; mret (v <| IntService_name := x |>)
  | _ => fail
  end.

Definition Deserialize_IntService (v : IntService) (isBase : bool) : Reader IntService := read_struct IntService_cases isBase v.

Definition Web_cases (id : Z) (v : Web) : Reader Web :=
  match id with
  | 10 => x ← ReadString; mret (v <| Web_browser := x |>)
  | 20 => x ← ReadString; mret (v <| Web_browserVer := x |>)
  | 30 => x ← ReadString; mret (v <| Web_screenRes := x |>)
  | 40 => x ← ReadString; mret (v <| Web_domain := x |>)
  | 50 => x ← ReadBool; mret (v <| Web_userConsent := x |>)
  | 60 => x ← ReadString; mret (v <| Web_browserLang := x |>)
  | 70 => x ← ReadBool; mret (v <| Web_isManual := x |>)
  | _ => fail
  end.

Definition Deserialize_Web (v : Web) (isBase : bool) : Reader Web := read_struct Web_cases isBase v.

Definition PII_cases (id : Z) (v : PII) : Reader PII :=
  match id with
  | 1 => x ← ReadInt32; mret (v <| PII_Kind := x |>)
  | _ => fail
  end.

Definition Deserialize_PII (v : PII) (isBase : bool) : Reader PII := read_struct PII_cases isBase v.

Definition CustomerContent_cases (id : Z) (v : CustomerContent) : Reader CustomerContent :=
  match id with
  | 1 => x ← ReadInt32; mret (v <| CustomerContent_Kind := x |>)
  | _ => fail
  end.

Definition Deserialize_CustomerContent (v : CustomerContent) (isBase : bool) : Reader CustomerContent := read_struct CustomerContent_cases isBase v.

Definition Attributes_cases (id : Z) (v : Attributes) : Reader Attributes :=
  match id with
  | 1 => x ← read_list BT_STRUCT PII_default (λ item4, Deserialize_PII item4 false) (Attributes_pii v);
      mret (v <| Attributes_pii := x |>)
  | 2 => x ← read_list BT_STRUCT CustomerContent_default
        (λ item4, Deserialize_CustomerContent item4 false) (Attributes_customerContent v);
      mret (v <| Attributes_customerContent := x |>)
  | _ => fail
  end.

Definition Deserialize_Attributes (v : Attributes) (isBase : bool) : Reader Attributes := read_struct Attributes_cases isBase v.

Definition Value_cases (id : Z) (v : Value) : Reader Value :=
  match id with
  | 1 => x ← ReadInt32; mret (v <| Value_type := x |>)
  | 2 => x ← read_list BT_STRUCT Attributes_default (λ item4, Deserialize_Attributes item4 false)
        (Value_attributes v);
      mret (v <| Value_attributes := x |>)
  | 3 => x ← ReadString; mret (v <| Value_stringValue := x |>)
  | 4 => x ← ReadInt64; mret (v <| Value_longValue := x |>)
  | 5 => x ← ReadDouble; mret (v <| Value_doubleValue := x |>)
  | 6 => x ← read_list BT_LIST [] (read_list BT_UINT8 0 (λ _, ReadUInt8)) (Value_guidValue v);
      mret (v <| Value_guidValue := x |>)
  | 10 => x ← read_list BT_LIST [] (read_list BT_STRING [] (λ _, ReadString)) (Value_stringArray v);
      mret (v <| Value_stringArray := x |>)
  | 11 => x ← read_list BT_LIST [] (read_list BT_INT64 0 (λ _, ReadInt64)) (Value_longArray v);
      mret (v <| Value_longArray := x |>)
  | 12 => x ← read_list BT_LIST [] (read_list BT_DOUBLE zero_double (λ _, ReadDouble)) (Value_doubleArray v);
      mret (v <| Value_doubleArray := x |>)
  | 13 => x ← read_list BT_LIST [] (read_list BT_LIST [] (read_list BT_UINT8 0 (λ _, ReadUInt8)))
        (Value_guidArray v);
      mret (v <| Value_guidArray := x |>)
  | _ => fail
  end.

Definition Deserialize_Value (v : Value) (isBase : bool) : Reader Value := read_struct Value_cases isBase v.

Definition Data_cases (id : Z) (v : Data) : Reader Data :=
  match id with
  | 1 => x ← read_map BT_STRUCT Value_default (λ item4, Deserialize_Value item4 false) (Data_properties v);
      mret (v <| Data_properties := x |>)
  | _ => fail
  end.

Definition Deserialize_Data (v : Data) (isBase : bool) : Reader Data := read_struct Data_cases isBase v.

Definition CsRecord_cases (id : Z) (v : CsRecord) : Reader CsRecord :=
  match id with
  | 1 => x ← ReadString; mret (v <| CsRecord_ver := x |>)
  | 2 => x ← ReadString; mret (v <| CsRecord_name := x |>)
  | 3 => x ← ReadInt64; mret (v <| CsRecord_time := x |>)
  | 4 => x ← ReadDouble; mret (v <| CsRecord_popSample := x |>)
  | 5 => x ← ReadString; mret (v <| CsRecord_iKey := x |>)
  | 6 => x ← ReadInt64; mret (v <| CsRecord_flags := x |>)
  | 7 => x ← ReadString; mret (v <| CsRecord_cV := x |>)
  | 20 => if HAVE_CS4_FULL then x ← read_list BT_STRUCT Ingest_default
        (λ item4, Deserialize_Ingest item4 false) (CsRecord_extIngest v);
      mret (v <| CsRecord_extIngest := x |>) else fail
  | 21 => x ← read_list BT_STRUCT Protocol_default (λ item4, Deserialize_Protocol item4 false)
        (CsRecord_extProtocol v);
      mret (v <| CsRecord_extProtocol := x |>)
  | 22 => x ← read_list BT_STRUCT User_default (λ item4, Deserialize_User item4 false) (CsRecord_extUser v);
      mret (v <| CsRecord_extUser := x |>)
  | 23 => x ← read_list BT_STRUCT Device_default (λ item4, Deserialize_Device item4 false)
        (CsRecord_extDevice v);
      mret (v <| CsRecord_extDevice := x |>)
  | 24 => x ← read_list BT_STRUCT Os_default (λ item4, Deserialize_Os item4 false) (CsRecord_extOs v);
      mret (v <| CsRecord_extOs := x |>)
  | 25 => x ← read_list BT_STRUCT App_default (λ item4, Deserialize_App item4 false) (CsRecord_extApp v);
      mret (v <| CsRecord_extApp := x |>)
  | 26 => x ← read_list BT_STRUCT Utc_default (λ item4, Deserialize_Utc item4 false) (CsRecord_extUtc v);
      mret (v <| CsRecord_extUtc := x |>)
  | 27 => if HAVE_CS4_FULL then x ← read_list BT_STRUCT Xbl_default (λ item4, Deserialize_Xbl item4 false)
        (CsRecord_extXbl v);
      mret (v <| CsRecord_extXbl := x |>) else fail
  | 28 => if HAVE_CS4_FULL then x ← read_list BT_STRUCT Javascript_default
        (λ item4, Deserialize_Javascript item4 false) (CsRecord_extJavascript v);
      mret (v <| CsRecord_extJavascript := x |>) else fail
  | 29 => if HAVE_CS4_FULL then x ← read_list BT_STRUCT Receipts_default
        (λ item4, Deserialize_Receipts item4 false) (CsRecord_extReceipts v);
      mret (v <| CsRecord_extReceipts := x |>) else fail
  | 31 => x ← read_list BT_STRUCT Net_default (λ item4, Deserialize_Net item4 false) (CsRecord_extNet v);
      mret (v <| CsRecord_extNet := x |>)
  | 32 => x ← read_list BT_STRUCT Sdk_default (λ item4, Deserialize_Sdk item4 false) (CsRecord_extSdk v);
      mret (v <| CsRecord_extSdk := x |>)
  | 33 => x ← read_list BT_STRUCT Loc_default (λ item4, Deserialize_Loc item4 false) (CsRecord_extLoc v);
      mret (v <| CsRecord_extLoc := x |>)
  | 34 => if HAVE_CS4_FULL then x ← read_list BT_STRUCT Cloud_default
        (λ item4, Deserialize_Cloud item4 false) (CsRecord_extCloud v);
      mret (v <| CsRecord_extCloud := x |>) else fail
  | 35 => if HAVE_CS4_FULL then x ← read_list BT_STRUCT Service_default
        (λ item4, Deserialize_Service item4 false) (CsRecord_extService v);
      mret (v <| CsRecord_extService := x |>) else fail
  | 36 => if HAVE_CS4_FULL then x ← read_list BT_STRUCT Cs_default (λ item4, Deserialize_Cs item4 false)
        (CsRecord_extCs v);
      mret (v <| CsRecord_extCs := x |>) else fail
  | 37 => x ← read_list BT_STRUCT M365a_default (λ item4, Deserialize_M365a item4 false)
        (CsRecord_extM365a v);
      mret (v <| CsRecord_extM365a := x |>)
  | 41 => x ← read_list BT_STRUCT Data_default (λ item4, Deserialize_Data item4 false) (CsRecord_ext v);
      mret (v <| CsRecord_ext := x |>)
  | 42 => if HAVE_CS4_FULL then x ← read_list BT_STRUCT Mscv_default
        (λ item4, Deserialize_Mscv item4 false) (CsRecord_extMscv v);
      mret (v <| CsRecord_extMscv := x |>) else fail
  | 43 => if HAVE_CS4_FULL then x ← read_list BT_STRUCT IntWeb_default
        (λ item4, Deserialize_IntWeb item4 false) (CsRecord_extIntWeb v);
      mret (v <| CsRecord_extIntWeb := x |>) else fail
  | 44 => if HAVE_CS4_FULL then x ← read_list BT_STRUCT IntService_default
        (λ item4, Deserialize_IntService item4 false) (CsRecord_extIntService v);
      mret (v <| CsRecord_extIntService := x |>) else fail
  | 45 => if HAVE_CS4_FULL then x ← read_list BT_STRUCT Web_default (λ item4, Deserialize_Web item4 false)
        (CsRecord_extWeb v);
      mret (v <| CsRecord_extWeb := x |>) else fail
  | 51 => x ← read_map BT_STRING [] (λ _, ReadString) (CsRecord_tags v); mret (v <| CsRecord_tags := x |>)
  | 60 => x ← ReadString; mret (v <| CsRecord_baseType := x |>)
  | 61 => x ← read_list BT_STRUCT Data_default (λ item4, Deserialize_Data item4 false) (CsRecord_baseData v);
      mret (v <| CsRecord_baseData := x |>)
  | 70 => x ← read_list BT_STRUCT Data_default (λ item4, Deserialize_Data item4 false) (CsRecord_data v);
      mret (v <| CsRecord_data := x |>)
  | _ => fail
  end.

Definition Deserialize_CsRecord (v : CsRecord) (isBase : bool) : Reader CsRecord := read_struct CsRecord_cases isBase v.

End Readers.

End CsReaders.
