(* ===== verification/CsRoundtrip.v ===== *)
(** * Events survive serialization

    The readers of CsProtocol give back what its writers wrote. The structures are
    taken one by one, from the innermost; [*_codec] is the law of each. *)

From Stdlib Require Import ZArith Lia Sorted.
From S2P Require Import Prelude StdMap BondProtocol BondLaws CsTypes CsWriters CsReaders.

Module CsRoundtrip.
Import StdMap Bond BondLaws CsTypes CsWriters CsReaders.

(** ** The parts *)

Existing Class codec.

(** The tag of an element type is below 32. *)
Class Tag (ty : Z) : Prop := tag_range : 0 ≤ ty < 32.
#[global] Hint Extern 1 (Tag _) => (split; [discriminate|reflexivity]) : typeclass_instances.

#[global] Instance string_codec : codec short (λ s, s) [] WriteString (λ _, ReadString).
Proof. exact reads_string. Qed.
#[global] Instance int64_codec : codec (sbits 64) (λ x, x) 0 WriteInt64 (λ _, ReadInt64).
Proof. exact reads_int64. Qed.
#[global] Instance uint8_codec : codec any_ok (λ x, x) 0 WriteUInt8 (λ _, ReadUInt8).
Proof. intros x _. apply reads_uint8. Qed.
#[global] Instance double_codec : codec double_ok (λ d, d) zero_double WriteDouble (λ _, ReadDouble).
Proof. exact reads_double. Qed.

#[global] Instance list_codec_c {A} ty (P : A → Prop) c d write read : Tag ty → codec P c d write read →
  codec (list_ok P) (map c) [] (write_list ty write) (read_list ty d read) | 2.
Proof. apply list_codec. Qed.

#[global] Instance list_codec_id {A} ty (P : A → Prop) d write read : Tag ty → codec P (λ x, x) d write read →
  codec (list_ok P) (λ l, l) [] (write_list ty write) (read_list ty d read) | 1.
Proof. intros Ht Hc l Hl. rewrite <-(map_id l) at 2. by apply (list_codec_c ty P (λ x, x)). Qed.

#[global] Instance map_codec_c {A} ty (P : A → Prop) c d write read : Tag ty → codec P c d write read →
  codec (map_ok P) (map (entry_c c)) [] (write_map ty write) (read_map ty d read) | 2.
Proof. apply map_codec. Qed.

#[global] Instance map_codec_id {A} ty (P : A → Prop) d write read : Tag ty → codec P (λ x, x) d write read →
  codec (map_ok P) (λ m, m) [] (write_map ty write) (read_map ty d read) | 1.
Proof.
  intros Ht Hc m Hm. assert (map (entry_c (λ x, x)) m = m) as E.
  { rewrite <-(map_id m) at 2. apply map_ext. by intros [? ?]. }
  rewrite <-E at 2. by apply (map_codec_c ty P (λ x, x)).
Qed.

Lemma codec_reads {A} {P : A → Prop} {c d write read} x (Hc : codec P c d write read) : P x → reads (read d) (write x) (c x).
Proof. apply Hc. Qed.

(** A negative zero is left out as a zero is. *)
Definition canon_double (d : double) : double := if double_ne_zero d then d else zero_double.

Lemma reads_canon d : double_ne_zero d = true → double_ok d → reads ReadDouble (WriteDouble d) (canon_double d).
Proof. intros E Hd. unfold canon_double. rewrite E. by apply reads_double. Qed.

Lemma canon_zero d : double_ne_zero d = false → canon_double d = zero_double.
Proof. unfold canon_double. by intros ->. Qed.

Lemma ne_hundred d : double_ne_hundred d = false → d = hundred_double.
Proof. unfold double_ne_hundred. by rewrite negb_false_iff, bool_decide_eq_true. Qed.

(** ** The tactic of a structure *)

#[local] Opaque ReadUInt8 ReadString ReadInt32 ReadInt64 ReadUInt32 ReadUInt64 ReadBool ReadDouble read_list read_map
  WriteUInt8 WriteString WriteInt32 WriteInt64 WriteUInt32 WriteUInt64 WriteBool WriteDouble write_list write_map.

(** The member is read. *)
Ltac read_member E :=
  lazymatch type of E with
  | double_ne_zero _ = true => eapply reads_map, reads_canon; [exact E|assumption]
  | _ =>
      eapply reads_map;
      lazymatch goal with
      | |- reads ReadString _ _ => apply reads_string; assumption
      | |- reads ReadInt64 _ _ => apply reads_int64; assumption
      | |- reads ReadInt32 _ _ => apply reads_int32; assumption
      | |- reads ReadUInt64 _ _ => apply reads_uint64; assumption
      | |- reads ReadUInt32 _ _ => apply reads_uint32; assumption
      | |- reads ReadBool _ _ => apply reads_bool
      | |- reads ReadDouble _ _ => apply reads_double; assumption
      | _ => eapply codec_reads; [apply _|eassumption]
      end
  end.

(** A member that is left out has its default. *)
Ltac omit_member E :=
  lazymatch type of E with
  | nonempty ?s = false => destruct s; [reflexivity|discriminate E]
  | double_ne_zero _ = false => cbn; rewrite (canon_zero _ E); reflexivity
  | double_ne_hundred _ = false => cbn; rewrite (ne_hundred _ E); reflexivity
  | negb _ = false => apply negb_false_iff, Z.eqb_eq in E; cbn; rewrite E; reflexivity
  | _ => cbn; rewrite E; reflexivity
  end.

(** The case of the [switch] for the member. *)
Ltac open_case := cbv beta iota delta [Ingest_cases User_cases Loc_cases Device_cases Os_cases App_cases Utc_cases M365a_cases Xbl_cases
  Javascript_cases Protocol_cases Receipts_cases Net_cases Sdk_cases Cloud_cases Service_cases Cs_cases
  Mscv_cases IntWeb_cases IntService_cases Web_cases PII_cases CustomerContent_cases Attributes_cases
  Value_cases Data_cases CsRecord_cases HAVE_CS4 HAVE_CS4_FULL].

Ltac member :=
  eapply parses_field;
    [ split; [discriminate|reflexivity]
    | split; [discriminate|reflexivity]
    | let E := fresh in intros E; open_case; cbn; read_member E
    | let E := fresh in intros E; omit_member E
    | lazymatch goal with |- parses ?c ?b ?v ?bs ?w => let v' := eval cbn in v in change (parses c b v' bs w) end ].

(** Without the macro a member has its default. *)
Ltac defaulted :=
  repeat match goal with
  | H : _ = false → _ |- _ => first [specialize (H eq_refl); cbn in H; try subst | clear H]
  end.

Ltac struct_ok := unfold ifdef; cbn; repeat (first [apply parses_end | member]).


#[local] Instance Ingest_codec isBase : codec Ingest_ok (λ v, v) Ingest_default
  (λ v, Serialize_Ingest v isBase) (λ v, Deserialize_Ingest v isBase).
Proof.
  apply struct_codec. intros [] Hok.
  unfold Serialize_Ingest, Ingest_default, Ingest_ok in *. cbn in Hok. destruct_and? Hok.
  struct_ok.
Qed.
#[local] Opaque Serialize_Ingest Deserialize_Ingest.

#[local] Instance User_codec isBase : codec User_ok (λ v, v) User_default
  (λ v, Serialize_User v isBase) (λ v, Deserialize_User v isBase).
Proof.
  apply struct_codec. intros [] Hok.
  unfold Serialize_User, User_default, User_ok in *. cbn in Hok. destruct_and? Hok.
  struct_ok.
Qed.
#[local] Opaque Serialize_User Deserialize_User.

#[local] Instance Loc_codec isBase : codec Loc_ok (λ v, v) Loc_default
  (λ v, Serialize_Loc v isBase) (λ v, Deserialize_Loc v isBase).
Proof.
  apply struct_codec. intros [] Hok.
  unfold Serialize_Loc, Loc_default, Loc_ok in *. cbn in Hok. destruct_and? Hok.
  struct_ok.
Qed.
#[local] Opaque Serialize_Loc Deserialize_Loc.

#[local] Instance Device_codec `{B : Build} isBase : codec Device_ok (λ v, v) Device_default
  (λ v, Serialize_Device v isBase) (λ v, Deserialize_Device v isBase).
Proof.
  apply struct_codec. intros [] Hok.
  unfold Serialize_Device, Device_default, Device_ok in *. cbn in Hok. destruct_and? Hok.
  destruct B as [[] []]; defaulted; struct_ok.
Qed.
#[local] Opaque Serialize_Device Deserialize_Device.

#[local] Instance Os_codec isBase : codec Os_ok (λ v, v) Os_default
  (λ v, Serialize_Os v isBase) (λ v, Deserialize_Os v isBase).
Proof.
  apply struct_codec. intros [] Hok.
  unfold Serialize_Os, Os_default, Os_ok in *. cbn in Hok. destruct_and? Hok.
  struct_ok.
Qed.
#[local] Opaque Serialize_Os Deserialize_Os.

#[local] Instance App_codec `{B : Build} isBase : codec App_ok (λ v, v) App_default
  (λ v, Serialize_App v isBase) (λ v, Deserialize_App v isBase).
Proof.
  apply struct_codec. intros [] Hok.
  unfold Serialize_App, App_default, App_ok in *. cbn in Hok. destruct_and? Hok.
  destruct B as [[] []]; defaulted; struct_ok.
Qed.
#[local] Opaque Serialize_App Deserialize_App.

Definition Utc_c (v : Utc) : Utc :=
  v <| Utc_popSample := canon_double (Utc_popSample v) |>.

#[local] Instance Utc_codec `{B : Build} isBase : codec Utc_ok Utc_c Utc_default
  (λ v, Serialize_Utc v isBase) (λ v, Deserialize_Utc v isBase).
Proof.
  apply struct_codec. intros [] Hok.
  unfold Serialize_Utc, Utc_default, Utc_ok, Utc_c in *. cbn in Hok. destruct_and? Hok.
  destruct B as [[] []]; defaulted; struct_ok.
Qed.
#[local] Opaque Serialize_Utc Deserialize_Utc.

#[local] Instance M365a_codec `{B : Build} isBase : codec M365a_ok (λ v, v) M365a_default
  (λ v, Serialize_M365a v isBase) (λ v, Deserialize_M365a v isBase).
Proof.
  apply struct_codec. intros [] Hok.
  unfold Serialize_M365a, M365a_default, M365a_ok in *. cbn in Hok. destruct_and? Hok.
  destruct B as [[] []]; defaulted; struct_ok.
Qed.
#[local] Opaque Serialize_M365a Deserialize_M365a.

#[local] Instance Xbl_codec isBase : codec Xbl_ok (λ v, v) Xbl_default
  (λ v, Serialize_Xbl v isBase) (λ v, Deserialize_Xbl v isBase).
Proof.
  apply struct_codec. intros [] Hok.
  unfold Serialize_Xbl, Xbl_default, Xbl_ok in *. cbn in Hok. destruct_and? Hok.
  struct_ok.
Qed.
#[local] Opaque Serialize_Xbl Deserialize_Xbl.

#[local] Instance Javascript_codec `{B : Build} isBase : codec Javascript_ok (λ v, v) Javascript_default
  (λ v, Serialize_Javascript v isBase) (λ v, Deserialize_Javascript v isBase).
Proof.
  apply struct_codec. intros [] Hok.
  unfold Serialize_Javascript, Javascript_default, Javascript_ok in *. cbn in Hok. destruct_and? Hok.
  destruct B as [[] []]; defaulted; struct_ok.
Qed.
#[local] Opaque Serialize_Javascript Deserialize_Javascript.

#[local] Instance Protocol_codec `{B : Build} isBase : codec Protocol_ok (λ v, v) Protocol_default
  (λ v, Serialize_Protocol v isBase) (λ v, Deserialize_Protocol v isBase).
Proof.
  apply struct_codec. intros [] Hok.
  unfold Serialize_Protocol, Protocol_default, Protocol_ok in *. cbn in Hok. destruct_and? Hok.
  destruct B as [[] []]; defaulted; struct_ok.
Qed.
#[local] Opaque Serialize_Protocol Deserialize_Protocol.

#[local] Instance Receipts_codec `{B : Build} isBase : codec Receipts_ok (λ v, v) Receipts_default
  (λ v, Serialize_Receipts v isBase) (λ v, Deserialize_Receipts v isBase).
Proof.
  apply struct_codec. intros [] Hok.
  unfold Serialize_Receipts, Receipts_default, Receipts_ok in *. cbn in Hok. destruct_and? Hok.
  destruct B as [[] []]; defaulted; struct_ok.
Qed.
#[local] Opaque Serialize_Receipts Deserialize_Receipts.

#[local] Instance Net_codec isBase : codec Net_ok (λ v, v) Net_default
  (λ v, Serialize_Net v isBase) (λ v, Deserialize_Net v isBase).
Proof.
  apply struct_codec. intros [] Hok.
  unfold Serialize_Net, Net_default, Net_ok in *. cbn in Hok. destruct_and? Hok.
  struct_ok.
Qed.
#[local] Opaque Serialize_Net Deserialize_Net.

#[local] Instance Sdk_codec `{B : Build} isBase : codec Sdk_ok (λ v, v) Sdk_default
  (λ v, Serialize_Sdk v isBase) (λ v, Deserialize_Sdk v isBase).
Proof.
  apply struct_codec. intros [] Hok.
  unfold Serialize_Sdk, Sdk_default, Sdk_ok in *. cbn in Hok. destruct_and? Hok.
  destruct B as [[] []]; defaulted; struct_ok.
Qed.
#[local] Opaque Serialize_Sdk Deserialize_Sdk.

#[local] Instance Cloud_codec isBase : codec Cloud_ok (λ v, v) Cloud_default
  (λ v, Serialize_Cloud v isBase) (λ v, Deserialize_Cloud v isBase).
Proof.
  apply struct_codec. intros [] Hok.
  unfold Serialize_Cloud, Cloud_default, Cloud_ok in *. cbn in Hok. destruct_and? Hok.
  struct_ok.
Qed.
#[local] Opaque Serialize_Cloud Deserialize_Cloud.

#[local] Instance Service_codec isBase : codec Service_ok (λ v, v) Service_default
  (λ v, Serialize_Service v isBase) (λ v, Deserialize_Service v isBase).
Proof.
  apply struct_codec. intros [] Hok.
  unfold Serialize_Service, Service_default, Service_ok in *. cbn in Hok. destruct_and? Hok.
  struct_ok.
Qed.
#[local] Opaque Serialize_Service Deserialize_Service.

#[local] Instance Cs_codec isBase : codec Cs_ok (λ v, v) Cs_default
  (λ v, Serialize_Cs v isBase) (λ v, Deserialize_Cs v isBase).
Proof.
  apply struct_codec. intros [] Hok.
  unfold Serialize_Cs, Cs_default, Cs_ok in *. cbn in Hok. destruct_and? Hok.
  struct_ok.
Qed.
#[local] Opaque Serialize_Cs Deserialize_Cs.

#[local] Instance Mscv_codec isBase : codec Mscv_ok (λ v, v) Mscv_default
  (λ v, Serialize_Mscv v isBase) (λ v, Deserialize_Mscv v isBase).
Proof.
  apply struct_codec. intros [] Hok.
  unfold Serialize_Mscv, Mscv_default, Mscv_ok in *. cbn in Hok. destruct_and? Hok.
  struct_ok.
Qed.
#[local] Opaque Serialize_Mscv Deserialize_Mscv.

#[local] Instance IntWeb_codec isBase : codec IntWeb_ok (λ v, v) IntWeb_default
  (λ v, Serialize_IntWeb v isBase) (λ v, Deserialize_IntWeb v isBase).
Proof.
  apply struct_codec. intros [] Hok.
  unfold Serialize_IntWeb, IntWeb_default, IntWeb_ok in *. cbn in Hok. destruct_and? Hok.
  struct_ok.
Qed.
#[local] Opaque Serialize_IntWeb Deserialize_IntWeb.

#[local] Instance IntService_codec isBase : codec IntService_ok (λ v, v) IntService_default
  (λ v, Serialize_IntService v isBase) (λ v, Deserialize_IntService v isBase).
Proof.
  apply struct_codec. intros [] Hok.
  unfold Serialize_IntService, IntService_default, IntService_ok in *. cbn in Hok. destruct_and? Hok.
  struct_ok.
Qed.
#[local] Opaque Serialize_IntService Deserialize_IntService.

#[local] Instance Web_codec isBase : codec Web_ok (λ v, v) Web_default
  (λ v, Serialize_Web v isBase) (λ v, Deserialize_Web v isBase).
Proof.
  apply struct_codec. intros [] Hok.
  unfold Serialize_Web, Web_default, Web_ok in *. cbn in Hok. destruct_and? Hok.
  struct_ok.
Qed.
#[local] Opaque Serialize_Web Deserialize_Web.

#[local] Instance PII_codec isBase : codec PII_ok (λ v, v) PII_default
  (λ v, Serialize_PII v isBase) (λ v, Deserialize_PII v isBase).
Proof.
  apply struct_codec. intros [] Hok.
  unfold Serialize_PII, PII_default, PII_ok in *. cbn in Hok. destruct_and? Hok.
  struct_ok.
Qed.
#[local] Opaque Serialize_PII Deserialize_PII.

#[local] Instance CustomerContent_codec isBase : codec CustomerContent_ok (λ v, v) CustomerContent_default
  (λ v, Serialize_CustomerContent v isBase) (λ v, Deserialize_CustomerContent v isBase).
Proof.
  apply struct_codec. intros [] Hok.
  unfold Serialize_CustomerContent, CustomerContent_default, CustomerContent_ok in *. cbn in Hok. destruct_and? Hok.
  struct_ok.
Qed.
#[local] Opaque Serialize_CustomerContent Deserialize_CustomerContent.

#[local] Instance Attributes_codec isBase : codec Attributes_ok (λ v, v) Attributes_default
  (λ v, Serialize_Attributes v isBase) (λ v, Deserialize_Attributes v isBase).
Proof.
  apply struct_codec. intros [] Hok.
  unfold Serialize_Attributes, Attributes_default, Attributes_ok in *. cbn in Hok. destruct_and? Hok.
  struct_ok.
Qed.
#[local] Opaque Serialize_Attributes Deserialize_Attributes.

Definition Value_c (v : Value) : Value :=
  v <| Value_doubleValue := canon_double (Value_doubleValue v) |>.

#[local] Instance Value_codec isBase : codec Value_ok Value_c Value_default
  (λ v, Serialize_Value v isBase) (λ v, Deserialize_Value v isBase).
Proof.
  apply struct_codec. intros [] Hok.
  unfold Serialize_Value, Value_default, Value_ok, Value_c in *. cbn in Hok. destruct_and? Hok.
  struct_ok.
Qed.
#[local] Opaque Serialize_Value Deserialize_Value.

Definition Data_c (v : Data) : Data :=
  v <| Data_properties := map (entry_c Value_c) (Data_properties v) |>.

#[local] Instance Data_codec isBase : codec Data_ok Data_c Data_default
  (λ v, Serialize_Data v isBase) (λ v, Deserialize_Data v isBase).
Proof.
  apply struct_codec. intros [] Hok.
  unfold Serialize_Data, Data_default, Data_ok, Data_c in *. cbn in Hok. destruct_and? Hok.
  struct_ok.
Qed.
#[local] Opaque Serialize_Data Deserialize_Data.

Definition CsRecord_c (v : CsRecord) : CsRecord :=
  v <| CsRecord_extUtc := map Utc_c (CsRecord_extUtc v) |> <| CsRecord_ext := map Data_c (CsRecord_ext v) |> <| CsRecord_baseData := map Data_c (CsRecord_baseData v) |> <| CsRecord_data := map Data_c (CsRecord_data v) |>.

#[local] Instance CsRecord_codec `{B : Build} isBase : codec CsRecord_ok CsRecord_c CsRecord_default
  (λ v, Serialize_CsRecord v isBase) (λ v, Deserialize_CsRecord v isBase).
Proof.
  apply struct_codec. intros [] Hok.
  unfold Serialize_CsRecord, CsRecord_default, CsRecord_ok, CsRecord_c in *. cbn in Hok. destruct_and? Hok.
  destruct B as [[] []]; defaulted; struct_ok.
Qed.
#[local] Opaque Serialize_CsRecord Deserialize_CsRecord.

(** C22. An event survives serialization: for every build of the schema and every
    record whose strings and containers fit their 32-bit lengths, Deserialize reads
    from what Serialize wrote, whatever follows it, the same record with the
    negative zeros of two double members made positive, and leaves exactly what
    follows. *)
Theorem record_roundtrip `{B : Build} (v : CsRecord) (rest : list Z) : CsRecord_ok v →
  Deserialize_CsRecord CsRecord_default false (Serialize_CsRecord v false ++ rest) = Ok (CsRecord_c v) rest.
Proof. intros Hv. exact (CsRecord_codec false v Hv rest). Qed.

(** An event with two properties, one of them classified, in a build without
    Common Schema 4. *)
Definition cs3 : Build := {| HAVE_CS4 := false; HAVE_CS4_FULL := false |}.
Definition sample_value : Value :=
  Value_default <| Value_type := 0 |> <| Value_longValue := -7 |>
    <| Value_attributes := [MkAttributes [MkPII 10] []] |>
    <| Value_doubleValue := [0; 0; 0; 0; 0; 0; 0; 0x80] |>.
Definition sample_record : CsRecord :=
  CsRecord_default <| CsRecord_ver := [51; 46; 48] |> <| CsRecord_name := [101; 118] |> <| CsRecord_time := 1589 |>
    <| CsRecord_extSdk := [Sdk_default <| Sdk_seq := 3 |>] |>
    <| CsRecord_data := [MkData [([107], sample_value); ([107; 50], Value_default <| Value_stringArray := [[[97]; []]] |>)]] |>.

Lemma sample_ok : @CsRecord_ok cs3 sample_record.
Proof.
  unfold CsRecord_ok, sample_record, sample_value. cbn.
  repeat lazymatch goal with
  | |- _ ∧ _ => split
  | |- Forall _ _ => constructor
  | |- StronglySorted _ _ => constructor
  | |- sbits _ _ => split; [discriminate|reflexivity]
  | |- short _ => reflexivity
  | |- list_ok _ _ => split
  | |- map_ok _ _ => split
  | |- sorted _ => constructor
  | |- @Sdk_ok _ _ => unfold Sdk_ok; cbn
  | |- Data_ok _ => unfold Data_ok; cbn
  | |- Value_ok _ => unfold Value_ok; cbn
  | |- Attributes_ok _ => unfold Attributes_ok; cbn
  | |- PII_ok _ => unfold PII_ok; cbn
  | |- entry_ok _ _ => split; cbn
  | |- _ => done
  end.
Qed.

Lemma record_roundtrip_witness :
  @CsRecord_ok cs3 sample_record ∧
  zlen (@Serialize_CsRecord cs3 sample_record false) = 59 ∧
  @Deserialize_CsRecord cs3 CsRecord_default false (@Serialize_CsRecord cs3 sample_record false ++ [9])
    = Ok (CsRecord_c sample_record) [9].
Proof.
  split; [exact sample_ok|]. split; [vm_compute; reflexivity|].
  apply (@record_roundtrip cs3 sample_record [9] sample_ok).
Defined.

End CsRoundtrip.
