(* ===== verification/CsTotal.v ===== *)
(** * The readers of CsProtocol on any input

    Whatever the bytes, a [Deserialize] stops, leaves a suffix of its input unread, and
    gives a value of its type: the integers are in the range of their types, the
    containers shorter than 2^32 and the maps sorted with each key once. Such a value
    can be serialized again. *)

From Stdlib Require Import ZArith Lia Sorted.
From S2P Require Import Prelude StdMap BondProtocol BondLaws CsTypes CsWriters CsReaders CsRoundtrip.

Module CsTotal.
Import StdMap Bond BondLaws CsTypes CsWriters CsReaders CsRoundtrip.

(** ** Values that are read have their type *)

Class Yields {A} (P : A → Prop) (R : Reader A) : Prop := yields : ∀ i a r, R i = Ok a r → P a.

Lemma yields_bind {A B} (Q : A → Prop) (P : B → Prop) (m : Reader A) (k : A → Reader B) :
  Yields Q m → (∀ a, Q a → Yields P (k a)) → Yields P (m ≫= k).
Proof.
  intros Hm Hk i b r E. unfold mbind, Reader_bind in E. destruct (m i) as [a i1| |] eqn:Em; [|done..].
  eapply Hk; [by eapply Hm|done].
Qed.

Lemma yields_ret {A} (P : A → Prop) a : P a → Yields P (mret a).
Proof. by intros Ha i b r [= <- _]. Qed.

Lemma yields_any {A} (R : Reader A) : Yields (λ _, True) R.
Proof. done. Qed.

Lemma yields_varint_loop f w value bits : 0 ≤ w → Yields (ubits w) (readVarint_loop f w value bits).
Proof.
  intros Hw. revert value bits. induction f as [|f IH]; intros value bits i a r E; [done|].
  cbn [readVarint_loop] in E. unfold mbind, Reader_bind in E.
  destruct i as [|raw i]; [done|]. cbn [ReadUInt8] in E. destruct (negb _).
  - injection E as <- _. by apply wrap_ubits.
  - destruct (_ >=? w); [done|]. by eapply IH.
Qed.

Lemma yields_varint w : 0 ≤ w → Yields (ubits w) (readVarint w).
Proof. apply yields_varint_loop. Qed.

Lemma swrap_sbits w x : 0 < w → sbits w (swrap w x).
Proof.
  intros Hw. unfold swrap, sbits. pose proof (Z.mod_pos_bound (x + 2 ^ (w - 1)) (2 ^ w)).
  assert (2 ^ w = 2 * 2 ^ (w - 1)) by (rewrite <-Z.pow_succ_r by lia; f_equal; lia). lia.
Qed.

Lemma yields_zigzag w : 0 < w → Yields (sbits w) (u ← readVarint w; mret (unzigzag w u)).
Proof. intros Hw. eapply yields_bind; [apply yields_any|]. intros u _. by apply yields_ret, swrap_sbits. Qed.

#[global] Instance yields_uint32 : Yields (ubits 32) ReadUInt32.
Proof. by apply yields_varint. Qed.
#[global] Instance yields_uint64 : Yields (ubits 64) ReadUInt64.
Proof. by apply yields_varint. Qed.
#[global] Instance yields_int32 : Yields (sbits 32) ReadInt32.
Proof. by apply yields_zigzag. Qed.
#[global] Instance yields_int64 : Yields (sbits 64) ReadInt64.
Proof. by apply yields_zigzag. Qed.
#[global] Instance yields_uint8 : Yields any_ok ReadUInt8.
Proof. done. Qed.

#[global] Instance yields_double : Yields double_ok ReadDouble.
Proof.
  intros i a r. unfold ReadDouble, ReadBlob. rewrite Z.gtb_ltb. destruct (Z.ltb_spec (zlen i) 8) as [|Hi]; [done|]. cbn [Z.eqb].
  intros [= <- _]. unfold double_ok, zlen in *. rewrite length_take. lia.
Qed.

#[global] Instance yields_string : Yields short ReadString.
Proof.
  eapply yields_bind; [apply yields_uint32|]. intros n Hn i a r. unfold assign. rewrite Z.gtb_ltb.
  destruct (Z.ltb_spec (zlen i) n); [done|]. intros [= <- _]. unfold short, zlen, ubits in *. rewrite length_take. lia.
Qed.

(** A map of any size: a member that occurs twice is added to. *)
Definition map_typed {A} (P : A → Prop) (m : smap A) : Prop := sorted m ∧ Forall (entry_ok P) m.

Section Containers.
Context {A : Type} (P : A → Prop) (d : A) (read : A → Reader A).
Hypothesis d_ok : P d.
Hypothesis read_ok : ∀ a, P a → Yields P (read a).

Lemma yields_elems n old : Forall P old → Yields (λ l, length l = n ∧ Forall P l) (read_elems d read n old).
Proof.
  revert old. induction n as [|n IH]; intros old Hold; cbn [read_elems]; [by apply yields_ret|].
  eapply yields_bind; [apply read_ok; by destruct Hold|]. intros x Hx.
  eapply yields_bind; [apply IH; by destruct Hold|]. intros xs [Hn Hxs]. apply yields_ret. split; [cbn; lia|by constructor].
Qed.

Lemma yields_list ty old : list_ok P old → Yields (list_ok P) (read_list ty d read old).
Proof.
  intros [_ Hold]. apply (yields_bind (λ st, ubits 32 st.1)).
  { eapply yields_bind; [apply yields_any|]. intros raw _. eapply yields_bind; [apply yields_any|]. intros _ _.
    eapply yields_bind; [apply yields_uint32|]. intros size Hs. by apply yields_ret. }
  intros [size type] Hs. cbn in Hs. eapply yields_bind; [apply yields_any|]. intros _ _.
  eapply yields_bind; [by apply yields_elems|]. intros l [Hn Hl]. eapply yields_bind; [apply yields_any|]. intros _ _.
  apply yields_ret. split; [|done]. unfold short, zlen, ubits in *. lia.
Qed.

Lemma map_at_ok m k : Forall (entry_ok P) m → P (map_at d m k).
Proof.
  intros Hm. unfold map_at. destruct (map_find m k) as [x|] eqn:E; [|done]. apply map_find_elem_1 in E.
  rewrite Forall_forall in Hm. by destruct (Hm _ E).
Qed.

Lemma yields_entries n m : map_typed P m → Yields (map_typed P) (read_entries d read n m).
Proof.
  revert m. induction n as [|n IH]; intros m [Hs Hm]; cbn [read_entries]; [by apply yields_ret|].
  eapply yields_bind; [apply yields_string|]. intros k Hk.
  eapply yields_bind; [by apply read_ok, map_at_ok|]. intros x Hx.
  apply IH. split; [by apply map_set_sorted|by apply map_set_Forall].
Qed.

Lemma yields_map ty m : map_typed P m → Yields (map_typed P) (read_map ty d read m).
Proof.
  intros Hm. eapply yields_bind; [apply yields_any|]. intros [[size kt] vt] _.
  eapply yields_bind; [apply yields_any|]. intros _ _.
  eapply yields_bind; [by apply yields_entries|]. intros m' Hm'.
  eapply yields_bind; [apply yields_any|]. intros _ _. by apply yields_ret.
Qed.

End Containers.

(** ** The structures *)

Lemma yields_struct {A} (P : A → Prop) (cases : Z → A → Reader A) isBase v :
  (∀ id v, P v → Yields P (cases id v)) → P v → Yields P (read_struct cases isBase v).
Proof.
  intros Hc Hv. eapply yields_bind; [apply yields_any|]. intros _ _. eapply yields_bind.
  2: { intros w Hw. eapply yields_bind; [apply yields_any|]. intros _ _. by apply (yields_ret P). }
  intros i. generalize (S (length i)) as n. intros n. revert v Hv i.
  induction n as [|n IH]; intros v Hv i a r E; [done|]. cbn [struct_loop] in E. unfold mbind, Reader_bind in E.
  destruct (ReadFieldBegin i) as [[type id] i1| |]; [|done..]. destruct (_ || _).
  - destruct (require _ i1); [|done..]. by injection E as <- _.
  - destruct (cases id v i1) as [v1 i2| |] eqn:Ec; [|done..]. cbn in E. eapply IH; [|done]. by eapply Hc.
Qed.

(** The defaults are of their types. *)
Ltac default_typed :=
  repeat lazymatch goal with
  | |- _ ∧ _ => split
  | |- list_ok _ _ => split
  | |- map_typed _ _ => split
  | |- Forall _ [] => constructor
  | |- sorted [] => constructor
  | |- _ => done
  end.

(** The [switch] on the number of the member. *)
Ltac each_case :=
  repeat lazymatch goal with
  | |- _ (match ?x with _ => _ end) => destruct x
  end.

(** The member read is of its type; the others keep theirs. *)
Ltac member_typed :=
  lazymatch goal with
  | |- Yields _ fail => by intros i a r E
  | |- Yields _ (_ ≫= _) =>
      eapply yields_bind;
      [ lazymatch goal with
        | |- Yields _ ReadBool => apply yields_any
        | |- Yields _ (read_list _ _ _ _) => list_typed
        | |- Yields _ (read_map _ _ _ _) => eapply yields_map; [| |eassumption]; part_typed
        | _ => apply _
        end
      | intros ? ?; apply yields_ret; try case_match; cbn; split_and?; try assumption; congruence ]
  end
with list_typed := eapply yields_list; [| |eassumption]; part_typed
with part_typed :=
  first [ done | by repeat split; try constructor | intros ? ?; first [apply _ | by apply yields_list; part_typed | eauto with typed ] ].
Create HintDb typed.

#[local] Instance Ingest_sane id v : Sane (Ingest_cases id v).
Proof. unfold Ingest_cases. each_case; apply _. Qed.
#[local] Instance Ingest_read_sane v isBase : Sane (Deserialize_Ingest v isBase).
Proof. apply sane_struct. apply _. Qed.
Lemma Ingest_default_typed : Ingest_ok Ingest_default.
Proof. unfold Ingest_ok. cbn. default_typed. Qed.
Lemma Ingest_read_typed v isBase : Ingest_ok v → Yields Ingest_ok (Deserialize_Ingest v isBase).
Proof.
  apply yields_struct. clear v. intros id [] Hv. unfold Ingest_ok in *. cbn in Hv. destruct_and? Hv.
  unfold Ingest_cases. each_case; member_typed.
Qed.
#[local] Hint Resolve Ingest_default_typed Ingest_read_typed : typed.

#[local] Instance User_sane id v : Sane (User_cases id v).
Proof. unfold User_cases. each_case; apply _. Qed.
#[local] Instance User_read_sane v isBase : Sane (Deserialize_User v isBase).
Proof. apply sane_struct. apply _. Qed.
Lemma User_default_typed : User_ok User_default.
Proof. unfold User_ok. cbn. default_typed. Qed.
Lemma User_read_typed v isBase : User_ok v → Yields User_ok (Deserialize_User v isBase).
Proof.
  apply yields_struct. clear v. intros id [] Hv. unfold User_ok in *. cbn in Hv. destruct_and? Hv.
  unfold User_cases. each_case; member_typed.
Qed.
#[local] Hint Resolve User_default_typed User_read_typed : typed.

#[local] Instance Loc_sane id v : Sane (Loc_cases id v).
Proof. unfold Loc_cases. each_case; apply _. Qed.
#[local] Instance Loc_read_sane v isBase : Sane (Deserialize_Loc v isBase).
Proof. apply sane_struct. apply _. Qed.
Lemma Loc_default_typed : Loc_ok Loc_default.
Proof. unfold Loc_ok. cbn. default_typed. Qed.
Lemma Loc_read_typed v isBase : Loc_ok v → Yields Loc_ok (Deserialize_Loc v isBase).
Proof.
  apply yields_struct. clear v. intros id [] Hv. unfold Loc_ok in *. cbn in Hv. destruct_and? Hv.
  unfold Loc_cases. each_case; member_typed.
Qed.
#[local] Hint Resolve Loc_default_typed Loc_read_typed : typed.

#[local] Instance Device_sane `{B : Build} id v : Sane (Device_cases id v).
Proof. unfold Device_cases. each_case; apply _. Qed.
#[local] Instance Device_read_sane `{B : Build} v isBase : Sane (Deserialize_Device v isBase).
Proof. apply sane_struct. apply _. Qed.
Lemma Device_default_typed `{B : Build} : Device_ok Device_default.
Proof. unfold Device_ok. cbn. default_typed. Qed.
Lemma Device_read_typed `{B : Build} v isBase : Device_ok v → Yields Device_ok (Deserialize_Device v isBase).
Proof.
  apply yields_struct. clear v. intros id [] Hv. unfold Device_ok in *. cbn in Hv. destruct_and? Hv.
  unfold Device_cases. each_case; member_typed.
Qed.
#[local] Hint Resolve Device_default_typed Device_read_typed : typed.

#[local] Instance Os_sane id v : Sane (Os_cases id v).
Proof. unfold Os_cases. each_case; apply _. Qed.
#[local] Instance Os_read_sane v isBase : Sane (Deserialize_Os v isBase).
Proof. apply sane_struct. apply _. Qed.
Lemma Os_default_typed : Os_ok Os_default.
Proof. unfold Os_ok. cbn. default_typed. Qed.
Lemma Os_read_typed v isBase : Os_ok v → Yields Os_ok (Deserialize_Os v isBase).
Proof.
  apply yields_struct. clear v. intros id [] Hv. unfold Os_ok in *. cbn in Hv. destruct_and? Hv.
  unfold Os_cases. each_case; member_typed.
Qed.
#[local] Hint Resolve Os_default_typed Os_read_typed : typed.

#[local] Instance App_sane `{B : Build} id v : Sane (App_cases id v).
Proof. unfold App_cases. each_case; apply _. Qed.
#[local] Instance App_read_sane `{B : Build} v isBase : Sane (Deserialize_App v isBase).
Proof. apply sane_struct. apply _. Qed.
Lemma App_default_typed `{B : Build} : App_ok App_default.
Proof. unfold App_ok. cbn. default_typed. Qed.
Lemma App_read_typed `{B : Build} v isBase : App_ok v → Yields App_ok (Deserialize_App v isBase).
Proof.
  apply yields_struct. clear v. intros id [] Hv. unfold App_ok in *. cbn in Hv. destruct_and? Hv.
  unfold App_cases. each_case; member_typed.
Qed.
#[local] Hint Resolve App_default_typed App_read_typed : typed.

#[local] Instance Utc_sane `{B : Build} id v : Sane (Utc_cases id v).
Proof. unfold Utc_cases. each_case; apply _. Qed.
#[local] Instance Utc_read_sane `{B : Build} v isBase : Sane (Deserialize_Utc v isBase).
Proof. apply sane_struct. apply _. Qed.
Lemma Utc_default_typed `{B : Build} : Utc_ok Utc_default.
Proof. unfold Utc_ok. cbn. default_typed. Qed.
Lemma Utc_read_typed `{B : Build} v isBase : Utc_ok v → Yields Utc_ok (Deserialize_Utc v isBase).
Proof.
  apply yields_struct. clear v. intros id [] Hv. unfold Utc_ok in *. cbn in Hv. destruct_and? Hv.
  unfold Utc_cases. each_case; member_typed.
Qed.
#[local] Hint Resolve Utc_default_typed Utc_read_typed : typed.

#[local] Instance M365a_sane `{B : Build} id v : Sane (M365a_cases id v).
Proof. unfold M365a_cases. each_case; apply _. Qed.
#[local] Instance M365a_read_sane `{B : Build} v isBase : Sane (Deserialize_M365a v isBase).
Proof. apply sane_struct. apply _. Qed.
Lemma M365a_default_typed `{B : Build} : M365a_ok M365a_default.
Proof. unfold M365a_ok. cbn. default_typed. Qed.
Lemma M365a_read_typed `{B : Build} v isBase : M365a_ok v → Yields M365a_ok (Deserialize_M365a v isBase).
Proof.
  apply yields_struct. clear v. intros id [] Hv. unfold M365a_ok in *. cbn in Hv. destruct_and? Hv.
  unfold M365a_cases. each_case; member_typed.
Qed.
#[local] Hint Resolve M365a_default_typed M365a_read_typed : typed.

Definition Xbl_typed (v : Xbl) : Prop :=
  map_typed short (Xbl_claims v) ∧ short (Xbl_nbf v) ∧ short (Xbl_exp v) ∧ short (Xbl_sbx v) ∧
  short (Xbl_dty v) ∧ short (Xbl_did v) ∧ short (Xbl_xid v) ∧ ubits 64 (Xbl_uts v) ∧ short (Xbl_pid v) ∧
  short (Xbl_dvr v) ∧ ubits 32 (Xbl_tid v) ∧ short (Xbl_tvr v) ∧ short (Xbl_sty v) ∧ short (Xbl_sid v) ∧
  sbits 64 (Xbl_eid v) ∧ short (Xbl_ip v).
#[local] Instance Xbl_sane id v : Sane (Xbl_cases id v).
Proof. unfold Xbl_cases. each_case; apply _. Qed.
#[local] Instance Xbl_read_sane v isBase : Sane (Deserialize_Xbl v isBase).
Proof. apply sane_struct. apply _. Qed.
Lemma Xbl_default_typed : Xbl_typed Xbl_default.
Proof. unfold Xbl_typed. cbn. default_typed. Qed.
Lemma Xbl_read_typed v isBase : Xbl_typed v → Yields Xbl_typed (Deserialize_Xbl v isBase).
Proof.
  apply yields_struct. clear v. intros id [] Hv. unfold Xbl_typed in *. cbn in Hv. destruct_and? Hv.
  unfold Xbl_cases. each_case; member_typed.
Qed.
#[local] Hint Resolve Xbl_default_typed Xbl_read_typed : typed.

#[local] Instance Javascript_sane `{B : Build} id v : Sane (Javascript_cases id v).
Proof. unfold Javascript_cases. each_case; apply _. Qed.
#[local] Instance Javascript_read_sane `{B : Build} v isBase : Sane (Deserialize_Javascript v isBase).
Proof. apply sane_struct. apply _. Qed.
Lemma Javascript_default_typed `{B : Build} : Javascript_ok Javascript_default.
Proof. unfold Javascript_ok. cbn. default_typed. Qed.
Lemma Javascript_read_typed `{B : Build} v isBase : Javascript_ok v → Yields Javascript_ok (Deserialize_Javascript v isBase).
Proof.
  apply yields_struct. clear v. intros id [] Hv. unfold Javascript_ok in *. cbn in Hv. destruct_and? Hv.
  unfold Javascript_cases. each_case; member_typed.
Qed.
#[local] Hint Resolve Javascript_default_typed Javascript_read_typed : typed.

#[local] Instance Protocol_sane `{B : Build} id v : Sane (Protocol_cases id v).
Proof. unfold Protocol_cases. each_case; apply _. Qed.
#[local] Instance Protocol_read_sane `{B : Build} v isBase : Sane (Deserialize_Protocol v isBase).
Proof. apply sane_struct. apply _. Qed.
Lemma Protocol_default_typed `{B : Build} : Protocol_ok Protocol_default.
Proof. unfold Protocol_ok. cbn. default_typed. Qed.
Lemma Protocol_read_typed `{B : Build} v isBase : Protocol_ok v → Yields Protocol_ok (Deserialize_Protocol v isBase).
Proof.
  apply yields_struct. clear v. intros id [] Hv. unfold Protocol_ok in *. cbn in Hv. destruct_and? Hv.
  unfold Protocol_cases. each_case; member_typed.
Qed.
#[local] Hint Resolve Protocol_default_typed Protocol_read_typed : typed.

#[local] Instance Receipts_sane `{B : Build} id v : Sane (Receipts_cases id v).
Proof. unfold Receipts_cases. each_case; apply _. Qed.
#[local] Instance Receipts_read_sane `{B : Build} v isBase : Sane (Deserialize_Receipts v isBase).
Proof. apply sane_struct. apply _. Qed.
Lemma Receipts_default_typed `{B : Build} : Receipts_ok Receipts_default.
Proof. unfold Receipts_ok. cbn. default_typed. Qed.
Lemma Receipts_read_typed `{B : Build} v isBase : Receipts_ok v → Yields Receipts_ok (Deserialize_Receipts v isBase).
Proof.
  apply yields_struct. clear v. intros id [] Hv. unfold Receipts_ok in *. cbn in Hv. destruct_and? Hv.
  unfold Receipts_cases. each_case; member_typed.
Qed.
#[local] Hint Resolve Receipts_default_typed Receipts_read_typed : typed.

#[local] Instance Net_sane id v : Sane (Net_cases id v).
Proof. unfold Net_cases. each_case; apply _. Qed.
#[local] Instance Net_read_sane v isBase : Sane (Deserialize_Net v isBase).
Proof. apply sane_struct. apply _. Qed.
Lemma Net_default_typed : Net_ok Net_default.
Proof. unfold Net_ok. cbn. default_typed. Qed.
Lemma Net_read_typed v isBase : Net_ok v → Yields Net_ok (Deserialize_Net v isBase).
Proof.
  apply yields_struct. clear v. intros id [] Hv. unfold Net_ok in *. cbn in Hv. destruct_and? Hv.
  unfold Net_cases. each_case; member_typed.
Qed.
#[local] Hint Resolve Net_default_typed Net_read_typed : typed.

#[local] Instance Sdk_sane `{B : Build} id v : Sane (Sdk_cases id v).
Proof. unfold Sdk_cases. each_case; apply _. Qed.
#[local] Instance Sdk_read_sane `{B : Build} v isBase : Sane (Deserialize_Sdk v isBase).
Proof. apply sane_struct. apply _. Qed.
Lemma Sdk_default_typed `{B : Build} : Sdk_ok Sdk_default.
Proof. unfold Sdk_ok. cbn. default_typed. Qed.
Lemma Sdk_read_typed `{B : Build} v isBase : Sdk_ok v → Yields Sdk_ok (Deserialize_Sdk v isBase).
Proof.
  apply yields_struct. clear v. intros id [] Hv. unfold Sdk_ok in *. cbn in Hv. destruct_and? Hv.
  unfold Sdk_cases. each_case; member_typed.
Qed.
#[local] Hint Resolve Sdk_default_typed Sdk_read_typed : typed.

#[local] Instance Cloud_sane id v : Sane (Cloud_cases id v).
Proof. unfold Cloud_cases. each_case; apply _. Qed.
#[local] Instance Cloud_read_sane v isBase : Sane (Deserialize_Cloud v isBase).
Proof. apply sane_struct. apply _. Qed.
Lemma Cloud_default_typed : Cloud_ok Cloud_default.
Proof. unfold Cloud_ok. cbn. default_typed. Qed.
Lemma Cloud_read_typed v isBase : Cloud_ok v → Yields Cloud_ok (Deserialize_Cloud v isBase).
Proof.
  apply yields_struct. clear v. intros id [] Hv. unfold Cloud_ok in *. cbn in Hv. destruct_and? Hv.
  unfold Cloud_cases. each_case; member_typed.
Qed.
#[local] Hint Resolve Cloud_default_typed Cloud_read_typed : typed.

#[local] Instance Service_sane id v : Sane (Service_cases id v).
Proof. unfold Service_cases. each_case; apply _. Qed.
#[local] Instance Service_read_sane v isBase : Sane (Deserialize_Service v isBase).
Proof. apply sane_struct. apply _. Qed.
Lemma Service_default_typed : Service_ok Service_default.
Proof. unfold Service_ok. cbn. default_typed. Qed.
Lemma Service_read_typed v isBase : Service_ok v → Yields Service_ok (Deserialize_Service v isBase).
Proof.
  apply yields_struct. clear v. intros id [] Hv. unfold Service_ok in *. cbn in Hv. destruct_and? Hv.
  unfold Service_cases. each_case; member_typed.
Qed.
#[local] Hint Resolve Service_default_typed Service_read_typed : typed.

#[local] Instance Cs_sane id v : Sane (Cs_cases id v).
Proof. unfold Cs_cases. each_case; apply _. Qed.
#[local] Instance Cs_read_sane v isBase : Sane (Deserialize_Cs v isBase).
Proof. apply sane_struct. apply _. Qed.
Lemma Cs_default_typed : Cs_ok Cs_default.
Proof. unfold Cs_ok. cbn. default_typed. Qed.
Lemma Cs_read_typed v isBase : Cs_ok v → Yields Cs_ok (Deserialize_Cs v isBase).
Proof.
  apply yields_struct. clear v. intros id [] Hv. unfold Cs_ok in *. cbn in Hv. destruct_and? Hv.
  unfold Cs_cases. each_case; member_typed.
Qed.
#[local] Hint Resolve Cs_default_typed Cs_read_typed : typed.

#[local] Instance Mscv_sane id v : Sane (Mscv_cases id v).
Proof. unfold Mscv_cases. each_case; apply _. Qed.
#[local] Instance Mscv_read_sane v isBase : Sane (Deserialize_Mscv v isBase).
Proof. apply sane_struct. apply _. Qed.
Lemma Mscv_default_typed : Mscv_ok Mscv_default.
Proof. unfold Mscv_ok. cbn. default_typed. Qed.
Lemma Mscv_read_typed v isBase : Mscv_ok v → Yields Mscv_ok (Deserialize_Mscv v isBase).
Proof.
  apply yields_struct. clear v. intros id [] Hv. unfold Mscv_ok in *. cbn in Hv. destruct_and? Hv.
  unfold Mscv_cases. each_case; member_typed.
Qed.
#[local] Hint Resolve Mscv_default_typed Mscv_read_typed : typed.

Definition IntWeb_typed (v : IntWeb) : Prop :=
  short (IntWeb_mc1Id v) ∧ short (IntWeb_msfpc v) ∧ short (IntWeb_anid v) ∧ short (IntWeb_serviceName v) ∧
  map_typed short (IntWeb_mscom v).
#[local] Instance IntWeb_sane id v : Sane (IntWeb_cases id v).
Proof. unfold IntWeb_cases. each_case; apply _. Qed.
#[local] Instance IntWeb_read_sane v isBase : Sane (Deserialize_IntWeb v isBase).
Proof. apply sane_struct. apply _. Qed.
Lemma IntWeb_default_typed : IntWeb_typed IntWeb_default.
Proof. unfold IntWeb_typed. cbn. default_typed. Qed.
Lemma IntWeb_read_typed v isBase : IntWeb_typed v → Yields IntWeb_typed (Deserialize_IntWeb v isBase).
Proof.
  apply yields_struct. clear v. intros id [] Hv. unfold IntWeb_typed in *. cbn in Hv. destruct_and? Hv.
  unfold IntWeb_cases. each_case; member_typed.
Qed.
#[local] Hint Resolve IntWeb_default_typed IntWeb_read_typed : typed.

#[local] Instance IntService_sane id v : Sane (IntService_cases id v).
Proof. unfold IntService_cases. each_case; apply _. Qed.
#[local] Instance IntService_read_sane v isBase : Sane (Deserialize_IntService v isBase).
Proof. apply sane_struct. apply _. Qed.
Lemma IntService_default_typed : IntService_ok IntService_default.
Proof. unfold IntService_ok. cbn. default_typed. Qed.
Lemma IntService_read_typed v isBase : IntService_ok v → Yields IntService_ok (Deserialize_IntService v isBase).
Proof.
  apply yields_struct. clear v. intros id [] Hv. unfold IntService_ok in *. cbn in Hv. destruct_and? Hv.
  unfold IntService_cases. each_case; member_typed.
Qed.
#[local] Hint Resolve IntService_default_typed IntService_read_typed : typed.

#[local] Instance Web_sane id v : Sane (Web_cases id v).
Proof. unfold Web_cases. each_case; apply _. Qed.
#[local] Instance Web_read_sane v isBase : Sane (Deserialize_Web v isBase).
Proof. apply sane_struct. apply _. Qed.
Lemma Web_default_typed : Web_ok Web_default.
Proof. unfold Web_ok. cbn. default_typed. Qed.
Lemma Web_read_typed v isBase : Web_ok v → Yields Web_ok (Deserialize_Web v isBase).
Proof.
  apply yields_struct. clear v. intros id [] Hv. unfold Web_ok in *. cbn in Hv. destruct_and? Hv.
  unfold Web_cases. each_case; member_typed.
Qed.
#[local] Hint Resolve Web_default_typed Web_read_typed : typed.

#[local] Instance PII_sane id v : Sane (PII_cases id v).
Proof. unfold PII_cases. each_case; apply _. Qed.
#[local] Instance PII_read_sane v isBase : Sane (Deserialize_PII v isBase).
Proof. apply sane_struct. apply _. Qed.
Lemma PII_default_typed : PII_ok PII_default.
Proof. unfold PII_ok. cbn. default_typed. Qed.
Lemma PII_read_typed v isBase : PII_ok v → Yields PII_ok (Deserialize_PII v isBase).
Proof.
  apply yields_struct. clear v. intros id [] Hv. unfold PII_ok in *. cbn in Hv. destruct_and? Hv.
  unfold PII_cases. each_case; member_typed.
Qed.
#[local] Hint Resolve PII_default_typed PII_read_typed : typed.

#[local] Instance CustomerContent_sane id v : Sane (CustomerContent_cases id v).
Proof. unfold CustomerContent_cases. each_case; apply _. Qed.
#[local] Instance CustomerContent_read_sane v isBase : Sane (Deserialize_CustomerContent v isBase).
Proof. apply sane_struct. apply _. Qed.
Lemma CustomerContent_default_typed : CustomerContent_ok CustomerContent_default.
Proof. unfold CustomerContent_ok. cbn. default_typed. Qed.
Lemma CustomerContent_read_typed v isBase : CustomerContent_ok v → Yields CustomerContent_ok (Deserialize_CustomerContent v isBase).
Proof.
  apply yields_struct. clear v. intros id [] Hv. unfold CustomerContent_ok in *. cbn in Hv. destruct_and? Hv.
  unfold CustomerContent_cases. each_case; member_typed.
Qed.
#[local] Hint Resolve CustomerContent_default_typed CustomerContent_read_typed : typed.

#[local] Instance Attributes_sane id v : Sane (Attributes_cases id v).
Proof. unfold Attributes_cases. each_case; apply _. Qed.
#[local] Instance Attributes_read_sane v isBase : Sane (Deserialize_Attributes v isBase).
Proof. apply sane_struct. apply _. Qed.
Lemma Attributes_default_typed : Attributes_ok Attributes_default.
Proof. unfold Attributes_ok. cbn. default_typed. Qed.
Lemma Attributes_read_typed v isBase : Attributes_ok v → Yields Attributes_ok (Deserialize_Attributes v isBase).
Proof.
  apply yields_struct. clear v. intros id [] Hv. unfold Attributes_ok in *. cbn in Hv. destruct_and? Hv.
  unfold Attributes_cases. each_case; member_typed.
Qed.
#[local] Hint Resolve Attributes_default_typed Attributes_read_typed : typed.

#[local] Instance Value_sane id v : Sane (Value_cases id v).
Proof. unfold Value_cases. each_case; apply _. Qed.
#[local] Instance Value_read_sane v isBase : Sane (Deserialize_Value v isBase).
Proof. apply sane_struct. apply _. Qed.
Lemma Value_default_typed : Value_ok Value_default.
Proof. unfold Value_ok. cbn. default_typed. Qed.
Lemma Value_read_typed v isBase : Value_ok v → Yields Value_ok (Deserialize_Value v isBase).
Proof.
  apply yields_struct. clear v. intros id [] Hv. unfold Value_ok in *. cbn in Hv. destruct_and? Hv.
  unfold Value_cases. each_case; member_typed.
Qed.
#[local] Hint Resolve Value_default_typed Value_read_typed : typed.

Definition Data_typed (v : Data) : Prop :=
  map_typed Value_ok (Data_properties v).
#[local] Instance Data_sane id v : Sane (Data_cases id v).
Proof. unfold Data_cases. each_case; apply _. Qed.
#[local] Instance Data_read_sane v isBase : Sane (Deserialize_Data v isBase).
Proof. apply sane_struct. apply _. Qed.
Lemma Data_default_typed : Data_typed Data_default.
Proof. unfold Data_typed. cbn. default_typed. Qed.
Lemma Data_read_typed v isBase : Data_typed v → Yields Data_typed (Deserialize_Data v isBase).
Proof.
  apply yields_struct. clear v. intros id [] Hv. unfold Data_typed in *. cbn in Hv. destruct_and? Hv.
  unfold Data_cases. each_case; member_typed.
Qed.
#[local] Hint Resolve Data_default_typed Data_read_typed : typed.

Definition CsRecord_typed `{B : Build} (v : CsRecord) : Prop :=
  short (CsRecord_ver v) ∧ short (CsRecord_name v) ∧ sbits 64 (CsRecord_time v) ∧
  double_ok (CsRecord_popSample v) ∧ short (CsRecord_iKey v) ∧ sbits 64 (CsRecord_flags v) ∧
  short (CsRecord_cV v) ∧ list_ok Ingest_ok (CsRecord_extIngest v) ∧
  list_ok Protocol_ok (CsRecord_extProtocol v) ∧ list_ok User_ok (CsRecord_extUser v) ∧
  list_ok Device_ok (CsRecord_extDevice v) ∧ list_ok Os_ok (CsRecord_extOs v) ∧
  list_ok App_ok (CsRecord_extApp v) ∧ list_ok Utc_ok (CsRecord_extUtc v) ∧
  list_ok Xbl_typed (CsRecord_extXbl v) ∧ list_ok Javascript_ok (CsRecord_extJavascript v) ∧
  list_ok Receipts_ok (CsRecord_extReceipts v) ∧ list_ok Net_ok (CsRecord_extNet v) ∧
  list_ok Sdk_ok (CsRecord_extSdk v) ∧ list_ok Loc_ok (CsRecord_extLoc v) ∧
  list_ok Cloud_ok (CsRecord_extCloud v) ∧ list_ok Service_ok (CsRecord_extService v) ∧
  list_ok Cs_ok (CsRecord_extCs v) ∧ list_ok M365a_ok (CsRecord_extM365a v) ∧
  list_ok Data_typed (CsRecord_ext v) ∧ list_ok Mscv_ok (CsRecord_extMscv v) ∧
  list_ok IntWeb_typed (CsRecord_extIntWeb v) ∧ list_ok IntService_ok (CsRecord_extIntService v) ∧
  list_ok Web_ok (CsRecord_extWeb v) ∧ map_typed short (CsRecord_tags v) ∧ short (CsRecord_baseType v) ∧
  list_ok Data_typed (CsRecord_baseData v) ∧ list_ok Data_typed (CsRecord_data v) ∧
  (HAVE_CS4_FULL = false → CsRecord_extIngest v = []) ∧ (HAVE_CS4_FULL = false → CsRecord_extXbl v = []) ∧
  (HAVE_CS4_FULL = false → CsRecord_extJavascript v = []) ∧
  (HAVE_CS4_FULL = false → CsRecord_extReceipts v = []) ∧ (HAVE_CS4_FULL = false → CsRecord_extCloud v = []) ∧
  (HAVE_CS4_FULL = false → CsRecord_extService v = []) ∧ (HAVE_CS4_FULL = false → CsRecord_extCs v = []) ∧
  (HAVE_CS4_FULL = false → CsRecord_extMscv v = []) ∧ (HAVE_CS4_FULL = false → CsRecord_extIntWeb v = []) ∧
  (HAVE_CS4_FULL = false → CsRecord_extIntService v = []) ∧ (HAVE_CS4_FULL = false → CsRecord_extWeb v = []).
#[local] Instance CsRecord_sane `{B : Build} id v : Sane (CsRecord_cases id v).
Proof. unfold CsRecord_cases. each_case; apply _. Qed.
#[local] Instance CsRecord_read_sane `{B : Build} v isBase : Sane (Deserialize_CsRecord v isBase).
Proof. apply sane_struct. apply _. Qed.
Lemma CsRecord_default_typed `{B : Build} : CsRecord_typed CsRecord_default.
Proof. unfold CsRecord_typed. cbn. default_typed. Qed.
Lemma CsRecord_read_typed `{B : Build} v isBase : CsRecord_typed v → Yields CsRecord_typed (Deserialize_CsRecord v isBase).
Proof.
  apply yields_struct. clear v. intros id [] Hv. unfold CsRecord_typed in *. cbn in Hv. destruct_and? Hv.
  unfold CsRecord_cases. each_case; member_typed.
Qed.
#[local] Hint Resolve CsRecord_default_typed CsRecord_read_typed : typed.

(** ** Any input *)

(** C23. Deserialize stops on every input, in every build and whatever value it
    reads into: its loops never outrun the length of the input, and the bytes it
    leaves unread are a suffix of it. *)
Theorem deserialize_total `{B : Build} (v : CsRecord) (isBase : bool) (input : list Z) :
  match Deserialize_CsRecord v isBase input with
  | Ok _ rest => ∃ used, input = used ++ rest
  | Fail => True
  | Stuck => False
  end.
Proof.
  pose proof (CsRecord_read_sane v isBase) as [Hs Ht]. specialize (Ht input).
  destruct (Deserialize_CsRecord v isBase input) as [w rest| |] eqn:E; [|done..]. exact (Hs _ _ _ E).
Qed.

(** The maps of a record have fewer entries than their 32-bit length can count. *)
Definition maps_short `{B : Build} (v : CsRecord) : Prop :=
  short (CsRecord_tags v) ∧ Forall (λ x, short (Xbl_claims x)) (CsRecord_extXbl v) ∧
  Forall (λ x, short (IntWeb_mscom x)) (CsRecord_extIntWeb v) ∧ Forall (λ x, short (Data_properties x)) (CsRecord_ext v) ∧
  Forall (λ x, short (Data_properties x)) (CsRecord_baseData v) ∧ Forall (λ x, short (Data_properties x)) (CsRecord_data v).

Lemma map_typed_ok {A} (P : A → Prop) m : map_typed P m → short m → map_ok P m.
Proof. intros [H1 H2] H. by split. Qed.

Lemma list_typed_ok {A} (P Q R : A → Prop) l : (∀ x, P x → Q x → R x) → list_ok P l → Forall Q l → list_ok R l.
Proof.
  intros H [Hl Hp] Hq. split; [done|]. eapply Forall_impl; [apply Forall_and; split; [exact Hp|exact Hq]|]. cbn. intros x [? ?]. by apply H.
Qed.

Lemma record_typed_ok `{B : Build} v : CsRecord_typed v → maps_short v → CsRecord_ok v.
Proof.
  unfold CsRecord_typed, maps_short, CsRecord_ok. intros Ht (M1 & M2 & M3 & M4 & M5 & M6). destruct_and? Ht.
  assert (∀ x, Data_typed x → short (Data_properties x) → Data_ok x) as Hd by (intros x; apply map_typed_ok).
  assert (∀ x, Xbl_typed x → short (Xbl_claims x) → Xbl_ok x) as Hx
    by (intros x Hx Hs; unfold Xbl_typed, Xbl_ok in *; destruct_and? Hx; split_and!; try done; by apply map_typed_ok).
  assert (∀ x, IntWeb_typed x → short (IntWeb_mscom x) → IntWeb_ok x) as Hi
    by (intros x Hx' Hs; unfold IntWeb_typed, IntWeb_ok in *; destruct_and? Hx'; split_and!; try done; by apply map_typed_ok).
  split_and!; try done; first [by eapply (list_typed_ok _ _ _ _ Hd)|by eapply (list_typed_ok _ _ _ _ Hx)|by eapply (list_typed_ok _ _ _ _ Hi)|by apply map_typed_ok].
Qed.

(** What was received can be sent on: from whatever bytes Deserialize made a record (bytes no
    Serialize need have written, with members in any order or twice), Serialize writes a form that
    Deserialize reads back as the same record, up to the zeros C21 names. The maps of the record must
    have fewer than 2^32 entries. *)
Theorem received_roundtrip `{B : Build} (w : CsRecord) (input rest more : list Z) :
  Deserialize_CsRecord CsRecord_default false input = Ok w rest → maps_short w →
  Deserialize_CsRecord CsRecord_default false (Serialize_CsRecord w false ++ more) = Ok (CsRecord_c w) more.
Proof.
  intros E Hs. apply (CsRecord_codec false w), record_typed_ok; [|done].
  exact (CsRecord_read_typed CsRecord_default false CsRecord_default_typed _ _ _ E).
Qed.

(** A record whose [tags] occur twice, the keys of the second out of order: they are written as one map. *)
Definition tags_twice : list Z := [205; 51; 9; 9; 1; 1; 98; 0; 205; 51; 9; 9; 2; 1; 99; 0; 1; 97; 1; 120; 0].

Lemma received_roundtrip_witness : ∃ w,
  @Deserialize_CsRecord cs3 CsRecord_default false tags_twice = Ok w [] ∧
  CsRecord_tags w = [([97], [120]); ([98], []); ([99], [])] ∧
  @Deserialize_CsRecord cs3 CsRecord_default false (@Serialize_CsRecord cs3 w false ++ []) = Ok (CsRecord_c w) [].
Proof.
  eexists. split; [vm_compute; reflexivity|]. split; [reflexivity|].
  apply (@received_roundtrip cs3 _ tags_twice [] []); [vm_compute; reflexivity|]. split_and!; by repeat constructor.
Defined.

End CsTotal.
