(* ===== verification/MemoryStorage.v ===== *)
(** * The queue of records in memory

    lib/offline/MemoryStorage.cpp, with the records of
    lib/include/public/IOfflineStorage.hpp. A [std::vector] is the list of its elements,
    the array of queues the list of its five queues; [None] is an access outside
    the array. An [unordered_set] of identifiers is a list up to order and
    repetition. The clock, read once per record, is a function of the number of
    records read so far. *)

From Stdlib Require Import ZArith Lia Sorted.
From S2P Require Import Prelude StdMap.

Module MemoryStorage.
Import StdMap.

Definition EventLatency_Unspecified : Z := -1.
Definition EventLatency_Off : Z := 0.
Definition EventLatency_Normal : Z := 1.
Definition EventLatency_RealTime : Z := 3.
Definition EventLatency_Max : Z := 4.
Definition EventPersistence_DoNotStoreOnDisk : Z := 3.

Record StorageRecord := MkRecord {
  id : list Z; tenantToken : list Z; latency : Z; persistence : Z; timestamp : Z; blob : list Z;
  retryCount : Z; reservedUntil : Z
}.
#[global] Instance StorageRecord_eta : Eta StorageRecord := λ r,
  MkRecord (id r) (tenantToken r) (latency r) (persistence r) (timestamp r) (blob r) (retryCount r) (reservedUntil r).

Record memory := MkMemory {
  m_records : list (list StorageRecord); m_reserved_records : smap StorageRecord;
  m_size : Z; m_lastReadCount : Z
}.
#[global] Instance memory_eta : Eta memory := λ m,
  MkMemory (m_records m) (m_reserved_records m) (m_size m) (m_lastReadCount m).

(** A new storage. *)
Definition new_storage : memory := MkMemory [[]; []; []; []; []] [] 0 0.

(** [m_records[latency]]. *)
Definition queue (m : memory) (lat : Z) : option (list StorageRecord) :=
  if lat <? 0 then None else m_records m !! Z.to_nat lat.

Definition set_queue (m : memory) (lat : Z) (q : list StorageRecord) : memory :=
  m <| m_records := <[Z.to_nat lat := q]> (m_records m) |>.

(** [std::to_string] of an [int]. *)
Fixpoint digits (fuel : nat) (n : Z) (acc : list Z) : list Z :=
  match fuel with
  | O => acc
  | S f => let acc := (48 + n mod 10) :: acc in if n <? 10 then acc else digits f (n / 10) acc
  end.
Definition to_string (n : Z) : list Z := if n <? 0 then 45 :: digits 10 (- n) [] else digits 10 n [].

Section Storage.
(** [sizeof(StorageRecord)]. *)
Context (sizeof_record : Z).

Definition record_size (r : StorageRecord) : Z := zlen (blob r) + sizeof_record.

(** ** Storing *)

Definition StoreRecord (m : memory) (r : StorageRecord) : option (bool * memory) :=
  if latency r =? EventLatency_Off then Some (false, m)
  else
    let m := m <| m_size := u64 (m_size m + record_size r) |> in
    match queue m (latency r) with
    | None => None
    | Some q => Some (true, set_queue m (latency r) (q ++ [r]))
    end.

Fixpoint StoreRecords (m : memory) (rs : list StorageRecord) : option (Z * memory) :=
  match rs with
  | [] => Some (0, m)
  | r :: rs =>
      match StoreRecord m r with
      | None => None
      | Some (stored, m) =>
          match StoreRecords m rs with
          | None => None
          | Some (n, m) => Some ((if stored then 1 else 0) + n, m)
          end
      end
  end.

(** ** Retrieving *)

Section Reading.
Context {C : Type} (consumer : C → StorageRecord → C * bool) (leaseTimeMs : Z) (clock : Z → Z).

(** The state of a retrieval: the consumer, the reserved records, the size,
    [maxCount], [m_lastReadCount], and whether the consumer wanted no more. *)
Record reading := Reading {
  sink : C; reserved : smap StorageRecord; size : Z; maxCount : Z; readCount : Z; finished : bool
}.

Definition for_consumer (n : Z) (r : StorageRecord) : StorageRecord :=
  if c_true leaseTimeMs then r <| reservedUntil := i64 (clock n + leaseTimeMs) |> else r.

(** The inner [while], on the queue from its back. *)
Fixpoint read_queue (rq : list StorageRecord) (s : reading) : list StorageRecord * reading :=
  match rq with
  | [] => ([], s)
  | r :: rq' =>
      if maxCount s =? 0 then (rq, s)
      else
        let '(c, wantMore) := consumer (sink s) (for_consumer (readCount s) r) in
        if negb wantMore then
          (rq, Reading c (reserved s) (size s) (maxCount s) (readCount s) true)
        else
          read_queue rq' (Reading c
            (if c_true leaseTimeMs then map_set (reserved s) (id r) r else reserved s)
            (size s - Z.min (size s) (record_size r)) (maxCount s - 1) (readCount s + 1) false)
  end.

(** The outer [for], over the latencies left to visit. *)
Fixpoint read_queues (lats : list Z) (queues : list (list StorageRecord)) (s : reading) :
    list (list StorageRecord) * reading :=
  match lats with
  | [] => (queues, s)
  | lat :: lats =>
      if finished s || (maxCount s =? 0) then (queues, s)
      else
        let '(rq, s) := read_queue (rev (default [] (queues !! Z.to_nat lat))) s in
        read_queues lats (<[Z.to_nat lat := rev rq]> queues) s
  end.

(** From [EventLatency_Max] down to [minLatency]. *)
Definition visited (minLatency : Z) : list Z :=
  let minLatency := if minLatency =? EventLatency_Unspecified then EventLatency_Off else minLatency in
  rev (seqZ minLatency (EventLatency_Max + 1 - minLatency)).

(** Always returns [true]. *)
Definition GetAndReserveRecords (c : C) (minLatency maxCount : Z) (m : memory) : C * memory :=
  let maxCount := if maxCount =? 0 then 2 ^ 32 - 1 else maxCount in
  let '(queues, s) := read_queues (visited minLatency) (m_records m)
    (Reading c (m_reserved_records m) (m_size m) maxCount 0 false) in
  (sink s, MkMemory queues (reserved s) (size s) (readCount s)).

End Reading.

Definition GetRecords (minLatency maxCount : Z) (m : memory) : list StorageRecord * memory :=
  GetAndReserveRecords (λ records r, (records ++ [r], true)) 0 (λ _, 0) [] minLatency maxCount m.

Definition LastReadRecordCount (m : memory) : Z := u32 (m_lastReadCount m).

(** ** Deleting *)

Definition DeleteAllRecords (m : memory) : memory :=
  MkMemory (map (λ _, []) (m_records m)) [] 0 0.

Definition in_set (ids : list (list Z)) (k : list Z) : bool := bool_decide (k ∈ ids).
Definition set_erase (ids : list (list Z)) (k : list Z) : list (list Z) := filter (λ i, i ≠ k) ids.

(** The reserved records whose identifiers are in the set go, and so do the
    identifiers. *)
Fixpoint erase_reserved (ids : list (list Z)) (it : smap StorageRecord) : list (list Z) * smap StorageRecord :=
  match it with
  | [] => (ids, [])
  | (k, r) :: it =>
      if in_set ids k then erase_reserved (set_erase ids k) it
      else let '(ids, kept) := erase_reserved ids it in (ids, (k, r) :: kept)
  end.

(** The same on a queue, whose records count in [m_size]. *)
Fixpoint erase_queued (ids : list (list Z)) (it : list StorageRecord) (size : Z) :
    list (list Z) * list StorageRecord * Z :=
  match it with
  | [] => (ids, [], size)
  | r :: it =>
      if in_set ids (id r) then erase_queued (set_erase ids (id r)) it (size - Z.min size (record_size r))
      else let '(ids, kept, size) := erase_queued ids it size in (ids, r :: kept, size)
  end.

Fixpoint erase_queues (ids : list (list Z)) (queues : list (list StorageRecord)) (size : Z) :
    list (list StorageRecord) * Z :=
  match queues with
  | [] => ([], size)
  | q :: queues =>
      let '(ids, q, size) :=
        match q, ids with
        | _ :: _, _ :: _ => erase_queued ids q size
        | _, _ => (ids, q, size)
        end in
      let '(queues, size) := erase_queues ids queues size in (q :: queues, size)
  end.

Definition erase_ram (ids : list (list Z)) (m : memory) : memory :=
  let '(queues, size) := erase_queues ids (m_records m) (m_size m) in
  m <| m_records := queues |> <| m_size := size |>.

(** [DeleteRecords(ids, headers, fromMemory)]. *)
Definition DeleteRecords (ids : list (list Z)) (m : memory) : memory :=
  match m_reserved_records m with
  | [] => erase_ram ids m
  | _ =>
      let '(unseen, kept) := erase_reserved ids (m_reserved_records m) in
      let m := m <| m_reserved_records := kept |> in
      match unseen with [] => m | _ => erase_ram ids m end
  end.

(** The columns of a [where] clause. *)
Definition s_record_id : list Z := [114; 101; 99; 111; 114; 100; 95; 105; 100].
Definition s_tenant_token : list Z := [116; 101; 110; 97; 110; 116; 95; 116; 111; 107; 101; 110].
Definition s_latency : list Z := [108; 97; 116; 101; 110; 99; 121].
Definition s_persistence : list Z := [112; 101; 114; 115; 105; 115; 116; 101; 110; 99; 101].
Definition s_retry_count : list Z := [114; 101; 116; 114; 121; 95; 99; 111; 117; 110; 116].

Definition matcher (r : StorageRecord) (whereFilter : smap (list Z)) : bool :=
  forallb (λ kv : list Z * list Z,
    if bool_decide (kv.1 = s_record_id) then bool_decide (id r = kv.2)
    else if bool_decide (kv.1 = s_tenant_token) then bool_decide (tenantToken r = kv.2)
    else if bool_decide (kv.1 = s_latency) then bool_decide (to_string (latency r) = kv.2)
    else if bool_decide (kv.1 = s_persistence) then bool_decide (to_string (persistence r) = kv.2)
    else if bool_decide (kv.1 = s_retry_count) then bool_decide (to_string (retryCount r) = kv.2)
    else false) whereFilter.

Fixpoint erase_matching (whereFilter : smap (list Z)) (it : list StorageRecord) (size : Z) : list StorageRecord * Z :=
  match it with
  | [] => ([], size)
  | r :: it =>
      if matcher r whereFilter then erase_matching whereFilter it (size - Z.min size (record_size r))
      else let '(kept, size) := erase_matching whereFilter it size in (r :: kept, size)
  end.

Fixpoint erase_matching_queues (whereFilter : smap (list Z)) (queues : list (list StorageRecord)) (size : Z) :
    list (list StorageRecord) * Z :=
  match queues with
  | [] => ([], size)
  | q :: queues =>
      let '(q, size) := erase_matching whereFilter q size in
      let '(queues, size) := erase_matching_queues whereFilter queues size in (q :: queues, size)
  end.

(** [DeleteRecords(whereFilter)]. *)
Definition DeleteRecords_where (whereFilter : smap (list Z)) (m : memory) : memory :=
  let reserved_ids := map fst (filter (λ kv, matcher kv.2 whereFilter = true) (m_reserved_records m : list _)) in
  let m := match reserved_ids with [] => m | _ => DeleteRecords reserved_ids m end in
  let '(queues, size) := erase_matching_queues whereFilter (m_records m) (m_size m) in
  m <| m_records := queues |> <| m_size := size |>.

(** ** Releasing *)

Definition retried (incrementRetryCount : bool) (r : StorageRecord) : StorageRecord :=
  if incrementRetryCount then r <| retryCount := i32 (retryCount r + 1) |> else r.

Fixpoint release_loop (incrementRetryCount : bool) (ids : list (list Z)) (it : smap StorageRecord) (m : memory) :
    option (smap StorageRecord * memory) :=
  match it with
  | [] => Some ([], m)
  | (k, r) :: it =>
      if in_set ids k then
        match StoreRecord m (retried incrementRetryCount r) with
        | None => None
        | Some (_, m) => release_loop incrementRetryCount (set_erase ids k) it m
        end
      else
        match release_loop incrementRetryCount ids it m with
        | None => None
        | Some (kept, m) => Some ((k, r) :: kept, m)
        end
  end.

Definition ReleaseRecords (ids : list (list Z)) (incrementRetryCount : bool) (m : memory) : option memory :=
  match release_loop incrementRetryCount ids (m_reserved_records m) m with
  | None => None
  | Some (kept, m) => Some (m <| m_reserved_records := kept |>)
  end.

Fixpoint release_all (it : smap StorageRecord) (m : memory) : option memory :=
  match it with
  | [] => Some (m <| m_reserved_records := [] |>)
  | (_, r) :: it =>
      match StoreRecord m r with None => None | Some (_, m) => release_all it m end
  end.

Definition ReleaseAllRecords (m : memory) : option memory := release_all (m_reserved_records m) m.

(** ** Queries *)

Definition GetSize (m : memory) : Z := m_size m.

Definition GetRecordCount (lat : Z) (m : memory) : option Z :=
  if lat =? EventLatency_Unspecified then Some (foldr (λ q n, zlen q + n) 0 (m_records m))
  else match queue m lat with None => None | Some q => Some (zlen q) end.

Definition GetReservedCount (m : memory) : Z := zlen (m_reserved_records m).

End Storage.

End MemoryStorage.
