(* ===== verification/MemoryReads.v ===== *)
(** * What a retrieval from memory gives

    [GetAndReserveRecords] against a reference definition: the records are offered
    to the consumer from the highest latency down and, in a queue, from the newest
    on, until the consumer wants no more or [maxCount] of them were taken. *)

From Stdlib Require Import ZArith Lia Sorted.
From S2P Require Import Prelude StdMap MemoryStorage.

Module MemoryReads.
Import StdMap MemoryStorage.

(** ** Queues *)

Lemma concat_insert {A} (qs : list (list A)) i q q' : qs !! i = Some q →
  concat (<[i := q']> qs) ++ q ≡ₚ concat qs ++ q'.
Proof.
  revert i. induction qs as [|q0 qs IH]; intros [|i] E; cbn in *; try done.
  - injection E as ->. rewrite <-!app_assoc, (Permutation_app_comm q). by rewrite app_assoc, (Permutation_app_comm (concat qs)), <-app_assoc.
  - rewrite <-!app_assoc. f_equiv. by apply IH.
Qed.

Section Offer.
Context (sizeof_record : Z) {C : Type} (consumer : C → StorageRecord → C * bool) (leaseTimeMs : Z) (clock : Z → Z).

Abbreviation for_consumer := (for_consumer leaseTimeMs clock).

(** The records of [rs] the consumer takes, at most [max] of them, with the
    consumer after that and whether it stopped the retrieval; [n] records were
    taken before. *)
Fixpoint offer (rs : list StorageRecord) (c : C) (n max : Z) : list StorageRecord * C * bool :=
  match rs with
  | [] => ([], c, false)
  | r :: rs =>
      if max =? 0 then ([], c, false)
      else
        let '(c, wantMore) := consumer c (for_consumer n r) in
        if wantMore then let '(taken, c, stop) := offer rs c (n + 1) (max - 1) in (r :: taken, c, stop)
        else ([], c, true)
  end.

(** The records taken are reserved, and do not count in the size any more. *)
Definition lease (res : smap StorageRecord) (taken : list StorageRecord) : smap StorageRecord :=
  if c_true leaseTimeMs then foldl (λ m r, map_set m (id r) r) res taken else res.
Definition uncount (size : Z) (taken : list StorageRecord) : Z :=
  foldl (λ s r, s - Z.min s (record_size sizeof_record r)) size taken.

Lemma offer_none rs c n : offer rs c n 0 = ([], c, false).
Proof. by destruct rs. Qed.

Lemma offer_count rs c n max taken c' stop : 0 ≤ max → offer rs c n max = (taken, c', stop) →
  zlen taken ≤ max ∧ ∃ left, rs = taken ++ left ∧ (stop = false → left = [] ∨ zlen taken = max).
Proof.
  revert c n max taken. induction rs as [|r rs IH]; intros c n max taken Hm E; cbn in E.
  { injection E as <- _ <-. split; [done|]. exists []. by split; [|left]. }
  destruct (Z.eqb_spec max 0) as [-> |].
  { injection E as <- _ <-. split; [done|]. exists (r :: rs). split; [done|]. by right. }
  destruct (consumer c _) as [c1 [|]].
  - destruct (offer rs c1 (n + 1) (max - 1)) as [[t c2] b] eqn:Eo. injection E as <- <- <-.
    apply IH in Eo as (Hle & left & -> & Hs); [|lia]. rewrite zlen_cons. split; [lia|]. exists left. split; [done|].
    intros Hb. destruct (Hs Hb); [by left|right; lia].
  - injection E as <- _ <-. split; [done|]. by exists (r :: rs).
Qed.

Lemma offer_app xs ys c n max : 0 ≤ max →
  offer (xs ++ ys) c n max =
    let '(taken, c, stop) := offer xs c n max in
    if stop then (taken, c, true)
    else let '(taken', c, stop) := offer ys c (n + zlen taken) (max - zlen taken) in (taken ++ taken', c, stop).
Proof.
  revert c n max. induction xs as [|r xs IH]; intros c n max Hm; cbn [app offer].
  { change (zlen (@nil StorageRecord)) with 0. rewrite Z.add_0_r, Z.sub_0_r. by destruct (offer ys c n max) as [[? ?] ?]. }
  destruct (Z.eqb_spec max 0) as [-> |].
  { change (zlen (@nil StorageRecord)) with 0. by rewrite offer_none. }
  destruct (consumer c _) as [c1 [|]]; [|done]. rewrite IH by lia.
  destruct (offer xs c1 (n + 1) (max - 1)) as [[t c2] [|]]; [done|]. rewrite zlen_cons.
  replace (n + 1 + zlen t) with (n + (1 + zlen t)) by lia. replace (max - 1 - zlen t) with (max - (1 + zlen t)) by lia.
  by destruct (offer ys c2 _ _) as [[? ?] ?].
Qed.

(** The state of a retrieval after [taken]. *)
Definition after (s : @reading C) (taken : list StorageRecord) (c : C) (stop : bool) : reading :=
  Reading c (lease (reserved s) taken) (uncount (size s) taken) (maxCount s - zlen taken)
    (readCount s + zlen taken) stop.

Lemma after_nil s c stop : after s [] c stop = Reading c (reserved s) (size s) (maxCount s) (readCount s) stop.
Proof.
  unfold after, lease, uncount. change (zlen (@nil StorageRecord)) with 0. rewrite Z.sub_0_r, Z.add_0_r.
  by destruct (c_true _).
Qed.

Lemma after_none s : finished s = false → after s [] (sink s) false = s.
Proof. intros Hf. rewrite after_nil. destruct s; cbn in *; by subst. Qed.

Lemma read_queue_offer rq s : finished s = false → 0 ≤ maxCount s →
  ∃ taken c stop left, offer rq (sink s) (readCount s) (maxCount s) = (taken, c, stop) ∧
    rq = taken ++ left ∧
    read_queue sizeof_record consumer leaseTimeMs clock rq s = (left, after s taken c stop).
Proof.
  revert s. induction rq as [|r rq IH]; intros s Hf Hm; cbn [read_queue offer].
  { exists [], (sink s), false, []. by rewrite after_none. }
  destruct (Z.eqb_spec (maxCount s) 0) as [E|].
  { exists [], (sink s), false, (r :: rq). by rewrite after_none. }
  destruct (consumer (sink s) _) as [c [|]]; cbn [negb].
  - set (s1 := Reading c _ _ _ _ false). destruct (IH s1 eq_refl ltac:(cbn; lia)) as (t & c' & b & left & Eo & -> & Er).
    cbn in Eo. rewrite Eo. exists (r :: t), c', b, left. split_and!; try done. rewrite Er. f_equal.
    unfold after, lease, uncount, s1. cbn. rewrite zlen_cons. destruct (c_true _); f_equal; lia.
  - exists [], c, true, (r :: rq). by rewrite after_nil.
Qed.

Lemma after_after s t1 c1 t2 c2 stop : after (after s t1 c1 false) t2 c2 stop = after s (t1 ++ t2) c2 stop.
Proof.
  unfold after, lease, uncount. cbn. rewrite !foldl_app, !zlen_app. destruct (c_true _); f_equal; lia.
Qed.

(** The records of the queues [lats], in the order they are offered. *)
Definition candidates (queues : list (list StorageRecord)) (lats : list Z) : list StorageRecord :=
  concat (map (λ lat, rev (default [] (queues !! Z.to_nat lat))) lats).

Lemma candidates_insert queues lat q lats : 0 ≤ lat → Forall (λ l, 0 ≤ l ∧ l ≠ lat) lats →
  candidates (<[Z.to_nat lat := q]> queues) lats = candidates queues lats.
Proof.
  intros H0 Hl. unfold candidates. f_equal. apply map_ext_in. intros l Hin.
  rewrite Forall_forall in Hl. destruct (Hl l) as [? ?]; [by apply list_elem_of_In|].
  rewrite list_lookup_insert_ne by lia. done.
Qed.

Definition in_range (queues : list (list StorageRecord)) (lats : list Z) : Prop :=
  NoDup lats ∧ Forall (λ l, 0 ≤ l < zlen queues) lats.

Lemma read_queues_stop lats queues s : finished s = true ∨ maxCount s = 0 →
  read_queues sizeof_record consumer leaseTimeMs clock lats queues s = (queues, s).
Proof.
  intros H. destruct lats as [|l lats]; [done|]. cbn [read_queues].
  destruct H as [-> | ->]; [done|]. by rewrite orb_true_r.
Qed.

(** What is taken comes off the queues; what is left keeps its order. *)
Lemma read_queues_offer lats : ∀ queues s, finished s = false → 0 ≤ maxCount s → in_range queues lats →
  ∃ taken c stop queues',
    offer (candidates queues lats) (sink s) (readCount s) (maxCount s) = (taken, c, stop) ∧
    read_queues sizeof_record consumer leaseTimeMs clock lats queues s = (queues', after s taken c stop) ∧
    candidates queues lats = taken ++ candidates queues' lats ∧
    concat queues ≡ₚ taken ++ concat queues' ∧ length queues' = length queues ∧
    (∀ i q, queues' !! i = Some q → ∃ q0, queues !! i = Some q0 ∧ q `prefix_of` q0) ∧
    (∀ i, Z.of_nat i ∉ lats → queues' !! i = queues !! i).
Proof.
  induction lats as [|lat lats IH]; intros queues s Hf Hm [Hnd Hr].
  { exists [], (sink s), false, queues. split_and!; try done; [|intros ? q' ?; by exists q'].
    by rewrite after_none. }
  apply NoDup_cons in Hnd as [Hnin Hnd]. apply Forall_cons in Hr as [Hl Hr].
  assert (Forall (λ l, 0 ≤ l ∧ l ≠ lat) lats) as Hne.
  { rewrite Forall_forall in *. intros l Hin. split; [by apply Hr|]. intros ->. done. }
  destruct (lookup_lt_is_Some_2 queues (Z.to_nat lat)) as [q Eq]; [unfold zlen in Hl; lia|].
  assert (candidates queues (lat :: lats) = rev q ++ candidates queues lats) as Ec.
  { unfold candidates. cbn. by rewrite Eq. }
  rewrite Ec. cbn [read_queues]. rewrite Hf. cbn [orb]. destruct (Z.eqb_spec (maxCount s) 0) as [E0|Hpos].
  { exists [], (sink s), false, queues. rewrite E0, offer_none. split_and!; try done; [|intros ? q' ?; by exists q'].
    by rewrite after_none. }
  rewrite Eq. change (default [] (Some q)) with q. destruct (read_queue_offer (rev q) s Hf Hm) as (t1 & c1 & stop1 & left & Eo & El & Er).
  rewrite Er, offer_app, Eo by done. set (queues1 := <[Z.to_nat lat := rev left]> queues).
  assert (q = rev left ++ rev t1) as Eq1 by (by rewrite <-rev_app_distr, <-El, rev_involutive).
  assert (queues1 !! Z.to_nat lat = Some (rev left)) as El1.
  { unfold queues1. apply list_lookup_insert_eq. unfold zlen in Hl. lia. }
  assert (concat queues ≡ₚ t1 ++ concat queues1) as Hp.
  { pose proof (concat_insert queues (Z.to_nat lat) q (rev left) Eq) as Hp. fold queues1 in Hp.
    apply (Permutation_app_inv_r (rev left)). rewrite <-Hp, Eq1, <-(Permutation_rev t1).
    by rewrite (Permutation_app_comm (rev left)), app_assoc, (Permutation_app_comm (concat queues1)). }
  assert (candidates queues1 (lat :: lats) = left ++ candidates queues lats) as Ec1.
  { unfold candidates at 1. cbn. rewrite El1. cbn. rewrite rev_involutive. f_equal.
    fold (candidates queues1 lats). apply candidates_insert; [lia|done]. }
  assert (∀ i q', queues1 !! i = Some q' → ∃ q0, queues !! i = Some q0 ∧ q' `prefix_of` q0) as Hpre.
  { intros i q' E. destruct (decide (i = Z.to_nat lat)) as [->|].
    - rewrite El1 in E. injection E as <-. exists q. split; [done|]. rewrite Eq1. by apply prefix_app_r.
    - unfold queues1 in E. rewrite list_lookup_insert_ne in E by done. by exists q'. }
  destruct stop1.
  - exists t1, c1, true, queues1. split_and!; try done.
    + by rewrite read_queues_stop by (by left).
    + rewrite Ec1, app_assoc, <-El. done.
    + by apply length_insert.
    + intros i Hi. unfold queues1. rewrite list_lookup_insert_ne; [done|]. intros <-. apply Hi. rewrite Z2Nat.id by lia. by left.
  - destruct (offer_count _ _ _ _ _ _ _ Hm Eo) as (Hle & _).
    destruct (IH queues1 (after s t1 c1 false)) as (t2 & c2 & stop & queues' & Eo2 & Er2 & Ec2 & Hp2 & Hlen & Hpre2 & Hkeep).
    { done. } { cbn. lia. } { split; [done|]. unfold zlen, queues1. by rewrite length_insert. }
    assert (candidates queues1 lats = candidates queues lats) as Ecl by (apply candidates_insert; [lia|done]).
    rewrite Ecl in Eo2, Ec2. cbn in Eo2. rewrite Eo2.
    exists (t1 ++ t2), c2, stop, queues'. split_and!; try done.
    + by rewrite Er2, after_after.
    + assert (queues' !! Z.to_nat lat = Some (rev left)) as El2.
      { rewrite Hkeep; [done|]. by rewrite Z2Nat.id by lia. }
      unfold candidates at 2. cbn. rewrite El2. cbn. rewrite rev_involutive. fold (candidates queues' lats).
      destruct (decide (left = [])) as [-> |Hleft].
      * rewrite app_nil_r in El. rewrite El. cbn. rewrite Ec2. by rewrite app_assoc.
      * destruct (offer_count _ _ _ _ _ _ _ Hm Eo) as (_ & left' & E' & Hs). rewrite El in E'. apply app_inv_head in E'. subst left'.
        destruct (Hs eq_refl) as [|Hmax]; [done|]. rewrite <-Hmax, Z.sub_diag, offer_none in Eo2. injection Eo2 as <- _ _.
        rewrite app_nil_r, El, <-app_assoc. f_equal. cbn in Ec2. by rewrite Ec2.
    + rewrite Hp, Hp2. by rewrite app_assoc.
    + rewrite Hlen. apply length_insert.
    + intros i q' E. apply Hpre2 in E as (q1 & E1 & Hq1). apply Hpre in E1 as (q0 & E0 & Hq0). exists q0. split; [done|]. by trans q1.
    + intros i Hi. rewrite Hkeep by (intros ?; apply Hi; by right). unfold queues1. rewrite list_lookup_insert_ne; [done|].
      intros <-. apply Hi. rewrite Z2Nat.id by lia. by left.
Qed.

Lemma visited_in_range queues minLatency : length queues = 5%nat → EventLatency_Unspecified ≤ minLatency →
  in_range queues (visited minLatency).
Proof.
  unfold visited, EventLatency_Unspecified, EventLatency_Off, EventLatency_Max, in_range, zlen. intros -> Hmin.
  set (lo := if minLatency =? -1 then 0 else minLatency).
  assert (0 ≤ lo) by (unfold lo; destruct (Z.eqb_spec minLatency (-1)); lia). split.
  - rewrite <-Permutation_rev. apply NoDup_seqZ.
  - apply Forall_rev, Forall_forall. intros l [? ?]%elem_of_seqZ. lia.
Qed.

(** [maxCount] 0 stands for no limit. *)
Definition limit (maxCount : Z) : Z := if maxCount =? 0 then 2 ^ 32 - 1 else maxCount.

Lemma GetAndReserve_offered c minLatency maxCount m : length (m_records m) = 5%nat →
  EventLatency_Unspecified ≤ minLatency → 0 ≤ maxCount →
  ∃ taken c' stop queues',
    offer (candidates (m_records m) (visited minLatency)) c 0 (limit maxCount) = (taken, c', stop) ∧
    GetAndReserveRecords sizeof_record consumer leaseTimeMs clock c minLatency maxCount m =
      (c', MkMemory queues' (lease (m_reserved_records m) taken) (uncount (m_size m) taken) (zlen taken)) ∧
    candidates (m_records m) (visited minLatency) = taken ++ candidates queues' (visited minLatency) ∧
    concat (m_records m) ≡ₚ taken ++ concat queues' ∧ length queues' = 5%nat ∧
    (∀ i q, queues' !! i = Some q → ∃ q0, m_records m !! i = Some q0 ∧ q `prefix_of` q0) ∧
    (∀ i, Z.of_nat i ∉ visited minLatency → queues' !! i = m_records m !! i).
Proof.
  intros Hlen Hmin Hmax.
  destruct (read_queues_offer (visited minLatency) (m_records m)
    (Reading c (m_reserved_records m) (m_size m) (limit maxCount) 0 false))
    as (taken & c' & stop & queues' & Eo & Er & Ec & Hp & Hl & Hpre & Hkeep).
  { done. } { unfold limit. cbn. destruct (Z.eqb_spec maxCount 0); lia. } { by apply visited_in_range. }
  exists taken, c', stop, queues'. split_and!; try done; [|congruence].
  unfold GetAndReserveRecords. fold (limit maxCount). rewrite Er. done.
Qed.

(** C26. A retrieval is the reference one: the records are offered from the highest
    latency down to [minLatency], in a queue from the newest on; the consumer ends in
    the state the reference definition gives, the records it took are the ones that leave the queues (in
    [lease]'s order into the reserved ones when there is a lease time), what is left keeps its
    order, queues of a lower latency are untouched, and the read count is what was taken. *)
Theorem retrieval_order c minLatency maxCount m : length (m_records m) = 5%nat →
  EventLatency_Unspecified ≤ minLatency → 0 ≤ maxCount < 2 ^ 32 →
  let '(taken, c', _) := offer (candidates (m_records m) (visited minLatency)) c 0 (limit maxCount) in
  let '(c1, m1) := GetAndReserveRecords sizeof_record consumer leaseTimeMs clock c minLatency maxCount m in
  c1 = c' ∧ candidates (m_records m) (visited minLatency) = taken ++ candidates (m_records m1) (visited minLatency) ∧
  m_reserved_records m1 = lease (m_reserved_records m) taken ∧ LastReadRecordCount m1 = zlen taken ∧
  (∀ i, Z.of_nat i ∉ visited minLatency → m_records m1 !! i = m_records m !! i).
Proof.
  intros Hlen Hmin Hmax.
  destruct (GetAndReserve_offered c minLatency maxCount m Hlen Hmin) as (taken & c' & stop & queues' & Eo & -> & Ec & _ & _ & _ & Hk); [lia|].
  rewrite Eo. split_and!; try done. apply wrap_small. destruct (offer_count _ _ _ (limit maxCount) _ _ _ ltac:(unfold limit; destruct (maxCount =? 0); lia) Eo) as [Hle _].
  pose proof (zlen_nonneg taken). unfold limit in Hle. unfold ubits. destruct (Z.eqb_spec maxCount 0); lia.
Qed.

End Offer.

Definition ex_queue (i lat : Z) : StorageRecord := MkRecord [i] [] lat 1 0 [] 0 0.

(** A consumer that refuses the third record: two of latency 3, newest first, are taken. *)
Lemma retrieval_order_witness :
  let m := MkMemory [[]; [ex_queue 1 1]; []; [ex_queue 2 3; ex_queue 3 3]; []] [] 300 0 in
  let '(c, m1) := GetAndReserveRecords 100 (λ ids r, (ids ++ [id r], zlen ids <? 2)) 1000 (λ _, 5) [] 1 0 m in
  c = [[3]; [2]; [1]] ∧ LastReadRecordCount m1 = 2.
Proof.
  intros m. pose proof (retrieval_order 100 (λ ids r, (ids ++ [id r], zlen ids <? 2)) 1000 (λ _, 5) [] 1 0 m
    eq_refl ltac:(vm_compute; discriminate) ltac:(lia)) as H. vm_compute in H. vm_compute. tauto.
Defined.

End MemoryReads.
