(* ===== verification/MemoryInvariant.v ===== *)
(** * The invariant of the queue in memory

    Every record is in the queue of its latency or among the reserved ones under
    its identifier, and [m_size] is the exact size of what is queued, after any
    operations. *)

From Stdlib Require Import ZArith Lia Sorted.
From S2P Require Import Prelude StdMap MemoryStorage MemoryReads.

Module MemoryInvariant.
Import StdMap MemoryStorage MemoryReads.

Section Invariant.
Context (sizeof_record : Z) (Hsizeof : 0 ≤ sizeof_record).
Implicit Types (m : memory) (r : StorageRecord).

Definition total (rs : list StorageRecord) : Z := foldr (λ r n, record_size sizeof_record r + n) 0 rs.

Definition queued m : list StorageRecord := concat (m_records m).
Definition in_flight m : list StorageRecord := map snd (m_reserved_records m).

#[local] Arguments total : simpl never.
#[local] Arguments queued : simpl never.
#[local] Arguments in_flight : simpl never.

Record wf m : Prop := {
  wf_length : length (m_records m) = 5%nat;
  wf_latency : ∀ i q, m_records m !! i = Some q → Forall (λ r, latency r = Z.of_nat i ∧ latency r ≠ EventLatency_Off) q;
  wf_sorted : sorted (m_reserved_records m);
  wf_reserved : Forall (λ e, id e.2 = e.1 ∧ EventLatency_Normal ≤ latency e.2 ≤ EventLatency_Max) (m_reserved_records m);
  wf_size : m_size m = total (queued m);
  wf_room : total (queued m) + total (in_flight m) < 2 ^ 64
}.

(** ** Sizes *)

Lemma record_size_nonneg r : 0 ≤ record_size sizeof_record r.
Proof. unfold record_size. pose proof (zlen_nonneg (blob r)). lia. Qed.

Lemma total_cons r rs : total (r :: rs) = record_size sizeof_record r + total rs.
Proof. done. Qed.

Lemma total_nonneg rs : 0 ≤ total rs.
Proof. induction rs as [|r rs IH]; [done|]. rewrite total_cons. pose proof (record_size_nonneg r). lia. Qed.

Lemma total_app xs ys : total (xs ++ ys) = total xs + total ys.
Proof. induction xs as [|x xs IH]; [done|]. rewrite <-app_comm_cons, !total_cons, IH. lia. Qed.

Lemma total_perm xs ys : xs ≡ₚ ys → total xs = total ys.
Proof. induction 1; rewrite ?total_cons; lia. Qed.

(** Discounting never meets the bottom as long as the records are counted. *)
Lemma uncount_total size rs : total rs ≤ size → uncount sizeof_record size rs = size - total rs.
Proof.
  revert size. unfold uncount. induction rs as [|r rs IH]; intros size Hle; cbn [foldl]; [unfold total in *; cbn in *; lia|].
  rewrite total_cons in *. pose proof (total_nonneg rs). pose proof (record_size_nonneg r). rewrite IH; lia.
Qed.

Lemma map_set_total (s : smap StorageRecord) k r :
  total (map snd (map_set s k r)) ≤ total (map snd s) + record_size sizeof_record r.
Proof.
  induction s as [|[k' r'] s IH]; cbn [map_set map snd]; [rewrite total_cons; unfold total; cbn; lia|].
  pose proof (record_size_nonneg r'). case_match; cbn [map snd]; rewrite !total_cons; lia.
Qed.

(** ** Storing *)

Lemma queue_some m lat : length (m_records m) = 5%nat → 0 ≤ lat ≤ EventLatency_Max →
  ∃ q, queue m lat = Some q ∧ m_records m !! Z.to_nat lat = Some q.
Proof.
  intros Hl Hlat. unfold queue. destruct (Z.ltb_spec lat 0); [lia|]. unfold EventLatency_Max in Hlat.
  destruct (lookup_lt_is_Some_2 (m_records m) (Z.to_nat lat)) as [q Eq]; [lia|]. by exists q.
Qed.

Lemma queue_lookup m lat q : queue m lat = Some q → 0 ≤ lat ∧ m_records m !! Z.to_nat lat = Some q.
Proof. unfold queue. destruct (Z.ltb_spec lat 0); [done|]. done. Qed.

Lemma StoreRecord_queued m r ok m' : StoreRecord sizeof_record m r = Some (ok, m') →
  (ok = false ∧ m' = m ∧ latency r = EventLatency_Off) ∨
  (ok = true ∧ latency r ≠ EventLatency_Off ∧ 0 ≤ latency r ∧ queued m' ≡ₚ r :: queued m ∧
   m_reserved_records m' = m_reserved_records m ∧ m_size m' = u64 (m_size m + record_size sizeof_record r) ∧
   m_lastReadCount m' = m_lastReadCount m ∧
   ∃ q, m_records m !! Z.to_nat (latency r) = Some q ∧ m_records m' = <[Z.to_nat (latency r) := q ++ [r]]> (m_records m)).
Proof.
  unfold StoreRecord. destruct (Z.eqb_spec (latency r) EventLatency_Off) as [E|E].
  { intros [= <- <-]. by left. }
  match goal with |- context [queue ?x (latency r)] => destruct (queue x (latency r)) as [q|] eqn:Eq; [|done] end.
  apply queue_lookup in Eq as [Hl Eq]. cbn in Eq. intros [= <- <-]. right.
  split_and!; try done; [|by exists q]. unfold queued. cbn.
  pose proof (concat_insert (m_records m) _ q (q ++ [r]) Eq) as Hp.
  apply (Permutation_app_inv_r q). rewrite Hp.
  rewrite (Permutation_app_comm q), app_assoc, (Permutation_app_comm _ [r]). done.
Qed.

Lemma StoreRecord_wf m r ok m' : wf m → total (queued m) + total (in_flight m) + record_size sizeof_record r < 2 ^ 64 →
  StoreRecord sizeof_record m r = Some (ok, m') → wf m'.
Proof.
  intros Hwf Hroom E. apply StoreRecord_queued in E as [(_ & -> & _)|(_ & Hoff & H0 & Hp & Er & Es & _ & q & Eq & Em)]; [done|].
  destruct Hwf as [Hl Hlat Hs Hres Hsize Hrm].
  assert (total (queued m') = record_size sizeof_record r + total (queued m)) as Et by (by rewrite (total_perm _ _ Hp)).
  split.
  - by rewrite Em, length_insert.
  - rewrite Em. intros i q' [(<- & <- & _)|[_ E]]%list_lookup_insert_Some; [|by apply Hlat].
    apply Forall_app. split; [by apply Hlat|]. constructor; [|done]. split; [lia|done].
  - by rewrite Er.
  - by rewrite Er.
  - rewrite Es, Et, Hsize, Z.add_comm. apply wrap_small.
    pose proof (total_nonneg (queued m)). pose proof (total_nonneg (in_flight m)). pose proof (record_size_nonneg r). unfold ubits. lia.
  - unfold in_flight. rewrite Er. fold (in_flight m). lia.
Qed.

Lemma StoreRecord_stored m r : length (m_records m) = 5%nat → 0 ≤ latency r ≤ EventLatency_Max →
  ∃ ok m', StoreRecord sizeof_record m r = Some (ok, m').
Proof.
  intros Hl Hlat. unfold StoreRecord. case_match; [by eexists _, _|].
  destruct (queue_some (m <| m_size := u64 (m_size m + record_size sizeof_record r) |>) (latency r)) as (q & Eq & _); [done|done|].
  cbn zeta. rewrite Eq. by eexists _, _.
Qed.

(** ** Retrieving *)

Lemma lease_wf leaseTimeMs (s : smap StorageRecord) taken :
  Forall (λ r, EventLatency_Normal ≤ latency r ≤ EventLatency_Max) taken →
  sorted s → Forall (λ e, id e.2 = e.1 ∧ EventLatency_Normal ≤ latency e.2 ≤ EventLatency_Max) s →
  sorted (lease leaseTimeMs s taken) ∧
  Forall (λ e, id e.2 = e.1 ∧ EventLatency_Normal ≤ latency e.2 ≤ EventLatency_Max) (lease leaseTimeMs s taken) ∧
  total (map snd (lease leaseTimeMs s taken)) ≤ total (map snd s) + total taken.
Proof.
  intros Ht. unfold lease. destruct (c_true leaseTimeMs).
  2: { intros. split_and!; try done. pose proof (total_nonneg taken). lia. }
  revert s. induction Ht as [|r taken Hr Ht IH]; intros s Hs Hf; cbn [foldl]; [split_and!; [done..|unfold total; cbn; lia]|].
  destruct (IH (map_set s (id r) r)) as (Hs' & Hf' & Hle).
  - by apply map_set_sorted.
  - by apply map_set_Forall.
  - split_and!; try done. pose proof (map_set_total s (id r) r). rewrite total_cons. lia.
Qed.

Lemma wf_queued m : wf m → Forall (λ r, EventLatency_Normal ≤ latency r ≤ EventLatency_Max) (queued m).
Proof.
  intros Hwf. apply Forall_forall. intros r Hr. unfold queued in Hr.
  apply list_elem_of_In, in_concat in Hr as (q & [i Eq]%list_elem_of_In%list_elem_of_lookup & Hr%list_elem_of_In).
  pose proof (wf_latency m Hwf i q Eq) as Hf. rewrite Forall_forall in Hf. destruct (Hf r Hr) as [E Hoff].
  apply lookup_lt_Some in Eq. rewrite (wf_length m Hwf) in Eq.
  unfold EventLatency_Normal, EventLatency_Max, EventLatency_Off in *. lia.
Qed.

Lemma GetAndReserve_wf {C} (consumer : C → StorageRecord → C * bool) leaseTimeMs clock c minLatency maxCount m :
  wf m → EventLatency_Unspecified ≤ minLatency → 0 ≤ maxCount →
  wf (GetAndReserveRecords sizeof_record consumer leaseTimeMs clock c minLatency maxCount m).2.
Proof.
  intros Hwf Hmin Hmax.
  destruct (GetAndReserve_offered sizeof_record consumer leaseTimeMs clock c minLatency maxCount m (wf_length m Hwf) Hmin Hmax)
    as (taken & c' & stop & queues' & _ & -> & _ & Hp & Hl & Hpre & _).
  assert (total (queued m) = total taken + total (concat queues')) as Et by (by rewrite <-total_app; apply total_perm).
  pose proof (wf_queued m Hwf) as Hq. unfold queued in Hq. rewrite Hp in Hq. apply Forall_app in Hq as [Hq _].
  destruct (lease_wf leaseTimeMs (m_reserved_records m) taken) as (Hs & Hf & Hle); [done|apply Hwf..|].
  pose proof (total_nonneg (concat queues')). pose proof (wf_room m Hwf). unfold in_flight, queued in *.
  split; cbn; try done.
  - intros i q (q0 & Eq & [q' ->])%Hpre. apply (wf_latency m Hwf), Forall_app in Eq as [? _]. done.
  - rewrite uncount_total; rewrite (wf_size m Hwf); unfold queued; cbn [m_records]; lia.
  - unfold queued, in_flight. cbn [m_records m_reserved_records]. lia.
Qed.

(** ** Deleting *)

(** What a scan of the queues may do: records go, the others keep their order, and the
    size is that of what is left. *)
Definition scanned (queues : list (list StorageRecord)) (size : Z) (queues' : list (list StorageRecord)) (size' : Z) : Prop :=
  Forall2 (λ q' q, q' `sublist_of` q) queues' queues ∧ size' = size - (total (concat queues) - total (concat queues')).

Lemma total_sublist xs ys : xs `sublist_of` ys → total xs ≤ total ys.
Proof. intros [k Hp]%sublist_submseteq%submseteq_Permutation. rewrite (total_perm _ _ Hp), total_app. pose proof (total_nonneg k). lia. Qed.

Lemma concat_sublist {A} (qs qs' : list (list A)) :
  Forall2 (λ q' q, q' `sublist_of` q) qs' qs → concat qs' `sublist_of` concat qs.
Proof. induction 1; cbn; [done|]. by apply sublist_app. Qed.

Lemma scanned_wf m queues' size' : wf m → scanned (m_records m) (m_size m) queues' size' →
  wf (m <| m_records := queues' |> <| m_size := size' |>).
Proof.
  intros Hwf [Hsub Es]. pose proof (total_sublist _ _ (concat_sublist _ _ Hsub)). pose proof (wf_room m Hwf).
  unfold queued in *. split; cbn; try apply Hwf.
  - rewrite (Forall2_length _ _ _ Hsub). apply Hwf.
  - intros i q' E. destruct (Forall2_lookup_l _ _ _ _ _ Hsub E) as (q & Eq & Hq).
    pose proof (wf_latency m Hwf i q Eq) as Hf. rewrite Forall_forall in *. intros r Hr. apply Hf. by eapply elem_of_sublist.
  - rewrite Es, (wf_size m Hwf). unfold queued. cbn [m_records]. lia.
  - unfold queued, in_flight in *. cbn [m_records m_reserved_records]. lia.
Qed.

Lemma erase_queued_scanned ids q size : total q ≤ size →
  ∃ ids' q', erase_queued sizeof_record ids q size = (ids', q', size - (total q - total q')) ∧ q' `sublist_of` q.
Proof.
  revert ids size. induction q as [|r q IH]; intros ids size Hle; cbn [erase_queued].
  { exists ids, []. rewrite Z.sub_diag, Z.sub_0_r. done. }
  rewrite total_cons in Hle. pose proof (total_nonneg q). pose proof (record_size_nonneg r). destruct (in_set ids (id r)).
  - rewrite Z.min_r by lia. destruct (IH (set_erase ids (id r)) (size - record_size sizeof_record r)) as (ids' & q' & -> & Hs); [lia|].
    exists ids', q'. rewrite total_cons. split; [f_equal; lia|by constructor].
  - destruct (IH ids size) as (ids' & q' & -> & Hs); [lia|]. exists ids', (r :: q'). rewrite !total_cons.
    split; [f_equal; lia|by constructor].
Qed.

Lemma erase_matching_scanned w q size : total q ≤ size →
  ∃ q', erase_matching sizeof_record w q size = (q', size - (total q - total q')) ∧ q' = filter (λ r, matcher r w = false) q.
Proof.
  revert size. induction q as [|r q IH]; intros size Hle; cbn [erase_matching].
  { exists []. rewrite Z.sub_diag, Z.sub_0_r. done. }
  rewrite total_cons in Hle. pose proof (total_nonneg q). pose proof (record_size_nonneg r).
  rewrite filter_cons. destruct (matcher r w); [rewrite decide_False by discriminate|rewrite decide_True by reflexivity].
  - rewrite Z.min_r by lia. destruct (IH (size - record_size sizeof_record r)) as (q' & -> & Hs); [lia|].
    exists q'. rewrite total_cons. split; [f_equal; lia|done].
  - destruct (IH size) as (q' & -> & ->); [lia|]. eexists. split; [|reflexivity]. rewrite !total_cons. f_equal. lia.
Qed.

Lemma scanned_cons q q' queues queues' size size' : q' `sublist_of` q →
  scanned queues (size - (total q - total q')) queues' size' → scanned (q :: queues) size (q' :: queues') size'.
Proof. intros Hq [Hs Es]. split; [by constructor|]. cbn [concat]. rewrite !total_app. lia. Qed.

Lemma erase_queues_scanned ids queues size : total (concat queues) ≤ size →
  ∃ queues' size', erase_queues sizeof_record ids queues size = (queues', size') ∧ scanned queues size queues' size'.
Proof.
  revert ids size. induction queues as [|q queues IH]; intros ids size Hle; cbn [erase_queues].
  { exists [], size. repeat split; [constructor|cbn; lia]. }
  cbn [concat] in Hle. rewrite total_app in Hle. pose proof (total_nonneg (concat queues)).
  assert (∃ ids' q', match q, ids with _ :: _, _ :: _ => erase_queued sizeof_record ids q size | _, _ => (ids, q, size) end =
    (ids', q', size - (total q - total q')) ∧ q' `sublist_of` q) as (ids' & q' & -> & Hq).
  { assert (∃ ids' q', (ids, q, size) = (ids', q', size - (total q - total q')) ∧ q' `sublist_of` q) by (exists ids, q; split; [f_equal; lia|done]).
    destruct q, ids; try done. apply erase_queued_scanned. lia. }
  pose proof (total_sublist _ _ Hq). pose proof (total_nonneg q').
  destruct (IH ids' (size - (total q - total q'))) as (queues' & size' & -> & Hs); [lia|].
  exists (q' :: queues'), size'. split; [done|]. by apply scanned_cons.
Qed.

Lemma erase_matching_queues_scanned w queues size : total (concat queues) ≤ size →
  ∃ size', erase_matching_queues sizeof_record w queues size = (map (filter (λ r, matcher r w = false)) queues, size') ∧
    scanned queues size (map (filter (λ r, matcher r w = false)) queues) size'.
Proof.
  revert size. induction queues as [|q queues IH]; intros size Hle; cbn [erase_matching_queues map].
  { exists size. repeat split; [constructor|cbn; lia]. }
  cbn [concat] in Hle. rewrite total_app in Hle. pose proof (total_nonneg (concat queues)). pose proof (total_nonneg q).
  destruct (erase_matching_scanned w q size) as (q' & -> & ->); [lia|].
  set (q' := filter _ q). assert (q' `sublist_of` q) as Hq by apply sublist_filter. pose proof (total_sublist _ _ Hq).
  pose proof (total_nonneg q').
  destruct (IH (size - (total q - total q'))) as (size' & -> & Hs); [lia|].
  exists size'. split; [done|]. by apply scanned_cons.
Qed.

Lemma erase_ram_wf ids m : wf m → wf (erase_ram sizeof_record ids m).
Proof.
  intros Hwf. unfold erase_ram. destruct (erase_queues_scanned ids (m_records m) (m_size m)) as (queues' & size' & -> & Hs).
  - rewrite (wf_size m Hwf). reflexivity.
  - by apply scanned_wf.
Qed.

Lemma erase_reserved_sublist ids (s : smap StorageRecord) : (erase_reserved ids s).2 `sublist_of` s.
Proof.
  revert ids. induction s as [|[k r] s IH]; intros ids; cbn [erase_reserved]; [done|].
  destruct (in_set ids k); [by constructor|]. specialize (IH ids). destruct (erase_reserved ids s). by constructor.
Qed.

(** Reserved records may go. *)
Lemma reserved_wf m s : wf m → s `sublist_of` m_reserved_records m → wf (m <| m_reserved_records := s |>).
Proof.
  intros Hwf Hs. assert (total (map snd s) ≤ total (in_flight m)) as Hle.
  { apply total_sublist. unfold in_flight. clear Hwf. by induction Hs; cbn; constructor. }
  pose proof (wf_room m Hwf). split; cbn; try apply Hwf.
  - clear Hle. pose proof (wf_sorted m Hwf) as Hst. unfold sorted in *. induction Hs as [|e s s0 Hs IH|e s s0 Hs IH]; [done|..].
    + apply StronglySorted_inv in Hst as [Hst Hf]. constructor; [by apply IH|]. rewrite Forall_forall in *.
      intros e' He'. apply Hf. by eapply elem_of_sublist.
    + apply IH. by apply StronglySorted_inv in Hst as [? _].
  - pose proof (wf_reserved m Hwf) as Hf. rewrite Forall_forall in *. intros e He. apply Hf. by eapply elem_of_sublist.
  - unfold queued, in_flight in *. cbn [m_records m_reserved_records]. lia.
Qed.

Lemma DeleteRecords_wf ids m : wf m → wf (DeleteRecords sizeof_record ids m).
Proof.
  intros Hwf. unfold DeleteRecords. destruct (m_reserved_records m) as [|e s] eqn:Es; [by apply erase_ram_wf|]. rewrite <-Es.
  pose proof (erase_reserved_sublist ids (m_reserved_records m)) as Hs.
  destruct (erase_reserved ids (m_reserved_records m)) as [unseen kept]. cbn in Hs. apply (reserved_wf m) in Hs; [|done].
  destruct unseen; [done|by apply erase_ram_wf].
Qed.

Lemma DeleteRecords_where_wf w m : wf m → wf (DeleteRecords_where sizeof_record w m).
Proof.
  intros Hwf. unfold DeleteRecords_where. set (ids := map fst _).
  assert (wf (match ids with [] => m | _ => DeleteRecords sizeof_record ids m end)) as Hwf'.
  { destruct ids; [done|]. by apply DeleteRecords_wf. }
  set (m' := match ids with [] => m | _ => _ end) in *.
  destruct (erase_matching_queues_scanned w (m_records m') (m_size m')) as (size' & -> & Hs); [by rewrite (wf_size m' Hwf')|].
  by apply scanned_wf.
Qed.

Lemma DeleteAll_wf m : wf m → wf (DeleteAllRecords m).
Proof.
  intros Hwf. pose proof (wf_length m Hwf) as Hl. assert (concat (map (λ _, []) (m_records m)) = @nil StorageRecord) as E.
  { clear. by induction (m_records m). }
  split; cbn; try done.
  - by rewrite length_map.
  - intros i q Eq. apply list_lookup_fmap_Some in Eq as (? & -> & _). constructor.
  - constructor.
  - unfold queued. cbn. by rewrite E.
  - unfold queued, in_flight. cbn. by rewrite E.
Qed.

(** ** Releasing *)

Lemma retried_size inc r : record_size sizeof_record (retried inc r) = record_size sizeof_record r.
Proof. by destruct inc. Qed.
Lemma retried_latency inc r : latency (retried inc r) = latency r.
Proof. by destruct inc. Qed.
Lemma retried_id inc r : id (retried inc r) = id r.
Proof. by destruct inc. Qed.

Lemma in_set_spec (ids : list (list Z)) k : in_set ids k = true ↔ k ∈ ids.
Proof. apply bool_decide_eq_true. Qed.

Lemma StoreRecord_reserved m r ok m' s : StoreRecord sizeof_record m r = Some (ok, m') →
  StoreRecord sizeof_record (m <| m_reserved_records := s |>) r = Some (ok, m' <| m_reserved_records := s |>).
Proof.
  unfold StoreRecord. destruct (latency r =? EventLatency_Off); [by intros [= <- <-]|]. cbn. unfold queue. cbn.
  destruct (latency r <? 0); [by intros|]. destruct (m_records m !! Z.to_nat (latency r)); [|by intros]. by intros [= <- <-].
Qed.

Lemma total_split inc (ids : list (list Z)) (s : list (list Z * StorageRecord)) :
  total (map snd s) = total (map (λ e, retried inc e.2) (filter (λ e, e.1 ∈ ids) s)) + total (map snd (filter (λ e, e.1 ∉ ids) s)).
Proof.
  induction s as [|[k r] s IH]; [done|]. rewrite !filter_cons. cbn [map fst snd].
  destruct (decide (k ∈ ids)); [rewrite decide_False by tauto|rewrite decide_True by done];
    cbn [map fst snd]; rewrite !total_cons, ?retried_size; lia.
Qed.

(** The records named move to the back of their queues in the order of their
    identifiers; the others stay. *)
Lemma release_loop_spec inc (ids0 : list (list Z)) : ∀ (s : smap StorageRecord) (ids : list (list Z)) m, wf (m <| m_reserved_records := s |>) →
  (∀ e, e ∈ (s : list _) → e.1 ∈ ids ↔ e.1 ∈ ids0) →
  ∃ m', release_loop sizeof_record inc ids s m = Some (filter (λ e, e.1 ∉ ids0) (s : list _), m') ∧
    queued m' ≡ₚ map (λ e, retried inc e.2) (filter (λ e, e.1 ∈ ids0) (s : list _)) ++ queued m ∧
    m_lastReadCount m' = m_lastReadCount m ∧
    wf (m' <| m_reserved_records := filter (λ e, e.1 ∉ ids0) (s : list _) |>).
Proof.
  induction s as [|[k r] s IH]; intros ids m Hwf Hids; cbn [release_loop].
  { exists m. by split_and!. }
  assert (wf (m <| m_reserved_records := s |>)) as Hwf1.
  { refine (reserved_wf (m <| m_reserved_records := (k, r) :: s |>) s Hwf _). by constructor. }
  pose proof (wf_reserved _ Hwf) as Hf. cbn in Hf. apply Forall_cons in Hf as [[Hid Hlat] Hf]. cbn in Hid, Hlat.
  pose proof (wf_sorted _ Hwf) as Hsrt. cbn in Hsrt. pose proof (sorted_keys _ Hsrt) as Hnd. cbn in Hnd.
  apply NoDup_cons in Hnd as [Hk _].
  pose proof (wf_room _ Hwf) as Hroom. unfold queued, in_flight in Hroom. cbn in Hroom. rewrite total_cons in Hroom.
  destruct (Hids (k, r) ltac:(by left)) as [Hin1 Hin2]. cbn in Hin1, Hin2. rewrite !filter_cons. cbn.
  destruct (in_set ids k) eqn:Ein.
  - apply in_set_spec in Ein. rewrite decide_False, decide_True by tauto.
    destruct (StoreRecord_stored m (retried inc r)) as (ok & m1 & Est); [apply Hwf|rewrite retried_latency; unfold EventLatency_Normal in Hlat; lia|].
    rewrite Est. pose proof (StoreRecord_reserved _ _ _ _ s Est) as Est'.
    apply StoreRecord_queued in Est as [(_ & _ & Hoff)|(_ & _ & _ & Hq & _ & _ & Hc & _)].
    { rewrite retried_latency in Hoff. unfold EventLatency_Normal, EventLatency_Off in *. lia. }
    destruct (IH (set_erase ids k) m1) as (m' & -> & Hq' & Hc' & Hwf').
    + eapply StoreRecord_wf; [exact Hwf1| |exact Est']. rewrite retried_size. unfold queued, in_flight. cbn. lia.
    + intros e He. unfold set_erase. rewrite list_elem_of_filter, <-Hids by (by right). split; [tauto|]. intros; split; [|done].
      intros E. apply Hk, list_elem_of_fmap. by exists e.
    + exists m'. split_and!; [done| |congruence|done]. rewrite Hq', Hq. cbn. by rewrite Permutation_middle.
  - assert (k ∉ ids) by (rewrite <-in_set_spec; congruence). rewrite decide_True, decide_False by tauto.
    destruct (IH ids m Hwf1) as (m' & -> & Hq' & Hc' & Hwf'); [intros e He; apply Hids; by right|].
    exists m'. split_and!; try done. set (kept := filter (λ e, e.1 ∉ ids0) (s : list _)) in *.
    assert (total (queued m') + total (map snd kept) = total (queued m) + total (map snd s)) as Et.
    { rewrite (total_perm _ _ Hq'), total_app, (total_split inc ids0 s). fold kept. lia. }
    destruct Hwf' as [H1 H2 H3 H4 H5 H6]. cbn in *. split; cbn; try done.
    + apply StronglySorted_inv in Hsrt as [_ Hlt]. constructor; [done|]. rewrite Forall_forall in *. intros e [_ He]%list_elem_of_filter. by apply Hlt.
    + by constructor.
    + unfold queued, in_flight in *. cbn in *. rewrite total_cons. lia.
Qed.

Lemma ReleaseRecords_spec ids inc m : wf m →
  ∃ m', ReleaseRecords sizeof_record ids inc m = Some m' ∧ wf m' ∧
    queued m' ≡ₚ map (λ e, retried inc e.2) (filter (λ e, e.1 ∈ ids) (m_reserved_records m : list _)) ++ queued m ∧
    m_reserved_records m' = filter (λ e, e.1 ∉ ids) (m_reserved_records m : list _) ∧
    m_lastReadCount m' = m_lastReadCount m.
Proof.
  intros Hwf. unfold ReleaseRecords.
  destruct (release_loop_spec inc ids (m_reserved_records m) ids m) as (m' & -> & Hq & Hc & Hwf'); [by destruct m|done|].
  eexists. by split_and!.
Qed.

(** [ReleaseAllRecords] is [ReleaseRecords] of every reserved identifier. *)
Lemma release_all_loop : ∀ (s : smap StorageRecord) m, NoDup (map fst s) →
  release_all sizeof_record s m =
    match release_loop sizeof_record false (map fst s) s m with
    | None => None | Some (kept, m) => Some (m <| m_reserved_records := kept |>)
    end.
Proof.
  assert (∀ (s : smap StorageRecord) (ids : list (list Z)) m, NoDup (map fst s) → (∀ e, e ∈ (s : list _) → e.1 ∈ ids) →
    release_all sizeof_record s m = match release_loop sizeof_record false ids s m with
    | None => None | Some (kept, m) => Some (m <| m_reserved_records := kept |>) end) as H.
  { induction s as [|[k r] s IH]; intros ids m Hnd Hin; cbn [release_all release_loop]; [done|].
    cbn in Hnd. apply NoDup_cons in Hnd as [Hk Hnd].
    rewrite (proj2 (in_set_spec ids k)) by (apply (Hin (k, r)); by left). cbn [retried].
    destruct (StoreRecord sizeof_record m r) as [[ok m1]|]; [|done]. apply IH; [done|].
    intros e He. unfold set_erase. apply list_elem_of_filter. split; [|apply Hin; by right].
    intros E. apply Hk, list_elem_of_fmap. by exists e. }
  intros s m Hnd. apply H; [done|]. intros e He. apply list_elem_of_fmap. by exists e.
Qed.

Lemma ReleaseAll_spec m : wf m →
  ReleaseAllRecords sizeof_record m = ReleaseRecords sizeof_record (map fst (m_reserved_records m)) false m.
Proof. intros Hwf. apply release_all_loop, sorted_keys, Hwf. Qed.

(** ** Every operation *)

(** The calls of the storage. *)
Inductive call :=
  | Store (r : StorageRecord)
  | Reserve (leaseTimeMs minLatency maxCount : Z)
  | Delete (ids : list (list Z))
  | DeleteWhere (whereFilter : smap (list Z))
  | DeleteAll
  | Release (ids : list (list Z)) (incrementRetryCount : bool)
  | ReleaseAll.

(** A step is one call; a record is stored only while what is held fits the address
    space. The consumer of a retrieval and the clock are the caller's. *)
Inductive step : call → memory → memory → Prop :=
  | step_store m r ok m' :
      total (queued m) + total (in_flight m) + record_size sizeof_record r < 2 ^ 64 →
      StoreRecord sizeof_record m r = Some (ok, m') → step (Store r) m m'
  | step_reserve (C : Type) (consumer : C → StorageRecord → C * bool) leaseTimeMs clock c minLatency maxCount m :
      EventLatency_Unspecified ≤ minLatency → 0 ≤ maxCount →
      step (Reserve leaseTimeMs minLatency maxCount) m
        (GetAndReserveRecords sizeof_record consumer leaseTimeMs clock c minLatency maxCount m).2
  | step_delete ids m : step (Delete ids) m (DeleteRecords sizeof_record ids m)
  | step_delete_where w m : step (DeleteWhere w) m (DeleteRecords_where sizeof_record w m)
  | step_delete_all m : step DeleteAll m (DeleteAllRecords m)
  | step_release ids inc m m' : ReleaseRecords sizeof_record ids inc m = Some m' → step (Release ids inc) m m'
  | step_release_all m m' : ReleaseAllRecords sizeof_record m = Some m' → step ReleaseAll m m'.

Lemma step_wf c m m' : step c m m' → wf m → wf m'.
Proof.
  intros [m0 r ok m1 Hroom E|C consumer leaseTimeMs clock c0 minLatency maxCount m0|ids m0|w m0|m0|ids inc m0 m1 E|m0 m1 E] Hwf.
  - by eapply StoreRecord_wf.
  - by apply GetAndReserve_wf.
  - by apply DeleteRecords_wf.
  - by apply DeleteRecords_where_wf.
  - by apply DeleteAll_wf.
  - destruct (ReleaseRecords_spec ids inc m0 Hwf) as (m2 & E' & ? & _). congruence.
  - rewrite ReleaseAll_spec in E by done.
    destruct (ReleaseRecords_spec (map fst (m_reserved_records m0)) false m0 Hwf) as (m2 & E' & ? & _). congruence.
Qed.

(** A sequence of calls. *)
Inductive steps : list call → memory → memory → Prop :=
  | steps_nil m : steps [] m m
  | steps_cons c cs m1 m2 m3 : step c m1 m2 → steps cs m2 m3 → steps (c :: cs) m1 m3.

Lemma new_storage_wf : wf new_storage.
Proof.
  split; cbn; try done; [|by constructor..]. intros i q Eq. do 5 (destruct i as [|i]; [injection Eq as <-; constructor|]). done.
Qed.

Lemma steps_wf cs m m' : steps cs m m' → wf m → wf m'.
Proof. induction 1; eauto using step_wf. Qed.

Lemma concat_zlen {A} (qs : list (list A)) : foldr (λ q n, zlen q + n) 0 qs = zlen (concat qs).
Proof. induction qs as [|q qs IH]; [done|]. cbn. rewrite IH, zlen_app. done. Qed.

(** C25. In every state reached by storing, retrieving, deleting and releasing records,
    in any order, the size the storage reports is exactly the size of the records that
    are queued (so the unsigned counter has not wrapped, and the [std::min] guards of the
    subtractions have not hidden an underflow), the record count it reports is their
    number, and no release fails. *)
Theorem reported_size_exact cs m : steps cs new_storage m →
  GetSize m = total (queued m) ∧ GetSize m < 2 ^ 64 ∧
  GetRecordCount EventLatency_Unspecified m = Some (zlen (queued m)) ∧
  (∀ ids inc, is_Some (ReleaseRecords sizeof_record ids inc m)).
Proof.
  intros Hs. pose proof (steps_wf _ _ _ Hs new_storage_wf) as Hwf. pose proof (wf_room m Hwf). pose proof (total_nonneg (in_flight m)).
  unfold GetSize. split_and!; [apply Hwf|rewrite (wf_size m Hwf); lia| |].
  - unfold GetRecordCount. cbn. by rewrite concat_zlen.
  - intros ids inc. destruct (ReleaseRecords_spec ids inc m Hwf) as (m' & -> & _). done.
Qed.

End Invariant.

Definition ex_record (i lat : Z) : StorageRecord := MkRecord [i] [7] lat 1 0 [1; 2; 3] 0 0.

(** Two records stored, one of them retrieved and given back. *)
Definition ex_memory : memory :=
  MkMemory [[]; [ex_record 65 1]; []; [(ex_record 66 3) <| retryCount := 1 |>]; []] [] 206 1.

Lemma reported_size_witness : GetSize ex_memory = total 100 (queued ex_memory) ∧ GetSize ex_memory = 206.
Proof.
  split; [|done]. apply (reported_size_exact 100 ltac:(lia)
    [Store (ex_record 65 1); Store (ex_record 66 3); Reserve 1000 1 1; Release [[66]] true]).
  eapply steps_cons; [by eapply (step_store 100 new_storage)|].
  eapply steps_cons; [by eapply (step_store 100 _ (ex_record 66 3))|].
  eapply steps_cons; [by eapply (step_reserve 100 unit (λ c _, (c, true)) 1000 (λ _, 0) () 1 1)|].
  eapply steps_cons; [|apply steps_nil]. apply step_release. vm_compute. reflexivity.
Defined.

End MemoryInvariant.
