(* ===== verification/MemoryRefinement.v ===== *)
(** * The queue in memory as two maps

    The contract of a storage: records are available or leased, under their
    identifiers. Storing makes a record available, a retrieval leases records of the
    highest latencies, deleting removes them from both maps, releasing makes leased
    records available again. [MemoryStorage] implements it. *)

From Stdlib Require Import ZArith Lia Sorted.
From stdpp Require Import gmap sorting.
From S2P Require Import Prelude StdMap MemoryStorage MemoryReads MemoryInvariant.

Module MemoryRefinement.
Import StdMap MemoryStorage MemoryReads MemoryInvariant.

(** ** The contract *)

Abbreviation records := (gmap (list Z) StorageRecord).

Record contents := Contents { available : records; leased : records }.

Definition fresh (a : contents) (r : StorageRecord) : Prop :=
  available a !! id r = None ∧ leased a !! id r = None.

(** What a call may do to the contents. *)
Inductive spec : call → contents → contents → Prop :=
  | spec_refused a r : latency r = EventLatency_Off → spec (Store r) a a
  | spec_store a r : latency r ≠ EventLatency_Off →
      spec (Store r) a (Contents (<[id r := r]> (available a)) (leased a))
  | spec_reserve a taken leaseTimeMs minLatency maxCount :
      taken ⊆ available a →
      Z.of_nat (base.size taken) ≤ limit maxCount →
      (∀ k r, taken !! k = Some r → minLatency ≤ latency r) →
      (∀ k r k' r', taken !! k = Some r → available a !! k' = Some r' → taken !! k' = None → latency r' ≤ latency r) →
      spec (Reserve leaseTimeMs minLatency maxCount) a
        (Contents (available a ∖ taken) (if c_true leaseTimeMs then taken ∪ leased a else leased a))
  | spec_delete a ids :
      spec (Delete ids) a
        (Contents (filter (λ e, e.1 ∉ ids) (available a)) (filter (λ e, e.1 ∉ ids) (leased a)))
  | spec_delete_where a w :
      spec (DeleteWhere w) a
        (Contents (filter (λ e, matcher e.2 w = false) (available a)) (filter (λ e, matcher e.2 w = false) (leased a)))
  | spec_delete_all a : spec DeleteAll a (Contents ∅ ∅)
  | spec_release a ids inc :
      spec (Release ids inc) a
        (Contents ((retried inc <$> filter (λ e, e.1 ∈ ids) (leased a)) ∪ available a) (filter (λ e, e.1 ∉ ids) (leased a)))
  | spec_release_all a : spec ReleaseAll a (Contents (leased a ∪ available a) ∅).

Inductive specs : list call → contents → contents → Prop :=
  | specs_nil a : specs [] a a
  | specs_cons c cs a1 a2 a3 : spec c a1 a2 → specs cs a2 a3 → specs (c :: cs) a1 a3.

(** ** Records by identifier *)

Definition index (rs : list StorageRecord) : records := list_to_map (map (λ r, (id r, r)) rs).

Definition contents_of (m : memory) : contents := Contents (index (queued m)) (index (in_flight m)).

Definition unique (m : memory) : Prop := NoDup (map id (queued m ++ in_flight m)).

Section Index.
Implicit Types rs : list StorageRecord.

Lemma index_keys rs : (map (λ r, (id r, r)) rs).*1 = map id rs.
Proof. change ((map (λ r, (id r, r)) rs).*1) with (map fst (map (λ r, (id r, r)) rs)). by rewrite map_map. Qed.

Lemma index_elem rs k r : NoDup (map id rs) → index rs !! k = Some r ↔ r ∈ rs ∧ id r = k.
Proof.
  intros Hnd. unfold index. rewrite <-elem_of_list_to_map by (by rewrite (index_keys rs)).
  rewrite list_elem_of_fmap. split.
  - intros (r' & [= -> ->] & Hin). done.
  - intros [Hin <-]. by exists r.
Qed.

Lemma index_none rs k : index rs !! k = None ↔ k ∉ map id rs.
Proof. unfold index. rewrite <-not_elem_of_list_to_map. by rewrite (index_keys rs). Qed.

Lemma index_perm rs rs' : NoDup (map id rs) → rs ≡ₚ rs' → index rs = index rs'.
Proof.
  intros Hnd Hp. apply list_to_map_proper; [by rewrite (index_keys rs)|]. by apply (fmap_Permutation (λ r, (id r, r))).
Qed.

Lemma index_cons r rs : index (r :: rs) = <[id r := r]> (index rs).
Proof. done. Qed.

Lemma index_app rs rs' : index (rs ++ rs') = index rs ∪ index rs'.
Proof. unfold index. rewrite map_app. apply list_to_map_app. Qed.

Lemma index_filter (P : StorageRecord → Prop) `{!∀ r, Decision (P r)} rs : NoDup (map id rs) →
  index (filter P rs) = filter (λ e, P e.2) (index rs).
Proof.
  intros Hnd. assert (NoDup (map id (filter P rs))) as Hnd'.
  { eapply sublist_NoDup; [exact Hnd|]. clear. induction rs as [|r rs IH]; [done|]. rewrite filter_cons. case_decide; cbn; by constructor. }
  apply map_eq. intros k. apply option_eq. intros r.
  rewrite index_elem, map_lookup_filter_Some, index_elem by done. rewrite list_elem_of_filter. cbn. tauto.
Qed.

Lemma index_filter_ids (Q : list Z → Prop) `{!∀ k, Decision (Q k)} rs : NoDup (map id rs) →
  index (filter (λ r, Q (id r)) rs) = filter (λ e, Q e.1) (index rs).
Proof.
  intros Hnd. rewrite index_filter by done. apply map_filter_ext. intros k r E. cbn. apply index_elem in E as [_ <-]; done.
Qed.

Lemma index_size rs : NoDup (map id rs) → Z.of_nat (base.size (index rs)) = zlen rs.
Proof.
  induction rs as [|r rs IH]; [done|]. intros Hnd. cbn [map] in Hnd. apply NoDup_cons in Hnd as [Hr Hnd].
  rewrite index_cons, map_size_insert_None by (by apply index_none).
  rewrite zlen_cons, <-IH by done. lia.
Qed.

End Index.

(** ** What the operations do to the records *)

Section Operations.
Context (sizeof_record : Z) (Hsizeof : 0 ≤ sizeof_record).
Implicit Types (m : memory) (ids : list (list Z)).

Abbreviation wf := (wf sizeof_record).

Lemma filter_all {A} (P : A → Prop) `{!∀ x, Decision (P x)} (l : list A) : Forall P l → filter P l = l.
Proof. induction 1 as [|x l Hx _ IH]; [done|]. by rewrite filter_cons, decide_True, IH. Qed.

Lemma wf_key m e : wf m → e ∈ (m_reserved_records m : list _) → id e.2 = e.1.
Proof. intros Hwf He. pose proof (wf_reserved _ m Hwf) as Hf. rewrite Forall_forall in Hf. by apply Hf. Qed.

Lemma in_flight_keys m : wf m → map id (in_flight m) = map fst (m_reserved_records m).
Proof.
  intros Hwf. unfold in_flight. rewrite map_map. apply map_ext_in. intros e He%list_elem_of_In. by apply (wf_key m).
Qed.

(** Filtering the map of reserved records by key filters the records by identifier. *)
Lemma in_flight_filter (P : list Z → Prop) `{!∀ k, Decision (P k)} (s : list (list Z * StorageRecord)) :
  Forall (λ e, id e.2 = e.1) s → map snd (filter (λ e, P e.1) s) = filter (λ r, P (id r)) (map snd s).
Proof.
  induction 1 as [|[k r] s E _ IH]; [done|]. cbn in E. subst k. cbn [map snd]. rewrite !filter_cons. cbn [fst].
  case_decide; cbn [map snd]; by rewrite IH.
Qed.

Lemma map_set_perm (s : smap StorageRecord) k r : k ∉ map fst s → map_set s k r ≡ₚ (k, r) :: s.
Proof.
  induction s as [|[k' r'] s IH]; [done|]. cbn [map fst map_set]. intros [Hk Hs]%not_elem_of_cons.
  destruct (key_compare k k') eqn:E; [apply key_eq in E; congruence|done|]. rewrite IH by done. apply Permutation_swap.
Qed.

Lemma lease_in_flight leaseTimeMs taken : ∀ s : smap StorageRecord, NoDup (map id taken ++ map fst s) →
  map snd (lease leaseTimeMs s taken) ≡ₚ (if c_true leaseTimeMs then taken else []) ++ map snd s.
Proof.
  unfold lease. destruct (c_true leaseTimeMs); [|done].
  induction taken as [|r taken IH]; intros s Hnd; cbn [foldl]; [done|]. cbn in Hnd. apply NoDup_cons in Hnd as [Hr Hnd].
  apply not_elem_of_app in Hr as [Hr Hs]. pose proof (map_set_perm s (id r) r Hs) as Hp.
  rewrite IH.
  - rewrite Hp. cbn. by rewrite Permutation_middle.
  - rewrite Hp. cbn. rewrite <-Permutation_middle. apply NoDup_cons. split; [|done]. by apply not_elem_of_app.
Qed.

Lemma filter_concat {A} (P : A → Prop) `{!∀ x, Decision (P x)} (qs : list (list A)) :
  concat (map (filter P) qs) = filter P (concat qs).
Proof. induction qs as [|q qs IH]; [done|]. cbn. by rewrite filter_app, IH. Qed.

(** The scans remove what they name, since an identifier appears once. *)
Lemma erase_queued_filter ids0 q : ∀ ids size, NoDup (map id q) → (∀ r, r ∈ q → id r ∈ ids ↔ id r ∈ ids0) →
  ∃ ids' size', erase_queued sizeof_record ids q size = (ids', filter (λ r, id r ∉ ids0) q, size') ∧
    (∀ k, k ∉ map id q → k ∈ ids' ↔ k ∈ ids).
Proof.
  induction q as [|r q IH]; intros ids size Hnd Hids; cbn [erase_queued]; [by eexists _, _|].
  cbn in Hnd. apply NoDup_cons in Hnd as [Hr Hnd]. destruct (Hids r ltac:(by left)) as [H1 H2]. rewrite filter_cons.
  destruct (in_set ids (id r)) eqn:Ein.
  - apply in_set_spec in Ein. rewrite decide_False by tauto.
    destruct (IH (set_erase ids (id r)) (size - Z.min size (record_size sizeof_record r))) as (ids' & size' & -> & Hk); [done| |].
    + intros r' Hr'. unfold set_erase. rewrite list_elem_of_filter, <-Hids by (by right). split; [tauto|]. intros; split; [|done].
      intros E. apply Hr. rewrite <-E. apply list_elem_of_fmap. by exists r'.
    + exists ids', size'. split; [done|]. intros k [Hne Hn]%not_elem_of_cons. rewrite Hk by done. unfold set_erase.
      rewrite list_elem_of_filter. tauto.
  - assert (id r ∉ ids) by (rewrite <-in_set_spec; congruence). rewrite decide_True by tauto.
    destruct (IH ids size) as (ids' & size' & -> & Hk); [done|intros; apply Hids; by right|].
    exists ids', size'. split; [done|]. intros k [Hne Hn]%not_elem_of_cons. by apply Hk.
Qed.

Lemma erase_queues_filter ids0 queues : ∀ ids size, NoDup (map id (concat queues)) →
  (∀ r, r ∈ concat queues → id r ∈ ids ↔ id r ∈ ids0) →
  (erase_queues sizeof_record ids queues size).1 = map (filter (λ r, id r ∉ ids0)) queues.
Proof.
  induction queues as [|q queues IH]; intros ids size Hnd Hids; cbn [erase_queues map]; [done|].
  cbn [concat] in Hnd, Hids. rewrite map_app in Hnd. apply NoDup_app in Hnd as (Hq & Hdis & Hnd).
  assert (∃ ids' size', match q, ids with _ :: _, _ :: _ => erase_queued sizeof_record ids q size | _, _ => (ids, q, size) end =
    (ids', filter (λ r, id r ∉ ids0) q, size') ∧ (∀ k, k ∉ map id q → k ∈ ids' ↔ k ∈ ids)) as (ids' & size' & -> & Hk).
  { destruct ids as [|k ids].
    - exists [], size. split; [|done]. rewrite filter_all; [by destruct q|]. apply Forall_forall. intros r Hr E%Hids.
      + by apply not_elem_of_nil in E.
      + apply elem_of_app. by left.
    - destruct q as [|r q]; [by exists (k :: ids), size|].
      apply erase_queued_filter; [done|]. intros r' Hr'. apply Hids, elem_of_app. by left. }
  specialize (IH ids' size' Hnd). destruct (erase_queues sizeof_record ids' queues size') as [qs sz]. cbn in *. rewrite IH; [done|].
  intros r Hr. rewrite Hk; [apply Hids, elem_of_app; by right|]. intros Hin. apply (Hdis _ Hin), list_elem_of_fmap. by exists r.
Qed.

Lemma erase_reserved_filter ids0 (s : smap StorageRecord) : ∀ ids, NoDup (map fst s) →
  (∀ e, e ∈ (s : list _) → e.1 ∈ ids ↔ e.1 ∈ ids0) →
  (erase_reserved ids s).2 = filter (λ e, e.1 ∉ ids0) (s : list _) ∧
  ∀ k, k ∈ (erase_reserved ids s).1 ↔ k ∈ ids ∧ k ∉ map fst s.
Proof.
  induction s as [|[k r] s IH]; intros ids Hnd Hids; cbn [erase_reserved].
  { split; [done|]. intros k. rewrite elem_of_nil. tauto. }
  cbn [map fst] in *. apply NoDup_cons in Hnd as [Hk Hnd]. destruct (Hids (k, r) ltac:(by left)) as [H1 H2]. cbn in H1, H2.
  rewrite filter_cons. cbn [fst]. destruct (in_set ids k) eqn:Ein.
  - apply in_set_spec in Ein. rewrite decide_False by tauto. destruct (IH (set_erase ids k) Hnd) as [E Hu].
    + intros e He. unfold set_erase. rewrite list_elem_of_filter, <-Hids by (by right). split; [tauto|]. intros; split; [|done].
      intros E. apply Hk. rewrite <-E. apply list_elem_of_fmap. by exists e.
    + split; [done|]. intros k'. rewrite Hu. unfold set_erase. rewrite list_elem_of_filter, elem_of_cons. tauto.
  - assert (k ∉ ids) by (rewrite <-in_set_spec; congruence). rewrite decide_True by tauto.
    destruct (IH ids Hnd) as [E Hu]; [intros; apply Hids; by right|]. destruct (erase_reserved ids s) as [u kept]. cbn in *.
    split; [by rewrite E|]. intros k'. rewrite Hu, elem_of_cons. split; [|tauto].
    intros [Hi Hn]. split; [done|]. by intros [->|?].
Qed.

Lemma erase_ram_filter ids m : NoDup (map id (queued m)) →
  queued (erase_ram sizeof_record ids m) = filter (λ r, id r ∉ ids) (queued m) ∧
  m_reserved_records (erase_ram sizeof_record ids m) = m_reserved_records m.
Proof.
  intros Hnd. unfold erase_ram. pose proof (erase_queues_filter ids (m_records m) ids (m_size m) Hnd ltac:(done)) as E.
  destruct (erase_queues sizeof_record ids (m_records m) (m_size m)) as [qs sz]. cbn in E. unfold queued. cbn. by rewrite E, filter_concat.
Qed.

Lemma unique_split m : unique m →
  NoDup (map id (queued m)) ∧ NoDup (map id (in_flight m)) ∧ (∀ k, k ∈ map id (queued m) → k ∉ map id (in_flight m)).
Proof. unfold unique. rewrite map_app. intros (? & ? & ?)%NoDup_app. done. Qed.

Lemma DeleteRecords_filter ids m : wf m → unique m →
  queued (DeleteRecords sizeof_record ids m) = filter (λ r, id r ∉ ids) (queued m) ∧
  in_flight (DeleteRecords sizeof_record ids m) = filter (λ r, id r ∉ ids) (in_flight m).
Proof.
  intros Hwf Hu. apply unique_split in Hu as (Hq & Hf & Hdis). unfold DeleteRecords.
  assert (Forall (λ e, id e.2 = e.1) (m_reserved_records m)) as Hkeys by (apply Forall_forall; intros e He; by apply (wf_key m)).
  destruct (m_reserved_records m) as [|e s] eqn:Es.
  { destruct (erase_ram_filter ids m Hq) as [E1 E2]. split; [done|]. unfold in_flight. by rewrite E2, Es. }
  rewrite <-Es in *. pose proof (in_flight_keys m Hwf) as Ek.
  destruct (erase_reserved_filter ids (m_reserved_records m) ids) as [E Hun]; [by rewrite <-Ek|done|].
  destruct (erase_reserved ids (m_reserved_records m)) as [unseen kept]. cbn in E, Hun.
  destruct unseen as [|k unseen].
  - split.
    + unfold queued at 1. cbn. fold (queued m). rewrite filter_all; [done|]. apply Forall_forall. intros r Hr Hin.
      specialize (Hun (id r)). rewrite elem_of_nil in Hun. apply Hun. split; [done|].
      rewrite <-Ek. apply Hdis, list_elem_of_fmap. by exists r.
    + unfold in_flight. cbn. rewrite E. exact (in_flight_filter (λ k, k ∉ ids) _ Hkeys).
  - destruct (erase_ram_filter ids (m <| m_reserved_records := kept |>)) as [E1 E2]; [exact Hq|]. split; [exact E1|].
    unfold in_flight. rewrite E2. cbn. rewrite E. exact (in_flight_filter (λ k, k ∉ ids) _ Hkeys).
Qed.

Lemma filter_ext_in {A} (P Q : A → Prop) `{!∀ x, Decision (P x)} `{!∀ x, Decision (Q x)} (l : list A) :
  (∀ x, x ∈ l → P x ↔ Q x) → filter P l = filter Q l.
Proof.
  induction l as [|x l IH]; intros Heq; [done|]. rewrite !filter_cons, IH by (intros; apply Heq; by right).
  specialize (Heq x ltac:(by left)). by repeat case_decide; try tauto.
Qed.

(** An identifier names one record in flight. *)
Lemma in_flight_inj m r r' : NoDup (map id (in_flight m)) → r ∈ in_flight m → r' ∈ in_flight m → id r = id r' → r = r'.
Proof.
  intros Hnd Hr Hr' E. assert (index (in_flight m) !! id r = Some r) as E1 by (by apply index_elem).
  assert (index (in_flight m) !! id r = Some r') as E2 by (by apply index_elem). congruence.
Qed.

Lemma DeleteRecords_where_filter w m : wf m → unique m →
  queued (DeleteRecords_where sizeof_record w m) = filter (λ r, matcher r w = false) (queued m) ∧
  in_flight (DeleteRecords_where sizeof_record w m) = filter (λ r, matcher r w = false) (in_flight m).
Proof.
  intros Hwf Hu. pose proof (unique_split m Hu) as (Hq & Hf & Hdis). unfold DeleteRecords_where.
  set (ids := map fst (filter (λ kv, matcher kv.2 w = true) (m_reserved_records m : list _))).
  set (m1 := match ids with [] => m | _ => DeleteRecords sizeof_record ids m end).
  assert (∀ r, r ∈ in_flight m → id r ∈ ids ↔ matcher r w = true) as Hids.
  { intros r Hr. unfold ids. rewrite list_elem_of_fmap. split.
    - intros ([k r'] & E & [Hm Hin]%list_elem_of_filter). cbn in E, Hm. pose proof (wf_key m (k, r') Hwf Hin) as Ek. cbn in Ek.
      assert (r = r') as ->; [|done]. apply (in_flight_inj m); [done..| |congruence]. apply list_elem_of_fmap. by exists (k, r').
    - intros Hm. apply list_elem_of_fmap in Hr as ([k r'] & -> & Hin). exists (k, r'). cbn. split; [by apply (wf_key m (k, r'))|].
      by apply list_elem_of_filter. }
  assert (∀ k, k ∈ ids → k ∈ map id (in_flight m)) as Hsub.
  { intros k (e & -> & [_ Hin]%list_elem_of_filter)%list_elem_of_fmap. rewrite in_flight_keys by done. apply list_elem_of_fmap. by exists e. }
  assert (wf m1 ∧ queued m1 = queued m ∧ in_flight m1 = filter (λ r, matcher r w = false) (in_flight m)) as (Hwf1 & E1 & E2).
  { assert (filter (λ r, id r ∉ ids) (queued m) = queued m) as Eq.
    { apply filter_all, Forall_forall. intros r Hr Hin%Hsub. eapply Hdis; [|exact Hin]. apply list_elem_of_fmap. by exists r. }
    assert (filter (λ r, id r ∉ ids) (in_flight m) = filter (λ r, matcher r w = false) (in_flight m)) as Ef.
    { apply filter_ext_in. intros r Hr. rewrite Hids by done. by rewrite not_true_iff_false. }
    rewrite <-Ef. unfold m1. destruct ids as [|k ids'] eqn:Eids.
    - split_and!; [done..|]. symmetry. apply filter_all, Forall_forall. intros r _. apply not_elem_of_nil.
    - destruct (DeleteRecords_filter (k :: ids') m Hwf Hu) as [-> ->]. split_and!; [by apply DeleteRecords_wf|done..]. }
  destruct (erase_matching_queues_scanned sizeof_record Hsizeof w (m_records m1) (m_size m1)) as (size' & -> & _);
    [by rewrite (wf_size _ m1 Hwf1)|].
  split; [|done]. unfold queued. cbn. rewrite filter_concat. fold (queued m1). by rewrite E1.
Qed.

(** ** Priority *)

Lemma visited_sorted minLatency : EventLatency_Unspecified ≤ minLatency → StronglySorted Z.gt (visited minLatency).
Proof.
  unfold visited, EventLatency_Unspecified, EventLatency_Max, EventLatency_Off. intros Hmin.
  set (lo := if minLatency =? -1 then 0 else minLatency).
  assert (0 ≤ lo) by (unfold lo; destruct (Z.eqb_spec minLatency (-1)); lia). clearbody lo.
  destruct (decide (4 < lo)); [rewrite seqZ_nil by lia; constructor|].
  assert (lo = 0 ∨ lo = 1 ∨ lo = 2 ∨ lo = 3 ∨ lo = 4) as H5 by lia.
  repeat destruct H5 as [-> |H5]; [..|subst lo]; vm_compute rev; by repeat constructor.
Qed.

Lemma visited_elem minLatency l : minLatency ≤ l → 0 ≤ l ≤ EventLatency_Max → l ∈ visited minLatency.
Proof.
  intros Hl Hr. unfold visited. rewrite list_elem_of_In, <-in_rev, <-list_elem_of_In. apply elem_of_seqZ.
  unfold EventLatency_Off. destruct (minLatency =? EventLatency_Unspecified); lia.
Qed.

Lemma visited_min minLatency l : l ∈ visited minLatency → minLatency ≤ l.
Proof.
  unfold visited. rewrite list_elem_of_In, <-in_rev, <-list_elem_of_In, elem_of_seqZ. unfold EventLatency_Off, EventLatency_Unspecified.
  destruct (Z.eqb_spec minLatency (-1)); lia.
Qed.

Definition placed (queues : list (list StorageRecord)) : Prop :=
  ∀ i q, queues !! i = Some q → Forall (λ r, latency r = Z.of_nat i) q.

Lemma candidates_elem queues lats r : r ∈ candidates queues lats ↔
  ∃ lat q, lat ∈ lats ∧ queues !! Z.to_nat lat = Some q ∧ r ∈ q.
Proof.
  unfold candidates. rewrite list_elem_of_In, in_concat. split.
  - intros (q' & (lat & <- & Hl)%in_map_iff & Hr). rewrite <-in_rev in Hr. destruct (queues !! Z.to_nat lat) as [q|] eqn:E; [|done].
    exists lat, q. by rewrite !list_elem_of_In.
  - intros (lat & q & Hl & E & Hr). exists (rev q). apply list_elem_of_In in Hl, Hr. split; [|by rewrite <-in_rev].
    apply in_map_iff. exists lat. by rewrite E.
Qed.

Lemma candidates_placed queues lats r : placed queues → Forall (λ l, 0 ≤ l) lats → r ∈ candidates queues lats → latency r ∈ lats.
Proof.
  intros Hp Hl (lat & q & Hin & E & Hr)%candidates_elem. apply Hp in E. rewrite Forall_forall in E. rewrite Forall_forall in Hl.
  rewrite (E r Hr), Z2Nat.id by (by apply Hl). done.
Qed.

Lemma candidates_sorted queues lats : placed queues → Forall (λ l, 0 ≤ l) lats → StronglySorted Z.gt lats →
  StronglySorted (λ a b, latency b ≤ latency a) (candidates queues lats).
Proof.
  intros Hp. induction lats as [|lat lats IH]; intros Hpos Hs; [constructor|]. apply StronglySorted_inv in Hs as [Hs Hlt].
  apply Forall_cons in Hpos as [H0 Hpos]. change (candidates queues (lat :: lats)) with (rev (default [] (queues !! Z.to_nat lat)) ++ candidates queues lats).
  assert (Forall (λ r, latency r = lat) (rev (default [] (queues !! Z.to_nat lat)))) as Hq.
  { apply Forall_rev. destruct (queues !! Z.to_nat lat) as [q|] eqn:E; [|constructor]. apply Hp in E. by rewrite Z2Nat.id in E. }
  rewrite Forall_forall in Hlt. apply StronglySorted_app_2; [|clear -Hq|by apply IH].
  - intros r r' Hr Hr'. rewrite Forall_forall in Hq. rewrite (Hq r Hr). apply candidates_placed in Hr'; [|done..].
    specialize (Hlt _ Hr'). cbn in Hlt. lia.
  - induction Hq as [|r q Er Hq IH]; constructor; [done|]. eapply Forall_impl; [exact Hq|]. intros r' E. cbn in *. lia.
Qed.

Lemma wf_placed m : wf m → placed (m_records m).
Proof. intros Hwf i q Eq. eapply Forall_impl; [by apply (wf_latency _ m Hwf)|]. by intros r []. Qed.

(** The records a retrieval takes, and the ones it leaves. *)
Lemma reserve_view {C} (consumer : C → StorageRecord → C * bool) leaseTimeMs clock c minLatency maxCount m : wf m → unique m →
  EventLatency_Unspecified ≤ minLatency → 0 ≤ maxCount →
  let m' := (GetAndReserveRecords sizeof_record consumer leaseTimeMs clock c minLatency maxCount m).2 in
  ∃ taken, queued m ≡ₚ taken ++ queued m' ∧
    in_flight m' ≡ₚ (if c_true leaseTimeMs then taken else []) ++ in_flight m ∧ zlen taken ≤ limit maxCount ∧
    (∀ r, r ∈ taken → minLatency ≤ latency r) ∧ (∀ r r', r ∈ taken → r' ∈ queued m' → latency r' ≤ latency r).
Proof.
  intros Hwf Hu Hmin Hmax m'. pose proof (GetAndReserve_wf sizeof_record Hsizeof consumer leaseTimeMs clock c minLatency maxCount m Hwf Hmin Hmax) as Hwf'.
  fold m' in Hwf'. unfold m' in *. clear m'.
  destruct (GetAndReserve_offered sizeof_record consumer leaseTimeMs clock c minLatency maxCount m (wf_length _ m Hwf) Hmin Hmax)
    as (taken & c' & stop & queues' & Eo & E & Ec & Hp & _). rewrite E in *. cbn [snd] in *. clear E.
  destruct (visited_in_range (m_records m) minLatency (wf_length _ m Hwf) Hmin) as [_ Hr].
  assert (Forall (λ l, 0 ≤ l) (visited minLatency)) as Hpos by (eapply Forall_impl; [exact Hr|]; cbn; lia).
  pose proof (candidates_sorted _ _ (wf_placed m Hwf) Hpos (visited_sorted _ Hmin)) as Hs.
  assert (∀ r, r ∈ taken → minLatency ≤ latency r) as Htm.
  { intros r Hr'. apply visited_min. apply (candidates_placed (m_records m)); [by apply wf_placed|done|]. rewrite Ec. apply elem_of_app. by left. }
  exists taken. split_and!; try done.
  - unfold in_flight. cbn [m_reserved_records]. apply lease_in_flight.
    rewrite <-in_flight_keys by done. unfold unique, queued in Hu. rewrite Hp, !map_app in Hu.
    rewrite <-app_assoc, (Permutation_app_comm (map id (concat _))), app_assoc in Hu. by apply NoDup_app in Hu as [? _].
  - eapply offer_count; [|exact Eo]. unfold limit. destruct (Z.eqb_spec maxCount 0); lia.
  - intros r r' Ht Hin. destruct (decide (minLatency ≤ latency r')); [|specialize (Htm r Ht); lia].
    rewrite Ec in Hs. apply (StronglySorted_app_1_elem_of _ _ _ r r' Hs Ht).
    pose proof (wf_queued _ _ Hwf') as Hlat. rewrite Forall_forall in Hlat. specialize (Hlat r' Hin). unfold EventLatency_Normal in Hlat.
    unfold queued in Hin. cbn in Hin. apply list_elem_of_In, in_concat in Hin as (q & [i Eq]%list_elem_of_In%list_elem_of_lookup & Hin%list_elem_of_In).
    apply candidates_elem. exists (latency r'), q. split_and!; [apply visited_elem; lia| |done].
    pose proof (wf_placed _ Hwf' i q Eq) as Hf. rewrite Forall_forall in Hf. rewrite (Hf r' Hin), Nat2Z.id. done.
Qed.

(** The identifiers a call brings in. *)
Definition brought (c : call) : list (list Z) := match c with Store r => [id r] | _ => [] end.

Definition ids_of m : list (list Z) := map id (queued m ++ in_flight m).

Lemma NoDup_submseteq_mono {A} (xs ys : list A) : xs ⊆+ ys → NoDup ys → NoDup xs.
Proof. intros [k Hp]%submseteq_Permutation Hnd. rewrite Hp in Hnd. by apply NoDup_app in Hnd as [? _]. Qed.

Lemma ids_filter (P Q : StorageRecord → Prop) `{!∀ r, Decision (P r)} `{!∀ r, Decision (Q r)} m m' :
  queued m' = filter P (queued m) → in_flight m' = filter Q (in_flight m) → ids_of m' ⊆+ ids_of m.
Proof.
  intros E1 E2. unfold ids_of. rewrite E1, E2. apply (fmap_submseteq id). apply submseteq_app; apply sublist_submseteq, sublist_filter.
Qed.

Lemma index_mono rs rs' k r : NoDup (map id rs) → rs' ⊆+ rs → index rs' !! k = Some r → index rs !! k = Some r.
Proof.
  intros Hnd Hsub. assert (NoDup (map id rs')) by (eapply NoDup_submseteq_mono; [by apply (fmap_submseteq id)|done]).
  rewrite !index_elem by done. intros [Hr E]. split; [|done]. by eapply elem_of_submseteq.
Qed.

Lemma reserve_contents leaseTimeMs m m' taken : unique m →
  queued m ≡ₚ taken ++ queued m' → in_flight m' ≡ₚ (if c_true leaseTimeMs then taken else []) ++ in_flight m →
  contents_of m' = Contents (available (contents_of m) ∖ index taken)
    (if c_true leaseTimeMs then index taken ∪ leased (contents_of m) else leased (contents_of m)) ∧
  ids_of m' ⊆+ ids_of m ∧ NoDup (map id taken) ∧ index taken ∪ index (queued m') = available (contents_of m).
Proof.
  intros Hu Hq Hf. pose proof (unique_split m Hu) as (Hnq & Hnf & Hdis).
  assert (ids_of m' ⊆+ ids_of m) as Hids.
  { unfold ids_of. apply (fmap_submseteq id). rewrite Hf, Hq, (Permutation_app_comm taken (queued m')), <-!app_assoc.
    apply submseteq_app; [done|]. destruct (c_true leaseTimeMs); [done|]. apply submseteq_inserts_l. done. }
  pose proof (NoDup_submseteq_mono _ _ Hids Hu) as Hu'. pose proof (unique_split m' Hu') as (Hnq' & Hnf' & _).
  pose proof Hnq as Hnt. rewrite Hq, map_app in Hnt. apply NoDup_app in Hnt as (Hnt & Hdt & _).
  assert (index (taken ++ queued m') = index (queued m)) as Ea by (symmetry; by apply index_perm). rewrite index_app in Ea.
  split_and!; [|done..]. unfold contents_of. cbn. rewrite <-Ea. f_equal.
  - apply map_eq. intros k. apply option_eq. intros r. rewrite lookup_difference_Some, lookup_union_Some_raw.
    split; [|intros [[?|[_ ?]] ?]; [congruence|done]]. intros E. pose proof E as [Hr Ek]%index_elem; [|done].
    assert (index taken !! k = None) as Hk; [|tauto].
    apply index_none. intros Hin. apply (Hdt k Hin). apply list_elem_of_fmap. by exists r.
  - rewrite (index_perm _ _ Hnf' Hf), index_app. destruct (c_true leaseTimeMs); [done|]. unfold index at 1. cbn. by rewrite (left_id_L ∅ (∪)).
Qed.

Lemma reserve_refines leaseTimeMs minLatency maxCount m m' taken : unique m →
  queued m ≡ₚ taken ++ queued m' → in_flight m' ≡ₚ (if c_true leaseTimeMs then taken else []) ++ in_flight m →
  zlen taken ≤ limit maxCount → (∀ r, r ∈ taken → minLatency ≤ latency r) →
  (∀ r r', r ∈ taken → r' ∈ queued m' → latency r' ≤ latency r) →
  spec (Reserve leaseTimeMs minLatency maxCount) (contents_of m) (contents_of m') ∧ ids_of m' ⊆+ ids_of m.
Proof.
  intros Hu Hq Hf Hmax Hmin Hpri. destruct (reserve_contents leaseTimeMs m m' taken Hu Hq Hf) as (Ec & Hids & Hnt & Ea).
  split; [|done]. pose proof (NoDup_submseteq_mono _ _ Hids Hu) as Hu'. pose proof (unique_split m' Hu') as (Hnq' & _ & _).
  rewrite Ec. constructor.
  - rewrite <-Ea. apply map_union_subseteq_l.
  - by rewrite index_size.
  - intros k r [Hr _]%index_elem; [|done]. by apply Hmin.
  - intros k r k' r' [Hr _]%index_elem E' En; [|done]. apply (Hpri r r' Hr). rewrite <-Ea in E'.
    apply lookup_union_Some_raw in E' as [E'|[_ E']]; [congruence|]. by apply index_elem in E' as [? _].
Qed.

Lemma index_retried inc rs : index (map (retried inc) rs) = retried inc <$> index rs.
Proof.
  induction rs as [|r rs IH]; [symmetry; apply fmap_empty|]. cbn [map]. rewrite !index_cons, fmap_insert, retried_id, IH. done.
Qed.

Lemma release_view m (ids : list (list Z)) inc m' : wf m →
  queued m' ≡ₚ map (λ e, retried inc e.2) (filter (λ e, e.1 ∈ ids) (m_reserved_records m : list _)) ++ queued m →
  m_reserved_records m' = filter (λ e, e.1 ∉ ids) (m_reserved_records m : list _) →
  queued m' ≡ₚ map (retried inc) (filter (λ r, id r ∈ ids) (in_flight m)) ++ queued m ∧
  in_flight m' = filter (λ r, id r ∉ ids) (in_flight m).
Proof.
  intros Hwf Hq Er. assert (Forall (λ e, id e.2 = e.1) (m_reserved_records m)) as Hkeys by (apply Forall_forall; intros e He; by apply (wf_key m)).
  unfold in_flight. rewrite Er. split; [|exact (in_flight_filter (λ k, k ∉ ids) _ Hkeys)].
  rewrite Hq. pose proof (in_flight_filter (λ k, k ∈ ids) _ Hkeys) as E. cbn beta in E. rewrite <-E, map_map. done.
Qed.

Lemma release_refines ids inc m m' : unique m →
  queued m' ≡ₚ map (retried inc) (filter (λ r, id r ∈ ids) (in_flight m)) ++ queued m →
  in_flight m' = filter (λ r, id r ∉ ids) (in_flight m) →
  contents_of m' = Contents ((retried inc <$> filter (λ e, e.1 ∈ ids) (leased (contents_of m))) ∪ available (contents_of m))
    (filter (λ e, e.1 ∉ ids) (leased (contents_of m))) ∧ ids_of m' ⊆+ ids_of m.
Proof.
  intros Hu Hq Hf. pose proof (unique_split m Hu) as (Hnq & Hnf & Hdis).
  assert (ids_of m' ≡ₚ ids_of m) as Hids.
  { unfold ids_of. rewrite Hf, Hq, !map_app, map_map. rewrite (map_ext (λ r, id (retried inc r)) id) by apply retried_id.
    rewrite (Permutation_app_comm (map id (filter _ _))), <-app_assoc. f_equiv. rewrite <-map_app. f_equiv. clear.
    induction (in_flight m) as [|r rs IH]; [done|]. rewrite !filter_cons. destruct (decide (id r ∈ ids)).
    - rewrite (decide_False (P := ¬ _)) by tauto. cbn. by rewrite IH.
    - rewrite (decide_True (P := ¬ _)) by done. rewrite <-Permutation_middle. by rewrite IH. }
  split; [|by rewrite Hids]. assert (unique m') as (Hnq' & Hnf' & _)%unique_split by (unfold unique; fold (ids_of m'); by rewrite Hids).
  unfold contents_of. cbn. f_equal.
  - rewrite (index_perm _ _ Hnq' Hq), index_app, index_retried. do 2 f_equal. exact (index_filter_ids (λ k, k ∈ ids) _ Hnf).
  - rewrite Hf. exact (index_filter_ids (λ k, k ∉ ids) _ Hnf).
Qed.

Lemma store_refines r m m' : unique m → id r ∉ ids_of m → queued m' ≡ₚ r :: queued m → in_flight m' = in_flight m →
  contents_of m' = Contents (<[id r := r]> (available (contents_of m))) (leased (contents_of m)) ∧ ids_of m' ≡ₚ id r :: ids_of m.
Proof.
  intros Hu Hr Hq Hf. assert (ids_of m' ≡ₚ id r :: ids_of m) as Hids by (unfold ids_of; rewrite Hf, Hq; done).
  split; [|done]. assert (unique m') as (Hnq' & _ & _)%unique_split.
  { unfold unique. fold (ids_of m'). rewrite Hids. by apply NoDup_cons. }
  unfold contents_of. cbn. by rewrite (index_perm _ _ Hnq' Hq), Hf.
Qed.

Lemma step_refines c m m' : step sizeof_record c m m' → wf m → NoDup (brought c ++ ids_of m) →
  spec c (contents_of m) (contents_of m') ∧ ids_of m' ⊆+ brought c ++ ids_of m.
Proof.
  intros [m0 r ok m1 Hroom E|C consumer leaseTimeMs clock c0 minLatency maxCount m0|ids m0|w m0|m0|ids inc m0 m1 E|m0 m1 E] Hwf Hnd;
    cbn [brought app] in *.
  - apply NoDup_cons in Hnd as [Hr Hnd]. apply StoreRecord_queued in E as [(_ & -> & Hoff)|(_ & Hoff & _ & Hq & Er & _)].
    { split; [by constructor|]. by apply submseteq_cons. }
    destruct (store_refines r m0 m1) as [-> Hids]; [done..|unfold in_flight; by rewrite Er|]. split; [by constructor|]. by rewrite Hids.
  - destruct (reserve_view consumer leaseTimeMs clock c0 minLatency maxCount m0) as (taken & Hq & Hf & Hmax & Hmin & Hpri); [done..|].
    by eapply reserve_refines.
  - pose proof (unique_split m0 Hnd) as (Hnq & Hnf & _). destruct (DeleteRecords_filter ids m0 Hwf Hnd) as [E1 E2]. split; [|by eapply ids_filter].
    unfold contents_of at 2. rewrite E1, E2.
    pose proof (index_filter_ids (λ k, k ∉ ids) _ Hnq) as ->. pose proof (index_filter_ids (λ k, k ∉ ids) _ Hnf) as ->.
    apply (spec_delete (contents_of m0)).
  - pose proof (unique_split m0 Hnd) as (Hnq & Hnf & _). destruct (DeleteRecords_where_filter w m0 Hwf Hnd) as [E1 E2]. split; [|by eapply ids_filter].
    unfold contents_of at 2. rewrite E1, E2, !index_filter by done. apply (spec_delete_where (contents_of m0)).
  - assert (queued (DeleteAllRecords m0) = []) as E1 by (unfold queued; cbn; clear; by induction (m_records m0)).
    unfold contents_of at 2, ids_of. rewrite E1. cbn. split; [constructor|apply submseteq_nil_l].
  - destruct (ReleaseRecords_spec sizeof_record Hsizeof ids inc m0 Hwf) as (m2 & E' & _ & Hq & Er & _). assert (m2 = m1) as -> by congruence.
    destruct (release_view m0 ids inc m1 Hwf Hq Er) as [Hq' Hf']. destruct (release_refines ids inc m0 m1 Hnd Hq' Hf') as [-> ?].
    split; [constructor|done].
  - rewrite (ReleaseAll_spec sizeof_record m0 Hwf) in E.
    destruct (ReleaseRecords_spec sizeof_record Hsizeof (map fst (m_reserved_records m0)) false m0 Hwf) as (m2 & E' & _ & Hq & Er & _).
    assert (m2 = m1) as -> by congruence.
    destruct (release_view m0 _ false m1 Hwf Hq Er) as [Hq' Hf']. destruct (release_refines _ false m0 m1 Hnd Hq' Hf') as [Ec ?].
    split; [|done]. rewrite Ec. pose proof (unique_split m0 Hnd) as (Hnq & Hnf & _).
    assert (∀ k, k ∉ map fst (m_reserved_records m0) → leased (contents_of m0) !! k = None) as Hin.
    { intros k Hk. apply index_none. by rewrite in_flight_keys. }
    rewrite <-in_flight_keys in * by done. rewrite map_filter_id.
    2: { intros k r' E0. destruct (decide (k ∈ map id (in_flight m0))); [done|]. cbn. by rewrite Hin in E0. }
    rewrite (map_fmap_ext _ Datatypes.id) by done. rewrite map_fmap_id.
    rewrite (proj2 (map_empty_filter _ _)); [constructor|].
    intros k r' E0. cbn. intros Hn. by rewrite Hin in E0.
Qed.

Lemma steps_refine cs m m' : steps sizeof_record cs m m' → wf m → NoDup (concat (map brought cs) ++ ids_of m) →
  specs cs (contents_of m) (contents_of m') ∧ unique m'.
Proof.
  induction 1 as [m|c cs m1 m2 m3 Hc Hcs IH]; intros Hwf Hnd; [by split; [constructor|]|].
  cbn [map concat] in Hnd. rewrite (Permutation_app_comm (brought c)), <-app_assoc in Hnd.
  destruct (step_refines c m1 m2 Hc Hwf) as [Hspec Hids]; [by apply NoDup_app in Hnd as (_ & _ & ?)|].
  destruct IH as [Hspecs Hu].
  - by eapply step_wf.
  - eapply NoDup_submseteq_mono; [|exact Hnd]. by apply submseteq_app.
  - split; [|done]. by econstructor.
Qed.

Lemma contents_disjoint m : unique m → available (contents_of m) ##ₘ leased (contents_of m).
Proof.
  intros (Hq & Hf & Hdis)%unique_split. apply map_disjoint_spec. cbn.
  intros k r r' [Hr Ek]%index_elem [Hr' Ek']%index_elem; [|done..]. apply (Hdis k).
  - apply list_elem_of_fmap. by exists r.
  - apply list_elem_of_fmap. by exists r'.
Qed.

(** C24. The storage implements its contract: whatever calls are made from a new
    storage, as long as the records stored have distinct identifiers, the records it holds
    are what the same calls make of two maps (available and leased records): nothing is lost,
    duplicated or resurrected, a retrieval leases records of the highest latencies
    asked for, and no record is at once available and leased. *)
Theorem memory_refines cs m : steps sizeof_record cs new_storage m → NoDup (concat (map brought cs)) →
  specs cs (Contents ∅ ∅) (contents_of m) ∧ available (contents_of m) ##ₘ leased (contents_of m).
Proof.
  intros Hs Hnd. destruct (steps_refine cs new_storage m Hs (new_storage_wf sizeof_record)) as [Hspec Hu].
  - unfold ids_of. cbn. by rewrite app_nil_r.
  - split; [done|]. by apply contents_disjoint.
Qed.

End Operations.

Definition ex_calls : list call :=
  [Store (ex_record 65 1); Store (ex_record 66 3); Reserve 1000 1 1; Release [[66]] true].

Lemma memory_refines_witness :
  specs ex_calls (Contents ∅ ∅) (contents_of ex_memory) ∧
  retryCount <$> available (contents_of ex_memory) !! [66] = Some 1.
Proof.
  split; [|done]. apply (memory_refines 100 ltac:(lia) ex_calls ex_memory).
  - eapply steps_cons; [by eapply (step_store 100 new_storage)|].
    eapply steps_cons; [by eapply (step_store 100 _ (ex_record 66 3))|].
    eapply steps_cons; [by eapply (step_reserve 100 unit (λ c _, (c, true)) 1000 (λ _, 0) () 1 1)|].
    eapply steps_cons; [|apply steps_nil]. apply step_release. vm_compute. reflexivity.
  - apply (bool_decide_unpack _). vm_compute. done.
Defined.

End MemoryRefinement.
