(* ===== verification/BondSplicer.v ===== *)
(** * Splicing records into a body

    lib/packager/BondSplicer.cpp with the structures of ISplicer.hpp: the records of an
    upload are kept in one buffer, with the spans of each tenant's records. A [std::list]
    and a [std::vector] are lists; an index outside [m_packages] changes nothing here,
    and the packager is shown never to use one. *)

From Stdlib Require Import ZArith Lia.
From S2P Require Import Prelude.

Module BondSplicer.

Record Span := MkSpan { offset : Z; length : Z }.
Record PackageInfo := MkPackage { tenantToken : list Z; header : Span; records : list Span }.
Record splicer := MkSplicer { m_buffer : list Z; m_packages : list PackageInfo; m_overheadEstimate : Z }.

Definition new_splicer : splicer := MkSplicer [] [] 0.

(** The splicer and the index of the new package. *)
Definition addTenantToken (token : list Z) (s : splicer) : splicer * Z :=
  let begin := zlen (m_buffer s) in
  let s := MkSplicer (m_buffer s) (m_packages s ++ [MkPackage token (MkSpan begin 0) []])
    (u64 (m_overheadEstimate s + (8 + zlen token))) in
  (s, u64 (zlen (m_packages s) - 1)).

Definition push_record (span : Span) (p : PackageInfo) : PackageInfo :=
  MkPackage (tenantToken p) (header p) (records p ++ [span]).

Definition addRecord (dataPackageIndex : Z) (recordBlob : list Z) (s : splicer) : splicer :=
  MkSplicer (m_buffer s ++ recordBlob)
    (alter (push_record (MkSpan (zlen (m_buffer s)) (zlen recordBlob))) (Z.to_nat dataPackageIndex) (m_packages s))
    (m_overheadEstimate s).

Definition getSizeEstimate (s : splicer) : Z := u64 (u64 (zlen (m_buffer s) + m_overheadEstimate s) + 8).

(** The bytes of a span of the buffer. *)
Definition blob_of (buffer : list Z) (span : Span) : list Z :=
  take (Z.to_nat (length span)) (drop (Z.to_nat (offset span)) buffer).

Definition splice (s : splicer) : list Z :=
  foldl (λ output package,
    foldl (λ output record, output ++ blob_of (m_buffer s) record) output (records package)) [] (m_packages s).

Definition clear (s : splicer) : splicer := MkSplicer [] [] 0.

(** ** The records of a splicer

    The spans stand for the blobs added, tenant by tenant. *)

Definition groups (s : splicer) : list (list Z * list (list Z)) :=
  map (λ p, (tenantToken p, map (blob_of (m_buffer s)) (records p))) (m_packages s).

Definition in_buffer (buffer : list Z) (span : Span) : Prop :=
  0 ≤ offset span ∧ 0 ≤ length span ∧ offset span + length span ≤ zlen buffer.

Definition wf (s : splicer) : Prop := Forall (λ p, Forall (in_buffer (m_buffer s)) (records p)) (m_packages s).

Lemma new_splicer_wf : wf new_splicer.
Proof. constructor. Qed.

Lemma in_buffer_app buffer more span : in_buffer buffer span → in_buffer (buffer ++ more) span.
Proof. unfold in_buffer. rewrite zlen_app. pose proof (zlen_nonneg more). intros (? & ? & ?). split_and!; lia. Qed.

Lemma blob_of_app buffer more span : in_buffer buffer span → blob_of (buffer ++ more) span = blob_of buffer span.
Proof.
  intros (H0 & H1 & H2). unfold blob_of, zlen in *. rewrite drop_app_le by lia. apply take_app_le.
  rewrite length_drop. lia.
Qed.

Lemma blob_of_new buffer blob : blob_of (buffer ++ blob) (MkSpan (zlen buffer) (zlen blob)) = blob.
Proof. unfold blob_of, zlen. cbn. rewrite !Nat2Z.id, drop_app_length. apply firstn_all. Qed.

Lemma addTenantToken_wf token s : wf s → wf (addTenantToken token s).1.
Proof. intros Hs. apply Forall_app. split; [done|]. by repeat constructor. Qed.

Lemma addTenantToken_groups token s : groups (addTenantToken token s).1 = groups s ++ [(token, [])].
Proof. unfold groups. cbn. by rewrite map_app. Qed.

Lemma addRecord_wf i blob s : wf s → wf (addRecord i blob s).
Proof.
  intros Hs. unfold wf. cbn. apply Forall_alter.
  - eapply Forall_impl; [exact Hs|]. intros p Hp. eapply Forall_impl; [exact Hp|]. intros. by apply in_buffer_app.
  - intros p _ Hp. cbn. apply Forall_app. split; [done|]. constructor; [|done]. unfold in_buffer. cbn. rewrite zlen_app.
    pose proof (zlen_nonneg (m_buffer s)). pose proof (zlen_nonneg blob). lia.
Qed.

Lemma addRecord_groups i blob s : wf s →
  groups (addRecord i blob s) = alter (λ g, (g.1, g.2 ++ [blob])) (Z.to_nat i) (groups s).
Proof.
  intros Hs. unfold groups. cbn.
  assert (∀ p, Forall (in_buffer (m_buffer s)) (records p) →
    map (blob_of (m_buffer s ++ blob)) (records p) = map (blob_of (m_buffer s)) (records p)) as Hp.
  { intros p Hp. apply map_ext_in. intros x Hx. rewrite Forall_forall in Hp. apply blob_of_app, Hp. by apply list_elem_of_In. }
  apply list_eq. intros k. change (map ?f ?l) with (f <$> l). destruct (decide (k = Z.to_nat i)) as [->|Hne].
  - rewrite list_lookup_alter_eq, !list_lookup_fmap, list_lookup_alter_eq. destruct (m_packages s !! Z.to_nat i) as [p|] eqn:E; [|done]. cbn.
    eapply Forall_lookup in Hs; [|exact E]. rewrite map_app, Hp by done. cbn. by rewrite blob_of_new.
  - rewrite list_lookup_alter_ne, !list_lookup_fmap, list_lookup_alter_ne by done. destruct (m_packages s !! k) as [p|] eqn:E; [|done]. cbn.
    eapply Forall_lookup in Hs; [|exact E]. by rewrite Hp.
Qed.

(** Splicing gives the blobs, tenant by tenant. *)
Lemma splice_groups s : splice s = concat (concat (map snd (groups s))).
Proof.
  assert (∀ spans output, foldl (λ output record, output ++ blob_of (m_buffer s) record) output spans =
    output ++ concat (map (blob_of (m_buffer s)) spans)) as Hin.
  { induction spans as [|x spans IH]; intros output; cbn; [by rewrite app_nil_r|]. by rewrite IH, app_assoc. }
  unfold splice, groups.
  assert (∀ ps output, foldl (λ output package, foldl (λ output record, output ++ blob_of (m_buffer s) record) output (records package)) output ps =
    output ++ concat (concat (map snd (map (λ p, (tenantToken p, map (blob_of (m_buffer s)) (records p))) ps)))) as Hout; [|apply Hout].
  induction ps as [|p ps IH]; intros output; cbn; [by rewrite app_nil_r|]. by rewrite IH, Hin, concat_app, app_assoc.
Qed.

End BondSplicer.
