(* ===== verification/Packager.v ===== *)
(** * Packaging records for an upload

    lib/packager/Packager.cpp and the upload context of lib/system/Contexts.hpp. The
    routes the packager calls are values: [handleFinalizePackage] says which one is taken.
    The failure of an allocation is not modelled. *)

From Stdlib Require Import ZArith Lia Sorted.
From S2P Require Import Prelude StdMap BondSplicer MemoryStorage.

Module Packager.
Import StdMap.

(** The members of the context the packager, the storage and the encoders use. *)
Record EventsUploadContext := MkContext {
  requestedMinLatency : Z; requestedMaxCount : Z;
  splicer : BondSplicer.splicer; maxUploadSize : Z; latency : Z; packageIds : smap Z;
  recordIdsAndTenantIds : smap (list Z); recordTimestamps : list Z; maxRetryCountSeen : Z;
  body : list Z; compressed : bool; fromMemory : bool
}.
#[global] Instance context_eta : Eta EventsUploadContext := λ c,
  MkContext (requestedMinLatency c) (requestedMaxCount c) (splicer c) (maxUploadSize c) (latency c) (packageIds c)
    (recordIdsAndTenantIds c) (recordTimestamps c) (maxRetryCountSeen c) (body c) (compressed c) (fromMemory c).

(** A new context. *)
Definition new_context (minLatency maxCount : Z) : EventsUploadContext :=
  MkContext minLatency maxCount BondSplicer.new_splicer 0 MemoryStorage.EventLatency_Unspecified [] [] [] 0 [] false false.

Inductive route := emptyPackage | packagedEvents.

Section Packager.
(** [m_config.GetMaximumUploadSizeBytes()] and [m_forcedTenantToken]. *)
Context (GetMaximumUploadSizeBytes : Z) (m_forcedTenantToken : list Z).

Definition tenant_of (r : MemoryStorage.StorageRecord) : list Z :=
  match m_forcedTenantToken with [] => MemoryStorage.tenantToken r | _ => m_forcedTenantToken end.

(** The part after the size check: the record goes to the package of its tenant. *)
Definition add_event (ctx : EventsUploadContext) (r : MemoryStorage.StorageRecord) : EventsUploadContext :=
  let ctx :=
    if latency ctx =? MemoryStorage.EventLatency_Unspecified then ctx <| latency := MemoryStorage.latency r |> else ctx in
  let token := tenant_of r in
  let '(ctx, index) :=
    match map_find (packageIds ctx) token with
    | Some index => (ctx, index)
    | None =>
        let '(s, index) := BondSplicer.addTenantToken token (splicer ctx) in
        (ctx <| splicer := s |> <| packageIds := map_set (packageIds ctx) token index |>, index)
    end in
  let ctx := ctx <| splicer := BondSplicer.addRecord index (MemoryStorage.blob r) (splicer ctx) |> in
  ctx <| recordIdsAndTenantIds := map_set (recordIdsAndTenantIds ctx) (MemoryStorage.id r) (MemoryStorage.tenantToken r) |>
      <| recordTimestamps := recordTimestamps ctx ++ [MemoryStorage.timestamp r] |>
      <| maxRetryCountSeen := u32 (Z.max (i32 (maxRetryCountSeen ctx)) (MemoryStorage.retryCount r)) |>.

Definition handleAddEventToPackage (ctx : EventsUploadContext) (r : MemoryStorage.StorageRecord) (wantMore : bool) :
    EventsUploadContext * bool :=
  let ctx := if maxUploadSize ctx =? 0 then ctx <| maxUploadSize := GetMaximumUploadSizeBytes |> else ctx in
  if u64 (BondSplicer.getSizeEstimate (splicer ctx) + zlen (MemoryStorage.blob r)) >? maxUploadSize ctx then
    match recordIdsAndTenantIds ctx with
    | _ :: _ => (ctx, false)
    | [] => (add_event ctx r, false)
    end
  else (add_event ctx r, wantMore).

Definition handleFinalizePackage (ctx : EventsUploadContext) : route * EventsUploadContext :=
  match packageIds ctx with
  | [] => (emptyPackage, ctx)
  | _ =>
      let ctx := ctx <| body := BondSplicer.splice (splicer ctx) |> in
      (packagedEvents, ctx <| splicer := BondSplicer.clear (splicer ctx) |>)
  end.

(** ** What a package holds

    The reference: the blobs of the records, grouped by tenant, tenants in the order
    of their first record. *)

Definition place (gs : list (list Z * list (list Z))) (t : list Z) (b : list Z) : list (list Z * list (list Z)) :=
  match list_find (λ g : list Z * list (list Z), g.1 = t) gs with
  | Some (i, _) => alter (λ g, (g.1, g.2 ++ [b])) i gs
  | None => gs ++ [(t, [b])]
  end.

Definition grouped (rs : list MemoryStorage.StorageRecord) : list (list Z * list (list Z)) :=
  foldl (λ gs r, place gs (tenant_of r) (MemoryStorage.blob r)) [] rs.

(** The same, tenant by tenant. *)
Definition tenants (rs : list MemoryStorage.StorageRecord) : list (list Z) :=
  foldl (λ ts r, if decide (tenant_of r ∈ ts) then ts else ts ++ [tenant_of r]) [] rs.
Definition tenant_blobs (rs : list MemoryStorage.StorageRecord) (t : list Z) : list (list Z) :=
  map MemoryStorage.blob (filter (λ r, tenant_of r = t) rs).
Definition package_blobs (rs : list MemoryStorage.StorageRecord) : list (list Z) :=
  concat (map (tenant_blobs rs) (tenants rs)).

(** What the splicer counts for a record, at most. *)
Definition room (rs : list MemoryStorage.StorageRecord) : Z :=
  foldr (λ r n, zlen (MemoryStorage.blob r) + (8 + zlen (tenant_of r)) + n) 8 rs.

Record holds (rs : list MemoryStorage.StorageRecord) (ctx : EventsUploadContext) : Prop := {
  holds_wf : BondSplicer.wf (splicer ctx);
  holds_groups : BondSplicer.groups (splicer ctx) = grouped rs;
  holds_index : ∀ t i, map_find (packageIds ctx) t = Some i ↔
    ∃ g, grouped rs !! Z.to_nat i = Some g ∧ g.1 = t ∧ 0 ≤ i;
  holds_tokens : NoDup (map fst (grouped rs));
  holds_buffer : zlen (BondSplicer.m_buffer (splicer ctx)) = foldr (λ r n, zlen (MemoryStorage.blob r) + n) 0 rs;
  holds_overhead : 0 ≤ BondSplicer.m_overheadEstimate (splicer ctx) ≤ foldr (λ r n, 8 + zlen (tenant_of r) + n) 0 rs;
  holds_ids : recordIdsAndTenantIds ctx =
    foldl (λ m r, map_set m (MemoryStorage.id r) (MemoryStorage.tenantToken r)) [] rs;
  holds_timestamps : recordTimestamps ctx = map MemoryStorage.timestamp rs
}.

Lemma new_context_holds minLatency maxCount : holds [] (new_context minLatency maxCount).
Proof.
  split; cbn; try done; [constructor| |constructor]. intros t i. split; [done|]. intros (g & E & _). by rewrite lookup_nil in E.
Qed.

(** ** Adding a record *)

Abbreviation push b := (λ g : list Z * list (list Z), (g.1, g.2 ++ [b])).

Lemma push_tokens b gs i : map fst (alter (push b) i gs) = map fst gs.
Proof. revert i. induction gs as [|g gs IH]; intros [|i]; cbn; [done..|]. f_equal. apply IH. Qed.

Lemma place_old gs i g b : NoDup (map fst gs) → gs !! i = Some g → place gs g.1 b = alter (push b) i gs.
Proof.
  intros Hnd E. unfold place.
  assert (list_find (λ g' : list Z * list (list Z), g'.1 = g.1) gs = Some (i, g)) as ->; [|done].
  apply list_find_Some. split_and!; [done..|]. intros j g' E' Hlt Heq.
  assert (j = i) as ->; [|lia]. apply (NoDup_lookup (fst <$> gs) j i g.1); [done|rewrite list_lookup_fmap..].
  - rewrite E'. cbn. congruence.
  - by rewrite E.
Qed.

Lemma place_new gs t b : t ∉ map fst gs → place gs t b = gs ++ [(t, [b])].
Proof.
  intros Ht. unfold place. assert (list_find (λ g : list Z * list (list Z), g.1 = t) gs = None) as ->; [|done].
  apply list_find_None, Forall_forall. intros g Hg E. apply Ht, list_elem_of_fmap. by exists g.
Qed.

Lemma grouped_snoc rs r : grouped (rs ++ [r]) = place (grouped rs) (tenant_of r) (MemoryStorage.blob r).
Proof. unfold grouped. by rewrite foldl_app. Qed.

Lemma place_length gs t b : (length (place gs t b) ≤ S (length gs))%nat.
Proof.
  unfold place. destruct (list_find _ gs) as [[i g]|]; [rewrite length_alter; lia|rewrite length_app; cbn; lia].
Qed.

Lemma grouped_length rs : zlen (grouped rs) ≤ zlen rs.
Proof.
  induction rs as [|r rs IH] using rev_ind; [done|]. rewrite grouped_snoc, zlen_app.
  pose proof (place_length (grouped rs) (tenant_of r) (MemoryStorage.blob r)). unfold zlen in *. cbn. lia.
Qed.

Definition blobs_size (rs : list MemoryStorage.StorageRecord) : Z := foldr (λ r n, zlen (MemoryStorage.blob r) + n) 0 rs.
Definition tokens_size (rs : list MemoryStorage.StorageRecord) : Z := foldr (λ r n, 8 + zlen (tenant_of r) + n) 0 rs.

Lemma room_split rs : room rs = blobs_size rs + tokens_size rs + 8.
Proof. unfold room, blobs_size, tokens_size. induction rs as [|r rs IH]; cbn [foldr]; [done|]. rewrite IH. lia. Qed.

Lemma blobs_size_snoc rs r : blobs_size (rs ++ [r]) = blobs_size rs + zlen (MemoryStorage.blob r).
Proof. unfold blobs_size. induction rs as [|r' rs IH]; cbn [foldr app]; [lia|]. rewrite IH. lia. Qed.

Lemma tokens_size_snoc rs r : tokens_size (rs ++ [r]) = tokens_size rs + (8 + zlen (tenant_of r)).
Proof. unfold tokens_size. induction rs as [|r' rs IH]; cbn [foldr app]; [lia|]. rewrite IH. lia. Qed.

Lemma blobs_size_nonneg rs : 0 ≤ blobs_size rs.
Proof. induction rs as [|r rs IH] using rev_ind; [done|]. rewrite blobs_size_snoc. pose proof (zlen_nonneg (MemoryStorage.blob r)). lia. Qed.

Lemma tokens_size_count rs : 8 * zlen rs ≤ tokens_size rs.
Proof.
  induction rs as [|r rs IH] using rev_ind; [done|]. rewrite tokens_size_snoc, zlen_app, zlen_cons. pose proof (zlen_nonneg (tenant_of r)).
  change (zlen (@nil MemoryStorage.StorageRecord)) with 0. lia.
Qed.

#[local] Arguments BondSplicer.addRecord : simpl never.
#[local] Arguments BondSplicer.groups : simpl never.
#[local] Arguments BondSplicer.wf : simpl never.

(** The map of packages gives the position of each tenant's group. *)
Definition indexed (ids : smap Z) (gs : list (list Z * list (list Z))) : Prop :=
  ∀ t i, map_find ids t = Some i ↔ ∃ g, gs !! Z.to_nat i = Some g ∧ g.1 = t ∧ 0 ≤ i.

Lemma indexed_push ids gs i b : indexed ids gs → indexed ids (alter (push b) i gs).
Proof.
  intros Hidx t k. rewrite (Hidx t k), list_lookup_alter. case_decide as Hd; [subst i|done].
  destruct (gs !! Z.to_nat k) as [g|] eqn:E; cbn.
  - split; intros (g' & [= <-] & Ht & Hk); eexists; (split; [reflexivity|done]).
  - split; intros (g' & ? & _); discriminate.
Qed.

Lemma indexed_new ids gs t : t ∉ map fst gs → ∀ b, indexed ids gs → indexed (map_set ids t (zlen gs)) (gs ++ [(t, b)]).
Proof.
  intros Hnew b Hidx t' k. rewrite map_find_set. case_decide as Ht.
  - subst t'. split.
    + intros [= <-]. exists (t, b). unfold zlen. rewrite Nat2Z.id. split_and!; [|done|lia]. by apply list_lookup_middle.
    + intros (g & Eg & Ht & Hk). f_equal. apply lookup_app_Some in Eg as [Eg|[Hle Eg]].
      * exfalso. apply Hnew. rewrite <-Ht. apply list_elem_of_fmap. exists g. split; [done|]. by apply list_elem_of_lookup_2 in Eg.
      * apply list_lookup_singleton_Some in Eg as [Hz _]. unfold zlen. lia.
  - rewrite (Hidx t' k). split; intros (g & Eg & Ht' & Hk); exists g; split_and!; try done.
    + by apply lookup_app_l_Some.
    + apply lookup_app_Some in Eg as [Eg|[_ Eg]]; [done|]. apply list_lookup_singleton_Some in Eg as [_ <-]. by cbn in Ht'.
Qed.

Lemma indexed_absent ids gs t : indexed ids gs → map_find ids t = None → t ∉ map fst gs.
Proof.
  intros Hidx E (g & Eg & [j Ej]%list_elem_of_lookup)%list_elem_of_fmap.
  assert (map_find ids t = Some (Z.of_nat j)) as E2; [|congruence].
  apply Hidx. exists g. rewrite Nat2Z.id. split_and!; [done|done|lia].
Qed.

(** The package of a tenant that has none yet. *)
Lemma add_tenant rs t s : BondSplicer.groups s = grouped rs → zlen rs < 2 ^ 64 →
  (BondSplicer.addTenantToken t s).2 = zlen (grouped rs) ∧
  ∀ b, alter (push b) (Z.to_nat (zlen (grouped rs))) (grouped rs ++ [(t, [])]) = grouped rs ++ [(t, [b])].
Proof.
  intros Hg Hlt. pose proof (grouped_length rs). pose proof (zlen_nonneg (grouped rs)). split.
  - cbn. rewrite zlen_app. change (zlen [_]) with 1. rewrite Z.add_simpl_r.
    assert (zlen (BondSplicer.m_packages s) = zlen (grouped rs)) as ->; [|apply wrap_small; unfold ubits; lia].
    rewrite <-Hg. unfold BondSplicer.groups, zlen. by rewrite length_map.
  - intros b. unfold zlen. rewrite Nat2Z.id. rewrite alter_app_r_alt by done. by rewrite Nat.sub_diag.
Qed.

(** Where the record's tenant goes: its package, or a new one. *)
Definition with_package (ctx : EventsUploadContext) (token : list Z) : EventsUploadContext * Z :=
  match map_find (packageIds ctx) token with
  | Some index => (ctx, index)
  | None =>
      let '(s, index) := BondSplicer.addTenantToken token (splicer ctx) in
      (ctx <| splicer := s |> <| packageIds := map_set (packageIds ctx) token index |>, index)
  end.

Lemma with_package_splicer rs t ctx ctx' i :
  zlen rs < 2 ^ 64 → 0 ≤ tokens_size rs → tokens_size rs + (8 + zlen t) < 2 ^ 64 →
  BondSplicer.wf (splicer ctx) → BondSplicer.groups (splicer ctx) = grouped rs → NoDup (map fst (grouped rs)) →
  indexed (packageIds ctx) (grouped rs) → 0 ≤ BondSplicer.m_overheadEstimate (splicer ctx) ≤ tokens_size rs →
  with_package ctx t = (ctx', i) →
  let gs := BondSplicer.groups (splicer ctx') in
  BondSplicer.wf (splicer ctx') ∧ BondSplicer.m_buffer (splicer ctx') = BondSplicer.m_buffer (splicer ctx) ∧
  recordIdsAndTenantIds ctx' = recordIdsAndTenantIds ctx ∧ recordTimestamps ctx' = recordTimestamps ctx ∧
  indexed (packageIds ctx') gs ∧ NoDup (map fst gs) ∧ (∀ b, alter (push b) (Z.to_nat i) gs = place (grouped rs) t b) ∧
  0 ≤ BondSplicer.m_overheadEstimate (splicer ctx') ≤ tokens_size rs + (8 + zlen t).
Proof.
  intros Hn Htok Hroom Hwf Hg Hnd Hidx Hover. pose proof (zlen_nonneg t). unfold with_package.
  destruct (map_find (packageIds ctx) t) as [j|] eqn:E.
  - intros [= <- <-]. cbn zeta. rewrite Hg. split_and!; try done; [|lia..].
    intros b. apply Hidx in E as (g & Egi & <- & _). symmetry. by apply place_old.
  - destruct (add_tenant rs t (splicer ctx) Hg Hn) as [Eidx Ealt]. pose proof (indexed_absent _ _ _ Hidx E) as Hnew.
    pose proof (BondSplicer.addTenantToken_groups t (splicer ctx)) as Egs.
    pose proof (BondSplicer.addTenantToken_wf t (splicer ctx) Hwf) as Hwf'.
    destruct (BondSplicer.addTenantToken t (splicer ctx)) as [s1 j] eqn:Eadd. cbn [fst snd] in *. subst j.
    injection 1 as <- <-. cbn. rewrite Egs, Hg.
    assert (s1 = (BondSplicer.addTenantToken t (splicer ctx)).1) as -> by (by rewrite Eadd). split_and!; try done.
    + by apply indexed_new.
    + rewrite map_app. apply NoDup_app. split_and!; [done| |apply NoDup_singleton]. intros x Hx ->%list_elem_of_singleton. done.
    + intros b. rewrite Ealt. symmetry. by apply place_new.
    + cbn. rewrite wrap_small; unfold ubits; lia.
    + cbn. rewrite wrap_small; unfold ubits; lia.
Qed.

Lemma add_event_holds rs r ctx : room (rs ++ [r]) < 2 ^ 64 → holds rs ctx → holds (rs ++ [r]) (add_event ctx r).
Proof.
  rewrite room_split, blobs_size_snoc, tokens_size_snoc. pose proof (blobs_size_nonneg rs). pose proof (tokens_size_count rs).
  pose proof (zlen_nonneg (tenant_of r)). pose proof (zlen_nonneg (MemoryStorage.blob r)). pose proof (zlen_nonneg rs).
  intros Hroom [Hwf Hg Hidx Hnd Hbuf Hover Hids Hts]. unfold add_event. set (ctx1 := if latency ctx =? _ then _ else ctx).
  assert (splicer ctx1 = splicer ctx ∧ packageIds ctx1 = packageIds ctx ∧ recordIdsAndTenantIds ctx1 = recordIdsAndTenantIds ctx ∧
    recordTimestamps ctx1 = recordTimestamps ctx) as (Es & Ep & Ei & Et) by (unfold ctx1; by destruct (latency ctx =? _)).
  clearbody ctx1. fold (with_package ctx1 (tenant_of r)).
  destruct (with_package ctx1 (tenant_of r)) as [ctx2 i] eqn:E.
  apply (with_package_splicer rs) in E as (Hwf2 & Ebuf & Ei2 & Et2 & Hidx2 & Hnd2 & Ealt & Hover2);
    [|rewrite ?Es, ?Ep; done || lia..].
  assert (grouped (rs ++ [r]) = alter (push (MemoryStorage.blob r)) (Z.to_nat i) (BondSplicer.groups (splicer ctx2))) as Eg
    by (rewrite grouped_snoc, Ealt; done).
  split; cbn.
  - by apply BondSplicer.addRecord_wf.
  - by rewrite BondSplicer.addRecord_groups, Eg.
  - rewrite Eg. by apply indexed_push.
  - by rewrite Eg, push_tokens.
  - unfold BondSplicer.addRecord. cbn. fold (blobs_size (rs ++ [r])). by rewrite zlen_app, Ebuf, Es, Hbuf, blobs_size_snoc.
  - fold (tokens_size (rs ++ [r])). rewrite tokens_size_snoc. unfold BondSplicer.addRecord. cbn. lia.
  - by rewrite Ei2, Ei, Hids, foldl_app.
  - by rewrite Et2, Et, Hts, map_app.
Qed.

(** ** The order of a package *)

Lemma tenants_snoc rs r : tenants (rs ++ [r]) = if decide (tenant_of r ∈ tenants rs) then tenants rs else tenants rs ++ [tenant_of r].
Proof. unfold tenants. by rewrite foldl_app. Qed.

Lemma tenant_blobs_snoc rs r t :
  tenant_blobs (rs ++ [r]) t = tenant_blobs rs t ++ (if decide (tenant_of r = t) then [MemoryStorage.blob r] else []).
Proof. unfold tenant_blobs. rewrite filter_app, map_app, filter_cons, filter_nil. by case_decide. Qed.

Lemma tenants_elem rs t : t ∈ tenants rs ↔ t ∈ map tenant_of rs.
Proof.
  induction rs as [|r rs IH] using rev_ind; [done|]. rewrite tenants_snoc, map_app, elem_of_app, <-IH. cbn.
  rewrite list_elem_of_singleton. case_decide as Hd; [split; [by left|]; by intros [?| ->]|]. by rewrite elem_of_app, list_elem_of_singleton.
Qed.

Lemma tenants_NoDup rs : NoDup (tenants rs).
Proof.
  induction rs as [|r rs IH] using rev_ind; [constructor|]. rewrite tenants_snoc. case_decide as Hd; [done|].
  apply NoDup_app. split_and!; [done| |apply NoDup_singleton]. by intros x Hx ->%list_elem_of_singleton.
Qed.

Lemma tenant_blobs_absent rs t : t ∉ tenants rs → tenant_blobs rs t = [].
Proof.
  rewrite tenants_elem. intros Ht. unfold tenant_blobs. induction rs as [|r rs IH]; [done|].
  cbn in Ht. apply not_elem_of_cons in Ht as [Hr Ht]. rewrite filter_cons, decide_False by congruence. by apply IH.
Qed.

Lemma grouped_tenants rs : grouped rs = map (λ t, (t, tenant_blobs rs t)) (tenants rs).
Proof.
  induction rs as [|r rs IH] using rev_ind; [done|]. rewrite grouped_snoc, IH, tenants_snoc.
  assert (map fst (map (λ t, (t, tenant_blobs rs t)) (tenants rs)) = tenants rs) as Ek by (rewrite map_map; apply map_id).
  case_decide as Hd.
  - pose proof Hd as [i Ei]%list_elem_of_lookup. pose proof (tenants_NoDup rs) as Hnd.
    rewrite (place_old _ i (tenant_of r, tenant_blobs rs (tenant_of r))); [|by rewrite Ek|].
    2: { change (map ?f ?l) with (f <$> l). by rewrite list_lookup_fmap, Ei. }
    apply list_eq. intros k. change (map ?f ?l) with (f <$> l). rewrite list_lookup_alter, !list_lookup_fmap.
    case_decide as Hk; [subst k; rewrite Ei; cbn; by rewrite tenant_blobs_snoc, decide_True|].
    destruct (tenants rs !! k) as [t|] eqn:Et; [|done]. cbn. rewrite tenant_blobs_snoc, decide_False, app_nil_r; [done|].
    intros <-. apply Hk. by eapply NoDup_lookup.
  - rewrite place_new by (by rewrite Ek). rewrite map_app. f_equal.
    + apply map_ext_in. intros t Ht%list_elem_of_In. rewrite tenant_blobs_snoc, decide_False, app_nil_r; [done|]. congruence.
    + cbn. by rewrite tenant_blobs_snoc, decide_True, tenant_blobs_absent.
Qed.

Lemma grouped_blobs rs : concat (map snd (grouped rs)) = package_blobs rs.
Proof. rewrite grouped_tenants, map_map. done. Qed.

Lemma push_perm b gs : ∀ i g, gs !! i = Some g → concat (map snd (alter (push b) i gs)) ≡ₚ concat (map snd gs) ++ [b].
Proof.
  induction gs as [|g0 gs IH]; intros [|i] g E; cbn in *; try done.
  - rewrite <-!app_assoc. f_equiv. apply Permutation_app_comm.
  - rewrite <-app_assoc. f_equiv. by eapply IH.
Qed.

(** Every blob is there once. *)
Lemma package_blobs_perm rs : package_blobs rs ≡ₚ map MemoryStorage.blob rs.
Proof.
  rewrite <-grouped_blobs. induction rs as [|r rs IH] using rev_ind; [done|]. rewrite grouped_snoc, map_app, <-IH. cbn.
  unfold place. destruct (list_find _ _) as [[i g]|] eqn:E; [|by rewrite map_app, concat_app].
  apply list_find_Some in E as (E & _). by eapply push_perm.
Qed.

Lemma concat_size {A} (bs : list (list A)) : zlen (concat bs) = foldr (λ b n, zlen b + n) 0 bs.
Proof. induction bs as [|b bs IH]; [done|]. cbn [concat foldr]. by rewrite zlen_app, IH. Qed.

Lemma package_size rs : zlen (concat (package_blobs rs)) = blobs_size rs.
Proof.
  rewrite concat_size. assert (∀ bs bs' : list (list Z), bs ≡ₚ bs' → foldr (λ b n, zlen b + n) 0 bs = foldr (λ b n, zlen b + n) 0 bs') as Hp
    by (induction 1; cbn [foldr]; lia).
  rewrite (Hp _ _ (package_blobs_perm rs)). unfold blobs_size. induction rs as [|r rs IH]; [done|]. cbn [map foldr]. by rewrite IH.
Qed.

(** ** A retrieval *)

Definition consumer (ctx : EventsUploadContext) (r : MemoryStorage.StorageRecord) : EventsUploadContext * bool :=
  handleAddEventToPackage ctx r true.

(** The lease time of the copy given to the consumer is not looked at. *)
Lemma consumer_leased leaseTimeMs clock n ctx r : consumer ctx (MemoryStorage.for_consumer leaseTimeMs clock n r) = consumer ctx r.
Proof. unfold MemoryStorage.for_consumer. by destruct (c_true leaseTimeMs). Qed.

Definition fits (rs : list MemoryStorage.StorageRecord) : Prop := rs = [] ∨ blobs_size rs + 8 ≤ GetMaximumUploadSizeBytes.

Definition sized (ctx : EventsUploadContext) : EventsUploadContext :=
  if maxUploadSize ctx =? 0 then ctx <| maxUploadSize := GetMaximumUploadSizeBytes |> else ctx.

Lemma holds_sized rs ctx : holds rs ctx → holds rs (sized ctx).
Proof. intros H. unfold sized. destruct (maxUploadSize ctx =? 0); [|done]. destruct H. by split. Qed.

Lemma ids_empty rs ctx : holds rs ctx → recordIdsAndTenantIds ctx = [] ↔ rs = [].
Proof.
  intros H. rewrite (holds_ids _ _ H). split; [|by intros ->].
  induction rs as [|r rs _] using rev_ind; [done|]. rewrite foldl_app. cbn. set (m := foldl _ _ rs). clearbody m.
  by destruct m as [|[k x] m]; cbn; [|case_match].
Qed.

Lemma room_snoc rs r : room rs ≤ room (rs ++ [r]).
Proof.
  rewrite !room_split, blobs_size_snoc, tokens_size_snoc. pose proof (zlen_nonneg (MemoryStorage.blob r)). pose proof (zlen_nonneg (tenant_of r)). lia.
Qed.

Lemma size_estimate rs ctx (b : list Z) : holds rs ctx → blobs_size rs + tokens_size rs + 8 + zlen b < 2 ^ 64 →
  u64 (BondSplicer.getSizeEstimate (splicer ctx) + zlen b) =
    blobs_size rs + BondSplicer.m_overheadEstimate (splicer ctx) + 8 + zlen b.
Proof.
  intros H Hlt. pose proof (blobs_size_nonneg rs). pose proof (zlen_nonneg b).
  destruct (holds_overhead _ _ H) as [Ho1 Ho2]. fold (tokens_size rs) in Ho2. pose proof (holds_buffer _ _ H) as Hb. fold (blobs_size rs) in Hb.
  unfold BondSplicer.getSizeEstimate. rewrite Hb. set (o := BondSplicer.m_overheadEstimate _) in *.
  rewrite (wrap_small 64 (blobs_size rs + o)), (wrap_small 64 (blobs_size rs + o + 8)); [|unfold ubits; lia..].
  apply wrap_small. unfold ubits. lia.
Qed.

(** One record: it is added when it fits, and when it is the first. *)
Lemma consumer_packs rs r ctx ctx' more : holds rs ctx → fits rs → room (rs ++ [r]) < 2 ^ 64 →
  maxUploadSize ctx = 0 ∨ maxUploadSize ctx = GetMaximumUploadSizeBytes → consumer ctx r = (ctx', more) →
  maxUploadSize ctx' = GetMaximumUploadSizeBytes ∧
  if more then holds (rs ++ [r]) ctx' ∧ fits (rs ++ [r])
  else holds rs ctx' ∧ rs ≠ [] ∨ rs = [] ∧ holds [r] ctx' ∧ GetMaximumUploadSizeBytes < zlen (MemoryStorage.blob r) + 8.
Proof.
  intros H Hfit Hroom Hm. unfold consumer, handleAddEventToPackage. fold (sized ctx).
  assert (maxUploadSize (sized ctx) = GetMaximumUploadSizeBytes) as Em by (unfold sized; destruct (Z.eqb_spec (maxUploadSize ctx) 0); [done|]; by destruct Hm).
  apply holds_sized in H. set (ctx1 := sized ctx) in *. clearbody ctx1. clear ctx Hm.
  assert (∀ r, maxUploadSize (add_event ctx1 r) = maxUploadSize ctx1) as Ea.
  { intros r'. unfold add_event. cbv zeta. destruct (latency ctx1 =? _); cbn; by destruct (map_find _ _). }
  pose proof (room_split (rs ++ [r])) as Er. rewrite blobs_size_snoc, tokens_size_snoc in Er.
  pose proof (blobs_size_nonneg rs). pose proof (tokens_size_count rs). pose proof (zlen_nonneg rs).
  pose proof (zlen_nonneg (tenant_of r)). pose proof (zlen_nonneg (MemoryStorage.blob r)).
  destruct (holds_overhead _ _ H) as [Ho1 Ho2]. fold (tokens_size rs) in Ho2.
  rewrite (size_estimate rs ctx1 (MemoryStorage.blob r)) by (done || lia).
  rewrite Em. rewrite Z.gtb_ltb. destruct (Z.ltb_spec GetMaximumUploadSizeBytes
    (blobs_size rs + BondSplicer.m_overheadEstimate (splicer ctx1) + 8 + zlen (MemoryStorage.blob r))) as [Hlt|Hle].
  - pose proof (ids_empty _ _ H) as Hids. destruct (recordIdsAndTenantIds ctx1) as [|e ids].
    + intros [= <- <-]. rewrite Ea. split; [done|]. assert (rs = []) as -> by (by apply Hids). right.
      assert (BondSplicer.m_overheadEstimate (splicer ctx1) = 0) by (cbn in Ho2; lia). change (blobs_size []) with 0 in Hlt.
      split_and!; [done| |lia]. by apply (add_event_holds [] r).
    + intros [= <- <-]. split; [done|]. left. split; [done|]. intros ->. by destruct Hids as [_ Hids]; specialize (Hids eq_refl).
  - intros [= <- <-]. rewrite Ea. split; [done|]. split; [by apply add_event_holds|]. right. rewrite blobs_size_snoc. lia.
Qed.

(** A package that is too large takes nothing more. *)
Lemma consumer_full rs r ctx : holds rs ctx → rs ≠ [] → room (rs ++ [r]) < 2 ^ 64 →
  maxUploadSize ctx = 0 ∨ maxUploadSize ctx = GetMaximumUploadSizeBytes → GetMaximumUploadSizeBytes < blobs_size rs + 8 →
  (consumer ctx r).2 = false.
Proof.
  intros H Hne Hroom Hm Hbig. destruct (consumer ctx r) as [ctx' more] eqn:Ec. cbn. destruct more; [exfalso|done].
  unfold consumer, handleAddEventToPackage in Ec. fold (sized ctx) in Ec.
  assert (maxUploadSize (sized ctx) = GetMaximumUploadSizeBytes) as Em by (unfold sized; destruct (Z.eqb_spec (maxUploadSize ctx) 0); [done|]; by destruct Hm).
  apply holds_sized in H. set (ctx1 := sized ctx) in *. clearbody ctx1. rewrite room_split, blobs_size_snoc, tokens_size_snoc in Hroom.
  pose proof (blobs_size_nonneg rs). pose proof (tokens_size_count rs). pose proof (zlen_nonneg rs).
  pose proof (zlen_nonneg (tenant_of r)). pose proof (zlen_nonneg (MemoryStorage.blob r)).
  rewrite (size_estimate rs ctx1 (MemoryStorage.blob r)), Em, Z.gtb_ltb in Ec; [|done|lia].
  destruct (holds_overhead _ _ H) as [Ho _].
  destruct (Z.ltb_spec GetMaximumUploadSizeBytes (blobs_size rs + BondSplicer.m_overheadEstimate (splicer ctx1) + 8 + zlen (MemoryStorage.blob r))); [|lia].
  by destruct (recordIdsAndTenantIds ctx1).
Qed.

End Packager.

End Packager.
