(* ===== verification/Uploads.v ===== *)
(** * From the queue to the body of an upload

    The retrieval of lib/offline/StorageObserver.cpp with the packager as its
    consumer: which records a package holds, in what order, how large its body is, and what
    a reader of the protocol gets from it. *)

From Stdlib Require Import ZArith Lia Sorted.
From S2P Require Import Prelude StdMap BondProtocol BondLaws CsTypes CsWriters CsReaders CsRoundtrip.
From S2P Require Import MemoryStorage MemoryReads BondSplicer Packager.

Module Uploads.
Import StdMap.

Section Uploads.
Context (GetMaximumUploadSizeBytes : Z) (m_forcedTenantToken : list Z).
Context (leaseTimeMs : Z) (clock : Z → Z).

Abbreviation consumer := (Packager.consumer GetMaximumUploadSizeBytes m_forcedTenantToken).
Abbreviation holds := (Packager.holds m_forcedTenantToken).
Abbreviation fits := (Packager.fits GetMaximumUploadSizeBytes).
Abbreviation room := (Packager.room m_forcedTenantToken).
Abbreviation offer := (MemoryReads.offer consumer leaseTimeMs clock).
Implicit Types (r : MemoryStorage.StorageRecord) (rs taken : list MemoryStorage.StorageRecord).

(** The package holds the records taken, or else the first record alone when it does not fit: that
    one is packaged although the consumer wants no more. *)
Definition packed rs taken : list MemoryStorage.StorageRecord :=
  match rs, taken with
  | r :: _, [] => if GetMaximumUploadSizeBytes <? zlen (MemoryStorage.blob r) + 8 then [r] else []
  | _, _ => taken
  end.

Lemma room_app_l rs rs' : room rs ≤ room (rs ++ rs').
Proof.
  induction rs' as [|r rs' IH] using rev_ind; [by rewrite app_nil_r|]. rewrite app_assoc.
  pose proof (Packager.room_snoc m_forcedTenantToken (rs ++ rs') r). lia.
Qed.

Lemma offer_packs rs : ∀ ctx before n max taken ctx' stop,
  holds before ctx → before ≠ [] → fits before → room (before ++ rs) < 2 ^ 64 →
  Packager.maxUploadSize ctx = 0 ∨ Packager.maxUploadSize ctx = GetMaximumUploadSizeBytes →
  offer rs ctx n max = (taken, ctx', stop) → holds (before ++ taken) ctx' ∧ fits (before ++ taken).
Proof.
  induction rs as [|r rs IH]; intros ctx before n max taken ctx' stop H Hne Hfit Hroom Hm E; cbn in E.
  { injection E as <- <- _. by rewrite app_nil_r. }
  destruct (max =? 0); [injection E as <- <- _; by rewrite app_nil_r|].
  rewrite Packager.consumer_leased in E. destruct (consumer ctx r) as [c1 more] eqn:Ec.
  rewrite cons_middle, app_assoc in Hroom. pose proof (room_app_l (before ++ [r]) rs).
  eapply Packager.consumer_packs in Ec as [Em Hc]; [|done..|lia|done]. destruct more.
  - destruct (offer rs c1 (n + 1) (max - 1)) as [[t c2] b] eqn:Eo. injection E as <- <- <-. destruct Hc as [Hc Hf].
    rewrite cons_middle, app_assoc. eapply IH; [exact Hc|by destruct before|done..|by right|exact Eo].
  - injection E as <- <- _. rewrite app_nil_r. destruct Hc as [[? _]|(-> & _)]; done.
Qed.

Lemma offer_package_from rs ctx0 max taken ctx stop : holds [] ctx0 →
  Packager.maxUploadSize ctx0 = 0 ∨ Packager.maxUploadSize ctx0 = GetMaximumUploadSizeBytes →
  room rs < 2 ^ 64 → 0 < max → offer rs ctx0 0 max = (taken, ctx, stop) →
  holds (packed rs taken) ctx ∧ (packed rs taken = taken → fits taken) ∧
  (taken = [] → Packager.maxUploadSize ctx = 0 ∨ Packager.maxUploadSize ctx = GetMaximumUploadSizeBytes).
Proof.
  intros H Hm Hroom Hpos E. destruct rs as [|r rs]; cbn in E; [injection E as <- <- _; split_and!; [done|by left|done]|].
  destruct (Z.eqb_spec max 0); [lia|]. rewrite Packager.consumer_leased in E.
  destruct (consumer ctx0 r) as [c1 more] eqn:Ec.
  pose proof (room_app_l [r] rs). eapply (Packager.consumer_packs _ _ []) in Ec as [Em Hc]; [|done|by left|cbn [app] in *; lia|done].
  cbn [app] in Hc. destruct more.
  - destruct (offer rs c1 (0 + 1) (max - 1)) as [[t c2] b] eqn:Eo. injection E as <- <- <-. destruct Hc as [Hc Hf]. cbn [packed].
    destruct (offer_packs rs c1 [r] _ _ _ _ _ Hc ltac:(done) Hf Hroom ltac:(by right) Eo) as [? ?]. done.
  - injection E as <- <- _. destruct Hc as [[_ Hc]|(_ & Hc & Hlt)]; [done|]. cbn [packed].
    destruct (Z.ltb_spec GetMaximumUploadSizeBytes (zlen (MemoryStorage.blob r) + 8)); [|lia]. split_and!; [done|by intros|by right].
Qed.

Lemma offer_package rs minLatency maxCount max taken ctx stop : room rs < 2 ^ 64 → 0 < max →
  offer rs (Packager.new_context minLatency maxCount) 0 max = (taken, ctx, stop) →
  holds (packed rs taken) ctx ∧ (packed rs taken = taken → fits taken).
Proof.
  intros Hroom Hpos E. pose proof (Packager.new_context_holds m_forcedTenantToken minLatency maxCount) as H.
  destruct (offer_package_from rs _ max taken ctx stop H ltac:(by left) Hroom Hpos E) as (? & ? & _). done.
Qed.

(** ** The body *)

Lemma package_ids rs ctx : holds rs ctx → Packager.packageIds ctx = [] ↔ rs = [].
Proof.
  intros H. pose proof (Packager.holds_index _ _ _ H) as Hidx. split.
  - intros E. rewrite E in Hidx. destruct rs as [|r rs]; [done|].
    pose proof (Packager.tenants_elem m_forcedTenantToken (r :: rs) (Packager.tenant_of m_forcedTenantToken r)) as [_ Ht].
    destruct (Packager.grouped m_forcedTenantToken (r :: rs)) as [|g gs] eqn:Eg.
    + rewrite Packager.grouped_tenants in Eg. destruct (Packager.tenants m_forcedTenantToken (r :: rs)); [|done].
      exfalso. eapply (not_elem_of_nil), Ht. by left.
    + destruct (Hidx g.1 0) as [_ Hg]. discriminate Hg. by exists g.
  - intros ->. destruct (Packager.packageIds ctx) as [|[k i] ids]; [done|]. destruct (Hidx k i) as [Hg _].
    destruct Hg as (g & E & _); [cbn; by rewrite key_compare_refl|].
    change (Packager.grouped m_forcedTenantToken []) with (@nil (list Z * list (list Z))) in E. by rewrite lookup_nil in E.
Qed.

Lemma finalize_body rs ctx : holds rs ctx → rs ≠ [] →
  ∃ ctx', Packager.handleFinalizePackage ctx = (Packager.packagedEvents, ctx') ∧
    Packager.body ctx' = concat (Packager.package_blobs m_forcedTenantToken rs) ∧
    Packager.recordIdsAndTenantIds ctx' = Packager.recordIdsAndTenantIds ctx ∧
    Packager.recordTimestamps ctx' = Packager.recordTimestamps ctx.
Proof.
  intros H Hne. unfold Packager.handleFinalizePackage. pose proof (package_ids rs ctx H) as Hids.
  destruct (Packager.packageIds ctx); [by rewrite (proj1 Hids eq_refl) in Hne|]. eexists. split_and!; [done| |done..]. cbn.
  by rewrite BondSplicer.splice_groups, (Packager.holds_groups _ _ _ H), Packager.grouped_blobs.
Qed.

(** ** Retrieving from memory *)

Context (sizeof_record : Z) (Hlease : leaseTimeMs ≠ 0).
Implicit Types m : MemoryStorage.memory.

(** The records a retrieval considers, in the order they are offered. *)
Definition offered m (minLatency : Z) : list MemoryStorage.StorageRecord :=
  MemoryReads.candidates (MemoryStorage.m_records m) (MemoryStorage.visited minLatency).

Definition retrieve m (minLatency maxCount : Z) : Packager.EventsUploadContext * MemoryStorage.memory :=
  MemoryStorage.GetAndReserveRecords sizeof_record consumer leaseTimeMs clock
    (Packager.new_context minLatency maxCount) minLatency maxCount m.

Lemma retrieve_package m minLatency maxCount ctx m1 : length (MemoryStorage.m_records m) = 5%nat →
  MemoryStorage.EventLatency_Unspecified ≤ minLatency → 0 ≤ maxCount → room (offered m minLatency) < 2 ^ 64 →
  retrieve m minLatency maxCount = (ctx, m1) →
  ∃ taken, offered m minLatency = taken ++ offered m1 minLatency ∧
    MemoryStorage.m_reserved_records m1 = MemoryReads.lease leaseTimeMs (MemoryStorage.m_reserved_records m) taken ∧
    holds (packed (offered m minLatency) taken) ctx ∧ (packed (offered m minLatency) taken = taken → fits taken).
Proof.
  intros Hlen Hmin Hmax Hroom E. unfold retrieve in E.
  destruct (MemoryReads.GetAndReserve_offered sizeof_record consumer leaseTimeMs clock (Packager.new_context minLatency maxCount)
    minLatency maxCount m Hlen Hmin Hmax) as (taken & ctx1 & stop & queues' & Eo & E1 & Ec & _).
  rewrite E1 in E. injection E as <- <-. exists taken. split_and!; [done..| |];
    (eapply offer_package; [done| |exact Eo]; unfold MemoryReads.limit; destruct (Z.eqb_spec maxCount 0); lia).
Qed.

(** C27. What is uploaded: the package made from the queue in memory holds the records that
    the retrieval leased (or, if the first record is larger than an upload may be, that record
    alone), nothing else and nothing twice; its body is their blobs, the tenants in the
    order of their first record and the records of a tenant in the order they were offered; the
    identifiers and times the context keeps for the answer are theirs. *)
Theorem package_contents m minLatency maxCount ctx m1 : length (MemoryStorage.m_records m) = 5%nat →
  MemoryStorage.EventLatency_Unspecified ≤ minLatency → 0 ≤ maxCount → room (offered m minLatency) < 2 ^ 64 →
  retrieve m minLatency maxCount = (ctx, m1) →
  ∃ taken, offered m minLatency = taken ++ offered m1 minLatency ∧
    MemoryStorage.m_reserved_records m1 = foldl (λ s r, map_set s (MemoryStorage.id r) r) (MemoryStorage.m_reserved_records m) taken ∧
    let rs := packed (offered m minLatency) taken in
    let '(route, ctx') := Packager.handleFinalizePackage ctx in
    if decide (rs = []) then route = Packager.emptyPackage
    else route = Packager.packagedEvents ∧
      Packager.body ctx' = concat (Packager.package_blobs m_forcedTenantToken rs) ∧
      Packager.package_blobs m_forcedTenantToken rs ≡ₚ map MemoryStorage.blob rs ∧
      Packager.recordIdsAndTenantIds ctx' =
        foldl (λ ids r, map_set ids (MemoryStorage.id r) (MemoryStorage.tenantToken r)) [] rs ∧
      Packager.recordTimestamps ctx' = map MemoryStorage.timestamp rs.
Proof.
  intros Hlen Hmin Hmax Hroom E. destruct (retrieve_package _ _ _ _ _ Hlen Hmin Hmax Hroom E) as (taken & Eo & El & H & _).
  exists taken. split_and!; [done| |].
  - rewrite El. unfold MemoryReads.lease, c_true. by destruct (Z.eqb_spec leaseTimeMs 0).
  - cbv zeta. case_decide as Hd.
    + apply (package_ids _ _ H) in Hd. unfold Packager.handleFinalizePackage. by rewrite Hd.
    + destruct (finalize_body _ _ H Hd) as (ctx' & -> & Hb & Hi & Ht). split_and!; [done..| | |].
      * apply Packager.package_blobs_perm.
      * rewrite Hi. apply H.
      * rewrite Ht. apply H.
Qed.

(** C28. The bound on an upload: the body is at most [GetMaximumUploadSizeBytes] - 8 bytes,
    unless it is a single record that is larger. *)
Theorem upload_size_bound m minLatency maxCount ctx m1 : length (MemoryStorage.m_records m) = 5%nat →
  MemoryStorage.EventLatency_Unspecified ≤ minLatency → 0 ≤ maxCount → room (offered m minLatency) < 2 ^ 64 →
  retrieve m minLatency maxCount = (ctx, m1) →
  match Packager.handleFinalizePackage ctx with
  | (Packager.packagedEvents, ctx') =>
      zlen (Packager.body ctx') ≤ GetMaximumUploadSizeBytes - 8 ∨
      ∃ r rest, offered m minLatency = r :: rest ∧ Packager.body ctx' = MemoryStorage.blob r
  | (Packager.emptyPackage, _) => offered m1 minLatency = offered m minLatency
  end.
Proof.
  intros Hlen Hmin Hmax Hroom E. destruct (retrieve_package _ _ _ _ _ Hlen Hmin Hmax Hroom E) as (taken & Eo & El & H & Hfit).
  set (rs := packed (offered m minLatency) taken) in *. destruct (decide (rs = [])) as [Hd|Hd].
  - pose proof Hd as Hd'. apply (package_ids _ _ H) in Hd'. unfold Packager.handleFinalizePackage. rewrite Hd'.
    destruct taken as [|r taken]; [done|]. unfold rs, packed in Hd. by destruct (offered m minLatency).
  - destruct (finalize_body _ _ H Hd) as (ctx' & -> & Hb & _). rewrite Hb. destruct taken as [|r taken].
    + right. unfold rs, packed in *. destruct (offered m minLatency) as [|r rest]; [done|].
      destruct (GetMaximumUploadSizeBytes <? _); [|done]. exists r, rest. split; [done|].
      rewrite <-Packager.grouped_blobs. unfold Packager.grouped. cbn. by rewrite app_nil_r.
    + left. rewrite Packager.package_size. assert (rs = r :: taken) as -> by (unfold rs, packed; by destruct (offered m minLatency)).
      destruct Hfit as [|Hfit]; [unfold packed; by destruct (offered m minLatency)|done|lia].
Qed.

(** A record larger than an upload may be is packaged and still left in the queue,
    without a lease: a retrieval made before the first upload is answered packages the same
    record again. *)
Theorem oversize_packaged_twice m minLatency maxCount r rest : length (MemoryStorage.m_records m) = 5%nat →
  MemoryStorage.EventLatency_Unspecified ≤ minLatency → 0 ≤ maxCount → room (offered m minLatency) < 2 ^ 64 →
  offered m minLatency = r :: rest → GetMaximumUploadSizeBytes < zlen (MemoryStorage.blob r) + 8 →
  let '(ctx, m1) := retrieve m minLatency maxCount in
  (Packager.handleFinalizePackage ctx).1 = Packager.packagedEvents ∧
  Packager.recordIdsAndTenantIds ctx = [(MemoryStorage.id r, MemoryStorage.tenantToken r)] ∧
  MemoryStorage.m_reserved_records m1 = MemoryStorage.m_reserved_records m ∧
  Packager.recordIdsAndTenantIds (retrieve m1 minLatency maxCount).1 = [(MemoryStorage.id r, MemoryStorage.tenantToken r)].
Proof.
  intros Hlen Hmin Hmax Hroom Eoff Hbig.
  assert (∀ m ctx m1, length (MemoryStorage.m_records m) = 5%nat → offered m minLatency = r :: rest →
    room (offered m minLatency) < 2 ^ 64 → retrieve m minLatency maxCount = (ctx, m1) →
    holds [r] ctx ∧ MemoryStorage.m_reserved_records m1 = MemoryStorage.m_reserved_records m ∧
    offered m1 minLatency = r :: rest ∧ length (MemoryStorage.m_records m1) = 5%nat) as Hone.
  { clear m Hlen Hroom Eoff. intros m ctx m1 Hlen Eoff Hroom E. unfold retrieve in E.
    destruct (MemoryReads.GetAndReserve_offered sizeof_record consumer leaseTimeMs clock (Packager.new_context minLatency maxCount)
      minLatency maxCount m Hlen Hmin Hmax) as (taken & ctx1 & stop & queues' & Eo & E1 & Ec & _ & Hl & _).
    rewrite E1 in E. injection E as <- <-. fold (offered m minLatency) in Eo, Ec. rewrite Eoff in Eo, Ec, Hroom.
    assert (0 < MemoryReads.limit maxCount) as Hlim by (unfold MemoryReads.limit; destruct (Z.eqb_spec maxCount 0); lia).
    destruct (offer_package (r :: rest) minLatency maxCount _ _ _ _ Hroom Hlim Eo) as [H Hfit].
    assert (taken = []) as ->.
    { destruct taken as [|r' taken]; [done|]. injection Ec as <- _. destruct Hfit as [|Hfit]; [done..|].
      cbn [Packager.blobs_size foldr] in Hfit. pose proof (Packager.blobs_size_nonneg taken). unfold Packager.blobs_size in *. cbn in Hfit. lia. }
    cbn [packed] in H. destruct (Z.ltb_spec GetMaximumUploadSizeBytes (zlen (MemoryStorage.blob r) + 8)); [|lia].
    split_and!; [done| |unfold offered; cbn; by rewrite Ec|done]. cbn. unfold MemoryReads.lease. by destruct (c_true leaseTimeMs). }
  destruct (retrieve m minLatency maxCount) as [ctx m1] eqn:E1. destruct (Hone m ctx m1) as (H1 & Er & Eoff1 & Hlen1); [done..|].
  destruct (retrieve m1 minLatency maxCount) as [ctx2 m2] eqn:E2. destruct (Hone m1 ctx2 m2) as (H2 & _); [done|done|by rewrite Eoff1, <-Eoff|done|].
  split_and!; [|by rewrite (Packager.holds_ids _ _ _ H1)|done|cbn; by rewrite (Packager.holds_ids _ _ _ H2)].
  destruct (finalize_body [r] ctx H1) as (ctx' & -> & _); done.
Qed.

End Uploads.

(** ** Reading a body *)

(** The events of a body, read one after the other. *)
Fixpoint read_events `{B : CsTypes.Build} (fuel : nat) (bytes : list Z) : option (list CsTypes.CsRecord) :=
  match bytes with
  | [] => Some []
  | _ :: _ =>
      match fuel with
      | O => None
      | S fuel =>
          match CsReaders.Deserialize_CsRecord CsTypes.CsRecord_default false bytes with
          | Bond.Ok v rest => cons v <$> read_events fuel rest
          | _ => None
          end
      end
  end.

Section Reading.
Context `{B : CsTypes.Build}.

Abbreviation event_bytes v := (CsWriters.Serialize_CsRecord v false).

Lemma event_bytes_nonempty v : CsTypes.CsRecord_ok v → event_bytes v ≠ [].
Proof.
  intros Hv E. pose proof (CsRoundtrip.CsRecord_codec false v Hv []) as Hr. rewrite app_nil_r, E in Hr.
  destruct B as [[] []]; vm_compute in Hr; discriminate.
Qed.

Lemma read_events_concat (vs : list CsTypes.CsRecord) fuel : Forall CsTypes.CsRecord_ok vs → (length vs ≤ fuel)%nat →
  read_events fuel (concat (map (λ v, event_bytes v) vs)) = Some (map CsRoundtrip.CsRecord_c vs).
Proof.
  intros Hvs. revert fuel. induction Hvs as [|v vs Hv Hvs IH]; intros fuel Hf; cbn [map concat]; [by destruct fuel|].
  destruct fuel as [|fuel]; [cbn in Hf; lia|]. pose proof (event_bytes_nonempty v Hv) as Hne.
  assert (CsReaders.Deserialize_CsRecord CsTypes.CsRecord_default false (event_bytes v ++ concat (map (λ v, event_bytes v) vs)) =
    Bond.Ok (CsRoundtrip.CsRecord_c v) (concat (map (λ v, event_bytes v) vs))) as Hr by exact (CsRoundtrip.CsRecord_codec false v Hv _).
  destruct (event_bytes v) as [|b bs] eqn:Eb; [done|]. cbn [read_events app]. cbn [app] in Hr. rewrite Hr.
  rewrite IH by (cbn in Hf; lia). done.
Qed.

Lemma concat_length {A} (bs : list (list A)) : Forall (λ b, b ≠ []) bs → (length bs ≤ length (concat bs))%nat.
Proof. induction 1 as [|b bs Hb _ IH]; cbn; [lia|]. rewrite length_app. destruct b; [done|]. cbn. lia. Qed.

(** The records of a package, in the order of its body. *)
Definition package_records (m_forcedTenantToken : list Z) (rs : list MemoryStorage.StorageRecord) : list MemoryStorage.StorageRecord :=
  concat (map (λ t, filter (λ r, Packager.tenant_of m_forcedTenantToken r = t) rs) (Packager.tenants m_forcedTenantToken rs)).

Lemma package_blobs_records token rs : Packager.package_blobs token rs = map MemoryStorage.blob (package_records token rs).
Proof. unfold Packager.package_blobs, package_records. rewrite concat_map, map_map. done. Qed.

Lemma package_records_elem token rs r : r ∈ package_records token rs → r ∈ rs.
Proof.
  unfold package_records. rewrite list_elem_of_In, in_concat. intros (q & (t & <- & _)%in_map_iff & Hr).
  apply list_elem_of_In, list_elem_of_filter in Hr as [_ Hr]. done.
Qed.

Lemma packed_elem M rs taken left r : rs = taken ++ left → r ∈ packed M rs taken → r ∈ rs.
Proof.
  intros ->. unfold packed. destruct (taken ++ left) as [|r0 rest] eqn:E; destruct taken as [|r1 taken]; cbn in E; try done.
  - destruct (_ <? _); [|by intros ?%not_elem_of_nil]. intros ->%list_elem_of_singleton. by left.
  - injection E as <- <-. rewrite !elem_of_cons, elem_of_app. tauto.
Qed.

(** C29. What the collector reads: when the blobs in the queue are serialized events, the body
    of the package made from the queue, read event by event to its end, gives exactly the
    events of the packaged records, grouped by tenant. *)
Theorem body_decodes M token leaseTimeMs clock sizeof_record m minLatency maxCount ctx m1 (event : MemoryStorage.StorageRecord → CsTypes.CsRecord) :
  length (MemoryStorage.m_records m) = 5%nat → MemoryStorage.EventLatency_Unspecified ≤ minLatency → 0 ≤ maxCount →
  Packager.room token (offered m minLatency) < 2 ^ 64 →
  Forall (λ r, CsTypes.CsRecord_ok (event r) ∧ MemoryStorage.blob r = event_bytes (event r)) (offered m minLatency) →
  retrieve M token leaseTimeMs clock sizeof_record m minLatency maxCount = (ctx, m1) →
  match Packager.handleFinalizePackage ctx with
  | (Packager.packagedEvents, ctx') =>
      ∃ taken, offered m minLatency = taken ++ offered m1 minLatency ∧
        let rs := package_records token (packed M (offered m minLatency) taken) in
        rs ≠ [] ∧ read_events (length (Packager.body ctx')) (Packager.body ctx') =
          Some (map (λ r, CsRoundtrip.CsRecord_c (event r)) rs)
  | (Packager.emptyPackage, _) => offered m1 minLatency = offered m minLatency
  end.
Proof.
  intros Hlen Hmin Hmax Hroom Hev E.
  destruct (retrieve_package _ _ _ _ _ _ _ _ _ _ Hlen Hmin Hmax Hroom E) as (taken & Eo & El & H & _).
  pose proof (package_ids _ _ _ H) as Hids. destruct (decide (packed M (offered m minLatency) taken = [])) as [Hd|Hd].
  { unfold Packager.handleFinalizePackage. rewrite (proj2 Hids Hd). unfold packed in Hd. destruct taken; [done|]. by destruct (offered m minLatency). }
  destruct (finalize_body _ _ _ H Hd) as (ctx' & -> & Hb & _). exists taken. split; [done|]. cbv zeta.
  set (rs := packed M (offered m minLatency) taken) in *.
  assert (Forall (λ r, CsTypes.CsRecord_ok (event r) ∧ MemoryStorage.blob r = event_bytes (event r)) (package_records token rs)) as Hevs.
  { rewrite Forall_forall in *. intros r Hr%package_records_elem. apply Hev. by eapply packed_elem. }
  assert (map MemoryStorage.blob (package_records token rs) = map (λ v, event_bytes v) (map event (package_records token rs))) as Eb.
  { rewrite map_map. apply map_ext_in. intros r Hr%list_elem_of_In. rewrite Forall_forall in Hevs. by apply Hevs. }
  assert (Forall CsTypes.CsRecord_ok (map event (package_records token rs))) as Hok.
  { apply Forall_map. eapply Forall_impl; [exact Hevs|]. by intros r []. }
  split.
  - intros En. apply Hd. pose proof (Packager.package_blobs_perm token rs) as Hp. rewrite package_blobs_records, En in Hp.
    apply Permutation_nil, map_eq_nil in Hp. done.
  - rewrite Hb, package_blobs_records, Eb. rewrite read_events_concat, map_map; [done|done|].
    etransitivity; [|apply concat_length].
    + by rewrite !length_map.
    + apply Forall_map. eapply Forall_impl; [exact Hok|]. intros v Hv. by apply event_bytes_nonempty.
Qed.

End Reading.

(** A queue of two serialized events of two tenants, read with room for one of them. *)
Definition ex_blob : list Z := Eval vm_compute in @CsWriters.Serialize_CsRecord CsRoundtrip.cs3 CsRoundtrip.sample_record false.
Definition ex_stored (i t : Z) : MemoryStorage.StorageRecord := MemoryStorage.MkRecord [i] [t] 1 1 i ex_blob 0 0.
Definition ex_queue : MemoryStorage.memory :=
  MemoryStorage.MkMemory [[]; [ex_stored 1 7; ex_stored 2 8; ex_stored 3 7]; []; []; []] [] 477 0.

Definition ex_clock : Z → Z := λ n, 5.
Definition ex_retrieved := retrieve 4000 [] 120000 ex_clock 100 ex_queue 1 0.

Lemma ex_retrieved_eq : retrieve 4000 [] 120000 ex_clock 100 ex_queue 1 0 = (ex_retrieved.1, ex_retrieved.2).
Proof. unfold ex_retrieved. apply surjective_pairing. Qed.

Lemma ex_finalized : Packager.handleFinalizePackage ex_retrieved.1 = (Packager.packagedEvents, (Packager.handleFinalizePackage ex_retrieved.1).2).
Proof. vm_compute. reflexivity. Qed.

Lemma package_contents_witness :
  Packager.recordTimestamps (Packager.handleFinalizePackage ex_retrieved.1).2 = [3; 2; 1] ∧
  Packager.body (Packager.handleFinalizePackage ex_retrieved.1).2 = ex_blob ++ ex_blob ++ ex_blob.
Proof.
  destruct (package_contents 4000 [] 120000 ex_clock 100 ltac:(lia) ex_queue 1 0 ex_retrieved.1 ex_retrieved.2
    eq_refl ltac:(vm_compute; discriminate) ltac:(lia) ltac:(vm_compute; reflexivity) ex_retrieved_eq) as (taken & H).
  split; vm_compute; reflexivity.
Defined.

Lemma upload_size_witness :
  zlen (Packager.body (Packager.handleFinalizePackage ex_retrieved.1).2) ≤ 4000 - 8.
Proof.
  pose proof (upload_size_bound 4000 [] 120000 ex_clock 100 ex_queue 1 0 ex_retrieved.1 ex_retrieved.2
    eq_refl ltac:(vm_compute; discriminate) ltac:(lia) ltac:(vm_compute; reflexivity) ex_retrieved_eq) as H.
  rewrite ex_finalized in H. destruct H as [H|(r & rest & E & Eb)]; [exact H|]. rewrite Eb.
  assert (offered ex_queue 1 = [ex_stored 3 7; ex_stored 2 8; ex_stored 1 7]) as E' by (vm_compute; reflexivity).
  rewrite E' in E. injection E as <- _. vm_compute. discriminate.
Defined.

Lemma oversize_witness :
  Packager.recordIdsAndTenantIds (retrieve 20 [] 120000 ex_clock 100 (retrieve 20 [] 120000 ex_clock 100 ex_queue 1 0).2 1 0).1 = [([3], [7])].
Proof.
  exact (proj2 (proj2 (proj2 (oversize_packaged_twice 20 [] 120000 ex_clock 100 ex_queue 1 0 (ex_stored 3 7) [ex_stored 2 8; ex_stored 1 7]
    eq_refl ltac:(vm_compute; discriminate) ltac:(lia) ltac:(vm_compute; reflexivity) eq_refl ltac:(vm_compute; reflexivity))))).
Defined.

Lemma body_decodes_witness :
  @read_events CsRoundtrip.cs3 177 (Packager.body (Packager.handleFinalizePackage ex_retrieved.1).2) =
    Some [CsRoundtrip.CsRecord_c CsRoundtrip.sample_record; CsRoundtrip.CsRecord_c CsRoundtrip.sample_record; CsRoundtrip.CsRecord_c CsRoundtrip.sample_record].
Proof.
  assert (Forall (λ r, @CsTypes.CsRecord_ok CsRoundtrip.cs3 CsRoundtrip.sample_record ∧
    MemoryStorage.blob r = @CsWriters.Serialize_CsRecord CsRoundtrip.cs3 CsRoundtrip.sample_record false) (offered ex_queue 1)) as Hev.
  { assert (ex_blob = @CsWriters.Serialize_CsRecord CsRoundtrip.cs3 CsRoundtrip.sample_record false) as Eb by (vm_compute; reflexivity).
    assert (offered ex_queue 1 = [ex_stored 3 7; ex_stored 2 8; ex_stored 1 7]) as -> by (vm_compute; reflexivity).
    repeat (constructor; [split; [apply CsRoundtrip.sample_ok|exact Eb]|]). constructor. }
  pose proof (@body_decodes CsRoundtrip.cs3 4000 [] 120000 ex_clock 100 ex_queue 1 0 ex_retrieved.1 ex_retrieved.2
    (λ _, CsRoundtrip.sample_record) eq_refl ltac:(vm_compute; discriminate) ltac:(lia) ltac:(vm_compute; reflexivity) Hev ex_retrieved_eq) as H.
  rewrite ex_finalized in H. destruct H as (taken & _). vm_compute. reflexivity.
Defined.

End Uploads.
