(* ===== verification/HttpHeaders.v ===== *)
(** * Headers of a response, and numbers in them

    lib/include/public/IHttpClient.hpp: [HttpHeaders] is a multimap, the list of its
    entries in the order of the names, entries of one name in the order they were
    added. [std::stoi] is [None] when it throws. *)

From Stdlib Require Import ZArith Lia Sorted.
From S2P Require Import Prelude StdMap.

Module HttpHeaders.
Import StdMap.

Definition headers : Type := list (list Z * list Z).

(** [add]: after the entries of the same name. *)
Fixpoint add (h : headers) (name value : list Z) : headers :=
  match h with
  | [] => [(name, value)]
  | e :: h' => match key_compare name e.1 with Lt => (name, value) :: h | _ => e :: add h' name value end
  end.

(** [equal_range]. *)
Definition values (h : headers) (name : list Z) : list (list Z) :=
  map snd (filter (λ e : list Z * list Z, e.1 = name) h).

(** [get]: the value found, or the empty string. *)
Definition get (h : headers) (name : list Z) : list Z :=
  match values h name with [] => [] | v :: _ => v end.

(** [set]: the entries of the name make place for one. *)
Definition set (h : headers) (name value : list Z) : headers :=
  add (filter (λ e : list Z * list Z, e.1 ≠ name) h) name value.

(** ** [std::stoi] *)

Definition is_space (c : Z) : bool := (c =? 32) || ((9 <=? c) && (c <=? 13)).
Definition is_digit (c : Z) : bool := (48 <=? c) && (c <=? 57).

Fixpoint skip_spaces (s : list Z) : list Z :=
  match s with c :: s' => if is_space c then skip_spaces s' else s | [] => [] end.

Fixpoint number (s : list Z) (n : Z) : Z :=
  match s with c :: s' => if is_digit c then number s' (10 * n + (c - 48)) else n | [] => n end.

Definition stoi (s : list Z) : option Z :=
  let s := skip_spaces s in
  let '(negative, s) :=
    match s with
    | c :: s' => if c =? 45 then (true, s') else if c =? 43 then (false, s') else (false, s)
    | [] => (false, s)
    end in
  match s with
  | c :: _ =>
      if is_digit c then
        let n := if negative then - number s 0 else number s 0 in
        if (- 2 ^ 31 <=? n) && (n <? 2 ^ 31) then Some n else None
      else None
  | [] => None
  end.

End HttpHeaders.
