(* ===== verification/KillSwitch.v ===== *)
(** * Killed tenants and clock skew

    lib/offline/KillSwitchManager.hpp and lib/offline/ClockSkewManager.hpp. The clock is
    in seconds; [clock i] is what the [i]-th reading of it gives during an
    operation. [None] is the exception [std::stoi] throws. *)

From Stdlib Require Import ZArith Lia Sorted.
From S2P Require Import Prelude StdMap HttpHeaders.

Module KillSwitch.
Import StdMap.

Record KillSwitchManager := MkKillSwitch {
  m_tokenTime : smap Z; m_isRetryAfterActive : bool; m_retryAfterExpiryTime : Z
}.

Definition new_manager : KillSwitchManager := MkKillSwitch [] false 0.

Definition isActive (k : KillSwitchManager) : bool := match m_tokenTime k with [] => false | _ => true end.

Definition addToken (k : KillSwitchManager) (tokenId : list Z) (timeInSeconds now : Z) : KillSwitchManager :=
  if timeInSeconds >? 0 then
    MkKillSwitch (map_set (m_tokenTime k) tokenId (i64 (now + timeInSeconds))) (m_isRetryAfterActive k) (m_retryAfterExpiryTime k)
  else k.

(** "Retry-After", "kill-tokens", "kill-duration". *)
Definition s_retry_after : list Z := [82; 101; 116; 114; 121; 45; 65; 102; 116; 101; 114].
Definition s_kill_tokens : list Z := [107; 105; 108; 108; 45; 116; 111; 107; 101; 110; 115].
Definition s_kill_duration : list Z := [107; 105; 108; 108; 45; 100; 117; 114; 97; 116; 105; 111; 110].

(** The suffix from the first [':'] on goes. *)
Fixpoint strip (token : list Z) : list Z :=
  match token with c :: t => if c =? 58 then [] else c :: strip t | [] => [] end.

Definition retry_after (k : KillSwitchManager) (h : HttpHeaders.headers) (now : Z) : option KillSwitchManager :=
  match HttpHeaders.get h s_retry_after with
  | [] => Some k
  | timeStr =>
      match HttpHeaders.stoi timeStr with
      | None => None
      | Some timeinSecs => Some (if timeinSecs >? 0 then MkKillSwitch (m_tokenTime k) true (i64 (now + timeinSecs)) else k)
      end
  end.

Fixpoint add_tokens (k : KillSwitchManager) (tokens : list (list Z)) (timeinSecs : Z) (clock : Z → Z) (i : Z) : KillSwitchManager :=
  match tokens with
  | [] => k
  | t :: tokens => add_tokens (addToken k t timeinSecs (clock i)) tokens timeinSecs clock (i + 1)
  end.

Definition killed_tokens (h : HttpHeaders.headers) : list (list Z) := map strip (HttpHeaders.values h s_kill_tokens).

Definition kill_duration (h : HttpHeaders.headers) : option Z :=
  match HttpHeaders.get h s_kill_duration with [] => Some 0 | timeString => HttpHeaders.stoi timeString end.

(** Whether tokens were killed, with the manager after that. *)
Definition handleResponse (k : KillSwitchManager) (h : HttpHeaders.headers) (clock : Z → Z) : option (bool * KillSwitchManager) :=
  match retry_after k h (clock 0) with
  | None => None
  | Some k =>
      match killed_tokens h with
      | [] => Some (false, k)
      | tokens =>
          match kill_duration h with
          | None => None
          | Some timeinSecs =>
              if timeinSecs >? 0 then Some (true, add_tokens k tokens timeinSecs clock 1) else Some (false, k)
          end
      end
  end.

Definition isTokenBlocked (k : KillSwitchManager) (tokenId : list Z) (clock : Z → Z) : bool * KillSwitchManager :=
  if m_isRetryAfterActive k && (m_retryAfterExpiryTime k >? clock 0) then (true, k)
  else
    let k := if m_isRetryAfterActive k then MkKillSwitch (m_tokenTime k) false 0 else k in
    match map_find (m_tokenTime k) tokenId with
    | Some timeStamp =>
        if timeStamp >? clock 1 then (true, k)
        else (false, MkKillSwitch (map_erase (m_tokenTime k) tokenId) (m_isRetryAfterActive k) (m_retryAfterExpiryTime k))
    | None => (false, k)
    end.

Definition removeToken (k : KillSwitchManager) (tokenId : list Z) : KillSwitchManager :=
  match map_find (m_tokenTime k) tokenId with
  | Some _ => MkKillSwitch (map_erase (m_tokenTime k) tokenId) (m_isRetryAfterActive k) (m_retryAfterExpiryTime k)
  | None => k
  end.

Definition getTokensList (k : KillSwitchManager) : list (list Z) := map fst (m_tokenTime k).

Definition isRetryAfterActive (k : KillSwitchManager) : bool := m_isRetryAfterActive k.

(** [OfflineStorageHandler::isKilled]. *)
Definition isKilled (k : KillSwitchManager) (tenantToken : list Z) (clock : Z → Z) : bool * KillSwitchManager :=
  if isActive k then isTokenBlocked k tenantToken clock else (false, k).

(** ** Killed tokens stay blocked until their time *)

Lemma add_tokens_find tokens timeinSecs clock : timeinSecs > 0 → ∀ k i t,
  (∃ j, map_find (m_tokenTime (add_tokens k tokens timeinSecs clock i)) t = Some (i64 (clock j + timeinSecs)) ∧ t ∈ tokens) ∨
  (map_find (m_tokenTime (add_tokens k tokens timeinSecs clock i)) t = map_find (m_tokenTime k) t ∧ t ∉ tokens).
Proof.
  intros Hpos. induction tokens as [|u tokens IH]; intros k i t; cbn [add_tokens]; [right; split; [done|apply not_elem_of_nil]|].
  destruct (IH (addToken k u timeinSecs (clock i)) (i + 1) t) as [(j & E & Hin)|[E Hnin]].
  - left. exists j. split; [done|]. by right.
  - unfold addToken in E at 2. rewrite Z.gtb_ltb in E. destruct (Z.ltb_spec 0 timeinSecs); [|lia]. cbn in E. rewrite map_find_set in E.
    destruct (decide (t = u)) as [->|Hne]; [left; exists i; split; [done|by left]|right; split; [done|]].
    by apply not_elem_of_cons.
Qed.

Lemma map_find_keys {A} (m : smap A) t x : map_find m t = Some x → t ∈ map fst m.
Proof. intros E%map_find_elem_1. apply list_elem_of_fmap. by exists (t, x). Qed.

(** What a response that kills tokens leaves. *)
Lemma handleResponse_kills k h clock k' : handleResponse k h clock = Some (true, k') →
  ∃ d, kill_duration h = Some d ∧ d > 0 ∧ killed_tokens h ≠ [] ∧
    ∀ t, t ∈ killed_tokens h → ∃ j, map_find (m_tokenTime k') t = Some (i64 (clock j + d)).
Proof.
  unfold handleResponse. destruct (retry_after k h (clock 0)) as [k1|]; [|done]. destruct (killed_tokens h) as [|u tokens] eqn:Et; [done|].
  destruct (kill_duration h) as [d|]; [|done]. rewrite Z.gtb_ltb. destruct (Z.ltb_spec 0 d) as [Hpos|]; [|done]. intros [= <-].
  exists d. split_and!; [done|lia|done|]. intros t Ht.
  destruct (add_tokens_find (u :: tokens) d clock ltac:(lia) k1 1 t) as [(j & E & _)|[_ Hn]]; [by exists j|done].
Qed.

Lemma isKilled_until k t clock e : map_find (m_tokenTime k) t = Some e → clock 0 < e → clock 1 < e →
  (isKilled k t clock).1 = true.
Proof.
  intros E H0 H1. unfold isKilled, isActive. assert (m_tokenTime k ≠ []) as Hne by (intros E0; by rewrite E0 in E).
  destruct (m_tokenTime k) as [|x ts] eqn:Ek; [done|]. unfold isTokenBlocked. destruct (m_isRetryAfterActive k && _); [done|].
  assert (m_tokenTime (if m_isRetryAfterActive k then MkKillSwitch (m_tokenTime k) false 0 else k) = x :: ts) as ->
    by (by destruct (m_isRetryAfterActive k)).
  rewrite E, Z.gtb_ltb. by destruct (Z.ltb_spec (clock 1) e); [|lia].
Qed.

Lemma map_find_erase_ne {A} (m : smap A) k k' : k' ≠ k → map_find (map_erase m k) k' = map_find m k'.
Proof.
  intros Hne. induction m as [|[q x] m IH]; [done|]. cbn. destruct (key_compare k q) eqn:E; cbn [map_find].
  - apply key_eq in E as <-. destruct (key_compare k' k) eqn:E'; [|done..]. by apply key_eq in E'.
  - by rewrite IH.
  - by rewrite IH.
Qed.

(** Asking for a record of any tenant keeps what is in force. *)
Lemma isKilled_keeps k t u clock e : map_find (m_tokenTime k) t = Some e → clock 1 < e →
  map_find (m_tokenTime (isKilled k u clock).2) t = Some e.
Proof.
  intros E H1. unfold isKilled, isTokenBlocked. destruct (isActive k); [|done]. destruct (m_isRetryAfterActive k && _); [done|].
  assert (m_tokenTime (if m_isRetryAfterActive k then MkKillSwitch (m_tokenTime k) false 0 else k) = m_tokenTime k) as Ek
    by (by destruct (m_isRetryAfterActive k)).
  rewrite Ek. destruct (map_find (m_tokenTime k) u) as [ts|] eqn:Eu; [|cbn [snd]; by rewrite Ek]. rewrite Z.gtb_ltb.
  destruct (Z.ltb_spec (clock 1) ts); cbn [snd m_tokenTime]; [by rewrite Ek|].
  rewrite map_find_erase_ne; [done|]. intros ->. assert (e = ts) by congruence. lia.
Qed.

(** C33. A "Retry-After" answer is not respected: when an answer brings a positive Retry-After and
    kills no tenant ([handleResponse]), and none was killed before, [isTokenBlocked] blocks every
    tenant until the time given, but [isKilled], the test every new record takes, blocks none, because
    [isActive] only looks at the killed tokens. *)
Theorem retry_after_ignored k h clock killed k' t now secs : handleResponse k h clock = Some (killed, k') →
  HttpHeaders.get h s_retry_after ≠ [] → HttpHeaders.stoi (HttpHeaders.get h s_retry_after) = Some secs → secs > 0 →
  killed_tokens h = [] → m_tokenTime k = [] →
  killed = false ∧ isRetryAfterActive k' = true ∧
  (now 0 < i64 (clock 0 + secs) → (isTokenBlocked k' t now).1 = true) ∧ isKilled k' t now = (false, k').
Proof.
  intros E Hne Hs Hpos Hk Ht. unfold handleResponse, retry_after in E. rewrite Hk in E.
  destruct (HttpHeaders.get h s_retry_after) as [|c s] eqn:Eg; [done|]. rewrite Hs in E.
  rewrite Z.gtb_ltb in E. destruct (Z.ltb_spec 0 secs); [|lia]. injection E as <- <-. rewrite Ht. split_and!; [done|done| |done].
  intros Hnow. unfold isTokenBlocked. cbn. rewrite Z.gtb_ltb. by destruct (Z.ltb_spec (now 0) (i64 (clock 0 + secs))); [|lia].
Qed.

(** "Retry-After: 120", asked 60 seconds later. *)
Lemma retry_after_witness :
  let k := MkKillSwitch [] true 1120 in
  handleResponse new_manager [(s_retry_after, [49; 50; 48])] (λ _, 1000) = Some (false, k) ∧
  (isTokenBlocked k [1] (λ _, 1060)).1 = true ∧ isKilled k [1] (λ _, 1060) = (false, k).
Proof.
  assert (handleResponse new_manager [(s_retry_after, [49; 50; 48])] (λ _, 1000) = Some (false, MkKillSwitch [] true 1120)) as E by (vm_compute; reflexivity).
  split; [exact E|].
  destruct (retry_after_ignored new_manager [(s_retry_after, [49; 50; 48])] (λ _, 1000) false _ [1] (λ _, 1060) 120 E) as (_ & _ & H1 & H2);
    [discriminate|vm_compute; reflexivity|lia|vm_compute; reflexivity|reflexivity|]. split; [apply H1; vm_compute; reflexivity|exact H2].
Defined.

(** ** Clock skew *)

Record ClockSkewManager := MkClockSkew {
  m_delta : list Z; m_pingSent : bool; m_deltaReceived : bool; m_resumeTransmissionAfterClockSkew : bool; m_pingSendTime : Z
}.

Definition new_clock_skew : ClockSkewManager := MkClockSkew [] false false false 0.

(** "time-delta-millis", "use-collector-delta". *)
Definition s_time_delta : list Z := [116; 105; 109; 101; 45; 100; 101; 108; 116; 97; 45; 109; 105; 108; 108; 105; 115].
Definition s_use_collector : list Z :=
  [117; 115; 101; 45; 99; 111; 108; 108; 101; 99; 116; 111; 114; 45; 100; 101; 108; 116; 97].

Definition SetDelta (c : ClockSkewManager) (delta : list Z) : ClockSkewManager :=
  MkClockSkew delta (m_pingSent c) true (m_resumeTransmissionAfterClockSkew c) (m_pingSendTime c).

Definition clock_handleResponse (c : ClockSkewManager) (h : HttpHeaders.headers) : ClockSkewManager :=
  let c := SetDelta c (HttpHeaders.get h s_time_delta) in
  MkClockSkew (m_delta c) (m_pingSent c) (m_deltaReceived c) true (m_pingSendTime c).

Definition isClockSkewOn (c : ClockSkewManager) : bool :=
  negb (m_pingSent c) || (m_deltaReceived c && match m_delta c with [] => false | _ => true end).

Definition isWaitingForClockSkew (c : ClockSkewManager) (now : Z) : bool * ClockSkewManager :=
  if negb (m_deltaReceived c) && m_pingSent c then
    if i64 (now - m_pingSendTime c) >? 30 then (false, SetDelta c []) else (true, c)
  else (false, c).

Definition GetDelta (c : ClockSkewManager) (now : Z) : list Z * ClockSkewManager :=
  if negb (m_pingSent c) then
    (s_use_collector, MkClockSkew (m_delta c) true (m_deltaReceived c) (m_resumeTransmissionAfterClockSkew c) now)
  else (m_delta c, c).

Definition GetResumeTransmissionAfterClockSkew (c : ClockSkewManager) : bool := m_resumeTransmissionAfterClockSkew c.

Definition SetResumeTransmissionAfterClockSkew (c : ClockSkewManager) (value : bool) : ClockSkewManager :=
  MkClockSkew (m_delta c) (m_pingSent c) (m_deltaReceived c) value (m_pingSendTime c).

End KillSwitch.
