(* ===== verification/OfflineStorage.v ===== *)
(** * The interface of a storage and its contract

    [IOfflineStorage] of lib/include/public/IOfflineStorage.hpp: the operations a
    storage offers as a type class, what its documentation promises of them as a second one.
    The contents of a storage are the two maps of MemoryRefinement. [MemoryStorage] is shown
    to keep the contract; a database is a parameter that is assumed to. [None] is undefined
    behaviour. *)

From Stdlib Require Import ZArith Lia Sorted.
From stdpp Require Import gmap.
From S2P Require Import Prelude StdMap MemoryStorage MemoryReads MemoryInvariant MemoryRefinement.

Module OfflineStorage.
Import StdMap MemoryStorage MemoryReads MemoryInvariant MemoryRefinement.

Class IOfflineStorage (S : Type) := {
  s_StoreRecord : StorageRecord → S → option (bool * S);
  s_StoreRecords : list StorageRecord → S → option (Z * S);
  s_GetAndReserveRecords : ∀ {C : Type}, (C → StorageRecord → C * bool) → Z → Z → Z → (Z → Z) → C → S → bool * C * S;
  s_LastReadRecordCount : S → Z;
  s_DeleteRecords : list (list Z) → S → S;
  s_DeleteRecords_where : smap (list Z) → S → S;
  s_DeleteAllRecords : S → S;
  s_ReleaseRecords : list (list Z) → bool → S → option S;
  s_ReleaseAllRecords : S → option S;
  s_GetRecords : Z → Z → S → list StorageRecord * S;
  s_GetSize : S → Z;
  s_GetRecordCount : Z → S → option Z
}.

(** Records that can be stored: their identifiers are new and distinct, and their
    latencies are ones of a stored record. *)
Definition storable (a : contents) (rs : list StorageRecord) : Prop :=
  NoDup (map id rs) ∧ Forall (fresh a) rs ∧ Forall (λ r, EventLatency_Normal ≤ latency r ≤ EventLatency_Max) rs.

(** What a release may drop besides: records whose retry count has reached a limit. *)
Definition pruned (limit : option Z) (a a' : contents) : Prop :=
  available a' ⊆ available a ∧ leased a' ⊆ leased a ∧
  ∀ k r, (available a !! k = Some r ∧ available a' !! k = None) ∨ (leased a !! k = Some r ∧ leased a' !! k = None) →
    ∃ n, limit = Some n ∧ n ≤ retryCount r.

Lemma pruned_refl limit a : pruned limit a a.
Proof. split_and!; [done|done|]. intros k r [[E1 E2]|[E1 E2]]; congruence. Qed.

Lemma subseteq_eq (a b : records) : a ⊆ b → (∀ k r, b !! k = Some r → a !! k ≠ None) → a = b.
Proof.
  intros Hs Hn. apply (anti_symm (⊆)); [done|]. apply map_subseteq_spec. intros k r E. destruct (a !! k) as [r'|] eqn:E'; [|by apply Hn in E].
  rewrite <-E. symmetry. by eapply lookup_weaken.
Qed.

(** Without a limit nothing is dropped. *)
Lemma pruned_none a a' : pruned None a a' → a' = a.
Proof.
  intros (H1 & H2 & H3). destruct a as [av le], a' as [av' le']. cbn in *.
  f_equal; apply subseteq_eq; try done; intros k r E1 E2; destruct (H3 k r) as (? & [=] & _); [by left|by right].
Qed.

(** What a storage promises. [room_for] says that the storage can take the records without
    trimming others; [max_retries] is the retry count at which a release that counts a retry may drop a
    record, which the documentation of [ReleaseRecords] grants to persistent storages. *)
Class StorageContract (S : Type) `{!IOfflineStorage S} := {
  valid : S → Prop;
  held : S → contents;
  room_for : S → list StorageRecord → Prop;
  max_retries : S → option Z;
  held_disjoint s : valid s → available (held s) ##ₘ leased (held s);
  held_keys s k r : valid s → available (held s) !! k = Some r ∨ leased (held s) !! k = Some r → id r = k;
  store_records s rs : valid s → room_for s rs → storable (held s) rs →
    ∃ s', s_StoreRecords rs s = Some (zlen rs, s') ∧ valid s' ∧
      held s' = Contents (index rs ∪ available (held s)) (leased (held s));
  (** Records whose lease has run out may become available first, with one retry more or not; the
      consumer is offered available records, and the ones it takes are leased. *)
  reserve_records {C} (consumer : C → StorageRecord → C * bool) leaseTimeMs minLatency maxCount clock c s :
    valid s → EventLatency_Unspecified ≤ minLatency → 0 ≤ maxCount < 2 ^ 32 → leaseTimeMs ≠ 0 →
    let '(_, c', s') := s_GetAndReserveRecords consumer leaseTimeMs minLatency maxCount clock c s in
    ∃ expired up offered taken stop clock', valid s' ∧ expired ⊆ leased (held s) ∧
      let back := retried up <$> expired in
      NoDup (map id offered) ∧ index offered ⊆ available (held s) ∪ back ∧
      offer consumer leaseTimeMs clock' offered c 0 (limit maxCount) = (taken, c', stop) ∧
      s_LastReadRecordCount s' = zlen taken ∧
      held s' = Contents ((available (held s) ∪ back) ∖ index taken) (index taken ∪ (leased (held s) ∖ expired));
  delete_records ids s : valid s → valid (s_DeleteRecords ids s) ∧ spec (Delete ids) (held s) (held (s_DeleteRecords ids s));
  delete_where w s : valid s → valid (s_DeleteRecords_where w s) ∧ spec (DeleteWhere w) (held s) (held (s_DeleteRecords_where w s));
  delete_all s : valid s → valid (s_DeleteAllRecords s) ∧ held (s_DeleteAllRecords s) = Contents ∅ ∅;
  release_records ids inc s : valid s →
    ∃ s' a, s_ReleaseRecords ids inc s = Some s' ∧ valid s' ∧ spec (Release ids inc) (held s) a ∧
      pruned (if inc then max_retries s else None) a (held s')
}.

(** What a queue in memory promises besides: it can be emptied into another storage. *)
Class QueueContract (S : Type) `{StorageContract S} := {
  get_records s : valid s →
    let '(rs, s') := s_GetRecords EventLatency_Unspecified 0 s in
    valid s' ∧ index rs = available (held s) ∧ NoDup (map id rs) ∧
    Forall (λ r, EventLatency_Normal ≤ latency r ≤ EventLatency_Max) rs ∧ held s' = Contents ∅ (leased (held s));
  release_all s : valid s → ∃ s', s_ReleaseAllRecords s = Some s' ∧ valid s' ∧ spec ReleaseAll (held s) (held s');
  size_zero s : valid s → s_GetSize s ≤ 0 → available (held s) = ∅
}.

(** ** The queue in memory *)

Section Memory.
Context (sizeof_record : Z).

Definition memory_storage : IOfflineStorage memory := {|
  s_StoreRecord r m := StoreRecord sizeof_record m r;
  s_StoreRecords rs m := StoreRecords sizeof_record m rs;
  s_GetAndReserveRecords C consumer leaseTimeMs minLatency maxCount clock c m :=
    let '(c, m) := GetAndReserveRecords sizeof_record consumer leaseTimeMs clock c minLatency maxCount m in (true, c, m);
  s_LastReadRecordCount := LastReadRecordCount;
  s_DeleteRecords := DeleteRecords sizeof_record;
  s_DeleteRecords_where := DeleteRecords_where sizeof_record;
  s_DeleteAllRecords := DeleteAllRecords;
  s_ReleaseRecords := ReleaseRecords sizeof_record;
  s_ReleaseAllRecords := ReleaseAllRecords sizeof_record;
  s_GetRecords := GetRecords sizeof_record;
  s_GetSize := GetSize;
  s_GetRecordCount := GetRecordCount
|}.
#[local] Existing Instance memory_storage.


Context (Hsizeof : 0 < sizeof_record).
Implicit Types (m : memory) (rs : list StorageRecord).

(** The records are fewer than the unsigned counters can count. *)
Definition memory_valid m : Prop := wf sizeof_record m ∧ unique m ∧ zlen (ids_of m) < 2 ^ 32.
Definition memory_room m rs : Prop :=
  total sizeof_record (queued m) + total sizeof_record (in_flight m) + total sizeof_record rs < 2 ^ 64 ∧
  zlen (ids_of m) + zlen rs < 2 ^ 32.

Lemma submseteq_zlen {A} (xs ys : list A) : xs ⊆+ ys → zlen xs ≤ zlen ys.
Proof. intros H%submseteq_length. unfold zlen. lia. Qed.

Lemma step_valid c m m' : step sizeof_record c m m' → memory_valid m → brought c = [] →
  memory_valid m' ∧ spec c (contents_of m) (contents_of m').
Proof.
  intros Hs (Hwf & Hu & Hn) Hb. destruct (step_refines sizeof_record ltac:(lia) c m m' Hs Hwf) as [Hspec Hids]; [by rewrite Hb|].
  rewrite Hb in Hids. split; [|done]. split_and!; [eapply step_wf; [|done..]; lia|by eapply NoDup_submseteq_mono|].
  pose proof (submseteq_zlen _ _ Hids) as Hl. cbn in Hl. lia.
Qed.

(** ** Storing a batch *)

Lemma StoreRecords_contents rs : ∀ m, memory_valid m → memory_room m rs → storable (contents_of m) rs →
  ∃ m', StoreRecords sizeof_record m rs = Some (zlen rs, m') ∧ memory_valid m' ∧
    contents_of m' = Contents (index rs ∪ available (contents_of m)) (leased (contents_of m)).
Proof.
  induction rs as [|r rs IH]; intros m (Hwf & Hu & Hn) [Hroom Hcount] (Hnd & Hfr & Hlat); cbn [StoreRecords].
  { exists m. unfold index. cbn. rewrite (left_id_L ∅ (∪)). by split_and!. }
  cbn [map] in Hnd. apply NoDup_cons in Hnd as [Hr Hnd]. apply Forall_cons in Hfr as [[Hf1 Hf2] Hfr]. apply Forall_cons in Hlat as [Hl Hlat].
  rewrite total_cons in Hroom. rewrite zlen_cons in Hcount. pose proof (zlen_nonneg rs).
  pose proof (total_nonneg sizeof_record ltac:(lia) rs).
  destruct (StoreRecord_stored sizeof_record m r) as (ok & m1 & E); [apply Hwf|unfold EventLatency_Normal in Hl; lia|]. rewrite E.
  pose proof E as Est. apply StoreRecord_queued in Est as [(_ & _ & Hoff)|(-> & Hoff & _ & Hq & Er & _)].
  { unfold EventLatency_Normal, EventLatency_Off in *. lia. }
  assert (id r ∉ ids_of m) as Hnew.
  { unfold ids_of. rewrite map_app. apply index_none in Hf1, Hf2. by apply not_elem_of_app. }
  assert (wf sizeof_record m1) as Hwf1 by (eapply StoreRecord_wf; [lia|exact Hwf| |exact E]; lia).
  destruct (store_refines r m m1) as [Ec Hids]; [done..|unfold in_flight; by rewrite Er|].
  assert (zlen (ids_of m1) = 1 + zlen (ids_of m)) as En by (unfold zlen; rewrite Hids; cbn; lia).
  assert (total sizeof_record (queued m1) = record_size sizeof_record r + total sizeof_record (queued m)) as Et by (by rewrite (total_perm _ _ _ Hq)).
  assert (in_flight m1 = in_flight m) as Ef by (unfold in_flight; by rewrite Er).
  destruct (IH m1) as (m2 & -> & Hv & Ec2).
  - split_and!; [done| |lia]. unfold unique. fold (ids_of m1). rewrite Hids. by apply NoDup_cons.
  - split; [rewrite Et, Ef; lia|lia].
  - split_and!; [done| |done]. rewrite Ec. eapply Forall_impl; [apply Forall_and; split; [exact Hfr|]|].
    + apply Forall_forall. intros r' Hr'. instantiate (1 := λ r', id r' ≠ id r). cbn. intros E'. apply Hr. rewrite <-E'. apply list_elem_of_fmap. by exists r'.
    + intros r' [[H1 H2] Hne]. split; cbn; [by rewrite lookup_insert_ne by congruence|done].
  - exists m2. rewrite zlen_cons. split_and!; [do 2 f_equal; lia|done|]. rewrite Ec2, Ec. cbn [available leased]. f_equal.
    rewrite index_cons, <-insert_union_l, insert_union_r; [done|]. by apply index_none.
Qed.

(** ** Retrieving *)

Lemma candidates_queued lats : ∀ queues : list (list StorageRecord), NoDup lats → Forall (λ l, 0 ≤ l) lats →
  candidates queues lats ⊆+ concat queues.
Proof.
  induction lats as [|lat lats IH]; intros queues Hnd Hpos; [apply submseteq_nil_l|].
  apply NoDup_cons in Hnd as [Hlat Hnd]. apply Forall_cons in Hpos as [H0 Hpos].
  change (candidates queues (lat :: lats)) with (rev (default [] (queues !! Z.to_nat lat)) ++ candidates queues lats).
  destruct (queues !! Z.to_nat lat) as [q|] eqn:E; [|by apply IH]. change (default [] (Some q)) with q.
  rewrite <-(candidates_insert queues lat [] lats); [|done|].
  - pose proof (concat_insert queues _ q [] E) as Hp. rewrite app_nil_r in Hp. rewrite <-Hp, Permutation_app_comm, <-Permutation_rev.
    apply submseteq_app; [|done]. by apply IH.
  - rewrite Forall_forall in *. intros l Hl. split; [by apply Hpos|]. intros ->. done.
Qed.

Lemma reserve_held {C} (consumer : C → StorageRecord → C * bool) leaseTimeMs clock c minLatency maxCount m c' m' :
  memory_valid m → EventLatency_Unspecified ≤ minLatency → 0 ≤ maxCount → 
  GetAndReserveRecords sizeof_record consumer leaseTimeMs clock c minLatency maxCount m = (c', m') →
  let offered := candidates (m_records m) (visited minLatency) in
  ∃ taken stop, memory_valid m' ∧ NoDup (map id offered) ∧ offered ⊆+ queued m ∧
    offer consumer leaseTimeMs clock offered c 0 (limit maxCount) = (taken, c', stop) ∧ m_lastReadCount m' = zlen taken ∧
    contents_of m' = Contents (available (contents_of m) ∖ index taken)
      (if c_true leaseTimeMs then index taken ∪ leased (contents_of m) else leased (contents_of m)) ∧
    queued m ≡ₚ taken ++ queued m'.
Proof.
  intros (Hwf & Hu & Hn) Hmin Hmax E. pose proof (unique_split m Hu) as (Hnq & _ & _).
  pose proof (GetAndReserve_wf sizeof_record ltac:(lia) consumer leaseTimeMs clock c minLatency maxCount m Hwf Hmin Hmax) as Hwf'.
  destruct (GetAndReserve_offered sizeof_record consumer leaseTimeMs clock c minLatency maxCount m (wf_length _ m Hwf) Hmin Hmax)
    as (taken & c1 & stop & queues' & Eo & E1 & _ & Hp & _). rewrite E1 in *. injection E as <- <-. cbn [snd] in Hwf'.
  set (m' := MkMemory _ _ _ _) in *. destruct (visited_in_range (m_records m) minLatency (wf_length _ m Hwf) Hmin) as [Hnd Hr].
  assert (candidates (m_records m) (visited minLatency) ⊆+ queued m) as Hsub.
  { apply candidates_queued; [done|]. eapply Forall_impl; [exact Hr|]. cbn. lia. }
  assert (in_flight m' ≡ₚ (if c_true leaseTimeMs then taken else []) ++ in_flight m) as Hf.
  { apply lease_in_flight. rewrite <-(in_flight_keys sizeof_record) by done. unfold unique, queued in Hu. rewrite Hp, !map_app in Hu.
    rewrite <-app_assoc, (Permutation_app_comm (map id (concat _))), app_assoc in Hu. by apply NoDup_app in Hu as [? _]. }
  destruct (reserve_contents leaseTimeMs m m' taken Hu Hp Hf) as (Ec & Hids & _).
  exists taken, stop. split_and!; try done.
  - split_and!; [done|by eapply NoDup_submseteq_mono|]. pose proof (submseteq_zlen _ _ Hids). lia.
  - eapply NoDup_submseteq_mono; [by apply (fmap_submseteq id)|done].
Qed.

(** ** The contract is kept *)

Lemma memory_disjoint m : memory_valid m → available (contents_of m) ##ₘ leased (contents_of m).
Proof. intros (_ & Hu & _). by apply contents_disjoint. Qed.

Lemma memory_keys m k r : memory_valid m → available (contents_of m) !! k = Some r ∨ leased (contents_of m) !! k = Some r → id r = k.
Proof. intros (_ & (Hq & Hf & _)%unique_split & _) [[_ E]%index_elem|[_ E]%index_elem]; done. Qed.

Lemma memory_reserve {C} (consumer : C → StorageRecord → C * bool) leaseTimeMs minLatency maxCount clock c m :
  memory_valid m → EventLatency_Unspecified ≤ minLatency → 0 ≤ maxCount < 2 ^ 32 → leaseTimeMs ≠ 0 →
  let '(_, c', m') := s_GetAndReserveRecords consumer leaseTimeMs minLatency maxCount clock c m in
  ∃ expired up offered taken stop clock', memory_valid m' ∧ expired ⊆ leased (contents_of m) ∧
    let back := retried up <$> expired in
    NoDup (map id offered) ∧ index offered ⊆ available (contents_of m) ∪ back ∧
    offer consumer leaseTimeMs clock' offered c 0 (limit maxCount) = (taken, c', stop) ∧
    s_LastReadRecordCount m' = zlen taken ∧
    contents_of m' = Contents ((available (contents_of m) ∪ back) ∖ index taken)
      (index taken ∪ (leased (contents_of m) ∖ expired)).
Proof.
  intros Hv Hmin Hmax Hlease. cbn. destruct (GetAndReserveRecords _ _ _ _ _ _ _ _) as [c' m'] eqn:E.
  apply reserve_held in E as (taken & stop & Hv' & Hnd & Hsub & Eo & En & Ec & _); [|done..|lia].
  exists ∅, false, (candidates (m_records m) (visited minLatency)), taken, stop, clock.
  rewrite fmap_empty, !(right_id_L ∅ (∪)), map_difference_empty. split_and!; try done.
  - apply map_empty_subseteq.
  - apply map_subseteq_spec. intros k r. destruct Hv as (_ & (Hq & _ & _)%unique_split & _). by apply index_mono.
  - unfold LastReadRecordCount. rewrite En. apply wrap_small.
    destruct (offer_count _ _ _ _ _ _ (limit maxCount) _ _ _ ltac:(unfold limit; destruct (maxCount =? 0); lia) Eo) as [Hle _].
    pose proof (zlen_nonneg taken). unfold limit in Hle. unfold ubits. destruct (Z.eqb_spec maxCount 0); lia.
  - rewrite Ec. unfold c_true. by destruct (Z.eqb_spec leaseTimeMs 0).
Qed.

Lemma memory_release ids inc m : memory_valid m →
  ∃ m' a, ReleaseRecords sizeof_record ids inc m = Some m' ∧ memory_valid m' ∧ spec (Release ids inc) (contents_of m) a ∧
    pruned (if inc then None else None) a (contents_of m').
Proof.
  intros Hv. destruct (ReleaseRecords_spec sizeof_record ltac:(lia) ids inc m (proj1 Hv)) as (m' & E & _). exists m', (contents_of m'). split; [done|].
  destruct (step_valid (Release ids inc) m m') as [H1 H2]; [by constructor|done|done|]. split_and!; [done|done|apply pruned_refl].
Qed.

Program Definition memory_contract : StorageContract memory := {|
  valid := memory_valid; held := contents_of; room_for := memory_room; max_retries _ := None;
  held_disjoint := memory_disjoint; held_keys := memory_keys;
  store_records m rs := StoreRecords_contents rs m;
  reserve_records C := memory_reserve;
  delete_records ids m Hv := step_valid (Delete ids) m _ (step_delete _ ids m) Hv eq_refl;
  delete_where w m Hv := step_valid (DeleteWhere w) m _ (step_delete_where _ w m) Hv eq_refl;
  release_records := memory_release
|}.
Next Obligation.
  intros m Hv. destruct (step_valid DeleteAll m _ (step_delete_all _ m) Hv eq_refl) as [Hv' Hs]. split; [done|].
  assert (∀ a a', spec DeleteAll a a' → a' = Contents ∅ ∅) as Hall by (intros a a' Ha; by inversion Ha). exact (Hall _ _ Hs).
Qed.
#[local] Existing Instance memory_contract.

(** A consumer that takes everything. *)
Lemma offer_all (rs : list StorageRecord) : ∀ c n max, zlen rs ≤ max →
  offer (λ records r, (records ++ [r], true)) 0 (λ _, 0) rs c n max = (rs, c ++ rs, false).
Proof.
  induction rs as [|r rs IH]; intros c n max Hle; cbn [offer]; [by rewrite app_nil_r|].
  rewrite zlen_cons in Hle. pose proof (zlen_nonneg rs). destruct (Z.eqb_spec max 0); [lia|]. cbn.
  rewrite IH by lia. by rewrite <-app_assoc.
Qed.

Lemma all_candidates m : memory_valid m → candidates (m_records m) (visited EventLatency_Unspecified) ≡ₚ queued m.
Proof.
  intros (Hwf & _). pose proof (wf_length _ m Hwf) as Hl. unfold queued. destruct (m_records m) as [|q0 [|q1 [|q2 [|q3 [|q4 [|]]]]]]; try done.
  change (candidates [q0; q1; q2; q3; q4] (visited EventLatency_Unspecified)) with (rev q4 ++ rev q3 ++ rev q2 ++ rev q1 ++ rev q0 ++ []).
  cbn [concat]. rewrite !app_nil_r, <-!Permutation_rev.
  rewrite (Permutation_app_comm q4), (Permutation_app_comm q3), (Permutation_app_comm q2), (Permutation_app_comm q1), <-!app_assoc. done.
Qed.

Lemma memory_get_records m : memory_valid m →
  let '(rs, m') := GetRecords sizeof_record EventLatency_Unspecified 0 m in
  memory_valid m' ∧ index rs = available (contents_of m) ∧ NoDup (map id rs) ∧
  Forall (λ r, EventLatency_Normal ≤ latency r ≤ EventLatency_Max) rs ∧ contents_of m' = Contents ∅ (leased (contents_of m)).
Proof.
  intros Hv. destruct (GetRecords sizeof_record EventLatency_Unspecified 0 m) as [rs m'] eqn:E.
  pose proof (all_candidates m Hv) as Hp. pose proof Hv as (Hwf & Hu & Hn). pose proof (unique_split m Hu) as (Hnq & _ & _).
  apply reserve_held in E as (taken & stop & Hv' & Hnd & _ & Eo & _ & Ec & _); [|done..].
  rewrite offer_all in Eo.
  2: { unfold zlen. rewrite Hp. unfold ids_of, zlen in Hn. rewrite length_map, length_app in Hn. unfold limit. cbn. lia. }
  injection Eo as <- <- _. cbn [app] in *. set (rs := candidates _ _) in *.
  assert (index rs = available (contents_of m)) as Ei by (by apply index_perm). split_and!; try done.
  - rewrite Hp. by apply (wf_queued sizeof_record).
  - rewrite Ec, Ei, map_difference_diag. done.
Qed.

Lemma memory_release_all m : memory_valid m →
  ∃ m', ReleaseAllRecords sizeof_record m = Some m' ∧ memory_valid m' ∧ spec ReleaseAll (contents_of m) (contents_of m').
Proof.
  intros Hv. destruct (ReleaseRecords_spec sizeof_record ltac:(lia) (map fst (m_reserved_records m)) false m (proj1 Hv)) as (m' & E & _).
  rewrite <-(ReleaseAll_spec sizeof_record m (proj1 Hv)) in E. exists m'. split; [done|]. apply step_valid; [by constructor|done|done].
Qed.

Lemma memory_size_zero m : memory_valid m → GetSize m ≤ 0 → available (contents_of m) = ∅.
Proof.
  intros (Hwf & _) E. unfold GetSize in E. rewrite (wf_size _ m Hwf) in E. cbn. destruct (queued m) as [|r q]; [done|].
  rewrite total_cons in E. pose proof (total_nonneg sizeof_record ltac:(lia) q). unfold record_size in E. pose proof (zlen_nonneg (blob r)). lia.
Qed.

Definition memory_queue : QueueContract memory := {|
  get_records := memory_get_records; release_all := memory_release_all; size_zero := memory_size_zero
|}.

End Memory.

End OfflineStorage.
