(* ===== verification/ModelDisk.v ===== *)
(** * A database that keeps the contract

    The simplest storage: two maps. It shows that the contract of OfflineStorage can be
    kept, with room for any records, and is the database of the examples. It can have a limit of retries:
    a release that counts a retry then drops every record that has reached it. *)

From Stdlib Require Import ZArith Lia Sorted.
From stdpp Require Import gmap.
From S2P Require Import Prelude StdMap MemoryStorage MemoryReads MemoryInvariant MemoryRefinement OfflineStorage.

Module ModelDisk.
Import StdMap MemoryStorage MemoryReads MemoryInvariant MemoryRefinement OfflineStorage.

Record db := MkDb { tables : contents; last_read : Z; retry_limit : option Z }.

Definition empty_db : db := MkDb (Contents ∅ ∅) 0 None.

Definition db_rows (minLatency : Z) (d : db) : list StorageRecord :=
  filter (λ r, minLatency ≤ latency r) (map snd (map_to_list (available (tables d)))).

Definition db_reserve {C : Type} (consumer : C → StorageRecord → C * bool) (leaseTimeMs minLatency maxCount : Z) (clock : Z → Z) (c : C) (d : db) :
    bool * C * db :=
  let '(taken, c, _) := offer consumer leaseTimeMs clock (db_rows minLatency d) c 0 (limit maxCount) in
  (bool_decide (taken ≠ []), c,
   MkDb (Contents (available (tables d) ∖ index taken) (index taken ∪ leased (tables d))) (zlen taken) (retry_limit d)).

Definition on_tables (f : records → records) (d : db) : db :=
  MkDb (Contents (f (available (tables d))) (f (leased (tables d)))) (last_read d) (retry_limit d).

Definition released (ids : list (list Z)) (inc : bool) (a : contents) : contents :=
  Contents ((retried inc <$> filter (λ e, e.1 ∈ ids) (leased a)) ∪ available a) (filter (λ e, e.1 ∉ ids) (leased a)).

Definition within_limit (limit : option Z) (e : list Z * StorageRecord) : bool :=
  match limit with Some n => retryCount e.2 <? n | None => true end.

Definition db_release (ids : list (list Z)) (inc : bool) (d : db) : db :=
  let d := MkDb (released ids inc (tables d)) (last_read d) (retry_limit d) in
  if inc then on_tables (filter (λ e, within_limit (retry_limit d) e = true)) d else d.

#[global] Instance db_storage : IOfflineStorage db := {|
  s_StoreRecord r d := Some (true, MkDb (Contents (<[id r := r]> (available (tables d))) (leased (tables d))) (last_read d) (retry_limit d));
  s_StoreRecords rs d := Some (zlen rs, MkDb (Contents (index rs ∪ available (tables d)) (leased (tables d))) (last_read d) (retry_limit d));
  s_GetAndReserveRecords C := db_reserve;
  s_LastReadRecordCount := last_read;
  s_DeleteRecords ids := on_tables (filter (λ e, e.1 ∉ ids));
  s_DeleteRecords_where w := on_tables (filter (λ e, matcher e.2 w = false));
  s_DeleteAllRecords := on_tables (λ _, ∅);
  s_ReleaseRecords ids inc d := Some (db_release ids inc d);
  s_ReleaseAllRecords d := Some (MkDb (Contents (leased (tables d) ∪ available (tables d)) ∅) (last_read d) (retry_limit d));
  s_GetRecords minLatency maxCount d := (db_rows minLatency d, d);
  s_GetSize d := 0;
  s_GetRecordCount lat d := Some (Z.of_nat (base.size (available (tables d))))
|}.

Definition keyed (m : records) : Prop := ∀ k r, m !! k = Some r → id r = k.
Definition db_valid (d : db) : Prop :=
  available (tables d) ##ₘ leased (tables d) ∧ keyed (available (tables d)) ∧ keyed (leased (tables d)).

Section Lemmas.
Implicit Types (a b m t l : records) (d : db).

Lemma keyed_index rs : keyed (index rs).
Proof.
  intros k r E. unfold index in E. apply elem_of_list_to_map_2, list_elem_of_fmap in E as (r' & [= -> ->] & _). done.
Qed.

Lemma keyed_sub a b : a ⊆ b → keyed b → keyed a.
Proof. intros Hs Hb k r E. apply Hb. by eapply lookup_weaken. Qed.

Lemma keyed_union a b : keyed a → keyed b → keyed (a ∪ b).
Proof. intros Ha Hb k r [E|[_ E]]%lookup_union_Some_raw; [by apply Ha|by apply Hb]. Qed.

Lemma keyed_retried inc a : keyed a → keyed (retried inc <$> a).
Proof. intros Ha k r E. rewrite lookup_fmap in E. apply fmap_Some in E as (r' & E & ->). rewrite retried_id. by apply Ha. Qed.

Lemma on_tables_valid f d : (∀ m, f m ⊆ m) → db_valid d → db_valid (on_tables f d).
Proof. intros Hf (Hd & H1 & H2). split_and!; cbn; [eapply map_disjoint_weaken; [exact Hd|apply Hf..]|eapply keyed_sub; [apply Hf|done]..]. Qed.

Lemma db_rows_index minLatency d : db_valid d →
  NoDup (map id (db_rows minLatency d)) ∧ index (db_rows minLatency d) ⊆ available (tables d).
Proof.
  intros (_ & Hk & _). set (m := available (tables d)) in *.
  assert (∀ e, e ∈ map_to_list m → id e.2 = e.1) as Hids by (intros [k r] E%elem_of_map_to_list; by apply Hk).
  assert (NoDup (map id (map snd (map_to_list m)))) as Hnd.
  { rewrite map_map. rewrite (map_ext_in _ fst); [apply (NoDup_fst_map_to_list m)|]. intros e He%list_elem_of_In. by apply Hids. }
  assert (NoDup (map id (db_rows minLatency d))) as Hnd'.
  { eapply NoDup_submseteq_mono; [|exact Hnd]. apply (fmap_submseteq id), sublist_submseteq, sublist_filter. }
  split; [done|]. apply map_subseteq_spec. intros k r [Hr <-]%index_elem; [|done].
  apply list_elem_of_filter in Hr as [_ ([k r'] & -> & E)%list_elem_of_fmap]. apply elem_of_map_to_list in E. cbn. by rewrite (Hk _ _ E).
Qed.

Lemma filter_valid (P : list Z * StorageRecord → Prop) `{!∀ e, Decision (P e)} d : db_valid d → db_valid (on_tables (filter P) d).
Proof. apply on_tables_valid. intros m. apply map_filter_subseteq. Qed.

Lemma db_reserve_records {C} (consumer : C → StorageRecord → C * bool) leaseTimeMs minLatency maxCount clock c d :
  db_valid d → EventLatency_Unspecified ≤ minLatency → 0 ≤ maxCount < 2 ^ 32 → leaseTimeMs ≠ 0 →
  let '(_, c', d') := s_GetAndReserveRecords consumer leaseTimeMs minLatency maxCount clock c d in
  ∃ expired up offered taken stop clock', db_valid d' ∧ expired ⊆ leased (tables d) ∧
    let back := retried up <$> expired in
    NoDup (map id offered) ∧ index offered ⊆ available (tables d) ∪ back ∧
    offer consumer leaseTimeMs clock' offered c 0 (limit maxCount) = (taken, c', stop) ∧ last_read d' = zlen taken ∧
    tables d' = Contents ((available (tables d) ∪ back) ∖ index taken) (index taken ∪ (leased (tables d) ∖ expired)).
Proof.
  intros Hv Hmin Hmax _. cbn. unfold db_reserve. destruct (db_rows_index minLatency d Hv) as [Hnd Hsub].
  destruct (offer _ _ _ _ _ _ _) as [[taken c'] stop] eqn:Eo. exists ∅, false, (db_rows minLatency d), taken, stop, clock.
  rewrite fmap_empty, !(right_id_L ∅ (∪)), map_difference_empty.
  destruct (offer_count _ _ _ _ _ _ (limit maxCount) _ _ _ ltac:(unfold limit; destruct (maxCount =? 0); lia) Eo) as (_ & left & El & _).
  assert (index taken ⊆ available (tables d)) as Ht.
  { etransitivity; [|exact Hsub]. rewrite El, index_app. apply map_union_subseteq_l. }
  split_and!; try done; [|apply map_empty_subseteq]. destruct Hv as (Hd & H1 & H2). split_and!; cbn.
  - apply map_disjoint_union_r_2; [apply map_disjoint_difference_l1; done|]. eapply map_disjoint_weaken; [exact Hd|apply map_subseteq_difference_l; done|done].
  - eapply keyed_sub; [by apply map_subseteq_difference_l|done].
  - apply keyed_union; [apply keyed_index|done].
Qed.

Lemma db_release_valid ids inc d : db_valid d → db_valid (db_release ids inc d).
Proof.
  intros (Hd & H1 & H2). assert (db_valid (MkDb (released ids inc (tables d)) (last_read d) (retry_limit d))) as Hv.
  { split_and!; cbn.
    - apply map_disjoint_union_l_2.
      + apply map_disjoint_spec. intros k r r' E [_ Hn]%map_lookup_filter_Some. rewrite lookup_fmap in E.
        apply fmap_Some in E as (r0 & [_ Hin]%map_lookup_filter_Some & _). done.
      + eapply map_disjoint_weaken; [exact Hd|done|apply map_filter_subseteq].
    - apply keyed_union; [|done]. apply keyed_retried. eapply keyed_sub; [apply map_filter_subseteq|done].
    - eapply keyed_sub; [apply map_filter_subseteq|done]. }
  unfold db_release. destruct inc; [by apply filter_valid|done].
Qed.

Lemma filter_pruned limit (c : contents) :
  pruned limit c (Contents (filter (λ e, within_limit limit e = true) (available c)) (filter (λ e, within_limit limit e = true) (leased c))).
Proof.
  assert (∀ (m : records) k r, m !! k = Some r → filter (λ e, within_limit limit e = true) m !! k = None → ∃ n, limit = Some n ∧ n ≤ retryCount r) as H.
  { intros m k r E Hn. destruct (within_limit limit (k, r)) eqn:Ew.
    - assert (filter (λ e, within_limit limit e = true) m !! k = Some r) by (by apply map_lookup_filter_Some). congruence.
    - unfold within_limit in Ew. destruct limit as [n|]; [|done]. exists n. split; [done|]. cbn in Ew. lia. }
  split_and!; cbn; [apply map_filter_subseteq..|]. intros k r [[E1 E2]|[E1 E2]]; by eapply H.
Qed.

Lemma db_release_records ids inc d : db_valid d →
  ∃ d' (c : contents), s_ReleaseRecords ids inc d = Some d' ∧ db_valid d' ∧ spec (Release ids inc) (tables d) c ∧
    pruned (if inc then retry_limit d else None) c (tables d').
Proof.
  intros Hv. eexists _, (released ids inc (tables d)). split_and!; [done|by apply db_release_valid|apply (spec_release (tables d))|].
  unfold db_release. destruct inc; [apply (filter_pruned (retry_limit d) (released ids true (tables d)))|apply pruned_refl].
Qed.

Lemma db_store_records d rs : db_valid d → True → storable (tables d) rs →
  ∃ d', s_StoreRecords rs d = Some (zlen rs, d') ∧ db_valid d' ∧
    tables d' = Contents (index rs ∪ available (tables d)) (leased (tables d)).
Proof.
  intros (Hd & H1 & H2) _ (Hnd & Hfr & _). eexists. split_and!; [done| |done]. split_and!; cbn.
  - apply map_disjoint_union_l_2; [|done]. apply map_disjoint_spec. intros k r r' [Hr <-]%index_elem E; [|done].
    rewrite Forall_forall in Hfr. destruct (Hfr r Hr) as [_ E']. congruence.
  - apply keyed_union; [apply keyed_index|done].
  - done.
Qed.

End Lemmas.

#[global] Program Instance db_contract : StorageContract db := {|
  valid := db_valid; held := tables; room_for _ _ := True; max_retries := retry_limit;
  store_records := db_store_records; reserve_records C := db_reserve_records; release_records := db_release_records
|}.
Next Obligation. by intros d (? & _). Qed.
Next Obligation. intros d k r (_ & H1 & H2) [E|E]; [by apply H1|by apply H2]. Qed.
Next Obligation. intros ids d Hv. split; [by apply filter_valid|apply (spec_delete (tables d))]. Qed.
Next Obligation. intros w d Hv. split; [by apply filter_valid|apply (spec_delete_where (tables d))]. Qed.
Next Obligation. intros d Hv. split; [|done]. apply on_tables_valid; [|done]. intros m. apply map_empty_subseteq. Qed.

Lemma empty_db_valid : db_valid empty_db.
Proof. split_and!; cbn; [apply map_disjoint_empty_l|by intros k r ?%lookup_empty_Some..]. Qed.

End ModelDisk.
