(* ===== verification/StorageHandler.v ===== *)
(** * The storage of the SDK: a queue in memory over a database

    lib/offline/OfflineStorageHandler.cpp and lib/offline/StorageObserver.cpp, over any
    two storages that implement [IOfflineStorage]. An operation ends ([Done]), throws
    the exception of [std::stoi] ([Throws]) or is undefined ([Undefined]). A flush that was
    scheduled is the flag [m_flushPending]; it runs as an operation of its own. *)

From Stdlib Require Import ZArith Lia Sorted.
From S2P Require Import Prelude StdMap HttpHeaders KillSwitch MemoryStorage OfflineStorage Packager.

Module StorageHandler.
Import StdMap OfflineStorage KillSwitch.

Inductive outcome (A : Type) : Type := Done (a : A) | Throws | Undefined.
Arguments Done {A} a.
Arguments Throws {A}.
Arguments Undefined {A}.

#[global] Instance outcome_ret : MRet outcome := λ A a, Done a.
#[global] Instance outcome_bind : MBind outcome := λ A B k m,
  match m with Done a => k a | Throws => Throws | Undefined => Undefined end.

(** Undefined behaviour of a storage, and an exception of the kill switch. *)
Definition defined {A} (o : option A) : outcome A := match o with Some a => Done a | None => Undefined end.
Definition thrown {A} (o : option A) : outcome A := match o with Some a => Done a | None => Throws end.

Section Handler.
Context {M D : Type} `{!IOfflineStorage M} `{!IOfflineStorage D}.
(** [m_config[CFG_INT_RAM_QUEUE_SIZE]] and [m_config.IsClockSkewEnabled()]. *)
Context (ram_queue_size : Z) (IsClockSkewEnabled : bool).

Record handler := MkHandler {
  m_killSwitchManager : KillSwitchManager; m_clockSkewManager : ClockSkewManager; m_flushPending : bool;
  m_offlineStorageMemory : option M; m_offlineStorageDisk : option D;
  m_readFromMemory : bool; m_lastReadCount : Z; m_shutdownStarted : bool; m_isStorageFullNotificationSend : bool
}.
#[global] Instance handler_eta : Eta handler := λ h,
  MkHandler (m_killSwitchManager h) (m_clockSkewManager h) (m_flushPending h) (m_offlineStorageMemory h)
    (m_offlineStorageDisk h) (m_readFromMemory h) (m_lastReadCount h) (m_shutdownStarted h) (m_isStorageFullNotificationSend h).

(** [Initialize], with the storages it makes. *)
Definition Initialize (memory : M) (disk : D) (h : handler) : handler :=
  h <| m_offlineStorageDisk := Some disk |>
    <| m_offlineStorageMemory := if ram_queue_size >? 0 then Some memory else m_offlineStorageMemory h |>
    <| m_shutdownStarted := false |>.

(** The constructor. *)
Definition new_handler : handler := MkHandler new_manager new_clock_skew false None None false 0 false false.

(** ** Flushing *)

Definition Flush (h : handler) : outcome handler :=
  match m_offlineStorageMemory h with
  | None => Undefined
  | Some mem =>
      h ← (if s_GetSize mem >? 0 then
             match m_offlineStorageDisk h with
             | Some disk =>
                 let '(records, mem) := s_GetRecords MemoryStorage.EventLatency_Unspecified 0 mem in
                 '(totalSaved, disk) ← defined (s_StoreRecords records disk);
                 let mem := s_DeleteRecords [] mem in
                 mret (h <| m_offlineStorageMemory := Some mem |> <| m_offlineStorageDisk := Some disk |>)
             | None => mret h
             end
           else mret h);
      mret (h <| m_isStorageFullNotificationSend := false |> <| m_flushPending := false |>)
  end.

Definition WaitForFlush (h : handler) : outcome handler := if m_flushPending h then Flush h else mret h.

Definition Shutdown (h : handler) : outcome handler :=
  h ← WaitForFlush (h <| m_shutdownStarted := true |>);
  match m_offlineStorageMemory h with
  | Some mem =>
      mem ← defined (s_ReleaseAllRecords mem);
      Flush (h <| m_offlineStorageMemory := Some mem |>)
  | None => mret h
  end.

(** ** Storing *)

Definition store_in_memory (r : MemoryStorage.StorageRecord) (mem : M) (h : handler) : outcome handler :=
  let memDbSize := s_GetSize mem in
  '(_, mem) ← defined (s_StoreRecord r mem);
  let h := h <| m_offlineStorageMemory := Some mem |> in
  mret (if memDbSize >? ram_queue_size then h <| m_flushPending := true |> else h).

Definition store_on_disk (r : MemoryStorage.StorageRecord) (h : handler) : outcome handler :=
  match m_offlineStorageDisk h with
  | Some disk =>
      if negb (MemoryStorage.persistence r =? MemoryStorage.EventPersistence_DoNotStoreOnDisk) then
        '(_, disk) ← defined (s_StoreRecord r disk); mret (h <| m_offlineStorageDisk := Some disk |>)
      else mret h
  | None => mret h
  end.

Definition StoreRecord (r : MemoryStorage.StorageRecord) (clock : Z → Z) (h : handler) : outcome (bool * handler) :=
  let '(killed, k) :=
    if m_shutdownStarted h then (false, m_killSwitchManager h)
    else isKilled (m_killSwitchManager h) (MemoryStorage.tenantToken r) clock in
  let h := h <| m_killSwitchManager := k |> in
  if killed then mret (false, h)
  else
    h ← match m_offlineStorageMemory h with
        | Some mem => if negb (m_shutdownStarted h) then store_in_memory r mem h else store_on_disk r h
        | None => store_on_disk r h
        end;
    mret (true, h).

(** [clocks i] is the clock of the [i]-th record. *)
Fixpoint StoreRecords (rs : list MemoryStorage.StorageRecord) (clocks : Z → Z → Z) (i : Z) (h : handler) : outcome (Z * handler) :=
  match rs with
  | [] => mret (0, h)
  | r :: rs =>
      '(stored, h) ← StoreRecord r (clocks i) h;
      '(n, h) ← StoreRecords rs clocks (i + 1) h;
      mret ((if stored : bool then 1 else 0) + n, h)
  end.

(** ** Sizes *)

Definition GetSize (h : handler) : Z :=
  let size := match m_offlineStorageMemory h with Some mem => s_GetSize mem | None => 0 end in
  u64 (size + match m_offlineStorageDisk h with Some disk => s_GetSize disk | None => 0 end).

Definition GetRecordCount (latency : Z) (h : handler) : outcome Z :=
  count ← match m_offlineStorageMemory h with Some mem => defined (s_GetRecordCount latency mem) | None => mret 0 end;
  count' ← match m_offlineStorageDisk h with Some disk => defined (s_GetRecordCount latency disk) | None => mret 0 end;
  mret (u64 (count + count')).

(** ** Retrieving *)

Definition ask_delta (now : Z) (h : handler) : handler :=
  if IsClockSkewEnabled && negb (GetResumeTransmissionAfterClockSkew (m_clockSkewManager h)) then
    h <| m_clockSkewManager := (GetDelta (m_clockSkewManager h) now).2 |>
  else h.

Section Retrieving.
Context {C : Type} (consumer : C → MemoryStorage.StorageRecord → C * bool) (leaseTimeMs minLatency : Z) (clock : Z → Z) (now : Z).

Definition read_disk (returnValue : bool) (maxCount : Z) (c : C) (h : handler) : bool * C * handler :=
  let '(returnValue, c, h) :=
    match m_offlineStorageDisk h with
    | Some disk =>
        let '(ok, c, disk) := s_GetAndReserveRecords consumer leaseTimeMs minLatency maxCount clock c disk in
        let h := h <| m_offlineStorageDisk := Some disk |> in
        let n := s_LastReadRecordCount disk in
        (returnValue || ok, c,
         if c_true n then h <| m_lastReadCount := u32 (m_lastReadCount h + n) |> <| m_readFromMemory := false |> else h)
    | None => (returnValue, c, h)
    end in
  (returnValue, c, ask_delta now h).

Definition GetAndReserveRecords (maxCount : Z) (c : C) (h : handler) : bool * C * handler :=
  let h := h <| m_lastReadCount := 0 |> <| m_readFromMemory := false |> in
  match m_offlineStorageMemory h with
  | Some mem =>
      let '(ok, c, mem) := s_GetAndReserveRecords consumer leaseTimeMs minLatency maxCount clock c mem in
      let n := u32 (0 + s_LastReadRecordCount mem) in
      let h := h <| m_offlineStorageMemory := Some mem |> <| m_lastReadCount := n |> <| m_readFromMemory := true |> in
      let maxCount := if n <=? maxCount then maxCount - n else maxCount in
      if c_true n then (ok, c, h) else read_disk ok maxCount c h
  | None => read_disk false maxCount c h
  end.

End Retrieving.

Definition IsLastReadFromMemory (h : handler) : bool := m_readFromMemory h.
Definition LastReadRecordCount (h : handler) : Z := m_lastReadCount h.

(** ** Deleting and releasing *)

Definition DeleteRecords_where (w : smap (list Z)) (h : handler) : handler :=
  let h := h <| m_offlineStorageMemory := s_DeleteRecords_where w <$> m_offlineStorageMemory h |> in
  h <| m_offlineStorageDisk := s_DeleteRecords_where w <$> m_offlineStorageDisk h |>.

Definition DeleteRecordsByKeys (keys : list (list Z)) (h : handler) : handler :=
  foldl (λ h key, DeleteRecords_where [(MemoryStorage.s_tenant_token, key)] h) h keys.

Definition DeleteAllRecords (h : handler) : handler :=
  let h := h <| m_offlineStorageMemory := s_DeleteAllRecords <$> m_offlineStorageMemory h |> in
  h <| m_offlineStorageDisk := s_DeleteAllRecords <$> m_offlineStorageDisk h |>.

(** What the headers of an answer do: clock skew, and the killed tokens, whose records go. *)
Definition handle_headers (headers : HttpHeaders.headers) (clock : Z → Z) (now : Z) (h : handler) : outcome handler :=
  let '(waiting, skew) := isWaitingForClockSkew (m_clockSkewManager h) now in
  let h := h <| m_clockSkewManager := if waiting then clock_handleResponse skew headers else skew |> in
  match headers with
  | [] => mret h
  | _ =>
      '(killed, k) ← thrown (handleResponse (m_killSwitchManager h) headers clock);
      let h := h <| m_killSwitchManager := k |> in
      mret (if killed : bool then DeleteRecordsByKeys (getTokensList k) h else h)
  end.

(** The records named, in the storage they were read from. *)
Definition delete_from (ids : list (list Z)) (fromMemory : bool) (h : handler) : outcome handler :=
  match m_offlineStorageMemory h with
  | Some mem =>
      if fromMemory then mret (h <| m_offlineStorageMemory := Some (s_DeleteRecords ids mem) |>)
      else mret (h <| m_offlineStorageDisk := s_DeleteRecords ids <$> m_offlineStorageDisk h |>)
  | None => mret (h <| m_offlineStorageDisk := s_DeleteRecords ids <$> m_offlineStorageDisk h |>)
  end.

Definition DeleteRecords (ids : list (list Z)) (headers : HttpHeaders.headers) (fromMemory : bool) (clock : Z → Z) (now : Z)
    (h : handler) : outcome handler :=
  h ← handle_headers headers clock now h; delete_from ids fromMemory h.

Definition release_on_disk (ids : list (list Z)) (incrementRetryCount : bool) (h : handler) : outcome handler :=
  match m_offlineStorageDisk h with
  | Some disk =>
      disk ← defined (s_ReleaseRecords ids incrementRetryCount disk); mret (h <| m_offlineStorageDisk := Some disk |>)
  | None => mret h
  end.

Definition release_to (ids : list (list Z)) (incrementRetryCount : bool) (fromMemory : bool) (h : handler) : outcome handler :=
  match m_offlineStorageMemory h with
  | Some mem =>
      if fromMemory then
        mem ← defined (s_ReleaseRecords ids incrementRetryCount mem); mret (h <| m_offlineStorageMemory := Some mem |>)
      else release_on_disk ids incrementRetryCount h
  | None => release_on_disk ids incrementRetryCount h
  end.

Definition ReleaseRecords (ids : list (list Z)) (incrementRetryCount : bool) (headers : HttpHeaders.headers) (fromMemory : bool)
    (clock : Z → Z) (now : Z) (h : handler) : outcome handler :=
  h ← handle_headers headers clock now h; release_to ids incrementRetryCount fromMemory h.

(** ** The observer *)

Definition lease_time : Z := 120000.

(** [handleStoreRecord]: the record is stamped; [storeRecordFailed] is called when the result is [false]. *)
Definition handleStoreRecord (r : MemoryStorage.StorageRecord) (nowMs : Z) (clock : Z → Z) (h : handler) : outcome (bool * handler) :=
  StoreRecord (MemoryStorage.MkRecord (MemoryStorage.id r) (MemoryStorage.tenantToken r) (MemoryStorage.latency r)
    (MemoryStorage.persistence r) nowMs (MemoryStorage.blob r) (MemoryStorage.retryCount r) (MemoryStorage.reservedUntil r)) clock h.

(** [handleRetrieveEvents]: whether the retrieval finished ([retrievalFinished]) or failed. *)
Definition handleRetrieveEvents (retrievedEvent : Packager.EventsUploadContext → MemoryStorage.StorageRecord → Packager.EventsUploadContext * bool)
    (ctx : Packager.EventsUploadContext) (clock : Z → Z) (now : Z) (h : handler) : bool * Packager.EventsUploadContext * handler :=
  let '(ok, ctx, h) := GetAndReserveRecords retrievedEvent lease_time (Packager.requestedMinLatency ctx) clock now
    (Packager.requestedMaxCount ctx) ctx h in
  (ok, ctx <| Packager.fromMemory := IsLastReadFromMemory h |>, h).

Definition record_ids (ctx : Packager.EventsUploadContext) : list (list Z) := map fst (Packager.recordIdsAndTenantIds ctx).

(** The headers are those of the response, none when there is no response. *)
Definition handleDeleteRecords (ctx : Packager.EventsUploadContext) (headers : HttpHeaders.headers) (clock : Z → Z) (now : Z) (h : handler) :
    outcome handler := DeleteRecords (record_ids ctx) headers (Packager.fromMemory ctx) clock now h.

Definition handleReleaseRecords (ctx : Packager.EventsUploadContext) (headers : HttpHeaders.headers) (clock : Z → Z) (now : Z) (h : handler) :
    outcome handler := ReleaseRecords (record_ids ctx) false headers (Packager.fromMemory ctx) clock now h.

Definition handleReleaseRecordsIncRetryCount (ctx : Packager.EventsUploadContext) (headers : HttpHeaders.headers) (clock : Z → Z) (now : Z)
    (h : handler) : outcome handler := ReleaseRecords (record_ids ctx) true headers (Packager.fromMemory ctx) clock now h.

End Handler.

Arguments handler : clear implicits.

End StorageHandler.
