(* ===== verification/HttpDecoder.v ===== *)
(** * The answer of the collector

    lib/http/HttpResponseDecoder.cpp and the routes of lib/system/TelemetrySystem.cpp from the
    decoder to the storage. The JSON library is a parameter: [efi] gives the
    strings of the member "efi" of a body that parses. *)

From Stdlib Require Import ZArith Lia.
From S2P Require Import Prelude HttpHeaders OfflineStorage Packager StorageHandler.

Module HttpDecoder.
Import OfflineStorage StorageHandler.

Inductive HttpResult := HttpResult_OK | HttpResult_Aborted | HttpResult_LocalFailure | HttpResult_NetworkFailure.

Inductive HttpRequestResult := Accepted | Rejected | RetryServer | RetryNetwork | Abort.

Record IHttpResponse := MkResponse {
  GetResult : HttpResult; GetStatusCode : Z; GetHeaders : HttpHeaders.headers; GetBody : list Z
}.

(** The route taken from the decoder. *)
Inductive decoded := eventsAccepted | eventsRejected | temporaryNetworkFailure | temporaryServerFailure | requestAborted.

Section Decoder.
Context (HAVE_MAT_JSONHPP : bool) (efi : list Z → list (list Z)).

(** "all". *)
Definition s_all : list Z := [97; 108; 108].

Definition processBody (response : IHttpResponse) (result : HttpRequestResult) : HttpRequestResult :=
  if HAVE_MAT_JSONHPP && existsb (λ s, bool_decide (s = s_all)) (efi (GetBody response)) then Rejected else result.

(** The outcome before the body is looked at, and whether the context keeps its response. *)
Definition status_outcome (response : IHttpResponse) : HttpRequestResult * bool :=
  match GetResult response with
  | HttpResult_OK =>
      (if GetStatusCode response =? 200 then Accepted
       else if (GetStatusCode response >=? 500) || (GetStatusCode response =? 408) || (GetStatusCode response =? 429)
       then RetryServer else Rejected, true)
  | HttpResult_Aborted => (Abort, false)
  | HttpResult_LocalFailure | HttpResult_NetworkFailure => (RetryNetwork, false)
  end.

(** The route, with the headers of the response the context has then. *)
Definition handleDecode (response : IHttpResponse) : decoded * HttpHeaders.headers :=
  let '(outcome, kept) := status_outcome response in
  let outcome := match GetBody response with [] => outcome | _ => processBody response outcome end in
  let headers := if kept : bool then GetHeaders response else [] in
  match outcome with
  | Accepted => (eventsAccepted, headers)
  | Rejected => (eventsRejected, headers)
  | Abort => (requestAborted, [])
  | RetryServer => (temporaryServerFailure, headers)
  | RetryNetwork => (temporaryNetworkFailure, headers)
  end.

(** What the routes do to the storage. *)
Definition settle {M D} `{!IOfflineStorage M} `{!IOfflineStorage D} (ctx : Packager.EventsUploadContext) (response : IHttpResponse)
    (clock : Z → Z) (now : Z) (h : handler M D) : outcome (handler M D) :=
  let '(route, headers) := handleDecode response in
  match route with
  | eventsAccepted | eventsRejected => handleDeleteRecords ctx headers clock now h
  | temporaryNetworkFailure | requestAborted => handleReleaseRecords ctx headers clock now h
  | temporaryServerFailure => handleReleaseRecordsIncRetryCount ctx headers clock now h
  end.

End Decoder.

End HttpDecoder.
