(* ===== verification/UploadCycle.v ===== *)
(** * An upload from retrieval to answer

    What becomes of the records of an upload: [handleRetrieveEvents] leases them,
    and the route the answer takes deletes them or gives them back. For any queue and any
    database that keep the contract of OfflineStorage. *)

From Stdlib Require Import ZArith Lia Sorted.
From stdpp Require Import gmap.
From S2P Require Import Prelude StdMap HttpHeaders KillSwitch MemoryStorage MemoryReads MemoryInvariant MemoryRefinement.
From S2P Require Import OfflineStorage ModelDisk Packager Uploads StorageHandler StorageLaws HttpDecoder.

Module UploadCycle.
Import StdMap OfflineStorage MemoryRefinement StorageHandler StorageLaws HttpDecoder.

(** ** Maps *)

Section Maps.
Implicit Types a t l : records.

(** What is leased by a retrieval is what its identifiers name. *)
Lemma leased_named t l (ids : list (list Z)) : t ##ₘ l → (∀ k, k ∈ ids ↔ is_Some (t !! k)) →
  filter (λ e, e.1 ∈ ids) (t ∪ l) = t ∧ filter (λ e, e.1 ∉ ids) (t ∪ l) = l.
Proof.
  intros Hd Hids. split; apply map_eq; intros k; apply option_eq; intros r; rewrite map_lookup_filter_Some, lookup_union_Some by done; cbn.
  - rewrite Hids. split; [|intros E; split; [by left|by exists r]]. intros [[E|E] [r' E']]; [done|].
    exfalso. eapply map_disjoint_spec; [exact Hd|exact E'|exact E].
  - rewrite Hids. split.
    + intros [[E|E] Hn]; [|done]. exfalso. apply Hn. by exists r.
    + intros E. split; [by right|]. intros [r' E']. eapply map_disjoint_spec; [exact Hd|exact E'|exact E].
Qed.

Lemma unnamed a t (ids : list (list Z)) : (∀ k, k ∈ ids ↔ is_Some (t !! k)) → filter (λ e, e.1 ∉ ids) (a ∖ t) = a ∖ t.
Proof.
  intros Hids. apply map_filter_id. intros k r [_ E]%lookup_difference_Some. cbn. rewrite Hids, E. by intros [? ?].
Qed.

Lemma given_back a t : t ⊆ a → t ∪ (a ∖ t) = a.
Proof. intros H. by apply map_difference_union. Qed.

Lemma expired_disjoint a l e up t : a ##ₘ l → e ⊆ l → t ⊆ a ∪ (MemoryStorage.retried up <$> e) → t ##ₘ (l ∖ e).
Proof.
  intros Hd He Ht. apply map_disjoint_spec. intros k r r' E [E1 E2]%lookup_difference_Some.
  assert ((a ∪ (MemoryStorage.retried up <$> e)) !! k = Some r) as [Ea|[_ Ee]]%lookup_union_Some_raw by (by eapply lookup_weaken).
  - eapply map_disjoint_spec; [exact Hd|exact Ea|exact E1].
  - rewrite lookup_fmap, E2 in Ee. done.
Qed.

(** What comes back from the leases is among all that could. *)
Lemma back_sub a l e up : e ⊆ l → a ∪ (MemoryStorage.retried up <$> e) ⊆ a ∪ (MemoryStorage.retried up <$> l).
Proof. intros He. by apply map_union_mono_l, map_fmap_mono. Qed.

End Maps.

Section Cycle.
Context (GetMaximumUploadSizeBytes : Z) (m_forcedTenantToken : list Z).
Abbreviation consumer := (Packager.consumer GetMaximumUploadSizeBytes m_forcedTenantToken).
Abbreviation holds := (Packager.holds m_forcedTenantToken).
Abbreviation room := (Packager.room m_forcedTenantToken).

Definition capped (ctx : Packager.EventsUploadContext) : Prop :=
  Packager.maxUploadSize ctx = 0 ∨ Packager.maxUploadSize ctx = GetMaximumUploadSizeBytes.

(** The records of a storage fit the counters of a package, those of a lease that ran out included. *)
Definition moderate (a : contents) : Prop :=
  ∀ rs up, NoDup (map MemoryStorage.id rs) → index rs ⊆ available a ∪ (MemoryStorage.retried up <$> leased a) → room rs < 2 ^ 63.

(** A few records of bounded size are moderate. *)
Lemma moderate_small (a : contents) (b : Z) : 0 ≤ b →
  map_Forall (λ _ r, zlen (MemoryStorage.blob r) + (8 + zlen (Packager.tenant_of m_forcedTenantToken r)) ≤ b) (available a ∪ leased a) →
  Z.of_nat (base.size (available a ∪ leased a)) * b + 8 < 2 ^ 63 → moderate a.
Proof.
  intros Hb Hall Hn rs up Hnd Hsub. eapply Z.le_lt_trans; [|exact Hn].
  assert (base.size (index rs) = length rs) as Hlen.
  { unfold index. rewrite map_size_list_to_map; [by rewrite length_map|]. by rewrite map_map. }
  pose proof (map_subseteq_size _ _ Hsub) as Hle. rewrite Hlen in Hle.
  rewrite <-size_dom, dom_union_L, dom_fmap_L, <-dom_union_L, size_dom in Hle.
  assert (room rs ≤ Z.of_nat (length rs) * b + 8) as Hr; [|nia].
  assert (∀ r, r ∈ rs → zlen (MemoryStorage.blob r) + (8 + zlen (Packager.tenant_of m_forcedTenantToken r)) ≤ b) as Hrs.
  { intros r Hin. assert ((available a ∪ (MemoryStorage.retried up <$> leased a)) !! MemoryStorage.id r = Some r) as Er
      by (eapply lookup_weaken; [by apply index_elem|exact Hsub]).
    apply lookup_union_Some_raw in Er as [Er|[En Er]]; [eapply (Hall (MemoryStorage.id r)); by apply lookup_union_Some_raw; left|].
    rewrite lookup_fmap in Er. apply fmap_Some in Er as (r0 & Er & E).
    assert (MemoryStorage.blob r = MemoryStorage.blob r0 ∧ MemoryStorage.tenantToken r = MemoryStorage.tenantToken r0) as [Eb Et] by (rewrite E; by destruct up).
    unfold Packager.tenant_of. rewrite Eb, Et. eapply (Hall (MemoryStorage.id r)). by apply lookup_union_Some_raw; right. }
  clear -Hrs. induction rs as [|r rs IH]; [done|]. pose proof (Hrs r ltac:(by left)).
  assert (room rs ≤ Z.of_nat (length rs) * b + 8) by (apply IH; intros; apply Hrs; by right). unfold Packager.room in *. cbn [foldr length]. lia.
Qed.

(** ** One storage *)

Lemma ids_named (rs : list MemoryStorage.StorageRecord) ctx k : holds rs ctx →
  k ∈ record_ids ctx ↔ k ∈ map MemoryStorage.id rs.
Proof.
  intros H. unfold record_ids. rewrite (Packager.holds_ids _ _ _ H). clear H.
  assert (∀ (s : smap (list Z)) k x k', k' ∈ map fst (map_set s k x) ↔ k' = k ∨ k' ∈ map fst s) as Hset.
  { clear. induction s as [|[q y] s IH]; intros k x k'; cbn; [by rewrite elem_of_cons|].
    destruct (key_compare k q) eqn:E; cbn; rewrite !elem_of_cons; [|done|rewrite IH; tauto]. apply key_eq in E as ->. tauto. }
  induction rs as [|r rs IH] using rev_ind; [done|]. rewrite foldl_app, map_app, elem_of_app. cbn. rewrite Hset, IH, list_elem_of_singleton. tauto.
Qed.

Lemma storage_reads {S} `{StorageContract S} (s : S) ctx0 minLatency maxCount clock ok ctx s' : valid s → moderate (held s) →
  holds [] ctx0 → capped ctx0 → MemoryStorage.EventLatency_Unspecified ≤ minLatency → 0 ≤ maxCount < 2 ^ 32 →
  s_GetAndReserveRecords consumer lease_time minLatency maxCount clock ctx0 s = (ok, ctx, s') →
  ∃ expired up taken, valid s' ∧ expired ⊆ leased (held s) ∧
    let back := MemoryStorage.retried up <$> expired in index taken ⊆ available (held s) ∪ back ∧
    s_LastReadRecordCount s' = zlen taken ∧ zlen taken < 2 ^ 32 ∧
    held s' = Contents ((available (held s) ∪ back) ∖ index taken) (index taken ∪ (leased (held s) ∖ expired)) ∧
    (taken ≠ [] → ∀ k, k ∈ record_ids ctx ↔ is_Some (index taken !! k)) ∧
    (taken = [] → capped ctx ∧ (holds [] ctx ∨ ∃ r, holds [r] ctx ∧ room [r] < 2 ^ 63 ∧ GetMaximumUploadSizeBytes < zlen (MemoryStorage.blob r) + 8)).
Proof.
  intros Hv Hmod H0 Hcap Hmin Hmax E.
  pose proof (reserve_records consumer lease_time minLatency maxCount clock ctx0 s Hv Hmin Hmax ltac:(done)) as Hres. rewrite E in Hres.
  destruct Hres as (expired & up & offered & taken & stop & clock' & Hv' & Hex & Hnd & Hsub & Eo & En & Eh).
  assert (room offered < 2 ^ 63) as Hroom.
  { apply (Hmod _ up); [done|]. etransitivity; [exact Hsub|]. by apply back_sub. }
  assert (0 < MemoryReads.limit maxCount < 2 ^ 32) as Hlim by (unfold MemoryReads.limit; destruct (Z.eqb_spec maxCount 0); lia).
  destruct (MemoryReads.offer_count _ _ _ _ _ _ (MemoryReads.limit maxCount) _ _ _ ltac:(lia) Eo) as (Hlen & left & El & _).
  apply Uploads.offer_package_from in Eo as (Hh & _ & Hc); [|done|done|lia|lia].
  assert (index taken ⊆ index offered) as Htk by (rewrite El, index_app; apply map_union_subseteq_l).
  exists expired, up, taken. split; [done|]. split; [done|]. cbv zeta. split_and!; [by etransitivity|done|lia|done| |].
  - intros Hne k. assert (Uploads.packed GetMaximumUploadSizeBytes offered taken = taken) as Ep.
    { unfold Uploads.packed. destruct offered, taken; done. }
    rewrite Ep in Hh. rewrite (ids_named taken ctx k Hh). split.
    + intros Hin. destruct (index taken !! k) eqn:Ek; [done|]. by apply index_none in Ek.
    + intros [r Ek]. destruct (decide (k ∈ map MemoryStorage.id taken)) as [|Hn]; [done|]. apply index_none in Hn. congruence.
  - intros ->. split; [by apply Hc|]. unfold Uploads.packed in Hh. destruct offered as [|r rest]; [by left|].
    destruct (Z.ltb_spec GetMaximumUploadSizeBytes (zlen (MemoryStorage.blob r) + 8)); [|by left].
    right. exists r. split_and!; [done| |done]. pose proof (Uploads.room_app_l m_forcedTenantToken [r] rest). cbn [app] in *. lia.
Qed.

(** After a record that is too large nothing is taken. *)
Lemma storage_refuses {S} `{StorageContract S} (s : S) ctx0 r minLatency maxCount clock ok ctx s' : valid s → moderate (held s) →
  holds [r] ctx0 → capped ctx0 → room [r] < 2 ^ 63 → GetMaximumUploadSizeBytes < zlen (MemoryStorage.blob r) + 8 →
  MemoryStorage.EventLatency_Unspecified ≤ minLatency → 0 ≤ maxCount < 2 ^ 32 →
  s_GetAndReserveRecords consumer lease_time minLatency maxCount clock ctx0 s = (ok, ctx, s') → s_LastReadRecordCount s' = 0.
Proof.
  intros Hv Hmod H0 Hcap Hr Hbig Hmin Hmax E.
  pose proof (reserve_records consumer lease_time minLatency maxCount clock ctx0 s Hv Hmin Hmax ltac:(done)) as Hres. rewrite E in Hres.
  destruct Hres as (expired & up & offered & taken & stop & clock' & _ & Hex & Hnd & Hsub & Eo & -> & _).
  destruct offered as [|r' rest]; [by injection Eo as <- _ _|]. cbn [MemoryReads.offer] in Eo.
  destruct (MemoryReads.limit maxCount =? 0); [by injection Eo as <- _ _|]. rewrite Packager.consumer_leased in Eo.
  assert (room (r' :: rest) < 2 ^ 63) as Hroom by (apply (Hmod _ up); [done|]; etransitivity; [exact Hsub|]; by apply back_sub).
  pose proof (Uploads.room_app_l m_forcedTenantToken [r'] rest) as Hr'. cbn [app] in Hr'.
  assert ((consumer ctx0 r').2 = false) as Hc.
  { apply (Packager.consumer_full _ _ [r]); [done|done| |done|unfold Packager.blobs_size; cbn [foldr]; lia].
    unfold Packager.room in *. cbn [foldr app] in *. lia. }
  destruct (consumer ctx0 r') as [c1 more]. cbn in Hc. subst more. by injection Eo as <- _ _.
Qed.

(** ** The storage of the SDK *)

Section Storages.
Context {M D : Type} `{IM : !IOfflineStorage M} `{CM : !StorageContract M} `{ID : !IOfflineStorage D} `{CD : !StorageContract D}.
Context (IsClockSkewEnabled : bool) (HAVE_MAT_JSONHPP : bool) (efi : list Z → list (list Z)).
Implicit Types h : handler M D.

(** The contents of the storage an upload was read from. *)
Definition source (fromMemory : bool) h : option contents :=
  if fromMemory then held <$> m_offlineStorageMemory h else held <$> m_offlineStorageDisk h.

Definition all_moderate h : Prop :=
  (∀ mem, m_offlineStorageMemory h = Some mem → moderate (held mem)) ∧ (∀ disk, m_offlineStorageDisk h = Some disk → moderate (held disk)).

(** The lease of an upload: what was taken from the storage it came from. *)
Record leases h (ctx : Packager.EventsUploadContext) h1 (a : contents) (expired back taken : records) : Prop := {
  leases_source : source (Packager.fromMemory ctx) h = Some a;
  leases_expired : expired ⊆ leased a;
  leases_back : ∃ up, back = MemoryStorage.retried up <$> expired;
  leases_taken : taken ⊆ available a ∪ back;
  leases_some : taken ≠ ∅;
  leases_disjoint : available a ##ₘ leased a;
  leases_ids : ∀ k, k ∈ record_ids ctx ↔ is_Some (taken !! k);
  leases_after : source (Packager.fromMemory ctx) h1 = Some (Contents ((available a ∪ back) ∖ taken) (taken ∪ (leased a ∖ expired)));
  leases_valid : all_valid h1;
  leases_memory : Packager.fromMemory ctx = true → is_Some (m_offlineStorageMemory h1)
}.

Lemma index_some rs : rs ≠ [] → index rs ≠ ∅.
Proof. destruct rs as [|r rs]; [done|]. intros _. rewrite index_cons. apply insert_non_empty. Qed.

Lemma read_disk_leases h ctx0 minLatency maxCount clock now returnValue ok ctx h1 : all_valid h →
  (∀ disk, m_offlineStorageDisk h = Some disk → moderate (held disk)) → m_lastReadCount h = 0 →
  capped ctx0 → holds [] ctx0 ∨ (∃ r, holds [r] ctx0 ∧ room [r] < 2 ^ 63 ∧ GetMaximumUploadSizeBytes < zlen (MemoryStorage.blob r) + 8) →
  MemoryStorage.EventLatency_Unspecified ≤ minLatency → 0 ≤ maxCount < 2 ^ 32 →
  read_disk IsClockSkewEnabled consumer lease_time minLatency clock now returnValue maxCount ctx0 h = (ok, ctx, h1) → m_lastReadCount h1 ≠ 0 →
  m_readFromMemory h1 = false ∧ ∃ a expired back taken, leases h (ctx <| Packager.fromMemory := m_readFromMemory h1 |>) h1 a expired back taken.
Proof.
  intros [Hvm Hvd] Hmd Hz Hcap Hctx Hmin Hmax. unfold read_disk.
  assert (∀ n h0, m_lastReadCount (ask_delta IsClockSkewEnabled n h0) = m_lastReadCount h0 ∧ m_readFromMemory (ask_delta IsClockSkewEnabled n h0) = m_readFromMemory h0 ∧
    m_offlineStorageDisk (ask_delta IsClockSkewEnabled n h0) = m_offlineStorageDisk h0 ∧ m_offlineStorageMemory (ask_delta IsClockSkewEnabled n h0) = m_offlineStorageMemory h0) as Hask.
  { intros n h0. unfold ask_delta. by destruct (IsClockSkewEnabled && _). }
  destruct (m_offlineStorageDisk h) as [disk|] eqn:Ed; [|intros [= <- <- <-] Hn; destruct (Hask now h) as (E & _); congruence].
  destruct (s_GetAndReserveRecords consumer lease_time minLatency maxCount clock ctx0 disk) as [[ok1 ctx1] disk1] eqn:E.
  intros [= <- <- <-]. destruct (c_true (s_LastReadRecordCount disk1)) eqn:Ec.
  2: { intros Hn. rewrite (proj1 (Hask now _)) in Hn. exfalso. exact (Hn Hz). }
  intros _. match goal with |- context [ask_delta _ now ?x] => destruct (Hask now x) as (_ & E2 & E3 & E4); set (h2 := x) in * end. rewrite E2.
  destruct Hctx as [H0|(r & Hr & Hroom & Hbig)].
  2: { exfalso. eapply storage_refuses in E; [rewrite E in Ec; by unfold c_true in Ec|by apply Hvd|by apply Hmd|exact Hr|done..]. }
  eapply storage_reads in E as (expired & up & taken & Hv1 & Hex & Htk & En & _ & Eh & Hids & _); [|by apply Hvd|by apply Hmd|done..].
  assert (taken ≠ []) as Hne by (intros ->; rewrite En in Ec; done).
  split; [done|]. exists (held disk), expired, (MemoryStorage.retried up <$> expired), (index taken). split; cbn; try done.
  - by rewrite Ed.
  - by exists up.
  - by apply index_some.
  - by apply held_disjoint, Hvd.
  - by apply Hids.
  - rewrite E3. cbn. by rewrite Eh.
  - split; [rewrite E4|rewrite E3; cbn; by intros ? [= <-]]. exact Hvm.
Qed.

Lemma retrieve_leases h minLatency maxCount clock now ok ctx h1 : all_valid h → all_moderate h →
  MemoryStorage.EventLatency_Unspecified ≤ minLatency → 0 ≤ maxCount < 2 ^ 32 →
  handleRetrieveEvents IsClockSkewEnabled consumer (Packager.new_context minLatency maxCount) clock now h = (ok, ctx, h1) →
  LastReadRecordCount h1 ≠ 0 → ∃ a expired back taken, leases h ctx h1 a expired back taken.
Proof.
  intros Hv [Hmm Hmd] Hmin Hmax. pose proof (Packager.new_context_holds m_forcedTenantToken minLatency maxCount) as H0.
  assert (capped (Packager.new_context minLatency maxCount)) as Hcap by (by left). pose proof Hv as [Hvm Hvd].
  unfold handleRetrieveEvents, LastReadRecordCount, IsLastReadFromMemory.
  destruct (GetAndReserveRecords _ _ _ _ _ _ _ _ _) as [[ok1 ctx1] h2] eqn:E. intros [= <- <- <-] Hn. revert E.
  unfold GetAndReserveRecords. destruct h as [ks cs fp mo dk rf lc sd nf].
  cbn [Packager.requestedMinLatency Packager.requestedMaxCount Packager.new_context set_field m_killSwitchManager m_clockSkewManager m_flushPending
    m_offlineStorageMemory m_offlineStorageDisk m_readFromMemory m_lastReadCount m_shutdownStarted m_isStorageFullNotificationSend].
  cbn in Hvm, Hvd, Hmm, Hmd. destruct mo as [mem|].
  2: { intros E. eapply read_disk_leases in E as [Ef (a & ex & bk & tk & HL)]; [|split; cbn; [done|exact Hvd]|exact Hmd|done|done|by left|done..].
       exists a, ex, bk, tk. destruct HL as [L1 L2 Lb L3 L4 L5 L6 L7 L8 L9]. split; try done. all: cbn in *; rewrite Ef in *; exact L1. }
  destruct (s_GetAndReserveRecords consumer lease_time minLatency maxCount clock (Packager.new_context minLatency maxCount) mem)
    as [[ok2 ctx2] mem1] eqn:E2.
  eapply storage_reads in E2 as (expired & up & taken & Hv1 & Hex & Htk & En & Hlt & Eh & Hids & Hempty); [|by apply Hvm|by apply Hmm|done..].
  rewrite En, Z.add_0_l, (wrap_small 32) by (unfold ubits; pose proof (zlen_nonneg taken); lia).
  destruct (c_true (zlen taken)) eqn:Ec.
  - intros [= <- <- <-]. assert (taken ≠ []) as Hne by (by intros ->). exists (held mem), expired, (MemoryStorage.retried up <$> expired), (index taken). split; cbn; try done.
    + by exists up.
    + by apply index_some.
    + by apply held_disjoint, Hvm.
    + by apply Hids.
    + by rewrite Eh.
    + split; cbn; [by intros ? [= <-]|done].
  - assert (taken = []) as -> by (destruct taken; [done|]; unfold c_true, zlen in Ec; cbn in Ec; destruct (Z.eqb_spec (Z.pos (Pos.of_succ_nat (length taken))) 0); [lia|done]).
    change (zlen []) with 0. rewrite Z.sub_0_r. destruct (Hempty eq_refl) as [Hcap2 Hctx2].
    replace (if 0 <=? maxCount then maxCount else maxCount) with maxCount by (by destruct (0 <=? maxCount)).
    intros E. eapply read_disk_leases in E as [Ef (a & ex & bk & tk & HL)]; [|split; cbn; [by intros ? [= <-]|exact Hvd]|exact Hmd|done|done|done|done..].
    exists a, ex, bk, tk. destruct HL as [L1 L2 Lb L3 L4 L5 L6 L7 L8 L9]. split; try done. all: cbn in *; rewrite Ef in *; exact L1.
Qed.

(** ** The answer *)

Lemma delete_from_source ids fromMemory h a : all_valid h → source fromMemory h = Some a →
  ∃ h2 a2, delete_from ids fromMemory h = Done h2 ∧ source fromMemory h2 = Some a2 ∧ spec (MemoryInvariant.Delete ids) a a2.
Proof.
  intros [Hvm Hvd] Hs. unfold delete_from, source in *. destruct fromMemory; apply fmap_Some in Hs as (s & E & ->).
  - rewrite E. eexists _, _. split_and!; [done|done|]. by apply delete_records, Hvm.
  - assert (spec (MemoryInvariant.Delete ids) (held s) (held (s_DeleteRecords ids s))) as Hspec by (by apply delete_records, Hvd).
    destruct (m_offlineStorageMemory h); eexists _, _; (split_and!; [done|cbn; by rewrite E|done]).
Qed.

(** The retry count at which the storage of an upload drops records. *)
Definition source_limit (fromMemory : bool) h : option Z :=
  if fromMemory then m_offlineStorageMemory h ≫= max_retries else m_offlineStorageDisk h ≫= max_retries.

Lemma release_to_source ids inc fromMemory h a : all_valid h → source fromMemory h = Some a →
  ∃ h2 a1 a2, release_to ids inc fromMemory h = Done h2 ∧ source fromMemory h2 = Some a2 ∧ spec (MemoryInvariant.Release ids inc) a a1 ∧
    pruned (if inc then source_limit fromMemory h else None) a1 a2.
Proof.
  intros [Hvm Hvd] Hs. unfold release_to, release_on_disk, source, source_limit in *. destruct fromMemory; apply fmap_Some in Hs as (s & E & ->).
  - destruct (release_records ids inc s (Hvm _ E)) as (s2 & a1 & E2 & _ & Hspec & Hp). rewrite E, E2. by eexists _, a1, _.
  - destruct (release_records ids inc s (Hvd _ E)) as (s2 & a1 & E2 & _ & Hspec & Hp). rewrite E, E2. destruct (m_offlineStorageMemory h); by eexists _, a1, _.
Qed.

(** Headers that kill no tenant, or none at all, change neither storage. *)
Lemma handle_quiet headers clock now h k : KillSwitch.handleResponse (m_killSwitchManager h) headers clock = Some (false, k) →
  ∃ h', handle_headers headers clock now h = Done h' ∧
    m_offlineStorageMemory h' = m_offlineStorageMemory h ∧ m_offlineStorageDisk h' = m_offlineStorageDisk h.
Proof.
  intros E. unfold handle_headers. destruct (KillSwitch.isWaitingForClockSkew _ now) as [waiting skew].
  destruct headers as [|x headers]; [by eexists|]. cbn [m_killSwitchManager set_field]. rewrite E. by eexists.
Qed.

Lemma decode_headers response : (handleDecode HAVE_MAT_JSONHPP efi response).2 = [] ∨
  (handleDecode HAVE_MAT_JSONHPP efi response).2 = GetHeaders response.
Proof.
  unfold handleDecode. destruct (status_outcome response) as [o []];
    (destruct (GetBody response); [destruct o|destruct (processBody HAVE_MAT_JSONHPP efi response o)]); cbn; auto.
Qed.

(** An answer whose headers kill no tenant. *)
Definition kills_nothing (response : IHttpResponse) (clock : Z → Z) h : Prop :=
  ∃ k, KillSwitch.handleResponse (m_killSwitchManager h) (GetHeaders response) clock = Some (false, k).

Lemma quiet_answer response clock now h : kills_nothing response clock h →
  ∃ h', handle_headers (handleDecode HAVE_MAT_JSONHPP efi response).2 clock now h = Done h' ∧
    m_offlineStorageMemory h' = m_offlineStorageMemory h ∧ m_offlineStorageDisk h' = m_offlineStorageDisk h.
Proof.
  intros [k Hk]. destruct (decode_headers response) as [->| ->]; by eapply handle_quiet.
Qed.

(** What the answer makes of the available records, when [taken] were sent. *)
Definition answered (route : decoded) (a t : records) : records :=
  match route with
  | eventsAccepted | eventsRejected => a ∖ t
  | temporaryNetworkFailure | requestAborted => a
  | temporaryServerFailure => (MemoryStorage.retried true <$> t) ∪ (a ∖ t)
  end.

Lemma release_answered inc t a l (ids : list (list Z)) a2 : t ##ₘ l → t ⊆ a → (∀ k, k ∈ ids ↔ is_Some (t !! k)) →
  spec (MemoryInvariant.Release ids inc) (Contents (a ∖ t) (t ∪ l)) a2 →
  a2 = Contents (if inc then (MemoryStorage.retried true <$> t) ∪ (a ∖ t) else a) l.
Proof.
  intros Hd Hsub Hids ->%release_inv. cbn. destruct (leased_named t l ids Hd Hids) as [E1 E2]. rewrite E1, E2. f_equal. destruct inc; [done|].
  rewrite (map_fmap_ext _ Datatypes.id) by done. rewrite map_fmap_id. by apply given_back.
Qed.

Lemma delete_answered t a l (ids : list (list Z)) a2 : t ##ₘ l → (∀ k, k ∈ ids ↔ is_Some (t !! k)) →
  spec (MemoryInvariant.Delete ids) (Contents (a ∖ t) (t ∪ l)) a2 → a2 = Contents (a ∖ t) l.
Proof. intros Hd Hids ->%delete_inv. cbn. destruct (leased_named t l ids Hd Hids) as [_ E2]. by rewrite E2, unnamed. Qed.

(** C30. An upload, from the retrieval to the answer, when the headers of the answer kill no tenant: the
    identifiers the context keeps are those of the records that were leased for it, and when the answer
    comes these records, and no others, are deleted from the storage they came from if they were accepted or
    rejected, and are available there again if not, with one retry more if the failure was the
    server's. In that case the storage may drop records whose retry count has reached its limit, as the
    documentation of ReleaseRecords says of persistent storages; a queue in memory has no limit. Leases
    that had run out apart, nothing else changes, and nothing is undefined. *)
Theorem upload_settled h minLatency maxCount clock now ok ctx h1 response clock' now' : all_valid h → all_moderate h →
  MemoryStorage.EventLatency_Unspecified ≤ minLatency → 0 ≤ maxCount < 2 ^ 32 →
  handleRetrieveEvents IsClockSkewEnabled consumer (Packager.new_context minLatency maxCount) clock now h = (ok, ctx, h1) →
  LastReadRecordCount h1 ≠ 0 → kills_nothing response clock' h1 →
  ∃ a expired up taken h2 a2, let back := MemoryStorage.retried up <$> expired in
    let route := (handleDecode HAVE_MAT_JSONHPP efi response).1 in
    let left := Contents (answered route (available a ∪ back) taken) (leased a ∖ expired) in
    source (Packager.fromMemory ctx) h = Some a ∧ expired ⊆ leased a ∧
    taken ⊆ available a ∪ back ∧ taken ≠ ∅ ∧ (∀ k, k ∈ record_ids ctx ↔ is_Some (taken !! k)) ∧
    settle HAVE_MAT_JSONHPP efi ctx response clock' now' h1 = Done h2 ∧
    source (Packager.fromMemory ctx) h2 = Some a2 ∧
    (route ≠ temporaryServerFailure → a2 = left) ∧ pruned (source_limit (Packager.fromMemory ctx) h1) left a2.
Proof.
  intros Hv Hmod Hmin Hmax E Hn Hh. destruct (retrieve_leases _ _ _ _ _ _ _ _ Hv Hmod Hmin Hmax E Hn) as (a & expired & back & taken & HL).
  destruct HL as [L1 L2 [up ->] L3 L4 L5 L6 L7 L8 _]. pose proof (expired_disjoint _ _ _ _ _ L5 L2 L3) as Hd.
  destruct (quiet_answer response clock' now' h1 Hh) as (h1' & Eh & Em & Ed).
  assert (all_valid h1') as Hv1 by (unfold all_valid; by rewrite Em, Ed).
  assert (source (Packager.fromMemory ctx) h1' = source (Packager.fromMemory ctx) h1) as Es by (unfold source; by rewrite Em, Ed). rewrite L7 in Es.
  assert (source_limit (Packager.fromMemory ctx) h1' = source_limit (Packager.fromMemory ctx) h1) as El by (unfold source_limit; by rewrite Em, Ed).
  set (av := available a ∪ (MemoryStorage.retried up <$> expired)) in *. set (headers := (handleDecode HAVE_MAT_JSONHPP efi response).2) in *.
  destruct (delete_from_source (record_ids ctx) _ h1' _ Hv1 Es) as (hd & ad & Edel & Esd & Hdel%delete_answered); [|done..].
  assert (∀ inc, ∃ h2 a2, ReleaseRecords (record_ids ctx) inc headers (Packager.fromMemory ctx) clock' now' h1 = Done h2 ∧
    source (Packager.fromMemory ctx) h2 = Some a2 ∧ pruned (if inc then source_limit (Packager.fromMemory ctx) h1 else None)
      (Contents (if inc then (MemoryStorage.retried true <$> taken) ∪ (av ∖ taken) else av) (leased a ∖ expired)) a2) as Hrel.
  { intros inc. destruct (release_to_source (record_ids ctx) inc _ h1' _ Hv1 Es) as (hr & a1 & ar & Er & Esr & Hr%release_answered & Hp); [|done..].
    rewrite El, Hr in Hp. exists hr, ar. unfold ReleaseRecords. rewrite Eh. cbn. by rewrite Er, Esr. }
  assert (DeleteRecords (record_ids ctx) headers (Packager.fromMemory ctx) clock' now' h1 = Done hd) as E2
    by (unfold DeleteRecords; rewrite Eh; exact Edel).
  destruct (Hrel false) as (hf & af & Ef & Esf & Hpf%pruned_none), (Hrel true) as (ht & at_ & Et & Est & Hpt). subst af.
  unfold settle. unfold headers in *. destruct (handleDecode HAVE_MAT_JSONHPP efi response) as [route hs]. cbn [fst snd] in *.
  unfold handleDeleteRecords, handleReleaseRecords, handleReleaseRecordsIncRetryCount. subst ad.
  destruct route; cbn [answered]; exists a, expired, up, taken;
    [exists hd, (Contents (av ∖ taken) (leased a ∖ expired))|exists hd, (Contents (av ∖ taken) (leased a ∖ expired))
    |exists hf, (Contents av (leased a ∖ expired))|exists ht, at_|exists hf, (Contents av (leased a ∖ expired))];
    split_and!; (done || apply pruned_refl).
Qed.

(** ** Uploads that lease nothing *)

Lemma reserve_count {S} `{StorageContract S} {C} (consume : C → MemoryStorage.StorageRecord → C * bool) (s s' : S) minLatency maxCount clock c ok c' :
  valid s → MemoryStorage.EventLatency_Unspecified ≤ minLatency → 0 ≤ maxCount < 2 ^ 32 →
  s_GetAndReserveRecords consume lease_time minLatency maxCount clock c s = (ok, c', s') → 0 ≤ s_LastReadRecordCount s' < 2 ^ 32.
Proof.
  intros Hv Hmin Hmax E. pose proof (reserve_records consume lease_time minLatency maxCount clock c s Hv Hmin Hmax ltac:(done)) as Hres.
  rewrite E in Hres. destruct Hres as (expired & up & offered & taken & stop & clock' & _ & _ & _ & _ & Eo & -> & _).
  destruct (MemoryReads.offer_count _ _ _ _ _ _ (MemoryReads.limit maxCount) _ _ _ ltac:(unfold MemoryReads.limit; destruct (maxCount =? 0); lia) Eo) as [Hle _].
  pose proof (zlen_nonneg taken). unfold MemoryReads.limit in Hle. destruct (Z.eqb_spec maxCount 0); lia.
Qed.

Lemma unleased_from_memory h mem minLatency maxCount clock now ok ctx h1 :
  m_offlineStorageMemory h = Some mem → all_valid h → MemoryStorage.EventLatency_Unspecified ≤ minLatency → 0 ≤ maxCount < 2 ^ 32 →
  handleRetrieveEvents IsClockSkewEnabled consumer (Packager.new_context minLatency maxCount) clock now h = (ok, ctx, h1) →
  LastReadRecordCount h1 = 0 → Packager.fromMemory ctx = true ∧ is_Some (m_offlineStorageMemory h1).
Proof.
  intros Em [Hvm Hvd] Hmin Hmax. unfold handleRetrieveEvents, LastReadRecordCount, IsLastReadFromMemory.
  destruct (GetAndReserveRecords _ _ _ _ _ _ _ _ _) as [[ok1 ctx1] h2] eqn:E. intros [= <- <- <-] Hn. revert E.
  unfold GetAndReserveRecords, read_disk, ask_delta. destruct h as [ks cs fp mo dk rf lc sd nf]. cbn in Em, Hvm, Hvd. subst mo. cbn -[wrap c_true Z.leb].
  destruct (s_GetAndReserveRecords consumer lease_time minLatency maxCount clock _ mem) as [[ok2 ctx2] mem1] eqn:E2.
  apply reserve_count in E2; [|by apply Hvm|done..]. rewrite !Z.add_0_l, (wrap_small 32) by done.
  destruct (c_true (s_LastReadRecordCount mem1)) eqn:Ec; [intros [= <- <- <-]; cbn in Hn; by rewrite Hn in Ec|].
  destruct dk as [disk|].
  - match goal with |- context [s_GetAndReserveRecords consumer lease_time minLatency ?mx clock ctx2 disk] =>
      destruct (s_GetAndReserveRecords consumer lease_time minLatency mx clock ctx2 disk) as [[ok3 ctx3] disk1] eqn:E3;
      apply reserve_count in E3; [|by apply Hvd|done|destruct (Z.leb_spec (s_LastReadRecordCount mem1) maxCount); lia] end.
    destruct (c_true (s_LastReadRecordCount disk1)) eqn:Ec3.
    + assert (s_LastReadRecordCount mem1 = 0) as Ez by (unfold c_true in Ec; by destruct (Z.eqb_spec (s_LastReadRecordCount mem1) 0)).
      intros [= <- <- <-]. exfalso. destruct (IsClockSkewEnabled && _); cbn in Hn; rewrite Ez, Z.add_0_l, wrap_small in Hn by done; by rewrite Hn in Ec3.
    + intros [= <- <- <-]. by destruct (IsClockSkewEnabled && _).
  - intros [= <- <- <-]. by destruct (IsClockSkewEnabled && _).
Qed.

(** C34. An upload for which nothing was leased, which is one whose only record is larger than an
    upload may be, counts as read from memory even when that record came from the
    database ([m_readFromMemory] keeps the value it got when the queue was asked), so that whatever
    the answer is, an acceptance included, as long as its headers kill no tenant, the database
    stays as it was and the record is sent again. *)
Theorem unleased_upload_kept h mem minLatency maxCount clock now ok ctx h1 response clock' now' h2 :
  m_offlineStorageMemory h = Some mem → all_valid h → MemoryStorage.EventLatency_Unspecified ≤ minLatency → 0 ≤ maxCount < 2 ^ 32 →
  handleRetrieveEvents IsClockSkewEnabled consumer (Packager.new_context minLatency maxCount) clock now h = (ok, ctx, h1) →
  LastReadRecordCount h1 = 0 → kills_nothing response clock' h1 → settle HAVE_MAT_JSONHPP efi ctx response clock' now' h1 = Done h2 →
  Packager.fromMemory ctx = true ∧ m_offlineStorageDisk h2 = m_offlineStorageDisk h1.
Proof.
  intros Em Hv Hmin Hmax E Hn Hh Hset. destruct (unleased_from_memory _ _ _ _ _ _ _ _ _ Em Hv Hmin Hmax E Hn) as [Hf [mem1 Em1]].
  split; [done|]. destruct (quiet_answer response clock' now' h1 Hh) as (h1' & Eh & Em' & <-). rewrite Em1 in Em'. unfold settle in Hset.
  destruct (handleDecode HAVE_MAT_JSONHPP efi response) as [route headers]. cbn [snd] in Eh.
  unfold handleDeleteRecords, handleReleaseRecords, handleReleaseRecordsIncRetryCount, DeleteRecords, ReleaseRecords in Hset. rewrite Hf, Eh in Hset.
  cbn in Hset. unfold delete_from, release_to in Hset. rewrite Em' in Hset.
  assert (∀ inc, (mem ← defined (s_ReleaseRecords (record_ids ctx) inc mem1); mret (h1' <| m_offlineStorageMemory := Some mem |>)) = Done h2 →
    m_offlineStorageDisk h2 = m_offlineStorageDisk h1') as Hrel.
  { intros inc. destruct (s_ReleaseRecords (record_ids ctx) inc mem1); [|done]. by intros [= <-]. }
  destruct route; [by injection Hset as <-..|by eapply Hrel|by eapply Hrel|by eapply Hrel].
Qed.

End Storages.

End Cycle.

(** ** Examples *)

#[local] Existing Instances ex_storage ex_contract.

Definition ex_max : Z := 1000.
Definition ex_response : IHttpResponse := MkResponse HttpResult_OK 200 [] [].

Lemma ex_moderate : moderate [] (held ex_memory).
Proof.
  apply (moderate_small _ _ 100); [done| |vm_compute; done].
  apply (bool_decide_unpack _). vm_compute. done.
Qed.

Lemma empty_moderate : moderate [] (Contents ∅ ∅).
Proof. by apply (moderate_small _ _ 100). Qed.

(** The two records of the memory are uploaded and accepted. *)
Lemma upload_settled_witness : ∃ ok ctx h1 h2,
  handleRetrieveEvents false (Packager.consumer ex_max []) (Packager.new_context 1 10) (λ _, 1000) 1000 ex_handler = (ok, ctx, h1) ∧
  settle false (λ _, []) ctx ex_response (λ _, 2000) 2000 h1 = Done h2 ∧ source true h2 = Some (Contents ∅ ∅).
Proof.
  destruct (handleRetrieveEvents false (Packager.consumer ex_max []) (Packager.new_context 1 10) (λ _, 1000) 1000 ex_handler) as [[ok ctx] h1] eqn:E.
  destruct (upload_settled ex_max [] false false (λ _, []) ex_handler 1 10 (λ _, 1000) 1000 ok ctx h1 ex_response (λ _, 2000) 2000)
    as (a & expired & up & taken & h2 & a2 & Ea & He & Ht & _ & Hids & E2 & Es & Ha2 & _); [| |done|done|exact E| |by eexists|].
  - split; intros ? [= <-]; [exact ex_memory_valid|apply ModelDisk.empty_db_valid].
  - split; intros ? [= <-]; [exact ex_moderate|apply empty_moderate].
  - apply (f_equal (λ x, LastReadRecordCount x.2)) in E. cbn [snd] in E. rewrite <-E. vm_compute. done.
  - assert (Packager.fromMemory ctx = true) as Ef.
    { apply (f_equal (λ x, Packager.fromMemory x.1.2)) in E. cbn [fst snd] in E. rewrite <-E. vm_compute. done. }
    assert (record_ids ctx = [[1]; [2]]) as Ei.
    { apply (f_equal (λ x, record_ids x.1.2)) in E. cbn [fst snd] in E. rewrite <-E. vm_compute. done. }
    rewrite Ef in Ea, Es. assert (a = held ex_memory) as -> by (by injection Ea). assert (leased (held ex_memory) = ∅) as El by (vm_compute; done).
    change (handleDecode false (λ _, []) ex_response).1 with eventsAccepted in Ha2. cbv zeta in Ha2. rewrite (Ha2 ltac:(done)) in Es. clear Ha2.
    rewrite El in He, Es. assert (expired = ∅) as -> by (apply (anti_symm (⊆)); [exact He|apply map_empty_subseteq]). rewrite fmap_empty, (right_id_L ∅ (∪)) in Es.
    exists ok, ctx, h1, h2. split_and!; [done|done|]. rewrite Es. cbn [handleDecode status_outcome GetResult GetStatusCode GetBody ex_response Z.eqb Pos.eqb fst answered].
    rewrite map_difference_empty. do 2 f_equal. apply map_eq. intros k. rewrite lookup_empty. apply lookup_difference_None.
    destruct (taken !! k) eqn:Ek; [right; done|left]. destruct (available (held ex_memory) !! k) eqn:Er; [exfalso|done].
    assert (k ∈ [[1]; [2]]) as Hk.
    { assert (map_Forall (λ k _, k ∈ [[1]; [2]]) (available (held ex_memory))) as Hall by (apply (bool_decide_unpack _); vm_compute; done).
      exact (Hall _ _ Er). }
    rewrite <-Ei in Hk. apply Hids in Hk as [? ?]. congruence.
Defined.

(** A database with one record that no upload has room for. *)
Definition ex_large : MemoryStorage.StorageRecord := MemoryStorage.MkRecord [9] [7] 1 1 0 (repeat 0 20) 0 0.
Definition ex_large_db : ModelDisk.db := ModelDisk.MkDb (Contents {[ [9] := ex_large ]} ∅) 0 None.
Definition ex_large_handler : handler MemoryStorage.memory ModelDisk.db :=
  MkHandler KillSwitch.new_manager KillSwitch.new_clock_skew true (Some MemoryStorage.new_storage) (Some ex_large_db) false 0 false false.

Lemma ex_large_valid : ModelDisk.db_valid ex_large_db.
Proof.
  split_and!; [apply map_disjoint_empty_r| |done].
  intros k r E. cbn in E. apply lookup_singleton_Some in E as [<- <-]. done.
Qed.

(** It is uploaded and accepted, and stays in the database. *)
Lemma unleased_upload_witness : ∃ ok ctx h1 h2,
  handleRetrieveEvents false (Packager.consumer 20 []) (Packager.new_context 1 10) (λ _, 1000) 1000 ex_large_handler = (ok, ctx, h1) ∧
  record_ids ctx = [[9]] ∧ settle false (λ _, []) ctx ex_response (λ _, 2000) 2000 h1 = Done h2 ∧
  m_offlineStorageDisk h2 = m_offlineStorageDisk h1 ∧ ((λ d, held d) <$> m_offlineStorageDisk h1) = Some (held ex_large_db).
Proof.
  destruct (handleRetrieveEvents false (Packager.consumer 20 []) (Packager.new_context 1 10) (λ _, 1000) 1000 ex_large_handler) as [[ok ctx] h1] eqn:E.
  destruct (settle false (λ _, []) ctx ex_response (λ _, 2000) 2000 h1) as [h2| |] eqn:E2.
  - exists ok, ctx, h1, h2. split; [done|]. split.
    { apply (f_equal (λ x, record_ids x.1.2)) in E. cbn [fst snd] in E. rewrite <-E. vm_compute. done. }
    split; [done|]. split.
    + refine (proj2 (unleased_upload_kept 20 [] false false (λ _, []) ex_large_handler MemoryStorage.new_storage 1 10 (λ _, 1000) 1000 ok ctx h1
        ex_response (λ _, 2000) 2000 h2 eq_refl _ _ _ E _ _ E2)); [|done|done| |by eexists].
      * split; intros ? [= <-]; [exact ex_new_valid|exact ex_large_valid].
      * apply (f_equal (λ x, LastReadRecordCount x.2)) in E. cbn [snd] in E. rewrite <-E. vm_compute. done.
    + apply (f_equal (λ x, ((λ d, held d) <$> m_offlineStorageDisk x.2))) in E. cbn [snd] in E. rewrite <-E. vm_compute. done.
  - exfalso. assert (∃ h2, settle false (λ _, []) ctx ex_response (λ _, 2000) 2000 h1 = Done h2) as [h2 E3]; [|congruence].
    apply (f_equal (λ x, settle false (λ _, []) x.1.2 ex_response (λ _, 2000) 2000 x.2)) in E. cbn [fst snd] in E. rewrite <-E. eexists. vm_compute. done.
  - exfalso. assert (∃ h2, settle false (λ _, []) ctx ex_response (λ _, 2000) 2000 h1 = Done h2) as [h2 E3]; [|congruence].
    apply (f_equal (λ x, settle false (λ _, []) x.1.2 ex_response (λ _, 2000) 2000 x.2)) in E. cbn [fst snd] in E. rewrite <-E. eexists. vm_compute. done.
Defined.

End UploadCycle.
