(* ===== verification/TransmitProfiles.v ===== *)
(** * Transmit profiles

    lib/tpm/TransmitProfiles.cpp: the profiles with their rules, the rule chosen for the
    state of the device and the timers it gives. The static members of the class are the record
    [profiles_state]. The parser of the JSON library is a parameter; the walk over
    the value it gives is the code's. *)

From Stdlib Require Import ZArith Lia Sorted String.
From S2P Require Import Prelude StdMap.

Module TransmitProfiles.
Import StdMap.

Definition text (s : string) : list Z := map (λ b, Z.of_N (Byte.to_N b)) (String.list_byte_of_string s).

(** ** The states of the device *)

Definition NetworkCost_Any : Z := -1.
Definition NetworkCost_Unknown : Z := 0.
Definition NetworkCost_Unmetered : Z := 1.
Definition NetworkCost_Metered : Z := 2.
Definition NetworkCost_Roaming : Z := 3.

Definition PowerSource_Any : Z := -1.
Definition PowerSource_Unknown : Z := 0.
Definition PowerSource_Battery : Z := 1.
Definition PowerSource_Charging : Z := 2.

Definition NetworkType_Any : Z := -1.

(** ** Rules and profiles *)

Record TransmitProfileRule := MkRule { netCost : Z; powerState : Z; netType : Z; netSpeed : Z; timers : list Z }.

Definition default_rule : TransmitProfileRule := MkRule NetworkCost_Any PowerSource_Any NetworkType_Any 0 [].
Definition rule_any (timers : list Z) : TransmitProfileRule := MkRule NetworkCost_Any PowerSource_Any NetworkType_Any 0 timers.
Definition rule_net (net : Z) (timers : list Z) : TransmitProfileRule := MkRule net PowerSource_Any NetworkType_Any 0 timers.
Definition rule_of (net pow : Z) (timers : list Z) : TransmitProfileRule := MkRule net pow NetworkType_Any 0 timers.

Record TransmitProfileRules := MkProfile { name : list Z; rules : list TransmitProfileRule }.

Definition MAX_TRANSMIT_PROFILES : Z := 20.
Definition MAX_TRANSMIT_RULES : Z := 16.

Definition defaultRealTimeProfileName : list Z := text "REAL_TIME".
Definition defaultNearRealTimeProfileName : list Z := text "NEAR_REAL_TIME".
Definition defaultBestEffortProfileName : list Z := text "BEST_EFFORT".

(** In the order of [std::greater]. *)
Definition defaultProfileNames : list (list Z) :=
  [defaultRealTimeProfileName; defaultNearRealTimeProfileName; defaultBestEffortProfileName].

Definition DEFAULT_PROFILE : list Z := defaultRealTimeProfileName.

Record profiles_state := MkProfiles {
  profiles : smap TransmitProfileRules; currProfileName : list Z; currRule : Z;
  currNetCost : Z; currPowState : Z; isTimerUpdated : bool
}.
#[global] Instance profiles_state_eta : Eta profiles_state := λ p,
  MkProfiles (profiles p) (currProfileName p) (currRule p) (currNetCost p) (currPowState p) (isTimerUpdated p).

(** The static members at the start of the program. *)
Definition initial : profiles_state := MkProfiles [] DEFAULT_PROFILE 0 NetworkCost_Any PowerSource_Any true.

(** ** Selecting a rule *)

Definition matches (net pow : Z) (rule : TransmitProfileRule) : bool :=
  ((netCost rule =? net) || (NetworkCost_Any =? net) || (NetworkCost_Any =? netCost rule)) &&
  ((powerState rule =? pow) || (PowerSource_Any =? pow) || (PowerSource_Any =? powerState rule)).

(** The loop of [updateStates] from index [i] on. *)
Fixpoint find_rule (net pow : Z) (rs : list TransmitProfileRule) (i : Z) : option Z :=
  match rs with
  | [] => None
  | rule :: rs => if matches net pow rule then Some i else find_rule net pow rs (i + 1)
  end.

Definition onTimersUpdated (p : profiles_state) : profiles_state := p <| isTimerUpdated := true |>.

Definition updateStates (net pow : Z) (p : profiles_state) : bool * profiles_state :=
  let p := p <| currNetCost := net |> <| currPowState := pow |> in
  match map_find (profiles p) (currProfileName p) with
  | Some profile =>
      match find_rule net pow (rules profile) 0 with
      | Some i => (true, onTimersUpdated (p <| currRule := i |>))
      | None => (false, onTimersUpdated (p <| currRule := 0 |>))
      end
  | None => (false, p)
  end.

(** ** Replacing profiles *)

Definition is_default (n : list Z) : bool := bool_decide (n ∈ defaultProfileNames).

Definition removeCustomProfiles (p : profiles_state) : profiles_state :=
  p <| profiles := filter (λ kv, is_default kv.1 = true) (profiles p) |>.

Definition UpdateProfiles (newProfiles : list TransmitProfileRules) (p : profiles_state) : profiles_state :=
  let p := removeCustomProfiles p in
  let p := p <| profiles := foldl (λ m profile, map_set m (name profile) profile) (profiles p) newProfiles |> in
  let p := match map_find (profiles p) (currProfileName p) with
           | Some _ => p
           | None => p <| currProfileName := DEFAULT_PROFILE |>
           end in
  let p := p <| currRule := 0 |> in
  (updateStates (currNetCost p) (currPowState p) p).2.

Definition realTimeProfile : TransmitProfileRules := MkProfile defaultRealTimeProfileName [
  rule_net NetworkCost_Roaming [-1; -1; -1];
  rule_of NetworkCost_Metered PowerSource_Unknown [16; 8; 4];
  rule_of NetworkCost_Metered PowerSource_Battery [16; 8; 4];
  rule_of NetworkCost_Metered PowerSource_Charging [12; 6; 3];
  rule_of NetworkCost_Unmetered PowerSource_Unknown [8; 4; 2];
  rule_of NetworkCost_Unmetered PowerSource_Battery [8; 4; 2];
  rule_of NetworkCost_Unmetered PowerSource_Charging [4; 2; 1];
  rule_of NetworkCost_Unknown PowerSource_Unknown [8; 4; 2];
  rule_of NetworkCost_Unknown PowerSource_Battery [8; 4; 2];
  rule_of NetworkCost_Unknown PowerSource_Charging [4; 2; 1];
  rule_any [-1; -1; -1]].

Definition nearRealTimeProfile : TransmitProfileRules := MkProfile defaultNearRealTimeProfileName [
  rule_net NetworkCost_Roaming [-1; -1; -1];
  rule_of NetworkCost_Metered PowerSource_Unknown [-1; 24; 12];
  rule_of NetworkCost_Metered PowerSource_Battery [-1; 24; 12];
  rule_of NetworkCost_Metered PowerSource_Charging [-1; 18; 9];
  rule_of NetworkCost_Unmetered PowerSource_Unknown [24; 12; 6];
  rule_of NetworkCost_Unmetered PowerSource_Battery [24; 12; 6];
  rule_of NetworkCost_Unmetered PowerSource_Charging [12; 6; 3];
  rule_of NetworkCost_Unknown PowerSource_Unknown [24; 12; 6];
  rule_of NetworkCost_Unknown PowerSource_Battery [24; 12; 6];
  rule_of NetworkCost_Unknown PowerSource_Charging [12; 6; 3];
  rule_any [-1; -1; -1]].

Definition bestEffortProfile : TransmitProfileRules := MkProfile defaultBestEffortProfileName [
  rule_net NetworkCost_Roaming [-1; -1; -1];
  rule_of NetworkCost_Metered PowerSource_Unknown [-1; 72; 36];
  rule_of NetworkCost_Metered PowerSource_Battery [-1; 72; 36];
  rule_of NetworkCost_Metered PowerSource_Charging [-1; 54; 27];
  rule_of NetworkCost_Unmetered PowerSource_Unknown [72; 36; 18];
  rule_of NetworkCost_Unmetered PowerSource_Battery [72; 36; 18];
  rule_of NetworkCost_Unmetered PowerSource_Charging [36; 18; 9];
  rule_of NetworkCost_Unknown PowerSource_Unknown [72; 36; 18];
  rule_of NetworkCost_Unknown PowerSource_Battery [72; 36; 18];
  rule_of NetworkCost_Unknown PowerSource_Charging [36; 18; 9];
  rule_any [-1; -1; -1]].

Definition reset (p : profiles_state) : profiles_state :=
  UpdateProfiles [realTimeProfile; nearRealTimeProfile; bestEffortProfile] p.

Definition EnsureDefaultProfiles (p : profiles_state) : profiles_state :=
  match profiles p with [] => reset p | _ => p end.

(** ** Loading *)

Definition acceptable (profile : TransmitProfileRules) : bool :=
  negb (zlen (rules profile) >? MAX_TRANSMIT_RULES) && negb (zlen (rules profile) =? 0) &&
  forallb (λ rule, zlen (timers rule) =? 3) (rules profile).

Definition load (profileCandidates : list TransmitProfileRules) (p : profiles_state) : bool * profiles_state :=
  let p := EnsureDefaultProfiles p in
  if zlen profileCandidates >? MAX_TRANSMIT_PROFILES then (false, p)
  else if forallb acceptable profileCandidates then (true, UpdateProfiles profileCandidates p)
  else (false, p).

(** *** From JSON

    A number stands as the [int] made of it. *)

Inductive json :=
  | JNull | JBool (b : bool) | JNumber (n : Z) | JString (s : list Z)
  | JArray (elems : list json) | JObject (members : smap json).

(** [operator\[\]] on an object. *)
Definition member (members : smap json) (k : list Z) : json := map_at JNull members k.

(** The elements a range-based [for] visits. *)
Definition elements (j : json) : list json :=
  match j with
  | JNull => []
  | JArray elems => elems
  | JObject members => map snd members
  | _ => [j]
  end.

Definition transmitProfileNetCost : list (list Z * Z) := [
  (text "any", NetworkCost_Any); (text "unknown", NetworkCost_Unknown); (text "unmetered", NetworkCost_Unmetered);
  (text "low", NetworkCost_Unmetered); (text "metered", NetworkCost_Metered); (text "high", NetworkCost_Metered);
  (text "restricted", NetworkCost_Roaming); (text "roaming", NetworkCost_Roaming)].

Definition transmitProfilePowerState : list (list Z * Z) := [
  (text "any", PowerSource_Any); (text "unknown", PowerSource_Unknown); (text "battery", PowerSource_Battery);
  (text "charging", PowerSource_Charging)].

Definition code (table : list (list Z * Z)) (s : list Z) : option Z := snd <$> List.find (λ e, bool_decide (e.1 = s)) table.

(** A member that names a state: [None] is the exception when it is no string. *)
Definition state_member (table : list (list Z * Z)) (members : smap json) (k : list Z) (d : Z) : option Z :=
  match map_find members k with
  | None => Some d
  | Some (JString s) => Some (default d (code table s))
  | Some _ => None
  end.

Definition numbers (js : list json) : list Z := omap (λ j, match j with JNumber n => Some n | _ => None end) js.

Definition parse_rule (members : smap json) : option TransmitProfileRule :=
  net ← state_member transmitProfileNetCost members (text "netCost") NetworkCost_Any;
  pow ← state_member transmitProfilePowerState members (text "powerState") PowerSource_Any;
  Some (MkRule net pow NetworkType_Any 0 (numbers (elements (member members (text "timers"))))).

Fixpoint parse_rules (js : list json) : option (list TransmitProfileRule) :=
  match js with
  | [] => Some []
  | JObject members :: js => rule ← parse_rule members; rest ← parse_rules js; Some (rule :: rest)
  | _ :: js => parse_rules js
  end.

(** What becomes of an element of the array: a profile, an exception or [parsing_failed]. *)
Inductive parsed := Profile (profile : TransmitProfileRules) | Exception | ParsingFailed.

Definition parse_profile (j : json) : parsed :=
  match j with
  | JObject members =>
      match member members (text "name") with
      | JString n =>
          match member members (text "rules") with
          | JArray js =>
              if zlen js >? MAX_TRANSMIT_RULES then ParsingFailed
              else match parse_rules js with Some rs => Profile (MkProfile n rs) | None => Exception end
          | _ => Profile (MkProfile n [])
          end
      | _ => Exception
      end
  | _ => Profile (MkProfile [] [])
  end.

(** The profiles up to an exception; [None] after [parsing_failed]. *)
Fixpoint parse_profiles (js : list json) : option (list TransmitProfileRules) :=
  match js with
  | [] => Some []
  | j :: js =>
      match parse_profile j with
      | Profile profile => rest ← parse_profiles js; Some (profile :: rest)
      | Exception => Some []
      | ParsingFailed => None
      end
  end.

Section Json.
Context (json_parse : list Z → option json).

Definition parse (profiles_json : list Z) (p : profiles_state) : Z * profiles_state :=
  let newProfiles :=
    match json_parse profiles_json with
    | Some (JArray js) => if zlen js >? MAX_TRANSMIT_PROFILES then None else parse_profiles js
    | _ => Some []
    end in
  match newProfiles with
  | Some newProfiles => (zlen newProfiles, UpdateProfiles newProfiles p)
  | None => (0, p)
  end.

Definition load_json (profiles_json : list Z) (p : profiles_state) : bool * profiles_state :=
  let p := EnsureDefaultProfiles p in
  let '(n, p) := parse profiles_json p in
  (c_true n, p).

End Json.

(** ** Choosing a profile *)

Definition setProfile (profileName : list Z) (p : profiles_state) : bool * profiles_state :=
  let p := EnsureDefaultProfiles p in
  let '(result, p) :=
    match map_find (profiles p) profileName with
    | Some _ => (true, p <| currProfileName := profileName |>)
    | None => (false, p <| currProfileName := DEFAULT_PROFILE |>)
    end in
  (result, (updateStates (currNetCost p) (currPowState p) p).2).

(** The name the loop over the default names ends with. *)
Fixpoint default_name (names : list (list Z)) (selected : list Z) (index profileName : Z) : list Z :=
  match names with
  | [] => selected
  | n :: names => if index =? profileName then n else default_name names n (index + 1) profileName
  end.

Definition setDefaultProfile (profileName : Z) (p : profiles_state) : bool * profiles_state :=
  setProfile (default_name defaultProfileNames [] 0 profileName) p.

(** ** The timers *)

(** [out\[0\]] and [out\[1\]]. *)
Definition TimerArray : Type := Z * Z.

Definition rule_timers (rule : TransmitProfileRule) : option TimerArray :=
  match timers rule with
  | [] => None
  | t0 :: ts => let out0 := i32 (1000 * t0) in Some (out0, match ts with _ :: t2 :: _ => i32 (1000 * t2) | _ => out0 end)
  end.

Definition getTimers (p : profiles_state) : TimerArray * profiles_state :=
  let p := EnsureDefaultProfiles p in
  match map_find (profiles p) (currProfileName p) with
  | None => ((-1, -1), p)
  | Some profile =>
      if currRule p >=? zlen (rules profile) then ((-1, -1), p)
      else match rule_timers (nth (Z.to_nat (currRule p)) (rules profile) default_rule) with
           | None => ((-1, -1), p)
           | Some out => (out, p <| isTimerUpdated := false |>)
           end
  end.

Definition isTimerUpdateRequired (p : profiles_state) : bool := isTimerUpdated p.

Definition getDeviceState (p : profiles_state) : Z * Z := (currNetCost p, currPowState p).

Definition getProfile (p : profiles_state) : list Z := currProfileName p.

(** ** The timers are those of the rule the device selects

    The index of the current rule is a cache: whatever the operations were, the timers
    are those of the first rule of the current profile that matches the device, of its first rule when none does. *)

Definition selected (p : profiles_state) : option TransmitProfileRule :=
  profile ← map_find (profiles p) (currProfileName p);
  match List.find (matches (currNetCost p) (currPowState p)) (rules profile) with
  | Some rule => Some rule
  | None => head (rules profile)
  end.

Definition device_timers (p : profiles_state) : TimerArray :=
  default (-1, -1) (selected p ≫= rule_timers).

Inductive operation :=
  | Load (profileCandidates : list TransmitProfileRules) | LoadJson (profiles_json : list Z)
  | SetProfile (profileName : list Z) | SetDefaultProfile (profileName : Z)
  | UpdateStates (net pow : Z) | GetTimers.

Section Timers.
Context (json_parse : list Z → option json).

Definition perform (p : profiles_state) (o : operation) : profiles_state :=
  match o with
  | Load candidates => (load candidates p).2
  | LoadJson profiles_json => (load_json json_parse profiles_json p).2
  | SetProfile profileName => (setProfile profileName p).2
  | SetDefaultProfile profileName => (setDefaultProfile profileName p).2
  | UpdateStates net pow => (updateStates net pow p).2
  | GetTimers => (getTimers p).2
  end.

(** The cached rule is the one selected. *)
Definition cached (p : profiles_state) : Prop :=
  ∃ profile, map_find (profiles p) (currProfileName p) = Some profile ∧
    currRule p = default 0 (find_rule (currNetCost p) (currPowState p) (rules profile) 0).

Definition defaults_known (p : profiles_state) : Prop := ∀ n, n ∈ defaultProfileNames → is_Some (map_find (profiles p) n).

Record wf (p : profiles_state) : Prop := {
  wf_sorted : sorted (profiles p); wf_known : defaults_known p; wf_cached : cached p
}.

(** Before the first use there are no profiles. *)
Definition ready (p : profiles_state) : Prop := (profiles p = [] ∧ currProfileName p = DEFAULT_PROFILE) ∨ wf p.

Lemma default_known : DEFAULT_PROFILE ∈ defaultProfileNames.
Proof. by left. Qed.

Lemma find_rule_at net pow rs : ∀ i,
  match find_rule net pow rs i with
  | Some j => i ≤ j < i + zlen rs ∧ rs !! Z.to_nat (j - i) = List.find (matches net pow) rs
  | None => List.find (matches net pow) rs = None
  end.
Proof.
  induction rs as [|rule rs IH]; intros i; cbn; [done|]. rewrite zlen_cons. pose proof (zlen_nonneg rs).
  destruct (matches net pow rule); [rewrite Z.sub_diag; split; [lia|done]|]. specialize (IH (i + 1)).
  destruct (find_rule net pow rs (i + 1)) as [j|]; [|done]. destruct IH as [Hj IH]. split; [lia|].
  by replace (Z.to_nat (j - i)) with (S (Z.to_nat (j - (i + 1)))) by lia.
Qed.

Lemma updateStates_keeps net pow p : profiles (updateStates net pow p).2 = profiles p ∧ currProfileName (updateStates net pow p).2 = currProfileName p.
Proof. unfold updateStates. cbn. destruct (map_find _ _) as [profile|]; [|done]. by destruct (find_rule _ _ _ _). Qed.

Lemma updateStates_cached net pow p : is_Some (map_find (profiles p) (currProfileName p)) → cached (updateStates net pow p).2.
Proof.
  intros [profile E]. unfold updateStates. cbn. rewrite E. exists profile. destruct (find_rule net pow (rules profile) 0) eqn:Ef; cbn; by rewrite Ef.
Qed.

Lemma updateStates_wf net pow p : sorted (profiles p) → defaults_known p → is_Some (map_find (profiles p) (currProfileName p)) → wf (updateStates net pow p).2.
Proof.
  intros Hs Hk Hc. destruct (updateStates_keeps net pow p) as [E1 E2]. split; [by rewrite E1|unfold defaults_known; by rewrite E1|by apply updateStates_cached].
Qed.

Lemma set_profiles_sorted ps : ∀ m, sorted m → sorted (foldl (λ m profile, map_set m (name profile) profile) m ps).
Proof. induction ps as [|profile ps IH]; intros m Hm; [done|]. by apply IH, map_set_sorted. Qed.

Lemma set_profiles_find ps n : ∀ m, is_Some (map_find m n) ∨ n ∈ map name ps →
  is_Some (map_find (foldl (λ m profile, map_set m (name profile) profile) m ps) n).
Proof.
  induction ps as [|profile ps IH]; intros m H; cbn.
  - destruct H as [|H]; [done|]. by apply elem_of_nil in H.
  - apply IH. rewrite map_find_set. destruct (decide (n = name profile)) as [->|Hne]; [by left|]. cbn in H. rewrite elem_of_cons in H. tauto.
Qed.

Lemma keep_defaults p n : sorted (profiles p) → is_Some (map_find (profiles p) n) → n ∈ defaultProfileNames →
  is_Some (map_find (profiles (removeCustomProfiles p)) n).
Proof.
  intros Hs [profile E] Hn. exists profile. cbn. apply map_find_elem in E; [|done]. apply map_find_elem; [by apply filter_sorted|].
  apply list_elem_of_filter. split; [|done]. unfold is_default. cbn. by apply bool_decide_eq_true_2.
Qed.

(** Replacing the profiles is fine as long as the default ones stay. *)
Lemma UpdateProfiles_wf ps p : sorted (profiles p) → (∀ n, n ∈ defaultProfileNames → is_Some (map_find (profiles p) n) ∨ n ∈ map name ps) →
  wf (UpdateProfiles ps p).
Proof.
  intros Hs Hk. unfold UpdateProfiles.
  set (p1 := (removeCustomProfiles p) <| profiles := foldl (λ m profile, map_set m (name profile) profile) (profiles (removeCustomProfiles p)) ps |>).
  assert (profiles p1 = foldl (λ m profile, map_set m (name profile) profile) (profiles (removeCustomProfiles p)) ps) as E1 by done.
  assert (sorted (profiles p1)) as Hs1 by (rewrite E1; by apply set_profiles_sorted, filter_sorted).
  assert (defaults_known p1) as Hk1.
  { intros n Hn. rewrite E1. apply set_profiles_find. destruct (Hk n Hn) as [H|H]; [left; by apply keep_defaults|by right]. }
  clearbody p1. clear E1. destruct (map_find (profiles p1) (currProfileName p1)) as [profile|] eqn:E; apply updateStates_wf; try done.
  by apply Hk1, default_known.
Qed.

Lemma ensured_wf p : ready p → wf (EnsureDefaultProfiles p).
Proof.
  intros [[E _]|H]; unfold EnsureDefaultProfiles.
  - rewrite E. apply UpdateProfiles_wf; [rewrite E; constructor|]. intros n Hn. right. exact Hn.
  - destruct (profiles p) eqn:E; [|done]. apply UpdateProfiles_wf; [rewrite E; constructor|]. intros n Hn. right. exact Hn.
Qed.

Lemma update_loaded ps p : wf p → wf (UpdateProfiles ps p).
Proof. intros [Hs Hk _]. apply UpdateProfiles_wf; [done|]. intros n Hn. left. by apply Hk. Qed.

Lemma setProfile_wf n p : ready p → wf (setProfile n p).2.
Proof.
  intros Hr. pose proof (ensured_wf p Hr) as [Hs Hk _]. unfold setProfile. set (q := EnsureDefaultProfiles p) in *. clearbody q.
  destruct (map_find (profiles q) n) eqn:E; cbn [snd]; apply updateStates_wf; try done.
  by apply Hk, default_known.
Qed.

Lemma parse_wf profiles_json p : wf p → wf (parse json_parse profiles_json p).2.
Proof. intros H. unfold parse. destruct (json_parse profiles_json) as [[]|]; cbn; repeat case_match; by try apply update_loaded. Qed.

Lemma perform_ready p o : ready p → ready (perform p o).
Proof.
  intros Hr. destruct o; cbn [perform].
  - right. unfold load. pose proof (ensured_wf p Hr). destruct (_ >? _); [done|]. destruct (forallb _ _); [by apply update_loaded|done].
  - right. pose proof (parse_wf profiles_json _ (ensured_wf p Hr)) as Hp. unfold load_json. by destruct (parse _ _ _).
  - right. by apply setProfile_wf.
  - right. by apply setProfile_wf.
  - destruct Hr as [[E1 E2]|[Hs Hk Hc]].
    + left. unfold updateStates. cbn. rewrite E1. done.
    + right. apply updateStates_wf; [done|done|]. destruct Hc as (profile & E & _). by exists profile.
  - right. unfold getTimers. pose proof (ensured_wf p Hr) as He. destruct (map_find _ _); [|done]. destruct (_ >=? _); [done|].
    destruct (rule_timers _); [|done]. by destruct He as [Hs Hk Hc].
Qed.

Lemma run_ready os p : ready p → ready (foldl perform p os).
Proof. revert p. induction os as [|o os IH]; intros p H; [done|]. apply IH. by apply perform_ready. Qed.

Lemma getTimers_cached p : cached (EnsureDefaultProfiles p) → (getTimers p).1 = device_timers (EnsureDefaultProfiles p).
Proof.
  intros (profile & E & Er). unfold getTimers, device_timers, selected. set (q := EnsureDefaultProfiles p) in *. rewrite E. cbn. rewrite Er.
  pose proof (find_rule_at (currNetCost q) (currPowState q) (rules profile) 0) as Hf.
  destruct (find_rule _ _ (rules profile) 0) as [j|]; cbn.
  - destruct Hf as [Hj Hf]. rewrite Z.sub_0_r in Hf. destruct (Z.geb_spec j (zlen (rules profile))); [lia|].
    destruct (rules profile !! Z.to_nat j) as [rule|] eqn:El; [|apply lookup_ge_None in El; unfold zlen in *; lia].
    rewrite <-Hf. rewrite (nth_lookup_Some _ _ _ _ El). cbn. by destruct (rule_timers rule).
  - rewrite Hf. destruct (rules profile) as [|rule rs]; [done|]. pose proof (zlen_nonneg rs).
    destruct (Z.geb_spec 0 (zlen (rule :: rs))) as [H0|_]; [rewrite zlen_cons in H0; lia|]. cbn. change (Z.to_nat 0) with 0%nat. by destruct (rule_timers rule).
Qed.

(** C38. Whatever profiles were loaded, from code or from JSON, chosen and replaced, and however the device
    changed, the current profile exists and the timers are those of its first rule that matches the
    network and the power source, of its first rule when none matches, and both are off when it has no timers. *)
Theorem timers_of_device os : let p := EnsureDefaultProfiles (foldl perform initial os) in
  is_Some (map_find (profiles p) (getProfile p)) ∧ (getTimers (foldl perform initial os)).1 = device_timers p.
Proof.
  cbn. assert (wf (EnsureDefaultProfiles (foldl perform initial os))) as [_ _ Hc] by (apply ensured_wf, run_ready; by left).
  split; [|by apply getTimers_cached]. destruct Hc as (profile & E & _). by exists profile.
Qed.

End Timers.

End TransmitProfiles.
