(* ===== verification/WorkerThread.v ===== *)
(** * The worker thread

    lib/pal/WorkerThread.cpp and the handle of lib/pal/TaskDispatcher.hpp: calls to be made as soon as possible
    and timed calls in the order of their times. [item] is the local of the thread function: the task it took
    from a queue and has not run yet; between the two the other threads can queue and cancel. A task is named by
    the address it has, and no two tasks of a queue have the same. Times are in milliseconds, 64 bits unsigned. *)

From Stdlib Require Import ZArith Lia Sorted Permutation.
From S2P Require Import Prelude.

Module WorkerThread.

Inductive task_type := Shutdown | Call | TimedCall | Done | Cancelled.

#[global] Instance task_type_eq : EqDecision task_type.
Proof. solve_decision. Defined.

Definition MAX_FUTURE_DELTA_MS : Z := 60 * 60 * 1000.

Section Worker.
Context {C : Type}.

Record Task := MkTask { Id : Z; Type_ : task_type; TargetTime : Z; Body : option C }.

Record worker := MkWorker {
  m_queue : list Task; m_timerQueue : list Task; m_itemInProgress : option Z; item : option Task; running : bool
}.
#[global] Instance worker_eta : Eta worker := λ w,
  MkWorker (m_queue w) (m_timerQueue w) (m_itemInProgress w) (item w) (running w).

Definition new_worker : worker := MkWorker [] [] None None true.

(** ** Queueing and cancelling *)

(** The loop of [Queue] and the insertion where it stops. *)
Fixpoint insert_timed (t : Task) (q : list Task) : list Task :=
  match q with
  | [] => [t]
  | x :: q => if TargetTime x <? TargetTime t then x :: insert_timed t q else t :: x :: q
  end.

Definition Queue (t : Task) (w : worker) : worker :=
  if decide (Type_ t = TimedCall) then w <| m_timerQueue := insert_timed t (m_timerQueue w) |>
  else w <| m_queue := m_queue w ++ [t] |>.

(** [std::find] and [erase]. *)
Fixpoint erase_task (id : Z) (q : list Task) : list Task :=
  match q with [] => [] | x :: q => if Id x =? id then q else x :: erase_task id q end.

(** [own]: called on the worker thread itself; [locked]: the lock on the execution was got in time. *)
Definition Cancel (own locked : bool) (id waitTime : Z) (w : worker) : bool * worker :=
  if bool_decide (m_itemInProgress w = Some id) then
    if own then (true, w)
    else
      let w := if (waitTime >? 0) && locked then w <| m_itemInProgress := None |> else w in
      (negb (bool_decide (m_itemInProgress w = Some id)), w)
  else (true, w <| m_timerQueue := erase_task id (m_timerQueue w) |>).

(** [DeferredCallbackHandle::Cancel]; a handle holds the address of a task or nothing. *)
Definition handle_Cancel (own locked : bool) (m_task : option Z) (waitTime : Z) (w : worker) : bool * worker :=
  match m_task with Some id => Cancel own locked id waitTime w | None => (true, w) end.

(** [scheduleTask], with the address of the new task. *)
Definition scheduleTask (id delayMs now : Z) (call : C) (w : worker) : option Z * worker :=
  (Some id, Queue (MkTask id TimedCall (u64 (now + delayMs)) (Some call)) w).

(** ** The thread *)

(** One round of the loop: a task was taken, the front of the timer queue was moved ([continue]), or the thread waits. *)
Inductive round := Took | Again | Wait (nextTimerInMs : Z).

Definition take (t : Task) (w : worker) : round * worker :=
  (Took, w <| item := Some t |> <| m_itemInProgress := Some (Id t) |>).

Definition take_call (nextTimerInMs : Z) (w : worker) : round * worker :=
  match m_queue w with
  | t :: q => take t (w <| m_queue := q |>)
  | [] => (Wait nextTimerInMs, w)
  end.

Definition pick (now : Z) (w : worker) : round * worker :=
  match m_timerQueue w with
  | [] => take_call MAX_FUTURE_DELTA_MS w
  | t :: q =>
      if TargetTime t <=? now then take t (w <| m_timerQueue := q |>)
      else
        let delta := u64 (TargetTime t - now) in
        if delta >? MAX_FUTURE_DELTA_MS then
          (Again, Queue (MkTask (Id t) (Type_ t) (u64 (now + MAX_FUTURE_DELTA_MS)) (Body t)) (w <| m_timerQueue := q |>))
        else take_call (u32 delta) w
  end.

(** Rounds until a task is taken or the thread waits; [clock i] is the time read in the [i]-th round. *)
Fixpoint fetch (fuel : nat) (clock : Z → Z) (i : Z) (w : worker) : option (round * worker) :=
  match fuel with
  | O => None
  | S fuel =>
      match pick (clock i) w with
      | (Again, w) => fetch fuel clock (i + 1) w
      | other => Some other
      end
  end.

(** What is done with the task taken: the call to make, if it was not cancelled. *)
Definition execute (w : worker) : option C * worker :=
  match item w with
  | None => (None, w)
  | Some t =>
      let w' := w <| item := None |> <| m_itemInProgress := None |> in
      if decide (Type_ t = Shutdown) then (None, w' <| running := false |>)
      else
        match m_itemInProgress w with
        | Some _ => (Body t, w')
        | None => (None, w')
        end
  end.

(** ** The order of the timed calls *)

Implicit Types (t : Task) (q : list Task) (w : worker).

Definition sooner t t' : Prop := TargetTime t ≤ TargetTime t'.
Definition ordered q : Prop := StronglySorted sooner q.
Definition due (now : Z) t : Prop := TargetTime t ≤ now.
Definition within (now : Z) t : Prop := TargetTime t ≤ now + MAX_FUTURE_DELTA_MS.

Lemma insert_timed_Permutation t q : insert_timed t q ≡ₚ t :: q.
Proof. induction q as [|x q IH]; cbn; [done|]. destruct (_ <? _); [|done]. rewrite IH. apply Permutation_swap. Qed.

Lemma insert_timed_Forall (P : Task → Prop) t q : Forall P (insert_timed t q) ↔ P t ∧ Forall P q.
Proof. rewrite insert_timed_Permutation. apply Forall_cons. Qed.

Lemma insert_timed_ordered t q : ordered q → ordered (insert_timed t q).
Proof.
  intros H. induction H as [|x q Hq IH Hx]; cbn; [by repeat constructor|].
  destruct (Z.ltb_spec (TargetTime x) (TargetTime t)); constructor; [done| |by constructor|].
  - apply insert_timed_Forall. split; [unfold sooner; lia|done].
  - constructor; [done|]. eapply Forall_impl; [exact Hx|]. unfold sooner. intros y Hy. lia.
Qed.

Lemma erase_task_sublist id q : erase_task id q `sublist_of` q.
Proof. induction q as [|x q IH]; cbn; [done|]. destruct (_ =? _); [by apply sublist_cons|by apply sublist_skip]. Qed.

Lemma ordered_sublist q q' : q `sublist_of` q' → ordered q' → ordered q.
Proof.
  induction 1 as [|x q q' Hs IH|x q q' Hs IH]; intros Ho; [constructor| |]; inversion Ho; subst; [|by apply IH].
  constructor; [by apply IH|]. rewrite Forall_forall in *. eauto using elem_of_sublist.
Qed.

(** ** A round ends, takes what is due and loses nothing *)

Definition far (now : Z) q : nat := length (filter (λ t, now + MAX_FUTURE_DELTA_MS < TargetTime t) q).

Definition timed q : Prop := Forall (λ t, Type_ t = TimedCall ∧ 0 ≤ TargetTime t < 2 ^ 64) q.

(** A task that waits can be made to wait for less, but not for less than an hour from [now]. *)
Definition kept (now : Z) t t' : Prop :=
  Id t' = Id t ∧ Type_ t' = Type_ t ∧ Body t' = Body t ∧
  (TargetTime t' = TargetTime t ∨ now + MAX_FUTURE_DELTA_MS ≤ TargetTime t' < TargetTime t).

Definition moved (now : Z) q q' : Prop := ∃ q1, Forall2 (kept now) q q1 ∧ q' ≡ₚ q1.

Lemma kept_refl now t : kept now t t.
Proof. split_and!; [done..|by left]. Qed.

Lemma kept_trans now now' t1 t2 t3 : now ≤ now' → kept now t1 t2 → kept now' t2 t3 → kept now t1 t3.
Proof. intros Hn (E1 & E2 & E3 & E4) (F1 & F2 & F3 & F4). split_and!; [congruence..|]. lia. Qed.

Lemma moved_refl now q : moved now q q.
Proof. exists q. split; [|done]. apply Forall2_same_length_lookup_2; [done|]. intros i x y Hx Hy. assert (x = y) as -> by congruence. apply kept_refl. Qed.

Lemma moved_trans now now' q1 q2 q3 : now ≤ now' → moved now q1 q2 → moved now' q2 q3 → moved now q1 q3.
Proof.
  intros Hn (r1 & H1 & P1) (r2 & H2 & P2).
  destruct (Permutation_Forall2 P1 H2) as (r3 & P3 & H3).
  exists r3. split; [|by rewrite P2, P3]. eapply Forall2_trans; [|exact H1|exact H3]. intros x y z. by apply kept_trans.
Qed.

Lemma far_later now now' q : now ≤ now' → (far now' q ≤ far now q)%nat.
Proof.
  intros Hn. unfold far. induction q as [|t q IH]; [done|]. rewrite !filter_cons. destruct (decide (now' + MAX_FUTURE_DELTA_MS < TargetTime t)).
  - rewrite decide_True by lia. cbn. lia.
  - destruct (decide (now + MAX_FUTURE_DELTA_MS < TargetTime t)); cbn; lia.
Qed.

(** One round at [now]. *)
Lemma pick_round now w : ordered (m_timerQueue w) → timed (m_timerQueue w) → 0 ≤ now → now + MAX_FUTURE_DELTA_MS < 2 ^ 64 →
  let '(r, w') := pick now w in
  match r with
  | Again => m_queue w' = m_queue w ∧ ordered (m_timerQueue w') ∧ timed (m_timerQueue w') ∧ moved now (m_timerQueue w) (m_timerQueue w') ∧
      (far now (m_timerQueue w') < far now (m_timerQueue w))%nat
  | Took => ∃ t, item w' = Some t ∧ m_itemInProgress w' = Some (Id t) ∧
      ((m_timerQueue w = t :: m_timerQueue w' ∧ m_queue w' = m_queue w ∧ due now t) ∨
       (m_queue w = t :: m_queue w' ∧ m_timerQueue w' = m_timerQueue w ∧ Forall (λ t', ¬ due now t') (m_timerQueue w)))
  | Wait n => w' = w ∧ m_queue w = [] ∧ Forall (λ t', ¬ due now t') (m_timerQueue w) ∧
      n = match m_timerQueue w with [] => MAX_FUTURE_DELTA_MS | t :: _ => TargetTime t - now end
  end.
Proof.
  intros Ho Ht Hn Hn'. unfold pick.
  assert (∀ n, (n = match m_timerQueue w with [] => MAX_FUTURE_DELTA_MS | t :: _ => TargetTime t - now end) →
    Forall (λ t', ¬ due now t') (m_timerQueue w) → let '(r, w') := take_call n w in
    match r with
    | Again => False
    | Took => ∃ t, item w' = Some t ∧ m_itemInProgress w' = Some (Id t) ∧
       (m_queue w = t :: m_queue w' ∧ m_timerQueue w' = m_timerQueue w ∧ Forall (λ t', ¬ due now t') (m_timerQueue w))
    | Wait n' => w' = w ∧ m_queue w = [] ∧ Forall (λ t', ¬ due now t') (m_timerQueue w) ∧ n' = n
    end) as Hcall.
  { intros n En Hd. unfold take_call. destruct (m_queue w) as [|t q] eqn:E; cbn; [done|]. by exists t. }
  destruct (m_timerQueue w) as [|t q] eqn:Eq.
  - specialize (Hcall MAX_FUTURE_DELTA_MS eq_refl ltac:(constructor)). destruct (take_call _ w) as [[| |n] w']; [|done|].
    2: { destruct Hcall as (-> & E1 & E2 & ->). done. }
    destruct Hcall as (t & E1 & E2 & E3). exists t. split_and!; [done|done|by right].
  - inversion Ho as [|? ? Hoq Hsq]; subst. inversion Ht as [|? ? [Ety Hr] Htq]; subst.
    destruct (Z.leb_spec (TargetTime t) now) as [Hle|Hgt]; cbn.
    { exists t. split_and!; [done|done|]. left. done. }
    rewrite (wrap_small 64) by (unfold ubits; lia).
    destruct (Z.gtb_spec (TargetTime t - now) MAX_FUTURE_DELTA_MS) as [Hfar|Hnear].
    + unfold Queue. cbn [Type_]. rewrite decide_True by done. cbn. rewrite (wrap_small 64) by (unfold ubits, MAX_FUTURE_DELTA_MS in *; lia).
      set (t' := MkTask _ _ _ _). assert (kept now t t') as Hk by (split_and!; [done..|right; cbn; lia]). split_and!.
      * done.
      * by apply insert_timed_ordered.
      * apply insert_timed_Forall. split; [|done]. cbn. split; [done|]. unfold MAX_FUTURE_DELTA_MS in *. lia.
      * exists (t' :: q). split; [|apply insert_timed_Permutation]. constructor; [done|]. clear.
        induction q as [|x q IH]; constructor; [apply kept_refl|done].
      * unfold far. rewrite (filter_Permutation _ _ _ (insert_timed_Permutation t' q)), !filter_cons. destruct (decide (_ < TargetTime t')) as [Hx|_]; [subst t'; cbn [TargetTime] in Hx; lia|].
        destruct (decide (_ < TargetTime t)); [apply Nat.lt_succ_diag_r|lia].
    + rewrite (wrap_small 32) by (unfold ubits, MAX_FUTURE_DELTA_MS in *; lia).
      assert (Forall (λ t', ¬ due now t') (t :: q)) as Hd.
      { constructor; [unfold due; lia|]. eapply Forall_impl; [exact Hsq|]. unfold sooner, due. intros; lia. }
      specialize (Hcall _ eq_refl Hd). destruct (take_call _ w) as [[| |n] w']; [|done|].
    2: { destruct Hcall as (-> & E1 & E2 & ->). done. }
      destruct Hcall as (t' & E1 & E2 & E3). exists t'. split_and!; [done|done|by right].
Qed.

(** Readings of the clock that do not go back and leave room for an hour. *)
Definition steady (clock : Z → Z) : Prop := ∀ i, 0 ≤ clock i ≤ clock (i + 1) ∧ clock i + MAX_FUTURE_DELTA_MS < 2 ^ 64.

(** What a round that ended left, when the timer queue was [q] and the time [now]. *)
Definition ended (now : Z) q w (r : round) w' : Prop :=
  match r with
  | Took => ∃ t, item w' = Some t ∧ m_itemInProgress w' = Some (Id t) ∧
      ((q = t :: m_timerQueue w' ∧ m_queue w' = m_queue w ∧ due now t ∧ Forall (sooner t) (m_timerQueue w')) ∨
       (m_queue w = t :: m_queue w' ∧ m_timerQueue w' = q ∧ Forall (λ t', ¬ due now t') q))
  | Wait n => m_timerQueue w' = q ∧ m_queue w' = [] ∧ m_queue w = [] ∧ Forall (λ t', ¬ due now t') q ∧
      n = match q with [] => MAX_FUTURE_DELTA_MS | t :: _ => TargetTime t - now end
  | Again => False
  end.

Lemma fetch_rounds clock : steady clock → ∀ fuel i w, ordered (m_timerQueue w) → timed (m_timerQueue w) →
  (far (clock i) (m_timerQueue w) < fuel)%nat →
  ∃ r w' q now, fetch fuel clock i w = Some (r, w') ∧ moved (clock i) (m_timerQueue w) q ∧ ordered q ∧ timed q ∧ clock i ≤ now ∧ ended now q w r w'.
Proof.
  intros Hc. induction fuel as [|fuel IH]; intros i w Ho Ht Hf; [lia|]. destruct (Hc i) as [[Hi Hi'] Hr]. cbn [fetch].
  pose proof (pick_round (clock i) w Ho Ht Hi Hr) as Hp. destruct (pick (clock i) w) as [[| |n] w'].
  - destruct Hp as (t & E1 & E2 & H). exists Took, w', (m_timerQueue w), (clock i). split_and!; [done|apply moved_refl|done|done|done|].
    exists t. split_and!; [done|done|]. destruct H as [(E3 & E4 & Hd)|(E3 & E4 & Hd)]; [left|right]; split_and!; try done.
    rewrite E3 in Ho. by inversion Ho.
  - destruct Hp as (E & Ho' & Ht' & Hm & Hlt). pose proof (far_later _ _ (m_timerQueue w') Hi').
    destruct (IH (i + 1) w' Ho' Ht') as (r & w2 & q & now & Ef & Hm2 & Hoq & Htq & Hn & He); [lia|].
    exists r, w2, q, now. split_and!; [done|by eapply moved_trans|done|done|lia|]. unfold ended in *. by rewrite <-E.
  - destruct Hp as (-> & E & Hd & En). exists (Wait n), w, (m_timerQueue w), (clock i). split_and!; [done|apply moved_refl|done|done|done|done].
Qed.

(** The states a worker comes to. *)
Inductive reached : worker → Prop :=
  | reached_new : reached new_worker
  | reached_Queue t w : reached w → 0 ≤ TargetTime t < 2 ^ 64 → reached (Queue t w)
  | reached_Cancel own locked id waitTime w : reached w → reached (Cancel own locked id waitTime w).2
  | reached_fetch fuel clock r w w' : reached w → steady clock → fetch fuel clock 0 w = Some (r, w') → reached w'
  | reached_execute w : reached w → reached (execute w).2.

Lemma timed_sublist q q' : q `sublist_of` q' → timed q' → timed q.
Proof. intros Hs Ht. unfold timed in *. rewrite Forall_forall in *. intros t Hin. by eapply Ht, elem_of_sublist. Qed.

Lemma far_length now q : (far now q ≤ length q)%nat.
Proof. apply length_filter. Qed.

Lemma fetch_more fuel clock : ∀ i w x, fetch fuel clock i w = Some x → ∀ extra, fetch (fuel + extra) clock i w = Some x.
Proof.
  induction fuel as [|fuel IH]; intros i w x E extra; [done|]. cbn in *. destruct (pick (clock i) w) as [[| |n] w']; [done|by apply IH|done].
Qed.

Lemma Queue_timers t w : ordered (m_timerQueue w) → timed (m_timerQueue w) → 0 ≤ TargetTime t < 2 ^ 64 →
  ordered (m_timerQueue (Queue t w)) ∧ timed (m_timerQueue (Queue t w)).
Proof.
  intros Ho Ht Hr. unfold Queue. destruct (decide _); [|done]. cbn. split; [by apply insert_timed_ordered|by apply insert_timed_Forall].
Qed.

Lemma Cancel_timers own locked id waitTime w : m_timerQueue (Cancel own locked id waitTime w).2 `sublist_of` m_timerQueue w.
Proof.
  unfold Cancel. destruct (bool_decide _); [|apply erase_task_sublist]. destruct own; [done|]. by destruct (_ && _).
Qed.

Lemma reached_timers w : reached w → ordered (m_timerQueue w) ∧ timed (m_timerQueue w).
Proof.
  induction 1 as [|t w _ [Ho Ht] Hr|own locked id waitTime w _ [Ho Ht]|fuel clock r w w' _ [Ho Ht] Hc E|w _ IH].
  - split; constructor.
  - by apply Queue_timers.
  - pose proof (Cancel_timers own locked id waitTime w). split; [by eapply ordered_sublist|by eapply timed_sublist].
  - destruct (fetch_rounds clock Hc (fuel + S (length (m_timerQueue w))) 0 w Ho Ht) as (r2 & w2 & q & now & E2 & _ & Hoq & Htq & _ & He).
    { pose proof (far_length (clock 0) (m_timerQueue w)). lia. }
    rewrite (fetch_more _ _ _ _ _ E) in E2. injection E2 as -> ->. destruct r2 as [| |n]; cbn in He.
    + destruct He as (t & _ & _ & [(-> & _)|(_ & -> & _)]); [|done]. inversion Hoq. inversion Htq. done.
    + done.
    + destruct He as (-> & _). done.
  - unfold execute. destruct (item w) as [t|]; [|done]. destruct (decide _); [done|]. by destruct (m_itemInProgress w).
Qed.

(** C39. Whatever was queued and cancelled, the thread comes to a task or to a wait within as many rounds as there are
    timed calls and one more. A timed call is taken only when its time has come, the one with the earliest time first,
    and before the calls without a time; the thread waits only when nothing is due and at most until the earliest time or
    for an hour; and no task is lost or changed, except that one that is more than an hour away is set to an hour
    from then, never to less. *)
Theorem next_task w clock : reached w → steady clock →
  ∃ r w' q now, fetch (S (length (m_timerQueue w))) clock 0 w = Some (r, w') ∧
    moved (clock 0) (m_timerQueue w) q ∧ ordered q ∧ clock 0 ≤ now ∧ ended now q w r w'.
Proof.
  intros Hw Hc. destruct (reached_timers w Hw) as [Ho Ht].
  destruct (fetch_rounds clock Hc (S (length (m_timerQueue w))) 0 w Ho Ht) as (r & w' & q & now & E & Hm & Hoq & _ & Hn & He).
  { pose proof (far_length (clock 0) (m_timerQueue w)). lia. }
  by exists r, w', q, now.
Qed.

End Worker.

Arguments Task : clear implicits.
Arguments worker : clear implicits.

(** ** Example *)

Definition ex_worker : worker unit :=
  Queue (MkTask 2 TimedCall 50 (Some tt)) (Queue (MkTask 1 TimedCall 80 (Some tt)) (Queue (MkTask 0 Call 0 (Some tt)) new_worker)).

Lemma next_task_witness : ∃ w', fetch 3 (λ _, 60) 0 ex_worker = Some (Took, w') ∧ Id <$> item w' = Some 2.
Proof.
  destruct (next_task ex_worker (λ _, 60)) as (r & w' & q & now & E & _).
  - repeat first [apply reached_Queue; [|done]|apply reached_new].
  - intros i. done.
  - exists w'. vm_compute in E. injection E as <- <-. done.
Defined.

End WorkerThread.
