(* ===== verification/Backoff.v ===== *)
(** * Backoff with exponential steps and jitter

    lib/backoff/Backoff_ExponentialWithJitter.hpp. The doubles of the calculator are the real
    numbers they stand for, and every operation on them is rounded: [rnd] is the rounding to the
    nearest double and [pow] is that of the C library, of which the section states what is used.
    Infinities and NaN are not modelled: the powers stay in the range of a double. *)

From Stdlib Require Import ZArith Lia Reals Lra.
From S2P Require Import Prelude.

Module Backoff.

(** The interface of lib/backoff/IBackoff.hpp; the [r]-th value can depend on the [r]-th random number. *)
Class IBackoff (B : Type) := { reset : B → B; increase : B → B; getValue : B → Z → Z }.

(** [floor], a double that is a whole number. *)
Definition floor (x : R) : R := IZR (Int_part x).

Section Exponential.
Local Open Scope R_scope.
(** The arguments of the constructor. *)
Context (initialValue maximumValue : Z) (m_multiplier m_jitter : R).
Context (rnd : R → R) (pow : R → R → R).
(** The random number that the [r]-th call of [m_rand.getRandomDouble()] gives. *)
Context (getRandomDouble : Z → R).

Definition m_initialValue : R := IZR initialValue.
Definition m_maximumValue : R := IZR maximumValue.

Record backoff := MkBackoff { m_currentBase : R; m_currentRange : R; m_step : R }.

Definition good : Prop := 0 <= m_initialValue /\ m_initialValue <= m_maximumValue /\ m_multiplier > 1 /\ m_jitter >= 0.

Definition increase_private (b : backoff) : backoff :=
  if Rge_dec (rnd (m_currentBase b + m_currentRange b)) m_maximumValue then b
  else
    let base := floor (rnd (m_initialValue * pow m_multiplier (m_step b))) in
    let range := if Rgt_dec m_jitter 0 then
        floor (rnd (rnd (m_initialValue * pow m_multiplier (rnd (m_step b + m_jitter))) - base))
      else 0 in
    if Rgt_dec (rnd (base + range)) m_maximumValue then
      let base := Rmax m_initialValue (rnd (m_maximumValue - range)) in
      MkBackoff base (Rmin range (rnd (m_maximumValue - base))) (rnd (m_step b + 1))
    else MkBackoff base range (rnd (m_step b + 1)).

Definition new_backoff : backoff := increase_private (MkBackoff 0 0 0).

Definition reset_private (b : backoff) : backoff := increase_private (MkBackoff 0 0 0).

Definition backoff_value (b : backoff) (r : Z) : Z :=
  let value := m_currentBase b in
  let value := if Rgt_dec (m_currentRange b) 0 then rnd (value + rnd (getRandomDouble r * m_currentRange b)) else value in
  Int_part value.

#[global] Instance exponential : IBackoff backoff :=
  {| reset := reset_private; increase := increase_private; getValue := backoff_value |}.

(** ** What is known of the arithmetic

    The arguments are [int]s that [good()] accepts, with an initial value other than 0.
    Rounding keeps the order and the whole numbers a double holds exactly; the powers of a number
    above 1 start at 1 and grow with the exponent; a random number lies between 0 and 1. *)
Context (Hgood : good) (Hinit : (0 < initialValue)%Z) (Hmax : (maximumValue < 2 ^ 31)%Z).
Context (rnd_mono : forall x y, x <= y -> rnd x <= rnd y) (rnd_exact : forall n : Z, (Z.abs n <= 2 ^ 53)%Z -> rnd (IZR n) = IZR n).
Context (pow_0 : forall x, pow x 0 = 1) (pow_mono : forall x y z, 1 < x -> y <= z -> pow x y <= pow x z).
Context (random_range : forall r, 0 <= getRandomDouble r <= 1).

Lemma initial_le : (initialValue <= maximumValue)%Z.
Proof using Hgood. destruct Hgood as (_ & H & _). by apply le_IZR. Qed.

(** Comparing a rounded whole number with one that is exact. *)
Lemma rnd_gt (x n : Z) : (Z.abs n < 2 ^ 53)%Z -> rnd (IZR x) > IZR n <-> (n < x)%Z.
Proof using rnd_mono rnd_exact.
  intros Hn. split; intros H.
  - destruct (Z_lt_le_dec n x) as [|Hle]; [done|exfalso]. apply IZR_le, rnd_mono in Hle. rewrite (rnd_exact n) in Hle by lia. lra.
  - assert (IZR (n + 1) <= IZR x) as Hle by (apply IZR_le; lia). apply rnd_mono in Hle. rewrite (rnd_exact (n + 1)), plus_IZR in Hle by lia. lra.
Qed.

Lemma rnd_ge (x n : Z) : (Z.abs n < 2 ^ 53)%Z -> rnd (IZR x) >= IZR n <-> (n <= x)%Z.
Proof using rnd_mono rnd_exact.
  intros Hn. split; intros H.
  - destruct (Z_le_gt_dec n x) as [|Hgt]; [done|exfalso]. assert (IZR x <= IZR (n - 1)) as Hle by (apply IZR_le; lia).
    apply rnd_mono in Hle. rewrite (rnd_exact (n - 1)), minus_IZR in Hle by lia. lra.
  - apply IZR_le, rnd_mono in H. rewrite (rnd_exact n) in H by lia. lra.
Qed.

Lemma Int_part_bounds (lo hi : Z) x : IZR lo <= x <= IZR hi -> (lo <= Int_part x <= hi)%Z.
Proof.
  intros [H1 H2]. destruct (base_Int_part x) as [H3 H4]. split.
  - apply Z.lt_succ_r, lt_IZR. rewrite succ_IZR. lra.
  - apply le_IZR. lra.
Qed.

Lemma Int_part_IZR n : Int_part (IZR n) = n.
Proof. pose proof (Int_part_bounds n n (IZR n) ltac:(lra)). lia. Qed.

(** ** The delay of a step *)

(** The base and the jitter of the step [n] before they are cut at the maximum. *)
Definition base_at (n : Z) : Z := Int_part (rnd (m_initialValue * pow m_multiplier (IZR n))).
Definition range_at (n : Z) : Z :=
  if Rgt_dec m_jitter 0 then Int_part (rnd (rnd (m_initialValue * pow m_multiplier (rnd (IZR n + m_jitter))) - IZR (base_at n))) else 0%Z.
Definition top_at (n : Z) : Z := (base_at n + range_at n)%Z.

(** What increase_private stores: the range is kept, and the base gives way to it. *)
Definition cut_base (n : Z) : Z :=
  if (top_at n >? maximumValue)%Z then Z.max initialValue (maximumValue - range_at n) else base_at n.
Definition cut_range (n : Z) : Z :=
  if (top_at n >? maximumValue)%Z then Z.min (range_at n) (maximumValue - cut_base n) else range_at n.

Lemma base_range n : (0 <= n < 2 ^ 53)%Z -> (initialValue <= base_at n)%Z /\ (0 <= range_at n)%Z.
Proof using All.
  intros Hn. pose proof initial_le. destruct Hgood as (_ & _ & Hm & Hj). assert (0 < m_initialValue) as H0 by (by apply IZR_lt).
  assert (1 <= pow m_multiplier (IZR n)) as Hp by (rewrite <-(pow_0 m_multiplier); apply pow_mono; [lra|apply (IZR_le 0); lia]).
  assert (IZR initialValue <= rnd (m_initialValue * pow m_multiplier (IZR n))) as Hb.
  { rewrite <-(rnd_exact initialValue) by lia. apply rnd_mono. change (IZR initialValue) with m_initialValue. nra. }
  destruct (base_Int_part (rnd (m_initialValue * pow m_multiplier (IZR n)))) as [B1 B2]. fold (base_at n) in B1, B2. split.
  - apply Z.lt_succ_r, lt_IZR. rewrite succ_IZR. lra.
  - unfold range_at. destruct (Rgt_dec m_jitter 0); [|done].
    assert (IZR n <= rnd (IZR n + m_jitter)) as Hs by (rewrite <-(rnd_exact n) at 1 by lia; apply rnd_mono; lra).
    assert (rnd (m_initialValue * pow m_multiplier (IZR n)) <= rnd (m_initialValue * pow m_multiplier (rnd (IZR n + m_jitter)))) as Hle.
    { apply rnd_mono, Rmult_le_compat_l; [lra|]. apply pow_mono; [lra|done]. }
    set (x := rnd (m_initialValue * pow m_multiplier (rnd (IZR n + m_jitter)))) in *. set (y := rnd (x - IZR (base_at n))).
    assert (0 <= y) as Hy by (unfold y; rewrite <-(rnd_exact 0) at 1 by lia; apply rnd_mono; lra).
    destruct (base_Int_part y) as [Y1 Y2]. apply Z.lt_succ_r, lt_IZR. rewrite succ_IZR. lra.
Qed.

Lemma cut_bounds n : (0 <= n < 2 ^ 53)%Z ->
  (initialValue <= cut_base n /\ 0 <= cut_range n /\ cut_base n + cut_range n = Z.min maximumValue (top_at n))%Z.
Proof using All.
  intros Hn. destruct (base_range n Hn). pose proof initial_le. unfold cut_range, cut_base, top_at in *.
  destruct (Z.gtb_spec (base_at n + range_at n) maximumValue); lia.
Qed.

Definition delays (n : Z) : backoff := MkBackoff (IZR (cut_base n)) (IZR (cut_range n)) (IZR (n + 1)).

(** One call of increase_private on the state before the step [n]. *)
Lemma increase_step b (n : Z) (base range : Z) : (0 <= n < 2 ^ 53)%Z -> m_step b = IZR n ->
  m_currentBase b = IZR base -> m_currentRange b = IZR range ->
  increase_private b = if (base + range >=? maximumValue)%Z then b else delays n.
Proof using All.
  intros Hn Es Eb Er. pose proof initial_le. destruct (base_range n Hn) as [B0 R0]. unfold increase_private. rewrite Es, Eb, Er, <-!plus_IZR.
  unfold m_maximumValue. assert (Z.abs maximumValue < 2 ^ 53)%Z as Hm by lia. pose proof (rnd_ge (base + range) maximumValue Hm) as Hge.
  destruct (Rge_dec (rnd (IZR (base + range))) (IZR maximumValue)) as [G|G].
  { destruct (Z.geb_spec (base + range) maximumValue); [done|]. apply Hge in G. lia. }
  destruct (Z.geb_spec (base + range) maximumValue) as [G'|_]; [by apply Hge in G'|].
  unfold floor. fold (base_at n).
  assert ((if Rgt_dec m_jitter 0 then IZR (Int_part (rnd (rnd (m_initialValue * pow m_multiplier (rnd (IZR n + m_jitter))) - IZR (base_at n)))) else 0) =
    IZR (range_at n)) as -> by (unfold range_at; by destruct (Rgt_dec m_jitter 0)).
  rewrite <-plus_IZR. fold (top_at n). rewrite (rnd_exact (n + 1)) by lia. unfold delays, cut_range, cut_base.
  pose proof (rnd_gt (top_at n) maximumValue Hm) as Hgt.
  destruct (Rgt_dec (rnd (IZR (top_at n))) (IZR maximumValue)) as [T|T], (Z.gtb_spec (top_at n) maximumValue) as [T'|T']; [|apply Hgt in T; lia| |done].
  2: { apply Hgt in T'. done. }
  assert (Rmax m_initialValue (rnd (IZR maximumValue - IZR (range_at n))) = IZR (Z.max initialValue (maximumValue - range_at n))) as ->.
  { rewrite <-minus_IZR. unfold m_initialValue. destruct (Z.max_spec initialValue (maximumValue - range_at n)) as [[Hlt ->]|[Hle ->]].
    - rewrite rnd_exact by lia. apply Rmax_right, IZR_le. lia.
    - apply Rmax_left. rewrite <-(rnd_exact initialValue) by lia. by apply rnd_mono, IZR_le. }
  rewrite <-minus_IZR, rnd_exact by lia. f_equal.
  destruct (Z.min_spec (range_at n) (maximumValue - Z.max initialValue (maximumValue - range_at n))) as [[Hlt ->]|[Hle ->]].
  - apply Rmin_left, IZR_le. lia.
  - by apply Rmin_right, IZR_le.
Qed.

Lemma new_delays : new_backoff = delays 0.
Proof using All.
  pose proof initial_le. unfold new_backoff. rewrite (increase_step _ 0 0 0) by (done || lia). by destruct (Z.geb_spec (0 + 0) maximumValue); [lia|].
Qed.

(** The steps below the maximum, and the one that reaches it. *)
Lemma iter_delays n : (Z.of_nat n < 2 ^ 53)%Z -> (forall i, 0 <= i < Z.of_nat n -> top_at i < maximumValue)%Z ->
  Nat.iter n increase_private new_backoff = delays (Z.of_nat n).
Proof using All.
  intros Hn Ht. induction n as [|n IH]; [apply new_delays|]. rewrite Nat.iter_succ, IH by (lia || (intros; apply Ht; lia)).
  pose proof (Ht (Z.of_nat n) ltac:(lia)) as H1. pose proof (cut_bounds (Z.of_nat n) ltac:(lia)) as (_ & _ & E).
  rewrite (increase_step _ (Z.of_nat (S n)) (cut_base (Z.of_nat n)) (cut_range (Z.of_nat n))); [|lia| |done|done].
  - by destruct (Z.geb_spec (cut_base (Z.of_nat n) + cut_range (Z.of_nat n)) maximumValue); [lia|].
  - cbn. f_equal. lia.
Qed.

Lemma iter_stays n k : (Z.of_nat n < 2 ^ 53 - 1)%Z -> (maximumValue <= top_at (Z.of_nat n))%Z ->
  Nat.iter k increase_private (delays (Z.of_nat n)) = delays (Z.of_nat n).
Proof using All.
  intros Hn Ht. induction k as [|k IH]; [done|]. rewrite Nat.iter_succ, IH.
  pose proof (cut_bounds (Z.of_nat n) ltac:(lia)) as (_ & _ & E).
  rewrite (increase_step _ (Z.of_nat n + 1) (cut_base (Z.of_nat n)) (cut_range (Z.of_nat n))) by (done || lia).
  by destruct (Z.geb_spec (cut_base (Z.of_nat n) + cut_range (Z.of_nat n)) maximumValue); [|lia].
Qed.

(** A value lies between the base and the base with the range. *)
Lemma value_between n r : (0 <= n < 2 ^ 53)%Z ->
  (cut_base n <= backoff_value (delays n) r <= cut_base n + cut_range n)%Z.
Proof using All.
  intros Hn. destruct (cut_bounds n Hn) as (H1 & H2 & H3). pose proof (random_range r). pose proof initial_le. unfold backoff_value, delays. cbn [m_currentBase m_currentRange].
  destruct (Rgt_dec (IZR (cut_range n)) 0) as [Hr|Hr]; [|rewrite Int_part_IZR; lia]. apply Int_part_bounds. rewrite plus_IZR.
  assert (rnd (getRandomDouble r * IZR (cut_range n)) <= IZR (cut_range n)) as U1 by (rewrite <-(rnd_exact (cut_range n)) at 2 by lia; apply rnd_mono; nra).
  assert (0 <= rnd (getRandomDouble r * IZR (cut_range n))) as U2 by (rewrite <-(rnd_exact 0) at 1 by lia; apply rnd_mono; nra).
  split.
  - rewrite <-(rnd_exact (cut_base n)) at 1 by lia. apply rnd_mono. lra.
  - rewrite <-plus_IZR, <-(rnd_exact (cut_base n + cut_range n)) at 1 by lia. apply rnd_mono. rewrite plus_IZR. lra.
Qed.

(** ** Any use of the calculator *)

Definition perform (b : backoff) (increased : bool) : backoff := if increased then increase b else reset b.

Lemma perform_delays os : (Z.of_nat (length os) < 2 ^ 53 - 1)%Z ->
  exists n, (0 <= n <= Z.of_nat (length os))%Z /\ foldl perform new_backoff os = delays n.
Proof using All.
  induction os as [|o os IH] using rev_ind; [exists 0%Z; split; [simpl; lia|apply new_delays]|].
  rewrite length_app, foldl_app. cbn [length foldl]. intros Hl. destruct (IH ltac:(lia)) as (n & Hn & ->). destruct o; cbn [perform].
  - change (increase (delays n)) with (increase_private (delays n)).
    rewrite (increase_step _ (n + 1) (cut_base n) (cut_range n)) by (done || lia).
    destruct (_ >=? _)%Z; [exists n|exists (n + 1)%Z]; split; (done || lia).
  - exists 0%Z. split; [lia|]. apply new_delays.
Qed.

(** C40. The delays. After any increases and resets, whatever the random number, a delay lies
    between the initial and the maximum value. And from a fresh or reset calculator the [n]-th increase
    leads to the [n]-th power of the multiplier: as long as no step before reached the maximum,
    the delay after [n] increases lies between the initial value times that power, rounded down, and
    that value with the exponent raised by the jitter, where a step that would pass the maximum ends at
    it, starts no lower than the initial value and keeps as much of its range as that leaves; and from
    the step that reaches the maximum on, increases change nothing. *)
Theorem delay_bounds os n k r : (Z.of_nat (length os) < 2 ^ 53 - 1)%Z -> (Z.of_nat n < 2 ^ 53 - 1)%Z ->
  let b := foldl perform new_backoff os in
  let after i := Nat.iter i increase (reset b) in
  (initialValue <= getValue b r <= maximumValue)%Z /\
  ((forall i, 0 <= i < Z.of_nat n -> top_at i < maximumValue)%Z ->
     (cut_base (Z.of_nat n) <= getValue (after n) r <= cut_base (Z.of_nat n) + cut_range (Z.of_nat n))%Z /\
     (maximumValue <= top_at (Z.of_nat n) -> after (k + n)%nat = after n)%Z).
Proof using All.
  intros Hl Hn b after. split.
  - destruct (perform_delays os Hl) as (i & Hi & E). unfold b. rewrite E. pose proof (value_between i r ltac:(lia)).
    pose proof (cut_bounds i ltac:(lia)). unfold getValue, exponential. lia.
  - intros Ht. assert (after n = delays (Z.of_nat n)) as E by (by apply iter_delays; [lia|]). split.
    + rewrite E. apply value_between; lia.
    + intros Hm. unfold after. rewrite Nat.iter_add. fold (after n). rewrite E. by apply iter_stays.
Qed.

End Exponential.

(** The default configuration in exact arithmetic: from three seconds to five minutes, doubled
    each time with a jitter of one step. After one increase the delay is between 6 and 12 seconds; the
    sixth passes the maximum, and from then on it is between 108 and 300 seconds. *)
Section Default.
Local Open Scope R_scope.
Abbreviation exact := (fun x : R => x).
Abbreviation half := (fun _ : Z => / 2).
Abbreviation default := (exponential 3000 300000 2 1 exact Rpower half).

Lemma power_two (n : nat) : Rpower 2 (IZR (Z.of_nat n)) = IZR (2 ^ Z.of_nat n).
Proof. rewrite <-INR_IZR_INZ, Rpower_pow by lra. rewrite (pow_IZR 2 n). done. Qed.

Lemma default_steps (n : nat) : base_at 3000 2 exact Rpower (Z.of_nat n) = (3000 * 2 ^ Z.of_nat n)%Z /\
  range_at 3000 2 1 exact Rpower (Z.of_nat n) = (3000 * 2 ^ Z.of_nat n)%Z.
Proof.
  assert (base_at 3000 2 exact Rpower (Z.of_nat n) = (3000 * 2 ^ Z.of_nat n)%Z) as E.
  { unfold base_at, m_initialValue. rewrite power_two, <-mult_IZR. apply Int_part_IZR. }
  split; [done|]. unfold range_at. rewrite E. destruct (Rgt_dec 1 0); [|lra]. unfold m_initialValue.
  replace (IZR (Z.of_nat n) + 1) with (IZR (Z.of_nat (S n))) by (rewrite Nat2Z.inj_succ, succ_IZR; done).
  rewrite power_two, <-mult_IZR, <-minus_IZR, Int_part_IZR, Nat2Z.inj_succ, Z.pow_succ_r by lia. lia.
Qed.

Lemma default_good : good 3000 300000 2 1.
Proof. unfold good, m_initialValue, m_maximumValue. lra. Qed.

Lemma delay_bounds_witness :
  (6000 <= getValue (IBackoff := default) (increase (IBackoff := default) (reset (IBackoff := default) (new_backoff 3000 300000 2 1 exact Rpower))) 7 <= 12000)%Z.
Proof.
  assert (forall x y : R, x <= y -> x <= y) as Hm by done.
  assert (forall n : Z, (Z.abs n <= 2 ^ 53)%Z -> IZR n = IZR n) as He by done.
  assert (forall x : R, Rpower x 0 = 1) as Hp0 by (intros x; unfold Rpower; rewrite Rmult_0_l; apply exp_0).
  assert (forall x y z : R, 1 < x -> y <= z -> Rpower x y <= Rpower x z) as Hp by (intros; apply Rle_Rpower; lra).
  assert (forall r : Z, 0 <= half r <= 1) as Hr by (intros; lra).
  destruct (delay_bounds 3000 300000 2 1 exact Rpower half default_good ltac:(lia) ltac:(lia) Hm He Hp0 Hp Hr [] 1 0 7) as [_ H];
    [simpl; lia|simpl; lia..|].
  destruct H as [H _].
  - intros i Hi. assert (i = Z.of_nat 0) as -> by lia. destruct (default_steps 0) as [B R]. unfold top_at. rewrite B, R. vm_compute. reflexivity.
  - destruct (default_steps 1) as [B R]. unfold cut_range, cut_base, top_at in H. rewrite B, R in H. exact H.
Defined.

End Default.

End Backoff.
