(* ===== verification/Tpm.v ===== *)
(** * The transmission policy manager

    lib/tpm/TransmissionPolicyManager.cpp over the worker thread and the transmit profiles. A handler
    runs as one step; what another thread can do between two steps of the worker is a step of its own. An upload
    that is initiated is the value a handler returns, its answer is a later step. The calculator of
    the backoff is any [IBackoff]; [createFromConfig] makes one of a configuration. *)

From Stdlib Require Import ZArith Lia String.
From S2P Require Import Prelude MemoryStorage Backoff TransmitProfiles WorkerThread.

Module Tpm.
Import Backoff TransmitProfiles WorkerThread.

Definition EventLatency_Normal : Z := MemoryStorage.EventLatency_Normal.
Definition EventLatency_RealTime : Z := MemoryStorage.EventLatency_RealTime.

(** A context of an upload: its address and the latency it asks for. *)
Record upload := MkUpload { ctx : Z; requestedMinLatency : Z }.
#[global] Instance upload_eq : EqDecision upload.
Proof. solve_decision. Defined.

(** The calls on the worker thread: the upload task and those of other components. *)
Inductive call := UploadAsync (latency : Z) | Other.

(** How a handler is called: on the worker thread itself or not, and whether a wait for the execution of a task succeeds. *)
Record thread := MkThread { own : bool; locked : bool }.

Section Manager.
Context {B : Type} `{!IBackoff B} (createFromConfig : list Z → option B).
(** [m_config\[CFG_INT_MAX_PENDING_REQ\]] and [m_config.GetUploadRetryBackoffConfig()]. *)
Context (max_pending_req : Z) (GetUploadRetryBackoffConfig : list Z).

Record tpm := MkTpm {
  m_backoffConfig : list Z; m_backoff : option B;
  m_isPaused : bool; m_isUploadScheduled : bool; m_scheduledUploadTime : Z; m_scheduledUpload : option Z;
  m_scheduledUploadAborted : bool; m_activeUploads : list upload;
  m_timerdelay : Z; m_runningLatency : Z; m_timers : TimerArray
}.
#[global] Instance tpm_eta : Eta tpm := λ t,
  MkTpm (m_backoffConfig t) (m_backoff t) (m_isPaused t) (m_isUploadScheduled t) (m_scheduledUploadTime t) (m_scheduledUpload t)
    (m_scheduledUploadAborted t) (m_activeUploads t) (m_timerdelay t) (m_runningLatency t) (m_timers t).

(** The manager with what it works on; [fresh] is the next address. *)
Record system := MkSystem { manager : tpm; static : profiles_state; dispatcher : worker call; fresh : Z }.
#[global] Instance system_eta : Eta system := λ s, MkSystem (manager s) (static s) (dispatcher s) (fresh s).

Definition DefaultBackoffConfig : list Z := text "E,3000,300000,2,1".
Definition DefaultTaskCancelTime : Z := 500.

(** A new manager: [timers] is what the memory of [m_timers] held. *)
Definition new_tpm (timers : TimerArray) : tpm :=
  MkTpm DefaultBackoffConfig (createFromConfig DefaultBackoffConfig) true false (2 ^ 64 - 1) None false [] 2000 EventLatency_RealTime timers.

Definition on_manager (f : tpm → tpm) (s : system) : system := s <| manager := f (manager s) |>.

(** ** Backoff *)

Definition checkBackoffConfigUpdate (t : tpm) : tpm :=
  if bool_decide (GetUploadRetryBackoffConfig = m_backoffConfig t) then t
  else match createFromConfig GetUploadRetryBackoffConfig with
       | None => t
       | Some backoff => t <| m_backoff := Some backoff |> <| m_backoffConfig := GetUploadRetryBackoffConfig |>
       end.

Definition resetBackoff (t : tpm) : tpm := t <| m_backoff := Backoff.reset <$> m_backoff t |>.

(** [r] is the random number of the value. *)
Definition increaseBackoff (r : Z) (t : tpm) : Z * tpm :=
  let t := checkBackoffConfigUpdate t in
  match m_backoff t with
  | None => (0, t)
  | Some backoff => (getValue backoff r, t <| m_backoff := Some (increase backoff) |>)
  end.

(** ** Scheduling *)

Definition Abs64 (a b : Z) : Z := if a >? b then u64 (a - b) else u64 (b - a).

Definition getCancelWaitTime (t : tpm) : Z := if m_scheduledUploadAborted t then DefaultTaskCancelTime else 0.

Definition cancelUploadTask (th : thread) (s : system) : bool * system :=
  let t := manager s in
  let '(result, w) := handle_Cancel (own th) (locked th) (m_scheduledUpload t) (getCancelWaitTime t) (dispatcher s) in
  let s := s <| dispatcher := w |> in
  (result, if result : bool then on_manager (λ t, t <| m_isUploadScheduled := false |>) s else s).

Definition updateTimersIfNecessary (s : system) : bool * system :=
  if isTimerUpdateRequired (static s) then
    let '(timers, p) := getTimers (static s) in
    (true, on_manager (λ t, t <| m_timers := timers |>) (s <| static := p |>))
  else (false, s).

Definition uploadCount (t : tpm) : Z := zlen (m_activeUploads t).

(** The last part of [scheduleUpload]. *)
Definition schedule_task (clock : Z → Z) (delay latency : Z) (s : system) : system :=
  if m_isUploadScheduled (manager s) then s
  else
    let '(handle, w) := scheduleTask (fresh s) (u32 delay) (clock 2) (UploadAsync latency) (dispatcher s) in
    let t := (manager s) <| m_isUploadScheduled := true |> <| m_scheduledUploadTime := u64 (clock 1 + delay) |>
      <| m_runningLatency := latency |> <| m_scheduledUpload := handle |> in
    MkSystem t (static s) w (fresh s + 1).

(** A request for a lower latency, when an upload is scheduled. *)
Definition lower_latency (latency : Z) (s : system) : system :=
  on_manager (λ t, if m_runningLatency t >? latency then t <| m_runningLatency := latency |> else t) s.

Definition scheduleUpload (th : thread) (clock : Z → Z) (delay latency : Z) (force : bool) (s : system) : system :=
  let t := manager s in
  if (delay <? 0) || (m_timerdelay t <? 0) then s
  else if m_scheduledUploadAborted t then s
  else if uploadCount t >=? u32 max_pending_req then s
  else if m_isPaused t then s
  else
    let s := (updateTimersIfNecessary s).2 in
    let latency := if (m_timers (manager s)).1 <? 0 then Z.max latency EventLatency_RealTime else latency in
    if negb force && m_isUploadScheduled (manager s) then
      let s := lower_latency latency s in
      if Abs64 (m_scheduledUploadTime (manager s)) (clock 0) <=? delay then s
      else
        let s := if delay =? 0 then (cancelUploadTask th s).2 else s in
        schedule_task clock delay latency s
    else
      let s := if force || (delay =? 0) then (cancelUploadTask th s).2 else s in
      schedule_task clock delay latency s.

(** ** Uploads *)

(** [createEventsUploadContext], [addUpload] and [initiateUpload]. *)
Definition start_upload (latency : Z) (s : system) : option upload * system :=
  let u := MkUpload (fresh s) latency in
  (Some u, on_manager (λ t, t <| m_activeUploads := u :: m_activeUploads t |>) (s <| fresh := fresh s + 1 |>)).

(** [m_itemInProgress] is this task while it runs, so [cancelUploadTask] on this thread finds nothing to remove. *)
Definition uploadAsync (th : thread) (latency : Z) (s : system) : option upload * system :=
  let s := on_manager (λ t, t <| m_runningLatency := latency |> <| m_scheduledUploadTime := 2 ^ 64 - 1 |>
    <| m_isUploadScheduled := false |>) s in
  if m_isPaused (manager s) || m_scheduledUploadAborted (manager s) then (None, (cancelUploadTask th s).2)
  else start_upload (m_runningLatency (manager s)) s.

Definition removeUpload (u : upload) (t : tpm) : bool * tpm :=
  if bool_decide (u ∈ m_activeUploads t) then (true, t <| m_activeUploads := filter (λ v, v ≠ u) (m_activeUploads t) |>) else (false, t).

Definition calculateNewPriority (s : system) : Z * system :=
  let s := (updateTimersIfNecessary s).2 in
  let t := manager s in
  (if (m_timers t).1 =? (m_timers t).2 then EventLatency_Normal
   else if (m_timers t).1 <? 0 then EventLatency_RealTime
   else if m_runningLatency t =? EventLatency_RealTime then EventLatency_Normal
   else EventLatency_RealTime, s).

Definition finishUpload (th : thread) (clock : Z → Z) (u : upload) (nextUpload : Z) (s : system) : system :=
  let s := on_manager (λ t, (removeUpload u t).2) s in
  if nextUpload >=? 0 then
    let '(proposed, s) := calculateNewPriority s in
    scheduleUpload th clock nextUpload proposed false s
  else s.

Definition handleNothingToUpload (th : thread) (clock : Z → Z) (u : upload) (s : system) : system :=
  let s := on_manager resetBackoff s in
  if requestedMinLatency u =? EventLatency_Normal then finishUpload th clock u (-1) s
  else finishUpload th clock u (m_timerdelay (manager s)) s.

Definition handlePackagingFailed (th : thread) (clock : Z → Z) (u : upload) (s : system) : system :=
  finishUpload th clock u (m_timerdelay (manager s)) s.

Definition handleEventsUploadSuccessful (th : thread) (clock : Z → Z) (u : upload) (s : system) : system :=
  finishUpload th clock u 0 (on_manager resetBackoff s).

(** [handleEventsUploadRejected] and [handleEventsUploadFailed]. *)
Definition handleEventsUploadFailed (th : thread) (clock : Z → Z) (r : Z) (u : upload) (s : system) : system :=
  let '(delay, t) := increaseBackoff r (manager s) in
  finishUpload th clock u delay (s <| manager := t |>).

Definition handleEventsUploadAborted (th : thread) (clock : Z → Z) (u : upload) (s : system) : system :=
  finishUpload th clock u (-1) s.

(** ** Events *)

Definition handleEventArrived (th : thread) (clock : Z → Z) (latency : Z) (s : system) : option upload * system :=
  if m_isPaused (manager s) then (None, s)
  else if latency >? EventLatency_RealTime then start_upload latency s
  else if negb (m_isUploadScheduled (manager s)) || isTimerUpdateRequired (static s) then
    let '(forceTimerRestart, s) := updateTimersIfNecessary s in
    let s := if forceTimerRestart then on_manager (λ t, t <| m_timerdelay := (m_timers t).2 |>) s else s in
    let '(proposed, s) := calculateNewPriority s in
    (None, if m_timerdelay (manager s) >=? 0 then scheduleUpload th clock (m_timerdelay (manager s)) proposed forceTimerRestart s else s)
  else (None, s).

(** ** Starting, pausing and stopping *)

Definition handleStart (th : thread) (clock : Z → Z) (s : system) : system :=
  let s := on_manager (λ t, t <| m_isPaused := false |>) s in
  let '(proposed, s) := calculateNewPriority s in
  scheduleUpload th clock 1000 proposed false s.

(** [handlePause], and [handleFinishAllUploads] before it reports. *)
Definition pauseAllUploads (th : thread) (s : system) : system :=
  (cancelUploadTask th (on_manager (λ t, t <| m_isPaused := true |>) s)).2.

(** [handleStop] up to its wait for the uploads. *)
Definition handleStop (th : thread) (s : system) : system :=
  (cancelUploadTask th (on_manager (λ t, t <| m_scheduledUploadAborted := true |>) s)).2.

(** [handleCleanup] up to its wait. *)
Definition handleCleanup (th : thread) (s : system) : system := (cancelUploadTask th s).2.

(** What the waits of both are for. *)
Definition uploads_finished (s : system) : bool := negb (uploadCount (manager s) >? 0).

Definition isUploadInProgress (s : system) : bool := (uploadCount (manager s) >? 0) || m_isUploadScheduled (manager s).

Definition isPaused (s : system) : bool := m_isPaused (manager s).

(** [TelemetrySystem::upload]. *)
Definition upload_now (th : thread) (clock : Z → Z) (recordCount : Z) (s : system) : bool * system :=
  if c_true recordCount then (true, scheduleUpload th clock 0 EventLatency_Normal true s) else (false, s).

End Manager.

Arguments tpm : clear implicits.
Arguments system : clear implicits.

End Tpm.
