(* ===== verification/TpmLaws.v ===== *)
(** * What the policy manager keeps

    The manager, the worker and the profiles as a system of steps, and its invariant: the flag
    [m_isUploadScheduled] tells whether the worker has an upload task, of which there is never more than one, and
    the number of uploads that were started by the timer is limited. *)

From Stdlib Require Import ZArith Lia.
From S2P Require Import Prelude MemoryStorage Backoff TransmitProfiles WorkerThread Tpm.

Module TpmLaws.
Import Backoff TransmitProfiles WorkerThread Tpm.

(** ** The steps *)

Inductive action :=
  | EventArrived (th : thread) (clock : Z → Z) (latency : Z)
  | Fetch (fuel : nat) (clock : Z → Z)
  | Execute
  | QueueOther (ty : task_type) (time : Z)
  | Start (th : thread) (clock : Z → Z)
  | Pause (th : thread)
  | Stop (th : thread)
  | Cleanup (th : thread)
  | UploadNow (th : thread) (clock : Z → Z) (recordCount : Z)
  | NothingToUpload (th : thread) (clock : Z → Z) (u : upload)
  | PackagingFailed (th : thread) (clock : Z → Z) (u : upload)
  | Succeeded (th : thread) (clock : Z → Z) (u : upload)
  | Failed (th : thread) (clock : Z → Z) (r : Z) (u : upload)
  | Aborted (th : thread) (clock : Z → Z) (u : upload)
  | Profiles (o : operation).

Section Laws.
Context {B : Type} `{!IBackoff B} (createFromConfig : list Z → option B).
Context (max_pending_req : Z) (GetUploadRetryBackoffConfig : list Z) (json_parse : list Z → option json).

Abbreviation system := (Tpm.system B).
Implicit Types (s : system) (th : thread) (w : worker call) (t : Task call) (q : list (Task call)).

Abbreviation scheduleUpload := (Tpm.scheduleUpload max_pending_req).
Abbreviation finishUpload := (Tpm.finishUpload max_pending_req).

Definition act (a : action) s : option upload * system :=
  match a with
  | EventArrived th clock latency => handleEventArrived max_pending_req th clock latency s
  | Fetch fuel clock =>
      (None, match fetch fuel clock 0 (dispatcher s) with Some (_, w) => s <| dispatcher := w |> | None => s end)
  | Execute =>
      let '(c, w) := execute (dispatcher s) in
      let s := s <| dispatcher := w |> in
      match c with
      | Some (UploadAsync latency) => uploadAsync (MkThread true true) latency s
      | _ => (None, s)
      end
  | QueueOther ty time =>
      (None, s <| dispatcher := Queue (MkTask (fresh s) ty time (Some Other)) (dispatcher s) |> <| fresh := fresh s + 1 |>)
  | Start th clock => (None, handleStart max_pending_req th clock s)
  | Pause th => (None, pauseAllUploads th s)
  | Stop th => (None, handleStop th s)
  | Cleanup th => (None, handleCleanup th s)
  | UploadNow th clock recordCount => (None, (upload_now max_pending_req th clock recordCount s).2)
  | NothingToUpload th clock u => (None, handleNothingToUpload max_pending_req th clock u s)
  | PackagingFailed th clock u => (None, handlePackagingFailed max_pending_req th clock u s)
  | Succeeded th clock u => (None, handleEventsUploadSuccessful max_pending_req th clock u s)
  | Failed th clock r u => (None, handleEventsUploadFailed createFromConfig max_pending_req GetUploadRetryBackoffConfig th clock r u s)
  | Aborted th clock u => (None, handleEventsUploadAborted max_pending_req th clock u s)
  | Profiles o => (None, s <| static := perform json_parse (static s) o |>)
  end.

Definition thread_of (a : action) : option thread :=
  match a with
  | EventArrived th _ _ | Start th _ | Pause th | Stop th | Cleanup th | UploadNow th _ _ | NothingToUpload th _ _
  | PackagingFailed th _ _ | Succeeded th _ _ | Failed th _ _ _ | Aborted th _ _ => Some th
  | _ => None
  end.

(** The worker makes a call only while it holds no other task: not between taking a task and running it. *)
Definition able th s : Prop := own th = true → item (dispatcher s) = None.

Definition enabled (a : action) s : Prop :=
  (∀ th, thread_of a = Some th → able th s) ∧ (match a with Fetch _ _ => item (dispatcher s) = None | _ => True end).

Inductive reachable (s0 : system) : list upload → system → Prop :=
  | reachable_refl : reachable s0 [] s0
  | reachable_step us s a : reachable s0 us s → enabled a s →
      reachable s0 (match (act a s).1 with Some u => us ++ [u] | None => us end) (act a s).2.

Lemma reachable_quiet s0 us s a s' : reachable s0 us s → enabled a s → (act a s).1 = None → s' = (act a s).2 → reachable s0 us s'.
Proof. intros H He E ->. pose proof (reachable_step s0 us s a H He) as Hr. by rewrite E in Hr. Qed.

(** ** The invariant *)

(** The task the worker holds, if it was not cancelled. *)
Definition held w : list (Task call) :=
  match item w, m_itemInProgress w with Some t, Some _ => [t] | _, _ => [] end.

Definition all w : list (Task call) := held w ++ m_queue w ++ m_timerQueue w.

(** The upload tasks with their latencies. *)
Definition upload_of t : option (Z * Z) :=
  match Body t with Some (UploadAsync latency) => Some (Id t, latency) | _ => None end.
Definition uploads q : list (Z * Z) := omap upload_of q.

(** The active uploads that the timer started. *)
Definition timed_uploads (us : list upload) : list upload := filter (λ u, requestedMinLatency u ≤ EventLatency_RealTime) us.

Record inv (flag : bool) (handle : option Z) (active : list upload) w (fresh : Z) : Prop := {
  inv_queue : uploads (m_queue w) = [];
  inv_types : Forall (λ t, upload_of t ≠ None → Type_ t = TimedCall) (all w);
  inv_progress : ∀ id, m_itemInProgress w = Some id → ∃ t, item w = Some t ∧ Id t = id;
  inv_ids : NoDup (map Id (all w));
  inv_fresh : Forall (λ t, Id t < fresh) (all w);
  inv_handle : ∀ id, handle = Some id → id < fresh ∧ Forall (λ t, Id t = id → upload_of t ≠ None) (all w);
  inv_flag : if flag then ∃ id latency, handle = Some id ∧ uploads (all w) = [(id, latency)] else uploads (all w) = [];
  inv_latency : Forall (λ u, u.2 ≤ EventLatency_RealTime) (uploads (all w));
  inv_bound : zlen (timed_uploads active) + zlen (uploads (all w)) ≤ u32 max_pending_req
}.

Definition Inv s : Prop :=
  inv (m_isUploadScheduled (manager s)) (m_scheduledUpload (manager s)) (m_activeUploads (manager s)) (dispatcher s) (fresh s).

Lemma uploads_app q q' : uploads (q ++ q') = uploads q ++ uploads q'.
Proof. apply omap_app. Qed.

Lemma uploads_sublist q q' : q `sublist_of` q' → uploads q `sublist_of` uploads q'.
Proof.
  induction 1 as [|x q q' Hs IH|x q q' Hs IH]; cbn; [done| |]; destruct (upload_of x); [by apply sublist_skip|done|by apply sublist_cons|done].
Qed.

Lemma uploads_Permutation q q' : q ≡ₚ q' → uploads q ≡ₚ uploads q'.
Proof. intros H. unfold uploads. by rewrite H. Qed.

(** A worker with fewer tasks. *)
Lemma inv_sublist (flag flag' : bool) handle active w w' f : inv flag handle active w f → m_queue w' = m_queue w →
  all w' `sublist_of` all w → (∀ id, m_itemInProgress w' = Some id → ∃ t, item w' = Some t ∧ Id t = id) →
  (if flag' then ∃ id latency, handle = Some id ∧ uploads (all w') = [(id, latency)] else uploads (all w') = []) →
  inv flag' handle active w' f.
Proof.
  intros [H1 H2 H3 H4 H5 H6 H7 H8 H9] Eq Hs Hp Hf. pose proof (uploads_sublist _ _ Hs) as Hu. split; rewrite ?Eq; try done.
  - rewrite Forall_forall in *. eauto using elem_of_sublist.
  - eapply (sublist_NoDup _ (map Id (all w))); [done|by apply fmap_sublist].
  - rewrite Forall_forall in *. eauto using elem_of_sublist.
  - intros id E. destruct (H6 id E) as [? H]. split; [done|]. rewrite Forall_forall in *. eauto using elem_of_sublist.
  - rewrite Forall_forall in *. eauto using elem_of_sublist.
  - apply sublist_length in Hu. unfold zlen in *. lia.
Qed.

(** ** Cancelling *)

Lemma erase_none id q : uploads q = [] → uploads (erase_task id q) = [].
Proof. intros E. pose proof (uploads_sublist _ _ (erase_task_sublist id q)) as H. rewrite E in H. by apply sublist_nil_r in H. Qed.

Lemma upload_id t id latency : upload_of t = Some (id, latency) → Id t = id.
Proof. unfold upload_of. destruct (Body t) as [[]|]; try done. by intros [= -> ->]. Qed.

Lemma erase_upload id latency q : NoDup (map Id q) → uploads q = [(id, latency)] → uploads (erase_task id q) = [].
Proof.
  induction q as [|x q IH]; [done|]. intros [Hx Hq]%NoDup_cons E. cbn in *. destruct (upload_of x) as [[i l]|] eqn:Eu.
  - injection E as -> -> E. by rewrite (upload_id _ _ _ Eu), Z.eqb_refl.
  - destruct (Z.eqb_spec (Id x) id) as [Ei|]; [|cbn; rewrite Eu; by apply IH]. exfalso. apply Hx.
    assert ((id, latency) ∈ omap upload_of q) as (t & Ht & Et)%list_elem_of_omap by (rewrite E; by left).
    rewrite Ei, <-(upload_id _ _ _ Et). by apply (list_elem_of_fmap_2 Id).
Qed.

Lemma held_cancel w : m_itemInProgress w = None → held w = [].
Proof. unfold held. intros ->. by destruct (item w). Qed.

Lemma cancel_inv th s : Inv s → able th s → Inv (cancelUploadTask th s).2.
Proof.
  intros HI Ha. pose proof HI as [H1 H2 H3 H4 H5 H6 H7 H8 H9]. unfold able in Ha. unfold cancelUploadTask, handle_Cancel, Cancel.
  destruct s as [t p w f]. cbn [manager dispatcher static fresh] in *. unfold Inv in *. cbn [manager dispatcher static fresh] in *.
  destruct (m_scheduledUpload t) as [id|] eqn:Eh.
  2: { cbn. rewrite ?Eh in *. destruct (m_isUploadScheduled t); [by destruct H7 as (? & ? & ? & _)|]. done. }
  case_bool_decide as Ep.
  - destruct (H3 id Ep) as (x & Ex & Eid). destruct (own th); [by rewrite Ha in Ex|].
    assert (held w = [x]) as Ehd by (unfold held; by rewrite Ex, Ep).
    destruct (H6 id eq_refl) as [_ Hup]. assert (upload_of x ≠ None) as Hx by (rewrite Forall_forall in Hup; apply Hup; [unfold all; rewrite Ehd; by left|done]).
    destruct ((getCancelWaitTime t >? 0) && locked th); cbn.
    + rewrite bool_decide_eq_false_2 by done. cbn. rewrite ?Eh. eapply inv_sublist; [exact HI|done| |done|]; cbn.
      * unfold all. rewrite Ehd, held_cancel by done. cbn. by apply sublist_cons.
      * unfold all. rewrite held_cancel by done. cbn. unfold all in H7. rewrite Ehd in H7. cbn in H7.
        destruct (upload_of x) as [u|]; [|done]. destruct (m_isUploadScheduled t); [destruct H7 as (? & ? & _ & E); by injection E as _ E|done].
    + rewrite Ep. case_bool_decide; [|done]. cbn. by rewrite ?Eh.
  - cbn. rewrite ?Eh. match goal with |- inv _ _ _ ?x _ => set (w' := x) end.
    assert (held w' = held w) as Ehd by done. assert (m_queue w' = m_queue w) as Eq by done. assert (m_timerQueue w' = erase_task id (m_timerQueue w)) as Et by done.
    assert (∀ i, m_itemInProgress w' = Some i → ∃ x, item w' = Some x ∧ Id x = i) as H3' by exact H3. clearbody w'.
    eapply inv_sublist; [exact HI|done| |exact H3'|].
    + unfold all. rewrite Ehd, Eq, Et. apply sublist_app, sublist_app; [done|done|apply erase_task_sublist].
    + unfold all in *. rewrite !uploads_app in *. rewrite Ehd, Eq, Et. rewrite H1 in *. cbn in *.
      destruct (m_isUploadScheduled t).
      * destruct H7 as (id' & latency & [= <-] & E). assert (uploads (held w) = []) as Eu.
        { unfold held in E |- *. destruct (item w) as [x|] eqn:Ex; [|done]. destruct (m_itemInProgress w) as [i|] eqn:Ei; [|done].
          destruct (H3 i eq_refl) as (x' & [= <-] & Ei'). cbn in E |- *. destruct (upload_of x) as [u|] eqn:Eu; [exfalso|done].
          injection E as -> E. apply Ep. apply upload_id in Eu. congruence. }
        rewrite Eu in *. cbn in *. eapply erase_upload; [|exact E]. eapply (sublist_NoDup _ (map Id (all w))); [exact H4|].
        apply fmap_sublist. unfold all. by apply sublist_inserts_l, sublist_inserts_l.
      * apply app_eq_nil in H7 as [-> H7]. cbn. by apply erase_none.
Qed.

(** ** Scheduling *)

(** What the invariant is about. *)
Definition core s := (m_isUploadScheduled (manager s), m_scheduledUpload (manager s), m_activeUploads (manager s), dispatcher s, fresh s).

Lemma Inv_core s s' : core s' = core s → Inv s → Inv s'.
Proof. unfold Inv, core. by intros [= -> -> -> -> ->]. Qed.

Lemma timers_core s : core (updateTimersIfNecessary s).2 = core s.
Proof. unfold updateTimersIfNecessary. destruct (isTimerUpdateRequired _); [|done]. by destruct (getTimers _). Qed.

Lemma priority_core s : core (calculateNewPriority s).2 = core s.
Proof. apply timers_core. Qed.

Lemma lower_core latency s : core (lower_latency latency s) = core s.
Proof. unfold lower_latency, core. cbn. by destruct (_ >? _). Qed.

Lemma priority_latency s : (calculateNewPriority s).1 ≤ EventLatency_RealTime.
Proof. unfold calculateNewPriority. cbn [fst]. by repeat destruct (_ =? _); repeat destruct (_ <? _). Qed.

Lemma core_able th s s' : core s' = core s → able th s → able th s'.
Proof. unfold able, core. by intros [= _ _ _ -> _]. Qed.

Lemma cancel_active th s : m_activeUploads (manager (cancelUploadTask th s).2) = m_activeUploads (manager s).
Proof. unfold cancelUploadTask. destruct (handle_Cancel _ _ _ _ _) as [[] w]; done. Qed.

Lemma timed_uploads_le us : zlen (timed_uploads us) ≤ zlen us.
Proof. unfold zlen, timed_uploads. pose proof (length_filter (λ u, requestedMinLatency u ≤ EventLatency_RealTime) us). lia. Qed.

Lemma all_insert t w : all (w <| m_timerQueue := insert_timed t (m_timerQueue w) |>) ≡ₚ t :: all w.
Proof.
  unfold all. change (held (w <| m_timerQueue := insert_timed t (m_timerQueue w) |>)) with (held w). cbn.
  rewrite insert_timed_Permutation. by rewrite <-!Permutation_middle.
Qed.

(** A new task for an upload, or for another component. *)
Lemma schedule_task_inv clock delay latency s : Inv s → uploadCount (manager s) < u32 max_pending_req → latency ≤ EventLatency_RealTime →
  Inv (schedule_task clock delay latency s).
Proof.
  intros HI Hc Hl. unfold schedule_task. destruct (m_isUploadScheduled (manager s)) eqn:Ef; [done|].
  unfold Inv in *. rewrite Ef in HI. destruct s as [t p w f]. cbn [manager dispatcher static fresh] in *.
  unfold scheduleTask, Queue. cbn [Type_]. rewrite decide_True by done. cbn.
  match goal with |- context [insert_timed ?x] => set (x' := x) end.
  match goal with |- inv _ _ _ ?y _ => set (w' := y) in * end.
  assert (all w' ≡ₚ x' :: all w) as Hall by exact (all_insert x' w). pose proof (uploads_Permutation _ _ Hall) as Hup. destruct HI as [H1 H2 H3 H4 H5 H6 H7 H8 H9].
  assert (uploads (all w') = [(f, latency)]) as Eu.
  { cbn in Hup. fold (uploads (all w)) in Hup. rewrite H7 in Hup. by apply Permutation_singleton_r in Hup. }
  split; rewrite ?Eu.
  - exact H1.
  - rewrite Hall. constructor; [done|exact H2].
  - exact H3.
  - rewrite Hall. cbn. constructor; [|exact H4]. intros (y & Hy & Hin)%list_elem_of_fmap. rewrite Forall_forall in H5. apply H5 in Hin. lia.
  - rewrite Hall. constructor; [cbn; lia|]. eapply Forall_impl; [exact H5|]. cbn. lia.
  - intros id [= <-]. split; [lia|]. rewrite Hall. constructor; [done|]. eapply Forall_impl; [exact H5|]. cbn. lia.
  - by exists f, latency.
  - by repeat constructor.
  - pose proof (timed_uploads_le (m_activeUploads t)). unfold uploadCount in Hc. change (zlen [(f, latency)]) with 1. lia.
Qed.

Lemma scheduleUpload_inv th clock delay latency force s : Inv s → able th s → latency ≤ EventLatency_RealTime →
  Inv (scheduleUpload th clock delay latency force s).
Proof.
  intros HI Ha Hl. unfold Tpm.scheduleUpload. destruct (_ || _); [done|]. destruct (m_scheduledUploadAborted _); [done|].
  destruct (Z.geb_spec (uploadCount (manager s)) (u32 max_pending_req)) as [|Hc]; [done|]. destruct (m_isPaused _); [done|].
  pose proof (timers_core s) as Ec. set (s1 := (updateTimersIfNecessary s).2) in *. clearbody s1.
  set (latency1 := if _ <? 0 then _ else latency). assert (latency1 ≤ EventLatency_RealTime) as Hl1 by (subst latency1; destruct (_ <? 0); lia). clearbody latency1.
  assert (∀ s2, core s2 = core s → Inv s2 ∧ able th s2 ∧ uploadCount (manager s2) < u32 max_pending_req) as Hcore.
  { intros s2 E. split_and!; [by eapply Inv_core|by eapply core_able|]. unfold core in E. injection E as _ _ E _ _. unfold uploadCount in *. by rewrite E. }
  assert (∀ (c : bool) s2, core s2 = core s → Inv (schedule_task clock delay latency1 (if c then (cancelUploadTask th s2).2 else s2))) as Hsched.
  { intros c s2 E. destruct (Hcore s2 E) as (H1 & H2 & H3). apply schedule_task_inv; [|unfold uploadCount in *|done]; destruct c; try done; [by apply cancel_inv|by rewrite cancel_active]. }
  destruct (negb force && _).
  - pose proof (lower_core latency1 s1) as El. rewrite Ec in El. set (s2 := lower_latency latency1 s1) in *. clearbody s2.
    destruct (_ <=? delay); [by apply Hcore|by apply Hsched].
  - by apply Hsched.
Qed.

(** ** Uploads *)

Lemma timed_remove u us : zlen (timed_uploads (filter (λ v, v ≠ u) us)) ≤ zlen (timed_uploads us).
Proof.
  unfold timed_uploads. induction us as [|v us IH]; [done|]. rewrite !filter_cons.
  destruct (decide (v ≠ u)); [rewrite filter_cons|]; destruct (decide (requestedMinLatency v ≤ _)); rewrite ?zlen_cons; lia.
Qed.

Lemma remove_inv u s : Inv s → Inv (on_manager (λ m : tpm B, (removeUpload u m).2) s).
Proof.
  unfold Inv, removeUpload. destruct s as [t p w f]. cbn. case_bool_decide; [|done]. cbn. intros [H1 H2 H3 H4 H5 H6 H7 H8 H9]. split; try done.
  pose proof (timed_remove u (m_activeUploads t)). lia.
Qed.

Lemma finish_inv th clock u nextUpload s : Inv s → able th s → Inv (finishUpload th clock u nextUpload s).
Proof.
  intros HI Ha. unfold Tpm.finishUpload. apply (remove_inv u) in HI. set (s1 := on_manager _ s) in *. assert (able th s1) as Ha1 by done. clearbody s1.
  destruct (_ >=? 0); [|done]. pose proof (priority_core s1) as Ec. pose proof (priority_latency s1) as Hl. destruct (calculateNewPriority s1) as [proposed s2].
  cbn in *. apply scheduleUpload_inv; [by eapply Inv_core|by eapply core_able|done].
Qed.

(** An upload of the timer starts when its task is gone. *)
Lemma start_timed_inv latency s : Inv s → zlen (timed_uploads (m_activeUploads (manager s))) < u32 max_pending_req →
  m_isUploadScheduled (manager s) = false → Inv (start_upload latency s).2.
Proof.
  unfold Inv, start_upload. destruct s as [t p w f]. cbn. intros [H1 H2 H3 H4 H5 H6 H7 H8 H9] Hlt Ef. rewrite Ef in *. split; try done.
  - eapply Forall_impl; [exact H5|]. cbn. lia.
  - intros id E. destruct (H6 id E). split; [lia|done].
  - rewrite H7 in *. unfold timed_uploads in *. rewrite filter_cons. destruct (decide _); [rewrite zlen_cons|]; unfold zlen in *; cbn [length] in *; lia.
Qed.

Lemma start_immediate_inv latency s : Inv s → EventLatency_RealTime < latency → Inv (start_upload latency s).2.
Proof.
  unfold Inv, start_upload. destruct s as [t p w f]. cbn. intros [H1 H2 H3 H4 H5 H6 H7 H8 H9] Hl. split; try done.
  - eapply Forall_impl; [exact H5|]. cbn. lia.
  - intros id E. destruct (H6 id E). split; [lia|done].
  - unfold timed_uploads. rewrite filter_cons, decide_False by (cbn; lia). done.
Qed.

Lemma event_inv th clock latency s : Inv s → able th s → Inv (handleEventArrived max_pending_req th clock latency s).2.
Proof.
  intros HI Ha. unfold handleEventArrived. destruct (m_isPaused _); [done|].
  destruct (Z.gtb_spec latency EventLatency_RealTime); [by apply start_immediate_inv|]. destruct (_ || _); [|done].
  pose proof (timers_core s) as Ec. destruct (updateTimersIfNecessary s) as [restart s1]. cbn in Ec.
  set (s2 := if restart then _ else s1). assert (core s2 = core s) as Ec2 by (rewrite <-Ec; subst s2; by destruct restart). clearbody s2.
  pose proof (priority_core s2) as Ec3. pose proof (priority_latency s2) as Hl. destruct (calculateNewPriority s2) as [proposed s3]. cbn in *. rewrite Ec2 in Ec3.
  assert (Inv s3) by (by eapply Inv_core). destruct (_ >=? 0); [|done]. apply scheduleUpload_inv; [done|by eapply core_able|done].
Qed.

(** ** The worker *)

Lemma held_none w : item w = None → held w = [].
Proof. unfold held. by intros ->. Qed.

(** The same tasks, with other times or in another place. *)
Lemma inv_moved flag handle active w w' f : inv flag handle active w f → uploads (m_queue w') = [] →
  (∀ id, m_itemInProgress w' = Some id → ∃ t, item w' = Some t ∧ Id t = id) →
  (∃ q, all w' ≡ₚ q ∧ Forall2 (λ t t', Id t' = Id t ∧ Body t' = Body t ∧ Type_ t' = Type_ t) (all w) q) → inv flag handle active w' f.
Proof.
  intros [H1 H2 H3 H4 H5 H6 H7 H8 H9] Hq Hp (q & Hperm & Hq2).
  assert (map Id q = map Id (all w)) as Ei.
  { clear -Hq2. induction Hq2 as [|x y l k (E & _) _ IH]; cbn; [done|]. by rewrite E, IH. }
  assert (map upload_of q = map upload_of (all w)) as Eo.
  { clear -Hq2. induction Hq2 as [|x y l k (E & Eb & _) _ IH]; cbn; [done|]. unfold upload_of at 1 3. by rewrite E, Eb, IH. }
  assert (uploads q = uploads (all w)) as Eu.
  { unfold uploads. clear -Eo. revert Eo. generalize (all w). induction q as [|x q IH]; intros [|y l]; cbn; try done. intros [= E1 E2]. rewrite E1. by rewrite (IH _ E2). }
  assert (∀ P Q : Task call → Prop, (∀ t t', Id t' = Id t → upload_of t' = upload_of t → Type_ t' = Type_ t → P t → Q t') → Forall P (all w) → Forall Q (all w')) as Hall.
  { intros P Q HPQ HP. rewrite Hperm. clear -Hq2 HP HPQ. induction Hq2 as [|x y l k (E & Eb & Et) _ IH]; [constructor|]. inversion HP; subst. constructor; [|by apply IH].
    eapply HPQ; [exact E| |exact Et|done]. unfold upload_of. by rewrite E, Eb. }
  assert (uploads (all w') ≡ₚ uploads (all w)) as Hu by (rewrite <-Eu; by apply uploads_Permutation).
  split; try done.
  - eapply Hall; [|exact H2]. intros t t' _ E1 E2. by rewrite E1, E2.
  - rewrite Hperm. change (NoDup (map Id q)). by rewrite Ei.
  - eapply Hall; [|exact H5]. intros t t' E _ _. by rewrite E.
  - intros id E. destruct (H6 id E) as [? Hf]. split; [done|]. eapply Hall; [|exact Hf]. intros t t' E1 E2 _. by rewrite E1, E2.
  - destruct flag; [|rewrite H7 in Hu; by apply Permutation_nil_r in Hu]. destruct H7 as (id & l & E & E2). exists id, l. split; [done|].
    rewrite E2 in Hu. by apply Permutation_singleton_r in Hu.
  - by rewrite Hu.
  - unfold zlen in *. by rewrite Hu.
Qed.

Lemma same_tasks q : Forall2 (λ t t', Id t' = Id t ∧ Body t' = Body t ∧ Type_ t' = Type_ t) q q.
Proof. by induction q; constructor. Qed.

Lemma take_call_inv n flag handle active w f : item w = None → inv flag handle active w f →
  let '(r, w') := take_call n w in inv flag handle active w' f ∧ (r ≠ Took → item w' = None).
Proof.
  intros Ei HI. unfold take_call. destruct (m_queue w) as [|x q] eqn:E; [done|]. cbn. split; [|done].
  pose proof (inv_queue _ _ _ _ _ HI) as Hq. rewrite E in Hq. cbn in Hq. eapply inv_moved; [exact HI| | |].
  - cbn. by destruct (upload_of x).
  - cbn. intros id [= <-]. by exists x.
  - exists (all w). split; [|apply same_tasks]. unfold all, held. cbn. by rewrite Ei, E.
Qed.

Lemma pick_inv now flag handle active w f : item w = None → inv flag handle active w f →
  let '(r, w') := pick now w in inv flag handle active w' f ∧ (r ≠ Took → item w' = None).
Proof.
  intros Ei HI. unfold pick. destruct (m_timerQueue w) as [|x q] eqn:E; [by apply take_call_inv|].
  destruct (_ <=? now).
  - cbn. split; [|done]. eapply inv_moved; [exact HI|apply (inv_queue _ _ _ _ _ HI)| |].
    + cbn. intros id [= <-]. by exists x.
    + exists (all w). split; [|apply same_tasks]. unfold all, held. cbn. rewrite Ei, E. cbn. by rewrite <-Permutation_middle.
  - destruct (_ >? _); [|by apply take_call_inv]. unfold Queue. cbn [Type_].
    assert (m_itemInProgress w = None) as Ep.
    { destruct (m_itemInProgress w) as [id|] eqn:Ep; [|done]. destruct (inv_progress _ _ _ _ _ HI id Ep) as (y & E1 & _). congruence. }
    destruct (decide (Type_ x = TimedCall)) as [Ety|Ety]; cbn; (split; [|done]).
    + eapply inv_moved; [exact HI|apply (inv_queue _ _ _ _ _ HI)|cbn; by rewrite Ep|].
      eexists (m_queue w ++ MkTask (Id x) (Type_ x) _ (Body x) :: q). split.
      * unfold all, held. cbn. rewrite Ei. cbn. rewrite insert_timed_Permutation. reflexivity.
      * unfold all, held. rewrite Ei, E. cbn. apply Forall2_app; [apply same_tasks|]. constructor; [done|apply same_tasks].
    + assert (upload_of x = None) as Eu.
      { pose proof (inv_types _ _ _ _ _ HI) as Ht. rewrite Forall_forall in Ht. destruct (upload_of x) eqn:Eu; [|done]. exfalso. apply Ety, (Ht x); [|congruence].
        unfold all. rewrite E. apply elem_of_app. right. apply elem_of_app. right. by left. }
      eapply inv_moved; [exact HI| |cbn; by rewrite Ep|].
      * cbn. rewrite uploads_app, (inv_queue _ _ _ _ _ HI). cbn. unfold upload_of in *. cbn. by destruct (Body x) as [[]|].
      * eexists (m_queue w ++ MkTask (Id x) (Type_ x) _ (Body x) :: q). split.
        -- unfold all, held. cbn. rewrite Ei. cbn. rewrite <-(assoc_L (++)). cbn. reflexivity.
        -- unfold all, held. rewrite Ei, E. cbn. apply Forall2_app; [apply same_tasks|]. constructor; [done|apply same_tasks].
Qed.

Lemma fetch_inv fuel clock flag handle active f : ∀ i w r w', item w = None → inv flag handle active w f →
  fetch fuel clock i w = Some (r, w') → inv flag handle active w' f.
Proof.
  induction fuel as [|fuel IH]; intros i w r w' Ei HI E; [done|]. cbn in E. pose proof (pick_inv (clock i) _ _ _ w _ Ei HI) as Hp.
  destruct (pick (clock i) w) as [[| |n] w1]; destruct Hp as [Hp1 Hp2]; [by injection E as <- <-| |by injection E as <- <-].
  eapply IH; [by apply Hp2|exact Hp1|exact E].
Qed.

(** When the task taken runs it leaves the worker. *)
Lemma execute_inv flag handle active w f : inv flag handle active w f →
  let '(c, w') := execute w in
  match c with
  | Some (UploadAsync latency) => flag = true ∧ inv false handle active w' f ∧ zlen (timed_uploads active) < u32 max_pending_req ∧ item w' = None
  | _ => inv flag handle active w' f
  end.
Proof.
  intros HI. pose proof HI as [H1 H2 H3 H4 H5 H6 H7 H8 H9]. unfold execute. destruct (item w) as [x|] eqn:Ex; [|done].
  match goal with |- context [w <| item := None |> <| m_itemInProgress := None |>] => set (w1 := w <| item := None |> <| m_itemInProgress := None |>) end.
  assert (all w1 = m_queue w ++ m_timerQueue w) as Ea by done.
  assert (all w1 `sublist_of` all w) as Hs by (rewrite Ea; unfold all; by apply sublist_inserts_l).
  assert (upload_of x = None ∨ m_itemInProgress w = None → inv flag handle active w1 f) as Hsame.
  { intros Hx. assert (uploads (all w1) = uploads (all w)) as Eu.
    { rewrite Ea. unfold all. rewrite (uploads_app (held w)). unfold held. rewrite Ex. destruct Hx as [Hx|Hx]; [|by rewrite Hx].
      destruct (m_itemInProgress w); [|done]. cbn. by rewrite Hx. }
    eapply inv_sublist; [exact HI|done|exact Hs|done|]. by rewrite Eu. }
  assert (upload_of x ≠ None → m_itemInProgress w ≠ None → Type_ x = TimedCall) as Hty.
  { intros Hx Hp. rewrite Forall_forall in H2. apply (H2 x); [|done]. unfold all, held. rewrite Ex. destruct (m_itemInProgress w); [by left|done]. }
  destruct (decide (Type_ x = Shutdown)) as [Es|Es].
  - cbn [fst snd]. assert (inv flag handle active w1 f) as Hi.
    { apply Hsame. destruct (upload_of x) eqn:Eu, (m_itemInProgress w) eqn:Ep; [|by right|by left|by left].
      rewrite Hty in Es; done. }
    destruct Hi. by split.
  - destruct (m_itemInProgress w) as [id|] eqn:Ep; [|by apply Hsame; right]. destruct (Body x) as [[latency|]|] eqn:Eb; [|apply Hsame; left; unfold upload_of; by rewrite Eb..].
    assert (uploads (all w) = (Id x, latency) :: uploads (all w1)) as Eu.
    { rewrite Ea. unfold all, held. rewrite Ex, Ep. cbn. unfold upload_of at 1. by rewrite Eb. }
    destruct flag; [|congruence]. destruct H7 as (i & l & _ & E). rewrite E in Eu. injection Eu as _ _ Eu. split_and!; [done| | |done].
    + eapply inv_sublist; [exact HI|done|exact Hs|done|]. done.
    + rewrite E in H9. change (zlen [(i, l)]) with 1 in H9. lia.
Qed.

(** A task of another component. *)
Lemma queue_other_inv ty time s : Inv s →
  Inv (s <| dispatcher := Queue (MkTask (fresh s) ty time (Some Other)) (dispatcher s) |> <| fresh := fresh s + 1 |>).
Proof.
  unfold Inv. destruct s as [m p w f]. cbn. set (x := MkTask f ty time (Some Other)). set (w' := Queue x w).
  assert (all w' ≡ₚ x :: all w) as Hall.
  { subst w'. unfold Queue. destruct (decide _); [apply all_insert|]. unfold all. change (held (w <| m_queue := m_queue w ++ [x] |>)) with (held w). cbn.
    rewrite <-(assoc_L (++) (m_queue w)). cbn. by rewrite <-!Permutation_middle. }
  assert (uploads (m_queue w') = uploads (m_queue w)) as Eq.
  { subst w'. unfold Queue. destruct (decide _); [done|]. cbn. rewrite uploads_app. cbn. by rewrite app_nil_r. }
  assert (item w' = item w ∧ m_itemInProgress w' = m_itemInProgress w) as [Ei Ep] by (subst w'; unfold Queue; by destruct (decide _)). clearbody w'.
  pose proof (uploads_Permutation _ _ Hall) as Hu. cbn in Hu. fold (uploads (all w)) in Hu.
  intros [H1 H2 H3 H4 H5 H6 H7 H8 H9]. split; rewrite ?Eq, ?Ei, ?Ep; try done.
  - rewrite Hall. by constructor.
  - rewrite Hall. cbn. constructor; [|exact H4]. intros (y & Hy & Hin)%list_elem_of_fmap. rewrite Forall_forall in H5. apply H5 in Hin. cbn in *. lia.
  - rewrite Hall. constructor; [cbn; lia|]. eapply Forall_impl; [exact H5|]. cbn. lia.
  - intros id E. destruct (H6 id E) as [? Hf]. split; [lia|]. rewrite Hall. constructor; [cbn; lia|done].
  - destruct (m_isUploadScheduled m); [|rewrite H7 in Hu; by apply Permutation_nil_r in Hu]. destruct H7 as (id & l & E & E2). exists id, l.
    split; [done|]. rewrite E2 in Hu. by apply Permutation_singleton_r in Hu.
  - by rewrite Hu.
  - unfold zlen in *. by rewrite Hu.
Qed.

Lemma backoff_core r s : core (s <| manager := (increaseBackoff createFromConfig GetUploadRetryBackoffConfig r (manager s)).2 |>) = core s.
Proof.
  unfold increaseBackoff, checkBackoffConfigUpdate, core. destruct s as [m p w f]. cbn. case_bool_decide; [|destruct (createFromConfig _)]; cbn; by destruct (m_backoff m).
Qed.

Lemma act_inv a s : Inv s → enabled a s → Inv (act a s).2.
Proof.
  intros HI [Ht Hf]. destruct a as [th clock latency|fuel clock| |ty time|th clock|th|th|th|th clock n|th clock u|th clock u|th clock u|th clock r u|th clock u|o];
    cbn [act thread_of snd] in *; try (specialize (Ht th eq_refl)).
  - by apply event_inv.
  - unfold Inv in *. destruct (fetch fuel clock 0 (dispatcher s)) as [[r w]|] eqn:E; [|done]. by eapply fetch_inv.
  - unfold Inv in HI. pose proof (execute_inv _ _ _ _ _ HI) as He. destruct (execute (dispatcher s)) as [c w]. destruct c as [[latency|]|]; [|done..].
    destruct He as (Ef & Hi & Hlt & Eit). unfold uploadAsync.
    match goal with |- context [on_manager ?g ?x] => set (s1 := on_manager g x) end. assert (Inv s1) as HI1 by done.
    destruct (_ || _); [apply cancel_inv; [done|by intros _]|by apply start_timed_inv].
  - by apply queue_other_inv.
  - unfold handleStart. set (s1 := on_manager _ s). assert (core s1 = core s) as E1 by done. clearbody s1.
    pose proof (priority_core s1) as Ec. pose proof (priority_latency s1) as Hl. destruct (calculateNewPriority s1) as [proposed s2]. cbn in *. rewrite E1 in Ec.
    apply scheduleUpload_inv; [by eapply Inv_core|by eapply core_able|done].
  - by apply cancel_inv.
  - by apply cancel_inv.
  - by apply cancel_inv.
  - unfold upload_now. destruct (c_true n); [|done]. by apply scheduleUpload_inv.
  - unfold handleNothingToUpload. set (s1 := on_manager _ s). assert (Inv s1) by done. destruct (_ =? _); by apply finish_inv.
  - by apply finish_inv.
  - by apply finish_inv.
  - unfold handleEventsUploadFailed. destruct (increaseBackoff _ _ r (manager s)) as [delay t] eqn:E. apply finish_inv; [|done].
    eapply Inv_core; [|exact HI]. pose proof (backoff_core r s) as Ec. by rewrite E in Ec.
  - by apply finish_inv.
  - done.
Qed.

(** ** Reachable states *)

Definition initial_system (p : profiles_state) (timers : TimerArray) : system := MkSystem (new_tpm createFromConfig timers) p new_worker 0.

Lemma initial_inv p timers : Inv (initial_system p timers).
Proof. split; cbn; try done; [constructor|]. unfold u32. pose proof (Z.mod_pos_bound max_pending_req (2 ^ 32)). unfold wrap, zlen. cbn. lia. Qed.

Lemma reachable_inv s0 us s : Inv s0 → reachable s0 us s → Inv s.
Proof. intros H0. induction 1 as [|us s a _ IH He]; [done|]. by apply act_inv. Qed.

(** C36. Whatever events, answers, pauses, stops, profiles and threads do, in any order: [m_isUploadScheduled] is set exactly when
    the worker has an upload task that it has not run, this is then the task of the handle [m_scheduledUpload] and there is no
    other, so that no upload is lost or scheduled twice; and no more uploads that the timer started are active than
    the configuration allows, the one that is scheduled included. *)
Theorem scheduled_upload_unique p timers us s : reachable (initial_system p timers) us s →
  (if m_isUploadScheduled (manager s)
   then ∃ id latency, m_scheduledUpload (manager s) = Some id ∧ uploads (all (dispatcher s)) = [(id, latency)]
   else uploads (all (dispatcher s)) = []) ∧
  zlen (timed_uploads (m_activeUploads (manager s))) + zlen (uploads (all (dispatcher s))) ≤ u32 max_pending_req.
Proof. intros H. pose proof (reachable_inv _ _ _ (initial_inv p timers) H) as HI. split; [apply (inv_flag _ _ _ _ _ HI)|apply (inv_bound _ _ _ _ _ HI)]. Qed.

(** ** Paused and stopped *)

Definition status s : bool * bool := (m_isPaused (manager s), m_scheduledUploadAborted (manager s)).

Lemma timers_status s : status (updateTimersIfNecessary s).2 = status s.
Proof. unfold updateTimersIfNecessary. destruct (isTimerUpdateRequired _); [|done]. by destruct (getTimers _). Qed.

Lemma cancel_status th s : status (cancelUploadTask th s).2 = status s.
Proof. unfold cancelUploadTask. destruct (handle_Cancel _ _ _ _ _) as [[] w]; done. Qed.

Lemma pause_status th s : status (pauseAllUploads th s) = (true, m_scheduledUploadAborted (manager s)).
Proof. unfold pauseAllUploads. by rewrite cancel_status. Qed.

Lemma stop_status th s : status (handleStop th s) = (m_isPaused (manager s), true).
Proof. unfold handleStop. by rewrite cancel_status. Qed.

Lemma lower_status latency s : status (lower_latency latency s) = status s.
Proof. unfold lower_latency, status. cbn. by destruct (_ >? _). Qed.

Lemma schedule_task_status clock delay latency s : status (schedule_task clock delay latency s) = status s.
Proof. unfold schedule_task. by destruct (m_isUploadScheduled _). Qed.

Lemma schedule_status th clock delay latency force s : status (scheduleUpload th clock delay latency force s) = status s.
Proof.
  unfold Tpm.scheduleUpload. destruct (_ || _); [done|]. destruct (m_scheduledUploadAborted _); [done|]. destruct (_ >=? _); [done|]. destruct (m_isPaused _); [done|].
  pose proof (timers_status s) as E. set (s1 := (updateTimersIfNecessary s).2) in *. clearbody s1. destruct (negb force && _).
  - destruct (_ <=? delay); [by rewrite lower_status|]. rewrite schedule_task_status. destruct (delay =? 0); [by rewrite cancel_status, lower_status|by rewrite lower_status].
  - rewrite schedule_task_status. destruct (force || _); [by rewrite cancel_status|done].
Qed.

Lemma finish_status th clock u nextUpload s : status (finishUpload th clock u nextUpload s) = status s.
Proof.
  unfold Tpm.finishUpload. set (s1 := on_manager _ s). assert (status s1 = status s) as E1.
  { subst s1. unfold status, removeUpload. cbn. by case_bool_decide. }
  clearbody s1. destruct (_ >=? 0); [|done]. pose proof (timers_status s1) as E2. unfold calculateNewPriority. cbn. by rewrite schedule_status, E2.
Qed.

Lemma backoff_status r s : status (s <| manager := (increaseBackoff createFromConfig GetUploadRetryBackoffConfig r (manager s)).2 |>) = status s.
Proof.
  unfold increaseBackoff, checkBackoffConfigUpdate, status. destruct s as [m p w f]. cbn. case_bool_decide; [|destruct (createFromConfig _)]; cbn; by destruct (m_backoff m).
Qed.

Definition starts (a : action) : bool := match a with Start _ _ => true | _ => false end.

(** A step that is no start leaves a pause and a stop as they are, and starts nothing in a pause and only for urgent events after a stop. *)
Lemma act_status a s : starts a = false →
  (m_isPaused (manager s) = true → m_isPaused (manager (act a s).2) = true ∧ (act a s).1 = None) ∧
  (m_scheduledUploadAborted (manager s) = true →
     m_scheduledUploadAborted (manager (act a s).2) = true ∧ timed_uploads (option_list (act a s).1) = []).
Proof.
  assert (∀ s', status s' = status s → (m_isPaused (manager s) = true → m_isPaused (manager s') = true ∧ @None upload = None) ∧
    (m_scheduledUploadAborted (manager s) = true → m_scheduledUploadAborted (manager s') = true ∧ timed_uploads (option_list None) = [])) as Hsame.
  { intros s' [= -> ->]. done. }
  intros Hs. destruct a as [th clock latency|fuel clock| |ty time|th clock|th|th|th|th clock n|th clock u|th clock u|th clock u|th clock r u|th clock u|o]; try done; cbn [act fst snd].
  - unfold handleEventArrived. destruct (m_isPaused (manager s)) eqn:Ep; [by apply Hsame|].
    split; [done|]. intros Ea. destruct (Z.gtb_spec latency EventLatency_RealTime).
    + split; [done|]. unfold timed_uploads, start_upload. unfold option_list. cbn [fst option_rect]. by rewrite filter_cons, decide_False by (cbn; lia).
    + destruct (_ || _); [|done]. pose proof (timers_status s) as E1. destruct (updateTimersIfNecessary s) as [restart s1]. cbn in E1.
      set (s2 := if restart then _ else s1). assert (status s2 = status s) as E2 by (rewrite <-E1; subst s2; by destruct restart). clearbody s2.
      pose proof (timers_status s2) as E3. unfold calculateNewPriority. cbn. set (s3 := (updateTimersIfNecessary s2).2) in *. clearbody s3.
      assert (status (if m_timerdelay (manager s3) >=? 0 then scheduleUpload th clock (m_timerdelay (manager s3))
        (if (m_timers (manager s3)).1 =? (m_timers (manager s3)).2 then EventLatency_Normal else if (m_timers (manager s3)).1 <? 0 then EventLatency_RealTime
         else if m_runningLatency (manager s3) =? EventLatency_RealTime then EventLatency_Normal else EventLatency_RealTime) restart s3 else s3) = status s) as E4.
      { destruct (_ >=? 0); [rewrite schedule_status|]; by rewrite E3. }
      injection E4 as _ ->. done.
  - by destruct (fetch _ _ _ _) as [[r w]|].
  - destruct (execute (dispatcher s)) as [c w]. destruct c as [[latency|]|]; [|by apply Hsame..]. unfold uploadAsync. cbn [manager].
    match goal with |- context [on_manager ?g ?x] => set (s1 := on_manager g x) end. assert (status s1 = status s) as E1 by done.
    destruct (m_isPaused (manager s1) || m_scheduledUploadAborted (manager s1)) eqn:Eb; cbn [fst snd].
    + apply Hsame. by rewrite cancel_status.
    + change (m_isPaused (manager s) || m_scheduledUploadAborted (manager s) = false) in Eb. apply orb_false_iff in Eb as [-> ->]. done.
  - pose proof (pause_status th s) as E. injection E as -> ->. done.
  - pose proof (stop_status th s) as E. injection E as -> ->. done.
  - apply Hsame, cancel_status.
  - apply Hsame. unfold upload_now. destruct (c_true n); [apply schedule_status|done].
  - apply Hsame. unfold handleNothingToUpload. destruct (_ =? _); by rewrite finish_status.
  - apply Hsame, finish_status.
  - apply Hsame. unfold handleEventsUploadSuccessful. by rewrite finish_status.
  - apply Hsame. unfold handleEventsUploadFailed. pose proof (backoff_status r s) as E. destruct (increaseBackoff _ _ r (manager s)) as [delay m]. by rewrite finish_status.
  - apply Hsame, finish_status.
Qed.

(** The uploads started along a sequence of steps. *)
Fixpoint run (as_ : list action) s : list upload * system :=
  match as_ with
  | [] => ([], s)
  | a :: as_ => let '(us, s') := run as_ (act a s).2 in (option_list (act a s).1 ++ us, s')
  end.

(** C37. In a pause no upload starts, whatever happens short of a new start; and once stopping has begun no
    upload of the timer starts any more, only those an event above real time starts at once. *)
Theorem paused_starts_nothing as_ s : Forall (λ a, starts a = false) as_ →
  (isPaused s = true → (run as_ s).1 = [] ∧ isPaused (run as_ s).2 = true) ∧
  (m_scheduledUploadAborted (manager s) = true → timed_uploads (run as_ s).1 = [] ∧ m_scheduledUploadAborted (manager (run as_ s).2) = true).
Proof.
  intros H. revert s. unfold isPaused. induction H as [|a as_ Ha _ IH]; intros s; [done|]. cbn. destruct (act_status a s Ha) as [H1 H2]. destruct (IH (act a s).2) as [H3 H4].
  destruct (run as_ (act a s).2) as [us s']. cbn in *. split.
  - intros Hp. destruct (H1 Hp) as [E ->]. by destruct (H3 E) as [-> ?].
  - intros Hp. destruct (H2 Hp) as [E Eu]. destruct (H4 E) as [Eus ?]. unfold timed_uploads in *. by rewrite filter_app, Eu, Eus.
Qed.

(** A request for an upload, when one is scheduled and the request is neither forced nor for now, changes neither the time nor
    the latency of the task: a request for an earlier time falls through to [m_isUploadScheduled.exchange], which finds the
    flag set, and a lower latency is only noted in [m_runningLatency], which [uploadAsync] sets to the latency of its task. *)
Theorem pending_upload_unchanged th clock delay latency s : m_isUploadScheduled (manager s) = true → 0 < delay →
  let s' := scheduleUpload th clock delay latency false s in
  dispatcher s' = dispatcher s ∧ m_scheduledUpload (manager s') = m_scheduledUpload (manager s) ∧
  m_scheduledUploadTime (manager s') = m_scheduledUploadTime (manager s) ∧
  (∀ th' latency', m_isPaused (manager s') = false → m_scheduledUploadAborted (manager s') = false →
     requestedMinLatency <$> (uploadAsync th' latency' s').1 = Some latency').
Proof.
  intros Ef Hd. cbn. set (s' := scheduleUpload th clock delay latency false s).
  assert (dispatcher s' = dispatcher s ∧ m_scheduledUpload (manager s') = m_scheduledUpload (manager s) ∧
    m_scheduledUploadTime (manager s') = m_scheduledUploadTime (manager s)) as H.
  { subst s'. unfold Tpm.scheduleUpload. destruct (_ || _); [done|]. destruct (m_scheduledUploadAborted _); [done|]. destruct (_ >=? _); [done|]. destruct (m_isPaused _); [done|].
    assert (m_isUploadScheduled (manager (updateTimersIfNecessary s).2) = true ∧ dispatcher (updateTimersIfNecessary s).2 = dispatcher s ∧
      m_scheduledUpload (manager (updateTimersIfNecessary s).2) = m_scheduledUpload (manager s) ∧
      m_scheduledUploadTime (manager (updateTimersIfNecessary s).2) = m_scheduledUploadTime (manager s)) as (E1 & E2 & E3 & E4).
    { unfold updateTimersIfNecessary. destruct (isTimerUpdateRequired _); [|done]. by destruct (getTimers _). }
    set (s1 := (updateTimersIfNecessary s).2) in *. clearbody s1. rewrite E1. cbn [negb andb]. set (l := if _ <? 0 then _ else latency). clearbody l.
    assert (m_isUploadScheduled (manager (lower_latency l s1)) = true ∧ dispatcher (lower_latency l s1) = dispatcher s1 ∧
      m_scheduledUpload (manager (lower_latency l s1)) = m_scheduledUpload (manager s1) ∧
      m_scheduledUploadTime (manager (lower_latency l s1)) = m_scheduledUploadTime (manager s1)) as (F1 & F2 & F3 & F4).
    { unfold lower_latency. cbn. by destruct (_ >? l). }
    destruct (_ <=? delay); [split_and!; congruence|]. destruct (Z.eqb_spec delay 0); [lia|]. unfold schedule_task. rewrite F1. split_and!; congruence. }
  destruct H as (H1 & H2 & H3). split_and!; try done. intros th' latency' Hp Ha. unfold uploadAsync. cbn. by rewrite Hp, Ha.
Qed.

End Laws.

(** ** Examples

    A backoff that doubles three seconds up to five minutes, and a device that charges on an unmetered network. *)

#[export] Instance ex_backoff : IBackoff Z :=
  {| Backoff.reset _ := 3000; Backoff.increase delay := Z.min (2 * delay) 300000; Backoff.getValue delay r := delay + r |}.

Definition ex_createFromConfig (config : list Z) : option Z := Some 3000.
Definition ex_max_pending : Z := 4.
Definition ex_clock (i : Z) : Z := 1000 + i.
Definition ex_thread : thread := MkThread false false.
Definition ex_act := act ex_createFromConfig ex_max_pending [] (λ _, None).

Definition ex_initial : system Z := initial_system ex_createFromConfig initial (0, 0).
(** The profile is chosen, the device is known and the manager is started. *)
Definition ex_chosen : system Z := (ex_act (Profiles (SetDefaultProfile 0)) ex_initial).2.
Definition ex_known : system Z := (ex_act (Profiles (UpdateStates NetworkCost_Unmetered PowerSource_Charging)) ex_chosen).2.
Definition ex_started : system Z := (ex_act (Start ex_thread ex_clock) ex_known).2.

Lemma ex_started_reachable : reachable ex_createFromConfig ex_max_pending [] (λ _, None) ex_initial [] ex_started.
Proof.
  refine (reachable_quiet _ _ _ _ _ _ ex_known (Start ex_thread ex_clock) _ _ _ eq_refl eq_refl); [|split; [by intros ? [= <-]|done]].
  refine (reachable_quiet _ _ _ _ _ _ ex_chosen (Profiles _) _ _ _ eq_refl eq_refl); [|done].
  refine (reachable_quiet _ _ _ _ _ _ ex_initial (Profiles _) _ _ _ eq_refl eq_refl); [|done]. apply reachable_refl.
Qed.

Lemma scheduled_upload_witness : ∃ us id latency, reachable ex_createFromConfig ex_max_pending [] (λ _, None) ex_initial us ex_started ∧
  m_scheduledUpload (manager ex_started) = Some id ∧ uploads (all (dispatcher ex_started)) = [(id, latency)].
Proof.
  destruct (scheduled_upload_unique ex_createFromConfig ex_max_pending [] (λ _, None) initial (0, 0) [] ex_started ex_started_reachable) as [Hf _].
  assert (m_isUploadScheduled (manager ex_started) = true) as Ef by (vm_compute; done). rewrite Ef in Hf.
  destruct Hf as (id & latency & E1 & E2). exists [], id, latency. split; [exact ex_started_reachable|by split].
Defined.

(** The manager pauses, an urgent event arrives and the worker runs. *)
Lemma paused_witness : (run ex_createFromConfig ex_max_pending [] (λ _, None)
  [EventArrived ex_thread ex_clock 4; Fetch 1 (λ _, 5000); Execute] (ex_act (Pause ex_thread) ex_started).2).1 = [].
Proof.
  refine (proj1 (proj1 (paused_starts_nothing ex_createFromConfig ex_max_pending [] (λ _, None) _ (ex_act (Pause ex_thread) ex_started).2 _) _)).
  - by repeat constructor.
  - vm_compute. done.
Defined.

(** An upload in 10 ms is asked for while one is scheduled for a second from now. *)
Lemma pending_upload_witness :
  dispatcher (scheduleUpload ex_max_pending ex_thread ex_clock 10 EventLatency_RealTime false ex_started) = dispatcher ex_started.
Proof.
  refine (proj1 (pending_upload_unchanged ex_max_pending ex_thread ex_clock 10 EventLatency_RealTime ex_started _ _)); [vm_compute; done|done].
Defined.

End TpmLaws.
