(* ===== verification/TpmProgress.v ===== *)
(** * Uploads go on until nothing is left

    The manager with a storage behind it: a task that is due runs, its upload is accepted if the storage has records of the latency it
    asks for, and reports that there is nothing otherwise. Any storage that keeps the contract [UploadSource] is emptied in a
    number of rounds bounded by what it holds. *)

From Stdlib Require Import ZArith Lia.
From S2P Require Import Prelude MemoryStorage Backoff TransmitProfiles WorkerThread Tpm TpmLaws.

Module TpmProgress.
Import Backoff TransmitProfiles WorkerThread Tpm TpmLaws.

(** What the manager relies on: [has] tells whether records of at least a latency can be sent, [send] is an upload of them that was
    accepted, which takes at least one record away. *)
Class UploadSource (S : Type) := {
  sound : S → Prop; has : Z → S → bool; send : Z → S → S; left : S → nat;
  send_sound : ∀ l d, EventLatency_Normal ≤ l → sound d → has l d = true → sound (send l d);
  send_less : ∀ l d, EventLatency_Normal ≤ l → sound d → has l d = true → (left (send l d) < left d)%nat;
  nothing_left : ∀ d, sound d → has EventLatency_Normal d = false → left d = 0%nat
}.

Section Progress.
Context {B : Type} `{!IBackoff B} (createFromConfig : list Z → option B).
Context (max_pending_req : Z) (GetUploadRetryBackoffConfig : list Z) (json_parse : list Z → option json).
Context {S : Type} `{!UploadSource S}.

Abbreviation system := (Tpm.system B).
Abbreviation act := (TpmLaws.act createFromConfig max_pending_req GetUploadRetryBackoffConfig json_parse).
Implicit Types (s : system) (d : S).

(** The time of the next task. *)
Definition wake s : Z := match m_timerQueue (dispatcher s) with t :: _ => TargetTime t | [] => 0 end.

(** One round: the next task runs when its time has come, and the upload it starts is answered. *)
Definition cycle (th : thread) (clock : Z → Z) (x : system * S) : system * S :=
  let '(s, d) := x in
  let s := (act (Fetch 1 (λ _, wake s)) s).2 in
  match act Execute s with
  | (Some u, s) =>
      if has (requestedMinLatency u) d then ((act (Succeeded th clock u) s).2, send (requestedMinLatency u) d)
      else ((act (NothingToUpload th clock u) s).2, d)
  | (None, s) => (s, d)
  end.

(** [clocks i] is the clock in the [i]-th round. *)
Fixpoint cycles (th : thread) (clocks : nat → Z → Z) (i n : nat) (x : system * S) : system * S :=
  match n with O => x | Datatypes.S n => cycles th clocks (Datatypes.S i) n (cycle th (clocks i) x) end.

(** The manager runs and its profile allows all latencies. *)
Record running (t0 t1 : Z) s : Prop := {
  running_not_paused : m_isPaused (manager s) = false;
  running_not_stopped : m_scheduledUploadAborted (manager s) = false;
  running_delay : 0 ≤ m_timerdelay (manager s);
  running_timers : m_timers (manager s) = (t0, t1);
  running_profile : isTimerUpdated (static s) = false;
  running_uploads : m_activeUploads (manager s) = [];
  running_worker : m_queue (dispatcher s) = [] ∧ item (dispatcher s) = None ∧ m_itemInProgress (dispatcher s) = None
}.

(** An upload of latency [l] is scheduled, and nothing else. *)
Definition waiting (t0 t1 l : Z) s : Prop := running t0 t1 s ∧ m_isUploadScheduled (manager s) = true ∧
  ∃ id time, m_scheduledUpload (manager s) = Some id ∧ m_timerQueue (dispatcher s) = [MkTask id TimedCall time (Some (UploadAsync l))].

Definition idle (t0 t1 : Z) s : Prop := running t0 t1 s ∧ m_isUploadScheduled (manager s) = false ∧ m_timerQueue (dispatcher s) = [].

Definition next_latency (t0 t1 l : Z) : Z :=
  if t0 =? t1 then EventLatency_Normal else if l =? EventLatency_RealTime then EventLatency_Normal else EventLatency_RealTime.

(** After the upload started, the manager is idle but for it. *)
Lemma task_runs t0 t1 l s : waiting t0 t1 l s →
  ∃ u s', act Execute (act (Fetch 1 (λ _, wake s)) s).2 = (Some u, s') ∧ requestedMinLatency u = l ∧
    m_activeUploads (manager s') = [u] ∧ m_runningLatency (manager s') = l ∧ idle t0 t1 (on_manager (λ m, m <| m_activeUploads := [] |>) s').
Proof.
  intros ([H1 H2 H3 H4 H5 H6 (H7 & H8 & H9)] & Hf & id & time & Eh & Eq). destruct s as [m p w f], w as [q tq ip it r]. cbn in *. subst q it ip tq.
  unfold wake. cbn. unfold pick. cbn. rewrite Z.leb_refl. cbn. unfold uploadAsync. cbn. rewrite H1, H2. cbn. eexists _, _. split_and!; [done|done| | |]; cbn.
  - by rewrite H6.
  - done.
  - split_and!; [|done|done]. by split.
Qed.

(** From there a request schedules an upload. *)
Lemma idle_schedules t0 t1 th clock delay l s : idle t0 t1 s → 0 ≤ t0 → 0 < u32 max_pending_req → 0 ≤ delay →
  waiting t0 t1 l (Tpm.scheduleUpload max_pending_req th clock delay l false s).
Proof.
  intros ([H1 H2 H3 H4 H5 H6 (H7 & H8 & H9)] & Hf & Eq) Ht Hm Hd. destruct s as [m p w f], w as [q tq ip it r]. cbn in *. subst q it ip tq.
  unfold Tpm.scheduleUpload, uploadCount, updateTimersIfNecessary, isTimerUpdateRequired. cbn. rewrite H1, H2, H5, H6.
  destruct (Z.ltb_spec delay 0); [lia|]. destruct (Z.ltb_spec (m_timerdelay m) 0); [lia|]. cbn.
  destruct (Z.geb_spec (zlen (@nil upload)) (u32 max_pending_req)) as [Hge|_]; [change (zlen (@nil upload)) with 0 in Hge; lia|]. cbn.
  rewrite H4, Hf. cbn. destruct (Z.ltb_spec t0 0); [lia|].
  destruct (delay =? 0); [|unfold schedule_task; cbn; rewrite Hf; split_and!; [by split|done|by eexists _, _]].
  unfold cancelUploadTask, handle_Cancel, Cancel. cbn. destruct (m_scheduledUpload m) as [id|]; cbn; unfold schedule_task; cbn;
    (split_and!; [by split|done|by eexists _, _]).
Qed.

Lemma finish_idle t0 t1 th clock u l delay s : m_activeUploads (manager s) = [u] → m_runningLatency (manager s) = l →
  idle t0 t1 (on_manager (λ m, m <| m_activeUploads := [] |>) s) → 0 ≤ t0 → 0 < u32 max_pending_req →
  if delay >=? 0 then waiting t0 t1 (next_latency t0 t1 l) (Tpm.finishUpload max_pending_req th clock u delay s)
  else idle t0 t1 (Tpm.finishUpload max_pending_req th clock u delay s).
Proof.
  intros Ea El Hi Ht Hm. unfold Tpm.finishUpload.
  assert (on_manager (λ m, (removeUpload u m).2) s = on_manager (λ m, m <| m_activeUploads := [] |>) s) as ->.
  { destruct s as [m p w f]. cbn in *. unfold on_manager, removeUpload. cbn. rewrite Ea. rewrite bool_decide_eq_true_2 by (by left). cbn.
    rewrite decide_False by tauto. done. }
  set (s1 := on_manager _ s) in *. assert (m_runningLatency (manager s1) = l) as El1 by done. clearbody s1. clear El.
  destruct (Z.geb_spec delay 0); [|done]. unfold calculateNewPriority, updateTimersIfNecessary, isTimerUpdateRequired.
  pose proof Hi as ([_ _ _ H4 H5 _ _] & _). rewrite H5. cbn. rewrite H4, El1. cbn.
  destruct (Z.ltb_spec t0 0); [lia|]. by apply idle_schedules.
Qed.

Lemma reset_idle t0 t1 s u l : m_activeUploads (manager s) = [u] → m_runningLatency (manager s) = l → idle t0 t1 (on_manager (λ m, m <| m_activeUploads := [] |>) s) →
  m_activeUploads (manager (on_manager resetBackoff s)) = [u] ∧ m_runningLatency (manager (on_manager resetBackoff s)) = l ∧
  idle t0 t1 (on_manager (λ m, m <| m_activeUploads := [] |>) (on_manager resetBackoff s)).
Proof. intros H1 H2 ([] & H3 & H4). by split_and!. Qed.

(** One round, by what the storage has. *)
Lemma cycle_runs t0 t1 l th clock s d : waiting t0 t1 l s → 0 ≤ t0 → 0 < u32 max_pending_req → sound d →
  let '(s', d') := cycle th clock (s, d) in
  if has l d then d' = send l d ∧ waiting t0 t1 (next_latency t0 t1 l) s'
  else d' = d ∧ if l =? EventLatency_Normal then idle t0 t1 s' else waiting t0 t1 (next_latency t0 t1 l) s'.
Proof.
  intros Hw Ht Hm Hd. unfold cycle. destruct (task_runs t0 t1 l s Hw) as (u & s1 & -> & El & Ea & Er & Hi). rewrite El.
  assert (0 ≤ m_timerdelay (manager s1)) as Htd by apply Hi.
  destruct (reset_idle _ _ _ _ _ Ea Er Hi) as (Ea' & Er' & Hi').
  destruct (has l d).
  - cbn. split; [done|]. exact (finish_idle _ _ th clock _ _ 0 _ Ea' Er' Hi' Ht Hm).
  - cbn. split; [done|]. unfold handleNothingToUpload. rewrite El. destruct (l =? EventLatency_Normal).
    + exact (finish_idle _ _ th clock _ _ (-1) _ Ea' Er' Hi' Ht Hm).
    + pose proof (finish_idle _ _ th clock _ _ (m_timerdelay (manager s1)) _ Ea' Er' Hi' Ht Hm) as H. by destruct (Z.geb_spec (m_timerdelay (manager s1)) 0); [|lia].
Qed.

Lemma next_cases t0 t1 l : next_latency t0 t1 l = EventLatency_Normal ∨ next_latency t0 t1 l = EventLatency_RealTime.
Proof. unfold next_latency. destruct (t0 =? t1); [by left|]. destruct (l =? EventLatency_RealTime); [by left|by right]. Qed.

Lemma cycles_drain t0 t1 th clocks : 0 ≤ t0 → 0 < u32 max_pending_req → ∀ n i l s d, waiting t0 t1 l s →
  l = EventLatency_Normal ∨ l = EventLatency_RealTime → sound d → (left d ≤ n)%nat →
  ∃ k s' d', (k ≤ 2 * n + 2)%nat ∧ cycles th clocks i k (s, d) = (s', d') ∧ idle t0 t1 s' ∧ left d' = 0%nat.
Proof.
  intros Ht Hm. induction n as [n IH] using lt_wf_ind. intros i l s d Hw Hl Hd Hn.
  (* a round in which something is sent *)
  assert (∀ i l s, waiting t0 t1 l s → EventLatency_Normal ≤ l → has l d = true →
    ∃ k s' d', (k ≤ 2 * n + 1)%nat ∧ cycles th clocks i k (s, d) = (s', d') ∧ idle t0 t1 s' ∧ left d' = 0%nat) as Hsend.
  { clear i l s Hw Hl. intros i l s Hw Hl Eh. pose proof (cycle_runs t0 t1 l th (clocks i) s d Hw Ht Hm Hd) as Hc. destruct (cycle th (clocks i) (s, d)) as [s1 d1] eqn:Ec.
    rewrite Eh in Hc. destruct Hc as [-> Hw1]. pose proof (send_less l d Hl Hd Eh) as Hlt.
    destruct (IH (n - 1)%nat ltac:(lia) (Datatypes.S i) _ s1 (send l d) Hw1 (next_cases t0 t1 l) (send_sound l d Hl Hd Eh) ltac:(lia)) as (k & s2 & d2 & Hk & E & Hi & H0).
    exists (Datatypes.S k), s2, d2. split_and!; [lia| |done|done]. cbn [cycles]. by rewrite Ec. }
  destruct (has l d) eqn:Eh.
  { destruct (Hsend i l s Hw ltac:(by destruct Hl as [-> | ->]) Eh) as (k & s2 & d2 & Hk & E & Hi & H0). exists k, s2, d2. split_and!; [lia|done..]. }
  (* a round at the normal latency in which nothing is *)
  assert (∀ i s, waiting t0 t1 EventLatency_Normal s → has EventLatency_Normal d = false →
    ∃ s', cycle th (clocks i) (s, d) = (s', d) ∧ idle t0 t1 s') as Hlast.
  { clear i l s Hw Hl Eh. intros i s Hw Eh. pose proof (cycle_runs t0 t1 _ th (clocks i) s d Hw Ht Hm Hd) as Hc. destruct (cycle th (clocks i) (s, d)) as [s1 d1].
    rewrite Eh in Hc. destruct Hc as [-> Hi]. rewrite Z.eqb_refl in Hi. by exists s1. }
  destruct Hl as [-> | ->].
  - destruct (Hlast i s Hw Eh) as (s1 & E & Hi). exists 1%nat, s1, d. split_and!; [lia|by cbn [cycles]; rewrite E|done|by apply nothing_left].
  - pose proof (cycle_runs t0 t1 _ th (clocks i) s d Hw Ht Hm Hd) as Hc. destruct (cycle th (clocks i) (s, d)) as [s1 d1] eqn:Ec.
    rewrite Eh in Hc. destruct Hc as [-> Hw1]. change (EventLatency_RealTime =? EventLatency_Normal) with false in Hw1.
    assert (next_latency t0 t1 EventLatency_RealTime = EventLatency_Normal) as El by (unfold next_latency; by destruct (t0 =? t1)). cbn iota in Hw1. rewrite El in Hw1.
    destruct (has EventLatency_Normal d) eqn:En.
    + destruct (Hsend (Datatypes.S i) _ s1 Hw1 ltac:(done) En) as (k & s2 & d2 & Hk & E & Hi & H0). exists (Datatypes.S k), s2, d2. split_and!; [lia| |done|done]. cbn [cycles]. by rewrite Ec.
    + destruct (Hlast (Datatypes.S i) s1 Hw1 eq_refl) as (s2 & E & Hi). exists 2%nat, s2, d. split_and!; [lia| |done|by apply nothing_left]. cbn [cycles]. by rewrite Ec, E.
Qed.

(** C35. Records do not stay behind: a manager that runs with a profile that allows every latency and has an upload scheduled, whose
    uploads are accepted, empties any storage that keeps the contract, real-time records and others, in at most twice as many
    rounds as there are records and two more, and then rests with no upload scheduled and none active. *)
Theorem uploads_drain t0 t1 th clocks l s d : waiting t0 t1 l s → l = EventLatency_Normal ∨ l = EventLatency_RealTime →
  0 ≤ t0 → 0 < u32 max_pending_req → sound d →
  ∃ k s' d', (k ≤ 2 * left d + 2)%nat ∧ cycles th clocks 0 k (s, d) = (s', d') ∧ idle t0 t1 s' ∧ left d' = 0%nat.
Proof. intros Hw Hl Ht Hm Hd. by apply (cycles_drain t0 t1 th clocks Ht Hm (left d) 0 l). Qed.

End Progress.

End TpmProgress.
