(* ===== verification/UploadSources.v ===== *)
(** * Storages as sources of uploads

    A storage that keeps its contract and offers what it has, with the packager as the consumer and every package accepted, is a source the
    policy manager empties. Both the queue in memory and the model of a database offer what they have. *)

From Stdlib Require Import ZArith Lia.
From stdpp Require Import gmap.
From S2P Require Import Prelude StdMap MemoryStorage MemoryReads MemoryInvariant MemoryRefinement OfflineStorage ModelDisk Packager Uploads.
From S2P Require Import KillSwitch StorageHandler StorageLaws UploadCycle Backoff TransmitProfiles WorkerThread Tpm TpmLaws TpmProgress.

Module UploadSources.
Import OfflineStorage MemoryRefinement StorageHandler StorageLaws UploadCycle TpmProgress.

(** A retrieval that takes nothing with a consumer that would take any record found none. *)
Class Offering (S : Type) `{StorageContract S} := {
  offers_all {C} (consumer : C → MemoryStorage.StorageRecord → C * bool) leaseTimeMs minLatency maxCount clock c s ok c' s' :
    valid s → MemoryStorage.EventLatency_Unspecified ≤ minLatency → 0 ≤ maxCount < 2 ^ 32 →
    s_GetAndReserveRecords consumer leaseTimeMs minLatency maxCount clock c s = (ok, c', s') → s_LastReadRecordCount s' = 0 →
    (∀ k r n, available (held s) !! k = Some r → (consumer c (MemoryStorage.for_consumer leaseTimeMs clock n r)).2 = true) →
    ∀ k r, available (held s) !! k = Some r → MemoryStorage.latency r < minLatency
}.

Section Source.
Context {S : Type} `{Offering S} (GetMaximumUploadSizeBytes : Z) (m_forcedTenantToken : list Z) (clock : Z → Z).
Abbreviation consumer := (Packager.consumer GetMaximumUploadSizeBytes m_forcedTenantToken).
Implicit Types s : S.

(** Nothing is leased, and every record fits in an upload. *)
Definition fitting (a : contents) : Prop := leased a = ∅ ∧ moderate m_forcedTenantToken a ∧
  map_Forall (λ _ r, zlen (MemoryStorage.blob r) + 8 ≤ GetMaximumUploadSizeBytes ∧ Tpm.EventLatency_Normal ≤ MemoryStorage.latency r) (available a).

Definition retrieval (l : Z) s := s_GetAndReserveRecords consumer lease_time l 0 clock (Packager.new_context l 0) s.

Lemma fitting_sub a t : fitting a → fitting (Contents (available a ∖ t) ∅).
Proof.
  intros (_ & Hm & Hf). split_and!; cbn; [done| |].
  - intros rs up Hnd Hs. apply (Hm _ up); [done|]. etransitivity; [exact Hs|]. cbn. rewrite fmap_empty, (right_id_L ∅ (∪)). etransitivity; [by apply map_subseteq_difference_l|apply map_union_subseteq_l].
  - intros k r [E _]%lookup_difference_Some. by apply (Hf k r).
Qed.

(** A record that fits is packaged. *)
Lemma consumer_accepts a k r l n : fitting a → (∀ k r, available a !! k = Some r → MemoryStorage.id r = k) → available a !! k = Some r →
  (consumer (Packager.new_context l 0) (MemoryStorage.for_consumer lease_time clock n r)).2 = true.
Proof.
  intros (_ & Hm & Hf) Hk E. rewrite Packager.consumer_leased. destruct (consumer (Packager.new_context l 0) r) as [ctx more] eqn:Ec.
  assert (Packager.room m_forcedTenantToken [r] < 2 ^ 63) as Hr.
  { apply (Hm _ false); [apply NoDup_singleton|]. rewrite index_cons. cbn. rewrite (Hk k r E). apply insert_subseteq_l; [|apply map_empty_subseteq]. by apply lookup_union_Some_l. }
  eapply (Packager.consumer_packs _ _ []) in Ec as [_ Hc]; [|apply Packager.new_context_holds|by left|cbn [app]; lia|by left].
  destruct more; [done|]. destruct Hc as [[_ ?]|(_ & _ & Hbig)]; [done|]. destruct (Hf k r E). lia.
Qed.

Lemma retrieval_takes l s ok ctx s' : valid s → fitting (held s) → Tpm.EventLatency_Normal ≤ l → retrieval l s = (ok, ctx, s') →
  ∃ taken, valid s' ∧ index taken ⊆ available (held s) ∧ s_LastReadRecordCount s' = zlen taken ∧
    held s' = Contents (available (held s) ∖ index taken) (index taken) ∧ (taken ≠ [] → ∀ k, k ∈ record_ids ctx ↔ is_Some (index taken !! k)).
Proof.
  intros Hv Hf Hl E. pose proof Hf as (El & Hm & _).
  eapply storage_reads in E as (expired & up & taken & Hv' & Hex & Hsub & En & _ & Eh & Hids & _); [|done|done|apply Packager.new_context_holds|by left|unfold Tpm.EventLatency_Normal, MemoryStorage.EventLatency_Normal in Hl; unfold MemoryStorage.EventLatency_Unspecified; lia|done].
  rewrite El in *. assert (expired = ∅) as -> by (apply (anti_symm (⊆)); [exact Hex|apply map_empty_subseteq]).
  rewrite fmap_empty, (right_id_L ∅ (∪)), map_difference_empty, (right_id_L ∅ (∪)) in *. by exists taken.
Qed.

Definition source_has (l : Z) s : bool := let '(_, _, s') := retrieval l s in c_true (s_LastReadRecordCount s').
Definition source_send (l : Z) s : S := let '(_, ctx, s') := retrieval l s in s_DeleteRecords (record_ids ctx) s'.
Definition source_left s : nat := base.size (available (held s)).

Lemma source_sends l s : Tpm.EventLatency_Normal ≤ l → valid s ∧ fitting (held s) → source_has l s = true →
  ∃ t, t ≠ ∅ ∧ t ⊆ available (held s) ∧ valid (source_send l s) ∧ held (source_send l s) = Contents (available (held s) ∖ t) ∅.
Proof.
  intros Hl [Hv Hf]. unfold source_has, source_send. destruct (retrieval l s) as [[ok ctx] s'] eqn:E.
  destruct (retrieval_takes l s ok ctx s' Hv Hf Hl E) as (taken & Hv' & Hsub & En & Eh & Hids). intros Hc.
  assert (taken ≠ []) as Hne by (intros ->; by rewrite En in Hc). exists (index taken).
  destruct (delete_records (record_ids ctx) s' Hv') as [Hv2 Hspec]. split_and!; [by apply index_some|done|done|].
  rewrite Eh, <-(right_id_L ∅ (∪) (index taken)) in Hspec. rewrite (right_id_L ∅ (∪)) in Hspec at 1.
  apply (delete_answered (index taken) _ ∅) in Hspec; [done|apply map_disjoint_empty_r|by apply Hids].
Qed.

#[export] Instance storage_source : UploadSource S.
Proof using All.
  refine {| sound s := valid s ∧ fitting (held s); has := source_has; send := source_send; left := source_left |}.
  - intros l s Hl Hs Eh. destruct (source_sends l s Hl Hs Eh) as (t & _ & _ & Hv & ->). split; [done|]. by apply fitting_sub, Hs.
  - intros l s Hl Hs Eh. destruct (source_sends l s Hl Hs Eh) as (t & Hne & Hsub & _ & E). unfold source_left. rewrite E. cbn.
    rewrite <-(map_difference_union _ _ Hsub) at 2. rewrite map_size_disj_union by (by apply map_disjoint_difference_r1). apply map_size_non_empty_iff in Hne. lia.
  - intros s [Hv Hf]. unfold source_has, source_left. destruct (retrieval _ s) as [[ok ctx] s'] eqn:E. intros Hn.
    assert (s_LastReadRecordCount s' = 0) as E0 by (unfold c_true in Hn; by destruct (Z.eqb_spec (s_LastReadRecordCount s') 0)).
    apply map_size_empty_iff, map_eq. intros k. rewrite lookup_empty. destruct (available (held s) !! k) as [r|] eqn:Er; [exfalso|done].
    assert (MemoryStorage.latency r < Tpm.EventLatency_Normal) as Hlt.
    { eapply (offers_all consumer); [exact Hv|done|done|exact E|exact E0| |exact Er]. intros k' r' n E'. eapply consumer_accepts; [exact Hf| |exact E'].
      intros k2 r2 E2. apply (held_keys s); [done|by left]. }
    destruct Hf as (_ & _ & Hf). destruct (Hf k r Er). lia.
Defined.

End Source.

(** ** The storages offer what they have *)

(** Nothing taken from a list means the list was empty. *)
Lemma offer_takes {C} (consumer : C → MemoryStorage.StorageRecord → C * bool) leaseTimeMs clock rs c max c' stop : 0 < max →
  MemoryReads.offer consumer leaseTimeMs clock rs c 0 max = ([], c', stop) →
  (∀ r, r ∈ rs → (consumer c (MemoryStorage.for_consumer leaseTimeMs clock 0 r)).2 = true) → rs = [].
Proof.
  intros Hm E Hc. destruct rs as [|r rs]; [done|exfalso]. cbn in E. destruct (Z.eqb_spec max 0); [lia|].
  specialize (Hc r ltac:(by left)). destruct (consumer c _) as [c1 more]. cbn in Hc. subst more. by destruct (MemoryReads.offer _ _ _ _ _ _ _) as [[? ?] ?].
Qed.

Lemma limit_positive maxCount : 0 ≤ maxCount < 2 ^ 32 → 0 < MemoryReads.limit maxCount.
Proof. unfold MemoryReads.limit. destruct (Z.eqb_spec maxCount 0); lia. Qed.

Section Memory.
Context (sizeof_record : Z) (Hsizeof : 0 < sizeof_record).
#[local] Existing Instances memory_storage memory_contract.

Definition memory_offering : @Offering MemoryStorage.memory (memory_storage sizeof_record) (memory_contract sizeof_record Hsizeof).
Proof using All.
  split. intros C consumer leaseTimeMs minLatency maxCount clock c m ok c' m' (Hwf & Hu & _) Hmin Hmax E E0 Hc k r Er. cbn in E, E0, Hc, Er.
  destruct (MemoryReads.GetAndReserve_offered sizeof_record consumer leaseTimeMs clock c minLatency maxCount m (MemoryInvariant.wf_length _ m Hwf) Hmin ltac:(lia))
    as (taken & c1 & stop & queues' & Eo & E1 & _). rewrite E1 in E. injection E as _ _ <-. unfold MemoryStorage.LastReadRecordCount in E0. cbn [MemoryStorage.m_lastReadCount] in E0.
  pose proof (limit_positive maxCount Hmax) as Hlim. destruct (MemoryReads.offer_count _ _ _ _ _ _ (MemoryReads.limit maxCount) _ _ _ ltac:(lia) Eo) as [Hle _].
  rewrite (wrap_small 32) in E0 by (unfold ubits; pose proof (zlen_nonneg taken); unfold MemoryReads.limit in Hle; destruct (Z.eqb_spec maxCount 0); lia).
  assert (taken = []) as -> by (destruct taken; [done|]; rewrite zlen_cons in E0; pose proof (zlen_nonneg taken); lia).
  apply unique_split in Hu as (Hnd & _). pose proof (index_elem (MemoryInvariant.queued m)) as Hidx.
  assert (∀ x, x ∈ MemoryReads.candidates (MemoryStorage.m_records m) (MemoryStorage.visited minLatency) → x ∈ MemoryInvariant.queued m) as Hq.
  { intros x (lat & q & _ & Eq & Hx)%candidates_elem. apply list_elem_of_In, in_concat. exists q. rewrite <-!list_elem_of_In. split; [|done]. by eapply list_elem_of_lookup_2. }
  apply offer_takes in Eo; [|by apply limit_positive|]. 2: { intros x Hx%Hq. eapply Hc. apply Hidx; [done|by split]. }
  apply Hidx in Er as [Hin _]; [|done]. destruct (Z.lt_ge_cases (MemoryStorage.latency r) minLatency) as [|Hge]; [done|exfalso].
  pose proof (MemoryInvariant.wf_queued _ _ Hwf) as Hlat. rewrite Forall_forall in Hlat. specialize (Hlat r Hin). unfold MemoryStorage.EventLatency_Normal in Hlat.
  unfold MemoryInvariant.queued in Hin. apply list_elem_of_In, in_concat in Hin as (q & [i Eq]%list_elem_of_In%list_elem_of_lookup & Hin%list_elem_of_In).
  assert (r ∈ MemoryReads.candidates (MemoryStorage.m_records m) (MemoryStorage.visited minLatency)) as Hr; [|rewrite Eo in Hr; by apply elem_of_nil in Hr].
  apply candidates_elem. exists (MemoryStorage.latency r), q. split_and!; [apply visited_elem; lia| |done].
  pose proof (wf_placed _ _ Hwf i q Eq) as Hf. rewrite Forall_forall in Hf. by rewrite (Hf r Hin), Nat2Z.id.
Qed.

End Memory.

#[export] Instance db_offering : Offering ModelDisk.db.
Proof.
  split. intros C consumer leaseTimeMs minLatency maxCount clock c d ok c' d' Hv Hmin Hmax E E0 Hc k r Er. cbn in E, E0, Hc, Er.
  unfold ModelDisk.db_reserve in E. destruct (MemoryReads.offer _ _ _ _ _ _ _) as [[taken c1] stop] eqn:Eo. injection E as _ _ <-. change (zlen taken = 0) in E0.
  assert (taken = []) as -> by (destruct taken; [done|]; rewrite zlen_cons in E0; pose proof (zlen_nonneg taken); lia).
  destruct (Z.lt_ge_cases (MemoryStorage.latency r) minLatency) as [|Hge]; [done|exfalso].
  apply offer_takes in Eo; [|by apply limit_positive|].
  - assert (r ∈ ModelDisk.db_rows minLatency d) as Hr; [|rewrite Eo in Hr; by apply elem_of_nil in Hr].
    apply list_elem_of_filter. split; [done|]. apply list_elem_of_fmap. exists (k, r). split; [done|]. by apply elem_of_map_to_list.
  - intros x Hx. apply list_elem_of_filter in Hx as [_ ([k' x'] & -> & Hx)%list_elem_of_fmap]. apply elem_of_map_to_list in Hx. by eapply Hc.
Qed.

(** ** Example

    A started manager over the two records of [StorageLaws.ex_memory]. *)

#[local] Existing Instances ex_storage ex_contract TpmLaws.ex_backoff.
#[local] Instance ex_offering : Offering MemoryStorage.memory := memory_offering 100 ex_sizeof.
#[local] Instance ex_source : UploadSource MemoryStorage.memory := storage_source 1000 [] (λ _, 1000).

Lemma ex_fitting : fitting 1000 [] (held ex_memory).
Proof.
  split_and!; [vm_compute; done|exact ex_moderate|]. apply (bool_decide_unpack _). vm_compute. done.
Qed.

Lemma ex_waiting : waiting 4000 1000 Tpm.EventLatency_Normal TpmLaws.ex_started.
Proof. split_and!; [split; try (vm_compute; done)|vm_compute; done|]. eexists _, _. split; vm_compute; done. Qed.

Lemma uploads_drain_witness : ∃ k s' d', (k ≤ 6)%nat ∧
  cycles TpmLaws.ex_createFromConfig TpmLaws.ex_max_pending [] (λ _, None) TpmLaws.ex_thread (λ _, TpmLaws.ex_clock) 0 k (TpmLaws.ex_started, ex_memory) = (s', d') ∧
  Tpm.m_isUploadScheduled (Tpm.manager s') = false ∧ available (held d') = ∅.
Proof.
  destruct (uploads_drain TpmLaws.ex_createFromConfig TpmLaws.ex_max_pending [] (λ _, None) 4000 1000 TpmLaws.ex_thread (λ _, TpmLaws.ex_clock)
    Tpm.EventLatency_Normal TpmLaws.ex_started ex_memory ex_waiting (or_introl eq_refl)) as (k & s' & d' & Hk & E & Hi & H0); [done|done| |].
  - split; [exact ex_memory_valid|exact ex_fitting].
  - exists k, s', d'. split_and!; [|exact E|apply Hi|by apply map_size_empty_iff].
    assert (left ex_memory = 2%nat) as El by (vm_compute; done). rewrite El in Hk. exact Hk.
Defined.

End UploadSources.
